(* ===== verification/_CoqProject ===== *)
-Q . S2P
Prelude.v
ByteMem.v
BufPage.v
BufPageLayout.v
BufPageCompact.v
BufPageSpec.v
BufPageIndex.v
BufPageMulti.v
BufPageIO.v
PgLz.v
PgLzDecode.v
PgLzStream.v
PgLzHistory.v
PgLzCompress.v
Transam.v
Varsup.v
VarsupSpec.v
HeapTup.v
HeapVis.v
HeapVisSpec.v
HeapPrune.v
HeapPruneChain.v
HeapPrunePlan.v
HeapPruneGraph.v
HeapPruneExec.v
HeapPruneHints.v
HeapPruneSpec.v
HeapHot.v
HeapHotSpec.v
HeapHotSearch.v
Bits.v
Hashfn.v
SimpleHash.v
SimpleHashInv.v
SimpleHashOps.v
SimpleHashInsert.v
SimpleHashGrow.v
SimpleHashSpec.v
SimpleHashRefine.v
Bitmapset.v
BitmapsetSpec.v
Varint.v
UnionFind.v
GinPosting.v
GinCodec.v
GinPostingSpec.v
Loop.v
TidBitmap.v
TidBitmapMap.v
TidBitmapBits.v
TidBitmapTable.v
TidBitmapRep.v
TidBitmapLossify.v
TidBitmapAdd.v
TidBitmapUnion.v
TidBitmapIntersect.v
TidBitmapIter.v
TidBitmapSpec.v
FsmPage.v
FreeSpace.v
FreeSpaceSpec.v
