(* ===== verification/Prelude.v ===== *)
(** * A verification library for PostgreSQL and PostGIS core routines

    The repository builds a GDAL, PostgreSQL and PostGIS stack from source; its own
    program text in C is the PostgreSQL 16 server (src/pg-src) and PostGIS 3.4
    (src/postgis-src).  This library models, as executable definitions, components of
    the two that the rest of the system builds on and whose correctness is a matter of
    logic rather than of I/O, and proves what makes them correct.

    ** Components, files and sources

    - Prelude.v (this file): machine integers, the outcome monad [res], arrays, and the
      tactics and hint databases shared by all files.
    - ByteMem.v: byte arrays with checked memcpy, memmove and memset, and the 16- and
      32-bit fields stored in them.
    - BufPage.v: src/backend/storage/page/bufpage.c with storage/bufpage.h, itemid.h,
      off.h and checksum_impl.h, the slotted page that tables and indexes are made of.  A
      page is the list of its 8192 bytes; every function of the file is a definition of
      the same name, their loops are [find_unused], [repair_scan], [truncate_scan],
      [multi_scan], [shift_offsets], [skip_in_place], [move_tuples] and [copy_each].
    - BufPageLayout.v: the invariant [PageOK] of pages, the abstraction [items] of a page
      to the list of its items, and a decision procedure for the invariant.
      BufPageCompact.v: compaction.  BufPageSpec.v: heap pages.  BufPageIndex.v and
      BufPageMulti.v: index pages.  BufPageIO.v: initialisation, copies and checksums.
    - PgLz.v: src/common/pg_lzcompress.c, the compression of stored values: the static
      history table ([history]), the output buffer with its control byte ([outbuf]), and
      the compressor and decompressor.  PgLzDecode.v: a reference decoder and the
      decompressor's equivalence to it.  PgLzStream.v: the compressed format.
      PgLzHistory.v: the invariant of the history table.  PgLzCompress.v: the compressor.
    - Transam.v: the comparisons and arithmetic of transaction ids of access/transam.h and
      src/backend/access/transam/transam.c.  Varsup.v: src/backend/access/transam/varsup.c,
      the assignment of transaction and object ids from the shared [VariableCacheData];
      [GetNewTransactionId] is split into [xid_check], [xid_unlocked] and [xid_assign] at
      the points where it releases and takes its lock.  VarsupSpec.v: the limits as 64-bit
      identifiers, the interleavings of backends ([step]) and the theorems.
    - HeapTup.v: the tuple header and its flag bits, access/htup_details.h.  HeapVis.v:
      src/backend/access/heap/heapam_visibility.c, the visibility rules, on the record
      [HeapTupleHeaderData]; what the functions ask about transactions is the record
      [xact_state].  Each function is split into its check of the inserter ([mvcc_xmin],
      [update_xmin], ...) and of the deleter ([mvcc_xmax], [update_xmax], ...), as in the
      source.  HeapVisSpec.v: the fates of transactions, the invariant [hints_ok] of the
      hint bits, and the theorems.
    - HeapPrune.v: src/backend/access/heap/pruneheap.c, the removal of dead row versions
      from a heap page.  The functions read tuple headers from the bytes of a page of
      BufPage.v and store hint bits there; decisions are collected in the record
      [PruneState] and applied by [heap_page_prune_execute].  HeapPruneChain.v: the page
      as a graph ([edge], [hot_graph]) and the walk along one chain.  HeapPrunePlan.v: the
      invariant of the decisions ([plan_inv]), with a certificate ([cert]) for each.
      HeapPruneGraph.v: chains before and after.  HeapPruneExec.v and HeapPruneHints.v:
      the phases that rewrite the page.  HeapPruneSpec.v: the theorems.
    - HeapHot.v: the chain search of an index scan, [heap_hot_search_buffer] of heapam.c,
      and [heap_get_root_tuples] and [heap_page_prune_opt] of pruneheap.c.  HeapHotSpec.v
      and HeapHotSearch.v: what they find.
    - GinPosting.v: src/backend/access/gin/ginpostinglist.c, the compressed lists of item
      pointers of GIN indexes, as bytes in memory.  GinCodec.v: the code and the layout of a
      segment ([segment_at], [packed]).  GinPostingSpec.v: the theorems.
    - SimpleHash.v: src/include/lib/simplehash.h, the hash table template of the server, for
      any keys, contents and hash function; the loops of its insertion are [insert_restart],
      [insert_loop], [insert_empty] and [insert_shift], of its growth [grow_start],
      [grow_find] and [grow_copy].  SimpleHashInv.v: the order of the buckets ([ordered]) and
      the finite map [contents].  SimpleHashOps.v, SimpleHashInsert.v, SimpleHashGrow.v,
      SimpleHashSpec.v: lookup and deletion, insertion, growth, iteration.
      SimpleHashRefine.v: the theorems.
    - TidBitmap.v: src/backend/nodes/tidbitmap.c, the bitmaps of tuple identifiers that
      bitmap index scans build.  The file uses a hash table only through the class
      [PageTableOps]; the tables of SimpleHash.v are an instance.  Loop.v: loops bounded by a
      binary number.  TidBitmapMap.v: bitmaps as finite maps from blocks to entries.
      TidBitmapBits.v: bits of an entry.  TidBitmapTable.v: the class [PageTableLaws] of what a
      bitmap relies on, and its instance for SimpleHash.v.  TidBitmapRep.v: the operations on
      entries for any table with the laws.  TidBitmapLossify.v, TidBitmapAdd.v,
      TidBitmapUnion.v, TidBitmapIntersect.v, TidBitmapIter.v: the operations on bitmaps.
      TidBitmapSpec.v: the theorems, and reading posting lists into a bitmap.
    - FsmPage.v: src/backend/storage/freespace/fsmpage.c and fsm_internals.h, one page of
      the free space map.  The page is the record [FSMPageData]; its operations keep the
      C names ([fsm_set_avail], [fsm_search_avail], [fsm_rebuild_page], ...), their loops
      are [climb_loop], [descend_loop], [propagate_loop], [rebuild_loop], [clear_loop].
    - FreeSpace.v: src/backend/storage/freespace/freespace.c, the map as a tree of pages.
      The relation is the record [Relation]; all functions keep their names.  The file
      uses a page only through the class [FSMPageOps].
    - FreeSpaceSpec.v: the class [FSMPageLaws], its instance for the pages of FsmPage.v,
      and the theorems about the tree, proved for any page type with these laws.
    - Bitmapset.v: src/backend/nodes/bitmapset.c, the sets of small integers used
      throughout the planner; [bmsptr] is a possibly null pointer to a [Bitmapset].
    - BitmapsetSpec.v: the abstraction of a bitmapset to a finite set and the theorems.
    - UnionFind.v: liblwgeom/lwunionfind.c, disjoint sets with path compression and union
      by size, used by PostGIS's clustering functions; record [UNIONFIND].
    - Varint.v: liblwgeom/varint.c, the variable-length integers of the TWKB format.
    - Hashfn.v: src/common/hashfn.c and hashfn.h, the hash functions; Bitmapset.v calls
      them in [bms_hash_value].
    - Bits.v: src/port/pg_bitutils.c and pg_bitutils.h, bit scans and population counts;
      used by Bitmapset.v and Hashfn.v.

    ** How the code is modelled

    A w-bit integer is a [Z] with explicit wraps ([wrapu], [wraps]; signed overflow wraps,
    as the server is compiled with -fwrapv).  A C function that changes an object takes
    and returns it.  A result is [Ok], or [Err] for a raised error, or [Undef] for an
    access outside an object or an over-long shift; array accesses of the structures with
    computed indexes are checked, so a theorem that an operation returns [Ok] is also a
    theorem of memory safety.  Loops are structural recursions over the data they
    traverse or run on fuel; [OutOfFuel] is not a result of the program and the theorems
    show that it is never returned.  The fuel is: 14 for the climb and the descent on a
    map page (13 levels) and 2 for the restarts of the page search (the page is well
    formed after the first); 40000 for [fsm_search] (10002 restarts of three pages each);
    one more than the number of line pointers for the scans of a page; one or two more
    than MaxHeapTuplesPerPage (291) for the walks along HOT chains (a chain visits no line
    pointer twice); 4098 for a walk along a history list (4096 entries), 275 for the
    comparison of a match (273 bytes), 10 for the doubling copy of a match, and one more
    than the length of the input for the (de)compression loops; 5 for stepping over the
    three special transaction ids; 33 for [UF_find] (paths are shorter than 32 links); 10
    for the encoders of 64-bit integers (seven bits per byte); one more than the number of
    bytes for the decoding of posting lists; the number of buckets for the probes of a
    hash table, and 34 for the restarts of an insertion (each doubles a table of at most 2^32
    buckets); 64 for the bits of a word; 2^33 for a scan of a hash table (at most 2^32
    buckets) and 2^70 for the scan that makes pages lossy, which restarts its count of
    buckets with each page (at most 2^30 pages).

    Concurrency: transaction ids are assigned by a step relation in which any number of
    backends interleave; elsewhere the operations are sequential, and the moment in which
    [fsm_search_avail] gives up its lock is an arbitrary change of the page by other
    backends, a parameter; pruning holds the cleanup lock, but transactions go on: every
    visibility check has its own state of transactions.
    Parameters that stand for other code: the C library's [qsort] in UnionFind.v
    and TidBitmap.v,
    the contents of uninitialised blocks in BufPage.v, in Varsup.v the extension of
    the commit logs, what other backends do meanwhile, and the catalog lookup, and in
    HeapVis.v the state of transactions: process array, commit log, multixact members,
    command ids; in HeapPrune.v the removal horizons ([horizons]) and the position of the
    log record.

    ** What the theorems show

    - Pages: adding, deleting, overwriting, compacting and truncating refine operations
      on the list of items and keep the invariant, on every branch; the free space
      reported is exactly the space an insertion can use; no operation on a well-formed
      page accesses memory outside it; checksums round trip.
    - Compression: on any input the compressor stays within its buffers and its output
      decompresses to the input, in full or, from a prefix of computable size, in part;
      the decompressor agrees with the reference decoder on every input, and its read
      past the end of truncated data is exhibited.
    - Transaction ids: the circular comparisons agree with the order of the 64-bit
      identifiers within half the space; the limits keep every interleaving of backends
      within it; assignment publishes the id before the lock is released; recovery infers
      the epoch; object ids are fresh across restarts.
    - Visibility: every check is determined by the fates of the inserting and deleting
      transactions, whatever hint bits are set, and sets only hint bits that are right;
      what VACUUM may remove is invisible to every snapshot.
    - Pruning: it succeeds on every sound heap page, removes only dead versions and those
      in front of them in a chain, keeps all others byte for byte but hint bits, keeps the
      chains sound and the surviving versions reachable from every index entry, and
      leaves no dead version that it can see.  The search of an index scan finds the first
      visible version; the map from tuples to roots is right.
    - Posting lists: compression stays within the given size and decompression gives back
      what was written, also for several segments side by side; removing items never makes
      a list longer, which VACUUM relies on; merging is the union.
    - Hash tables: any sequence of operations answers as the finite map does, whatever the
      hash function; iteration visits each element once while the elements it returns are
      deleted.
    - Tuple bitmaps: iterating over any combination of additions, unions and intersections
      returns the blocks in order and misses no tuple, and what needs no recheck is right; the
      conversion of pages to lossy ones ends and keeps within the limit; posting lists read
      into a bitmap add exactly their items.
    - Free space map: categories are conservative; addressing is a bijection without
      overflow; the page search finds the first sufficient slot in round-robin order and
      terminates safely on torn pages; updates keep the heap invariant; requests never
      return a missing block; what is recorded is read back; a vacuum repairs the upper
      levels, after which requests are complete; truncation forgets exactly the removed
      blocks.
    - Bitmap sets: every operation refines the operation on finite sets, with the
      invariants, errors, ordering, iteration, counting and hashing.
    - Disjoint sets: unions compute connected components; the invariants are kept; search
      is logarithmic; the renumbering of clusters is characterised.
    - Varints: encoding and decoding are inverse and minimal; the decoder's outcome is
      characterised on every input.
    - Hashing and bits: all code paths agree, the mixing step is reversible, the portable
      routines equal their mathematical definitions.

    ** What is not modelled

    The other subsystems of the server (access methods, buffer and lock management,
    parser, planner, executor, catalogs, replication), the client programs, and the
    floating-point geometry, raster, topology and library bindings of PostGIS.  Assertions
    are disabled in the build and are not modelled.  Memory allocation succeeds; functions
    that only release memory are omitted.  Of tidbitmap.c the iteration shared by parallel
    workers is left out.

    ** Plan

    Next: the shared iteration of tuple bitmaps, range types, calendar arithmetic, and the
    arithmetic of numeric. *)

From stdpp Require Export prelude numbers list list_numbers sorting.
From stdpp Require Export gmap strings.
From Stdlib Require Export ZArith.

Declare Scope pg_scope.
Delimit Scope pg_scope with pg.
#[global] Open Scope Z_scope.

(** ** Machine integers

    A w-bit unsigned integer is a [Z] in [[0, 2^w)]; a C conversion or an
    arithmetic operation that can leave that range is followed by an explicit
    wrap.  Signed arithmetic wraps too: the build passes [-fwrapv]. *)

Definition wrapu (w x : Z) : Z := x `mod` 2 ^ w.
Definition wraps (w x : Z) : Z := (x + 2 ^ (w - 1)) `mod` 2 ^ w - 2 ^ (w - 1).

Abbreviation u8 := (wrapu 8).
Abbreviation u16 := (wrapu 16).
Abbreviation u32 := (wrapu 32).
Abbreviation u64 := (wrapu 64).
Abbreviation i8 := (wraps 8).
Abbreviation i32 := (wraps 32).
Abbreviation i64 := (wraps 64).

Definition is_u (w x : Z) : Prop := 0 <= x < 2 ^ w.
Definition is_s (w x : Z) : Prop := - 2 ^ (w - 1) <= x < 2 ^ (w - 1).

(** Bitwise complement at width [w]: C's [~x] on an unsigned type. *)
Definition notu (w x : Z) : Z := Z.lxor x (Z.ones w).
(** Left shift at width [w]: the bits shifted out are lost. *)
Definition shlu (w x n : Z) : Z := wrapu w (Z.shiftl x n).

Lemma wrapu_small w x : is_u w x -> wrapu w x = x.
Proof. apply Z.mod_small. Qed.

Lemma wrapu_range w x : 0 <= w -> is_u w (wrapu w x).
Proof. intros. apply Z.mod_pos_bound. lia. Qed.

Lemma wraps_small w x : 0 < w -> is_s w x -> wraps w x = x.
Proof.
  unfold is_s, wraps. intros Hw Hx.
  assert (2 ^ w = 2 * 2 ^ (w - 1)) by (rewrite <- Z.pow_succ_r by lia; f_equal; lia).
  rewrite Z.mod_small by lia. lia.
Qed.

Lemma wraps_range w x : 0 < w -> is_s w (wraps w x).
Proof.
  unfold is_s, wraps. intros Hw.
  assert (2 ^ w = 2 * 2 ^ (w - 1)) by (rewrite <- Z.pow_succ_r by lia; f_equal; lia).
  pose proof (Z.mod_pos_bound (x + 2 ^ (w - 1)) (2 ^ w)). lia.
Qed.

Lemma wraps_add_l w x y : wraps w (wraps w x + y) = wraps w (x + y).
Proof.
  unfold wraps. f_equal.
  replace ((x + 2 ^ (w - 1)) `mod` 2 ^ w - 2 ^ (w - 1) + y + 2 ^ (w - 1))
    with ((x + 2 ^ (w - 1)) `mod` 2 ^ w + y) by lia.
  rewrite Zplus_mod_idemp_l. f_equal. lia.
Qed.

Lemma wraps_add_r w x y : wraps w (x + wraps w y) = wraps w (x + y).
Proof. rewrite Z.add_comm, wraps_add_l. f_equal. lia. Qed.

Lemma wrapu_testbit w x i :
  0 <= w -> Z.testbit (wrapu w x) i = bool_decide (i < w) && Z.testbit x i.
Proof.
  intros. unfold wrapu. destruct (decide (0 <= i)).
  - case_bool_decide; simpl.
    + by rewrite Z.mod_pow2_bits_low by lia.
    + by rewrite Z.mod_pow2_bits_high by lia.
  - rewrite !Z.testbit_neg_r by lia. by rewrite andb_false_r.
Qed.

Lemma is_u_testbit w x i : is_u w x -> 0 <= w <= i -> Z.testbit x i = false.
Proof. intros [??] ?. apply (Z.bounded_iff_bits_nonneg w); lia. Qed.

Lemma is_u_bits w x : 0 <= w -> 0 <= x ->
  (forall i, w <= i -> Z.testbit x i = false) -> is_u w x.
Proof. intros. split; [done|]. by apply Z.bounded_iff_bits_nonneg. Qed.

Lemma ones_is_u w : 0 <= w -> is_u w (Z.ones w).
Proof. intros. unfold is_u. rewrite Z.ones_equiv. assert (0 < 2 ^ w) by lia. lia. Qed.

Lemma is_u_land_r w x y : 0 <= w -> 0 <= x -> is_u w y -> is_u w (Z.land x y).
Proof.
  intros ? ? Hy. apply is_u_bits; [done| |].
  - apply Z.land_nonneg. left. lia.
  - intros i Hi. rewrite Z.land_spec, (is_u_testbit w y) by (done || lia). apply andb_false_r.
Qed.

Lemma is_u_land_l w x y : 0 <= w -> is_u w x -> 0 <= y -> is_u w (Z.land x y).
Proof. intros. rewrite Z.land_comm. by apply is_u_land_r. Qed.

Lemma is_u_lor w x y : 0 <= w -> is_u w x -> is_u w y -> is_u w (Z.lor x y).
Proof.
  intros ? Hx Hy. apply is_u_bits; [done| |].
  - apply Z.lor_nonneg. unfold is_u in *. lia.
  - intros i Hi. by rewrite Z.lor_spec, !(is_u_testbit w) by (done || lia).
Qed.

Lemma is_u_lxor w x y : 0 <= w -> is_u w x -> is_u w y -> is_u w (Z.lxor x y).
Proof.
  intros ? Hx Hy. apply is_u_bits; [done| |].
  - apply Z.lxor_nonneg. unfold is_u in *. lia.
  - intros i Hi. by rewrite Z.lxor_spec, !(is_u_testbit w) by (done || lia).
Qed.

Lemma notu_is_u w x : 0 <= w -> is_u w x -> is_u w (notu w x).
Proof. intros. apply is_u_lxor; auto using ones_is_u. Qed.

Lemma notu_testbit w x i :
  0 <= w -> 0 <= i -> is_u w x ->
  Z.testbit (notu w x) i = bool_decide (i < w) && negb (Z.testbit x i).
Proof.
  intros ?? Hx. unfold notu. rewrite Z.lxor_spec, Z.ones_spec by lia.
  case_bool_decide; simpl.
  - by rewrite xorb_true_r.
  - by rewrite (is_u_testbit w x) by (done || lia).
Qed.

Lemma shlu_testbit w x n i :
  0 <= w -> 0 <= i -> Z.testbit (shlu w x n) i = bool_decide (i < w) && Z.testbit x (i - n).
Proof. intros. unfold shlu. by rewrite wrapu_testbit, Z.shiftl_spec by lia. Qed.

Lemma testbit_neg_index x i : i < 0 -> Z.testbit x i = false.
Proof. apply Z.testbit_neg_r. Qed.

(** Or-ing a value into the zero bits below it is addition. *)
Lemma lor_shiftl_add b n x : is_u n b -> 0 <= n -> Z.lor b (Z.shiftl x n) = b + x * 2 ^ n.
Proof.
  intros Hb Hn. rewrite <- Z.shiftl_mul_pow2 by done. rewrite <- Z.lxor_lor, <- Z.add_nocarry_lxor; try done.
  all: apply Z.bits_inj'; intros i Hi; rewrite Z.land_spec, Z.shiftl_spec, Z.bits_0 by lia;
    destruct (decide (i < n)); [by rewrite (Z.testbit_neg_r x), andb_false_r by lia|
                                by rewrite (is_u_testbit n b) by (done || lia)].
Qed.

(** A boolean property of bytes is checked by enumeration. *)
Lemma byte_forall (P : Z -> bool) :
  forallb P (seqZ 0 256) = true -> forall b, is_u 8 b -> P b = true.
Proof.
  intros H b Hb. rewrite forallb_forall in H. apply H, list_elem_of_In, elem_of_seqZ.
  unfold is_u in Hb. lia.
Qed.

(** The bit-level rewriting of the development: push [Z.testbit] through the
    word operations, leaving boolean formulas over the bits of the inputs. *)
Create Rewrite HintDb wordbits.
#[export] Hint Rewrite Z.lor_spec Z.land_spec Z.lxor_spec Z.ldiff_spec
  Z.testbit_0_l Z.bits_0 : wordbits.
#[export] Hint Rewrite wrapu_testbit notu_testbit shlu_testbit Z.shiftl_spec Z.shiftr_spec
  Z.ones_spec using (first [done | lia]) : wordbits.

Create HintDb words discriminated.
#[export] Hint Resolve ones_is_u is_u_land_r is_u_land_l is_u_lor is_u_lxor notu_is_u
  wrapu_range : words.
#[export] Hint Extern 1 (_ <= _) => (unfold is_u in *; lia) : words.
#[export] Hint Extern 1 (_ < _) => (unfold is_u in *; lia) : words.

Ltac bdestruct_all :=
  repeat (case_bool_decide || match goal with
    | |- context [if decide ?P then _ else _] => destruct (decide P)
    end).

(** Case analysis on the boolean comparisons of [Z] in the goal or hypotheses. *)
Ltac zcase :=
  match goal with
  | |- context [?a <? ?b] => destruct (Z.ltb_spec a b)
  | |- context [?a <=? ?b] => destruct (Z.leb_spec a b)
  | |- context [?a =? ?b] => destruct (Z.eqb_spec a b)
  | H : context [?a <? ?b] |- _ => destruct (Z.ltb_spec a b)
  | H : context [?a <=? ?b] |- _ => destruct (Z.leb_spec a b)
  | H : context [?a =? ?b] |- _ => destruct (Z.eqb_spec a b)
  end.

(** ** Build configuration: the block size and the size of the page header *)
Definition BLCKSZ : Z := 8192.
Definition SizeOfPageHeaderData : Z := 24.

(** ** Outcomes

    [Ok] is a normal return; [Err] is [ereport]/[elog] at level ERROR (or
    [lwerror] in liblwgeom), which does not return to the caller; [Undef] marks
    an access outside an object or a shift by at least the operand width, which
    the C standard leaves undefined; [OutOfFuel] is the model's own bound on an
    unbounded loop and never a result of the program. *)
Inductive res (A : Type) : Type :=
| Ok (a : A)
| Err (msg : string)
| Undef
| OutOfFuel.
Arguments Ok {A} a.
Arguments Err {A} msg%_string.
Arguments Undef {A}.
Arguments OutOfFuel {A}.

#[export] Instance res_ret : MRet res := @Ok.
#[export] Instance res_bind : MBind res := fun A B k m =>
  match m with
  | Ok a => k a
  | Err e => Err e
  | Undef => Undef
  | OutOfFuel => OutOfFuel
  end.

#[export] Instance res_eq_dec `{EqDecision A} : EqDecision (res A).
Proof. solve_decision. Defined.

Lemma bind_val {A B} (a : A) (k : A -> res B) : (Ok a ≫= k) = k a.
Proof. done. Qed.

Lemma bind_Ok {A B} (m : res A) (k : A -> res B) b :
  (m ≫= k) = Ok b <-> exists a, m = Ok a /\ k a = Ok b.
Proof. destruct m; unfold mbind, res_bind; naive_solver. Qed.

(** Reading and writing an array cell with C's rule: out of bounds is undefined. *)
Definition aget {A} (l : list A) (i : Z) : res A :=
  if i <? 0 then Undef else match l !! Z.to_nat i with Some x => Ok x | None => Undef end.
Definition aset {A} (l : list A) (i : Z) (x : A) : res (list A) :=
  if (i <? 0) || (Z.of_nat (length l) <=? i) then Undef else Ok (<[Z.to_nat i := x]> l).

(** Unchecked access for indices an invariant keeps in range. *)
Definition nthZ (l : list Z) (i : Z) : Z := nth (Z.to_nat i) l 0.

Lemma aget_Ok {A} (l : list A) i x :
  aget l i = Ok x <-> 0 <= i /\ l !! Z.to_nat i = Some x.
Proof. unfold aget. destruct (Z.ltb_spec i 0), (l !! Z.to_nat i) eqn:?; naive_solver lia. Qed.

Lemma aget_nthZ l i : 0 <= i < Z.of_nat (length l) -> aget l i = Ok (nthZ l i).
Proof.
  intros. apply aget_Ok. split; [lia|]. unfold nthZ.
  apply nth_lookup_Some with (d := 0) || rewrite nth_lookup.
  destruct (lookup_lt_is_Some_2 l (Z.to_nat i)) as [x Hx]; [lia|]. by rewrite Hx.
Qed.

Lemma aset_Ok {A} (l : list A) i (x : A) :
  0 <= i < Z.of_nat (length l) -> aset l i x = Ok (<[Z.to_nat i := x]> l).
Proof. intros. unfold aset. destruct (Z.ltb_spec i 0), (Z.leb_spec (Z.of_nat (length l)) i); try lia. done. Qed.

Lemma nthZ_insert l i j x : 0 <= i < Z.of_nat (length l) -> 0 <= j ->
  nthZ (<[Z.to_nat i := x]> l) j = if decide (i = j) then x else nthZ l j.
Proof.
  intros. unfold nthZ. rewrite !nth_lookup. case_decide; subst.
  - by rewrite list_lookup_insert_eq by lia.
  - by rewrite list_lookup_insert_ne by lia.
Qed.

Lemma nthZ_overflow l i : Z.of_nat (length l) <= i -> nthZ l i = 0.
Proof. intros. unfold nthZ. apply nth_overflow. lia. Qed.

Lemma nthZ_replicate_0 n i : nthZ (replicate n 0) i = 0.
Proof.
  unfold nthZ. rewrite nth_lookup. destruct (replicate n 0 !! _) eqn:E; [|done].
  by apply lookup_replicate in E as [-> _].
Qed.

Lemma nthZ_app l1 l2 i : 0 <= i ->
  nthZ (l1 ++ l2) i = if decide (i < Z.of_nat (length l1)) then nthZ l1 i else nthZ l2 (i - Z.of_nat (length l1)).
Proof.
  intros. unfold nthZ. case_decide.
  - rewrite app_nth1 by lia. done.
  - rewrite app_nth2 by lia. f_equal. lia.
Qed.

Lemma nthZ_ext l l' : length l = length l' ->
  (forall i, 0 <= i < Z.of_nat (length l) -> nthZ l i = nthZ l' i) -> l = l'.
Proof.
  intros Hlen H. apply (nth_ext _ _ 0 0); [done|]. intros n Hn.
  specialize (H (Z.of_nat n) ltac:(lia)). unfold nthZ in H. by rewrite Nat2Z.id in H.
Qed.

Lemma Forall_nthZ (P : Z -> Prop) l i : P 0 -> Forall P l -> P (nthZ l i).
Proof.
  intros H0 Hl. unfold nthZ. rewrite nth_lookup. destruct (l !! _) eqn:E; simpl; [|done].
  by eapply Forall_lookup_1.
Qed.

(** Run the array accesses of a monadic program whose indices are in range. *)
Ltac run_arrays :=
  repeat (first [rewrite aget_nthZ by (rewrite ?length_insert; lia)
                |rewrite aset_Ok by (rewrite ?length_insert; lia)]; cbn [mbind res_bind]).

(** Remove the wraps of values that are in range, innermost first. *)
Ltac unwrap :=
  repeat match goal with
  | |- context [wrapu ?w ?x] =>
    lazymatch x with
    | context [wrapu _ _] => fail
    | context [wraps _ _] => fail
    | _ => rewrite (wrapu_small w x) by (unfold is_u; lia)
    end
  | |- context [wraps ?w ?x] =>
    lazymatch x with
    | context [wrapu _ _] => fail
    | context [wraps _ _] => fail
    | _ => rewrite (wraps_small w x) by (unfold is_s; lia)
    end
  end.
