(* ===== verification/ByteMem.v ===== *)
(** Byte-addressed memory objects.

    An object of the program (a disk page in a shared buffer, a scratch block on
    the stack, a tuple) is the list of its bytes, each a [Z] in [0, 256).
    [memcpy], [memmove] and [memset] copy or fill ranges and are undefined as
    soon as a range leaves its object; the 16- and 32-bit loads and stores are
    little-endian, as on the machines the program is built for.  The lemmas
    describe every write by what a later read of any address returns. *)
From S2P Require Import Prelude.

(** ** Ranges of an object *)
Definition lenZ {A} (m : list A) : Z := Z.of_nat (length m).
Definition in_object (m : list Z) (a n : Z) : bool :=
  (0 <=? a) && (0 <=? n) && (a + n <=? lenZ m).
(** The [n] bytes from address [a] on. *)
Definition bytes_at (m : list Z) (a n : Z) : list Z :=
  take (Z.to_nat n) (drop (Z.to_nat a) m).
(** The object with the bytes from [a] on replaced by [bs]. *)
Definition splice (m : list Z) (a : Z) (bs : list Z) : list Z :=
  take (Z.to_nat a) m ++ bs ++ drop (Z.to_nat a + length bs) m.

(** ** The C library's block operations *)
Definition memcpy (dst : list Z) (d : Z) (src : list Z) (s n : Z) : res (list Z) :=
  if in_object dst d n && in_object src s n then Ok (splice dst d (bytes_at src s n)) else Undef.
(** Source and destination in one object; they may overlap. *)
Definition memmove (m : list Z) (d s n : Z) : res (list Z) := memcpy m d m s n.
Definition memset (m : list Z) (a v n : Z) : res (list Z) :=
  if in_object m a n then Ok (splice m a (replicate (Z.to_nat n) (wrapu 8 v))) else Undef.

(** ** Loads and stores of 16- and 32-bit units *)
Definition get16 (m : list Z) (a : Z) : Z := nthZ m a + 256 * nthZ m (a + 1).
Definition put16 (m : list Z) (a v : Z) : list Z :=
  splice m a [v `mod` 256; (v / 256) `mod` 256].
Definition get32 (m : list Z) (a : Z) : Z := get16 m a + 65536 * get16 m (a + 2).
Definition put32 (m : list Z) (a v : Z) : list Z :=
  splice m a [v `mod` 256; (v / 256) `mod` 256; (v / 65536) `mod` 256; (v / 16777216) `mod` 256].

Definition all_bytes (m : list Z) : Prop := Forall (is_u 8) m.

(** Arithmetic on the lengths of explicit byte lists. *)
Ltac lens := unfold lenZ in *; simpl length in *; lia.

(** ** What a read sees after a write *)
Lemma lenZ_nonneg {A} (m : list A) : 0 <= lenZ m.
Proof. unfold lenZ. lia. Qed.

Lemma lenZ_app {A} (l l' : list A) : lenZ (l ++ l') = lenZ l + lenZ l'.
Proof. unfold lenZ. rewrite length_app. lia. Qed.

Lemma in_object_spec m a n : in_object m a n = true <-> 0 <= a /\ 0 <= n /\ a + n <= lenZ m.
Proof. unfold in_object. rewrite !andb_true_iff, !Z.leb_le. tauto. Qed.

Lemma lenZ_splice m a bs : 0 <= a -> a + lenZ bs <= lenZ m -> lenZ (splice m a bs) = lenZ m.
Proof. unfold lenZ, splice. intros. rewrite !length_app, length_take, length_drop. lia. Qed.

Lemma nthZ_take n m i : 0 <= i < n -> nthZ (take (Z.to_nat n) m) i = nthZ m i.
Proof. intros. unfold nthZ. rewrite !nth_lookup, lookup_take_lt by lia. done. Qed.

Lemma nthZ_drop n m i : 0 <= n -> 0 <= i -> nthZ (drop (Z.to_nat n) m) i = nthZ m (n + i).
Proof.
  intros. unfold nthZ. rewrite !nth_lookup, lookup_drop.
  by replace (Z.to_nat n + Z.to_nat i)%nat with (Z.to_nat (n + i)) by lia.
Qed.

Lemma nthZ_splice m a bs i : 0 <= a -> a + lenZ bs <= lenZ m -> 0 <= i ->
  nthZ (splice m a bs) i = if decide (a <= i < a + lenZ bs) then nthZ bs (i - a) else nthZ m i.
Proof.
  unfold lenZ, splice. intros Ha Hl Hi.
  assert (Ht : length (take (Z.to_nat a) m) = Z.to_nat a) by (rewrite length_take; lia).
  rewrite nthZ_app by done. rewrite Ht. case_decide.
  - rewrite decide_False by lia. apply nthZ_take. lia.
  - rewrite nthZ_app by lia. case_decide.
    + rewrite decide_True by lia. f_equal. lia.
    + rewrite decide_False by lia.
      replace (Z.to_nat a + length bs)%nat with (Z.to_nat (a + Z.of_nat (length bs))) by lia.
      rewrite nthZ_drop by lia. f_equal. lia.
Qed.

Lemma lenZ_bytes_at m a n : 0 <= a -> 0 <= n -> a + n <= lenZ m -> lenZ (bytes_at m a n) = n.
Proof. unfold lenZ, bytes_at. intros. rewrite length_take, length_drop. lia. Qed.

Lemma nthZ_bytes_at m a n i : 0 <= a -> 0 <= i < n -> nthZ (bytes_at m a n) i = nthZ m (a + i).
Proof. intros. unfold bytes_at. rewrite nthZ_take, nthZ_drop by lia. done. Qed.

Lemma list_eq_nthZ l l' : lenZ l = lenZ l' ->
  (forall i, 0 <= i < lenZ l -> nthZ l i = nthZ l' i) -> l = l'.
Proof. unfold lenZ. intros ? H. apply nthZ_ext; [lia|done]. Qed.

(** Two ranges with the same bytes. *)
Lemma bytes_at_eq m a m' a' n :
  0 <= a -> a + n <= lenZ m -> 0 <= a' -> a' + n <= lenZ m' ->
  (forall d, 0 <= d < n -> nthZ m (a + d) = nthZ m' (a' + d)) -> bytes_at m a n = bytes_at m' a' n.
Proof.
  intros ? ? ? ? H. destruct (decide (0 <= n)) as [Hn|Hn].
  - apply list_eq_nthZ; rewrite !lenZ_bytes_at by lia; [done|].
    intros i Hi. rewrite !nthZ_bytes_at by lia. by apply H.
  - unfold bytes_at. replace (Z.to_nat n) with 0%nat by lia. by rewrite !take_0.
Qed.

Lemma bytes_at_splice_same m a bs : 0 <= a -> a + lenZ bs <= lenZ m ->
  bytes_at (splice m a bs) a (lenZ bs) = bs.
Proof.
  intros. pose proof (lenZ_nonneg bs). apply list_eq_nthZ.
  - rewrite lenZ_bytes_at; rewrite ?lenZ_splice; lia.
  - intros i Hi. rewrite lenZ_bytes_at in Hi by (rewrite ?lenZ_splice; lia).
    rewrite nthZ_bytes_at, nthZ_splice by lia. rewrite decide_True by lia. f_equal. lia.
Qed.

(** A successful copy, address by address. *)
Lemma memcpy_spec dst d src s n :
  0 <= d -> 0 <= s -> 0 <= n -> d + n <= lenZ dst -> s + n <= lenZ src ->
  exists m, memcpy dst d src s n = Ok m /\ lenZ m = lenZ dst /\
    forall i, 0 <= i -> nthZ m i = if decide (d <= i < d + n) then nthZ src (s + (i - d)) else nthZ dst i.
Proof.
  intros. unfold memcpy. rewrite !(proj2 (in_object_spec _ _ _)) by lia. simpl.
  assert (Hb : lenZ (bytes_at src s n) = n) by (apply lenZ_bytes_at; lia).
  eexists; split; [done|]. split; [apply lenZ_splice; lia|].
  intros i Hi. rewrite nthZ_splice by lia. rewrite Hb. case_decide; [|done].
  rewrite nthZ_bytes_at by lia. done.
Qed.

Lemma memset_spec m a v n : 0 <= a -> 0 <= n -> a + n <= lenZ m ->
  exists m', memset m a v n = Ok m' /\ lenZ m' = lenZ m /\
    forall i, 0 <= i -> nthZ m' i = if decide (a <= i < a + n) then wrapu 8 v else nthZ m i.
Proof.
  intros. unfold memset. rewrite (proj2 (in_object_spec _ _ _)) by lia.
  assert (Hb : lenZ (replicate (Z.to_nat n) (wrapu 8 v)) = n)
    by (unfold lenZ; rewrite length_replicate; lia).
  eexists; split; [done|]. split; [apply lenZ_splice; lia|].
  intros i Hi. rewrite nthZ_splice by lia. rewrite Hb. case_decide; [|done].
  unfold nthZ. rewrite nth_lookup, lookup_replicate_2 by lia. done.
Qed.

(** ** Loads and stores *)
Lemma get16_ext m a m' a' : nthZ m a = nthZ m' a' -> nthZ m (a + 1) = nthZ m' (a' + 1) ->
  get16 m a = get16 m' a'.
Proof. unfold get16. by intros -> ->. Qed.

Lemma get32_ext m a m' a' : (forall d, 0 <= d < 4 -> nthZ m (a + d) = nthZ m' (a' + d)) ->
  get32 m a = get32 m' a'.
Proof.
  intros H. unfold get32. f_equal; [|f_equal]; apply get16_ext.
  - by rewrite <- (Z.add_0_r a), <- (Z.add_0_r a'), H by lia.
  - by rewrite H by lia.
  - by rewrite H by lia.
  - rewrite <- !Z.add_assoc. by rewrite H by lia.
Qed.

Lemma is_u_nthZ m a : all_bytes m -> is_u 8 (nthZ m a).
Proof. intros. apply (Forall_nthZ (is_u 8)); [|done]. unfold is_u. lia. Qed.

Lemma get16_is_u m a : all_bytes m -> is_u 16 (get16 m a).
Proof.
  intros H. pose proof (is_u_nthZ m a H). pose proof (is_u_nthZ m (a + 1) H).
  unfold is_u, get16 in *. lia.
Qed.

Lemma get32_is_u m a : all_bytes m -> is_u 32 (get32 m a).
Proof.
  intros H. pose proof (get16_is_u m a H). pose proof (get16_is_u m (a + 2) H).
  unfold is_u, get32 in *. lia.
Qed.

Lemma lenZ_put16 m a v : 0 <= a -> a + 2 <= lenZ m -> lenZ (put16 m a v) = lenZ m.
Proof. apply (lenZ_splice m a [_; _]). Qed.

Lemma lenZ_put32 m a v : 0 <= a -> a + 4 <= lenZ m -> lenZ (put32 m a v) = lenZ m.
Proof. apply (lenZ_splice m a [_; _; _; _]). Qed.

(** Addresses outside the stored unit keep their byte. *)
Lemma nthZ_put16_ne m a v i : 0 <= a -> a + 2 <= lenZ m -> 0 <= i -> i < a \/ a + 2 <= i ->
  nthZ (put16 m a v) i = nthZ m i.
Proof. intros. unfold put16. rewrite nthZ_splice by lens. rewrite decide_False; [done|lens]. Qed.

Lemma nthZ_put32_ne m a v i : 0 <= a -> a + 4 <= lenZ m -> 0 <= i -> i < a \/ a + 4 <= i ->
  nthZ (put32 m a v) i = nthZ m i.
Proof. intros. unfold put32. rewrite nthZ_splice by lens. rewrite decide_False; [done|lens]. Qed.

Lemma get16_put16 m a v : 0 <= a -> a + 2 <= lenZ m -> is_u 16 v -> get16 (put16 m a v) a = v.
Proof.
  intros ? ? Hv. unfold get16, put16. rewrite !nthZ_splice by lens.
  rewrite !decide_True by lens. rewrite Z.sub_diag. replace (a + 1 - a) with 1 by lia.
  unfold nthZ, is_u in *. change (Z.to_nat 0) with 0%nat; change (Z.to_nat 1) with 1%nat;
    change (Z.to_nat 2) with 2%nat; change (Z.to_nat 3) with 3%nat; cbn [nth]. Z.to_euclidean_division_equations. lia.
Qed.

Lemma get32_put32 m a v : 0 <= a -> a + 4 <= lenZ m -> is_u 32 v -> get32 (put32 m a v) a = v.
Proof.
  intros ? ? Hv. unfold get32, get16, put32. rewrite !nthZ_splice by lens.
  rewrite !decide_True by lens. rewrite Z.sub_diag. replace (a + 1 - a) with 1 by lia.
  replace (a + 2 - a) with 2 by lia. replace (a + 2 + 1 - a) with 3 by lia.
  unfold nthZ, is_u in *. change (Z.to_nat 0) with 0%nat; change (Z.to_nat 1) with 1%nat;
    change (Z.to_nat 2) with 2%nat; change (Z.to_nat 3) with 3%nat; cbn [nth].
  assert (v / 65536 = v / 256 / 256) as -> by (rewrite Z.div_div by lia; done).
  assert (v / 16777216 = v / 256 / 256 / 256) as -> by (rewrite !Z.div_div by lia; done).
  assert (0 <= v / 256 / 256 / 256 < 256) by (rewrite !Z.div_div by lia; split; [apply Z.div_pos; lia|apply Z.div_lt_upper_bound; lia]).
  Z.to_euclidean_division_equations. lia.
Qed.

Lemma get16_put16_ne m a v b : 0 <= a -> a + 2 <= lenZ m -> 0 <= b -> b + 2 <= a \/ a + 2 <= b ->
  get16 (put16 m a v) b = get16 m b.
Proof. intros. apply get16_ext; apply nthZ_put16_ne; lia. Qed.

Lemma get16_put32_ne m a v b : 0 <= a -> a + 4 <= lenZ m -> 0 <= b -> b + 2 <= a \/ a + 4 <= b ->
  get16 (put32 m a v) b = get16 m b.
Proof. intros. apply get16_ext; apply nthZ_put32_ne; lia. Qed.

Lemma get32_put16_ne m a v b : 0 <= a -> a + 2 <= lenZ m -> 0 <= b -> b + 4 <= a \/ a + 2 <= b ->
  get32 (put16 m a v) b = get32 m b.
Proof. intros. apply get32_ext. intros. apply nthZ_put16_ne; lia. Qed.

Lemma get32_put32_ne m a v b : 0 <= a -> a + 4 <= lenZ m -> 0 <= b -> b + 4 <= a \/ a + 4 <= b ->
  get32 (put32 m a v) b = get32 m b.
Proof. intros. apply get32_ext. intros. apply nthZ_put32_ne; lia. Qed.

(** ** Contents stay bytes *)
Lemma all_bytes_splice m a bs : all_bytes m -> all_bytes bs -> all_bytes (splice m a bs).
Proof. intros. unfold all_bytes, splice. rewrite !Forall_app. eauto using Forall_take, Forall_drop. Qed.

Lemma all_bytes_put16 m a v : all_bytes m -> all_bytes (put16 m a v).
Proof. intros. apply all_bytes_splice; [done|]. repeat apply Forall_cons_2; try done; by apply (Z.mod_pos_bound _ 256). Qed.

Lemma all_bytes_put32 m a v : all_bytes m -> all_bytes (put32 m a v).
Proof. intros. apply all_bytes_splice; [done|]. repeat apply Forall_cons_2; try done; by apply (Z.mod_pos_bound _ 256). Qed.

Lemma all_bytes_memcpy dst d src s n m :
  all_bytes dst -> all_bytes src -> memcpy dst d src s n = Ok m -> all_bytes m.
Proof.
  unfold memcpy. intros ? ? H. destruct (_ && _); simplify_eq.
  apply all_bytes_splice; [done|]. unfold bytes_at. by apply Forall_take, Forall_drop.
Qed.

Lemma all_bytes_memset m a v n m' : all_bytes m -> memset m a v n = Ok m' -> all_bytes m'.
Proof.
  unfold memset. intros ? H. destruct (in_object _ _ _); simplify_eq. apply all_bytes_splice; [done|].
  apply Forall_replicate. by apply wrapu_range.
Qed.

Create HintDb mem discriminated.
#[export] Hint Resolve all_bytes_put16 all_bytes_put32 all_bytes_splice : mem.
