(* ===== verification/BufPage.v ===== *)
(** Buffer pages: the slotted page layout of every table and index block.

    Models [src/backend/storage/page/bufpage.c] with the accessors of
    [storage/bufpage.h], [storage/itemid.h], [storage/off.h] and the checksum of
    [storage/checksum_impl.h].  A page is the list of its [BLCKSZ] bytes: header
    fields, line pointers and tuples are read from and written to the same
    memory, so that a write that went astray would be seen by every later read.
    An access outside the page or past the end of a local array is [Undef];
    [ereport] at ERROR or PANIC is [Err]; WARNING messages are not modelled.
    The properties are proved in [BufPageSpec]. *)
From S2P Require Import Prelude ByteMem.

(** The bytes of a block. *)
Abbreviation Page := (list Z).

(** ** Alignment *)
Definition MAXALIGN (len : Z) : Z := Z.land (wrapu 64 (len + 7)) (notu 64 7).

(** ** Line pointers *)
Record ItemIdData := mkItemId { lp_off : Z; lp_flags : Z; lp_len : Z }.
(** The bit-field of a line pointer, low bits first: 15, 2 and 15 bits. *)
Definition itemid_pack (l : ItemIdData) : Z :=
  lp_off l `mod` 32768 + 32768 * (lp_flags l `mod` 4) + 131072 * (lp_len l `mod` 32768).
Definition itemid_unpack (w : Z) : ItemIdData :=
  mkItemId (w `mod` 32768) ((w / 32768) `mod` 4) ((w / 131072) `mod` 32768).

Definition LP_UNUSED : Z := 0.
Definition LP_NORMAL : Z := 1.
Definition LP_REDIRECT : Z := 2.
Definition LP_DEAD : Z := 3.

Definition ItemIdGetLength (l : ItemIdData) : Z := lp_len l.
Definition ItemIdGetOffset (l : ItemIdData) : Z := lp_off l.
Definition ItemIdIsUsed (l : ItemIdData) : bool := negb (lp_flags l =? LP_UNUSED).
Definition ItemIdHasStorage (l : ItemIdData) : bool := negb (lp_len l =? 0).
Definition ItemIdSetUnused (l : ItemIdData) : ItemIdData := mkItemId 0 LP_UNUSED 0.
Definition ItemIdSetNormal (l : ItemIdData) (off len : Z) : ItemIdData := mkItemId off LP_NORMAL len.
Definition set_lp_off (l : ItemIdData) (off : Z) : ItemIdData :=
  mkItemId (off `mod` 32768) (lp_flags l) (lp_len l).

(** ** Offset numbers *)
Definition InvalidOffsetNumber : Z := 0.
Definition FirstOffsetNumber : Z := 1.
Definition MaxOffsetNumber : Z := BLCKSZ / 4.
Definition OffsetNumberIsValid (off : Z) : bool :=
  negb (off =? InvalidOffsetNumber) && (off <=? MaxOffsetNumber).
Definition OffsetNumberNext (off : Z) : Z := wrapu 16 (1 + off).

(** ** Header fields *)
Definition pd_checksum (p : Page) : Z := get16 p 8.
Definition pd_flags (p : Page) : Z := get16 p 10.
Definition pd_lower (p : Page) : Z := get16 p 12.
Definition pd_upper (p : Page) : Z := get16 p 14.
Definition pd_special (p : Page) : Z := get16 p 16.
Definition pd_pagesize_version (p : Page) : Z := get16 p 18.
Definition set_pd_checksum (p : Page) (v : Z) : Page := put16 p 8 (wrapu 16 v).
Definition set_pd_flags (p : Page) (v : Z) : Page := put16 p 10 (wrapu 16 v).
Definition set_pd_lower (p : Page) (v : Z) : Page := put16 p 12 (wrapu 16 v).
Definition set_pd_upper (p : Page) (v : Z) : Page := put16 p 14 (wrapu 16 v).
Definition set_pd_special (p : Page) (v : Z) : Page := put16 p 16 (wrapu 16 v).
Definition set_pd_pagesize_version (p : Page) (v : Z) : Page := put16 p 18 (wrapu 16 v).

Definition PD_HAS_FREE_LINES : Z := 1.
Definition PD_VALID_FLAG_BITS : Z := 7.
Definition PG_PAGE_LAYOUT_VERSION : Z := 4.

Definition PageIsEmpty (p : Page) : bool := pd_lower p <=? SizeOfPageHeaderData.
Definition PageIsNew (p : Page) : bool := pd_upper p =? 0.
Definition PageGetPageSize (p : Page) : Z := Z.land (pd_pagesize_version p) 65280.
Definition PageSetPageSizeAndVersion (p : Page) (size version : Z) : Page :=
  set_pd_pagesize_version p (Z.lor size version).
Definition PageGetSpecialSize (p : Page) : Z := wrapu 16 (PageGetPageSize p - pd_special p).
Definition PageGetMaxOffsetNumber (p : Page) : Z :=
  if pd_lower p <=? SizeOfPageHeaderData then 0
  else wrapu 16 ((pd_lower p - SizeOfPageHeaderData) / 4).
Definition PageHasFreeLinePointers (p : Page) : bool :=
  negb (Z.land (pd_flags p) PD_HAS_FREE_LINES =? 0).
Definition PageSetHasFreeLinePointers (p : Page) : Page :=
  set_pd_flags p (Z.lor (pd_flags p) PD_HAS_FREE_LINES).
Definition PageClearHasFreeLinePointers (p : Page) : Page :=
  set_pd_flags p (Z.land (pd_flags p) (notu 32 PD_HAS_FREE_LINES)).

(** The address of a line pointer, and its load and store. *)
Definition PageGetItemId (offsetNumber : Z) : Z := SizeOfPageHeaderData + 4 * (offsetNumber - 1).
Definition load_lp (p : Page) (itemId : Z) : res ItemIdData :=
  if in_object p itemId 4 then Ok (itemid_unpack (get32 p itemId)) else Undef.
Definition store_lp (p : Page) (itemId : Z) (l : ItemIdData) : res Page :=
  if in_object p itemId 4 then Ok (put32 p itemId (itemid_pack l)) else Undef.

(** ** Initialisation *)
Definition PageInit (p : Page) (pageSize specialSize : Z) : res Page :=
  let specialSize := MAXALIGN specialSize in
  p ← memset p 0 0 pageSize;
  let p := set_pd_flags p 0 in
  let p := set_pd_lower p SizeOfPageHeaderData in
  let p := set_pd_upper p (wrapu 64 (pageSize - specialSize)) in
  let p := set_pd_special p (wrapu 64 (pageSize - specialSize)) in
  Ok (PageSetPageSizeAndVersion p pageSize PG_PAGE_LAYOUT_VERSION).

(** ** Adding an item *)
Definition PAI_OVERWRITE : Z := 1.
Definition PAI_IS_HEAP : Z := 2.
(** (BLCKSZ - SizeOfPageHeaderData) / (MAXALIGN(SizeofHeapTupleHeader) + sizeof(ItemIdData)) *)
Definition MaxHeapTuplesPerPage : Z := (BLCKSZ - SizeOfPageHeaderData) / (MAXALIGN 23 + 4).
(** (BLCKSZ - SizeOfPageHeaderData) / (MAXALIGN(sizeof(IndexTupleData) + 1) + sizeof(ItemIdData)) *)
Definition MaxIndexTuplesPerPage : Z := (BLCKSZ - SizeOfPageHeaderData) / (MAXALIGN (8 + 1) + 4).

(** The scan for a recyclable line pointer: the first unused one, or [limit]. *)
Fixpoint find_unused (fuel : nat) (p : Page) (offsetNumber limit : Z) : res Z :=
  match fuel with
  | O => OutOfFuel
  | S fuel =>
    if offsetNumber <? limit then
      itemId ← load_lp p (PageGetItemId offsetNumber);
      if negb (ItemIdIsUsed itemId) && negb (ItemIdHasStorage itemId) then Ok offsetNumber
      else find_unused fuel p (wrapu 16 (offsetNumber + 1)) limit
    else Ok offsetNumber
  end.

(** What the selection of the slot decides: the item is refused, or goes to a
    slot of a page whose hint may have been cleared, with or without shuffling. *)
Inductive slot_choice :=
| Refused
| Slot (p : Page) (offsetNumber : Z) (needshuffle : bool).

Definition select_slot (p : Page) (offsetNumber limit flags : Z) : res slot_choice :=
  if OffsetNumberIsValid offsetNumber then
    if negb (Z.land flags PAI_OVERWRITE =? 0) then
      if offsetNumber <? limit then
        itemId ← load_lp p (PageGetItemId offsetNumber);
        if ItemIdIsUsed itemId || ItemIdHasStorage itemId then Ok Refused
        else Ok (Slot p offsetNumber false)
      else Ok (Slot p offsetNumber false)
    else Ok (Slot p offsetNumber (offsetNumber <? limit))
  else if PageHasFreeLinePointers p then
    off ← find_unused (S (Z.to_nat limit)) p FirstOffsetNumber limit;
    if limit <=? off then Ok (Slot (PageClearHasFreeLinePointers p) off false)
    else Ok (Slot p off false)
  else Ok (Slot p limit false).

Definition PageAddItemExtended (p : Page) (item : list Z) (size offsetNumber flags : Z) : res (Page * Z) :=
  if (pd_lower p <? SizeOfPageHeaderData) || (pd_upper p <? pd_lower p) ||
     (pd_special p <? pd_upper p) || (BLCKSZ <? pd_special p)
  then Err "corrupted page pointers" else
  let limit := OffsetNumberNext (PageGetMaxOffsetNumber p) in
  choice ← select_slot p offsetNumber limit flags;
  match choice with
  | Refused => Ok (p, InvalidOffsetNumber)
  | Slot p offsetNumber needshuffle =>
    if limit <? offsetNumber then Ok (p, InvalidOffsetNumber)
    else if negb (Z.land flags PAI_IS_HEAP =? 0) && (MaxHeapTuplesPerPage <? offsetNumber)
    then Ok (p, InvalidOffsetNumber)
    else
      let lower := if (offsetNumber =? limit) || needshuffle then pd_lower p + 4 else pd_lower p in
      let alignedSize := MAXALIGN size in
      let upper := wraps 32 (pd_upper p - wraps 32 alignedSize) in
      if upper <? lower then Ok (p, InvalidOffsetNumber)
      else
        let itemId := PageGetItemId offsetNumber in
        p ← (if needshuffle then memmove p (itemId + 4) itemId ((limit - offsetNumber) * 4) else Ok p);
        l ← load_lp p itemId;
        p ← store_lp p itemId (ItemIdSetNormal l upper size);
        p ← memcpy p upper item 0 size;
        let p := set_pd_lower p lower in
        let p := set_pd_upper p upper in
        Ok (p, offsetNumber)
  end.

(** ** Temporary pages: [temp] is the block [palloc] returns, with any contents *)
Definition PageGetTempPageCopy (p temp : Page) : res Page :=
  memcpy temp 0 p 0 (PageGetPageSize p).
Definition PageGetTempPageCopySpecial (p temp : Page) : res Page :=
  let pageSize := PageGetPageSize p in
  temp ← PageInit temp pageSize (PageGetSpecialSize p);
  memcpy temp (pd_special temp) p (pd_special p) (PageGetSpecialSize p).
Definition PageRestoreTempPage (tempPage oldPage : Page) : res Page :=
  memcpy oldPage 0 tempPage 0 (PageGetPageSize tempPage).

(** ** Compaction *)
Record itemIdCompactData := mkCompact { offsetindex : Z; itemoff : Z; alignedlen : Z }.
Definition item_end (it : itemIdCompactData) : Z := itemoff it + alignedlen it.

(** Skip the tuples already in place at the end of the page: [upper], the items
    left, and the item [itemidptr] was left on. *)
Fixpoint skip_in_place (l : list itemIdCompactData) (upper : Z) (itemidptr : itemIdCompactData)
  : Z * list itemIdCompactData * itemIdCompactData :=
  match l with
  | [] => (upper, [], itemidptr)
  | it :: rest =>
    if negb (upper =? item_end it) then (upper, l, it)
    else skip_in_place rest (upper - alignedlen it) it
  end.

(** The compaction loop; [copy p dst src n] is the block copy of the case at
    hand: [memmove] within the page, or [memcpy] from the scratch block. *)
Fixpoint move_tuples (copy : Page -> Z -> Z -> Z -> res Page) (l : list itemIdCompactData)
    (p : Page) (upper copy_head copy_tail : Z) : res (Page * Z * Z * Z) :=
  match l with
  | [] => Ok (p, upper, copy_head, copy_tail)
  | it :: rest =>
    let itemId := PageGetItemId (offsetindex it + 1) in
    '(p, copy_tail) ←
      (if negb (copy_head =? item_end it) then
         p ← copy p upper copy_head (copy_tail - copy_head); Ok (p, item_end it)
       else Ok (p, copy_tail));
    let upper := upper - alignedlen it in
    let copy_head := itemoff it in
    lp ← load_lp p itemId;
    p ← store_lp p itemId (set_lp_off lp upper);
    move_tuples copy rest p upper copy_head copy_tail
  end.

(** Copy every tuple to its own place in the scratch block. *)
Fixpoint copy_each (l : list itemIdCompactData) (p scratch : list Z) : res (list Z) :=
  match l with
  | [] => Ok scratch
  | it :: rest =>
    scratch ← memcpy scratch (itemoff it) p (itemoff it) (alignedlen it);
    copy_each rest p scratch
  end.

(** The compaction loop and the copy of the last chunk. *)
Definition move_all (copy : Page -> Z -> Z -> Z -> res Page) (l : list itemIdCompactData)
    (itemidptr : itemIdCompactData) (p : Page) (upper : Z) : res Page :=
  let copy_head := item_end itemidptr in
  '(p, upper, copy_head, copy_tail) ← move_tuples copy l p upper copy_head copy_head;
  p ← copy p upper copy_head (copy_tail - copy_head);
  Ok (set_pd_upper p upper).

(** [scratch] is the uninitialised block on the stack; [itemidbase] is not empty. *)
Definition compactify_tuples (itemidbase : list itemIdCompactData) (p : Page) (presorted : bool)
    (scratch : list Z) : res Page :=
  match itemidbase with
  | [] => Undef
  | it0 :: _ =>
    if presorted then
      let '(upper, rest, itemidptr) := skip_in_place itemidbase (pd_special p) it0 in
      move_all memmove rest itemidptr p upper
    else if lenZ itemidbase <? PageGetMaxOffsetNumber p / 4 then
      scratch ← copy_each itemidbase p scratch;
      move_all (fun p d s n => memcpy p d scratch s n) itemidbase it0 p (pd_special p)
    else
      let '(upper, rest, itemidptr) := skip_in_place itemidbase (pd_special p) it0 in
      scratch ← memcpy scratch (pd_upper p) p (pd_upper p) (upper - pd_upper p);
      move_all (fun p d s n => memcpy p d scratch s n) rest itemidptr p upper
  end.

(** ** Repairing fragmentation of heap pages *)
Definition corrupt_pointers (lower upper special : Z) : bool :=
  (lower <? SizeOfPageHeaderData) || (upper <? lower) || (special <? upper) ||
  (BLCKSZ <? special) || negb (special =? MAXALIGN special).

(** The local variables of the scan over the line pointers. *)
Record repair_state := mkRepair {
  r_page : Page;
  r_base : list itemIdCompactData;
  r_nunused : Z;
  r_totallen : Z;
  r_last_offset : Z;
  r_presorted : bool;
  r_finalusedlp : Z }.

(** One iteration of the scan.  [itemidbase] has [MaxHeapTuplesPerPage] cells. *)
Definition repair_step (upper special i : Z) (s : repair_state) : res repair_state :=
  lp ← load_lp (r_page s) (PageGetItemId i);
  if ItemIdIsUsed lp then
    if ItemIdHasStorage lp then
      if MaxHeapTuplesPerPage <=? lenZ (r_base s) then Undef else
      let off := wraps 16 (ItemIdGetOffset lp) in
      let last_offset := if off <? r_last_offset s then off else r_last_offset s in
      let presorted := if off <? r_last_offset s then r_presorted s else false in
      if (off <? upper) || (special <=? off) then Err "corrupted line pointer" else
      let len := wrapu 16 (MAXALIGN (ItemIdGetLength lp)) in
      Ok (mkRepair (r_page s) (r_base s ++ [mkCompact (wrapu 16 (i - 1)) off len]) (r_nunused s)
            (wrapu 64 (r_totallen s + len)) last_offset presorted i)
    else
      Ok (mkRepair (r_page s) (r_base s) (r_nunused s) (r_totallen s) (r_last_offset s) (r_presorted s) i)
  else
    p ← store_lp (r_page s) (PageGetItemId i) (ItemIdSetUnused lp);
    Ok (mkRepair p (r_base s) (r_nunused s + 1) (r_totallen s) (r_last_offset s) (r_presorted s)
          (r_finalusedlp s)).

Fixpoint repair_scan (fuel : nat) (upper special nline i : Z) (s : repair_state) : res repair_state :=
  match fuel with
  | O => OutOfFuel
  | S fuel =>
    if i <=? nline then
      s ← repair_step upper special i s;
      repair_scan fuel upper special nline (i + 1) s
    else Ok s
  end.

Definition PageRepairFragmentation (p : Page) (scratch : list Z) : res Page :=
  let lower := pd_lower p in
  let upper := pd_upper p in
  let special := pd_special p in
  if corrupt_pointers lower upper special then Err "corrupted page pointers" else
  let nline := PageGetMaxOffsetNumber p in
  s ← repair_scan (S (Z.to_nat nline)) upper special nline FirstOffsetNumber
        (mkRepair p [] 0 0 special true InvalidOffsetNumber);
  p ← (match r_base s with
       | [] => Ok (set_pd_upper (r_page s) special)
       | _ =>
         if wrapu 64 (special - lower) <? r_totallen s then Err "corrupted item lengths"
         else compactify_tuples (r_base s) (r_page s) (r_presorted s) scratch
       end);
  let nunusedend := nline - r_finalusedlp s in
  let truncated := negb (r_finalusedlp s =? nline) in
  let nunused := if truncated then r_nunused s - nunusedend else r_nunused s in
  let p := if truncated then set_pd_lower p (pd_lower p - 4 * nunusedend) else p in
  Ok (if 0 <? nunused then PageSetHasFreeLinePointers p else PageClearHasFreeLinePointers p).

(** ** Truncating the line pointer array: the scan runs from the end to the front
    and returns [nunusedend] and [sethint]. *)
Fixpoint truncate_scan (fuel : nat) (p : Page) (i : Z) (countdone : bool) (nunusedend : Z) : res (Z * bool) :=
  match fuel with
  | O => OutOfFuel
  | S fuel =>
    if FirstOffsetNumber <=? i then
      lp ← load_lp p (PageGetItemId i);
      if negb countdone && (FirstOffsetNumber <? i) then
        if negb (ItemIdIsUsed lp) then truncate_scan fuel p (i - 1) countdone (nunusedend + 1)
        else truncate_scan fuel p (i - 1) true nunusedend
      else if negb (ItemIdIsUsed lp) then Ok (nunusedend, true)
      else truncate_scan fuel p (i - 1) countdone nunusedend
    else Ok (nunusedend, false)
  end.

Definition PageTruncateLinePointerArray (p : Page) : res Page :=
  let nline := PageGetMaxOffsetNumber p in
  '(nunusedend, sethint) ← truncate_scan (S (Z.to_nat nline)) p nline false 0;
  let p := if 0 <? nunusedend then set_pd_lower p (pd_lower p - 4 * nunusedend) else p in
  Ok (if (sethint : bool) then PageSetHasFreeLinePointers p else PageClearHasFreeLinePointers p).

(** ** Free space *)
Definition PageGetFreeSpace (p : Page) : Z :=
  let space := pd_upper p - pd_lower p in
  if space <? 4 then 0 else space - 4.
Definition PageGetFreeSpaceForMultipleTuples (p : Page) (ntups : Z) : Z :=
  let space := pd_upper p - pd_lower p in
  let need := wrapu 64 (ntups * 4) in
  if space <? wraps 32 need then 0 else wrapu 64 (wraps 32 (space - need)).
Definition PageGetExactFreeSpace (p : Page) : Z :=
  let space := pd_upper p - pd_lower p in
  if space <? 0 then 0 else space.

(** The loop looking for a line pointer that is not in use. *)
Fixpoint has_free_lp (fuel : nat) (p : Page) (offnum nline : Z) : res Z :=
  match fuel with
  | O => OutOfFuel
  | S fuel =>
    if offnum <=? nline then
      lp ← load_lp p (PageGetItemId offnum);
      if negb (ItemIdIsUsed lp) then Ok offnum
      else has_free_lp fuel p (OffsetNumberNext offnum) nline
    else Ok offnum
  end.

Definition PageGetHeapFreeSpace (p : Page) : res Z :=
  let space := PageGetFreeSpace p in
  if 0 <? space then
    let nline := PageGetMaxOffsetNumber p in
    if MaxHeapTuplesPerPage <=? nline then
      if PageHasFreeLinePointers p then
        offnum ← has_free_lp (S (Z.to_nat nline)) p FirstOffsetNumber nline;
        if nline <? offnum then Ok 0 else Ok space
      else Ok 0
    else Ok space
  else Ok space.

(** ** Index pages: deleting one tuple *)
Definition corrupt_line_pointer (offset size upper special : Z) : bool :=
  (offset <? upper) || (special <? offset + size) || negb (offset =? MAXALIGN offset).

(** Move the tuples that lay below the deleted one: [lp_off += delta] for the
    line pointers [i..nline] at or below [offset]; [guard] says whether the loop
    tests for storage first. *)
Fixpoint shift_offsets (fuel : nat) (guard : bool) (p : Page) (i nline offset delta : Z) : res Page :=
  match fuel with
  | O => OutOfFuel
  | S fuel =>
    if i <=? nline then
      ii ← load_lp p (PageGetItemId i);
      p ← (if (negb guard || ItemIdHasStorage ii) && (ItemIdGetOffset ii <=? offset)
           then store_lp p (PageGetItemId i) (set_lp_off ii (lp_off ii + delta)) else Ok p);
      shift_offsets fuel guard p (i + 1) nline offset delta
    else Ok p
  end.

Definition PageIndexTupleDelete (p : Page) (offnum : Z) : res Page :=
  if corrupt_pointers (pd_lower p) (pd_upper p) (pd_special p) then Err "corrupted page pointers" else
  let nline := PageGetMaxOffsetNumber p in
  if (offnum <=? 0) || (nline <? offnum) then Err "invalid index offnum" else
  let offidx := offnum - 1 in
  tup ← load_lp p (PageGetItemId offnum);
  let size := ItemIdGetLength tup in
  let offset := ItemIdGetOffset tup in
  if corrupt_line_pointer offset size (pd_upper p) (pd_special p) then Err "corrupted line pointer" else
  let size := MAXALIGN size in
  let nbytes := pd_lower p - (SizeOfPageHeaderData + 4 * (offidx + 1)) in
  p ← (if 0 <? nbytes then
         memmove p (SizeOfPageHeaderData + 4 * offidx) (SizeOfPageHeaderData + 4 * (offidx + 1)) nbytes
       else Ok p);
  let addr := pd_upper p in
  p ← (if pd_upper p <? offset then memmove p (addr + size) addr (offset - pd_upper p) else Ok p);
  let p := set_pd_upper p (pd_upper p + size) in
  let p := set_pd_lower p (pd_lower p - 4) in
  if negb (PageIsEmpty p) then
    let nline := nline - 1 in
    shift_offsets (S (Z.to_nat nline)) false p 1 nline offset size
  else Ok p.

Definition PageIndexTupleDeleteNoCompact (p : Page) (offnum : Z) : res Page :=
  if corrupt_pointers (pd_lower p) (pd_upper p) (pd_special p) then Err "corrupted page pointers" else
  let nline := PageGetMaxOffsetNumber p in
  if (offnum <=? 0) || (nline <? offnum) then Err "invalid index offnum" else
  tup ← load_lp p (PageGetItemId offnum);
  let size := ItemIdGetLength tup in
  let offset := ItemIdGetOffset tup in
  if corrupt_line_pointer offset size (pd_upper p) (pd_special p) then Err "corrupted line pointer" else
  let size := MAXALIGN size in
  '(p, nline) ←
    (if offnum <? nline then
       p ← store_lp p (PageGetItemId offnum) (ItemIdSetUnused tup); Ok (p, nline)
     else Ok (set_pd_lower p (pd_lower p - 4), nline - 1));
  let addr := pd_upper p in
  p ← (if pd_upper p <? offset then memmove p (addr + size) addr (offset - pd_upper p) else Ok p);
  let p := set_pd_upper p (pd_upper p + size) in
  if negb (PageIsEmpty p) then shift_offsets (S (Z.to_nat nline)) true p 1 nline offset size
  else Ok p.

(** ** Index pages: deleting many tuples *)
Record multi_state := mkMulti {
  d_base : list itemIdCompactData;
  d_newitemids : list ItemIdData;
  d_totallen : Z;
  d_nextitm : Z;
  d_last_offset : Z;
  d_presorted : bool }.

(** One iteration of the scan: [nused] is the number of entries collected; both
    local arrays have [MaxIndexTuplesPerPage] cells. *)
Definition multi_step (p : Page) (upper special : Z) (itemnos : list Z) (nitems offnum : Z)
    (s : multi_state) : res multi_state :=
  lp ← load_lp p (PageGetItemId offnum);
  let size := ItemIdGetLength lp in
  let offset := ItemIdGetOffset lp in
  if corrupt_line_pointer offset size upper special then Err "corrupted line pointer" else
  skip ← (if d_nextitm s <? nitems then
            no ← aget itemnos (d_nextitm s); Ok (offnum =? no)
          else Ok false);
  if (skip : bool) then
    Ok (mkMulti (d_base s) (d_newitemids s) (d_totallen s) (d_nextitm s + 1) (d_last_offset s) (d_presorted s))
  else
    let nused := lenZ (d_base s) in
    if MaxIndexTuplesPerPage <=? nused then Undef else
    let off := wraps 16 offset in
    let last_offset := if off <? d_last_offset s then off else d_last_offset s in
    let presorted := if off <? d_last_offset s then d_presorted s else false in
    let len := wrapu 16 (MAXALIGN size) in
    Ok (mkMulti (d_base s ++ [mkCompact (wrapu 16 nused) off len]) (d_newitemids s ++ [lp])
          (wrapu 64 (d_totallen s + len)) (d_nextitm s) last_offset presorted).

Fixpoint multi_scan (fuel : nat) (p : Page) (upper special : Z) (itemnos : list Z) (nitems nline offnum : Z)
    (s : multi_state) : res multi_state :=
  match fuel with
  | O => OutOfFuel
  | S fuel =>
    if offnum <=? nline then
      s ← multi_step p upper special itemnos nitems offnum s;
      multi_scan fuel p upper special itemnos nitems nline (OffsetNumberNext offnum) s
    else Ok s
  end.

(** The retail deletions, last item number first. *)
Fixpoint retail_delete (n : nat) (p : Page) (itemnos : list Z) : res Page :=
  match n with
  | O => Ok p
  | S n =>
    no ← aget itemnos (Z.of_nat n);
    p ← PageIndexTupleDelete p no;
    retail_delete n p itemnos
  end.

(** The bytes of an array of line pointers. *)
Definition itemids_bytes (l : list ItemIdData) : list Z :=
  concat (map (fun i => put32 (replicate 4 0) 0 (itemid_pack i)) l).

Definition PageIndexMultiDelete (p : Page) (itemnos : list Z) (nitems : Z) (scratch : list Z) : res Page :=
  if nitems <=? 2 then retail_delete (Z.to_nat nitems) p itemnos else
  let lower := pd_lower p in
  let upper := pd_upper p in
  let special := pd_special p in
  if corrupt_pointers lower upper special then Err "corrupted page pointers" else
  let nline := PageGetMaxOffsetNumber p in
  s ← multi_scan (S (Z.to_nat nline)) p upper special itemnos nitems nline FirstOffsetNumber
        (mkMulti [] [] 0 0 special true);
  if negb (d_nextitm s =? nitems) then Err "incorrect index offsets supplied"
  else if wrapu 64 (special - lower) <? d_totallen s then Err "corrupted item lengths"
  else
    let nused := lenZ (d_base s) in
    p ← memcpy p SizeOfPageHeaderData (itemids_bytes (d_newitemids s)) 0 (nused * 4);
    let p := set_pd_lower p (SizeOfPageHeaderData + nused * 4) in
    if 0 <? nused then compactify_tuples (d_base s) p (d_presorted s) scratch
    else Ok (set_pd_upper p special).

(** ** Index pages: replacing a tuple *)
Definition PageIndexTupleOverwrite (p : Page) (offnum : Z) (newtup : list Z) (newsize : Z) : res (Page * bool) :=
  if corrupt_pointers (pd_lower p) (pd_upper p) (pd_special p) then Err "corrupted page pointers" else
  let itemcount := PageGetMaxOffsetNumber p in
  if (offnum <=? 0) || (itemcount <? offnum) then Err "invalid index offnum" else
  let tupid := PageGetItemId offnum in
  tup ← load_lp p tupid;
  let oldsize := ItemIdGetLength tup in
  let offset := ItemIdGetOffset tup in
  if corrupt_line_pointer offset oldsize (pd_upper p) (pd_special p) then Err "corrupted line pointer" else
  let oldsize := MAXALIGN oldsize in
  let alignednewsize := MAXALIGN newsize in
  if wrapu 64 (oldsize + (pd_upper p - pd_lower p)) <? alignednewsize then Ok (p, false) else
  let size_diff := wraps 32 (oldsize - wraps 32 alignednewsize) in
  p ← (if negb (size_diff =? 0) then
         let addr := pd_upper p in
         p ← memmove p (addr + size_diff) addr (offset - pd_upper p);
         let p := set_pd_upper p (pd_upper p + size_diff) in
         shift_offsets (S (Z.to_nat itemcount)) true p FirstOffsetNumber itemcount offset size_diff
       else Ok p);
  tup ← load_lp p tupid;
  let tup := mkItemId (offset + size_diff) (lp_flags tup) newsize in
  p ← store_lp p tupid tup;
  p ← memcpy p ((offset + size_diff) `mod` 32768) newtup 0 newsize;
  Ok (p, true).

(** ** Page checksums *)
Definition N_SUMS : Z := 32.
Definition FNV_PRIME : Z := 16777619.
Definition checksumBaseOffsets : list Z :=
  [0x5B1F36E9; 0xB8525960; 0x02AB50AA; 0x1DE66D2A;
   0x79FF467A; 0x9BB9F8A3; 0x217E7CD2; 0x83E13D2C;
   0xF8D4474F; 0xE39EB970; 0x42C6AE16; 0x993216FA;
   0x7B093B5D; 0x98DAFF3C; 0xF718902A; 0x0B1C9CDB;
   0xE58F764B; 0x187636BC; 0x5D7B3BB1; 0xE73DE7DE;
   0x92BEC979; 0xCCA6C0B2; 0x304A0979; 0x85AA43D4;
   0x783125BB; 0x6CA8EAA2; 0xE407EAC6; 0x4B5CFC3E;
   0x9FBF8C76; 0x15CA20BE; 0xF2CA9FD3; 0x959BD756].

Definition CHECKSUM_COMP (checksum value : Z) : Z :=
  let tmp := Z.lxor checksum value in
  Z.lxor (wrapu 32 (tmp * FNV_PRIME)) (Z.shiftr tmp 17).

(** One row: the [j]-th partial sum takes in the [j]-th word of the row. *)
Definition checksum_row (p : Page) (sums : list Z) (i : Z) : list Z :=
  zip_with (fun j s => CHECKSUM_COMP s (get32 p (4 * (i * N_SUMS + j)))) (seqZ 0 N_SUMS) sums.

Definition pg_checksum_block (p : Page) : Z :=
  let sums := fold_left (checksum_row p) (seqZ 0 (BLCKSZ / (4 * N_SUMS))) checksumBaseOffsets in
  let sums := map (fun s => CHECKSUM_COMP s 0) sums in
  let sums := map (fun s => CHECKSUM_COMP s 0) sums in
  fold_left Z.lxor sums 0.

(** The checksum and the page, whose checksum field is zeroed and restored. *)
Definition pg_checksum_page (p : Page) (blkno : Z) : Page * Z :=
  let save_checksum := pd_checksum p in
  let p := set_pd_checksum p 0 in
  let checksum := pg_checksum_block p in
  let p := set_pd_checksum p save_checksum in
  let checksum := Z.lxor checksum blkno in
  (p, wrapu 16 (checksum `mod` 65535 + 1)).

(** [checksums] is [DataChecksumsEnabled()]. *)
Definition PageSetChecksumInplace (checksums : bool) (p : Page) (blkno : Z) : Page :=
  if PageIsNew p || negb checksums then p
  else let '(p, checksum) := pg_checksum_page p blkno in set_pd_checksum p checksum.

(** The page to write: the page itself, or the static block [pageCopy] with the
    page's contents and its checksum. *)
Definition PageSetChecksumCopy (checksums : bool) (p pageCopy : Page) (blkno : Z) : res Page :=
  if PageIsNew p || negb checksums then Ok p
  else
    pageCopy ← memcpy pageCopy 0 p 0 BLCKSZ;
    let '(pageCopy, checksum) := pg_checksum_page pageCopy blkno in
    Ok (set_pd_checksum pageCopy checksum).

Definition PIV_REPORT_STAT : Z := 2.

(** The verdict, and whether a failure was reported to the statistics collector. *)
Definition PageIsVerifiedExtended (checksums ignore_checksum_failure : bool) (p : Page)
    (blkno flags : Z) : bool * bool :=
  let checksum_failure :=
    negb (PageIsNew p) && checksums && negb ((pg_checksum_page p blkno).2 =? pd_checksum p) in
  let header_sane :=
    negb (PageIsNew p) &&
    (Z.land (pd_flags p) (notu 32 PD_VALID_FLAG_BITS) =? 0) && (pd_lower p <=? pd_upper p) &&
    (pd_upper p <=? pd_special p) && (pd_special p <=? BLCKSZ) &&
    (pd_special p =? MAXALIGN (pd_special p)) in
  if header_sane && negb checksum_failure then (true, false)
  else
    let all_zeroes :=
      forallb (fun i => (get32 p (8 * i) =? 0) && (get32 p (8 * i + 4) =? 0)) (seqZ 0 (BLCKSZ / 8)) in
    if all_zeroes then (true, false)
    else if checksum_failure then
      (header_sane && ignore_checksum_failure, negb (Z.land flags PIV_REPORT_STAT =? 0))
    else (false, false).
