(* ===== verification/BufPageLayout.v ===== *)
(** The layout of a buffer page: invariant and abstraction.

    [PageOK] is the layout invariant of a slotted page; [items] abstracts a page to
    the list of its line pointers with the bytes they refer to.  The lemmas relate
    both to reads and writes of single addresses, header fields and line pointers,
    which is all the operations of [BufPage] do. *)
From S2P Require Import Prelude ByteMem BufPage.

(** ** Alignment *)
Lemma MAXALIGN_val x : 0 <= x < 2 ^ 63 -> MAXALIGN x = 8 * ((x + 7) / 8).
Proof.
  intros Hx. unfold MAXALIGN. unwrap. change (notu 64 7) with (Z.shiftl (Z.ones 61) 3).
  rewrite <- (Z.shiftl_mul_pow2 _ 3) || rewrite Z.mul_comm, <- (Z.shiftl_mul_pow2 _ 3) by lia.
  change 8 with (2 ^ 3). rewrite <- Z.shiftr_div_pow2 by lia.
  apply Z.bits_inj'. intros i Hi. rewrite Z.land_spec, !Z.shiftl_spec by lia.
  destruct (decide (i < 3)).
  - rewrite !(Z.testbit_neg_r _ (i - 3)) by lia. apply andb_false_r.
  - rewrite Z.shiftr_spec, Z.testbit_ones_nonneg by lia. replace (i - 3 + 3) with i by lia.
    destruct (Z.ltb_spec (i - 3) 61); [apply andb_true_r|]. rewrite andb_false_r. symmetry.
    apply (is_u_testbit 64); [unfold is_u; lia|lia].
Qed.

Lemma MAXALIGN_bounds x : 0 <= x < 2 ^ 63 ->
  x <= MAXALIGN x < x + 8 /\ MAXALIGN x `mod` 8 = 0.
Proof. intros. rewrite MAXALIGN_val by done. Z.to_euclidean_division_equations. lia. Qed.

Lemma MAXALIGN_aligned x : 0 <= x < 2 ^ 63 -> (x =? MAXALIGN x) = bool_decide (x `mod` 8 = 0).
Proof.
  intros. rewrite MAXALIGN_val by done.
  case_bool_decide; [apply Z.eqb_eq|apply Z.eqb_neq]; Z.to_euclidean_division_equations; lia.
Qed.

(** ** Line pointers as fields of the page *)
Definition lp (p : Page) (i : Z) : ItemIdData := itemid_unpack (get32 p (SizeOfPageHeaderData + 4 * i)).
Arguments lp : simpl never.
Definition nline (p : Page) : Z := PageGetMaxOffsetNumber p.
Definition alen (l : ItemIdData) : Z := MAXALIGN (lp_len l).
Arguments alen : simpl never.
Lemma alen_mk o f l : alen (mkItemId o f (lp_len l)) = alen l.
Proof. done. Qed.
Definition lp_wf (l : ItemIdData) : Prop :=
  0 <= lp_off l < 32768 /\ 0 <= lp_flags l < 4 /\ 0 <= lp_len l < 32768.

Lemma itemid_eta l : l = mkItemId (lp_off l) (lp_flags l) (lp_len l).
Proof. by destruct l. Qed.

Lemma itemid_unpack_wf w : lp_wf (itemid_unpack w).
Proof. unfold lp_wf, itemid_unpack; simpl. repeat split; apply Z.mod_pos_bound; lia. Qed.

Lemma itemid_pack_is_u l : is_u 32 (itemid_pack l).
Proof.
  unfold itemid_pack, is_u.
  pose proof (Z.mod_pos_bound (lp_off l) 32768). pose proof (Z.mod_pos_bound (lp_flags l) 4).
  pose proof (Z.mod_pos_bound (lp_len l) 32768). lia.
Qed.

Lemma itemid_unpack_pack l : lp_wf l -> itemid_unpack (itemid_pack l) = l.
Proof.
  destruct l as [o f n]. unfold lp_wf, itemid_unpack, itemid_pack. simpl. intros (?&?&?).
  rewrite (Z.mod_small o), (Z.mod_small f), (Z.mod_small n) by lia.
  f_equal; Z.to_euclidean_division_equations; lia.
Qed.

Lemma lp_is_wf p i : lp_wf (lp p i).
Proof. apply itemid_unpack_wf. Qed.

Lemma alen_bounds l : lp_wf l -> lp_len l <= alen l < lp_len l + 8 /\ alen l `mod` 8 = 0.
Proof. unfold lp_wf, alen. intros (?&?&?). apply MAXALIGN_bounds. lia. Qed.

(** ** Agreement of two pages on a range of addresses *)
Definition agree (lo hi : Z) (p p' : list Z) : Prop :=
  forall a, lo <= a < hi -> nthZ p' a = nthZ p a.

Lemma agree_refl lo hi p : agree lo hi p p.
Proof. done. Qed.

Lemma agree_trans lo hi p q r : agree lo hi p q -> agree lo hi q r -> agree lo hi p r.
Proof. intros H1 H2 a Ha. rewrite H2, H1; done. Qed.

Lemma agree_weaken lo hi lo' hi' p q : agree lo hi p q -> lo <= lo' -> hi' <= hi -> agree lo' hi' p q.
Proof. intros H ?? a Ha. apply H. lia. Qed.

Lemma lp_agree p p' i : agree (SizeOfPageHeaderData + 4 * i) (SizeOfPageHeaderData + 4 * i + 4) p p' ->
  lp p' i = lp p i.
Proof. intros H. unfold lp. f_equal. apply get32_ext. intros. apply H. lia. Qed.

Lemma get16_agree p p' a : agree a (a + 2) p p' -> get16 p' a = get16 p a.
Proof. intros H. apply get16_ext; apply H; lia. Qed.

(** ** Loads and stores of line pointers *)
Definition max_lines : Z := (BLCKSZ - SizeOfPageHeaderData) / 4.

Ltac psizes := change BLCKSZ with 8192 in *; change SizeOfPageHeaderData with 24 in *;
  change max_lines with 2042 in *.

Lemma load_lp_ok p i : lenZ p = BLCKSZ -> 0 < i <= max_lines ->
  load_lp p (PageGetItemId i) = Ok (lp p (i - 1)).
Proof.
  intros. unfold load_lp. rewrite (proj2 (in_object_spec _ _ _)); [done|].
  unfold PageGetItemId. psizes. lia.
Qed.

Lemma store_lp_ok p i l : lenZ p = BLCKSZ -> all_bytes p -> 0 < i <= max_lines ->
  exists p', store_lp p (PageGetItemId i) l = Ok p' /\ lenZ p' = BLCKSZ /\ all_bytes p' /\
    lp p' (i - 1) = itemid_unpack (itemid_pack l) /\
    (forall a, 0 <= a -> a < PageGetItemId i \/ PageGetItemId i + 4 <= a -> nthZ p' a = nthZ p a).
Proof.
  intros Hl Hb Hi. unfold store_lp. rewrite (proj2 (in_object_spec _ _ _));
    [|unfold PageGetItemId; psizes; lia].
  eexists; split; [done|]. unfold PageGetItemId. psizes.
  split_and!; [rewrite lenZ_put32; lia|auto with mem| |].
  - unfold lp. psizes. by rewrite get32_put32 by (apply itemid_pack_is_u || lia).
  - intros a Ha Hd. rewrite nthZ_put32_ne; lia || done.
Qed.

(** Another line pointer is not affected by a store. *)
Lemma lp_other p p' i j : 0 <= j -> j <> i ->
  (forall a, 0 <= a -> a < PageGetItemId (i + 1) \/ PageGetItemId (i + 1) + 4 <= a -> nthZ p' a = nthZ p a) ->
  lp p' j = lp p j.
Proof.
  intros ? ? H. apply lp_agree. intros a Ha. apply H; unfold PageGetItemId in *; psizes; lia.
Qed.

(** ** Stores to header fields *)
Lemma set_field p f v : lenZ p = BLCKSZ -> 0 <= f <= 22 ->
  lenZ (put16 p f (wrapu 16 v)) = BLCKSZ /\
  (all_bytes p -> all_bytes (put16 p f (wrapu 16 v))) /\
  get16 (put16 p f (wrapu 16 v)) f = wrapu 16 v /\
  (forall a, 0 <= a -> a < f \/ f + 2 <= a -> nthZ (put16 p f (wrapu 16 v)) a = nthZ p a).
Proof.
  intros. psizes. split_and!.
  - rewrite lenZ_put16; lia.
  - auto with mem.
  - apply get16_put16; [lia..|]. by apply wrapu_range.
  - intros. apply nthZ_put16_ne; lia.
Qed.

(** ** The invariant *)
Record layout_ok (lower upper special : Z) : Prop := {
  lay_lower : SizeOfPageHeaderData <= lower <= upper;
  lay_upper : upper <= special <= BLCKSZ;
  lay_lines : (lower - SizeOfPageHeaderData) `mod` 4 = 0;
  lay_ualign : upper `mod` 8 = 0;
  lay_salign : special `mod` 8 = 0 }.

(** A line pointer with storage refers to aligned space between [pd_upper] and the
    special space, an unused one has no storage. *)
Definition lp_ok (upper special : Z) (l : ItemIdData) : Prop :=
  (lp_flags l = LP_UNUSED -> lp_len l = 0) /\
  (lp_len l <> 0 -> upper <= lp_off l /\ lp_off l `mod` 8 = 0 /\ lp_off l + alen l <= special).
Definition lp_disjoint (l l' : ItemIdData) : Prop :=
  lp_len l = 0 \/ lp_len l' = 0 \/ lp_off l + alen l <= lp_off l' \/ lp_off l' + alen l' <= lp_off l.

Record PageOK (p : Page) : Prop := {
  ok_len : lenZ p = BLCKSZ;
  ok_bytes : all_bytes p;
  ok_layout : layout_ok (pd_lower p) (pd_upper p) (pd_special p);
  ok_lps : forall i, 0 <= i < nline p -> lp_ok (pd_upper p) (pd_special p) (lp p i);
  ok_disjoint : forall i j, 0 <= i < nline p -> 0 <= j < nline p -> i <> j ->
    lp_disjoint (lp p i) (lp p j) }.

Lemma nline_val p : SizeOfPageHeaderData <= pd_lower p <= BLCKSZ ->
  nline p = (pd_lower p - SizeOfPageHeaderData) / 4.
Proof.
  unfold nline, PageGetMaxOffsetNumber. psizes. intros. zcase.
  - replace (pd_lower p) with 24 by lia. done.
  - apply wrapu_small. unfold is_u. split; [apply Z.div_pos; lia|apply Z.div_lt_upper_bound; lia].
Qed.

Lemma layout_nline p : layout_ok (pd_lower p) (pd_upper p) (pd_special p) ->
  pd_lower p = SizeOfPageHeaderData + 4 * nline p /\ 0 <= nline p <= max_lines.
Proof.
  intros [? ? ? ? ?]. rewrite nline_val by lia. psizes. Z.to_euclidean_division_equations. lia.
Qed.

Lemma ok_nline p : PageOK p -> pd_lower p = SizeOfPageHeaderData + 4 * nline p /\ 0 <= nline p <= max_lines.
Proof. intros []. by apply layout_nline. Qed.

(** ** The abstraction: flags, link (for line pointers without storage) and bytes *)
Record item := mkItem { it_flags : Z; it_link : Z; it_data : list Z }.

Definition unused_item : item := mkItem LP_UNUSED 0 [].
Definition is_unused (x : item) : bool := it_flags x =? LP_UNUSED.

Definition abs_lp (p : Page) (l : ItemIdData) : item :=
  if lp_flags l =? LP_UNUSED then unused_item
  else mkItem (lp_flags l) (if lp_len l =? 0 then lp_off l else 0) (bytes_at p (lp_off l) (lp_len l)).
Definition items (p : Page) : list item := map (fun i => abs_lp p (lp p i)) (seqZ 0 (nline p)).

Lemma lenZ_items p : 0 <= nline p -> lenZ (items p) = nline p.
Proof. intros. unfold lenZ, items. rewrite length_map, length_seqZ. lia. Qed.

Lemma items_lookup p (k : nat) : Z.of_nat k < nline p ->
  items p !! k = Some (abs_lp p (lp p (Z.of_nat k))).
Proof.
  intros. unfold items. rewrite list_lookup_fmap. rewrite lookup_seqZ_lt by lia. done.
Qed.

Lemma items_eq p L : 0 <= nline p -> lenZ L = nline p ->
  (forall k : nat, Z.of_nat k < nline p -> L !! k = Some (abs_lp p (lp p (Z.of_nat k)))) -> items p = L.
Proof.
  intros Hn Hl H. pose proof (lenZ_items p Hn) as Hi. apply list_eq. intros k.
  destruct (decide (Z.of_nat k < nline p)).
  - by rewrite H, items_lookup.
  - unfold lenZ in *. rewrite !lookup_ge_None_2 by lia. done.
Qed.

(** The same line pointer with its bytes moved from [off] to [off']. *)
Lemma abs_lp_moved p p' l l' :
  lp_flags l' = lp_flags l -> lp_len l' = lp_len l -> 0 <= lp_len l ->
  (lp_len l = 0 -> lp_off l' = lp_off l) ->
  (lp_len l <> 0 -> 0 <= lp_off l /\ 0 <= lp_off l' /\
     lp_off l + lp_len l <= lenZ p /\ lp_off l' + lp_len l <= lenZ p' /\
     forall d, 0 <= d < lp_len l -> nthZ p' (lp_off l' + d) = nthZ p (lp_off l + d)) ->
  abs_lp p' l' = abs_lp p l.
Proof.
  intros Hf Hl Hp H0 H1. unfold abs_lp. rewrite Hf, Hl. case_match; [done|].
  destruct (Z.eqb_spec (lp_len l) 0) as [E|E].
  - rewrite H0 by done. rewrite E. f_equal.
  - destruct H1 as (?&?&?&?&H1); [done|]. f_equal. apply bytes_at_eq; done.
Qed.

(** ** Packing: disjoint extents within a range do not exceed it *)
Definition extent (l : ItemIdData) : list Z := seqZ (lp_off l) (alen l).
Definition total_alen (ls : list ItemIdData) : Z := fold_right Z.add 0 (map alen ls).

Lemma elem_of_extents x ls : x ∈ concat (map extent ls) <-> exists l, l ∈ ls /\ x ∈ extent l.
Proof.
  rewrite list_elem_of_In, in_concat. setoid_rewrite in_map_iff. setoid_rewrite <- list_elem_of_In.
  naive_solver.
Qed.

Lemma extents_NoDup ls :
  (forall i j l l', ls !! i = Some l -> ls !! j = Some l' -> i <> j ->
     lp_off l + alen l <= lp_off l' \/ lp_off l' + alen l' <= lp_off l) ->
  NoDup (concat (map extent ls)).
Proof.
  induction ls as [|l ls IH]; intros H; simpl; [constructor|].
  apply NoDup_app. split_and!.
  - apply NoDup_seqZ.
  - intros x Hx Hc. apply elem_of_extents in Hc as (l' & Hl' & Hxe). apply list_elem_of_lookup in Hl' as [j Hj].
    unfold extent in *. apply elem_of_seqZ in Hx, Hxe.
    destruct (H 0%nat (S j) l l'); [done|done|lia|lia|lia].
  - apply IH. intros i j ? ? ? ? ?. by apply (H (S i) (S j)); [..|lia].
Qed.

Lemma packing ls lo hi : lo <= hi ->
  Forall (fun l => lo <= lp_off l /\ 0 <= alen l /\ lp_off l + alen l <= hi) ls ->
  (forall i j l l', ls !! i = Some l -> ls !! j = Some l' -> i <> j ->
     lp_off l + alen l <= lp_off l' \/ lp_off l' + alen l' <= lp_off l) ->
  total_alen ls <= hi - lo.
Proof.
  intros Hlh Hr Hd. assert (Hsub : concat (map extent ls) ⊆+ seqZ lo (hi - lo)).
  { apply NoDup_submseteq; [by apply extents_NoDup|]. intros x Hx.
    apply elem_of_extents in Hx as (l & Hl & Hxe). rewrite Forall_forall in Hr.
    specialize (Hr l Hl). unfold extent in Hxe. apply elem_of_seqZ in Hxe. apply elem_of_seqZ. lia. }
  apply submseteq_length in Hsub. rewrite length_seqZ in Hsub.
  enough (Z.of_nat (length (concat (map extent ls))) = total_alen ls) by lia.
  clear Hsub Hd. unfold total_alen. induction Hr as [|l ls [? ?] _ IH]; simpl; [done|].
  rewrite length_app. unfold extent at 1. rewrite length_seqZ. lia.
Qed.

(** ** The invariant as a boolean *)
Definition lp_okb (upper special : Z) (l : ItemIdData) : bool :=
  (negb (lp_flags l =? LP_UNUSED) || (lp_len l =? 0)) &&
  ((lp_len l =? 0) || ((upper <=? lp_off l) && (lp_off l `mod` 8 =? 0) && (lp_off l + alen l <=? special))).
Definition lp_disjointb (l l' : ItemIdData) : bool :=
  (lp_len l =? 0) || (lp_len l' =? 0) || (lp_off l + alen l <=? lp_off l') || (lp_off l' + alen l' <=? lp_off l).
Definition page_okb (p : Page) : bool :=
  (lenZ p =? BLCKSZ) && forallb (fun b => (0 <=? b) && (b <? 256)) p &&
  (SizeOfPageHeaderData <=? pd_lower p) && (pd_lower p <=? pd_upper p) && (pd_upper p <=? pd_special p) &&
  (pd_special p <=? BLCKSZ) && ((pd_lower p - SizeOfPageHeaderData) `mod` 4 =? 0) &&
  (pd_upper p `mod` 8 =? 0) && (pd_special p `mod` 8 =? 0) &&
  forallb (fun i => lp_okb (pd_upper p) (pd_special p) (lp p i)) (seqZ 0 (nline p)) &&
  forallb (fun i => forallb (fun j => (i =? j) || lp_disjointb (lp p i) (lp p j)) (seqZ 0 (nline p))) (seqZ 0 (nline p)).

Lemma all_bytes_b m : forallb (fun b => (0 <=? b) && (b <? 256)) m = true -> all_bytes m.
Proof.
  rewrite forallb_forall. intros H. apply Forall_forall. intros b Hb. apply list_elem_of_In, H in Hb.
  apply andb_true_iff in Hb as [?%Z.leb_le ?%Z.ltb_lt]. unfold is_u. lia.
Qed.

Lemma forallb_seqZ f n : forallb f (seqZ 0 n) = true -> forall i, 0 <= i < n -> f i = true.
Proof. rewrite forallb_forall. intros H i Hi. apply H, list_elem_of_In, elem_of_seqZ. lia. Qed.

Lemma page_okb_sound p : page_okb p = true -> PageOK p.
Proof.
  unfold page_okb. rewrite !andb_true_iff, !Z.leb_le, !Z.eqb_eq.
  intros ((((((((((? & Hb) & ?) & ?) & ?) & ?) & ?) & ?) & ?) & Hl) & Hd). split.
  - done.
  - by apply all_bytes_b.
  - split; [lia|lia|done..].
  - intros i Hi. apply (forallb_seqZ _ _ Hl) in Hi. unfold lp_okb in Hi. unfold lp_ok.
    rewrite !andb_true_iff, !orb_true_iff, !andb_true_iff, negb_true_iff, !Z.leb_le, !Z.eqb_eq, Z.eqb_neq in Hi. tauto.
  - intros i j Hi Hj Hij. apply (forallb_seqZ _ _ Hd) in Hi. apply (forallb_seqZ _ _ Hi) in Hj.
    unfold lp_disjointb in Hj. unfold lp_disjoint. rewrite !orb_true_iff, !Z.leb_le, !Z.eqb_eq in Hj. tauto.
Qed.
