(* ===== verification/BufPageCompact.v ===== *)
(** Correctness of tuple compaction ([compactify_tuples] of bufpage.c).

    The three ways of moving the tuples (batched [memmove]s when they are sorted,
    batched [memcpy]s from a scratch block filled tuple by tuple or in one piece)
    have the same effect: each tuple ends up directly below the previous one, in
    the order of the array, with its bytes and the rest of its line pointer
    unchanged.  The loop invariant [move_inv] says which tuples are in place, which
    form the block still to be copied, and where the bytes of the others are. *)
From S2P Require Import Prelude ByteMem BufPage BufPageLayout.

(** Where compaction puts the items, below [upper] in the order of the list. *)
Fixpoint targets (upper : Z) (l : list itemIdCompactData) : list (itemIdCompactData * Z) :=
  match l with
  | [] => []
  | it :: rest => (it, upper - alignedlen it) :: targets (upper - alignedlen it) rest
  end.
Definition total (l : list itemIdCompactData) : Z := fold_right Z.add 0 (map alignedlen l).

(** Each item ends at or below the start of the items before it. *)
Definition descending (l : list itemIdCompactData) : Prop :=
  StronglySorted (fun a b => item_end b <= itemoff a) l.
Definition apart (a b : itemIdCompactData) : Prop :=
  item_end a <= itemoff b \/ item_end b <= itemoff a.

Lemma targets_app u l1 l2 : targets u (l1 ++ l2) = targets u l1 ++ targets (u - total l1) l2.
Proof.
  revert u. induction l1 as [|it l1 IH]; intros u; simpl.
  - by rewrite Z.sub_0_r.
  - rewrite IH. do 2 f_equal. unfold total. simpl. f_equal. lia.
Qed.

Lemma total_app l1 l2 : total (l1 ++ l2) = total l1 + total l2.
Proof. unfold total. induction l1; simpl; lia. Qed.

Lemma total_nonneg l : Forall (fun it => 0 < alignedlen it) l -> 0 <= total l.
Proof. unfold total. induction 1; simpl; lia. Qed.

Section compaction.
Context (P0 : Page) (lo special n : Z).
Context (Hlen0 : lenZ P0 = BLCKSZ).
Context (Hn : 0 <= n) (Hlines : SizeOfPageHeaderData + 4 * n <= lo) (Hlo : lo <= special <= BLCKSZ).

(** An entry of the array: a line pointer of the page and the extent of its tuple. *)
Record valid_entry (it : itemIdCompactData) : Prop := {
  ve_index : 0 <= offsetindex it < n;
  ve_low : lo <= itemoff it;
  ve_pos : 0 < alignedlen it;
  ve_high : item_end it <= special;
  ve_lp : lp_off (lp P0 (offsetindex it)) = itemoff it }.

(** The page after compaction of [base]. *)
Record compacted (base : list itemIdCompactData) (p : Page) : Prop := {
  cp_len : lenZ p = BLCKSZ;
  cp_bytes : all_bytes p;
  cp_upper : pd_upper p = special - total base;
  cp_lps : forall it t, (it, t) ∈ targets special base ->
    lp p (offsetindex it) = set_lp_off (lp P0 (offsetindex it)) t /\
    forall d, 0 <= d < alignedlen it -> nthZ p (t + d) = nthZ P0 (itemoff it + d);
  cp_others : forall i, 0 <= i < n -> i ∉ map offsetindex base -> lp p i = lp P0 i;
  cp_header : forall a, 0 <= a < 24 -> a <> 14 -> a <> 15 -> nthZ p a = nthZ P0 a;
  cp_special : forall a, special <= a -> nthZ p a = nthZ P0 a }.

Section moving.
Context (presorted : bool) (scratch : list Z) (copy : Page -> Z -> Z -> Z -> res Page).

(** The byte a block copy reads at address [a]. *)
Definition src (p : Page) (a : Z) : Z := if presorted then nthZ p a else nthZ scratch a.

Context (Hcopy : forall p d s k, lenZ p = BLCKSZ -> all_bytes p ->
  0 <= d -> 0 <= s -> 0 <= k -> d + k <= BLCKSZ -> s + k <= BLCKSZ ->
  exists p', copy p d s k = Ok p' /\ lenZ p' = BLCKSZ /\ all_bytes p' /\
    forall i, 0 <= i -> nthZ p' i = if decide (d <= i < d + k) then src p (s + (i - d)) else nthZ p i).

(** Still in the block [head, tail) that goes to [upper]. *)
Definition pending (upper head tail : Z) (it : itemIdCompactData) (t : Z) : Prop :=
  head <= itemoff it /\ item_end it <= tail /\ t - upper = itemoff it - head.
(** In place, above the destination of the pending block. *)
Definition placed (p : Page) (top : Z) (it : itemIdCompactData) (t : Z) : Prop :=
  top <= t /\ t + alignedlen it <= special /\
  forall d, 0 <= d < alignedlen it -> nthZ p (t + d) = nthZ P0 (itemoff it + d).

Record move_inv (done : list (itemIdCompactData * Z)) (rest : list itemIdCompactData)
    (p : Page) (upper head tail : Z) : Prop := {
  mi_len : lenZ p = BLCKSZ;
  mi_bytes : all_bytes p;
  mi_room : lo <= upper - total rest;
  mi_block : lo <= head <= tail /\ tail <= special /\ upper + (tail - head) <= special;
  mi_valid : Forall valid_entry rest;
  mi_nodup : NoDup (map (fun x => offsetindex x.1) done ++ map offsetindex rest);
  mi_src : forall a, head <= a < tail -> src p a = nthZ P0 a;
  mi_rest : forall it a, it ∈ rest -> itemoff it <= a < item_end it -> src p a = nthZ P0 a;
  mi_done : forall it t, (it, t) ∈ done -> 0 <= offsetindex it < n /\
    lp p (offsetindex it) = set_lp_off (lp P0 (offsetindex it)) t /\
    (pending upper head tail it t \/ placed p (upper + (tail - head)) it t);
  mi_others : forall i, 0 <= i < n -> i ∉ map (fun x => offsetindex x.1) done -> lp p i = lp P0 i;
  mi_frame : forall a, 0 <= a < 24 \/ special <= a -> nthZ p a = nthZ P0 a;
  mi_sorted : presorted = true -> rest <> [] ->
    head <= upper /\ descending rest /\ Forall (fun it => item_end it <= head) rest }.

Lemma lp_above p p' i : 0 <= i < n -> agree SizeOfPageHeaderData lo p p' -> lp p' i = lp p i.
Proof. intros ? H. apply lp_agree. eapply agree_weaken; [done|lia..]. Qed.

(** Copying the block puts the pending items in place. *)
Lemma copy_block done rest p upper head tail :
  move_inv done rest p upper head tail -> 0 <= total rest ->
  exists p', copy p upper head (tail - head) = Ok p' /\ lenZ p' = BLCKSZ /\ all_bytes p' /\
    agree 0 lo p p' /\ (forall a, special <= a -> nthZ p' a = nthZ p a) /\
    (forall it t, (it, t) ∈ done -> placed p' upper it t) /\
    (forall it a, it ∈ rest -> itemoff it <= a < item_end it -> src p' a = nthZ P0 a).
Proof.
  intros [] Htot. destruct mi_block0 as ([? ?] & ? & ?).
  destruct (Hcopy p upper head (tail - head)) as (p' & Hp' & Hl' & Hb' & Hn'); [done|done|psizes; lia..|].
  exists p'. split_and!; try done.
  - intros a Ha. rewrite Hn' by lia. by rewrite decide_False by lia.
  - intros a Ha. psizes. rewrite Hn' by lia. by rewrite decide_False by lia.
  - intros it t Hit. destruct (mi_done0 it t Hit) as (_ & _ & [(? & ? & ?)|(? & ? & Hd)]).
    + unfold item_end in *. psizes. split_and!; [lia..|]. intros d Hd. rewrite Hn' by lia.
      rewrite decide_True by lia. rewrite mi_src0 by lia. f_equal. lia.
    + psizes. split_and!; [lia..|]. intros d Hdd. rewrite Hn' by lia.
      rewrite decide_False by lia. by apply Hd.
  - intros it a Hit Ha. rewrite <- (mi_rest0 it a Hit Ha). unfold src.
    destruct presorted eqn:Hps; [|done]. destruct mi_sorted0 as (? & _ & Hs); [done|by intros ->; inversion Hit|].
    rewrite Forall_forall in Hs, mi_valid0. specialize (Hs it Hit). destruct (mi_valid0 it Hit).
    psizes. rewrite Hn' by lia. by rewrite decide_False by lia.
Qed.
(** Before an item that does not touch the block, the block is copied. *)
Lemma flush_block done it rest p upper head tail :
  move_inv done (it :: rest) p upper head tail ->
  exists p', copy p upper head (tail - head) = Ok p' /\
    move_inv done (it :: rest) p' upper (item_end it) (item_end it).
Proof.
  intros Hinv. assert (Hpos : 0 <= total (it :: rest)).
  { apply total_nonneg. destruct Hinv. eapply Forall_impl; [done|]. by intros ? []. }
  destruct (copy_block _ _ _ _ _ _ Hinv Hpos) as (p' & Hp' & Hl' & Hb' & Hlow & Hhigh & Hdone & Hrest).
  exists p'. split; [done|]. destruct Hinv. destruct mi_block0 as ([? ?] & ? & ?).
  pose proof (Forall_inv mi_valid0) as []. unfold item_end in *. split; try done.
  - split_and!; lia.
  - intros a Ha. lia.
  - intros it' t Hit'. destruct (mi_done0 it' t Hit') as (Hi & Hlp & _). split_and!; [lia..| |].
    + rewrite <- Hlp. apply lp_above; [done|]. eapply agree_weaken; [done|psizes; lia..].
    + right. rewrite Z.sub_diag, Z.add_0_r. by apply Hdone.
  - intros i Hi Hni. rewrite <- mi_others0 by done. apply lp_above; [done|].
    eapply agree_weaken; [done|psizes; lia..].
  - intros a [Ha|Ha].
    + rewrite Hlow by (psizes; lia). apply mi_frame0. lia.
    + rewrite Hhigh by done. apply mi_frame0. lia.
  - intros Hps Hne. destruct (mi_sorted0 Hps Hne) as (? & Hd & Hf). inversion Hf as [|? ? Hh Ht]; subst.
    inversion Hd as [|? ? _ Hall]; subst. split_and!; [unfold item_end in *; lia|done|].
    constructor; [unfold item_end; lia|]. eapply Forall_impl; [exact Hall|]. unfold item_end. intros ? ?. lia.
Qed.

Lemma set_lp_off_wf l o : lp_wf l -> lp_wf (set_lp_off l o).
Proof. unfold lp_wf, set_lp_off. simpl. intros. pose proof (Z.mod_pos_bound o 32768). lia. Qed.

(** An item that ends where the block starts joins the block. *)
Lemma absorb_item done it rest p upper tail :
  move_inv done (it :: rest) p upper (item_end it) tail ->
  exists p', store_lp p (PageGetItemId (offsetindex it + 1)) (set_lp_off (lp p (offsetindex it)) (upper - alignedlen it)) = Ok p' /\
    load_lp p (PageGetItemId (offsetindex it + 1)) = Ok (lp p (offsetindex it)) /\
    move_inv (done ++ [(it, upper - alignedlen it)]) rest p' (upper - alignedlen it) (itemoff it) tail.
Proof.
  intros []. destruct mi_block0 as ([? ?] & ? & ?). pose proof (Forall_inv mi_valid0) as [].
  inversion mi_valid0 as [|? ? _ Hvr]; subst. unfold total in mi_room0; simpl in mi_room0; fold (total rest) in mi_room0.
  assert (Htot : 0 <= total rest) by (apply total_nonneg; eapply Forall_impl; [done|]; by intros ? []).
  assert (Hmax : 0 < offsetindex it + 1 <= max_lines) by (psizes; lia).
  destruct (store_lp_ok p (offsetindex it + 1) (set_lp_off (lp p (offsetindex it)) (upper - alignedlen it)))
    as (p' & Hst & Hl' & Hb' & Hlp' & Hfr); [done|done|done|].
  rewrite itemid_unpack_pack in Hlp' by apply set_lp_off_wf, lp_is_wf.
  replace (offsetindex it + 1 - 1) with (offsetindex it) in Hlp' by lia.
  assert (Hdata : forall a, lo <= a -> nthZ p' a = nthZ p a)
    by (intros a Ha; apply Hfr; unfold PageGetItemId; psizes; lia).
  assert (Hsrc : forall a, lo <= a -> src p' a = src p a)
    by (intros a Ha; unfold src; destruct presorted; auto).
  assert (Hfresh : offsetindex it ∉ map (fun x => offsetindex x.1) done).
  { intros Hin. apply NoDup_app in mi_nodup0 as (_ & Hno & _). by apply (Hno _ Hin); left. }
  exists p'. split_and!; [done|rewrite load_lp_ok by done; do 2 f_equal; lia|].
  unfold item_end in *. split; try done.
  - lia.
  - split_and!; lia.
  - rewrite map_app. simpl. by rewrite <- app_assoc.
  - intros a Ha. rewrite Hsrc by lia. destruct (decide (a < itemoff it + alignedlen it)).
    + apply (mi_rest0 it); [by left|unfold item_end; lia].
    + apply mi_src0. lia.
  - intros it' a Hit' Ha. rewrite Forall_forall in Hvr. destruct (Hvr it' Hit').
    rewrite Hsrc by lia. apply (mi_rest0 it'); [by right|done].
  - intros it' t Hit'. apply elem_of_app in Hit' as [Hit'|Hit'].
    + destruct (mi_done0 it' t Hit') as (Hi & Hlp & Hc). split_and!; [lia..| |].
      * rewrite <- Hlp. eapply (lp_other _ _ (offsetindex it)); [lia| |exact Hfr].
        intros Heq. apply Hfresh. rewrite <- Heq. apply (list_elem_of_fmap_2 (fun x => offsetindex x.1) done (it', t)). done.
      * destruct Hc as [(?&?&?)|(?&?&Hd)]; unfold item_end in *.
        { left. unfold pending, item_end. lia. }
        right. split_and!; [lia..|]. intros d Hdd. rewrite Hdata by lia. by apply Hd.
    + apply list_elem_of_singleton in Hit'. simplify_eq. split_and!; [lia..| |].
      * rewrite Hlp'. f_equal. by apply mi_others0.
      * left. split_and!; unfold item_end; lia.
  - intros i Hi Hni. rewrite map_app, not_elem_of_app in Hni. destruct Hni as [Hni Hne].
    rewrite <- mi_others0 by done. eapply (lp_other _ _ (offsetindex it)); [lia| |exact Hfr].
    intros ->. apply Hne. by left.
  - intros a Ha. rewrite Hfr; [by apply mi_frame0|psizes; lia|unfold PageGetItemId; psizes; lia].
  - intros Hps _. destruct (mi_sorted0 Hps) as (? & Hd & Hf); [done|]. inversion Hd; subst.
    split_and!; [lia|done..].
Qed.

(** The loop. *)
Lemma move_tuples_ok rest : forall done p upper head tail,
  move_inv done rest p upper head tail ->
  exists p' upper' head' tail',
    move_tuples copy rest p upper head tail = Ok (p', upper', head', tail') /\
    move_inv (done ++ targets upper rest) [] p' upper' head' tail' /\ upper' = upper - total rest.
Proof.
  induction rest as [|it rest IH]; intros done p upper head tail Hinv; cbn [move_tuples].
  - exists p, upper, head, tail. simpl. rewrite app_nil_r. unfold total. simpl. split_and!; [done|done|lia].
  - assert (Hflush : exists p1 tail1,
      (if negb (head =? item_end it) then p1 ← copy p upper head (tail - head); Ok (p1, item_end it)
       else Ok (p, tail)) = Ok (p1, tail1) /\ move_inv done (it :: rest) p1 upper (item_end it) tail1).
    { destruct (Z.eqb_spec head (item_end it)) as [->|Hne]; simpl.
      - by exists p, tail.
      - destruct (flush_block _ _ _ _ _ _ _ Hinv) as (p1 & Hc & Hinv1). rewrite Hc. by exists p1, (item_end it). }
    destruct Hflush as (p1 & tail1 & -> & Hinv1). rewrite bind_val.
    destruct (absorb_item _ _ _ _ _ _ Hinv1) as (p2 & Hst & Hld & Hinv2).
    rewrite Hld, bind_val, Hst, bind_val.
    destruct (IH _ _ _ _ _ Hinv2) as (p' & u' & h' & t' & Hm & Hinv' & Hu').
    exists p', u', h', t'. split_and!; [done| |unfold total in *; simpl; lia].
    simpl. by rewrite <- app_assoc in Hinv'.
Qed.

Lemma targets_index u l : map (fun x => offsetindex x.1) (targets u l) = map offsetindex l.
Proof. revert u. induction l as [|it l IH]; intros u; simpl; [done|]. by rewrite IH. Qed.

(** The loop, the copy of the last block and the new [pd_upper]. *)
Lemma move_all_ok base done rest ptr p upper :
  done ++ targets upper rest = targets special base ->
  upper - total rest = special - total base ->
  move_inv done rest p upper (item_end ptr) (item_end ptr) ->
  exists p', move_all copy rest ptr p upper = Ok p' /\ compacted base p'.
Proof.
  intros Htg Hup Hinv. unfold move_all.
  destruct (move_tuples_ok _ _ _ _ _ _ Hinv) as (p1 & u1 & h1 & t1 & Hm & Hinv1 & Hu1).
  rewrite Hm, bind_val. rewrite Htg in Hinv1.
  destruct (copy_block _ _ _ _ _ _ Hinv1) as (p2 & Hc & Hl2 & Hb2 & Hlow & Hhigh & Hdone & _); [done|].
  rewrite Hc, bind_val. eexists; split; [done|]. destruct Hinv1. unfold set_pd_upper.
  destruct mi_block0 as ([? ?] & ? & ?). unfold total in mi_room0; simpl in mi_room0.
  destruct (set_field p2 14 u1) as (Hl3 & Hb3 & Hg3 & Hn3); [done|lia|].
  assert (Hlp3 : forall i, 0 <= i < n -> lp (put16 p2 14 (wrapu 16 u1)) i = lp p1 i).
  { intros i Hi. transitivity (lp p2 i); apply lp_agree; intros a Ha; psizes.
    - apply Hn3; lia.
    - apply Hlow. lia. }
  split; [done|auto|..].
  - unfold pd_upper. rewrite Hg3, wrapu_small; [lia|unfold is_u; psizes; lia].
  - intros it t Hit. destruct (mi_done0 it t Hit) as (Hi & Hlp & _). rewrite Hlp3 by done. split; [done|].
    destruct (Hdone it t Hit) as (? & ? & Hd). intros d Hdd. psizes. rewrite Hn3 by lia. by apply Hd.
  - intros i Hi Hni. rewrite Hlp3 by done. apply mi_others0; [done|]. by rewrite targets_index.
  - intros a Ha ? ?. psizes. rewrite Hn3, Hlow by lia. apply mi_frame0. lia.
  - intros a Ha. psizes. rewrite Hn3, Hhigh by lia. apply mi_frame0. lia.
Qed.
End moving.

(** Skipping stops at the first item that is not in place; what was skipped is
    where compaction would put it and what is left lies below. *)
Lemma skip_in_place_ok l : forall upper ptr, Forall valid_entry l -> StronglySorted apart l ->
  Forall (fun it => item_end it <= upper) l ->
  exists skipped rest u ptr', skip_in_place l upper ptr = (u, rest, ptr') /\ l = skipped ++ rest /\
    targets upper l = map (fun it => (it, itemoff it)) skipped ++ targets u rest /\
    u = upper - total skipped /\ Forall (fun it => u <= itemoff it) skipped /\
    Forall (fun it => item_end it <= u) rest /\
    (forall b, b <= upper -> Forall (fun it => b <= itemoff it) l -> b <= u) /\
    (ptr' = ptr /\ l = [] \/ ptr' ∈ l) /\
    (rest = [] \/ exists r, rest = ptr' :: r).
Proof.
  induction l as [|it l IH]; intros upper ptr Hv Ha Hu; cbn [skip_in_place].
  - exists [], [], upper, ptr. unfold total. simpl. split_and!; auto; lia.
  - inversion Hv as [|? ? [] Hv']; subst. inversion Ha as [|? ? Ha' Hall]; subst.
    inversion Hu as [|? ? Hu1 Hu']; subst. destruct (Z.eqb_spec upper (item_end it)) as [He|Hne]; cbn [negb].
    + destruct (IH (upper - alignedlen it) it Hv' Ha') as (sk & rest & u & ptr' & Hs & Hl & Ht & Hue & Hsk & Hr & Hlow & Hp & Hh).
      { rewrite Forall_forall in *. intros r Hr. specialize (Hall r Hr). specialize (Hu' r Hr).
        destruct (Hv' r Hr). unfold apart, item_end in *. lia. }
      assert (Htot : 0 <= total sk).
      { apply total_nonneg. subst l. apply Forall_app in Hv' as [Hv' _]. eapply Forall_impl; [exact Hv'|]. by intros ? []. }
      exists (it :: sk), rest, u, ptr'. split_and!; try done; [by rewrite Hl| |unfold total in *; simpl; lia| | |].
      * simpl. rewrite Ht. simpl. do 2 f_equal. unfold item_end in He. lia.
      * constructor; [unfold item_end in *; lia|done].
      * intros b Hbu Hf. inversion Hf; subst. apply Hlow; [unfold item_end in *; lia|done].
      * right. destruct Hp as [[-> ->]|Hp]; [by left|by right].
    + exists [], (it :: l), upper, it. unfold total. simpl. split_and!; try done; [lia| |eauto].
      right. by left.
Qed.

(** Before the loop: the skipped items are in place. *)
Lemma move_inv_start presorted scratch skipped rest ptr u :
  all_bytes P0 -> Forall valid_entry (skipped ++ rest) ->
  NoDup (map offsetindex (skipped ++ rest)) -> Forall (fun it => u <= itemoff it) skipped ->
  lo <= u - total rest -> u <= special -> valid_entry ptr ->
  (rest = [] \/ exists r, rest = ptr :: r) -> Forall (fun it => item_end it <= u) rest ->
  (presorted = true -> descending rest) ->
  (presorted = false -> forall it a, it ∈ rest -> itemoff it <= a < item_end it -> nthZ scratch a = nthZ P0 a) ->
  move_inv presorted scratch (map (fun it => (it, itemoff it)) skipped) rest P0 u (item_end ptr) (item_end ptr).
Proof.
  intros Hb Hv Hnd Hsk Hlu Hus [] Hr Hru Hps Hns.
  apply Forall_app in Hv as [Hvs Hvr]. unfold item_end in ve_high0.
  split; [done|done|done|unfold item_end; split_and!; lia|done|..].
  - rewrite map_map. simpl. by rewrite <- map_app.
  - intros a Ha. lia.
  - intros it a Hit Ha. unfold src. destruct presorted; [done|]. by eapply Hns.
  - intros it t Hit. apply list_elem_of_fmap in Hit as (it' & ? & Hit'). simplify_eq.
    rewrite Forall_forall in Hvs, Hsk. destruct (Hvs it' Hit'). specialize (Hsk it' Hit'). split_and!; [lia..| |].
    + unfold set_lp_off. pose proof (lp_is_wf P0 (offsetindex it')) as (?&?&?).
      rewrite Z.mod_small by lia. rewrite <- ve_lp1. apply itemid_eta.
    + right. rewrite Z.sub_diag, Z.add_0_r. unfold item_end in *. split_and!; [lia..|]. done.
  - done.
  - done.
  - intros Hp Hne. specialize (Hps Hp). destruct Hr as [->|[r ->]]; [done|].
    inversion Hru; subst. inversion Hps as [|? ? ? Hall]; subst. split_and!; [done|done|].
    constructor; [done|]. eapply Forall_impl; [exact Hall|]. unfold item_end. intros ? ?. lia.
Qed.

(** Copying tuple by tuple fills the scratch block where it will be read. *)
Lemma copy_each_ok l : forall scratch, lenZ scratch = BLCKSZ -> all_bytes scratch -> all_bytes P0 ->
  Forall valid_entry l ->
  exists s', copy_each l P0 scratch = Ok s' /\ lenZ s' = BLCKSZ /\ all_bytes s' /\
    (forall a, 0 <= a -> nthZ s' a = nthZ P0 a \/ nthZ s' a = nthZ scratch a) /\
    (forall it a, it ∈ l -> itemoff it <= a < item_end it -> nthZ s' a = nthZ P0 a).
Proof.
  induction l as [|it l IH]; intros scratch Hl Hb Hb0 Hv; cbn [copy_each].
  - exists scratch. split_and!; auto. intros it a Hit. inversion Hit.
  - inversion Hv as [|? ? [] Hv']; subst. unfold item_end in ve_high0. psizes.
    destruct (memcpy_spec scratch (itemoff it) P0 (itemoff it) (alignedlen it)) as (s1 & Hs1 & Hl1 & Hn1); [lia..|].
    rewrite Hs1, bind_val. destruct (IH s1) as (s' & Hs' & Hl' & Hb' & Hor & Hin); [lia|by apply (all_bytes_memcpy _ _ _ _ _ _ Hb Hb0 Hs1)|done|done|].
    exists s'. split_and!; try done.
    + intros a Ha. destruct (Hor a Ha) as [->| ->]; [by left|]. rewrite Hn1 by done.
      case_decide; [left; f_equal; lia|by right].
    + intros it' a Hit Ha. apply elem_of_cons in Hit as [->|Hit]; [|by eapply Hin].
      destruct (Hor a) as [->| ->]; [lia|done|]. unfold item_end in Ha. rewrite Hn1 by lia.
      rewrite decide_True by lia. f_equal. lia.
Qed.

Lemma memmove_copies scratch p d s k : lenZ p = BLCKSZ -> all_bytes p ->
  0 <= d -> 0 <= s -> 0 <= k -> d + k <= BLCKSZ -> s + k <= BLCKSZ ->
  exists p', memmove p d s k = Ok p' /\ lenZ p' = BLCKSZ /\ all_bytes p' /\
    forall i, 0 <= i -> nthZ p' i = if decide (d <= i < d + k) then src true scratch p (s + (i - d)) else nthZ p i.
Proof.
  intros Hl Hb ? ? ? ? ?. destruct (memcpy_spec p d p s k) as (p' & Hp & Hl' & Hn'); [lia..|].
  exists p'. split_and!; [done|lia|by apply (all_bytes_memcpy _ _ _ _ _ _ Hb Hb Hp)|done].
Qed.

Lemma scratch_copies scratch p d s k : lenZ scratch = BLCKSZ -> all_bytes scratch ->
  lenZ p = BLCKSZ -> all_bytes p ->
  0 <= d -> 0 <= s -> 0 <= k -> d + k <= BLCKSZ -> s + k <= BLCKSZ ->
  exists p', memcpy p d scratch s k = Ok p' /\ lenZ p' = BLCKSZ /\ all_bytes p' /\
    forall i, 0 <= i -> nthZ p' i = if decide (d <= i < d + k) then src false scratch p (s + (i - d)) else nthZ p i.
Proof.
  intros Hls Hbs Hl Hb ? ? ? ? ?. destruct (memcpy_spec p d scratch s k) as (p' & Hp & Hl' & Hn'); [lia..|].
  exists p'. split_and!; [done|lia|by apply (all_bytes_memcpy _ _ _ _ _ _ Hb Hbs Hp)|done].
Qed.

(** Compaction of valid, non-overlapping entries succeeds in all its variants. *)
Lemma compactify_ok base presorted scratch :
  all_bytes P0 -> lenZ scratch = BLCKSZ -> all_bytes scratch ->
  base <> [] -> Forall valid_entry base -> NoDup (map offsetindex base) -> StronglySorted apart base ->
  total base <= special - lo -> pd_special P0 = special -> lo <= pd_upper P0 ->
  Forall (fun it => pd_upper P0 <= itemoff it) base ->
  (presorted = true -> descending base) ->
  exists p', compactify_tuples base P0 presorted scratch = Ok p' /\ compacted base p'.
Proof.
  intros Hb Hls Hbs Hne Hv Hnd Hap Htot Hsp Hpu Hup Hps.
  destruct base as [|it0 base0]; [done|]. set (base := it0 :: base0) in *.
  assert (Hhigh : Forall (fun it => item_end it <= special) base)
    by (eapply Forall_impl; [exact Hv|]; by intros ? []).
  destruct (skip_in_place_ok base special it0 Hv Hap Hhigh)
    as (sk & rest & u & ptr & Hs & Hbase & Htg & Hu & Hsk & Hru & Hlow & Hptr & Hrest).
  assert (Hvp : valid_entry ptr).
  { rewrite Forall_forall in Hv. apply Hv. destruct Hptr as [[_ ?]|?]; done. }
  assert (Hsk0 : 0 <= total sk).
  { apply total_nonneg. rewrite Hbase in Hv. apply Forall_app in Hv as [Hv1 _].
    eapply Forall_impl; [exact Hv1|]. by intros ? []. }
  assert (Htb : total base = total sk + total rest) by (rewrite Hbase; apply total_app).
  change (compactify_tuples base P0 presorted scratch) with
    (if presorted then
       let '(upper, rest, itemidptr) := skip_in_place base (pd_special P0) it0 in
       move_all memmove rest itemidptr P0 upper
     else if lenZ base <? PageGetMaxOffsetNumber P0 / 4 then
       scratch ← copy_each base P0 scratch;
       move_all (fun p d s n => memcpy p d scratch s n) base it0 P0 (pd_special P0)
     else
       let '(upper, rest, itemidptr) := skip_in_place base (pd_special P0) it0 in
       scratch ← memcpy scratch (pd_upper P0) P0 (pd_upper P0) (upper - pd_upper P0);
       move_all (fun p d s n => memcpy p d scratch s n) rest itemidptr P0 upper).
  rewrite Hsp, Hs. destruct presorted; [|destruct (_ <? _)].
  - eapply (move_all_ok true scratch); [apply memmove_copies|by symmetry|lia|].
    apply move_inv_start; rewrite <- ?Hbase; try done; [lia|lia|].
    intros _. specialize (Hps eq_refl). rewrite Hbase in Hps. unfold descending in *.
    clear - Hps. induction sk as [|x sk IH]; [done|]. inversion Hps; subst. auto.
  - destruct (copy_each_ok base scratch) as (s' & -> & Hl' & Hb' & _ & Hin); [done..|]. rewrite bind_val.
    apply (move_all_ok false s' (fun p d s n => memcpy p d s' s n)) with (done := []); [|done|lia|].
    + intros. by apply scratch_copies.
    + apply (move_inv_start false s' [] base it0 special); try done; [lia| |].
      * by apply Forall_inv in Hv.
      * right. by exists base0.
  - assert (Hlu : pd_upper P0 <= u).
    { apply Hlow; [|done]. destruct Hvp. rewrite Forall_forall in Hup, Hhigh.
      assert (Hi : ptr ∈ base) by (destruct Hptr as [[_ ?]|?]; done).
      specialize (Hup _ Hi). unfold item_end in *. lia. }
    psizes. destruct (memcpy_spec scratch (pd_upper P0) P0 (pd_upper P0) (u - pd_upper P0))
      as (s' & Hs' & Hl' & Hn'); [lia..|]. rewrite Hs', bind_val.
    apply (move_all_ok false s' (fun p d s n => memcpy p d s' s n)) with
      (done := map (fun it => (it, itemoff it)) sk); [|done|lia|].
    + intros. apply scratch_copies; try done; [psizes; lia|by apply (all_bytes_memcpy _ _ _ _ _ _ Hbs Hb Hs')].
    + apply move_inv_start; rewrite <- ?Hbase; try done; [lia|lia|]. intros _ it a Hit Ha.
      rewrite Hbase in Hup. apply Forall_app in Hup as [_ Hup]. rewrite Forall_forall in Hup, Hru.
      specialize (Hup it Hit). specialize (Hru it Hit). rewrite Hn' by lia. rewrite decide_True by lia.
      f_equal. lia.
Qed.
End compaction.

(** ** Compaction of a page *)
Lemma targets_bounds u l it t : Forall (fun it => 0 < alignedlen it) l -> (it, t) ∈ targets u l ->
  u - total l <= t /\ t + alignedlen it <= u.
Proof.
  intros Hl. revert u. induction Hl as [|x l Hx Hl IH]; intros u Hin; simpl in Hin; [inversion Hin|].
  pose proof (total_nonneg l Hl). unfold total in *. simpl.
  apply elem_of_cons in Hin as [?|Hin]; simplify_eq; [lia|]. specialize (IH _ Hin). lia.
Qed.

Lemma targets_aligned u l it t : u `mod` 8 = 0 -> Forall (fun it => alignedlen it `mod` 8 = 0) l ->
  (it, t) ∈ targets u l -> t `mod` 8 = 0.
Proof.
  intros Hu Hl. revert u Hu. induction Hl as [|x l Hx Hl IH]; intros u Hu Hin; simpl in Hin; [inversion Hin|].
  assert (Hm : (u - alignedlen x) `mod` 8 = 0) by (Z.to_euclidean_division_equations; lia).
  apply elem_of_cons in Hin as [?|Hin]; simplify_eq; [done|]. by apply (IH _ Hm).
Qed.

Lemma targets_disjoint u l it t it' t' : Forall (fun it => 0 < alignedlen it) l ->
  (it, t) ∈ targets u l -> (it', t') ∈ targets u l -> it <> it' ->
  t + alignedlen it <= t' \/ t' + alignedlen it' <= t.
Proof.
  intros Hl. revert u. induction Hl as [|x l Hx Hl IH]; intros u Hin Hin' Hne; simpl in *; [inversion Hin|].
  apply elem_of_cons in Hin as [?|Hin]; apply elem_of_cons in Hin' as [?|Hin']; simplify_eq.
  - apply (targets_bounds _ _ _ _ Hl) in Hin'. lia.
  - apply (targets_bounds _ _ _ _ Hl) in Hin. lia.
  - by apply (IH (u - alignedlen x)).
Qed.

Lemma elem_of_targets u l it : it ∈ l -> exists t, (it, t) ∈ targets u l.
Proof.
  revert u. induction l as [|x l IH]; intros u Hin; [inversion Hin|]. simpl.
  apply elem_of_cons in Hin as [->|Hin]; [eexists; by left|].
  destruct (IH (u - alignedlen x) Hin) as [t Ht]. exists t. by right.
Qed.

(** The entries of the line pointers with storage among the first [k]. *)
Definition entry (p : Page) (i : Z) : itemIdCompactData := mkCompact i (lp_off (lp p i)) (alen (lp p i)).
Definition storage_idx (p : Page) (k : Z) : list Z := filter (fun i => lp_len (lp p i) <> 0) (seqZ 0 k).
Definition storage_base (p : Page) (k : Z) : list itemIdCompactData := map (entry p) (storage_idx p k).
Definition storage_total (p : Page) : Z := total (storage_base p (nline p)).

Lemma elem_of_storage_base p k it :
  it ∈ storage_base p k <-> exists i, it = entry p i /\ 0 <= i < k /\ lp_len (lp p i) <> 0.
Proof.
  unfold storage_base, storage_idx. rewrite list_elem_of_fmap.
  setoid_rewrite list_elem_of_filter. setoid_rewrite elem_of_seqZ. naive_solver lia.
Qed.

Lemma storage_index p k : map offsetindex (storage_base p k) = storage_idx p k.
Proof. unfold storage_base. rewrite map_map. simpl. apply map_id. Qed.

Lemma storage_idx_NoDup p k : NoDup (storage_idx p k).
Proof. apply NoDup_filter, NoDup_seqZ. Qed.

Lemma storage_pos p k : Forall (fun it => 0 < alignedlen it /\ alignedlen it `mod` 8 = 0) (storage_base p k).
Proof.
  apply Forall_forall. intros it (i & -> & ? & ?)%elem_of_storage_base. simpl.
  pose proof (alen_bounds _ (lp_is_wf p i)). pose proof (lp_is_wf p i) as (?&?&?). lia.
Qed.

Lemma total_storage p k : total (storage_base p k) = total_alen (map (lp p) (storage_idx p k)).
Proof. unfold total, total_alen, storage_base. by rewrite !map_map. Qed.

(** The tuples fit between [pd_upper] and the special space. *)
Lemma storage_total_bound p : PageOK p -> storage_total p <= pd_special p - pd_upper p.
Proof.
  intros [_ _ Hlay Hlps Hdis]. unfold storage_total. rewrite total_storage. destruct Hlay.
  apply packing; [lia| |].
  - apply Forall_forall. intros l Hl. apply list_elem_of_fmap in Hl as (i & -> & Hi).
    unfold storage_idx in Hi. apply list_elem_of_filter in Hi as [Hs Hi]. apply elem_of_seqZ in Hi.
    destruct (Hlps i) as [_ Ho]; [lia|]. pose proof (alen_bounds _ (lp_is_wf p i)).
    pose proof (lp_is_wf p i) as (?&?&?). specialize (Ho Hs). lia.
  - intros i j l l' Hi Hj Hij. rewrite list_lookup_fmap in Hi, Hj.
    destruct (storage_idx p (nline p) !! i) as [x|] eqn:Hx; [|done].
    destruct (storage_idx p (nline p) !! j) as [y|] eqn:Hy; [|done]. simpl in *. simplify_eq.
    assert (x <> y). { intros ->. eapply Hij, NoDup_lookup; [apply storage_idx_NoDup|done|done]. }
    apply list_elem_of_lookup_2, list_elem_of_filter in Hx as [Hsx Hx].
    apply list_elem_of_lookup_2, list_elem_of_filter in Hy as [Hsy Hy].
    apply elem_of_seqZ in Hx, Hy. destruct (Hdis x y) as [?|[?|?]]; lia || done.
Qed.

Lemma StronglySorted_all {A} (R : A -> A -> Prop) l :
  NoDup l -> (forall x y, x ∈ l -> y ∈ l -> x <> y -> R x y) -> StronglySorted R l.
Proof.
  induction 1 as [|x l Hx Hl IH]; intros H; constructor.
  - apply IH. intros y z ? ? ?. by apply H; [right..|].
  - apply Forall_forall. intros y Hy. apply H; [by left|by right|]. by intros ->.
Qed.

Lemma storage_base_apart p : PageOK p -> StronglySorted apart (storage_base p (nline p)).
Proof.
  intros [_ _ _ _ Hdis]. apply StronglySorted_all.
  - apply (NoDup_fmap_1 offsetindex). change (NoDup (map offsetindex (storage_base p (nline p)))).
    rewrite storage_index. apply storage_idx_NoDup.
  - intros x y (i & -> & Hi & Hsi)%elem_of_storage_base (j & -> & Hj & Hsj)%elem_of_storage_base Hne.
    assert (i <> j) by (intros ->; done).
    unfold apart, item_end. simpl. destruct (Hdis i j) as [?|[?|?]]; done.
Qed.

Lemma decreasing_descending l : Forall (fun it => 0 < alignedlen it) l -> StronglySorted apart l ->
  StronglySorted (fun a b => itemoff b < itemoff a) l -> descending l.
Proof.
  unfold descending. induction l as [|x l IH]; intros Hp Ha Hd; [constructor|].
  inversion Hp; subst. inversion Ha as [|? ? ? Hax]; subst. inversion Hd as [|? ? ? Hdx]; subst.
  constructor; [by apply IH|]. rewrite Forall_forall in *. intros y Hy.
  specialize (Hax y Hy). specialize (Hdx y Hy). unfold apart, item_end in *. lia.
Qed.

Lemma storage_valid p : PageOK p ->
  Forall (valid_entry p (pd_lower p) (pd_special p) (nline p)) (storage_base p (nline p)) /\
  Forall (fun it => pd_upper p <= itemoff it) (storage_base p (nline p)).
Proof.
  intros [_ _ [] Hlps _]. rewrite !Forall_forall. split.
  all: intros it (i & -> & Hi & Hs)%elem_of_storage_base; destruct (Hlps i Hi) as [_ Ho];
    specialize (Ho Hs); pose proof (alen_bounds _ (lp_is_wf p i)); pose proof (lp_is_wf p i) as (?&?&?).
  - split; unfold item_end; cbn [entry offsetindex itemoff alignedlen]; lia.
  - cbn [entry itemoff]. lia.
Qed.

(** What compaction leaves alone, and the new [pd_upper]. *)
Record compact_result (p p' : Page) : Prop := {
  cr_ok : PageOK p';
  cr_items : items p' = items p;
  cr_lower : pd_lower p' = pd_lower p;
  cr_nline : nline p' = nline p;
  cr_upper : pd_upper p' = pd_special p - storage_total p;
  cr_special : pd_special p' = pd_special p;
  cr_flags : pd_flags p' = pd_flags p;
  cr_lps : forall i, 0 <= i < nline p -> lp_flags (lp p' i) = lp_flags (lp p i) /\ lp_len (lp p' i) = lp_len (lp p i);
  cr_tail : forall a, pd_special p <= a -> nthZ p' a = nthZ p a }.

Section result.
Context (p p' : Page) (Hok : PageOK p).
Context (Hc : compacted p (pd_special p) (nline p) (storage_base p (nline p)) p').

Lemma compacted_header a : a <> 14 -> 0 <= a <= 22 -> a `mod` 2 = 0 -> get16 p' a = get16 p a.
Proof.
  intros. apply get16_agree. intros b Hb. apply (cp_header _ _ _ _ _ Hc);
    Z.to_euclidean_division_equations; lia.
Qed.

Lemma compacted_lp i : 0 <= i < nline p ->
  (lp_len (lp p i) = 0 /\ lp p' i = lp p i) \/
  (lp_len (lp p i) <> 0 /\ exists t, (entry p i, t) ∈ targets (pd_special p) (storage_base p (nline p)) /\
     lp p' i = mkItemId t (lp_flags (lp p i)) (lp_len (lp p i)) /\
     t `mod` 8 = 0 /\ pd_special p - storage_total p <= t /\ t + alen (lp p i) <= pd_special p /\
     forall d, 0 <= d < alen (lp p i) -> nthZ p' (t + d) = nthZ p (lp_off (lp p i) + d)).
Proof.
  intros Hi. destruct (decide (lp_len (lp p i) = 0)) as [E|E]; [left|right]; split; try done.
  - apply (cp_others _ _ _ _ _ Hc); [done|]. rewrite storage_index. unfold storage_idx.
    rewrite list_elem_of_filter. naive_solver.
  - destruct (elem_of_targets (pd_special p) (storage_base p (nline p)) (entry p i)) as [t Ht].
    { apply elem_of_storage_base. eauto. }
    exists t. split; [done|]. destruct (cp_lps _ _ _ _ _ Hc _ _ Ht) as [Hlp Hd].
    pose proof (storage_pos p (nline p)) as Hpos.
    pose proof (storage_total_bound p Hok). destruct Hok as [_ _ [] _ _].
    destruct (targets_bounds _ _ _ _ (Forall_impl _ _ _ Hpos (fun _ => @proj1 _ _)) Ht).
    pose proof (targets_aligned _ _ _ _ lay_salign (Forall_impl _ _ _ Hpos (fun _ => @proj2 _ _)) Ht).
    unfold storage_total in *. cbn [entry offsetindex itemoff alignedlen] in *. split_and!; [|done..]. rewrite Hlp. unfold set_lp_off.
    rewrite Z.mod_small; [done|]. pose proof (alen_bounds _ (lp_is_wf p i)).
    pose proof (lp_is_wf p i) as (?&?&?). psizes. lia.
Qed.

Lemma compacted_result : compact_result p p'.
Proof.
  assert (Hlow : pd_lower p' = pd_lower p) by (apply compacted_header; done).
  assert (Hsp : pd_special p' = pd_special p) by (apply compacted_header; done).
  assert (Hfl : pd_flags p' = pd_flags p) by (apply compacted_header; done).
  assert (Hnl : nline p' = nline p) by (unfold nline, PageGetMaxOffsetNumber; by rewrite Hlow).
  pose proof (storage_total_bound p Hok) as Hst. pose proof (ok_nline p Hok) as [Hlv Hnb].
  pose proof (storage_pos p (nline p)) as Hpos.
  pose proof (total_nonneg _ (Forall_impl _ _ _ Hpos (fun _ => @proj1 _ _))) as Htot.
  fold (storage_total p) in Htot.
  assert (Hup : pd_upper p' = pd_special p - storage_total p) by apply (cp_upper _ _ _ _ _ Hc).
  assert (Hok' : PageOK p').
  { destruct Hok as [Hlen Hb Hlay Hlps Hdis]. destruct Hlay. split.
    - apply (cp_len _ _ _ _ _ Hc).
    - apply (cp_bytes _ _ _ _ _ Hc).
    - rewrite Hlow, Hsp, Hup. split; [lia|lia|done| |done].
      enough (storage_total p `mod` 8 = 0) by (Z.to_euclidean_division_equations; lia).
      unfold storage_total, total. clear - Hpos. induction Hpos as [|x l [? ?] _ IH]; simpl; [done|].
      Z.to_euclidean_division_equations. lia.
    - rewrite Hnl, Hup, Hsp. intros i Hi. destruct (Hlps i Hi) as [Hun Hst'].
      destruct (compacted_lp i Hi) as [[E ->]|(E & t & _ & -> & ? & ? & ? & _)]; unfold lp_ok; cbn [lp_flags lp_len lp_off].
      + split; [done|]. done.
      + split; [done|]. intros _. change (alen _) with (alen (lp p i)). lia.
    - rewrite Hnl. intros i j Hi Hj Hij. unfold lp_disjoint.
      destruct (compacted_lp i Hi) as [[E ->]|(E & t & Ht & -> & _)]; [by left|].
      destruct (compacted_lp j Hj) as [[E' ->]|(E' & t' & Ht' & -> & _)]; [right; by left|].
      do 2 right. cbn [lp_flags lp_len lp_off].
      change (alen (mkItemId t _ _)) with (alen (lp p i)).
      change (alen (mkItemId t' _ _)) with (alen (lp p j)).
      eapply (targets_disjoint _ _ (entry p i) t (entry p j) t'); [|done|done|].
      + eapply Forall_impl; [exact Hpos|]. by intros ? [].
      + intros He. by injection He. }
  split; try done.
  - rewrite <- (items_eq p' (items p)); [done|lia|rewrite lenZ_items; lia|].
    rewrite Hnl. intros k Hk. rewrite items_lookup by done. f_equal. symmetry.
    pose proof (lp_is_wf p (Z.of_nat k)) as (?&?&?). pose proof (alen_bounds _ (lp_is_wf p (Z.of_nat k))).
    pose proof (ok_len p' Hok'). destruct Hok as [Hlen _ [] Hlps _]. destruct (Hlps (Z.of_nat k)) as [_ Ho]; [lia|].
    destruct (compacted_lp (Z.of_nat k)) as [[E Hl]|(E & t & _ & Hl & ? & ? & ? & Hd)]; [lia|rewrite Hl..].
    + apply abs_lp_moved; [done|done|lia|done|]. intros. congruence.
    + specialize (Ho E). apply abs_lp_moved; cbn [lp_flags lp_len lp_off]; [done|done|lia|done|]. intros _. psizes.
      split_and!; [lia..|]. intros d Hdd. apply Hd. lia.
  - intros i Hi. destruct (compacted_lp i Hi) as [[E ->]|(E & t & _ & -> & _)]; done.
  - apply (cp_special _ _ _ _ _ Hc).
Qed.
End result.

(** Compaction of a well-formed page keeps all items and leaves no gaps. *)
Lemma compactify_page p presorted scratch :
  PageOK p -> lenZ scratch = BLCKSZ -> all_bytes scratch -> storage_base p (nline p) <> [] ->
  (presorted = true -> StronglySorted (fun a b => itemoff b < itemoff a) (storage_base p (nline p))) ->
  exists p', compactify_tuples (storage_base p (nline p)) p presorted scratch = Ok p' /\ compact_result p p'.
Proof.
  intros Hok Hls Hbs Hne Hps. pose proof (ok_nline p Hok) as [Hlv Hnb].
  destruct (storage_valid p Hok) as [Hv Hup]. pose proof (storage_total_bound p Hok) as Htot.
  pose proof (storage_base_apart p Hok) as Hap.
  destruct (compactify_ok p (pd_lower p) (pd_special p) (nline p)) with
    (base := storage_base p (nline p)) (presorted := presorted) (scratch := scratch) as (p' & Hp' & Hc);
    try done; try (destruct Hok as [? ? [] ? ?]; done || (unfold storage_total in *; lia)).
  - rewrite storage_index. apply storage_idx_NoDup.
  - intros E. apply decreasing_descending; [|done|by apply Hps].
    eapply Forall_impl; [apply storage_pos|]. by intros ? [].
  - exists p'. split; [done|]. by apply compacted_result.
Qed.
