(* ===== verification/BufPageSpec.v ===== *)
(** What the page operations of [BufPage] promise.

    Every operation is shown to terminate without an out-of-bounds access, to
    preserve the layout invariant [PageOK] and to act on the abstract contents
    [items] as a list operation: appending, insertion, deletion, replacement, or no
    change at all for the operations that only move bytes. *)
From S2P Require Import Prelude ByteMem BufPage BufPageLayout BufPageCompact.

(** ** Changes of the header that do not affect the contents *)
Lemma nline_lower p p' : pd_lower p' = pd_lower p -> nline p' = nline p.
Proof. unfold nline, PageGetMaxOffsetNumber. by intros ->. Qed.

(** A line pointer refers to the same bytes in pages that agree on the tuple space. *)
Lemma abs_lp_data p p' i : PageOK p -> 0 <= i < nline p -> lenZ p' = BLCKSZ ->
  agree (pd_upper p) (pd_special p) p p' -> abs_lp p' (lp p i) = abs_lp p (lp p i).
Proof.
  intros [Hlen Hb [] Hlps Hdis] Hi Hl Ha. destruct (lp_is_wf p i) as (?&?&?).
  pose proof (alen_bounds _ (lp_is_wf p i)). destruct (Hlps i Hi) as [_ Ho].
  apply abs_lp_moved; [done|done|lia|done|]. intros Hs. specialize (Ho Hs). psizes.
  split_and!; [lia..|]. intros d Hd. apply Ha. lia.
Qed.

(** The other bytes of the header (LSN, checksum, flags, size and version, prune xid)
    do not matter. *)
Lemma fields_irrelevant p p' : PageOK p -> lenZ p' = BLCKSZ -> all_bytes p' -> agree 12 18 p p' -> agree SizeOfPageHeaderData BLCKSZ p p' ->
  PageOK p' /\ items p' = items p /\ nline p' = nline p /\ pd_lower p' = pd_lower p /\
  pd_upper p' = pd_upper p /\ pd_special p' = pd_special p.
Proof.
  intros Hok Hl' Hb' Hh Ha. pose proof (ok_nline p Hok) as [Hlv Hnb].
  assert (Hf : forall a, 12 <= a <= 16 -> get16 p' a = get16 p a).
  { intros a ?. apply get16_agree. eapply agree_weaken; [exact Hh|psizes; lia..]. }
  assert (Hlow : pd_lower p' = pd_lower p) by (apply Hf; lia).
  assert (Hup : pd_upper p' = pd_upper p) by (apply Hf; lia).
  assert (Hsp : pd_special p' = pd_special p) by (apply Hf; lia).
  pose proof (nline_lower _ _ Hlow) as Hn.
  assert (Hlp : forall i, 0 <= i < nline p -> lp p' i = lp p i).
  { intros i ?. apply lp_agree. eapply agree_weaken; [exact Ha|psizes; lia..]. }
  split_and!; try done.
  - destruct Hok as [Hlen Hb Hlay Hlps Hdis]. split; rewrite ?Hlow, ?Hup, ?Hsp, ?Hn; try done.
    + intros i Hi. rewrite Hlp by done. by apply Hlps.
    + intros i j ? ? ?. rewrite !Hlp by done. by apply Hdis.
  - apply items_eq; [lia|rewrite lenZ_items; lia|]. rewrite Hn. intros k Hk. rewrite items_lookup by done.
    f_equal. symmetry. rewrite Hlp by lia. apply abs_lp_data; [done|lia|done|].
    destruct Hok as [_ _ [] _ _]. eapply agree_weaken; [exact Ha|psizes; lia..].
Qed.

Lemma header_irrelevant p p' : PageOK p -> lenZ p' = BLCKSZ -> all_bytes p' -> agree 12 BLCKSZ p p' ->
  PageOK p' /\ items p' = items p /\ nline p' = nline p /\ pd_lower p' = pd_lower p /\
  pd_upper p' = pd_upper p /\ pd_special p' = pd_special p.
Proof. intros Hok Hl' Hb' Ha. apply fields_irrelevant; try done; (eapply agree_weaken; [exact Ha|psizes; lia..]). Qed.

Lemma set_flags_page p v : PageOK p ->
  PageOK (set_pd_flags p v) /\ items (set_pd_flags p v) = items p /\ nline (set_pd_flags p v) = nline p /\
  pd_lower (set_pd_flags p v) = pd_lower p /\ pd_upper (set_pd_flags p v) = pd_upper p /\
  pd_special (set_pd_flags p v) = pd_special p.
Proof.
  intros Hok. destruct (set_field p 10 v) as (Hl & Hb & _ & Hn); [by apply ok_len|lia|].
  apply header_irrelevant; [done|done|apply Hb, Hok|]. intros a Ha. apply Hn; lia.
Qed.

(** The hint bit. *)
Lemma hint_set p : lenZ p = BLCKSZ -> all_bytes p ->
  PageHasFreeLinePointers (PageSetHasFreeLinePointers p) = true.
Proof.
  intros Hl Hb. unfold PageHasFreeLinePointers, PageSetHasFreeLinePointers, set_pd_flags, pd_flags.
  destruct (set_field p 10 (Z.lor (get16 p 10) PD_HAS_FREE_LINES)) as (_ & _ & Hg & _); [done|lia|].
  rewrite Hg, wrapu_small by (apply is_u_lor; [lia|by apply get16_is_u|unfold is_u, PD_HAS_FREE_LINES; lia]).
  apply negb_true_iff, Z.eqb_neq. intros E. apply (f_equal (fun x => Z.testbit x 0)) in E.
  rewrite Z.land_spec, Z.lor_spec in E. simpl in E. rewrite orb_true_r in E. done.
Qed.

Lemma hint_clear p : lenZ p = BLCKSZ -> all_bytes p ->
  PageHasFreeLinePointers (PageClearHasFreeLinePointers p) = false.
Proof.
  intros Hl Hb. unfold PageHasFreeLinePointers, PageClearHasFreeLinePointers, set_pd_flags, pd_flags.
  destruct (set_field p 10 (Z.land (get16 p 10) (notu 32 PD_HAS_FREE_LINES))) as (_ & _ & Hg & _); [done|lia|].
  rewrite Hg, wrapu_small.
  2: { apply is_u_land_l; [lia|by apply get16_is_u|]. by vm_compute. }
  apply negb_false_iff, Z.eqb_eq. rewrite <- Z.land_assoc. by rewrite Z.land_0_r.
Qed.

(** Setting the hint changes nothing else. *)
Lemma set_hint_page p (b : bool) : PageOK p ->
  let p' := if b then PageSetHasFreeLinePointers p else PageClearHasFreeLinePointers p in
  PageOK p' /\ items p' = items p /\ nline p' = nline p /\ pd_lower p' = pd_lower p /\
  pd_upper p' = pd_upper p /\ pd_special p' = pd_special p /\
  PageHasFreeLinePointers p' = b /\ (forall a, 12 <= a -> nthZ p' a = nthZ p a).
Proof.
  intros Hok. pose proof (ok_len p Hok) as Hl. pose proof (ok_bytes p Hok) as Hb.
  destruct b; cbv zeta; [unfold PageSetHasFreeLinePointers|unfold PageClearHasFreeLinePointers].
  all: lazymatch goal with Hk : PageOK ?q |- PageOK (set_pd_flags ?q ?v) /\ _ =>
      destruct (set_flags_page q v Hk) as (?&?&?&?&?&?); destruct (set_field q 10 v) as (_ & _ & _ & Hn); [done|lia|]
    end; split_and!; try done; try (intros; apply Hn; lia).
  - by apply hint_set.
  - by apply hint_clear.
Qed.

(** Dropping line pointers from the end. *)
Lemma truncate_lines p f : PageOK p -> 0 <= f <= nline p ->
  let p' := set_pd_lower p (SizeOfPageHeaderData + 4 * f) in
  PageOK p' /\ items p' = take (Z.to_nat f) (items p) /\ nline p' = f /\
  pd_upper p' = pd_upper p /\ pd_special p' = pd_special p /\ pd_flags p' = pd_flags p /\
  (forall a, 14 <= a -> nthZ p' a = nthZ p a).
Proof.
  intros Hok Hf p'. pose proof (ok_nline p Hok) as [Hlv Hnb]. unfold p', set_pd_lower.
  destruct (set_field p 12 (SizeOfPageHeaderData + 4 * f)) as (Hl & Hb & Hg & Hn); [by apply ok_len|lia|].
  fold (set_pd_lower p (SizeOfPageHeaderData + 4 * f)) in *. fold p' in Hl, Hb, Hg, Hn |- *.
  rewrite wrapu_small in Hg by (unfold is_u; psizes; lia).
  assert (Hup : pd_upper p' = pd_upper p) by (apply get16_agree; intros ? ?; apply Hn; lia).
  assert (Hsp : pd_special p' = pd_special p) by (apply get16_agree; intros ? ?; apply Hn; lia).
  assert (Hfl : pd_flags p' = pd_flags p) by (apply get16_agree; intros ? ?; apply Hn; lia).
  assert (Hnl : nline p' = f).
  { rewrite nline_val; unfold pd_lower; rewrite Hg; [|psizes; lia].
    replace (SizeOfPageHeaderData + 4 * f - SizeOfPageHeaderData) with (f * 4) by lia. apply Z.div_mul. lia. }
  assert (Hlp : forall i, 0 <= i -> lp p' i = lp p i).
  { intros i ?. apply lp_agree. intros a Ha. psizes. apply Hn; lia. }
  split_and!; try done; [| |intros; apply Hn; lia].
  - destruct Hok as [Hlen Hbb Hlay Hlps Hdis]. split; rewrite ?Hup, ?Hsp, ?Hnl; auto.
    + destruct Hlay. split; unfold pd_lower in *; rewrite ?Hg; try done; [lia|].
      replace (SizeOfPageHeaderData + 4 * f - SizeOfPageHeaderData) with (f * 4) by lia. apply Z.mod_mul. lia.
    + intros i Hi. rewrite Hlp by lia. apply Hlps. lia.
    + intros i j ? ? ?. rewrite !Hlp by lia. apply Hdis; lia.
  - apply items_eq; [lia| |].
    + pose proof (lenZ_items p). unfold lenZ in *. rewrite length_take. lia.
    + rewrite Hnl. intros k Hk. rewrite lookup_take_lt, items_lookup by lia. f_equal. symmetry. rewrite Hlp by lia.
      apply abs_lp_data; [done|lia|done|]. intros a Ha. destruct Hok as [_ _ [] _ _]. psizes. apply Hn; lia.
Qed.

(** ** Repairing fragmentation *)
Fixpoint strip_unused (l : list item) : list item :=
  match l with
  | [] => []
  | x :: r => match strip_unused r with
              | [] => if is_unused x then [] else [x]
              | r' => x :: r'
              end
  end.

(** Heap tuples are at least [SizeofHeapTupleHeader] bytes long. *)
Definition heap_page (p : Page) : Prop :=
  forall i, 0 <= i < nline p -> lp_len (lp p i) <> 0 -> 23 <= lp_len (lp p i).

Definition unused_count (p : Page) (k : Z) : Z := lenZ (filter (fun i => lp_flags (lp p i) = LP_UNUSED) (seqZ 0 k)).

Lemma seqZ_snoc k : 0 <= k -> seqZ 0 (k + 1) = seqZ 0 k ++ [k].
Proof. intros. rewrite seqZ_app by lia. by replace (0 + k) with k by lia. Qed.

Lemma storage_base_snoc p k : 0 <= k -> storage_base p (k + 1) =
  storage_base p k ++ (if decide (lp_len (lp p k) <> 0) then [entry p k] else []).
Proof.
  intros. unfold storage_base, storage_idx. rewrite seqZ_snoc, filter_app, map_app by done. f_equal.
  rewrite filter_cons, filter_nil. by case_decide.
Qed.

Lemma unused_count_snoc p k : 0 <= k -> unused_count p (k + 1) =
  unused_count p k + (if decide (lp_flags (lp p k) = LP_UNUSED) then 1 else 0).
Proof.
  intros. unfold unused_count, lenZ. rewrite seqZ_snoc, filter_app, length_app, filter_cons, filter_nil by done.
  case_decide; simpl; lia.
Qed.

Lemma storage_base_prefix p k m : 0 <= k <= m -> lenZ (storage_base p k) <= lenZ (storage_base p m).
Proof.
  intros. unfold storage_base, storage_idx, lenZ. rewrite !length_map.
  replace m with (k + (m - k)) by lia. rewrite seqZ_app, filter_app, length_app by lia. lia.
Qed.

(** A heap page has room for at most [MaxHeapTuplesPerPage] tuples. *)
Lemma heap_page_tuples p : PageOK p -> heap_page p -> lenZ (storage_base p (nline p)) <= MaxHeapTuplesPerPage.
Proof.
  intros Hok Hh. pose proof (ok_nline p Hok) as [Hlv Hnb]. pose proof (storage_total_bound p Hok) as Htot.
  assert (Hle : lenZ (storage_base p (nline p)) <= nline p).
  { unfold storage_base, storage_idx, lenZ. rewrite length_map.
    pose proof (length_filter (fun i => lp_len (lp p i) <> 0) (seqZ 0 (nline p))) as Hf.
    rewrite length_seqZ in Hf. lia. }
  assert (Hge : 24 * lenZ (storage_base p (nline p)) <= storage_total p).
  { unfold storage_total, total, lenZ.
    assert (Hall : Forall (fun it => 24 <= alignedlen it) (storage_base p (nline p))).
    { apply Forall_forall. intros it (i & -> & Hi & Hs)%elem_of_storage_base.
      specialize (Hh i Hi Hs). pose proof (alen_bounds _ (lp_is_wf p i)). cbn [entry alignedlen].
      Z.to_euclidean_division_equations. lia. }
    clear - Hall. induction Hall; cbn [length map fold_right]; lia. }
  destruct Hok as [_ _ [] _ _]. change MaxHeapTuplesPerPage with 291. psizes. lia.
Qed.

(** The state of the scan after [k] line pointers. *)
Record scan_inv (p : Page) (k : Z) (s : repair_state) : Prop := {
  si_len : lenZ (r_page s) = BLCKSZ;
  si_bytes : all_bytes (r_page s);
  si_frame : forall a, 0 <= a < 24 \/ SizeOfPageHeaderData + 4 * k <= a -> nthZ (r_page s) a = nthZ p a;
  si_lps : forall i, 0 <= i < k ->
    lp (r_page s) i = if decide (lp_flags (lp p i) = LP_UNUSED) then mkItemId 0 0 0 else lp p i;
  si_base : r_base s = storage_base p k;
  si_nunused : r_nunused s = unused_count p k;
  si_totallen : r_totallen s = total (storage_base p k);
  si_presorted : r_presorted s = true ->
    StronglySorted (fun a b => itemoff b < itemoff a) (storage_base p k) /\
    Forall (fun it => r_last_offset s <= itemoff it) (storage_base p k);
  si_final : 0 <= r_finalusedlp s <= k;
  si_final_used : 0 < r_finalusedlp s -> lp_flags (lp p (r_finalusedlp s - 1)) <> LP_UNUSED;
  si_final_rest : forall i, r_finalusedlp s <= i < k -> lp_flags (lp p i) = LP_UNUSED }.

Lemma StronglySorted_snoc {A} (R : A -> A -> Prop) l x :
  StronglySorted R l -> Forall (fun y => R y x) l -> StronglySorted R (l ++ [x]).
Proof.
  induction 1 as [|y l Hl IH Hy]; intros Hx; simpl; [repeat constructor|].
  inversion Hx; subst. constructor; [by apply IH|]. apply Forall_app. auto.
Qed.

Section repair.
Context (p : Page) (Hok : PageOK p) (Hheap : heap_page p).

Lemma storage_room k : 0 <= k < nline p -> lp_len (lp p k) <> 0 ->
  lenZ (storage_base p k) < MaxHeapTuplesPerPage.
Proof.
  intros Hk Hs. pose proof (heap_page_tuples p Hok Hheap). pose proof (storage_base_prefix p (k + 1) (nline p)) as H1.
  rewrite storage_base_snoc, decide_True in H1 by (done || lia). unfold lenZ in *. rewrite length_app in H1.
  simpl in H1. lia.
Qed.

Lemma total_prefix k : 0 <= k <= nline p -> 0 <= total (storage_base p k) <= BLCKSZ.
Proof.
  intros Hk. pose proof (storage_total_bound p Hok) as Htot.
  assert (Hnn : forall m, 0 <= total (storage_base p m)).
  { intros m. apply total_nonneg. eapply Forall_impl; [apply storage_pos|]. by intros ? []. }
  split; [apply Hnn|]. enough (total (storage_base p k) <= storage_total p).
  { destruct Hok as [_ _ [] _ _]. psizes. lia. }
  unfold storage_total, storage_base, storage_idx. replace (nline p) with (k + (nline p - k)) by lia.
  rewrite seqZ_app, filter_app, map_app, total_app by lia.
  enough (0 <= total (map (entry p) (filter (fun i => lp_len (lp p i) <> 0) (seqZ (0 + k) (nline p - k))))) by lia.
  apply total_nonneg. pose proof (storage_pos p (nline p)) as Hp. unfold storage_base, storage_idx in Hp.
  replace (nline p) with (k + (nline p - k)) in Hp by lia.
  rewrite seqZ_app, filter_app, map_app, Forall_app in Hp by lia. destruct Hp as [_ Hp].
  replace (k + (nline p - k) - k) with (nline p - k) in Hp by lia.
  eapply Forall_impl; [exact Hp|]. by intros ? [].
Qed.

(** One iteration: a line pointer in use is left as it is. *)
Lemma scan_used k s base' nunused totallen last presorted :
  0 <= k < nline p -> scan_inv p k s -> lp_flags (lp p k) <> LP_UNUSED ->
  base' = storage_base p (k + 1) -> nunused = r_nunused s -> totallen = total (storage_base p (k + 1)) ->
  (presorted = true -> StronglySorted (fun a b => itemoff b < itemoff a) base' /\
     Forall (fun it => last <= itemoff it) base') ->
  scan_inv p (k + 1) (mkRepair (r_page s) base' nunused totallen last presorted (k + 1)).
Proof.
  intros Hk [Hl Hb Hfr Hlps Hbase Hnu Htl Hps Hf0 Hfu Hfr'] Hused -> -> -> Hp.
  split; cbn [r_page r_base r_nunused r_totallen r_last_offset r_presorted r_finalusedlp]; try done.
  - intros a Ha. apply Hfr. lia.
  - intros i Hi. destruct (decide (i = k)) as [->|]; [|apply Hlps; lia]. rewrite decide_False by done.
    apply lp_agree. intros a Ha. apply Hfr. lia.
  - rewrite unused_count_snoc, decide_False by (done || lia). lia.
  - lia.
  - intros _. by replace (k + 1 - 1) with k by lia.
  - intros i Hi. lia.
Qed.

(** An unused line pointer is cleared. *)
Lemma scan_unused k s q :
  0 <= k < nline p -> scan_inv p k s -> lp_flags (lp p k) = LP_UNUSED ->
  lenZ q = BLCKSZ -> all_bytes q -> lp q k = mkItemId 0 0 0 ->
  (forall a, 0 <= a -> a < PageGetItemId (k + 1) \/ PageGetItemId (k + 1) + 4 <= a -> nthZ q a = nthZ (r_page s) a) ->
  scan_inv p (k + 1) (mkRepair q (r_base s) (r_nunused s + 1) (r_totallen s) (r_last_offset s)
    (r_presorted s) (r_finalusedlp s)).
Proof.
  intros Hk [Hl Hb Hfr Hlps Hbase Hnu Htl Hps Hf0 Hfu Hfr'] Hun Hlq Hbq Hlpq Hnq.
  destruct (ok_lps p Hok k Hk) as [Hlen _]. specialize (Hlen Hun).
  assert (Hsb : storage_base p (k + 1) = storage_base p k).
  { rewrite storage_base_snoc, decide_False by (lia || (intros E; by apply E)). apply app_nil_r. }
  split; cbn [r_page r_base r_nunused r_totallen r_last_offset r_presorted r_finalusedlp]; rewrite ?Hsb; try done.
  - intros a Ha. unfold PageGetItemId in Hnq. psizes. rewrite Hnq by lia. apply Hfr. psizes. lia.
  - intros i Hi. destruct (decide (i = k)) as [->|]; [by rewrite decide_True by done|].
    rewrite <- Hlps by lia. eapply (lp_other _ _ k); [lia|done|exact Hnq].
  - rewrite unused_count_snoc, decide_True by (done || lia). lia.
  - lia.
  - intros i Hi. destruct (decide (i = k)) as [->|]; [done|]. apply Hfr'. lia.
Qed.

Lemma repair_step_ok k s : 0 <= k < nline p -> scan_inv p k s ->
  exists s', repair_step (pd_upper p) (pd_special p) (k + 1) s = Ok s' /\ scan_inv p (k + 1) s'.
Proof.
  intros Hk Hinv. pose proof (ok_nline p Hok) as [Hlv Hnb]. pose proof (ok_layout p Hok) as [].
  pose proof (total_prefix (k + 1) ltac:(lia)) as Ht1.
  pose proof Hinv as [Hl Hb Hfr _ Hbase Hnu Htl Hps _ _ _].
  destruct (lp_is_wf p k) as (?&?&?). pose proof (alen_bounds _ (lp_is_wf p k)).
  assert (Hcur : lp (r_page s) k = lp p k) by (apply lp_agree; intros a Ha; apply Hfr; lia).
  unfold repair_step. rewrite load_lp_ok by (done || (psizes; lia)).
  replace (k + 1 - 1) with k by lia. rewrite Hcur, bind_val.
  destruct (ok_lps p Hok k Hk) as [_ Hst]. pose proof (storage_base_snoc p k ltac:(lia)) as Hsn.
  unfold ItemIdIsUsed, ItemIdHasStorage, ItemIdGetOffset, ItemIdGetLength.
  destruct (Z.eqb_spec (lp_flags (lp p k)) LP_UNUSED) as [Hu|Hu]; cbn [negb].
  - destruct (store_lp_ok (r_page s) (k + 1) (ItemIdSetUnused (lp p k))) as (q & -> & Hlq & Hbq & Hlpq & Hnq);
      [done|done|psizes; lia|]. rewrite bind_val. eexists; split; [done|].
    replace (k + 1 - 1) with k in Hlpq by lia. by apply scan_unused.
  - destruct (Z.eqb_spec (lp_len (lp p k)) 0) as [Hs|Hs]; cbn [negb].
    + rewrite decide_False, app_nil_r in Hsn by (intros E; by apply E).
      rewrite Hbase. eexists; split; [done|]. by apply scan_used; rewrite ?Hsn.
    + rewrite decide_True in Hsn by done. pose proof (storage_room k Hk Hs) as Hroom.
      specialize (Hst Hs). rewrite Hbase. destruct (Z.leb_spec MaxHeapTuplesPerPage (lenZ (storage_base p k))); [lia|].
      fold (alen (lp p k)). psizes. unwrap.
      destruct (Z.ltb_spec (lp_off (lp p k)) (pd_upper p)); [lia|].
      destruct (Z.leb_spec (pd_special p) (lp_off (lp p k))); [lia|]. cbn [orb].
      change (mkCompact k (lp_off (lp p k)) (alen (lp p k))) with (entry p k).
      rewrite Hsn, total_app in Ht1. change (total [entry p k]) with (alen (lp p k) + 0) in Ht1. rewrite Z.add_0_r in Ht1.
      rewrite Htl. unwrap. eexists; split; [done|]. apply scan_used; try done.
      * rewrite Hsn, total_app. change (total [entry p k]) with (alen (lp p k) + 0). lia.
      * destruct (Z.ltb_spec (lp_off (lp p k)) (r_last_offset s)) as [Hlt|]; [|done]. intros Hp.
        destruct (Hps Hp) as [Hss Hge]. split.
        { apply StronglySorted_snoc; [done|]. eapply Forall_impl; [exact Hge|]. intros it Hx. cbn [entry itemoff] in *. lia. }
        apply Forall_app. split; [|repeat constructor; cbn [entry itemoff]; lia].
        eapply Forall_impl; [exact Hge|]. intros it Hx. cbn beta in *. lia.
Qed.

Lemma repair_scan_ok fuel : forall k s, 0 <= k <= nline p -> (Z.to_nat (nline p - k) < fuel)%nat ->
  scan_inv p k s ->
  exists s', repair_scan fuel (pd_upper p) (pd_special p) (nline p) (k + 1) s = Ok s' /\ scan_inv p (nline p) s'.
Proof.
  induction fuel as [|fuel IH]; intros k s Hk Hf Hinv; [lia|]. cbn [repair_scan].
  destruct (Z.leb_spec (k + 1) (nline p)).
  - destruct (repair_step_ok k s) as (s1 & -> & Hinv1); [lia|done|]. rewrite bind_val. apply IH; [lia|lia|done].
  - exists s. split; [done|]. by replace (nline p) with k by lia.
Qed.
End repair.

(** The entries depend on the line pointers with storage only. *)
Lemma storage_base_ext p q k : (forall i, 0 <= i < k -> lp q i = lp p i \/ (lp_len (lp q i) = 0 /\ lp_len (lp p i) = 0)) ->
  storage_base q k = storage_base p k.
Proof.
  destruct (decide (0 <= k)) as [Hk|Hk].
  2: { intros _. unfold storage_base, storage_idx. rewrite seqZ_nil by lia. done. }
  revert k Hk. apply (natlike_ind (fun k => _ -> storage_base q k = storage_base p k)).
  - intros _. unfold storage_base, storage_idx. by rewrite seqZ_nil by lia.
  - intros k Hk IH H. rewrite <- Z.add_1_r, !storage_base_snoc by done. f_equal; [apply IH; intros; apply H; lia|].
    destruct (H k) as [E|[E1 E2]]; [lia| |].
    + unfold entry. by rewrite E.
    + by rewrite !decide_False by (intros E; by apply E).
Qed.

(** After the scan the page has the same contents. *)
Lemma scan_page p s : PageOK p -> scan_inv p (nline p) s ->
  PageOK (r_page s) /\ items (r_page s) = items p /\ nline (r_page s) = nline p /\
  pd_lower (r_page s) = pd_lower p /\ pd_upper (r_page s) = pd_upper p /\
  pd_special (r_page s) = pd_special p /\ pd_flags (r_page s) = pd_flags p /\
  storage_base (r_page s) (nline p) = storage_base p (nline p) /\
  (forall a, pd_special p <= a -> nthZ (r_page s) a = nthZ p a) /\
  (forall i, 0 <= i < nline p -> lp_flags (lp (r_page s) i) = lp_flags (lp p i)).
Proof.
  intros Hok [Hl Hb Hfr Hlps _ _ _ _ _ _ _]. pose proof (ok_nline p Hok) as [Hlv Hnb].
  pose proof (ok_layout p Hok) as []. set (q := r_page s) in *.
  assert (Hf : forall a, 0 <= a <= 22 -> get16 q a = get16 p a).
  { intros a ?. apply get16_agree. intros b ?. apply Hfr. lia. }
  assert (Hlow : pd_lower q = pd_lower p) by (apply Hf; lia).
  assert (Hup : pd_upper q = pd_upper p) by (apply Hf; lia).
  assert (Hsp : pd_special q = pd_special p) by (apply Hf; lia).
  assert (Hfl : pd_flags q = pd_flags p) by (apply Hf; lia).
  pose proof (nline_lower _ _ Hlow) as Hn.
  assert (Hcase : forall i, 0 <= i < nline p -> lp q i = lp p i \/
    (lp q i = mkItemId 0 0 0 /\ lp_flags (lp p i) = LP_UNUSED /\ lp_len (lp p i) = 0)).
  { intros i Hi. rewrite Hlps by done. case_decide as Hu; [right|by left].
    split_and!; [done|done|]. by apply (ok_lps p Hok). }
  split_and!; try done.
  - destruct Hok as [Hlen Hbb Hlay Hlp Hdis]. split; rewrite ?Hlow, ?Hup, ?Hsp, ?Hn; try done.
    + intros i Hi. destruct (Hcase i Hi) as [->|(-> & _ & _)]; [by apply Hlp|]. by split.
    + intros i j Hi Hj Hij. destruct (Hcase i Hi) as [->|(-> & _ & _)]; [|by left].
      destruct (Hcase j Hj) as [->|(-> & _ & _)]; [by apply Hdis|right; by left].
  - apply items_eq; [lia|rewrite lenZ_items; lia|]. rewrite Hn. intros k Hk. rewrite items_lookup by done.
    f_equal. symmetry. destruct (Hcase (Z.of_nat k)) as [->|(-> & Hu & _)]; [lia| |].
    + apply abs_lp_data; [done|lia|done|]. intros a Ha. apply Hfr. lia.
    + unfold abs_lp. by rewrite Hu.
  - apply storage_base_ext. intros i Hi. destruct (Hcase i Hi) as [->|(-> & _ & ->)]; [by left|by right].
  - intros a Ha. apply Hfr. lia.
  - intros i Hi. destruct (Hcase i Hi) as [->|(-> & -> & _)]; done.
Qed.

Lemma strip_unused_all l : Forall (fun x => is_unused x = true) l -> strip_unused l = [].
Proof. induction 1 as [|x l Hx _ IH]; simpl; [done|]. by rewrite IH, Hx. Qed.

Lemma strip_unused_take f l : (f <= length l)%nat ->
  (forall x, (0 < f)%nat -> l !! (f - 1)%nat = Some x -> is_unused x = false) ->
  (forall k x, (f <= k)%nat -> l !! k = Some x -> is_unused x = true) ->
  strip_unused l = take f l.
Proof.
  revert f. induction l as [|x l IH]; intros f Hf Hu Hr; simpl; [by rewrite take_nil|].
  destruct f as [|f].
  - rewrite strip_unused_all.
    + by rewrite (Hr 0%nat x).
    + apply Forall_lookup. intros k y Hy. apply (Hr (S k)); [lia|done].
  - simpl. rewrite (IH f).
    + destruct (take f l) as [|y r] eqn:Ht; [|done]. destruct f as [|f].
      * by rewrite (Hu x) by (done || lia).
      * destruct l; simpl in *; [lia|done].
    + simpl in Hf. lia.
    + intros y Hf0 Hy. apply Hu; [lia|]. destruct f; [lia|]. simpl in *. by rewrite Nat.sub_0_r in Hy.
    + intros k y Hk Hy. apply (Hr (S k)); [lia|done].
Qed.

Lemma layout_not_corrupt lower upper special : layout_ok lower upper special ->
  corrupt_pointers lower upper special = false.
Proof.
  intros []. unfold corrupt_pointers. rewrite MAXALIGN_aligned by (psizes; lia).
  rewrite bool_decide_eq_true_2 by done. psizes. repeat zcase; simpl; lia || done.
Qed.

(** A page without tuples is reset at once. *)
Lemma reset_upper p : PageOK p -> storage_base p (nline p) = [] ->
  compact_result p (set_pd_upper p (pd_special p)).
Proof.
  intros Hok Hbase. apply compacted_result; [done|]. rewrite Hbase. pose proof (ok_nline p Hok) as [_ Hnb].
  destruct (set_field p 14 (pd_special p)) as (Hl & Hb & Hg & Hn); [by apply ok_len|lia|].
  pose proof (ok_layout p Hok) as []. split; try done.
  - apply Hb, Hok.
  - unfold total. simpl. unfold set_pd_upper, pd_upper at 1. rewrite Hg, wrapu_small; [lia|unfold is_u; psizes; lia].
  - intros it t Ht. inversion Ht.
  - intros i Hi _. apply lp_agree. intros a Ha. psizes. apply Hn; lia.
  - intros. apply Hn; lia.
  - intros. psizes. apply Hn; lia.
Qed.

(** The space the contents of a page take. *)
Definition items_space (l : list item) : Z := fold_right Z.add 0 (map (fun x => MAXALIGN (lenZ (it_data x))) l).

Lemma abs_lp_space p i : PageOK p -> 0 <= i < nline p ->
  MAXALIGN (lenZ (it_data (abs_lp p (lp p i)))) = if decide (lp_len (lp p i) <> 0) then alen (lp p i) else 0.
Proof.
  intros Hok Hi. destruct (ok_lps p Hok i Hi) as [Hun Hst]. pose proof (ok_layout p Hok) as [].
  pose proof (ok_len p Hok). destruct (lp_is_wf p i) as (?&?&?). pose proof (alen_bounds _ (lp_is_wf p i)).
  unfold abs_lp. destruct (Z.eqb_spec (lp_flags (lp p i)) LP_UNUSED) as [E|E].
  - rewrite Hun by done. rewrite decide_False by (intros F; by apply F). done.
  - cbn [it_data]. case_decide as Hs.
    + specialize (Hst Hs). psizes. by rewrite lenZ_bytes_at by lia.
    + assert (lp_len (lp p i) = 0) as -> by lia. done.
Qed.

Lemma storage_total_items p : PageOK p -> storage_total p = items_space (items p).
Proof.
  intros Hok. pose proof (ok_nline p Hok) as [_ Hnb]. unfold storage_total, items.
  assert (H : forall k, 0 <= k -> k <= nline p ->
    total (storage_base p k) = items_space (map (fun i => abs_lp p (lp p i)) (seqZ 0 k))); [|apply H; lia].
  apply (natlike_ind (fun k => k <= nline p -> _)).
  - intros _. unfold storage_base, storage_idx. by rewrite seqZ_nil by lia.
  - intros k Hk IH Hkn. rewrite <- Z.add_1_r, storage_base_snoc, seqZ_snoc, total_app, map_app, IH by lia.
    unfold items_space at 2. rewrite map_app, fold_right_app. cbn [map fold_right].
    rewrite abs_lp_space by (done || lia). fold (items_space (map (fun i => abs_lp p (lp p i)) (seqZ 0 k))).
    assert (Hfr : forall l x, fold_right Z.add x l = fold_right Z.add 0 l + x)
      by (induction l as [|y l IHl]; intros x; simpl; [lia|rewrite IHl; lia]).
    rewrite (Hfr _ (_ + 0)). unfold items_space. f_equal. case_decide; unfold total; simpl; lia.
Qed.

Lemma is_unused_abs p i : is_unused (abs_lp p (lp p i)) = (lp_flags (lp p i) =? LP_UNUSED).
Proof. unfold abs_lp, is_unused. by destruct (Z.eqb_spec (lp_flags (lp p i)) LP_UNUSED) as [E|E]; [|apply Z.eqb_neq]. Qed.

(** The unused line pointers before the last used one decide the hint. *)
Lemma unused_exists p f : 0 <= f <= nline p ->
  existsb is_unused (take (Z.to_nat f) (items p)) = (0 <? unused_count p f).
Proof.
  intros Hf. assert (Ht : take (Z.to_nat f) (items p) = map (fun i => abs_lp p (lp p i)) (seqZ 0 f)).
  { unfold items. replace (nline p) with (f + (nline p - f)) by lia. rewrite seqZ_app, map_app by lia.
    rewrite take_app_le by (rewrite length_map, length_seqZ; lia).
    apply take_ge. rewrite length_map, length_seqZ. lia. }
  rewrite Ht. revert f Hf Ht. intros f [Hf _] _. revert f Hf. apply natlike_ind.
  - unfold unused_count. by rewrite seqZ_nil by lia.
  - intros k Hk IH. rewrite <- Z.add_1_r, unused_count_snoc, seqZ_snoc, map_app, existsb_app, IH by done.
    cbn [map existsb]. rewrite is_unused_abs, orb_false_r. pose proof (lenZ_nonneg (filter (fun i => lp_flags (lp p i) = LP_UNUSED) (seqZ 0 k))) as Hnn.
    fold (unused_count p k) in Hnn.
    case_decide as E; [rewrite E|rewrite (proj2 (Z.eqb_neq _ _) E)]; simpl; repeat zcase; simpl; lia || done.
Qed.

Lemma unused_count_split p f : 0 <= f <= nline p ->
  (forall i, f <= i < nline p -> lp_flags (lp p i) = LP_UNUSED) ->
  unused_count p (nline p) = unused_count p f + (nline p - f).
Proof.
  intros Hf Hall. unfold unused_count, lenZ. replace (nline p) with (f + (nline p - f)) at 1 by lia.
  rewrite seqZ_app, filter_app, length_app by lia.
  enough (filter (fun i => lp_flags (lp p i) = LP_UNUSED) (seqZ (0 + f) (nline p - f)) = seqZ (0 + f) (nline p - f)) as ->.
  { rewrite length_seqZ. lia. }
  assert (Hl : Forall (fun i => lp_flags (lp p i) = LP_UNUSED) (seqZ (0 + f) (nline p - f))).
  { apply Forall_forall. intros i Hi%elem_of_seqZ. apply Hall. lia. }
  induction Hl as [|x l Hx _ IH]; [done|]. rewrite filter_cons, decide_True by done. by rewrite IH.
Qed.

(** The contents left after the scan: everything up to the last used line pointer. *)
Lemma scan_strip p s : PageOK p -> scan_inv p (nline p) s ->
  strip_unused (items p) = take (Z.to_nat (r_finalusedlp s)) (items p).
Proof.
  intros Hok [_ _ _ _ _ _ _ _ Hf Hu Hr]. pose proof (ok_nline p Hok) as [_ Hnb].
  pose proof (lenZ_items p ltac:(lia)) as Hl. unfold lenZ in Hl. apply strip_unused_take; [lia| |].
  - intros x Hp Hx. rewrite items_lookup in Hx by lia. simplify_eq. rewrite is_unused_abs.
    apply Z.eqb_neq. replace (Z.of_nat (Z.to_nat (r_finalusedlp s) - 1)) with (r_finalusedlp s - 1) by lia.
    apply Hu. lia.
  - intros k x Hk Hx. assert (Z.of_nat k < nline p) by (apply lookup_lt_Some in Hx; lia).
    rewrite items_lookup in Hx by lia. simplify_eq. rewrite is_unused_abs. apply Z.eqb_eq, Hr. lia.
Qed.

(** The end of the repair: truncation and hint. *)
Lemma drop_lines p f nunused : PageOK p -> 0 <= f <= nline p ->
  exists p',
    (let nunusedend := nline p - f in
     let truncated := negb (f =? nline p) in
     let nunused := if truncated then nunused - nunusedend else nunused in
     let p := if truncated then set_pd_lower p (pd_lower p - 4 * nunusedend) else p in
     Ok (if 0 <? nunused then PageSetHasFreeLinePointers p else PageClearHasFreeLinePointers p)) = Ok p' /\
    PageOK p' /\ items p' = take (Z.to_nat f) (items p) /\ nline p' = f /\
    pd_upper p' = pd_upper p /\ pd_special p' = pd_special p /\
    PageHasFreeLinePointers p' = (0 <? nunused - (nline p - f)) /\
    (forall a, 14 <= a -> nthZ p' a = nthZ p a).
Proof.
  intros Hok Hf. pose proof (ok_nline p Hok) as [Hlv Hnb]. cbv zeta.
  destruct (Z.eqb_spec f (nline p)) as [->|Hne]; cbn [negb].
  - destruct (set_hint_page p (0 <? nunused) Hok) as (?&?&?&?&?&?&?&Hn).
    eexists; split; [done|]. rewrite Z.sub_diag, Z.sub_0_r.
    rewrite take_ge by (pose proof (lenZ_items p); unfold lenZ in *; lia).
    split_and!; try done. intros. apply Hn. lia.
  - replace (pd_lower p - 4 * (nline p - f)) with (SizeOfPageHeaderData + 4 * f) by lia.
    destruct (truncate_lines p f Hok Hf) as (Hok2 & Hit2 & Hn2 & Hu2 & Hs2 & _ & Hm2).
    destruct (set_hint_page _ (0 <? nunused - (nline p - f)) Hok2) as (?&?&?&?&?&?&?&Hn).
    eexists; split; [done|]. split_and!; try done; try congruence.
    intros a Ha. rewrite Hn by lia. by apply Hm2.
Qed.

Lemma repair_ok p scratch :
  PageOK p -> heap_page p -> lenZ scratch = BLCKSZ -> all_bytes scratch ->
  exists p', PageRepairFragmentation p scratch = Ok p' /\ PageOK p' /\
    items p' = strip_unused (items p) /\
    pd_special p' = pd_special p /\ pd_upper p' = pd_special p - items_space (items p) /\
    PageHasFreeLinePointers p' = existsb is_unused (items p') /\
    (forall a, pd_special p <= a -> nthZ p' a = nthZ p a).
Proof.
  intros Hok Hh Hls Hbs. pose proof (ok_nline p Hok) as [Hlv Hnb].
  unfold PageRepairFragmentation. rewrite layout_not_corrupt by apply Hok. fold (nline p).
  assert (Hstart : scan_inv p 0 (mkRepair p [] 0 0 (pd_special p) true InvalidOffsetNumber)).
  { split; cbn [r_page r_base r_nunused r_totallen r_last_offset r_presorted r_finalusedlp];
      try done; try apply Hok; try (intros; unfold InvalidOffsetNumber in *; lia).
    intros _. split; constructor. }
  destruct (repair_scan_ok p Hok Hh (S (Z.to_nat (nline p))) 0 _ ltac:(lia) ltac:(lia) Hstart) as (s & Hs & Hinv).
  change (0 + 1) with FirstOffsetNumber in Hs. rewrite Hs, bind_val.
  destruct (scan_page p s Hok Hinv) as (Hokq & Hitq & Hnq & Hlq & Huq & Hsq & _ & Hbq & Htq & _).
  pose proof (scan_strip p s Hok Hinv) as Hstrip.
  destruct Hinv as [_ _ _ _ Hbase Hnu Htl Hps Hf Hu Hr].
  set (q := r_page s) in *. set (f := r_finalusedlp s) in *.
  assert (Hcr : exists p2, (match r_base s with
       | [] => Ok (set_pd_upper q (pd_special p))
       | _ => if wrapu 64 (pd_special p - pd_lower p) <? r_totallen s then Err "corrupted item lengths"
              else compactify_tuples (r_base s) q (r_presorted s) scratch
       end) = Ok p2 /\ compact_result q p2).
  { rewrite Hbase, Htl. rewrite <- Hbq, <- Hnq in *. destruct (storage_base q (nline q)) as [|it base] eqn:Eb.
    - rewrite <- Hsq. eexists; split; [done|]. by apply reset_upper.
    - pose proof (storage_total_bound q Hokq) as Hb. unfold storage_total in Hb. rewrite Eb in Hb.
      pose proof (ok_layout p Hok) as []. rewrite wrapu_small by (unfold is_u; psizes; lia).
      destruct (Z.ltb_spec (pd_special p - pd_lower p) (total (it :: base))); [lia|].
      rewrite <- Eb. apply compactify_page; [done..|rewrite Eb; done|]. intros Hp. rewrite Eb. by apply Hps. }
  destruct Hcr as (p2 & -> & [Hok2 Hit2 Hlow2 Hn2 Hup2 Hsp2 _ _ Htail2]). rewrite bind_val.
  destruct (drop_lines p2 f (r_nunused s)) as (p' & Hp' & Hok' & Hit' & Hnl' & Hup' & Hsp' & Hhint & Hn'); [done|lia|].
  rewrite Hn2, Hnq in Hp'. cbv zeta in Hp' |- *. exists p'. rewrite Hp'.
  assert (Hitems : items p' = take (Z.to_nat f) (items p)) by congruence.
  split_and!; try done; try congruence.
  - rewrite Hup', Hup2, Hsq, storage_total_items by done. congruence.
  - rewrite Hhint, Hitems, unused_exists, Hnu, (unused_count_split p f), Hn2, Hnq by (done || lia). f_equal. lia.
  - pose proof (ok_layout p Hok) as []. psizes. intros a Ha. rewrite Hn', Htail2 by lia. by apply Htq.
Qed.

(** C1. PageRepairFragmentation on a well-formed heap page always succeeds, reads and
    writes within the page and its local arrays, and keeps the layout invariant.  The
    contents are the old ones without the unused line pointers at the end; the tuples
    are packed against the special space, which is untouched; the hint bit tells
    whether an unused line pointer is left. *)
Theorem page_repair_fragmentation p scratch :
  PageOK p -> heap_page p -> lenZ scratch = BLCKSZ -> all_bytes scratch ->
  exists p', PageRepairFragmentation p scratch = Ok p' /\ PageOK p' /\
    items p' = strip_unused (items p) /\
    pd_special p' = pd_special p /\ pd_upper p' = pd_special p - items_space (items p) /\
    PageHasFreeLinePointers p' = existsb is_unused (items p') /\
    (forall a, pd_special p <= a -> nthZ p' a = nthZ p a).
Proof. apply repair_ok. Qed.

(** ** Adding an item *)
Definition insert_at {A} (k : nat) (x : A) (l : list A) : list A := take k l ++ x :: drop k l.

Lemma insert_at_lookup {A} k (x : A) l j : (k <= length l)%nat ->
  insert_at k x l !! j = if decide (j = k) then Some x
                         else if decide (k < j)%nat then l !! (j - 1)%nat else l !! j.
Proof.
  intros Hk. unfold insert_at. destruct (decide (j < k)%nat).
  - rewrite decide_False, decide_False by lia.
    rewrite lookup_app_l by (rewrite length_take; lia). apply lookup_take_lt. lia.
  - rewrite lookup_app_r by (rewrite length_take; lia). rewrite length_take. replace (k `min` length l)%nat with k by lia.
    destruct (decide (j = k)) as [->|]; [by rewrite Nat.sub_diag|]. rewrite decide_True by lia.
    destruct (j - k)%nat as [|m] eqn:E; [lia|]. simpl. rewrite lookup_drop. f_equal. lia.
Qed.

Lemma length_insert_at {A} k (x : A) l : (k <= length l)%nat -> length (insert_at k x l) = S (length l).
Proof. intros. unfold insert_at. rewrite length_app, length_take. simpl. rewrite length_drop. lia. Qed.

(** The effect of placing a new line pointer: old index of line [j] of the new page. *)
Definition old_index (off : Z) (shuffle : bool) (j : Z) : Z :=
  if shuffle && (off <=? j) then j - 1 else j.

Section place.
Context (p : Page) (Hok : PageOK p) (off : Z) (shuffle : bool) (it : list Z) (size : Z).
Context (Hoff : 1 <= off <= nline p + 1) (Hshuffle : shuffle = true -> off <= nline p).
Context (Hbytes : all_bytes it) (Hsize : lenZ it = size) (Hpos : 0 < size < 2 ^ 31).

Definition grow : Z := if (off =? nline p + 1) || shuffle then 4 else 0.
Context (Hroom : pd_lower p + grow <= pd_upper p - MAXALIGN size).

Definition place_item : res Page :=
  let itemId := PageGetItemId off in
  p1 ← (if shuffle then memmove p (itemId + 4) itemId ((nline p + 1 - off) * 4) else Ok p);
  l ← load_lp p1 itemId;
  p2 ← store_lp p1 itemId (ItemIdSetNormal l (pd_upper p - MAXALIGN size) size);
  p3 ← memcpy p2 (pd_upper p - MAXALIGN size) it 0 size;
  Ok (set_pd_upper (set_pd_lower p3 (pd_lower p + grow)) (pd_upper p - MAXALIGN size)).

Lemma grow_val : grow = 4 * ((if (off =? nline p + 1) || shuffle then nline p + 1 else nline p) - nline p).
Proof. unfold grow. destruct (_ || _); lia. Qed.

(** Making room in the line pointer array. *)
Lemma shuffle_mem : exists p1,
  (if shuffle then memmove p (PageGetItemId off + 4) (PageGetItemId off) ((nline p + 1 - off) * 4) else Ok p) = Ok p1 /\
  lenZ p1 = BLCKSZ /\ all_bytes p1 /\
  (forall a, 0 <= a < 24 \/ pd_lower p + grow <= a -> nthZ p1 a = nthZ p a) /\
  (forall j, 0 <= j < nline p + grow / 4 -> j <> off - 1 -> lp p1 j = lp p (old_index off shuffle j)).
Proof.
  pose proof (ok_nline p Hok) as [Hlv Hnb]. pose proof (ok_layout p Hok) as [].
  pose proof (ok_len p Hok) as Hlen. pose proof (ok_bytes p Hok) as Hb.
  pose proof (MAXALIGN_bounds size ltac:(lia)) as Hma. unfold old_index, grow in *. destruct shuffle; cbn [andb].
  - rewrite orb_true_r in *. specialize (Hshuffle eq_refl). change (4 / 4) with 1. unfold PageGetItemId. psizes.
    destruct (memcpy_spec p (24 + 4 * (off - 1) + 4) p (24 + 4 * (off - 1)) ((nline p + 1 - off) * 4))
      as (p1 & Hp1 & Hl1 & Hn1); [lia..|]. unfold memmove. rewrite Hp1. exists p1.
    split_and!; [done|lia|by apply (all_bytes_memcpy _ _ _ _ _ _ Hb Hb Hp1)| |].
    + intros a Ha. rewrite Hn1 by lia. by rewrite decide_False by lia.
    + intros j Hj Hne. destruct (Z.leb_spec off j); unfold lp; f_equal; apply get32_ext; intros d Hd; psizes.
      * rewrite Hn1, decide_True by lia. f_equal. lia.
      * rewrite Hn1, decide_False by lia. done.
  - exists p. split_and!; done.
Qed.

Lemma place_mem : exists p', place_item = Ok p' /\ lenZ p' = BLCKSZ /\ all_bytes p' /\
  pd_lower p' = pd_lower p + grow /\ pd_upper p' = pd_upper p - MAXALIGN size /\
  pd_special p' = pd_special p /\ pd_flags p' = pd_flags p /\
  (forall a, pd_upper p <= a -> nthZ p' a = nthZ p a) /\
  (forall d, 0 <= d < size -> nthZ p' (pd_upper p - MAXALIGN size + d) = nthZ it d) /\
  lp p' (off - 1) = mkItemId (pd_upper p - MAXALIGN size) LP_NORMAL size /\
  (forall j, 0 <= j < nline p + grow / 4 -> j <> off - 1 -> lp p' j = lp p (old_index off shuffle j)).
Proof.
  pose proof (ok_nline p Hok) as [Hlv Hnb]. pose proof (ok_layout p Hok) as [].
  pose proof (MAXALIGN_bounds size ltac:(lia)) as Hma.
  assert (Hgr : 0 <= grow <= 4 /\ off <= nline p + grow / 4 /\ 4 * (grow / 4) = grow).
  { unfold grow. destruct (Z.eqb_spec off (nline p + 1)); [|destruct shuffle]; cbn [orb];
      change (4 / 4) with 1; change (0 / 4) with 0; lia. }
  assert (Hmax : 0 < off <= max_lines) by (psizes; lia).
  pose proof shuffle_mem as Hshuf. unfold place_item in *. cbv zeta. destruct Hshuf as (p1 & -> & Hl1 & Hb1 & Hn1 & Hlp1). rewrite bind_val.
  rewrite load_lp_ok by done. rewrite bind_val. set (U := pd_upper p - MAXALIGN size) in *.
  destruct (store_lp_ok p1 off (ItemIdSetNormal (lp p1 (off - 1)) U size)) as (p2 & -> & Hl2 & Hb2 & Hlp2 & Hn2); [done..|].
  rewrite bind_val, itemid_unpack_pack in *.
  2: { unfold lp_wf, ItemIdSetNormal, LP_NORMAL, U; cbn [lp_off lp_flags lp_len]. psizes. lia. }
  psizes. destruct (memcpy_spec p2 U it 0 size) as (p3 & Hp3 & Hl3 & Hn3); [unfold U; lia..|]. rewrite Hp3, bind_val.
  pose proof (all_bytes_memcpy _ _ _ _ _ _ Hb2 Hbytes Hp3) as Hb3. rewrite Hl2 in Hl3.
  unfold set_pd_lower, set_pd_upper.
  destruct (set_field p3 12 (pd_lower p + grow)) as (Hl4 & Hb4 & Hg4 & Hn4); [done|lia|].
  set (p4 := put16 p3 12 _) in *. destruct (set_field p4 14 U) as (Hl5 & Hb5 & Hg5 & Hn5); [done|lia|].
  set (p5 := put16 p4 14 _) in *. exists p5.
  assert (Hm : forall a, 0 <= a -> a < 12 \/ 16 <= a ->
    nthZ p5 a = if decide (U <= a < U + size) then nthZ it (a - U) else nthZ p2 a).
  { intros a ? ?. rewrite Hn5, Hn4, Hn3 by lia. done. }
  unfold PageGetItemId in Hn2. psizes.
  assert (Hm0 : forall a, 0 <= a < 12 \/ 16 <= a < 24 -> nthZ p5 a = nthZ p a).
  { intros a ?. unfold U in Hm. rewrite Hm, decide_False, Hn2 by lia. apply Hn1. lia. }
  split_and!; try done.
  - by apply Hb5, Hb4.
  - unfold pd_lower at 1. transitivity (get16 p4 12); [apply get16_agree; intros a Ha; apply Hn5; lia|].
    rewrite Hg4. apply wrapu_small. unfold is_u. lia.
  - unfold pd_upper at 1. rewrite Hg5. apply wrapu_small. unfold is_u, U. lia.
  - apply get16_agree. intros a Ha. apply Hm0. lia.
  - apply get16_agree. intros a Ha. apply Hm0. lia.
  - intros a Ha. unfold U in Hm. rewrite Hm, decide_False, Hn2 by lia. apply Hn1. lia.
  - intros d Hd. rewrite Hm, decide_True by (unfold U; lia). f_equal. lia.
  - etransitivity; [|exact Hlp2]. apply lp_agree. intros a Ha. psizes. unfold U in *.
    rewrite Hm, decide_False by lia. done.
  - intros j Hj Hne. rewrite <- Hlp1 by done. apply lp_agree. intros a Ha. psizes. unfold U in *.
    rewrite Hm, decide_False, Hn2 by lia. done.
Qed.
(** The contents with the new item in place. *)
Definition placed_items (L : list item) : list item :=
  let x := mkItem LP_NORMAL 0 it in
  if (off =? nline p + 1) || shuffle then insert_at (Z.to_nat (off - 1)) x L else <[Z.to_nat (off - 1) := x]> L.

Lemma placed_items_lookup j : Z.of_nat j < nline p + grow / 4 ->
  placed_items (items p) !! j = if decide (Z.of_nat j = off - 1) then Some (mkItem LP_NORMAL 0 it)
    else items p !! Z.to_nat (old_index off shuffle (Z.of_nat j)).
Proof.
  pose proof (ok_nline p Hok) as [_ Hnb]. pose proof (lenZ_items p ltac:(lia)) as Hl. unfold lenZ in Hl.
  unfold placed_items, old_index, grow. destruct (Z.eqb_spec off (nline p + 1)) as [E|E], shuffle eqn:Es; cbn [orb andb];
    change (4 / 4) with 1; change (0 / 4) with 0; intros Hj; try (specialize (Hshuffle eq_refl)).
  1-3: rewrite insert_at_lookup by lia; repeat case_decide; try zcase; try lia; try done; f_equal; lia.
  case_decide.
  - replace j with (Z.to_nat (off - 1)) by lia. rewrite list_lookup_insert_eq by lia. done.
  - rewrite list_lookup_insert_ne by lia. f_equal. lia.
Qed.

Lemma length_placed : lenZ (placed_items (items p)) = nline p + grow / 4.
Proof.
  pose proof (ok_nline p Hok) as [_ Hnb]. pose proof (lenZ_items p ltac:(lia)) as Hl. unfold lenZ in *.
  unfold placed_items, grow. destruct (_ || _); change (4 / 4) with 1; change (0 / 4) with 0.
  - rewrite length_insert_at by lia. lia.
  - rewrite length_insert. lia.
Qed.

Lemma old_index_range j : 0 <= j < nline p + grow / 4 -> j <> off - 1 -> 0 <= old_index off shuffle j < nline p.
Proof.
  unfold old_index, grow. destruct (Z.eqb_spec off (nline p + 1)), shuffle; cbn [orb andb];
    change (4 / 4) with 1; change (0 / 4) with 0; try (specialize (Hshuffle eq_refl)); try zcase; lia.
Qed.

Lemma place_ok : exists p', place_item = Ok p' /\ PageOK p' /\ items p' = placed_items (items p) /\
  pd_lower p' = pd_lower p + grow /\ pd_upper p' = pd_upper p - MAXALIGN size /\
  pd_special p' = pd_special p /\ pd_flags p' = pd_flags p /\
  (forall a, pd_special p <= a -> nthZ p' a = nthZ p a).
Proof.
  destruct place_mem as (p' & Hp' & Hl' & Hb' & Hlow & Hup & Hsp & Hfl & Hdata & Hnew & Hlpn & Hlpo).
  pose proof (ok_nline p Hok) as [Hlv Hnb]. pose proof (ok_layout p Hok) as Hlay.
  pose proof (MAXALIGN_bounds size ltac:(lia)) as Hma.
  assert (Hgr : 0 <= grow /\ 4 * (grow / 4) = grow).
  { unfold grow. destruct (_ || _); change (4 / 4) with 1; change (0 / 4) with 0; lia. }
  assert (Hlay' : layout_ok (pd_lower p') (pd_upper p') (pd_special p')).
  { rewrite Hlow, Hup, Hsp. destruct Hlay. split; [lia|lia| | |done].
    - psizes. Z.to_euclidean_division_equations. lia.
    - Z.to_euclidean_division_equations. lia. }
  assert (Hn' : nline p' = nline p + grow / 4).
  { pose proof (layout_nline p' Hlay') as [? ?]. lia. }
  exists p'. split_and!; try done.
  - destruct Hlay. split; try done; rewrite Hn'.
    + intros j Hj. rewrite Hup, Hsp. destruct (decide (j = off - 1)) as [->|Hne].
      * rewrite Hlpn. split; [done|]. unfold alen; cbn [lp_off lp_len]. intros _.
        split_and!; [lia|Z.to_euclidean_division_equations; lia|lia].
      * rewrite Hlpo by done. destruct (ok_lps p Hok _ (old_index_range j Hj Hne)) as [? Ho].
        split; [done|]. intros Hs. specialize (Ho Hs). lia.
    + assert (Hnewdis : forall j, 0 <= j < nline p + grow / 4 -> j <> off - 1 ->
        lp_disjoint (mkItemId (pd_upper p - MAXALIGN size) LP_NORMAL size) (lp p (old_index off shuffle j))).
      { intros j Hj Hne. destruct (ok_lps p Hok _ (old_index_range j Hj Hne)) as [_ Ho].
        unfold lp_disjoint. destruct (decide (lp_len (lp p (old_index off shuffle j)) = 0)); [by right; left|].
        do 2 right. left. unfold alen at 1; cbn [lp_off lp_len]. destruct Ho; [done|lia]. }
      intros i j Hi Hj Hij. destruct (decide (i = off - 1)) as [->|], (decide (j = off - 1)) as [->|]; [lia|..].
      * rewrite Hlpn, Hlpo by done. by apply Hnewdis.
      * rewrite Hlpn, Hlpo by done. destruct (Hnewdis i) as [?|[?|[?|?]]]; unfold lp_disjoint; tauto.
      * rewrite !Hlpo by done. apply (ok_disjoint p Hok); try (by apply old_index_range).
        unfold old_index. destruct shuffle; cbn [andb]; repeat zcase; lia.
  - apply items_eq; [lia|rewrite length_placed; lia|]. rewrite Hn'. intros k Hk.
    rewrite placed_items_lookup by done. case_decide as Ek.
    + rewrite Ek, Hlpn. unfold abs_lp; cbn [lp_off lp_flags lp_len]. simpl. rewrite (proj2 (Z.eqb_neq size 0)) by lia.
      do 2 f_equal. destruct Hlay. symmetry. apply list_eq_nthZ; rewrite lenZ_bytes_at by (psizes; lia); [lia|].
      intros d Hd. rewrite nthZ_bytes_at by (psizes; lia). by apply Hnew.
    + pose proof (old_index_range (Z.of_nat k) ltac:(lia) Ek) as Hr. rewrite items_lookup by lia.
      rewrite Z2Nat.id by lia. f_equal. rewrite Hlpo by lia. symmetry. apply abs_lp_data; [done|done|done|].
      intros a Ha. apply Hdata. lia.
  - intros a Ha. apply Hdata. destruct Hlay. lia.
Qed.
End place.

(** The abstract page: where an item goes and what the contents become. *)
Fixpoint first_unused (l : list item) : Z :=
  match l with
  | [] => 0
  | x :: r => if is_unused x then 0 else 1 + first_unused r
  end.

Definition spec_slot (L : list item) (hint : bool) (offnum flags : Z) : option (Z * bool) :=
  let limit := lenZ L + 1 in
  if OffsetNumberIsValid offnum then
    if negb (Z.land flags PAI_OVERWRITE =? 0) then
      if offnum <? limit then
        match L !! Z.to_nat (offnum - 1) with
        | Some x => if is_unused x then Some (offnum, false) else None
        | None => None
        end
      else Some (offnum, false)
    else Some (offnum, offnum <? limit)
  else Some (if hint then 1 + first_unused L else limit, false).

(** The offset number given to the item, the new contents and the space taken, or
    [None] if the item is not added. *)
Definition spec_add (L : list item) (hint : bool) (free : Z) (data : list Z) (offnum flags : Z)
  : option (Z * list item * Z) :=
  let limit := lenZ L + 1 in
  match spec_slot L hint offnum flags with
  | None => None
  | Some (off, shuffle) =>
    let grows := (off =? limit) || shuffle in
    let need := MAXALIGN (lenZ data) + (if grows then 4 else 0) in
    let x := mkItem LP_NORMAL 0 data in
    if limit <? off then None
    else if negb (Z.land flags PAI_IS_HEAP =? 0) && (MaxHeapTuplesPerPage <? off) then None
    else if free <? need then None
    else Some (off, if grows then insert_at (Z.to_nat (off - 1)) x L else <[Z.to_nat (off - 1) := x]> L, need)
  end.

Lemma first_unused_bound l : 0 <= first_unused l <= lenZ l.
Proof. unfold lenZ. induction l as [|x l IH]; simpl; [lia|]. destruct (is_unused x); lia. Qed.

Lemma find_unused_ok p fuel : PageOK p -> forall k, 0 <= k <= nline p -> (Z.to_nat (nline p - k) < fuel)%nat ->
  find_unused fuel p (k + 1) (nline p + 1) = Ok (k + 1 + first_unused (drop (Z.to_nat k) (items p))).
Proof.
  intros Hok. pose proof (ok_nline p Hok) as [_ Hnb]. pose proof (lenZ_items p ltac:(lia)) as Hl.
  unfold lenZ in Hl. induction fuel as [|fuel IH]; intros k Hk Hf; [lia|]. cbn [find_unused].
  destruct (Z.ltb_spec (k + 1) (nline p + 1)).
  - rewrite load_lp_ok by (apply Hok || lia). rewrite bind_val. replace (k + 1 - 1) with k by lia.
    rewrite (drop_S (items p) (abs_lp p (lp p k)) (Z.to_nat k)).
    2: { rewrite items_lookup by lia. do 3 f_equal. lia. }
    cbn [first_unused]. rewrite is_unused_abs. unfold ItemIdIsUsed, ItemIdHasStorage.
    destruct (Z.eqb_spec (lp_flags (lp p k)) LP_UNUSED) as [Hu|Hu]; cbn [negb andb].
    + destruct (ok_lps p Hok k) as [Hlen _]; [lia|]. rewrite Hlen by done. simpl. f_equal. lia.
    + psizes. rewrite wrapu_small by (unfold is_u; lia). rewrite IH by lia. f_equal.
      replace (Z.to_nat (k + 1)) with (S (Z.to_nat k)) by lia. lia.
  - rewrite drop_ge by lia. simpl. f_equal. lia.
Qed.

(** What the choice of a slot may change of the page: the hint. *)
Definition hint_only (p p1 : Page) : Prop :=
  PageOK p1 /\ items p1 = items p /\ nline p1 = nline p /\ pd_lower p1 = pd_lower p /\
  pd_upper p1 = pd_upper p /\ pd_special p1 = pd_special p /\ (forall a, 12 <= a -> nthZ p1 a = nthZ p a).

Lemma search_slot_ok p : PageOK p -> exists p1,
  (if PageHasFreeLinePointers p then
     off ← find_unused (S (Z.to_nat (nline p + 1))) p FirstOffsetNumber (nline p + 1);
     if nline p + 1 <=? off then Ok (Slot (PageClearHasFreeLinePointers p) off false) else Ok (Slot p off false)
   else Ok (Slot p (nline p + 1) false)) =
    Ok (Slot p1 (if PageHasFreeLinePointers p then 1 + first_unused (items p) else nline p + 1) false) /\
  hint_only p p1.
Proof.
  intros Hok. pose proof (ok_nline p Hok) as [_ Hnb]. assert (Hid : hint_only p p) by (unfold hint_only; split_and!; done).
  destruct (PageHasFreeLinePointers p); [|by exists p].
  change FirstOffsetNumber with (0 + 1). rewrite find_unused_ok by (done || lia). rewrite bind_val.
  change (drop (Z.to_nat 0) (items p)) with (items p). change (0 + 1) with 1.
  destruct (_ <=? _); [|by exists p]. eexists; split; [done|].
  destruct (set_hint_page p false Hok) as (?&?&?&?&?&?&_&?). unfold hint_only. split_and!; done.
Qed.

(** The choice of the slot follows the specification; at most the hint changes. *)
Lemma select_slot_ok p offnum flags : PageOK p -> is_u 16 offnum ->
  match spec_slot (items p) (PageHasFreeLinePointers p) offnum flags with
  | None => select_slot p offnum (nline p + 1) flags = Ok Refused
  | Some (off, shuffle) => exists p1, select_slot p offnum (nline p + 1) flags = Ok (Slot p1 off shuffle) /\
      1 <= off /\ (shuffle = true -> off <= nline p) /\ hint_only p p1
  end.
Proof.
  intros Hok Hu. pose proof (ok_nline p Hok) as [_ Hnb]. pose proof (lenZ_items p ltac:(lia)) as Hl.
  assert (Hid : hint_only p p) by (unfold hint_only; split_and!; done).
  unfold spec_slot, select_slot. rewrite Hl.
  destruct (OffsetNumberIsValid offnum) eqn:Hv.
  - assert (0 < offnum).
    { unfold OffsetNumberIsValid, InvalidOffsetNumber, is_u in *. destruct (Z.eqb_spec offnum 0); [done|lia]. }
    destruct (negb (Z.land flags PAI_OVERWRITE =? 0)); [destruct (Z.ltb_spec offnum (nline p + 1))|].
    + rewrite items_lookup by lia. rewrite is_unused_abs. rewrite load_lp_ok by (apply Hok || lia). rewrite bind_val.
      rewrite Z2Nat.id by lia. unfold ItemIdIsUsed, ItemIdHasStorage.
      destruct (Z.eqb_spec (lp_flags (lp p (offnum - 1))) LP_UNUSED) as [Hun|]; cbn [negb orb]; [|done].
      destruct (ok_lps p Hok (offnum - 1)) as [Hlen _]; [lia|]. rewrite Hlen by done. simpl.
      exists p. split_and!; done || lia.
    + exists p. split_and!; done || lia.
    + exists p. split_and!; try done; [lia|]. intros Ht%Z.ltb_lt. lia.
  - destruct (search_slot_ok p Hok) as (p1 & Hs & Hh). exists p1. pose proof (first_unused_bound (items p)).
    split_and!; [done|destruct (PageHasFreeLinePointers p); lia|done|done].
Qed.

Lemma add_item_ok p data offnum flags :
  PageOK p -> all_bytes data -> 0 < lenZ data < 2 ^ 31 - 7 -> is_u 16 offnum ->
  exists p' r, PageAddItemExtended p data (lenZ data) offnum flags = Ok (p', r) /\ PageOK p' /\
    pd_special p' = pd_special p /\ (forall a, pd_special p <= a -> nthZ p' a = nthZ p a) /\
    let free := pd_upper p - pd_lower p in
    match spec_add (items p) (PageHasFreeLinePointers p) free data offnum flags with
    | None => r = InvalidOffsetNumber /\ items p' = items p /\ pd_upper p' - pd_lower p' = free
    | Some (off, L, need) => r = off /\ items p' = L /\ pd_upper p' - pd_lower p' = free - need
    end.
Proof.
  intros Hok Hb Hsz Hu. pose proof (ok_nline p Hok) as [_ Hnb]. pose proof (lenZ_items p ltac:(lia)) as Hl.
  pose proof (ok_layout p Hok) as Hlay. pose proof (MAXALIGN_bounds (lenZ data) ltac:(lia)) as Hma.
  unfold PageAddItemExtended. fold (nline p). unfold OffsetNumberNext.
  rewrite (wrapu_small 16) by (unfold is_u; psizes; lia). replace (1 + nline p) with (nline p + 1) by lia.
  destruct Hlay. psizes. rewrite (proj2 (Z.ltb_ge (pd_lower p) 24)), (proj2 (Z.ltb_ge (pd_upper p) (pd_lower p))),
    (proj2 (Z.ltb_ge (pd_special p) (pd_upper p))), (proj2 (Z.ltb_ge 8192 (pd_special p))) by lia. cbn [orb].
  cbv zeta. unfold spec_add. rewrite Hl. pose proof (select_slot_ok p offnum flags Hok Hu) as Hsel.
  destruct (spec_slot _ _ _ _) as [[off shuffle]|].
  2: { rewrite Hsel, bind_val. exists p, InvalidOffsetNumber. split_and!; done. }
  destruct Hsel as (p1 & -> & Hoff & Hshuf & (Hok1 & Hit1 & Hn1 & Hl1 & Hu1 & Hs1 & Hd1)). rewrite bind_val.
  assert (Hkeep : forall a, pd_special p <= a -> nthZ p1 a = nthZ p a) by (intros a Ha; apply Hd1; lia).
  destruct (Z.ltb_spec (nline p + 1) off).
  { exists p1, InvalidOffsetNumber. split_and!; try done. lia. }
  destruct (negb _ && _).
  { exists p1, InvalidOffsetNumber. split_and!; try done. lia. }
  rewrite (wraps_small 32 (MAXALIGN _)), wraps_small by (unfold is_s; lia). rewrite Hl1, Hu1.
  set (g := if (off =? nline p + 1) || shuffle then 4 else 0).
  assert ((if (off =? nline p + 1) || shuffle then pd_lower p + 4 else pd_lower p) = pd_lower p + g) as ->
    by (unfold g; destruct (_ || _); lia).
  assert (Hcmp : (pd_upper p - MAXALIGN (lenZ data) <? pd_lower p + g) = (pd_upper p - pd_lower p <? MAXALIGN (lenZ data) + g))
    by (repeat zcase; lia || done).
  rewrite Hcmp. destruct (Z.ltb_spec (pd_upper p - pd_lower p) (MAXALIGN (lenZ data) + g)).
  { exists p1, InvalidOffsetNumber. split_and!; try done. lia. }
  destruct (place_ok p1 Hok1 off shuffle data (lenZ data)) as (p' & Hp' & Hok' & Hit' & Hlow' & Hup' & Hsp' & _ & Hd');
    rewrite ?Hn1; try done; try lia.
  { unfold grow. rewrite Hn1, Hl1, Hu1. fold g. lia. }
  exists p', off. unfold grow, placed_items, place_item in *. rewrite Hn1, Hl1, Hu1, Hit1 in *. fold g in Hp', Hlow'.
  split_and!; try done; [|congruence|intros a Ha; rewrite Hd' by lia; by apply Hkeep|lia].
  cbv zeta in Hp'. apply bind_Ok in Hp' as (q1 & Hq1 & (l & Hl2 & (q2 & Hq2 & (q3 & Hq3 & Hq4)%bind_Ok)%bind_Ok)%bind_Ok).
  injection Hq4 as <-. rewrite Hq1, bind_val, Hl2, bind_val, Hq2, bind_val, Hq3.
  unfold grow. by rewrite Hn1.
Qed.

(** C2. PageAddItemExtended implements the abstract insertion for every combination of
    offset number and flags: it refuses exactly when the specification does, and then
    changes at most the hint; otherwise the item is stored at the offset number it
    returns, no other item changes, and the free space shrinks by the aligned size plus
    the line pointer if one was added.  The layout invariant and the special space are
    kept, and every access stays within the page. *)
Theorem page_add_item p data offnum flags :
  PageOK p -> all_bytes data -> 0 < lenZ data < 2 ^ 31 - 7 -> is_u 16 offnum ->
  exists p' r, PageAddItemExtended p data (lenZ data) offnum flags = Ok (p', r) /\ PageOK p' /\
    pd_special p' = pd_special p /\ (forall a, pd_special p <= a -> nthZ p' a = nthZ p a) /\
    let free := pd_upper p - pd_lower p in
    match spec_add (items p) (PageHasFreeLinePointers p) free data offnum flags with
    | None => r = InvalidOffsetNumber /\ items p' = items p /\ pd_upper p' - pd_lower p' = free
    | Some (off, L, need) => r = off /\ items p' = L /\ pd_upper p' - pd_lower p' = free - need
    end.
Proof. exact (add_item_ok p data offnum flags). Qed.

(** ** Free space *)
Lemma free_space_val p : PageOK p ->
  PageGetFreeSpace p = Z.max 0 (pd_upper p - pd_lower p - 4) /\
  PageGetExactFreeSpace p = pd_upper p - pd_lower p /\
  forall ntups, 0 <= ntups < 2 ^ 29 ->
    PageGetFreeSpaceForMultipleTuples p ntups = Z.max 0 (pd_upper p - pd_lower p - 4 * ntups).
Proof.
  intros Hok. pose proof (ok_layout p Hok) as []. psizes.
  unfold PageGetFreeSpace, PageGetExactFreeSpace, PageGetFreeSpaceForMultipleTuples. split_and!.
  - zcase; lia.
  - zcase; lia.
  - intros ntups Hn. rewrite (wrapu_small 64 (ntups * 4)) by (unfold is_u; lia).
    rewrite (wraps_small 32 (ntups * 4)) by (unfold is_s; lia). zcase; [lia|]. unwrap. lia.
Qed.

Lemma has_free_lp_ok p fuel : PageOK p -> forall k, 0 <= k <= nline p -> (Z.to_nat (nline p - k) < fuel)%nat ->
  has_free_lp fuel p (k + 1) (nline p) = Ok (k + 1 + first_unused (drop (Z.to_nat k) (items p))).
Proof.
  intros Hok. pose proof (ok_nline p Hok) as [_ Hnb]. pose proof (lenZ_items p ltac:(lia)) as Hl.
  unfold lenZ in Hl. induction fuel as [|fuel IH]; intros k Hk Hf; [lia|]. cbn [has_free_lp].
  destruct (Z.leb_spec (k + 1) (nline p)).
  - rewrite load_lp_ok by (apply Hok || lia). rewrite bind_val. replace (k + 1 - 1) with k by lia.
    rewrite (drop_S (items p) (abs_lp p (lp p k)) (Z.to_nat k)).
    2: { rewrite items_lookup by lia. do 3 f_equal. lia. }
    cbn [first_unused]. rewrite is_unused_abs. unfold ItemIdIsUsed, OffsetNumberNext.
    destruct (Z.eqb_spec (lp_flags (lp p k)) LP_UNUSED) as [Hu|Hu]; cbn [negb]; [f_equal; lia|].
    psizes. rewrite wrapu_small by (unfold is_u; lia). replace (1 + (k + 1)) with (k + 1 + 1) by lia.
    rewrite IH by lia. f_equal. replace (Z.to_nat (k + 1)) with (S (Z.to_nat k)) by lia. lia.
  - rewrite drop_ge by lia. simpl. f_equal. lia.
Qed.

Lemma existsb_first_unused l : existsb is_unused l = (first_unused l <? lenZ l).
Proof.
  unfold lenZ. induction l as [|x l IH]; simpl; [done|]. destruct (is_unused x); simpl; [by zcase|].
  rewrite IH. repeat zcase; lia || done.
Qed.

Lemma heap_free_val p : PageOK p -> PageGetHeapFreeSpace p = Ok (
  if (MaxHeapTuplesPerPage <=? nline p) &&
     negb (PageHasFreeLinePointers p && existsb is_unused (items p)) then 0 else PageGetFreeSpace p).
Proof.
  intros Hok. pose proof (ok_nline p Hok) as [_ Hnb]. pose proof (lenZ_items p ltac:(lia)) as Hl.
  destruct (free_space_val p Hok) as (Hf & _ & _). unfold PageGetHeapFreeSpace. fold (nline p).
  destruct (Z.ltb_spec 0 (PageGetFreeSpace p)).
  2: { replace (PageGetFreeSpace p) with 0 by lia. by destruct (_ && _). }
  destruct (MaxHeapTuplesPerPage <=? nline p); cbn [andb]; [|done].
  destruct (PageHasFreeLinePointers p); cbn [andb negb]; [|done].
  change FirstOffsetNumber with (0 + 1). rewrite has_free_lp_ok by (done || lia). rewrite bind_val.
  change (drop (Z.to_nat 0) (items p)) with (items p). rewrite existsb_first_unused, Hl.
  pose proof (first_unused_bound (items p)). repeat zcase; simpl; lia || done.
Qed.

(** An item the heap's free space covers is not refused. *)
Lemma heap_slot_added L hint free data :
  lenZ L <= MaxHeapTuplesPerPage -> 0 < lenZ data < 2 ^ 31 -> MAXALIGN (lenZ data) + 4 <= free ->
  (MaxHeapTuplesPerPage <=? lenZ L) && negb (hint && existsb is_unused L) = false ->
  exists off L' need, spec_add L hint free data InvalidOffsetNumber PAI_IS_HEAP = Some (off, L', need) /\
    1 <= off /\ L' !! Z.to_nat (off - 1) = Some (mkItem LP_NORMAL 0 data).
Proof.
  intros Hlen Hsz Hfree Hz. pose proof (first_unused_bound L) as Hfu. rewrite existsb_first_unused in Hz.
  set (off := if hint then 1 + first_unused L else lenZ L + 1).
  assert (Hoff : 1 <= off <= lenZ L + 1 /\ off <= MaxHeapTuplesPerPage).
  { unfold off. revert Hz. destruct hint; cbn [andb negb]; repeat zcase; simpl; intros; lia || done. }
  unfold spec_add, spec_slot. change (OffsetNumberIsValid InvalidOffsetNumber) with false. cbn [andb]. fold off.
  rewrite (proj2 (Z.ltb_ge (lenZ L + 1) off)) by lia. rewrite (proj2 (Z.ltb_ge MaxHeapTuplesPerPage off)) by lia.
  rewrite andb_false_r, orb_false_r. unfold lenZ in *.
  rewrite (proj2 (Z.ltb_ge free _)) by (destruct (off =? _); lia). do 3 eexists. split; [done|]. split; [lia|].
  destruct (Z.eqb_spec off (Z.of_nat (length L) + 1)).
  - rewrite insert_at_lookup by lia. by rewrite decide_True.
  - apply list_lookup_insert_eq. lia.
Qed.

(** The free-space functions are honest.  PageGetHeapFreeSpace (and PageGetFreeSpace)
    never promises too much: an item whose aligned size it covers is added by
    PageAddItem to a heap page with at most MaxHeapTuplesPerPage line pointers.  For
    appending to an index page PageGetFreeSpace is exact, and the variants for several
    tuples and for no line pointer return the free space less what they reserve. *)
Theorem page_free_space_honest p data :
  PageOK p -> nline p <= MaxHeapTuplesPerPage -> all_bytes data -> 0 < lenZ data < 2 ^ 31 - 7 ->
  (exists s, PageGetHeapFreeSpace p = Ok s /\ 0 <= s <= PageGetFreeSpace p /\
     (MAXALIGN (lenZ data) <= s -> exists p' r,
        PageAddItemExtended p data (lenZ data) InvalidOffsetNumber PAI_IS_HEAP = Ok (p', r) /\
        r <> InvalidOffsetNumber /\ items p' !! Z.to_nat (r - 1) = Some (mkItem LP_NORMAL 0 data))) /\
  (exists p' r, PageAddItemExtended p data (lenZ data) (OffsetNumberNext (nline p)) 0 = Ok (p', r) /\
     (r <> InvalidOffsetNumber <-> MAXALIGN (lenZ data) <= PageGetFreeSpace p)) /\
  PageGetExactFreeSpace p = pd_upper p - pd_lower p /\
  (forall ntups, 0 <= ntups < 2 ^ 29 ->
     PageGetFreeSpaceForMultipleTuples p ntups = Z.max 0 (pd_upper p - pd_lower p - 4 * ntups)).
Proof.
  intros Hok Hmax Hb Hsz. pose proof (ok_nline p Hok) as [_ Hnb]. pose proof (lenZ_items p ltac:(lia)) as Hl.
  destruct (free_space_val p Hok) as (Hf & Hex & Hmt). pose proof (MAXALIGN_bounds (lenZ data) ltac:(lia)) as Hma.
  split_and!; [| |done|done].
  - rewrite heap_free_val by done. eexists; split; [done|]. split; [destruct (_ && _); lia|].
    intros Hfit. destruct (_ && _) eqn:Hz; [lia|].
    destruct (add_item_ok p data InvalidOffsetNumber PAI_IS_HEAP Hok Hb Hsz) as (p' & r & -> & _ & _ & _ & Hspec);
      [done|]. exists p', r. split; [done|].
    destruct (heap_slot_added (items p) (PageHasFreeLinePointers p) (pd_upper p - pd_lower p) data)
      as (off & L & need & Hadd & Hpos & Hlook); [lia|lia|lia|by rewrite Hl|].
    cbv zeta in Hspec. rewrite Hadd in Hspec. destruct Hspec as (-> & -> & _). split; [unfold InvalidOffsetNumber; lia|done].
  - unfold OffsetNumberNext. psizes. rewrite wrapu_small by (unfold is_u; lia). replace (1 + nline p) with (nline p + 1) by lia.
    destruct (add_item_ok p data (nline p + 1) 0 Hok Hb Hsz) as (p' & r & -> & _ & _ & _ & Hspec); [unfold is_u; lia|].
    exists p', r. split; [done|]. revert Hspec. cbv zeta. unfold spec_add, spec_slot. rewrite Hl.
    unfold OffsetNumberIsValid, InvalidOffsetNumber. rewrite (proj2 (Z.eqb_neq (nline p + 1) 0)) by lia.
    rewrite (proj2 (Z.leb_le (nline p + 1) MaxOffsetNumber)) by (change MaxOffsetNumber with 2048; lia).
    change (Z.land 0 PAI_OVERWRITE =? 0) with true. cbn [negb andb]. rewrite !Z.ltb_irrefl.
    change (Z.land 0 PAI_IS_HEAP =? 0) with true. rewrite Z.eqb_refl. cbn [negb andb orb].
    destruct (Z.ltb_spec (pd_upper p - pd_lower p) (MAXALIGN (lenZ data) + 4)); intros (-> & _ & _); lia.
Qed.

(** ** Truncating the line pointer array *)
(** The contents without the unused line pointers at the end, but never empty. *)
Definition keep_one (L : list item) : list item :=
  match strip_unused L with [] => take 1 L | L' => L' end.

Lemma items_nth_unused p i : 0 <= i < nline p ->
  exists x, items p !! Z.to_nat i = Some x /\ is_unused x = (lp_flags (lp p i) =? LP_UNUSED).
Proof.
  intros. eexists. rewrite items_lookup by lia. split; [done|]. rewrite Z2Nat.id by lia. apply is_unused_abs.
Qed.

Lemma existsb_take_S {A} (f : A -> bool) l k x : l !! k = Some x ->
  existsb f (take (S k) l) = existsb f (take k l) || f x.
Proof. intros H. rewrite (take_S_r l k x H), existsb_app. simpl. by rewrite orb_false_r. Qed.

Section truncate.
Context (p : Page) (Hok : PageOK p).

(** After the count is done only the hint is determined. *)
Lemma truncate_scan_done fuel : forall i nun, 0 <= i <= nline p -> (Z.to_nat i < fuel)%nat ->
  truncate_scan fuel p i true nun = Ok (nun, existsb is_unused (take (Z.to_nat i) (items p))).
Proof.
  pose proof (ok_nline p Hok) as [_ Hnb].
  induction fuel as [|fuel IH]; intros i nun Hi Hf; [lia|]. cbn [truncate_scan]. unfold FirstOffsetNumber.
  destruct (Z.leb_spec 1 i); cbn [negb andb].
  - rewrite load_lp_ok by (apply Hok || lia). rewrite bind_val.
    destruct (items_nth_unused p (i - 1)) as (x & Hx & Hux); [lia|].
    replace (Z.to_nat i) with (S (Z.to_nat (i - 1))) by lia. rewrite (existsb_take_S _ _ _ _ Hx), Hux.
    unfold ItemIdIsUsed. destruct (lp_flags (lp p (i - 1)) =? LP_UNUSED); cbn [negb].
    + by rewrite orb_true_r.
    + rewrite orb_false_r. apply IH; lia.
  - by replace i with 0 by lia.
Qed.

Lemma truncate_scan_count fuel : forall i, 0 <= i <= nline p -> (Z.to_nat i < fuel)%nat ->
  (forall j, i <= j < nline p -> lp_flags (lp p j) = LP_UNUSED) ->
  exists f, truncate_scan fuel p i false (nline p - i) =
      Ok (nline p - f, existsb is_unused (take (Z.to_nat f) (items p))) /\
    0 <= f <= nline p /\ (f = 0 -> i = 0) /\ (forall j, f <= j < nline p -> lp_flags (lp p j) = LP_UNUSED) /\
    (f <= 1 \/ lp_flags (lp p (f - 1)) <> LP_UNUSED).
Proof.
  pose proof (ok_nline p Hok) as [_ Hnb].
  induction fuel as [|fuel IH]; intros i Hi Hf Hun; [lia|]. cbn [truncate_scan]. unfold FirstOffsetNumber.
  destruct (Z.leb_spec 1 i); cbn [negb andb].
  - rewrite load_lp_ok by (apply Hok || lia). rewrite bind_val.
    destruct (items_nth_unused p (i - 1)) as (x & Hx & Hux); [lia|].
    assert (Hex : existsb is_unused (take (Z.to_nat i) (items p)) =
      existsb is_unused (take (Z.to_nat (i - 1)) (items p)) || (lp_flags (lp p (i - 1)) =? LP_UNUSED)).
    { replace (Z.to_nat i) with (S (Z.to_nat (i - 1))) by lia. by rewrite (existsb_take_S _ _ _ _ Hx), Hux. }
    unfold ItemIdIsUsed. destruct (Z.eqb_spec (lp_flags (lp p (i - 1))) LP_UNUSED) as [E|E]; cbn [negb].
    + destruct (Z.ltb_spec 1 i).
      * destruct (IH (i - 1)) as (f & Hs & Hf0 & Hfi & Hr & Hu); [lia|lia| |].
        { intros j Hj. destruct (decide (j = i - 1)) as [->|]; [done|]. apply Hun. lia. }
        exists f. replace (nline p - i + 1) with (nline p - (i - 1)) by lia. split_and!; try done; lia.
      * exists i. rewrite Hex, orb_true_r. split_and!; done || lia.
    + assert (Hd : truncate_scan fuel p (i - 1) true (nline p - i) = Ok (nline p - i, existsb is_unused (take (Z.to_nat i) (items p)))).
      { rewrite truncate_scan_done by lia. by rewrite Hex, orb_false_r. }
      destruct (Z.ltb_spec 1 i).
      * exists i. split_and!; auto; lia.
      * exists i. split_and!; auto; try lia. rewrite Hex, orb_false_r. replace i with 1 by lia. simpl.
        destruct fuel; [lia|]. done.
  - exists i. replace i with 0 by lia. split_and!; try done; try lia. intros j Hj. apply Hun. lia.
Qed.
End truncate.

Lemma keep_one_take p f : PageOK p -> 0 <= f <= nline p -> (f = 0 -> nline p = 0) ->
  (forall j, f <= j < nline p -> lp_flags (lp p j) = LP_UNUSED) ->
  (f <= 1 \/ lp_flags (lp p (f - 1)) <> LP_UNUSED) -> keep_one (items p) = take (Z.to_nat f) (items p).
Proof.
  intros Hok Hf Hf0 Hr Hu. pose proof (ok_nline p Hok) as [_ Hnb]. pose proof (lenZ_items p ltac:(lia)) as Hl.
  unfold lenZ in Hl. destruct (decide (f = 0)) as [->|Hne].
  { specialize (Hf0 eq_refl). destruct (items p); [done|]. simpl in Hl. lia. }
  assert (Hrest : forall k x, (Z.to_nat f <= k)%nat -> items p !! k = Some x -> is_unused x = true).
  { intros k x Hk Hx. assert (Z.of_nat k < nline p) by (apply lookup_lt_Some in Hx; lia).
    rewrite items_lookup in Hx by lia. simplify_eq. rewrite is_unused_abs. apply Z.eqb_eq, Hr. lia. }
  unfold keep_one. destruct (decide (lp_flags (lp p (f - 1)) = LP_UNUSED)) as [E|E].
  - assert (f = 1) as -> by lia. rewrite strip_unused_all; [done|]. apply Forall_lookup. intros k x Hx.
    destruct k; [|by apply (Hrest (S k)); [lia|]]. rewrite items_lookup in Hx by lia. simplify_eq.
    rewrite is_unused_abs. by apply Z.eqb_eq.
  - rewrite (strip_unused_take (Z.to_nat f)); [|lia| |done].
    + destruct (take (Z.to_nat f) (items p)) eqn:Et; [|done]. apply (f_equal length) in Et.
      rewrite length_take in Et. simpl in Et. lia.
    + intros x _ Hx. rewrite items_lookup in Hx by lia. simplify_eq. rewrite is_unused_abs. apply Z.eqb_neq.
      by replace (Z.of_nat (Z.to_nat f - 1)) with (f - 1) by lia.
Qed.

(** PageTruncateLinePointerArray removes the unused line pointers at the end of the
    array (all but one, if there is nothing else), changes no item that is left, and
    sets the hint exactly if an unused line pointer is left. *)
Theorem page_truncate_lines p : PageOK p ->
  exists p', PageTruncateLinePointerArray p = Ok p' /\ PageOK p' /\ items p' = keep_one (items p) /\
    PageHasFreeLinePointers p' = existsb is_unused (items p') /\
    pd_upper p' = pd_upper p /\ pd_special p' = pd_special p /\
    (forall a, pd_upper p <= a -> nthZ p' a = nthZ p a).
Proof.
  intros Hok. pose proof (ok_nline p Hok) as [Hlv Hnb]. pose proof (lenZ_items p ltac:(lia)) as Hl.
  unfold PageTruncateLinePointerArray. fold (nline p).
  destruct (truncate_scan_count p Hok (S (Z.to_nat (nline p))) (nline p)) as (f & Hs & Hf & Hf0 & Hr & Hu); [lia|lia|intros; lia|].
  rewrite Z.sub_diag in Hs. rewrite Hs, bind_val. set (h := existsb _ _) in *.
  assert (Hp1 : exists p1, (if 0 <? nline p - f then set_pd_lower p (pd_lower p - 4 * (nline p - f)) else p) = p1 /\
    PageOK p1 /\ items p1 = take (Z.to_nat f) (items p) /\ pd_upper p1 = pd_upper p /\ pd_special p1 = pd_special p /\
    (forall a, 14 <= a -> nthZ p1 a = nthZ p a)).
  { eexists; split; [done|]. destruct (Z.ltb_spec 0 (nline p - f)).
    - replace (pd_lower p - 4 * (nline p - f)) with (SizeOfPageHeaderData + 4 * f) by lia.
      destruct (truncate_lines p f Hok ltac:(lia)) as (?&?&?&?&?&?&?). split_and!; done.
    - rewrite take_ge by (unfold lenZ in *; lia). split_and!; done. }
  destruct Hp1 as (p1 & -> & Hok1 & Hit1 & Hup1 & Hsp1 & Hm1).
  destruct (set_hint_page p1 h Hok1) as (Hok2 & Hit2 & _ & _ & Hup2 & Hsp2 & Hh2 & Hm2).
  eexists; split; [done|]. split_and!; try done; try congruence.
  - rewrite Hit2, Hit1. symmetry. by apply keep_one_take.
  - by rewrite Hh2, Hit2, Hit1.
  - intros a Ha. pose proof (ok_layout p Hok) as []. psizes. rewrite Hm2, Hm1 by lia. done.
Qed.

(** ** A concrete page: three tuples added, then the second line pointer marked dead
    and the third unused *)
Definition sample_page : Page :=
  match (p ← PageInit (replicate 8192 77) BLCKSZ 16;
         '(p, _) ← PageAddItemExtended p (replicate 30 1) 30 0 PAI_IS_HEAP;
         '(p, _) ← PageAddItemExtended p (replicate 41 2) 41 0 PAI_IS_HEAP;
         '(p, _) ← PageAddItemExtended p (replicate 24 3) 24 0 PAI_IS_HEAP;
         p ← store_lp p (PageGetItemId 2) (mkItemId 0 LP_DEAD 0);
         store_lp p (PageGetItemId 3) (mkItemId 0 LP_UNUSED 0)) with
  | Ok p => p
  | _ => []
  end.

Lemma sample_page_ok : PageOK sample_page.
Proof. apply page_okb_sound. vm_compute. reflexivity. Qed.

Lemma sample_page_heap : heap_page sample_page.
Proof.
  assert (H : forallb (fun i => (lp_len (lp sample_page i) =? 0) || (23 <=? lp_len (lp sample_page i)))
    (seqZ 0 (nline sample_page)) = true) by (vm_compute; reflexivity).
  intros i Hi Hs. apply (forallb_seqZ _ _ H) in Hi. rewrite orb_true_iff, Z.eqb_eq, Z.leb_le in Hi. tauto.
Qed.

Lemma zero_block_ok : lenZ (replicate 8192 0) = BLCKSZ /\ all_bytes (replicate 8192 0).
Proof. split; [done|]. apply all_bytes_b. vm_compute. reflexivity. Qed.

(** A line pointer whose start is in range but whose end is not passes the checks of
    PageRepairFragmentation, and the copy reads past the end of the block. *)
Example repair_trusts_item_ends :
  match store_lp sample_page (PageGetItemId 1) (mkItemId 8168 LP_NORMAL 40) with
  | Ok p => PageRepairFragmentation p (replicate 8192 0)
  | r => r
  end = Undef.
Proof. vm_compute. reflexivity. Qed.

Lemma page_repair_fragmentation_witness : exists p',
  PageRepairFragmentation sample_page (replicate 8192 0) = Ok p' /\ PageOK p' /\
  items p' = strip_unused (items sample_page) /\ pd_special p' = pd_special sample_page /\
  pd_upper p' = pd_special sample_page - items_space (items sample_page) /\
  PageHasFreeLinePointers p' = existsb is_unused (items p') /\
  (forall a, pd_special sample_page <= a -> nthZ p' a = nthZ sample_page a).
Proof.
  exact (page_repair_fragmentation sample_page (replicate 8192 0) sample_page_ok sample_page_heap
    (proj1 zero_block_ok) (proj2 zero_block_ok)).
Defined.

Lemma page_add_item_witness : exists p' r,
  PageAddItemExtended sample_page [1; 2; 3] (lenZ [1; 2; 3]) 2 0 = Ok (p', r) /\ PageOK p' /\
  pd_special p' = pd_special sample_page /\
  (forall a, pd_special sample_page <= a -> nthZ p' a = nthZ sample_page a) /\
  let free := pd_upper sample_page - pd_lower sample_page in
  match spec_add (items sample_page) (PageHasFreeLinePointers sample_page) free [1; 2; 3] 2 0 with
  | None => r = InvalidOffsetNumber /\ items p' = items sample_page /\ pd_upper p' - pd_lower p' = free
  | Some (off, L, need) => r = off /\ items p' = L /\ pd_upper p' - pd_lower p' = free - need
  end.
Proof.
  apply (page_add_item sample_page [1; 2; 3] 2 0 sample_page_ok).
  - apply all_bytes_b. reflexivity.
  - split; reflexivity.
  - split; [discriminate|reflexivity].
Defined.

Lemma page_free_space_honest_witness :
  (exists s, PageGetHeapFreeSpace sample_page = Ok s /\ 0 <= s <= PageGetFreeSpace sample_page /\
     (MAXALIGN (lenZ [1; 2; 3]) <= s -> exists p' r,
        PageAddItemExtended sample_page [1; 2; 3] (lenZ [1; 2; 3]) InvalidOffsetNumber PAI_IS_HEAP = Ok (p', r) /\
        r <> InvalidOffsetNumber /\ items p' !! Z.to_nat (r - 1) = Some (mkItem LP_NORMAL 0 [1; 2; 3]))) /\
  (exists p' r, PageAddItemExtended sample_page [1; 2; 3] (lenZ [1; 2; 3]) (OffsetNumberNext (nline sample_page)) 0 = Ok (p', r) /\
     (r <> InvalidOffsetNumber <-> MAXALIGN (lenZ [1; 2; 3]) <= PageGetFreeSpace sample_page)) /\
  PageGetExactFreeSpace sample_page = pd_upper sample_page - pd_lower sample_page /\
  (forall ntups, 0 <= ntups < 2 ^ 29 ->
     PageGetFreeSpaceForMultipleTuples sample_page ntups =
     Z.max 0 (pd_upper sample_page - pd_lower sample_page - 4 * ntups)).
Proof.
  apply (page_free_space_honest sample_page [1; 2; 3] sample_page_ok).
  - vm_compute. discriminate.
  - apply all_bytes_b. reflexivity.
  - split; reflexivity.
Defined.

Lemma page_truncate_lines_witness : exists p',
  PageTruncateLinePointerArray sample_page = Ok p' /\ PageOK p' /\ items p' = keep_one (items sample_page) /\
  PageHasFreeLinePointers p' = existsb is_unused (items p') /\
  pd_upper p' = pd_upper sample_page /\ pd_special p' = pd_special sample_page /\
  (forall a, pd_upper sample_page <= a -> nthZ p' a = nthZ sample_page a).
Proof. exact (page_truncate_lines sample_page sample_page_ok). Defined.
