(* ===== verification/BufPageIndex.v ===== *)
(** The operations on index pages: deleting one or many tuples and replacing a tuple.

    The common step is to move the tuples that lie below a given one by some amount
    and to adjust their line pointers; [reloc] is its effect on a line pointer.  The
    theorems say that PageIndexTupleDelete, PageIndexTupleDeleteNoCompact,
    PageIndexMultiDelete and PageIndexTupleOverwrite are deletion and replacement in
    the list of items. *)
From S2P Require Import Prelude ByteMem BufPage BufPageLayout BufPageCompact BufPageSpec.

(** ** Adjusting line pointers *)
Definition shifted (guard : bool) (offset delta : Z) (l : ItemIdData) : ItemIdData :=
  if (negb guard || ItemIdHasStorage l) && (ItemIdGetOffset l <=? offset)
  then set_lp_off l (lp_off l + delta) else l.

Lemma shift_offsets_ok guard n offset delta fuel : forall p k, 0 <= k <= n -> n <= max_lines ->
  lenZ p = BLCKSZ -> all_bytes p -> (Z.to_nat (n - k) < fuel)%nat ->
  exists p', shift_offsets fuel guard p (k + 1) n offset delta = Ok p' /\ lenZ p' = BLCKSZ /\ all_bytes p' /\
    (forall a, 0 <= a < SizeOfPageHeaderData + 4 * k \/ SizeOfPageHeaderData + 4 * n <= a -> nthZ p' a = nthZ p a) /\
    (forall i, k <= i < n -> lp p' i = shifted guard offset delta (lp p i)).
Proof.
  induction fuel as [|fuel IH]; intros p k Hk Hn Hl Hb Hf; [lia|]. cbn [shift_offsets].
  destruct (Z.leb_spec (k + 1) n).
  2: { exists p. split_and!; try done. intros i Hi. lia. }
  rewrite load_lp_ok by (done || lia). rewrite bind_val. replace (k + 1 - 1) with k by lia.
  assert (Hstep : exists p1,
    (if (negb guard || ItemIdHasStorage (lp p k)) && (ItemIdGetOffset (lp p k) <=? offset)
     then store_lp p (PageGetItemId (k + 1)) (set_lp_off (lp p k) (lp_off (lp p k) + delta)) else Ok p) = Ok p1 /\
    lenZ p1 = BLCKSZ /\ all_bytes p1 /\ lp p1 k = shifted guard offset delta (lp p k) /\
    (forall a, 0 <= a -> a < PageGetItemId (k + 1) \/ PageGetItemId (k + 1) + 4 <= a -> nthZ p1 a = nthZ p a)).
  { unfold shifted. destruct (_ && _); [|by exists p].
    destruct (store_lp_ok p (k + 1) (set_lp_off (lp p k) (lp_off (lp p k) + delta))) as (p1 & Hs & ? & ? & Hlp & ?);
      [done|done|lia|]. exists p1. split_and!; try done.
    replace (k + 1 - 1) with k in Hlp by lia. rewrite Hlp. apply itemid_unpack_pack, set_lp_off_wf, lp_is_wf. }
  destruct Hstep as (p1 & -> & Hl1 & Hb1 & Hlp1 & Hn1). rewrite bind_val.
  destruct (IH p1 (k + 1)) as (p' & Hp' & Hl' & Hb' & Hn' & Hlp'); [lia|done|done|done|lia|].
  exists p'. split_and!; try done.
  - intros a Ha. unfold PageGetItemId in Hn1. psizes. rewrite Hn', Hn1 by lia. done.
  - intros i Hi. destruct (decide (i = k)) as [->|].
    + rewrite <- Hlp1. apply lp_agree. intros a Ha. apply Hn'. psizes. lia.
    + rewrite Hlp' by lia. f_equal. eapply (lp_other _ _ k); [lia|done|exact Hn1].
Qed.

(** ** Relocation: the tuples at or below [offset] move by [delta] *)
Definition reloc (offset delta : Z) (l : ItemIdData) : ItemIdData :=
  if negb (lp_len l =? 0) && (lp_off l <=? offset)
  then mkItemId (lp_off l + delta) (lp_flags l) (lp_len l) else l.

Section relocation.
Context (p p' : Page) (Hok : PageOK p) (k delta : Z).
Context (Hk : 0 <= k < nline p) (Hst : lp_len (lp p k) <> 0).
Context (offset size : Z) (Eoff : lp_off (lp p k) = offset) (Esize : alen (lp p k) = size).
Context (Hdelta : delta <= size) (Hdown : 0 <= pd_upper p + delta) (Hmod : delta `mod` 8 = 0).
Context (Hlen' : lenZ p' = BLCKSZ).
Context (Hbelow : forall a, pd_upper p <= a < offset -> nthZ p' (a + delta) = nthZ p a).
Context (Habove : forall a, offset + size <= a -> nthZ p' a = nthZ p a).

(** Another tuple lies below the given one, and is moved, or above it. *)
Lemma reloc_cases j : 0 <= j < nline p -> j <> k ->
  (lp_len (lp p j) = 0 /\ reloc offset delta (lp p j) = lp p j) \/
  (lp_len (lp p j) <> 0 /\ pd_upper p <= lp_off (lp p j) /\ lp_off (lp p j) + alen (lp p j) <= offset /\
     reloc offset delta (lp p j) = mkItemId (lp_off (lp p j) + delta) (lp_flags (lp p j)) (lp_len (lp p j))) \/
  (lp_len (lp p j) <> 0 /\ offset + size <= lp_off (lp p j) /\ reloc offset delta (lp p j) = lp p j).
Proof.
  intros Hj Hne. unfold reloc. destruct (Z.eqb_spec (lp_len (lp p j)) 0) as [E|E]; [by left|]. right. cbn [negb andb].
  destruct (ok_lps p Hok j Hj) as [_ Ho]. specialize (Ho E). pose proof (alen_bounds _ (lp_is_wf p j)).
  pose proof (alen_bounds _ (lp_is_wf p k)). pose proof (lp_is_wf p j) as (?&?&?). pose proof (lp_is_wf p k) as (?&?&?).
  destruct (ok_disjoint p Hok j k Hj Hk Hne) as [?|[?|[?|?]]]; [done|done|left|right].
  - rewrite (proj2 (Z.leb_le _ _)) by lia. split_and!; done || lia.
  - rewrite (proj2 (Z.leb_gt _ _)) by lia. split_and!; done || lia.
Qed.

Lemma offset_range : pd_upper p <= offset /\ offset `mod` 8 = 0 /\ offset + size <= pd_special p /\ 0 < size /\ size `mod` 8 = 0.
Proof.
  rewrite <- Eoff, <- Esize. destruct (ok_lps p Hok k Hk) as [_ Ho]. specialize (Ho Hst). pose proof (alen_bounds _ (lp_is_wf p k)). pose proof (lp_is_wf p k) as (?&?&?). lia.
Qed.

Lemma reloc_lp_ok j : 0 <= j < nline p -> j <> k ->
  lp_ok (pd_upper p + delta) (pd_special p) (reloc offset delta (lp p j)).
Proof.
  intros Hj Hne. destruct (ok_lps p Hok j Hj) as [Hu Ho]. pose proof offset_range.
  destruct (reloc_cases j Hj Hne) as [[E ->]|[(E & ? & ? & ->)|(E & ? & ->)]].
  - split; [done|]. intros; congruence.
  - split; [done|]. cbn [lp_off lp_len lp_flags]. rewrite alen_mk.
    specialize (Ho E). intros _. split_and!; [lia|Z.to_euclidean_division_equations; lia|lia].
  - split; [done|]. specialize (Ho E). lia.
Qed.

Lemma reloc_disjoint i j : 0 <= i < nline p -> 0 <= j < nline p -> i <> k -> j <> k -> i <> j ->
  lp_disjoint (reloc offset delta (lp p i)) (reloc offset delta (lp p j)).
Proof.
  intros Hi Hj Hik Hjk Hij. pose proof (ok_disjoint p Hok i j Hi Hj Hij) as Hd. pose proof offset_range. unfold lp_disjoint in *.
  destruct (reloc_cases i Hi Hik) as [[E ->]|[(E & ? & ? & ->)|(E & ? & ->)]]; [by left|..];
    (destruct (reloc_cases j Hj Hjk) as [[E' ->]|[(E' & ? & ? & ->)|(E' & ? & ->)]]; [right; by left|..]);
    cbn [lp_off lp_len lp_flags]; rewrite ?alen_mk; lia.
Qed.
Lemma reloc_items j : 0 <= j < nline p -> j <> k -> abs_lp p' (reloc offset delta (lp p j)) = abs_lp p (lp p j).
Proof.
  intros Hj Hne. destruct (ok_lps p Hok j Hj) as [Hu Ho]. pose proof offset_range. pose proof (ok_len p Hok) as Hlen.
  pose proof (lp_is_wf p j) as (?&?&?). pose proof (alen_bounds _ (lp_is_wf p j)). pose proof (ok_layout p Hok) as [].
  destruct (reloc_cases j Hj Hne) as [[E ->]|[(E & ? & ? & ->)|(E & ? & ->)]].
  - apply abs_lp_moved; [done|done|lia|done|]. intros; congruence.
  - apply abs_lp_moved; cbn [lp_off lp_len lp_flags]; [done|done|lia|done|]. intros _. specialize (Ho E). psizes.
    split_and!; [lia..|]. intros d Hd. replace (lp_off (lp p j) + delta + d) with (lp_off (lp p j) + d + delta) by lia.
    apply Hbelow. lia.
  - apply abs_lp_moved; [done|done|lia|done|]. intros _. specialize (Ho E). psizes.
    split_and!; [lia..|]. intros d Hd. apply Habove. lia.
Qed.

(** The relocated tuples keep clear of the room left for the given one. *)
Lemma reloc_clear j l : 0 <= j < nline p -> j <> k -> offset + delta <= lp_off l -> lp_off l + alen l <= offset + size ->
  lp_disjoint l (reloc offset delta (lp p j)).
Proof.
  intros Hj Hne Hlo Hhi. unfold lp_disjoint.
  destruct (reloc_cases j Hj Hne) as [[E ->]|[(E & ? & ? & ->)|(E & ? & ->)]]; [right; by left|..];
    cbn [lp_off lp_len lp_flags]; rewrite ?alen_mk; lia.
Qed.
End relocation.

(** The two ways of adjusting a line pointer agree where the code uses them. *)
Lemma shifted_reloc guard offset delta l : lp_wf l -> guard = true \/ lp_len l <> 0 ->
  (lp_len l <> 0 -> lp_off l <= offset -> 0 <= lp_off l + delta < 32768) ->
  shifted guard offset delta l = reloc offset delta l.
Proof.
  intros Hwf Hg Hr. unfold shifted, reloc, ItemIdHasStorage, ItemIdGetOffset.
  assert ((negb guard || negb (lp_len l =? 0)) = negb (lp_len l =? 0)) as ->.
  { destruct guard; [done|]. destruct Hg as [?|Hg]; [done|]. by rewrite (proj2 (Z.eqb_neq _ _) Hg). }
  destruct (Z.eqb_spec (lp_len l) 0); [done|]. destruct (Z.leb_spec (lp_off l) offset); [|done].
  cbn [negb andb]. unfold set_lp_off. by rewrite Z.mod_small by auto.
Qed.

(** Closing the gap a deleted tuple leaves. *)
Lemma close_gap_ok q offset size : lenZ q = BLCKSZ -> all_bytes q ->
  0 <= pd_upper q <= offset -> 0 < size -> offset + size <= BLCKSZ ->
  exists q', (if pd_upper q <? offset then memmove q (pd_upper q + size) (pd_upper q) (offset - pd_upper q) else Ok q) = Ok q' /\
    lenZ q' = BLCKSZ /\ all_bytes q' /\
    (forall a, 0 <= a -> a < pd_upper q + size \/ offset + size <= a -> nthZ q' a = nthZ q a) /\
    (forall a, pd_upper q <= a < offset -> nthZ q' (a + size) = nthZ q a).
Proof.
  intros Hl Hb Hu Hs Ho. destruct (Z.ltb_spec (pd_upper q) offset).
  - destruct (memcpy_spec q (pd_upper q + size) q (pd_upper q) (offset - pd_upper q)) as (q' & Hq & Hl' & Hn'); [lia..|].
    exists q'. split_and!; [done|lia|by apply (all_bytes_memcpy _ _ _ _ _ _ Hb Hb Hq)| |].
    + intros a ? ?. rewrite Hn' by lia. by rewrite decide_False by lia.
    + intros a ?. rewrite Hn' by lia. rewrite decide_True by lia. f_equal. lia.
  - exists q. split_and!; try done. intros a ?. lia.
Qed.

(** An index page: every line pointer has storage. *)
Definition index_page (p : Page) : Prop := forall i, 0 <= i < nline p -> lp_len (lp p i) <> 0.

(** A page whose lines are relocated lines of [p], listed by [old], is well-formed and
    has the corresponding contents. *)
Lemma relocated_page p p' k delta offset size (old : Z -> Z) :
  PageOK p -> 0 <= k < nline p -> lp_len (lp p k) <> 0 ->
  lp_off (lp p k) = offset -> alen (lp p k) = size ->
  delta <= size -> pd_lower p' <= pd_upper p + delta -> delta `mod` 8 = 0 ->
  lenZ p' = BLCKSZ -> all_bytes p' ->
  (forall a, pd_upper p <= a < offset -> nthZ p' (a + delta) = nthZ p a) ->
  (forall a, offset + size <= a -> nthZ p' a = nthZ p a) ->
  SizeOfPageHeaderData <= pd_lower p' -> (pd_lower p' - SizeOfPageHeaderData) `mod` 4 = 0 ->
  pd_upper p' = pd_upper p + delta -> pd_special p' = pd_special p ->
  (forall i, 0 <= i < nline p' -> old i <> k -> 0 <= old i < nline p /\ lp p' i = reloc offset delta (lp p (old i))) ->
  (forall i j, 0 <= i < nline p' -> 0 <= j < nline p' -> i <> j -> old i <> old j) ->
  (forall i, 0 <= i < nline p' -> old i = k ->
     lp_ok (pd_upper p + delta) (pd_special p) (lp p' i) /\
     (lp_len (lp p' i) = 0 \/ (offset + delta <= lp_off (lp p' i) /\ lp_off (lp p' i) + alen (lp p' i) <= offset + size))) ->
  PageOK p' /\ forall i, 0 <= i < nline p' -> old i <> k -> abs_lp p' (lp p' i) = abs_lp p (lp p (old i)).
Proof.
  intros Hok Hk Hst Eo Es Hd Hlow Hmod Hl' Hb' Hbel Habo Hlo Hlm Hup Hsp Hlp Hinj Hkk.
  pose proof (ok_layout p Hok) as []. pose proof (offset_range p Hok k Hk Hst offset size Eo Es) as (? & ? & ? & ? & ?).
  assert (Hpos : 0 <= pd_upper p + delta) by (psizes; lia). split.
  - split; [done|done| | |].
    + rewrite Hup, Hsp. split; [lia|lia|done| |done]. Z.to_euclidean_division_equations. lia.
    + intros i Hi. rewrite Hup, Hsp. destruct (decide (old i = k)) as [E|E]; [by apply Hkk|].
      destruct (Hlp i Hi E) as [? ->]. by apply (reloc_lp_ok p Hok k delta Hk Hst offset size Eo Es).
    + assert (Hone : forall i j, 0 <= i < nline p' -> 0 <= j < nline p' -> old i = k -> old j <> k ->
        lp_disjoint (lp p' i) (lp p' j)).
      { intros i j Hi Hj Ei Ej. destruct (Hkk i Hi Ei) as [_ [?|[? ?]]]; [by left|].
        destruct (Hlp j Hj Ej) as [? ->]. by apply (reloc_clear p Hok k delta Hk Hst offset size Eo Es). }
      intros i j Hi Hj Hij. specialize (Hinj i j Hi Hj Hij).
      destruct (decide (old i = k)) as [Ei|Ei], (decide (old j = k)) as [Ej|Ej]; [congruence|by apply Hone| |].
      * destruct (Hone j i Hj Hi Ej Ei) as [?|[?|[?|?]]]; unfold lp_disjoint; tauto.
      * destruct (Hlp i Hi Ei) as [? ->]. destruct (Hlp j Hj Ej) as [? ->]. by apply (reloc_disjoint p Hok k delta Hk Hst offset size Eo Es).
  - intros i Hi E. destruct (Hlp i Hi E) as [? ->]. by apply (reloc_items p p' Hok k delta Hk Hst offset size Eo Es).
Qed.

(** The adjustment loop, skipped on a page without line pointers. *)
Lemma adjust_lines_ok guard p n offset delta : 0 <= n <= max_lines -> lenZ p = BLCKSZ -> all_bytes p ->
  pd_lower p = SizeOfPageHeaderData + 4 * n ->
  exists p', (if negb (PageIsEmpty p) then shift_offsets (S (Z.to_nat n)) guard p 1 n offset delta else Ok p) = Ok p' /\
    lenZ p' = BLCKSZ /\ all_bytes p' /\
    (forall a, 0 <= a < SizeOfPageHeaderData \/ SizeOfPageHeaderData + 4 * n <= a -> nthZ p' a = nthZ p a) /\
    (forall i, 0 <= i < n -> lp p' i = shifted guard offset delta (lp p i)).
Proof.
  intros Hn Hl Hb Hlow. unfold PageIsEmpty. rewrite Hlow.
  destruct (Z.leb_spec (SizeOfPageHeaderData + 4 * n) SizeOfPageHeaderData); cbn [negb].
  - exists p. split_and!; try done. intros i Hi. lia.
  - destruct (shift_offsets_ok guard n offset delta (S (Z.to_nat n)) p 0) as (p' & Hp' & ? & ? & Hfr & ?); [lia|lia|done|done|lia|].
    change (0 + 1) with 1 in Hp'. exists p'. rewrite Z.mul_0_r, Z.add_0_r in Hfr. split_and!; done.
Qed.

(** ** PageIndexTupleDelete *)
(** The index before the deletion of line [k] of line [i] of the new page. *)
Definition skip_index (k i : Z) : Z := if i <? k then i else i + 1.

Lemma line_pointer_sane p k : PageOK p -> 0 <= k < nline p -> lp_len (lp p k) <> 0 ->
  corrupt_line_pointer (lp_off (lp p k)) (lp_len (lp p k)) (pd_upper p) (pd_special p) = false.
Proof.
  intros Hok Hk Hs. destruct (ok_lps p Hok k Hk) as [_ Ho]. specialize (Ho Hs).
  pose proof (alen_bounds _ (lp_is_wf p k)). pose proof (lp_is_wf p k) as (?&?&?).
  unfold corrupt_line_pointer. rewrite MAXALIGN_aligned by lia. rewrite bool_decide_eq_true_2 by lia.
  repeat zcase; simpl; lia || done.
Qed.

(** Removing a line pointer from the array. *)
Lemma remove_line_ok p k : PageOK p -> 0 <= k < nline p ->
  let nbytes := pd_lower p - (SizeOfPageHeaderData + 4 * (k + 1)) in
  exists p1, (if 0 <? nbytes then memmove p (SizeOfPageHeaderData + 4 * k) (SizeOfPageHeaderData + 4 * (k + 1)) nbytes
              else Ok p) = Ok p1 /\ lenZ p1 = BLCKSZ /\ all_bytes p1 /\
    (forall a, 0 <= a < 24 \/ pd_lower p - 4 <= a -> nthZ p1 a = nthZ p a) /\
    (forall i, 0 <= i < nline p - 1 -> lp p1 i = lp p (skip_index k i)).
Proof.
  intros Hok Hk nbytes. pose proof (ok_nline p Hok) as [Hlv Hnb]. pose proof (ok_layout p Hok) as [].
  pose proof (ok_len p Hok) as Hl. pose proof (ok_bytes p Hok) as Hb. unfold nbytes, skip_index. psizes.
  destruct (Z.ltb_spec 0 (pd_lower p - (24 + 4 * (k + 1)))).
  - destruct (memcpy_spec p (24 + 4 * k) p (24 + 4 * (k + 1)) (pd_lower p - (24 + 4 * (k + 1)))) as (p1 & Hp & Hl1 & Hn1); [lia..|].
    exists p1. split_and!; [done|lia|by apply (all_bytes_memcpy _ _ _ _ _ _ Hb Hb Hp)| |].
    + intros a Ha. rewrite Hn1 by lia. by rewrite decide_False by lia.
    + intros i Hi. destruct (Z.ltb_spec i k); unfold lp; f_equal; apply get32_ext; intros d Hd; psizes.
      * by rewrite Hn1, decide_False by lia.
      * rewrite Hn1, decide_True by lia. f_equal. lia.
  - exists p. split_and!; try done. intros i Hi. rewrite (proj2 (Z.ltb_lt i k)) by lia. done.
Qed.

Lemma index_delete_mem p offnum : PageOK p -> index_page p -> 0 < offnum <= nline p ->
  let k := offnum - 1 in let l := lp p k in
  exists p', PageIndexTupleDelete p offnum = Ok p' /\ lenZ p' = BLCKSZ /\ all_bytes p' /\
    pd_lower p' = pd_lower p - 4 /\ pd_upper p' = pd_upper p + alen l /\ pd_special p' = pd_special p /\
    (forall a, pd_upper p <= a < lp_off l -> nthZ p' (a + alen l) = nthZ p a) /\
    (forall a, lp_off l + alen l <= a -> nthZ p' a = nthZ p a) /\
    (forall i, 0 <= i < nline p - 1 -> lp p' i = reloc (lp_off l) (alen l) (lp p (skip_index k i))).
Proof.
  intros Hok Hidx Hoff k l. pose proof (ok_nline p Hok) as [Hlv Hnb]. pose proof (ok_layout p Hok) as Hlay.
  assert (Hk : 0 <= k < nline p) by lia. pose proof (Hidx k Hk) as Hs.
  pose proof (line_pointer_sane p k Hok Hk Hs) as Hsane.
  destruct (offset_range p Hok k Hk Hs _ _ eq_refl eq_refl) as (? & ? & ? & ? & ?).
  assert (El : lp p k = l) by done. clearbody l. rewrite El in *.
  unfold PageIndexTupleDelete. rewrite layout_not_corrupt by done. fold (nline p).
  rewrite (proj2 (Z.leb_gt offnum 0)), (proj2 (Z.ltb_ge (nline p) offnum)) by lia. cbn [orb].
  rewrite load_lp_ok by (apply Hok || lia). rewrite bind_val. fold k. rewrite El. cbv zeta.
  unfold ItemIdGetLength, ItemIdGetOffset. rewrite Hsane. fold (alen l).
  destruct (remove_line_ok p k Hok Hk) as (p1 & Hp1 & Hl1 & Hb1 & Hn1 & Hlp1). rewrite Hp1, bind_val.
  destruct Hlay. psizes.
  assert (Hu1 : pd_upper p1 = pd_upper p) by (apply get16_agree; intros a Ha; apply Hn1; lia).
  assert (Hw1 : pd_lower p1 = pd_lower p) by (apply get16_agree; intros a Ha; apply Hn1; lia).
  destruct (close_gap_ok p1 (lp_off l) (alen l)) as (p2 & Hp2 & Hl2 & Hb2 & Hn2 & Hm2); [done|done|lia|lia|psizes; lia|].
  rewrite Hp2, bind_val. rewrite Hu1 in Hn2, Hm2.
  assert (Hu2 : pd_upper p2 = pd_upper p) by (rewrite <- Hu1; apply get16_agree; intros a Ha; apply Hn2; lia).
  assert (Hw2 : pd_lower p2 = pd_lower p) by (rewrite <- Hw1; apply get16_agree; intros a Ha; apply Hn2; lia).
  rewrite Hu2. unfold set_pd_upper, set_pd_lower.
  destruct (set_field p2 14 (pd_upper p + alen l)) as (Hl3 & Hb3 & Hg3 & Hn3); [done|lia|]. set (p3 := put16 p2 14 _) in *.
  assert (Hw3 : pd_lower p3 = pd_lower p) by (rewrite <- Hw2; apply get16_agree; intros a Ha; apply Hn3; lia). rewrite Hw3.
  destruct (set_field p3 12 (pd_lower p - 4)) as (Hl4 & Hb4 & Hg4 & Hn4); [done|lia|]. set (p4 := put16 p3 12 _) in *.
  assert (Hw4 : pd_lower p4 = pd_lower p - 4) by (unfold pd_lower at 1; rewrite Hg4; apply wrapu_small; unfold is_u; lia).
  destruct (adjust_lines_ok false p4 (nline p - 1) (lp_off l) (alen l)) as (p5 & Hp5 & Hl5 & Hb5 & Hn5 & Hlp5);
    [psizes; lia|done|by apply Hb4, Hb3|psizes; lia|].
  exists p5. rewrite Hp5. psizes.
  assert (Hm : forall a, 16 <= a < 24 \/ pd_upper p <= a -> nthZ p5 a = nthZ p2 a).
  { intros a Ha. rewrite Hn5, Hn4, Hn3 by lia. done. }
  split_and!; try done.
  - rewrite <- Hw4. apply get16_agree. intros a Ha. apply Hn5. lia.
  - transitivity (get16 p3 14); [|rewrite Hg3; apply wrapu_small; unfold is_u; lia].
    apply get16_agree. intros a Ha. rewrite Hn5, Hn4 by lia. done.
  - apply get16_agree. intros a Ha. rewrite Hm, Hn2, Hn1 by lia. done.
  - intros a Ha. rewrite Hm, Hm2, Hn1 by lia. done.
  - intros a Ha. rewrite Hm, Hn2, Hn1 by lia. done.
  - intros i Hi. assert (Hsk : 0 <= skip_index k i < nline p /\ skip_index k i <> k) by (unfold skip_index; zcase; lia).
    assert (Hlpi : lp p4 i = lp p (skip_index k i)).
    { rewrite <- Hlp1 by lia. apply lp_agree. intros a Ha. psizes. rewrite Hn4, Hn3, Hn2 by lia. done. }
    rewrite Hlp5, Hlpi by lia. apply shifted_reloc; [apply lp_is_wf|right; apply Hidx; lia|].
    intros Hsi Hle. destruct (ok_lps p Hok (skip_index k i)) as [_ Ho]; [lia|]. specialize (Ho Hsi). lia.
Qed.

Lemma skip_delete {A} (l : list A) k i : 0 <= k -> 0 <= i ->
  delete (Z.to_nat k) l !! Z.to_nat i = l !! Z.to_nat (skip_index k i).
Proof.
  intros. rewrite list_lookup_delete. f_equal. unfold skip_index. destruct (Z.ltb_spec i k); case_decide; lia.
Qed.

Lemma index_delete_ok p offnum : PageOK p -> index_page p -> 0 < offnum <= nline p ->
  exists p', PageIndexTupleDelete p offnum = Ok p' /\ PageOK p' /\ index_page p' /\
    items p' = delete (Z.to_nat (offnum - 1)) (items p) /\ nline p' = nline p - 1 /\
    pd_lower p' = pd_lower p - 4 /\ pd_upper p' = pd_upper p + alen (lp p (offnum - 1)) /\
    pd_special p' = pd_special p /\ (forall a, pd_special p <= a -> nthZ p' a = nthZ p a).
Proof.
  intros Hok Hidx Hoff. destruct (index_delete_mem p offnum Hok Hidx Hoff)
    as (p' & Hp' & Hl' & Hb' & Hlow & Hup & Hsp & Hbel & Habo & Hlp).
  pose proof (ok_nline p Hok) as [Hlv Hnb]. pose proof (ok_layout p Hok) as [].
  set (k := offnum - 1) in *. assert (Hk : 0 <= k < nline p) by lia. pose proof (Hidx k Hk) as Hs.
  destruct (offset_range p Hok k Hk Hs _ _ eq_refl eq_refl) as (? & ? & ? & ? & ?).
  assert (Hn' : nline p' = nline p - 1).
  { rewrite nline_val by (psizes; lia). rewrite Hlow, Hlv. psizes. Z.to_euclidean_division_equations. lia. }
  assert (Hsk : forall i, 0 <= i < nline p' -> 0 <= skip_index k i < nline p /\ skip_index k i <> k)
    by (intros i Hi; unfold skip_index; zcase; lia).
  destruct (relocated_page p p' k (alen (lp p k)) (lp_off (lp p k)) (alen (lp p k)) (skip_index k)) as [Hok' Habs];
    try done; try lia.
  - psizes. Z.to_euclidean_division_equations. lia.
  - intros i Hi _. split; [by apply Hsk|]. apply Hlp. lia.
  - intros i j ? ? ?. unfold skip_index. repeat zcase; lia.
  - intros i Hi Hki. by destruct (Hsk i Hi).
  - exists p'. split_and!; try done.
    + intros i Hi. rewrite Hlp by lia. unfold reloc. destruct (_ && _); cbn [lp_len]; apply Hidx; by apply Hsk.
    + apply items_eq; [lia| |].
      * pose proof (lenZ_items p ltac:(lia)). unfold lenZ in *. rewrite length_delete; [lia|].
        apply lookup_lt_is_Some. lia.
      * intros j Hj. replace j with (Z.to_nat (Z.of_nat j)) at 1 by lia. rewrite skip_delete by lia.
        rewrite Habs by (try apply Hsk; lia). destruct (Hsk (Z.of_nat j)); [lia|]. rewrite items_lookup by lia.
        rewrite Z2Nat.id by lia. done.
    + intros a Ha. apply Habo. lia.
Qed.

(** ** PageIndexTupleDeleteNoCompact *)
(** The line pointer becomes unused, or is dropped if it is the last one. *)
Definition delete_no_compact (k : nat) (L : list item) : list item :=
  if decide (S k < length L)%nat then <[k := unused_item]> L else take k L.

(** Marking or dropping the line pointer. *)
Lemma retire_line_ok p k : PageOK p -> 0 <= k < nline p ->
  exists p1 n1, (if k + 1 <? nline p then
       p1 ← store_lp p (PageGetItemId (k + 1)) (ItemIdSetUnused (lp p k)); Ok (p1, nline p)
     else Ok (set_pd_lower p (pd_lower p - 4), nline p - 1)) = Ok (p1, n1) /\
    n1 = (if k + 1 <? nline p then nline p else nline p - 1) /\
    lenZ p1 = BLCKSZ /\ all_bytes p1 /\ pd_lower p1 = SizeOfPageHeaderData + 4 * n1 /\
    pd_upper p1 = pd_upper p /\ pd_special p1 = pd_special p /\
    (forall a, pd_lower p <= a -> nthZ p1 a = nthZ p a) /\
    (forall i, 0 <= i < n1 -> lp p1 i = if decide (i = k) then mkItemId 0 LP_UNUSED 0 else lp p i).
Proof.
  intros Hok Hk. pose proof (ok_nline p Hok) as [Hlv Hnb]. pose proof (ok_layout p Hok) as [].
  destruct (Z.ltb_spec (k + 1) (nline p)).
  - destruct (store_lp_ok p (k + 1) (ItemIdSetUnused (lp p k))) as (p1 & -> & Hl1 & Hb1 & Hlp1 & Hn1);
      [apply Hok|apply Hok|lia|]. replace (k + 1 - 1) with k in Hlp1 by lia.
    assert (Hf : forall a, 0 <= a <= 22 -> get16 p1 a = get16 p a).
    { intros a ?. apply get16_agree. intros b ?. apply Hn1; unfold PageGetItemId; psizes; lia. }
    exists p1, (nline p). rewrite bind_val. split_and!; try done.
    + rewrite <- Hlv. apply Hf. lia.
    + apply Hf. lia.
    + apply Hf. lia.
    + intros a Ha. apply Hn1; unfold PageGetItemId; psizes; lia.
    + intros i Hi. case_decide as E; [by rewrite E|]. eapply (lp_other _ _ k); [lia|done|exact Hn1].
  - destruct (truncate_lines p (nline p - 1) Hok ltac:(lia)) as (Hok2 & _ & Hn2 & Hu2 & Hs2 & _ & Hm2).
    replace (pd_lower p - 4) with (SizeOfPageHeaderData + 4 * (nline p - 1)) by lia.
    pose proof (ok_nline _ Hok2) as [Hlv2 _].
    eexists _, _. split; [done|]. split_and!; try done; try apply Hok2; [lia| |].
    + intros a Ha. apply Hm2. psizes. lia.
    + intros i Hi. rewrite decide_False by lia. apply lp_agree. intros a Ha. apply Hm2. psizes. lia.
Qed.

Lemma no_compact_mem p offnum : PageOK p -> 0 < offnum <= nline p -> lp_len (lp p (offnum - 1)) <> 0 ->
  let k := offnum - 1 in
  exists p' n1, PageIndexTupleDeleteNoCompact p offnum = Ok p' /\
    n1 = (if k + 1 <? nline p then nline p else nline p - 1) /\ lenZ p' = BLCKSZ /\ all_bytes p' /\
    pd_lower p' = SizeOfPageHeaderData + 4 * n1 /\ pd_upper p' = pd_upper p + alen (lp p k) /\
    pd_special p' = pd_special p /\
    (forall a, pd_upper p <= a < lp_off (lp p k) -> nthZ p' (a + alen (lp p k)) = nthZ p a) /\
    (forall a, lp_off (lp p k) + alen (lp p k) <= a -> nthZ p' a = nthZ p a) /\
    (forall i, 0 <= i < n1 -> lp p' i = if decide (i = k) then mkItemId 0 LP_UNUSED 0
                                        else reloc (lp_off (lp p k)) (alen (lp p k)) (lp p i)).
Proof.
  intros Hok Hoff Hs k. pose proof (ok_nline p Hok) as [Hlv Hnb]. pose proof (ok_layout p Hok) as Hlay.
  fold k in Hs. assert (Hk : 0 <= k < nline p) by lia.
  pose proof (line_pointer_sane p k Hok Hk Hs) as Hsane.
  destruct (offset_range p Hok k Hk Hs _ _ eq_refl eq_refl) as (? & ? & ? & ? & ?).
  unfold PageIndexTupleDeleteNoCompact. rewrite layout_not_corrupt by done. fold (nline p).
  rewrite (proj2 (Z.leb_gt offnum 0)), (proj2 (Z.ltb_ge (nline p) offnum)) by lia. cbn [orb].
  rewrite load_lp_ok by (apply Hok || lia). rewrite bind_val. fold k. cbv zeta.
  unfold ItemIdGetLength, ItemIdGetOffset. rewrite Hsane. fold (alen (lp p k)).
  destruct (retire_line_ok p k Hok Hk) as (p1 & n1 & Hp1 & En1 & Hl1 & Hb1 & Hw1 & Hu1 & Hs1 & Hn1 & Hlp1).
  replace offnum with (k + 1) by lia. rewrite Hp1, bind_val. destruct Hlay.
  assert (Hn1r : 0 <= n1 <= nline p) by (destruct (_ <? _); lia).
  destruct (close_gap_ok p1 (lp_off (lp p k)) (alen (lp p k))) as (p2 & Hp2 & Hl2 & Hb2 & Hn2 & Hm2);
    [done|done|psizes; lia|lia|psizes; lia|]. rewrite Hp2, bind_val. rewrite Hu1 in Hn2, Hm2. psizes.
  assert (Hf2 : forall a, 0 <= a <= 22 -> get16 p2 a = get16 p1 a).
  { intros a ?. apply get16_agree. intros b ?. apply Hn2; lia. }
  assert (Hu2 : pd_upper p2 = pd_upper p) by (rewrite <- Hu1; apply Hf2; lia). rewrite Hu2. unfold set_pd_upper.
  destruct (set_field p2 14 (pd_upper p + alen (lp p k))) as (Hl3 & Hb3 & Hg3 & Hn3); [done|lia|]. set (p3 := put16 p2 14 _) in *.
  assert (Hw3 : pd_lower p3 = 24 + 4 * n1).
  { transitivity (get16 p2 12); [apply get16_agree; intros a Ha; apply Hn3; lia|]. rewrite <- Hw1. apply Hf2. lia. }
  destruct (adjust_lines_ok true p3 n1 (lp_off (lp p k)) (alen (lp p k))) as (p' & -> & Hl' & Hb' & Hn' & Hlp');
    [psizes; lia|done|by apply Hb3|psizes; lia|]. exists p', n1. psizes.
  assert (Hm : forall a, 24 + 4 * n1 <= a -> nthZ p' a = nthZ p2 a) by (intros a Ha; rewrite Hn', Hn3 by lia; done).
  split_and!; try done.
  - rewrite <- Hw3. apply get16_agree. intros a Ha. apply Hn'. lia.
  - transitivity (get16 p3 14); [apply get16_agree; intros a Ha; apply Hn'; lia|]. rewrite Hg3.
    apply wrapu_small. unfold is_u. lia.
  - transitivity (get16 p2 16); [apply get16_agree; intros a Ha; rewrite Hn', Hn3 by lia; done|]. rewrite <- Hs1. apply Hf2. lia.
  - intros a Ha. rewrite Hm, Hm2, Hn1 by lia. done.
  - intros a Ha. rewrite Hm, Hn2, Hn1 by lia. done.
  - intros i Hi. assert (Hlpi : lp p3 i = lp p1 i) by (apply lp_agree; intros a Ha; psizes; rewrite Hn3, Hn2 by lia; done).
    rewrite Hlp', Hlpi, Hlp1 by lia. case_decide; [done|]. apply shifted_reloc; [apply lp_is_wf|by left|].
    intros Hsi Hle. destruct (ok_lps p Hok i) as [_ Ho]; [lia|]. specialize (Ho Hsi). lia.
Qed.

Lemma no_compact_ok p offnum : PageOK p -> 0 < offnum <= nline p -> lp_len (lp p (offnum - 1)) <> 0 ->
  exists p', PageIndexTupleDeleteNoCompact p offnum = Ok p' /\ PageOK p' /\
    items p' = delete_no_compact (Z.to_nat (offnum - 1)) (items p) /\
    pd_upper p' = pd_upper p + alen (lp p (offnum - 1)) /\ pd_special p' = pd_special p /\
    (forall a, pd_special p <= a -> nthZ p' a = nthZ p a).
Proof.
  intros Hok Hoff Hs. destruct (no_compact_mem p offnum Hok Hoff Hs)
    as (p' & n1 & Hp' & En1 & Hl' & Hb' & Hlow & Hup & Hsp & Hbel & Habo & Hlp).
  pose proof (ok_nline p Hok) as [Hlv Hnb]. pose proof (ok_layout p Hok) as [].
  set (k := offnum - 1) in *. assert (Hk : 0 <= k < nline p) by lia.
  destruct (offset_range p Hok k Hk Hs _ _ eq_refl eq_refl) as (? & ? & ? & ? & ?).
  assert (Hn1 : 0 <= n1 <= nline p) by (rewrite En1; zcase; lia).
  assert (Hnl : nline p' = n1).
  { rewrite nline_val by (psizes; lia). rewrite Hlow. psizes. Z.to_euclidean_division_equations. lia. }
  destruct (relocated_page p p' k (alen (lp p k)) (lp_off (lp p k)) (alen (lp p k)) (fun i => i)) as [Hok' Habs];
    rewrite ?Hnl; try done; try lia.
  - psizes. Z.to_euclidean_division_equations. lia.
  - intros i Hi Hne. split; [lia|]. rewrite Hlp, decide_False by (done || lia). done.
  - intros i Hi ->. rewrite Hlp, decide_True by (done || lia). split; [by split|by left].
  - rewrite Hnl in Habs. exists p'. split_and!; try done; [|intros a Ha; apply Habo; lia].
    pose proof (lenZ_items p ltac:(lia)) as Hl. unfold delete_no_compact, lenZ in *. apply items_eq; [lia| |].
    + rewrite Hnl, En1. unfold lenZ. case_decide; [rewrite length_insert|rewrite length_take]; zcase; lia.
    + rewrite Hnl. intros j Hj. destruct (decide (Z.of_nat j = k)) as [E|E].
      * assert (Hlj : lp p' (Z.of_nat j) = mkItemId 0 LP_UNUSED 0) by (rewrite Hlp, decide_True by (done || lia); done).
        rewrite Hlj, decide_True by (revert En1; zcase; lia).
        replace j with (Z.to_nat k) by lia. by rewrite list_lookup_insert_eq by lia.
      * rewrite Habs by (done || lia). case_decide.
        { rewrite list_lookup_insert_ne by lia. apply items_lookup. lia. }
        rewrite lookup_take_lt by (revert En1; zcase; lia). apply items_lookup. lia.
Qed.

(** ** PageIndexTupleOverwrite *)
Section overwrite.
Context (p : Page) (Hok : PageOK p) (k diff : Z) (Hk : 0 <= k < nline p) (Hs : lp_len (lp p k) <> 0).
Context (offset : Z) (Eoff : lp_off (lp p k) = offset).
Context (Hdiff : diff <= alen (lp p k)) (Hroom : pd_lower p <= pd_upper p + diff) (Hmod : diff `mod` 8 = 0).

(** Moving the tuples below the target. *)
Lemma overwrite_move : exists p3,
  (if negb (diff =? 0) then
     p1 ← memmove p (pd_upper p + diff) (pd_upper p) (offset - pd_upper p);
     shift_offsets (S (Z.to_nat (nline p))) true (set_pd_upper p1 (pd_upper p1 + diff)) FirstOffsetNumber (nline p) offset diff
   else Ok p) = Ok p3 /\ lenZ p3 = BLCKSZ /\ all_bytes p3 /\ pd_lower p3 = pd_lower p /\ pd_upper p3 = pd_upper p + diff /\
  pd_special p3 = pd_special p /\
  (forall a, pd_upper p <= a < offset -> nthZ p3 (a + diff) = nthZ p a) /\
  (forall a, offset + alen (lp p k) <= a -> nthZ p3 a = nthZ p a) /\
  (forall i, 0 <= i < nline p -> lp p3 i = reloc offset diff (lp p i)).
Proof.
  pose proof (ok_nline p Hok) as [Hlv Hnb]. pose proof (ok_layout p Hok) as [].
  pose proof (ok_len p Hok) as Hl. pose proof (ok_bytes p Hok) as Hb.
  destruct (offset_range p Hok k Hk Hs _ _ Eoff eq_refl) as (? & ? & ? & ? & ?).
  destruct (Z.eqb_spec diff 0) as [E|E]; cbn [negb].
  - exists p. rewrite E, Z.add_0_r. split_and!; try done.
    + intros a ?. by rewrite Z.add_0_r.
    + intros i Hi. unfold reloc. destruct (_ && _); [|done]. rewrite Z.add_0_r. apply itemid_eta.
  - psizes. destruct (memcpy_spec p (pd_upper p + diff) p (pd_upper p) (offset - pd_upper p)) as (p1 & Hp1 & Hl1 & Hn1); [lia..|].
    unfold memmove. rewrite Hp1, bind_val. pose proof (all_bytes_memcpy _ _ _ _ _ _ Hb Hb Hp1) as Hb1.
    assert (Hu1 : pd_upper p1 = pd_upper p).
    { apply get16_agree. intros a Ha. rewrite Hn1, decide_False by lia. done. }
    rewrite Hu1. unfold set_pd_upper. destruct (set_field p1 14 (pd_upper p + diff)) as (Hl2 & Hb2 & Hg2 & Hn2); [psizes; lia|lia|].
    set (p2 := put16 p1 14 _) in *. change FirstOffsetNumber with (0 + 1).
    destruct (shift_offsets_ok true (nline p) offset diff (S (Z.to_nat (nline p))) p2 0)
      as (p3 & -> & Hl3 & Hb3 & Hn3 & Hlp3); [lia|psizes; lia|done|by apply Hb2|lia|].
    exists p3. psizes. assert (Hm : forall a, 16 <= a < 24 \/ pd_lower p <= a -> nthZ p3 a = nthZ p1 a).
    { intros a Ha. rewrite Hn3, Hn2 by lia. done. }
    split_and!; try done.
    + apply get16_agree. intros a Ha. rewrite Hn3, Hn2, Hn1, decide_False by lia. done.
    + transitivity (get16 p2 14); [apply get16_agree; intros a Ha; apply Hn3; lia|]. rewrite Hg2. apply wrapu_small. unfold is_u. lia.
    + apply get16_agree. intros a Ha. rewrite Hm, Hn1, decide_False by lia. done.
    + intros a Ha. rewrite Hm, Hn1, decide_True by lia. f_equal. lia.
    + intros a Ha. rewrite Hm, Hn1, decide_False by lia. done.
    + intros i Hi. rewrite Hlp3 by lia.
      assert (lp p2 i = lp p i) as ->.
      { apply lp_agree. intros a Ha. psizes. rewrite Hn2, Hn1, decide_False by lia. done. }
      apply shifted_reloc; [apply lp_is_wf|by left|]. intros Hsi Hle.
      destruct (ok_lps p Hok i) as [_ Ho]; [lia|]. specialize (Ho Hsi). psizes. lia.
Qed.
End overwrite.

(** The whole operation. *)
Lemma overwrite_mem p offnum newtup : PageOK p -> 0 < offnum <= nline p -> lp_len (lp p (offnum - 1)) <> 0 ->
  all_bytes newtup -> 0 < lenZ newtup < 2 ^ 31 - 7 ->
  let k := offnum - 1 in
  let diff := alen (lp p k) - MAXALIGN (lenZ newtup) in
  let offset := lp_off (lp p k) in
  (pd_upper p + diff < pd_lower p -> PageIndexTupleOverwrite p offnum newtup (lenZ newtup) = Ok (p, false)) /\
  (pd_lower p <= pd_upper p + diff -> exists p', PageIndexTupleOverwrite p offnum newtup (lenZ newtup) = Ok (p', true) /\
     lenZ p' = BLCKSZ /\ all_bytes p' /\ pd_lower p' = pd_lower p /\ pd_upper p' = pd_upper p + diff /\
     pd_special p' = pd_special p /\
     (forall a, pd_upper p <= a < offset -> nthZ p' (a + diff) = nthZ p a) /\
     (forall a, offset + alen (lp p k) <= a -> nthZ p' a = nthZ p a) /\
     (forall d, 0 <= d < lenZ newtup -> nthZ p' (offset + diff + d) = nthZ newtup d) /\
     (forall i, 0 <= i < nline p -> lp p' i = if decide (i = k) then mkItemId (offset + diff) (lp_flags (lp p k)) (lenZ newtup)
                                              else reloc offset diff (lp p i))).
Proof.
  intros Hok Hoff Hs Hbn Hsz k diff offset. pose proof (ok_nline p Hok) as [Hlv Hnb].
  pose proof (ok_layout p Hok) as Hlay. fold k in Hs. assert (Hk : 0 <= k < nline p) by lia.
  pose proof (line_pointer_sane p k Hok Hk Hs) as Hsane. pose proof (MAXALIGN_bounds (lenZ newtup) ltac:(lia)) as Hma.
  destruct (offset_range p Hok k Hk Hs _ _ eq_refl eq_refl) as (? & ? & ? & ? & ?).
  assert (Eo : lp_off (lp p k) = offset) by done. clearbody offset.
  assert (Ed : alen (lp p k) - MAXALIGN (lenZ newtup) = diff) by done. clearbody diff. rewrite Eo in *.
  unfold PageIndexTupleOverwrite. rewrite layout_not_corrupt by done. fold (nline p).
  rewrite (proj2 (Z.leb_gt offnum 0)), (proj2 (Z.ltb_ge (nline p) offnum)) by lia. cbn [orb].
  rewrite load_lp_ok by (apply Hok || lia). rewrite bind_val. fold k. cbv zeta.
  unfold ItemIdGetLength, ItemIdGetOffset. rewrite Eo, Hsane. fold (alen (lp p k)). destruct Hlay.
  psizes. rewrite (wraps_small 32 (MAXALIGN _)), wraps_small, wrapu_small by (unfold is_s, is_u; lia). rewrite Ed.
  destruct (Z.ltb_spec (alen (lp p k) + (pd_upper p - pd_lower p)) (MAXALIGN (lenZ newtup))); (split; [|intros Hfit; try lia]);
    [done|intros; lia|].
  assert (Hmd : diff `mod` 8 = 0) by (Z.to_euclidean_division_equations; lia).
  destruct (overwrite_move p Hok k diff Hk Hs offset Eo) as (p3 & Hp3 & Hl3 & Hb3 & Hw3 & Hu3 & Hs3 & Hbel & Habo & Hlp3); [lia|lia|].
  rewrite Hp3, bind_val. rewrite load_lp_ok, bind_val by (done || (psizes; lia)). fold k.
  destruct (store_lp_ok p3 offnum (mkItemId (offset + diff) (lp_flags (lp p3 k)) (lenZ newtup)))
    as (p4 & -> & Hl4 & Hb4 & Hlp4 & Hn4); [done|done|psizes; lia|]. rewrite bind_val. fold k in Hlp4.
  rewrite Z.mod_small by lia. psizes.
  destruct (memcpy_spec p4 (offset + diff) newtup 0 (lenZ newtup)) as (p5 & Hp5 & Hl5 & Hn5); [lia..|]. rewrite Hp5, bind_val.
  unfold PageGetItemId in Hn4. psizes. exists p5. split; [done|].
  assert (Hfl : lp_flags (lp p3 k) = lp_flags (lp p k)) by (rewrite Hlp3 by done; unfold reloc; by destruct (_ && _)).
  rewrite itemid_unpack_pack, Hfl in Hlp4.
  2: { rewrite Hfl. pose proof (lp_is_wf p k) as (?&?&?). unfold lp_wf; cbn [lp_off lp_flags lp_len]. lia. }
  assert (Hm : forall a, 0 <= a < 24 \/ pd_lower p <= a -> a < offset + diff \/ offset + diff + lenZ newtup <= a ->
    nthZ p5 a = nthZ p3 a) by (intros a ? ?; rewrite Hn5, decide_False, Hn4 by lia; done).
  split_and!; [lia|by apply (all_bytes_memcpy _ _ _ _ _ _ Hb4 Hbn Hp5)|..].
  - rewrite <- Hw3. apply get16_agree. intros a Ha. apply Hm; lia.
  - rewrite <- Hu3. apply get16_agree. intros a Ha. apply Hm; lia.
  - rewrite <- Hs3. apply get16_agree. intros a Ha. apply Hm; lia.
  - intros a Ha. rewrite Hm by lia. by apply Hbel.
  - intros a Ha. rewrite Hm by lia. by apply Habo.
  - intros d Hd. rewrite Hn5, decide_True by lia. f_equal. lia.
  - intros i Hi. assert (lp p5 i = lp p4 i) as ->.
    { apply lp_agree. intros a Ha. psizes. rewrite Hn5, decide_False by lia. done. }
    case_decide as E; [by rewrite E|]. rewrite <- Hlp3 by done. apply lp_agree. intros a Ha. psizes. apply Hn4; lia.
Qed.

Lemma overwrite_ok p offnum newtup : PageOK p -> 0 < offnum <= nline p -> lp_len (lp p (offnum - 1)) <> 0 ->
  all_bytes newtup -> 0 < lenZ newtup < 2 ^ 31 - 7 ->
  let k := offnum - 1 in
  let diff := alen (lp p k) - MAXALIGN (lenZ newtup) in
  if pd_upper p + diff <? pd_lower p then PageIndexTupleOverwrite p offnum newtup (lenZ newtup) = Ok (p, false)
  else exists p', PageIndexTupleOverwrite p offnum newtup (lenZ newtup) = Ok (p', true) /\ PageOK p' /\
    items p' = <[Z.to_nat k := mkItem (lp_flags (lp p k)) 0 newtup]> (items p) /\
    pd_lower p' = pd_lower p /\ pd_upper p' = pd_upper p + diff /\ pd_special p' = pd_special p /\
    (forall a, pd_special p <= a -> nthZ p' a = nthZ p a).
Proof.
  intros Hok Hoff Hs Hbn Hsz k diff. destruct (overwrite_mem p offnum newtup Hok Hoff Hs Hbn Hsz) as [Hno Hyes].
  fold k in Hno, Hyes, Hs. fold diff in Hno, Hyes. destruct (Z.ltb_spec (pd_upper p + diff) (pd_lower p)); [by apply Hno|].
  destruct Hyes as (p' & Hp' & Hl' & Hb' & Hlow & Hup & Hsp & Hbel & Habo & Hnew & Hlp); [done|]. clear Hno.
  pose proof (ok_nline p Hok) as [Hlv Hnb]. pose proof (ok_layout p Hok) as []. assert (Hk : 0 <= k < nline p) by lia.
  destruct (offset_range p Hok k Hk Hs _ _ eq_refl eq_refl) as (? & ? & ? & ? & ?).
  pose proof (MAXALIGN_bounds (lenZ newtup) ltac:(lia)) as Hma.
  assert (Hnl : nline p' = nline p) by by apply nline_lower.
  assert (Hlpk : lp p' k = mkItemId (lp_off (lp p k) + diff) (lp_flags (lp p k)) (lenZ newtup)).
  { rewrite Hlp, decide_True by done. done. }
  assert (Hmd : diff `mod` 8 = 0) by (unfold diff; Z.to_euclidean_division_equations; lia).
  assert (Hfu : lp_flags (lp p k) <> LP_UNUSED) by (intros E; apply Hs; by apply (ok_lps p Hok k Hk)).
  destruct (relocated_page p p' k diff (lp_off (lp p k)) (alen (lp p k)) (fun i => i)) as [Hok' Habs];
    rewrite ?Hnl, ?Hlow; try done; try (unfold diff in *; lia).
  - intros i Hi Hne. split; [lia|]. rewrite Hlp, decide_False by done. done.
  - intros i Hi ->. rewrite Hlpk. unfold lp_ok; cbn [lp_off lp_flags lp_len].
    change (alen (mkItemId _ _ (lenZ newtup))) with (MAXALIGN (lenZ newtup)).
    split; [|right; unfold diff; lia]. split; [done|]. intros _.
    split_and!; unfold diff in *; try lia. Z.to_euclidean_division_equations. lia.
  - exists p'. split_and!; try done; [|intros a Ha; apply Habo; lia].
    pose proof (lenZ_items p ltac:(lia)) as Hl. unfold lenZ in Hl. apply items_eq; [lia|unfold lenZ; rewrite length_insert; lia|].
    rewrite Hnl in *. intros j Hj. destruct (decide (Z.of_nat j = k)) as [E|E].
    + rewrite E, Hlpk. replace j with (Z.to_nat k) by lia. rewrite list_lookup_insert_eq by lia. f_equal.
      unfold abs_lp; cbn [lp_off lp_flags lp_len]. rewrite (proj2 (Z.eqb_neq _ _) Hfu), (proj2 (Z.eqb_neq (lenZ newtup) 0)) by lia.
      f_equal. psizes. apply list_eq_nthZ; [by rewrite lenZ_bytes_at by (unfold diff in *; lia)|].
      intros d Hd. rewrite nthZ_bytes_at by (unfold diff in *; lia). symmetry. by apply Hnew.
    + rewrite list_lookup_insert_ne by lia. rewrite Habs by (done || lia). by apply items_lookup.
Qed.

(** ** The properties *)
(** C4. Deleting a tuple from an index page.  PageIndexTupleDelete removes the item from
    the list of items and its space from the page; PageIndexTupleDeleteNoCompact leaves
    an unused line pointer in its place, or drops it when it is the last one.  Both keep
    all other items with their contents, the layout invariant and the special space, and
    both reject an offset number that is not on the page. *)
Theorem page_index_delete p offnum : PageOK p ->
  (index_page p -> 0 < offnum <= nline p -> exists p', PageIndexTupleDelete p offnum = Ok p' /\ PageOK p' /\
     index_page p' /\ items p' = delete (Z.to_nat (offnum - 1)) (items p) /\
     pd_lower p' = pd_lower p - 4 /\ pd_upper p' = pd_upper p + alen (lp p (offnum - 1)) /\
     pd_special p' = pd_special p /\ (forall a, pd_special p <= a -> nthZ p' a = nthZ p a)) /\
  (0 < offnum <= nline p -> lp_len (lp p (offnum - 1)) <> 0 ->
     exists p', PageIndexTupleDeleteNoCompact p offnum = Ok p' /\ PageOK p' /\
     items p' = delete_no_compact (Z.to_nat (offnum - 1)) (items p) /\
     pd_upper p' = pd_upper p + alen (lp p (offnum - 1)) /\
     pd_special p' = pd_special p /\ (forall a, pd_special p <= a -> nthZ p' a = nthZ p a)) /\
  (offnum <= 0 \/ nline p < offnum ->
     PageIndexTupleDelete p offnum = Err "invalid index offnum" /\
     PageIndexTupleDeleteNoCompact p offnum = Err "invalid index offnum").
Proof.
  intros Hok. split_and!.
  - intros Hidx Hoff. destruct (index_delete_ok p offnum Hok Hidx Hoff) as (p' & ? & ? & ? & ? & ? & ? & ? & ? & ?).
    exists p'. split_and!; done.
  - intros Hoff Hs. by apply no_compact_ok.
  - intros Hbad. unfold PageIndexTupleDelete, PageIndexTupleDeleteNoCompact. rewrite layout_not_corrupt by apply Hok.
    fold (nline p). assert ((offnum <=? 0) || (nline p <? offnum) = true) as ->; [|done].
    repeat zcase; simpl; lia || done.
Qed.

(** PageIndexTupleOverwrite replaces the contents of one item, keeping its flags, its
    position and all other items, whether the new tuple is shorter, longer or of the same
    aligned size; it returns false and leaves the page alone exactly if the new tuple
    does not fit. *)
Theorem page_index_overwrite p offnum newtup : PageOK p -> 0 < offnum <= nline p ->
  lp_len (lp p (offnum - 1)) <> 0 -> all_bytes newtup -> 0 < lenZ newtup < 2 ^ 31 - 7 ->
  let k := offnum - 1 in
  let diff := alen (lp p k) - MAXALIGN (lenZ newtup) in
  if pd_upper p + diff <? pd_lower p then PageIndexTupleOverwrite p offnum newtup (lenZ newtup) = Ok (p, false)
  else exists p', PageIndexTupleOverwrite p offnum newtup (lenZ newtup) = Ok (p', true) /\ PageOK p' /\
    items p' = <[Z.to_nat k := mkItem (lp_flags (lp p k)) 0 newtup]> (items p) /\
    pd_lower p' = pd_lower p /\ pd_upper p' = pd_upper p + diff /\ pd_special p' = pd_special p /\
    (forall a, pd_special p <= a -> nthZ p' a = nthZ p a).
Proof. exact (overwrite_ok p offnum newtup). Qed.

(** A concrete index page with four tuples. *)
Definition sample_index : Page :=
  match (p ← PageInit (replicate 8192 77) BLCKSZ 16;
         '(p, _) ← PageAddItemExtended p (replicate 16 1) 16 1 0;
         '(p, _) ← PageAddItemExtended p (replicate 41 2) 41 1 0;
         '(p, _) ← PageAddItemExtended p (replicate 24 3) 24 2 0;
         '(p, _) ← PageAddItemExtended p (replicate 17 4) 17 4 0;
         Ok p) with
  | Ok p => p
  | _ => []
  end.

Lemma sample_index_ok : PageOK sample_index.
Proof. apply page_okb_sound. vm_compute. reflexivity. Qed.

Lemma sample_index_page : index_page sample_index.
Proof.
  assert (H : forallb (fun i => negb (lp_len (lp sample_index i) =? 0)) (seqZ 0 (nline sample_index)) = true)
    by (vm_compute; reflexivity).
  intros i Hi. apply (forallb_seqZ _ _ H) in Hi. by apply negb_true_iff, Z.eqb_neq in Hi.
Qed.

Lemma page_index_delete_witness :
  (exists p', PageIndexTupleDelete sample_index 2 = Ok p' /\ items p' = delete (Z.to_nat (2 - 1)) (items sample_index)) /\
  (exists p', PageIndexTupleDeleteNoCompact sample_index 2 = Ok p' /\
     items p' = delete_no_compact (Z.to_nat (2 - 1)) (items sample_index)) /\
  PageIndexTupleDelete sample_index 9 = Err "invalid index offnum".
Proof.
  destruct (page_index_delete sample_index 2 sample_index_ok) as (H1 & H2 & _).
  destruct (page_index_delete sample_index 9 sample_index_ok) as (_ & _ & H3).
  destruct (H1 sample_index_page) as (p1 & Hp1 & _ & _ & Hi1 & _); [vm_compute; split; [reflexivity|discriminate]|].
  destruct H2 as (p2 & Hp2 & _ & Hi2 & _); [vm_compute; split; [reflexivity|discriminate]|vm_compute; discriminate|].
  destruct H3 as [H3 _]; [right; vm_compute; reflexivity|].
  split; [exists p1; split; assumption|]. split; [exists p2; split; assumption|exact H3].
Defined.

Lemma page_index_overwrite_witness :
  exists p', PageIndexTupleOverwrite sample_index 2 (replicate 50 9) (lenZ (replicate 50 9)) = Ok (p', true) /\
    items p' = <[Z.to_nat (2 - 1) := mkItem (lp_flags (lp sample_index (2 - 1))) 0 (replicate 50 9)]> (items sample_index).
Proof.
  assert (Hc : (pd_upper sample_index + (alen (lp sample_index (2 - 1)) - MAXALIGN (lenZ (replicate 50 9))) <?
    pd_lower sample_index) = false) by (vm_compute; reflexivity).
  assert (H1 : 0 < 2 <= nline sample_index) by (vm_compute; split; [reflexivity|discriminate]).
  assert (H2 : lp_len (lp sample_index (2 - 1)) <> 0) by (vm_compute; discriminate).
  assert (H3 : all_bytes (replicate 50 9)) by (apply all_bytes_b; reflexivity).
  assert (H4 : 0 < lenZ (replicate 50 9) < 2 ^ 31 - 7) by (split; reflexivity).
  pose proof (page_index_overwrite sample_index 2 (replicate 50 9) sample_index_ok H1 H2 H3 H4) as H.
  cbv zeta in H. rewrite Hc in H. destruct H as (p' & Hp' & _ & Hi & _). exists p'. split; [exact Hp'|exact Hi].
Defined.
