(* ===== verification/BufPageMulti.v ===== *)
(** PageIndexMultiDelete: deleting many tuples from an index page at once.

    The operation is shown to be deletion of the listed positions from the list of
    items, whichever of its two code paths is taken (retail deletion from the back for
    at most two items, otherwise a scan that collects the line pointers to keep, one
    copy of the new array and a compaction), and to reject exactly the arrays of item
    numbers that are not strictly increasing positions of the page. *)
From S2P Require Import Prelude ByteMem BufPage BufPageLayout BufPageCompact BufPageSpec BufPageIndex.

(** ** The abstract operation: drop the elements at the 1-based positions [nos] *)
Fixpoint delete_nos {A} (pos : Z) (nos : list Z) (l : list A) : list A :=
  match l with
  | [] => []
  | x :: r => if decide (pos ∈ nos) then delete_nos (pos + 1) nos r else x :: delete_nos (pos + 1) nos r
  end.

(** Item numbers the operation accepts. *)
Definition item_numbers (n : Z) (nos : list Z) : Prop :=
  StronglySorted Z.lt nos /\ Forall (fun no => 1 <= no <= n) nos.

Lemma delete_nos_none {A} pos nos (l : list A) : (forall no, no ∈ nos -> no < pos) -> delete_nos pos nos l = l.
Proof.
  revert pos. induction l as [|x l IH]; intros pos H; simpl; [done|].
  rewrite decide_False by (intros Hp; specialize (H _ Hp); lia). f_equal. apply IH. intros no Hno. specialize (H no Hno). lia.
Qed.

(** Deleting the last number first, as the retail path does. *)
Lemma delete_nos_snoc {A} pos nos k (l : list A) :
  pos <= k -> (forall no, no ∈ nos -> no < k) ->
  delete_nos pos (nos ++ [k]) l = delete_nos pos nos (delete (Z.to_nat (k - pos)) l).
Proof.
  revert pos. induction l as [|x l IH]; intros pos Hk Hn; simpl; [done|].
  destruct (decide (pos = k)) as [->|Hne].
  - rewrite decide_True by set_solver. rewrite Z.sub_diag. change (delete (Z.to_nat 0) (x :: l)) with l.
    rewrite !delete_nos_none; [|intros no Hno; specialize (Hn no Hno); lia|].
    { done. }
    intros no [Hno|Hno]%elem_of_app; [specialize (Hn no Hno); lia|]. apply list_elem_of_singleton in Hno. lia.
  - replace (Z.to_nat (k - pos)) with (S (Z.to_nat (k - (pos + 1)))) by lia. simpl.
    destruct (decide (pos ∈ nos)) as [Hi|Hi].
    + rewrite decide_True by set_solver. apply IH; [lia|done].
    + rewrite decide_False by set_solver. f_equal. apply IH; [lia|done].
Qed.

Definition keep (nos : list Z) (k : Z) : list Z := filter (fun i => i + 1 ∉ nos) (seqZ 0 k).

Lemma delete_nos_keep {A} (f : Z -> A) nos n : 0 <= n ->
  delete_nos 1 nos (map f (seqZ 0 n)) = map f (keep nos n).
Proof.
  intros Hn. unfold keep. enough (H : forall m s, delete_nos (s + 1) nos (map f (seqZ s (Z.of_nat m))) =
    map f (filter (fun i => i + 1 ∉ nos) (seqZ s (Z.of_nat m)))).
  { specialize (H (Z.to_nat n) 0). by rewrite Z2Nat.id in H by lia. }
  induction m as [|m IH]; intros s; [done|]. rewrite seqZ_cons by lia. replace (Z.pred (Z.of_nat (S m))) with (Z.of_nat m) by lia.
  replace (Z.succ s) with (s + 1) by lia. cbn [map delete_nos]. rewrite filter_cons, IH. repeat case_decide; simpl; tauto || done.
Qed.

Lemma keep_snoc nos k : 0 <= k -> keep nos (k + 1) = keep nos k ++ (if decide (k + 1 ∉ nos) then [k] else []).
Proof. intros. unfold keep. rewrite seqZ_snoc, filter_app, filter_cons, filter_nil by done. by case_decide. Qed.

Lemma elem_of_keep nos k i : i ∈ keep nos k <-> 0 <= i < k /\ i + 1 ∉ nos.
Proof. unfold keep. rewrite list_elem_of_filter, elem_of_seqZ. intuition lia. Qed.

(** ** The bytes of the new line pointer array *)
Lemma itemids_bytes_len l : lenZ (itemids_bytes l) = 4 * lenZ l.
Proof.
  unfold itemids_bytes, lenZ. induction l as [|x l IH]; cbn [map concat]; [done|]. rewrite length_app.
  change (length (put32 (replicate 4 0) 0 (itemid_pack x))) with 4%nat. cbn [length]. lia.
Qed.

Lemma itemids_bytes_all l : all_bytes (itemids_bytes l).
Proof.
  unfold itemids_bytes, all_bytes. induction l as [|x l IH]; cbn [map concat]; [constructor|]. apply Forall_app. split; [|done].
  apply all_bytes_put32, all_bytes_b. done.
Qed.

Lemma itemids_bytes_nth l (j : nat) x d : l !! j = Some x -> 0 <= d < 4 ->
  nthZ (itemids_bytes l) (4 * Z.of_nat j + d) = nthZ (put32 (replicate 4 0) 0 (itemid_pack x)) d.
Proof.
  intros Hx Hd. unfold itemids_bytes. revert j Hx. induction l as [|y l IH]; intros j Hx; [done|]. cbn [map concat].
  assert (H4 : Z.of_nat (length (put32 (replicate 4 0) 0 (itemid_pack y))) = 4) by done.
  rewrite nthZ_app by lia. rewrite H4. destruct j as [|j]; simpl in Hx.
  - simplify_eq. by rewrite decide_True by lia.
  - rewrite decide_False by lia. rewrite <- (IH j Hx). f_equal. lia.
Qed.

(** Writing the array puts its entries in the page. *)
Lemma write_lines_ok p L : lenZ p = BLCKSZ -> all_bytes p -> lenZ L <= max_lines -> Forall lp_wf L ->
  exists p1, memcpy p SizeOfPageHeaderData (itemids_bytes L) 0 (lenZ L * 4) = Ok p1 /\ lenZ p1 = BLCKSZ /\ all_bytes p1 /\
    (forall a, 0 <= a < 24 \/ SizeOfPageHeaderData + 4 * lenZ L <= a -> nthZ p1 a = nthZ p a) /\
    (forall (j : nat) l, L !! j = Some l -> lp p1 (Z.of_nat j) = l).
Proof.
  intros Hl Hb Hm Hwf. pose proof (itemids_bytes_len L) as Hil. pose proof (lenZ_nonneg L). psizes.
  destruct (memcpy_spec p 24 (itemids_bytes L) 0 (lenZ L * 4)) as (p1 & Hp & Hl1 & Hn1); [lia..|].
  exists p1. split_and!; [done|lia|by apply (all_bytes_memcpy _ _ _ _ _ _ Hb (itemids_bytes_all L) Hp)| |].
  - intros a Ha. rewrite Hn1, decide_False by lia. done.
  - intros j l Hj. pose proof (lookup_lt_Some _ _ _ Hj) as Hlt. unfold lenZ in *.
    assert (get32 p1 (24 + 4 * Z.of_nat j) = get32 (put32 (replicate 4 0) 0 (itemid_pack l)) 0) as Hg.
    { apply get32_ext. intros d Hd. change (0 + d) with d. rewrite Hn1, decide_True by lia. rewrite <- (itemids_bytes_nth L j l d Hj Hd). f_equal. lia. }
    unfold lp. psizes. rewrite Hg, get32_put32 by (apply itemid_pack_is_u || done). apply itemid_unpack_pack.
    by apply (Forall_lookup_1 _ _ _ _ Hwf Hj).
Qed.

(** ** The scan *)
Lemma sorted_middle pre no post : StronglySorted Z.lt (pre ++ no :: post) ->
  (forall x, x ∈ pre -> x < no) /\ (forall y, y ∈ post -> no < y).
Proof.
  induction pre as [|x pre IH]; simpl; intros Hs; inversion Hs as [|? ? Hs' Hf]; subst; rewrite Forall_forall in Hf.
  - split; [intros x Hx; inversion Hx|]. by apply Hf.
  - destruct (IH Hs') as [H1 H2]. split; [|done]. intros y [->|Hy]%elem_of_cons; [|by apply H1]. apply Hf. set_solver.
Qed.

Lemma list_filter_ext_elem {A} (P Q : A -> Prop) `{!forall x, Decision (P x), !forall x, Decision (Q x)} (l : list A) :
  (forall x, x ∈ l -> P x <-> Q x) -> filter P l = filter Q l.
Proof.
  induction l as [|x l IH]; intros Hpq; [done|]. rewrite !filter_cons, IH by (intros y Hy; apply Hpq; by right).
  pose proof (Hpq x ltac:(by left)). repeat case_decide; tauto || done.
Qed.

Section multi.
Context (p : Page) (Hok : PageOK p) (Hidx : index_page p) (Hmax : nline p <= MaxIndexTuplesPerPage).
Context (nos : list Z).

Definition new_entry (j : nat) (i : Z) : itemIdCompactData := mkCompact (Z.of_nat j) (lp_off (lp p i)) (alen (lp p i)).

(** The state after [k] line pointers, [pre] being the item numbers met so far. *)
Record multi_inv (k : Z) (pre : list Z) (s : multi_state) : Prop := {
  mu_pre : exists post, nos = pre ++ post;
  mu_next : d_nextitm s = lenZ pre;
  mu_numbers : item_numbers k pre;
  mu_rest : item_numbers (nline p) nos -> forall no, no ∈ nos -> no ∉ pre -> k < no;
  mu_base : d_base s = imap new_entry (keep pre k);
  mu_ids : d_newitemids s = map (lp p) (keep pre k);
  mu_total : d_totallen s = total (d_base s);
  mu_presorted : d_presorted s = true ->
    StronglySorted (fun a b => itemoff b < itemoff a) (d_base s) /\
    Forall (fun it => d_last_offset s <= itemoff it) (d_base s) }.

Lemma keep_length pre k : 0 <= k -> lenZ (keep pre k) <= k.
Proof.
  intros. unfold keep, lenZ. pose proof (length_filter (fun i => i + 1 ∉ pre) (seqZ 0 k)) as H1.
  rewrite length_seqZ in H1. lia.
Qed.

Lemma keep_total pre k : 0 <= k <= nline p -> 0 <= total (imap new_entry (keep pre k)) <= k * 32768.
Proof.
  intros Hk. pose proof (keep_length pre k ltac:(lia)) as Hlen. revert Hlen. generalize (keep pre k) as l. intros l Hlen.
  enough (H : forall n, 0 <= total (imap (fun j => new_entry (n + j)) l) <= lenZ l * 32768).
  { specialize (H 0%nat). change (imap (fun j => new_entry (0 + j)) l) with (imap new_entry l) in H. lia. }
  clear Hlen. unfold total, lenZ. induction l as [|i l IH]; intros n; simpl; [lia|].
  pose proof (lp_is_wf p i) as (?&?&?). pose proof (alen_bounds _ (lp_is_wf p i)) as [? ?].
  specialize (IH (S n)). rewrite (imap_ext (_ ∘ S) (fun j => new_entry (S n + j))) by (intros j x _; unfold compose; f_equal; lia).
  assert (alen (lp p i) <= 32768) by (Z.to_euclidean_division_equations; lia). lia.
Qed.
(** The number met is the next one of the array. *)
Lemma multi_next k pre post s : nos = pre ++ post -> d_nextitm s = lenZ pre ->
  (if d_nextitm s <? lenZ nos then no ← aget nos (d_nextitm s); Ok (k + 1 =? no) else Ok false) =
  Ok (match post with [] => false | no :: _ => k + 1 =? no end).
Proof.
  intros Hp Hn. rewrite Hn. destruct post as [|no post].
  - rewrite app_nil_r in Hp. subst nos. by rewrite Z.ltb_irrefl.
  - assert (Hlt : (lenZ pre <? lenZ nos) = true).
    { apply Z.ltb_lt. rewrite Hp. unfold lenZ. rewrite length_app. simpl. lia. }
    rewrite Hlt. assert (aget nos (lenZ pre) = Ok no) as ->; [|done].
    apply aget_Ok. split; [apply lenZ_nonneg|]. rewrite Hp. unfold lenZ. rewrite Nat2Z.id. by apply list_lookup_middle.
Qed.

Lemma multi_skip k pre post s : 0 <= k -> nos = pre ++ (k + 1) :: post -> multi_inv k pre s ->
  multi_inv (k + 1) (pre ++ [k + 1])
    (mkMulti (d_base s) (d_newitemids s) (d_totallen s) (d_nextitm s + 1) (d_last_offset s) (d_presorted s)).
Proof.
  intros Hk Hnos [_ Hnext [Hss Hall] Hrest Hbase Hids Htot Hps].
  assert (Hkeep : keep (pre ++ [k + 1]) (k + 1) = keep pre k).
  { rewrite keep_snoc, decide_False, app_nil_r by (done || set_solver). unfold keep.
    apply list_filter_ext_elem. intros i Hi%elem_of_seqZ. rewrite elem_of_app, list_elem_of_singleton. split; [tauto|].
    intros Hi1 [?|?]; [done|lia]. }
  split; cbn [d_base d_newitemids d_totallen d_nextitm d_last_offset d_presorted]; rewrite ?Hkeep; try done.
  - exists post. by rewrite Hnos, <- app_assoc.
  - unfold lenZ in *. rewrite length_app. simpl. lia.
  - split.
    + apply StronglySorted_snoc; [done|]. eapply Forall_impl; [exact Hall|]. simpl. intros. lia.
    + apply Forall_app. split; [|repeat constructor; lia]. eapply Forall_impl; [exact Hall|]. simpl. intros. lia.
  - intros Hn no Hno Hnp. rewrite not_elem_of_app, list_elem_of_singleton in Hnp. destruct Hnp. pose proof (Hrest Hn no Hno ltac:(done)). lia.
Qed.
Lemma multi_keep k pre post s : 0 <= k < nline p -> nos = pre ++ post ->
  match post with [] => True | no :: _ => k + 1 <> no end -> multi_inv k pre s ->
  let off := lp_off (lp p k) in
  multi_inv (k + 1) pre
    (mkMulti (d_base s ++ [mkCompact (lenZ (d_base s)) off (alen (lp p k))]) (d_newitemids s ++ [lp p k])
       (d_totallen s + alen (lp p k)) (d_nextitm s) (if off <? d_last_offset s then off else d_last_offset s)
       (if off <? d_last_offset s then d_presorted s else false)).
Proof.
  intros Hk Hnos Hne [_ Hnext [Hss Hall] Hrest Hbase Hids Htot Hps] off.
  assert (Hfresh : k + 1 ∉ pre).
  { intros Hin. rewrite Forall_forall in Hall. specialize (Hall _ Hin). lia. }
  assert (Hkeep : keep pre (k + 1) = keep pre k ++ [k]) by (rewrite keep_snoc, decide_True by (done || lia); done).
  assert (Hnew : mkCompact (lenZ (d_base s)) off (alen (lp p k)) = new_entry (length (keep pre k)) k).
  { unfold new_entry, lenZ. by rewrite Hbase, length_imap. }
  split; cbn [d_base d_newitemids d_totallen d_nextitm d_last_offset d_presorted]; rewrite ?Hkeep; try done.
  - by exists post.
  - split; [done|]. eapply Forall_impl; [exact Hall|]. simpl. intros. lia.
  - intros [Hsn Han] no Hno Hnp. pose proof (Hrest (conj Hsn Han) no Hno Hnp).
    enough (no <> k + 1) by lia. intros ->. rewrite Hnos in Hno, Hsn. apply elem_of_app in Hno as [?|Hno]; [done|].
    destruct post as [|no post]; [inversion Hno|]. apply elem_of_cons in Hno as [?|Hno]; [done|].
    destruct (sorted_middle _ _ _ Hsn) as [Hpre Hpost]. specialize (Hpost _ Hno).
    assert (no ∉ pre) by (intros Hin; specialize (Hpre _ Hin); lia).
    assert (Hin : no ∈ nos) by (rewrite Hnos; set_solver). rewrite <- Hnos in Hsn.
    pose proof (Hrest (conj Hsn Han) no Hin ltac:(done)). lia.
  - rewrite Hnew, imap_app, Hbase. cbn [imap]. unfold compose. by rewrite Nat.add_0_r.
  - by rewrite map_app, Hids.
  - rewrite total_app, Htot. unfold total at 3. simpl. lia.
  - intros Hp. destruct (Z.ltb_spec off (d_last_offset s)) as [Hlt|]; [|done]. destruct (Hps Hp) as [Hsd Hge]. split.
    + apply StronglySorted_snoc; [done|]. eapply Forall_impl; [exact Hge|]. simpl. intros. lia.
    + apply Forall_app. split; [|repeat constructor; simpl; lia]. eapply Forall_impl; [exact Hge|]. simpl. intros. lia.
Qed.

Lemma multi_step_ok k pre s : 0 <= k < nline p -> multi_inv k pre s ->
  exists pre' s', multi_step p (pd_upper p) (pd_special p) nos (lenZ nos) (k + 1) s = Ok s' /\ multi_inv (k + 1) pre' s'.
Proof.
  intros Hk Hinv. pose proof (ok_nline p Hok) as [_ Hnb]. pose proof Hinv as [[post Hnos] Hnext _ _ Hbase _ Htot _].
  pose proof (lp_is_wf p k) as (?&?&?). pose proof (alen_bounds _ (lp_is_wf p k)) as [? ?].
  unfold multi_step. rewrite load_lp_ok by (apply Hok || lia). rewrite bind_val. replace (k + 1 - 1) with k by lia. cbv zeta.
  unfold ItemIdGetLength, ItemIdGetOffset. rewrite line_pointer_sane by auto.
  rewrite (multi_next k pre post s Hnos Hnext), bind_val.
  assert (Hcase : (exists rest, post = (k + 1) :: rest) \/ match post with [] => True | no :: _ => k + 1 <> no end).
  { destruct post as [|no rest]; [by right|]. destruct (decide (k + 1 = no)) as [<-|]; [left; eauto|by right]. }
  destruct Hcase as [[rest ->]|Hne].
  - rewrite Z.eqb_refl. eexists _, _. split; [done|]. by apply (multi_skip k pre rest s); [lia|..].
  - assert ((match post with [] => false | no :: _ => k + 1 =? no end) = false) as ->.
    { destruct post; [done|]. by apply Z.eqb_neq. }
    pose proof (keep_length pre k ltac:(lia)) as Hlen.
    assert (Hbl : lenZ (d_base s) = lenZ (keep pre k)) by (unfold lenZ; by rewrite Hbase, length_imap).
    destruct (Z.leb_spec MaxIndexTuplesPerPage (lenZ (d_base s))); [lia|]. fold (alen (lp p k)).
    pose proof (lenZ_nonneg (d_base s)). pose proof (keep_total pre k ltac:(lia)) as Hkt. rewrite <- Hbase, <- Htot in Hkt.
    change MaxIndexTuplesPerPage with 408 in *.
    assert (alen (lp p k) <= 32768) by (Z.to_euclidean_division_equations; lia).
    unwrap. eexists pre, _. split; [done|]. by apply (multi_keep k pre post s).
Qed.

Lemma multi_scan_ok fuel : forall k pre s, 0 <= k <= nline p -> (Z.to_nat (nline p - k) < fuel)%nat -> multi_inv k pre s ->
  exists pre' s', multi_scan fuel p (pd_upper p) (pd_special p) nos (lenZ nos) (nline p) (k + 1) s = Ok s' /\
    multi_inv (nline p) pre' s'.
Proof.
  pose proof (ok_nline p Hok) as [_ Hnb].
  induction fuel as [|fuel IH]; intros k pre s Hk Hf Hinv; [lia|]. cbn [multi_scan].
  destruct (Z.leb_spec (k + 1) (nline p)).
  - destruct (multi_step_ok k pre s) as (pre1 & s1 & -> & Hinv1); [lia|done|]. rewrite bind_val.
    unfold OffsetNumberNext. psizes. rewrite wrapu_small by (unfold is_u; lia).
    replace (1 + (k + 1)) with (k + 1 + 1) by lia. apply (IH _ pre1); [lia|lia|done].
  - exists pre, s. split; [done|]. by replace (nline p) with k by lia.
Qed.
End multi.

(** ** The page with the new line pointer array *)
Section kept.
Context (p : Page) (Hok : PageOK p) (Hidx : index_page p) (K : list Z).
Context (HK : forall i, i ∈ K -> 0 <= i < nline p) (HND : NoDup K) (Hm : lenZ K <= nline p).

Lemma kept_lines : exists p1,
  memcpy p SizeOfPageHeaderData (itemids_bytes (map (lp p) K)) 0 (lenZ K * 4) = Ok p1 /\
  let P0 := set_pd_lower p1 (SizeOfPageHeaderData + lenZ K * 4) in
  lenZ P0 = BLCKSZ /\ all_bytes P0 /\ pd_lower P0 = SizeOfPageHeaderData + 4 * lenZ K /\
  pd_upper P0 = pd_upper p /\ pd_special P0 = pd_special p /\ nline P0 = lenZ K /\
  (forall a, pd_lower p <= a -> nthZ P0 a = nthZ p a) /\
  (forall (j : nat) i, K !! j = Some i -> lp P0 (Z.of_nat j) = lp p i).
Proof.
  pose proof (ok_nline p Hok) as [Hlv Hnb]. pose proof (ok_layout p Hok) as []. pose proof (lenZ_nonneg K).
  assert (Hlm : lenZ (map (lp p) K) = lenZ K) by (unfold lenZ; by rewrite length_map).
  destruct (write_lines_ok p (map (lp p) K)) as (p1 & Hp1 & Hl1 & Hb1 & Hn1 & Hlp1); [apply Hok|apply Hok|lia| |].
  { apply Forall_forall. intros l Hl. apply list_elem_of_fmap in Hl as (i & -> & _). apply lp_is_wf. }
  rewrite Hlm in *. exists p1. split; [done|]. cbv zeta. unfold set_pd_lower.
  destruct (set_field p1 12 (SizeOfPageHeaderData + lenZ K * 4)) as (Hl2 & Hb2 & Hg2 & Hn2); [done|lia|].
  set (P0 := put16 p1 12 _) in *. psizes.
  assert (Hlow : pd_lower P0 = 24 + 4 * lenZ K) by (unfold pd_lower; rewrite Hg2, wrapu_small by (unfold is_u; lia); lia).
  split_and!; try done.
  - by apply Hb2.
  - apply get16_agree. intros a Ha. rewrite Hn2, Hn1 by lia. done.
  - apply get16_agree. intros a Ha. rewrite Hn2, Hn1 by lia. done.
  - rewrite nline_val by (psizes; lia). rewrite Hlow. psizes. Z.to_euclidean_division_equations. lia.
  - intros a Ha. rewrite Hn2, Hn1 by lia. done.
  - intros j i Hj. rewrite <- (Hlp1 j (lp p i)) by (rewrite list_lookup_fmap, Hj; done).
    apply lp_agree. intros a Ha. psizes. apply Hn2; lia.
Qed.

Lemma kept_page p1 P0 : memcpy p SizeOfPageHeaderData (itemids_bytes (map (lp p) K)) 0 (lenZ K * 4) = Ok p1 ->
  P0 = set_pd_lower p1 (SizeOfPageHeaderData + lenZ K * 4) ->
  PageOK P0 /\ items P0 = map (fun i => abs_lp p (lp p i)) K /\ index_page P0 /\
  storage_base P0 (nline P0) = imap (new_entry p) K /\ nline P0 = lenZ K /\
  pd_upper P0 = pd_upper p /\ pd_special P0 = pd_special p /\ (forall a, pd_special p <= a -> nthZ P0 a = nthZ p a).
Proof.
  intros Hp1 HP0. destruct kept_lines as (p1' & Hp1' & Hrest). rewrite Hp1' in Hp1. injection Hp1 as ->.
  rewrite <- HP0 in Hrest. destruct Hrest as (Hl & Hb & Hlow & Hup & Hsp & Hn & Hd & Hlp). clear HP0 Hp1'.
  pose proof (ok_nline p Hok) as [Hlv Hnb]. pose proof (ok_layout p Hok) as Hlay. pose proof (lenZ_nonneg K).
  assert (Hat : forall i, 0 <= i < nline P0 -> exists x, K !! Z.to_nat i = Some x /\ 0 <= x < nline p /\ lp P0 i = lp p x).
  { intros i Hi. destruct (lookup_lt_is_Some_2 K (Z.to_nat i)) as [x Hx]; [unfold lenZ in *; lia|].
    exists x. pose proof (Hlp _ _ Hx) as Hl1. rewrite Z2Nat.id in Hl1 by lia.
    split_and!; [done|apply HK; by eapply list_elem_of_lookup_2..|done]. }
  assert (Hok0 : PageOK P0).
  { split; [done|done| | |].
    - rewrite Hlow, Hup, Hsp. destruct Hlay. split; [lia|lia| |done|done]. psizes. Z.to_euclidean_division_equations. lia.
    - intros i Hi. destruct (Hat i Hi) as (x & _ & Hx & ->). rewrite Hup, Hsp. by apply (ok_lps p Hok).
    - intros i j Hi Hj Hij. destruct (Hat i Hi) as (x & Ex & Hx & ->). destruct (Hat j Hj) as (y & Ey & Hy & ->).
      apply (ok_disjoint p Hok); [done|done|]. intros ->. apply Hij.
      pose proof (NoDup_lookup _ _ _ _ HND Ex Ey). lia. }
  assert (Hix : index_page P0) by (intros i Hi; destruct (Hat i Hi) as (x & _ & Hx & ->); by apply Hidx).
  split_and!; try done.
  - apply items_eq; [lia|unfold lenZ in *; rewrite length_map; lia|]. intros j Hj.
    destruct (Hat (Z.of_nat j)) as (x & Ex & Hx & Hlx); [lia|]. rewrite Nat2Z.id in Ex. rewrite list_lookup_fmap, Ex. simpl. f_equal.
    rewrite Hlx. symmetry. apply abs_lp_data; [done|done|done|]. intros a Ha. destruct Hlay. apply Hd. lia.
  - unfold storage_base. assert (storage_idx P0 (nline P0) = seqZ 0 (nline P0)) as ->.
    { unfold storage_idx. assert (Hall : Forall (fun i => lp_len (lp P0 i) <> 0) (seqZ 0 (nline P0))).
      { apply Forall_forall. intros i Hi%elem_of_seqZ. apply Hix. lia. }
      induction Hall as [|x l Hx _ IH]; [done|]. rewrite filter_cons, decide_True by done. by rewrite IH. }
    apply list_eq. intros j. rewrite list_lookup_fmap, list_lookup_imap.
    destruct (decide (Z.of_nat j < nline P0)).
    + destruct (Hat (Z.of_nat j)) as (x & Ex & Hx & Hlx); [lia|]. rewrite Nat2Z.id in Ex.
      rewrite lookup_seqZ_lt, Ex by lia. cbn [fmap option_fmap option_map]. rewrite Z.add_0_l. unfold entry, new_entry. by rewrite Hlx.
    + rewrite lookup_seqZ_ge, (lookup_ge_None_2 K) by (unfold lenZ in *; lia). done.
  - intros a Ha. destruct Hlay. apply Hd. lia.
Qed.
End kept.

(** ** Retail deletion *)
Lemma item_numbers_snoc n nos no : item_numbers n (nos ++ [no]) ->
  1 <= no <= n /\ item_numbers (n - 1) nos /\ forall x, x ∈ nos -> x < no.
Proof.
  intros [Hs Hf]. apply Forall_app in Hf as [Hf Hn]. inversion Hn; subst.
  destruct (sorted_middle _ _ _ Hs) as [Hlt _]. split; [done|]. split; [|done]. split.
  - clear - Hs. induction nos as [|x nos IH]; [constructor|]. simpl in Hs. inversion Hs as [|? ? ? Hf]; subst.
    apply Forall_app in Hf as [? _]. constructor; auto.
  - rewrite Forall_forall in *. intros x Hx. specialize (Hf x Hx). specialize (Hlt x Hx). lia.
Qed.

Lemma retail_ok nos n : (n <= length nos)%nat -> forall p, PageOK p -> index_page p -> item_numbers (nline p) (take n nos) ->
  exists p', retail_delete n p nos = Ok p' /\ PageOK p' /\ index_page p' /\
    items p' = delete_nos 1 (take n nos) (items p) /\ pd_special p' = pd_special p /\
    (forall a, pd_special p <= a -> nthZ p' a = nthZ p a).
Proof.
  induction n as [|n IH]; intros Hn p Hok Hidx Hnos; cbn [retail_delete].
  - exists p. rewrite take_0, delete_nos_none by (intros no Hno; inversion Hno). split_and!; done.
  - destruct (lookup_lt_is_Some_2 nos n) as [no Hno]; [lia|]. rewrite (take_S_r _ _ _ Hno) in *.
    destruct (item_numbers_snoc _ _ _ Hnos) as (Hr & Hin & Hlt).
    assert (aget nos (Z.of_nat n) = Ok no) as -> by (apply aget_Ok; rewrite Nat2Z.id; split; [lia|done]). rewrite bind_val.
    destruct (index_delete_ok p no Hok Hidx ltac:(lia)) as (p1 & -> & Hok1 & Hidx1 & Hit1 & Hn1 & _ & _ & Hsp1 & Hd1).
    rewrite bind_val. rewrite <- Hn1 in Hin.
    destruct (IH ltac:(lia) p1 Hok1 Hidx1 Hin) as (p' & -> & Hok' & Hidx' & Hit' & Hsp' & Hd').
    exists p'. split_and!; try done; try congruence.
    + rewrite Hit', Hit1. symmetry. by apply delete_nos_snoc; [lia|].
    + intros a Ha. rewrite Hd', Hd1 by lia. done.
Qed.

(** ** The theorem *)
Lemma items_seq p : items p = map (fun i => abs_lp p (lp p i)) (seqZ 0 (nline p)).
Proof. done. Qed.

Lemma multi_start p nos : multi_inv p nos 0 [] (mkMulti [] [] 0 0 (pd_special p) true).
Proof.
  split; cbn [d_base d_newitemids d_totallen d_nextitm d_last_offset d_presorted]; try done.
  - by exists nos.
  - split; constructor.
  - intros [_ Hf] no Hno _. rewrite Forall_forall in Hf. specialize (Hf no Hno). lia.
  - intros _. split; constructor.
Qed.

(** The end of the operation: the new array is written and the tuples compacted. *)
Lemma multi_finish p nos s scratch : PageOK p -> index_page p -> nline p <= MaxIndexTuplesPerPage ->
  lenZ scratch = BLCKSZ -> all_bytes scratch -> multi_inv p nos (nline p) nos s ->
  exists p', (if wrapu 64 (pd_special p - pd_lower p) <? d_totallen s then Err "corrupted item lengths" else
    let nused := lenZ (d_base s) in
    p1 ← memcpy p SizeOfPageHeaderData (itemids_bytes (d_newitemids s)) 0 (nused * 4);
    let p1 := set_pd_lower p1 (SizeOfPageHeaderData + nused * 4) in
    if 0 <? nused then compactify_tuples (d_base s) p1 (d_presorted s) scratch
    else Ok (set_pd_upper p1 (pd_special p))) = Ok p' /\
    PageOK p' /\ index_page p' /\ items p' = delete_nos 1 nos (items p) /\ pd_special p' = pd_special p /\
    pd_upper p' = pd_special p - items_space (items p') /\ (forall a, pd_special p <= a -> nthZ p' a = nthZ p a).
Proof.
  intros Hok Hidx Hmax Hls Hbs [_ _ _ _ Hbase Hids Htot Hps]. pose proof (ok_nline p Hok) as [Hlv Hnb].
  pose proof (ok_layout p Hok) as []. set (K := keep nos (nline p)) in *.
  assert (HK : forall i, i ∈ K -> 0 <= i < nline p) by (intros i [? ?]%elem_of_keep; done).
  assert (HND : NoDup K) by apply NoDup_filter, NoDup_seqZ.
  pose proof (keep_length nos (nline p) ltac:(lia)) as HKl. fold K in HKl.
  destruct (kept_lines p Hok K HKl) as (p1 & Hp1 & _).
  destruct (kept_page p Hok Hidx K HK HND HKl p1 _ Hp1 eq_refl) as (Hok0 & Hit0 & Hidx0 & Hsb0 & Hn0 & Hup0 & Hsp0 & Hd0).
  set (P0 := set_pd_lower p1 (SizeOfPageHeaderData + lenZ K * 4)) in *.
  assert (Hitems : items P0 = delete_nos 1 nos (items p)) by (rewrite Hit0, (items_seq p), delete_nos_keep by lia; done).
  assert (Hnu : lenZ (d_base s) = lenZ K) by (rewrite Hbase; unfold lenZ; by rewrite length_imap).
  pose proof (storage_total_bound P0 Hok0) as Hst. unfold storage_total in Hst. rewrite Hsb0, Hsp0, Hup0, <- Hbase, <- Htot in Hst.
  rewrite wrapu_small by (unfold is_u; psizes; lia). rewrite (proj2 (Z.ltb_ge _ _)) by lia. cbv zeta.
  rewrite Hids, Hnu, Hp1, bind_val. fold P0.
  assert (Hcr : exists p', (if 0 <? lenZ K then compactify_tuples (d_base s) P0 (d_presorted s) scratch
    else Ok (set_pd_upper P0 (pd_special p))) = Ok p' /\ compact_result P0 p').
  { rewrite Hbase, <- Hsb0 in *. destruct (Z.ltb_spec 0 (lenZ K)) as [HK0|HK0].
    - apply compactify_page; [done..| |by intros Hp; apply Hps]. intros E. rewrite E in Hnu. unfold lenZ in *. simpl in Hnu. lia.
    - rewrite <- Hsp0. eexists; split; [done|]. apply reset_upper; [done|].
      destruct (storage_base P0 (nline P0)); [done|]. unfold lenZ in *. simpl in Hnu. lia. }
  destruct Hcr as (p' & -> & [Hok' Hit' _ Hn' Hup' Hsp' _ Hlp' Ht']). exists p'. split_and!; try done; try congruence.
  - intros i Hi. rewrite Hn' in Hi. destruct (Hlp' i Hi) as [_ ->]. by apply Hidx0.
  - rewrite Hup', Hsp0, Hit', storage_total_items by done. done.
  - intros a Ha. rewrite Ht', Hd0 by lia. done.
Qed.

Lemma multi_large p nos scratch : PageOK p -> index_page p -> nline p <= MaxIndexTuplesPerPage ->
  lenZ scratch = BLCKSZ -> all_bytes scratch -> 2 < lenZ nos ->
  (item_numbers (nline p) nos -> exists p', PageIndexMultiDelete p nos (lenZ nos) scratch = Ok p' /\ PageOK p' /\
     index_page p' /\ items p' = delete_nos 1 nos (items p) /\ pd_special p' = pd_special p /\
     pd_upper p' = pd_special p - items_space (items p') /\ (forall a, pd_special p <= a -> nthZ p' a = nthZ p a)) /\
  (~ item_numbers (nline p) nos ->
     PageIndexMultiDelete p nos (lenZ nos) scratch = Err "incorrect index offsets supplied").
Proof.
  intros Hok Hidx Hmax Hls Hbs Hlen. pose proof (ok_nline p Hok) as [Hlv Hnb].
  unfold PageIndexMultiDelete. rewrite (proj2 (Z.leb_gt (lenZ nos) 2)) by lia. rewrite layout_not_corrupt by apply Hok.
  fold (nline p). destruct (multi_scan_ok p Hok Hidx Hmax nos (S (Z.to_nat (nline p))) 0 [] _ ltac:(lia) ltac:(lia) (multi_start p nos))
    as (pre & s & Hs & Hinv). change (0 + 1) with FirstOffsetNumber in Hs. rewrite Hs, bind_val.
  pose proof Hinv as [[post Hnos] Hnext Hpre Hrest _ _ _ _].
  destruct post as [|no post].
  - rewrite app_nil_r in Hnos. subst pre. rewrite Hnext, Z.eqb_refl. cbn [negb]. split; [|done].
    intros _. by apply (multi_finish p nos s scratch).
  - assert (Hlt : lenZ pre < lenZ nos) by (rewrite Hnos; unfold lenZ; rewrite length_app; simpl; lia).
    rewrite Hnext, (proj2 (Z.eqb_neq (lenZ pre) (lenZ nos))) by lia. cbn [negb]. split; [|done].
    intros Hin. exfalso. pose proof Hin as [Hss Hf]. rewrite Hnos in Hss.
    destruct (sorted_middle _ _ _ Hss) as [Hb _]. assert (Hmem : no ∈ nos) by (rewrite Hnos; set_solver).
    assert (Hn : no ∉ pre) by (intros Hp; specialize (Hb _ Hp); lia). specialize (Hrest Hin no Hmem Hn).
    rewrite Forall_forall in Hf. specialize (Hf no Hmem). lia.
Qed.

(** C3. PageIndexMultiDelete removes exactly the listed items, whichever code path it
    takes: for a strictly increasing array of positions of a well-formed index page it
    succeeds, the items left keep their order and contents, and the page stays
    well-formed (and packed, when the array path is taken).  An array of more than two
    numbers that is out of order or out of range is rejected before the page is
    modified. *)
Theorem page_index_multi_delete p nos scratch :
  PageOK p -> index_page p -> nline p <= MaxIndexTuplesPerPage -> lenZ scratch = BLCKSZ -> all_bytes scratch ->
  (item_numbers (nline p) nos -> exists p', PageIndexMultiDelete p nos (lenZ nos) scratch = Ok p' /\ PageOK p' /\
     index_page p' /\ items p' = delete_nos 1 nos (items p) /\ pd_special p' = pd_special p /\
     (2 < lenZ nos -> pd_upper p' = pd_special p - items_space (items p')) /\
     (forall a, pd_special p <= a -> nthZ p' a = nthZ p a)) /\
  (2 < lenZ nos -> ~ item_numbers (nline p) nos ->
     PageIndexMultiDelete p nos (lenZ nos) scratch = Err "incorrect index offsets supplied").
Proof.
  intros Hok Hidx Hmax Hls Hbs. destruct (Z.le_gt_cases (lenZ nos) 2) as [Hle|Hgt].
  - split; [|lia]. intros Hin. unfold PageIndexMultiDelete. rewrite (proj2 (Z.leb_le _ _)) by done.
    unfold lenZ in *. rewrite Nat2Z.id.
    destruct (retail_ok nos (length nos) ltac:(lia) p Hok Hidx) as (p' & Hp' & ? & ? & Hit & ? & ?); [by rewrite firstn_all|].
    rewrite firstn_all in Hit. exists p'. split_and!; try done. lia.
  - destruct (multi_large p nos scratch Hok Hidx Hmax Hls Hbs Hgt) as [Hyes Hno]. split; [|by intros _].
    intros Hin. destruct (Hyes Hin) as (p' & ? & ? & ? & ? & ? & ? & ?). exists p'. split_and!; done.
Qed.

Lemma page_index_multi_delete_witness :
  exists p', PageIndexMultiDelete sample_index [1; 3; 4] (lenZ [1; 3; 4]) (replicate 8192 0) = Ok p' /\
    items p' = delete_nos 1 [1; 3; 4] (items sample_index).
Proof.
  destruct (page_index_multi_delete sample_index [1; 3; 4] (replicate 8192 0) sample_index_ok sample_index_page)
    as [H _]; [vm_compute; discriminate|apply zero_block_ok..|].
  destruct H as (p' & Hp' & _ & _ & Hit & _).
  - split.
    + repeat constructor.
    + change (nline sample_index) with 4. repeat constructor; discriminate.
  - exists p'. split; [exact Hp'|exact Hit].
Defined.
