(* ===== verification/BufPageIO.v ===== *)
(** Pages as they are created, copied, written and read back: PageInit, the temporary
    pages, page checksums and the verification of a page read from disk. *)
From S2P Require Import Prelude ByteMem BufPage BufPageLayout BufPageCompact BufPageSpec.

(** ** Initialisation *)
Lemma page_size_version s v : s = BLCKSZ -> v = PG_PAGE_LAYOUT_VERSION -> wrapu 16 (Z.lor s v) = 8196.
Proof. by intros -> ->. Qed.

Lemma init_mem p special : lenZ p = BLCKSZ -> all_bytes p -> 0 <= special -> MAXALIGN special <= BLCKSZ - SizeOfPageHeaderData ->
  special < 2 ^ 31 ->
  exists p', PageInit p BLCKSZ special = Ok p' /\ lenZ p' = BLCKSZ /\ all_bytes p' /\
    pd_flags p' = 0 /\ pd_lower p' = SizeOfPageHeaderData /\ pd_upper p' = BLCKSZ - MAXALIGN special /\
    pd_special p' = BLCKSZ - MAXALIGN special /\ pd_pagesize_version p' = 8196 /\
    (forall a, 0 <= a < 10 \/ 20 <= a < BLCKSZ -> nthZ p' a = 0).
Proof.
  intros Hl Hb Hs Hm Hs31. pose proof (MAXALIGN_bounds special ltac:(lia)) as Hma. unfold PageInit. cbv zeta.
  destruct (memset_spec p 0 0 BLCKSZ) as (p0 & Hp0 & Hl0 & Hn0); [psizes; lia..|]. rewrite Hp0, bind_val.
  pose proof (all_bytes_memset _ _ _ _ _ Hb Hp0) as Hb0.
  rewrite (wrapu_small 64) by (unfold is_u; psizes; lia). rewrite Hl in Hl0. clear Hp0.
  unfold PageSetPageSizeAndVersion, set_pd_pagesize_version, set_pd_special, set_pd_upper, set_pd_lower, set_pd_flags.
  set (x := BLCKSZ - MAXALIGN special) in *.
  destruct (set_field p0 10 0) as (Hl1 & Hb1 & Hg1 & Hn1); [done|lia|]. set (p1 := put16 p0 10 _) in *.
  destruct (set_field p1 12 SizeOfPageHeaderData) as (Hl2 & Hb2 & Hg2 & Hn2); [done|lia|]. set (p2 := put16 p1 12 _) in *.
  destruct (set_field p2 14 x) as (Hl3 & Hb3 & Hg3 & Hn3); [done|lia|]. set (p3 := put16 p2 14 _) in *.
  destruct (set_field p3 16 x) as (Hl4 & Hb4 & Hg4 & Hn4); [done|lia|]. set (p4 := put16 p3 16 _) in *.
  destruct (set_field p4 18 (Z.lor BLCKSZ PG_PAGE_LAYOUT_VERSION)) as (Hl5 & Hb5 & Hg5 & Hn5); [done|lia|]. set (p5 := put16 p4 18 _) in *.
  exists p5. assert (Hx : wrapu 16 x = x) by (apply wrapu_small; unfold is_u, x; psizes; lia).
  split_and!; try done.
  - auto 6.
  - change 0 with (wrapu 16 0). rewrite <- Hg1. apply get16_agree. intros a Ha. rewrite Hn5, Hn4, Hn3, Hn2 by lia. done.
  - change SizeOfPageHeaderData with (wrapu 16 SizeOfPageHeaderData) at 1. rewrite <- Hg2. apply get16_agree. intros a Ha.
    rewrite Hn5, Hn4, Hn3 by lia. done.
  - rewrite <- Hx, <- Hg3. apply get16_agree. intros a Ha. rewrite Hn5, Hn4 by lia. done.
  - rewrite <- Hx, <- Hg4. apply get16_agree. intros a Ha. rewrite Hn5 by lia. done.
  - intros a Ha. psizes. rewrite Hn5, Hn4, Hn3, Hn2, Hn1, Hn0 by lia. by rewrite decide_True by lia.
Qed.

(** A new page: well-formed and empty. *)
Definition new_page (special : Z) (p : Page) : Prop :=
  PageOK p /\ items p = [] /\ pd_flags p = 0 /\ pd_lower p = SizeOfPageHeaderData /\
  pd_upper p = pd_special p /\ pd_special p = BLCKSZ - MAXALIGN special /\ PageGetPageSize p = BLCKSZ /\
  (forall a, SizeOfPageHeaderData <= a < BLCKSZ -> nthZ p a = 0).

Lemma init_ok p special : lenZ p = BLCKSZ -> all_bytes p -> 0 <= special < 2 ^ 31 ->
  MAXALIGN special <= BLCKSZ - SizeOfPageHeaderData ->
  exists p', PageInit p BLCKSZ special = Ok p' /\ new_page special p'.
Proof.
  intros Hl Hb Hs Hm. pose proof (MAXALIGN_bounds special ltac:(lia)) as Hma.
  destruct (init_mem p special Hl Hb) as (p' & Hp' & Hl' & Hb' & Hfl & Hlow & Hup & Hsp & Hpv & Hz); [lia|lia|lia|].
  assert (Hlay : layout_ok (pd_lower p') (pd_upper p') (pd_special p')).
  { rewrite Hlow, Hup, Hsp. psizes. split; psizes; try lia; Z.to_euclidean_division_equations; lia. }
  pose proof (layout_nline p' Hlay) as [Hlv Hnb]. assert (Hn : nline p' = 0) by (psizes; lia).
  exists p'. split; [done|]. unfold new_page. split_and!; try done.
  - split; try done; rewrite Hn; intros; lia.
  - unfold items. rewrite Hn. done.
  - by rewrite Hup, Hsp.
  - unfold PageGetPageSize. by rewrite Hpv.
  - intros a Ha. apply Hz. psizes. lia.
Qed.

(** ** Temporary pages *)
Lemma memcpy_whole dst src : lenZ dst = lenZ src -> memcpy dst 0 src 0 (lenZ src) = Ok src.
Proof.
  intros Hl. pose proof (lenZ_nonneg src). destruct (memcpy_spec dst 0 src 0 (lenZ src)) as (m & Hm & Hlm & Hn); [lia..|].
  rewrite Hm. f_equal. apply list_eq_nthZ; [lia|]. intros i Hi. rewrite Hn, decide_True by lia. f_equal. lia.
Qed.

Lemma aligned_MAXALIGN x : 0 <= x < 2 ^ 63 -> x `mod` 8 = 0 -> MAXALIGN x = x.
Proof. intros. rewrite MAXALIGN_val by done. Z.to_euclidean_division_equations. lia. Qed.

(** Copying the special space onto a new page. *)
Lemma copy_special_ok p temp : PageOK p -> PageGetPageSize p = BLCKSZ -> lenZ temp = BLCKSZ -> all_bytes temp ->
  exists t, PageGetTempPageCopySpecial p temp = Ok t /\ PageOK t /\ items t = [] /\ pd_special t = pd_special p /\
    pd_upper t = pd_special p /\ (forall a, pd_special p <= a < BLCKSZ -> nthZ t a = nthZ p a).
Proof.
  intros Hok Hps Hlt Hbt. pose proof (ok_layout p Hok) as []. pose proof (ok_len p Hok) as Hl. pose proof (ok_bytes p Hok) as Hb.
  assert (Hsz : PageGetSpecialSize p = BLCKSZ - pd_special p).
  { unfold PageGetSpecialSize. rewrite Hps. apply wrapu_small. unfold is_u. psizes. lia. }
  assert (Hal : MAXALIGN (BLCKSZ - pd_special p) = BLCKSZ - pd_special p).
  { apply aligned_MAXALIGN; psizes; [lia|]. Z.to_euclidean_division_equations. lia. }
  unfold PageGetTempPageCopySpecial. rewrite Hps, Hsz. psizes.
  destruct (init_ok temp (8192 - pd_special p)) as (t0 & Ht0 & Hok0 & Hit0 & _ & Hlow0 & Hup0 & Hsp0 & _ & _);
    [done|done|lia|psizes; lia|]. psizes. rewrite Ht0, bind_val. rewrite Hal in Hsp0.
  replace (8192 - (8192 - pd_special p)) with (pd_special p) in Hsp0 by lia. rewrite Hsp0.
  pose proof (ok_len t0 Hok0) as Hl0. psizes.
  destruct (memcpy_spec t0 (pd_special p) p (pd_special p) (8192 - pd_special p)) as (t & Ht & Hlt' & Hn); [lia..|].
  exists t. rewrite Ht. split; [done|].
  assert (Hf : forall a, 0 <= a <= 22 -> get16 t a = get16 t0 a).
  { intros a ?. apply get16_agree. intros b ?. rewrite Hn, decide_False by lia. done. }
  assert (Hlow : pd_lower t = 24) by (rewrite <- Hlow0; apply Hf; lia).
  assert (Hup : pd_upper t = pd_special p) by (rewrite <- Hsp0, <- Hup0; apply Hf; lia).
  assert (Hsp : pd_special t = pd_special p) by (rewrite <- Hsp0; apply Hf; lia).
  assert (Hnl : nline t = 0) by (rewrite nline_val by (psizes; lia); rewrite Hlow; done).
  split_and!; try done.
  - split; rewrite ?Hlow, ?Hup, ?Hsp, ?Hnl; try done; try (intros; lia).
    + psizes. lia.
    + by apply (all_bytes_memcpy _ _ _ _ _ _ (ok_bytes t0 Hok0) Hb Ht).
    + split; psizes; try done; lia.
  - unfold items. by rewrite Hnl.
  - intros a Ha. rewrite Hn, decide_True by lia. f_equal. lia.
Qed.

(** C5. A page made by PageInit is well-formed, empty and, apart from its header,
    zeroed, whatever the block held before; its special space has the requested size,
    rounded up.  A copy of a page is that page, restoring a copy gives it back, and
    PageGetTempPageCopySpecial makes an empty page with the same special space. *)
Theorem page_init_and_copies p temp special :
  lenZ temp = BLCKSZ -> all_bytes temp -> 0 <= special < 2 ^ 31 -> MAXALIGN special <= BLCKSZ - SizeOfPageHeaderData ->
  PageOK p -> PageGetPageSize p = BLCKSZ ->
  (exists p', PageInit temp BLCKSZ special = Ok p' /\ new_page special p') /\
  PageGetTempPageCopy p temp = Ok p /\ PageRestoreTempPage p temp = Ok p /\
  (exists t, PageGetTempPageCopySpecial p temp = Ok t /\ PageOK t /\ items t = [] /\ pd_special t = pd_special p /\
     pd_upper t = pd_special p /\ (forall a, pd_special p <= a < BLCKSZ -> nthZ t a = nthZ p a)).
Proof.
  intros Hl Hb Hs Hm Hok Hps. split_and!.
  - by apply init_ok.
  - unfold PageGetTempPageCopy. rewrite Hps, <- (ok_len p Hok). apply memcpy_whole. by rewrite Hl, (ok_len p Hok).
  - unfold PageRestoreTempPage. rewrite Hps, <- (ok_len p Hok). apply memcpy_whole. by rewrite Hl, (ok_len p Hok).
  - by apply copy_special_ok.
Qed.

(** ** Checksums *)
#[local] Opaque pg_checksum_block.

Lemma set_checksum_twice p c c' : lenZ p = BLCKSZ -> set_pd_checksum (set_pd_checksum p c) c' = set_pd_checksum p c'.
Proof.
  intros Hl. unfold set_pd_checksum. destruct (set_field p 8 c) as (Hl1 & _ & _ & Hn1); [done|lia|].
  destruct (set_field (put16 p 8 (wrapu 16 c)) 8 c') as (Hl2 & _ & _ & Hn2); [done|lia|].
  destruct (set_field p 8 c') as (Hl3 & _ & _ & Hn3); [done|lia|].
  apply list_eq_nthZ; [lia|]. intros i Hi. destruct (decide (8 <= i < 10)).
  - unfold put16 at 1 3. rewrite !nthZ_splice by (psizes; lens). by rewrite !decide_True by lens.
  - rewrite Hn2, Hn1, Hn3 by lia. done.
Qed.

Lemma set_checksum_same p : lenZ p = BLCKSZ -> all_bytes p -> set_pd_checksum p (pd_checksum p) = p.
Proof.
  intros Hl Hb. unfold set_pd_checksum. pose proof (get16_is_u p 8 Hb) as Hu. fold (pd_checksum p) in Hu.
  destruct (set_field p 8 (pd_checksum p)) as (Hl1 & _ & _ & Hn1); [done|lia|].
  apply list_eq_nthZ; [lia|]. intros i Hi. destruct (decide (8 <= i < 10)); [|apply Hn1; lia].
  rewrite wrapu_small by done. unfold put16. rewrite nthZ_splice by (psizes; lens). rewrite decide_True by lens.
  pose proof (is_u_nthZ p 8 Hb) as H8. pose proof (is_u_nthZ p 9 Hb) as H9. unfold pd_checksum, get16, is_u in *.
  change (8 + 1) with 9. assert (i = 8 \/ i = 9) as [-> | ->] by lia.
  - change (nthZ [?a; ?b] (8 - 8)) with a. Z.to_euclidean_division_equations. lia.
  - change (nthZ [?a; ?b] (9 - 8)) with b. Z.to_euclidean_division_equations. lia.
Qed.

(** The checksum does not depend on the stored one, and computing it changes nothing. *)
Lemma checksum_page_same p blkno : lenZ p = BLCKSZ -> all_bytes p -> (pg_checksum_page p blkno).1 = p.
Proof. intros. unfold pg_checksum_page. cbn [fst]. rewrite set_checksum_twice by done. by apply set_checksum_same. Qed.

Lemma checksum_ignores_stored p c blkno : lenZ p = BLCKSZ ->
  (pg_checksum_page (set_pd_checksum p c) blkno).2 = (pg_checksum_page p blkno).2.
Proof. intros. unfold pg_checksum_page. cbn [snd]. by rewrite set_checksum_twice. Qed.

Lemma checksum_range p blkno : 1 <= (pg_checksum_page p blkno).2 <= 65535.
Proof.
  unfold pg_checksum_page. cbn [snd]. generalize (Z.lxor (pg_checksum_block (set_pd_checksum p 0)) blkno) as x. intros x.
  pose proof (Z.mod_pos_bound x 65535). rewrite wrapu_small by (unfold is_u; lia). lia.
Qed.

Lemma set_inplace_val p blkno : PageIsNew p = false -> lenZ p = BLCKSZ -> all_bytes p ->
  PageSetChecksumInplace true p blkno = set_pd_checksum p (pg_checksum_page p blkno).2.
Proof.
  intros Hn Hl Hb. unfold PageSetChecksumInplace. rewrite Hn. cbn [orb negb].
  rewrite (surjective_pairing (pg_checksum_page p blkno)), checksum_page_same by done. done.
Qed.

Lemma not_new_not_zero p : all_bytes p -> PageIsNew p = false ->
  forallb (fun i => (get32 p (8 * i) =? 0) && (get32 p (8 * i + 4) =? 0)) (seqZ 0 (BLCKSZ / 8)) = false.
Proof.
  intros Hb Hn. destruct (forallb _ _) eqn:Hf; [|done]. exfalso.
  pose proof (forallb_seqZ _ _ Hf 1 ltac:(done)) as H1. apply andb_true_iff in H1 as [_ H1%Z.eqb_eq].
  change (8 * 1 + 4) with 12 in H1. unfold get32 in H1. change (12 + 2) with 14 in H1.
  pose proof (get16_is_u p 12 Hb). pose proof (get16_is_u p 14 Hb). unfold PageIsNew, pd_upper, is_u in *.
  apply Z.eqb_neq in Hn. lia.
Qed.

Lemma set_checksum_page p c : PageOK p -> is_u 16 c ->
  let p' := set_pd_checksum p c in
  PageOK p' /\ items p' = items p /\ pd_checksum p' = c /\ pd_flags p' = pd_flags p /\
  pd_lower p' = pd_lower p /\ pd_upper p' = pd_upper p /\ pd_special p' = pd_special p.
Proof.
  intros Hok Hc p'. destruct (set_field p 8 c) as (Hl & Hb & Hg & Hn); [apply Hok|lia|].
  destruct (header_irrelevant p p' Hok Hl (Hb (ok_bytes p Hok))) as (?&?&?&?&?&?).
  { intros a Ha. apply Hn; lia. }
  split_and!; try done.
  - unfold pd_checksum, p', set_pd_checksum. rewrite Hg. by apply wrapu_small.
  - apply get16_agree. intros a Ha. apply Hn; lia.
Qed.

(** C6. Page checksums.  Computing the checksum leaves the page as it was and never gives
    zero; a page written with its checksum (in place or through the copy) has the same
    contents and is accepted when read back as the same block, without a failure report;
    a page that is not new and whose stored checksum is not the computed one is rejected
    and reported if asked, unless failures are ignored. *)
Theorem page_checksum_roundtrip p pageCopy blkno flags ignore :
  PageOK p -> Z.land (pd_flags p) (notu 32 PD_VALID_FLAG_BITS) = 0 -> lenZ pageCopy = BLCKSZ ->
  let p' := PageSetChecksumInplace true p blkno in
  (pg_checksum_page p blkno).1 = p /\ 1 <= pd_checksum p' <= 65535 /\
  PageOK p' /\ items p' = items p /\
  PageSetChecksumCopy true p pageCopy blkno = Ok p' /\
  PageIsVerifiedExtended true ignore p' blkno flags = (true, false) /\
  (forall q blk, lenZ q = BLCKSZ -> all_bytes q -> PageIsNew q = false -> (pg_checksum_page q blk).2 <> pd_checksum q ->
     PageIsVerifiedExtended true false q blk flags = (false, negb (Z.land flags PIV_REPORT_STAT =? 0))).
Proof.
  intros Hok Hfl Hlc p'. pose proof (ok_len p Hok) as Hl. pose proof (ok_bytes p Hok) as Hb. pose proof (ok_layout p Hok) as [].
  assert (Hnew : PageIsNew p = false) by (apply Z.eqb_neq; psizes; lia).
  pose proof (checksum_range p blkno) as Hr. unfold p'. rewrite set_inplace_val by done.
  destruct (set_checksum_page p (pg_checksum_page p blkno).2 Hok) as (Hok' & Hit' & Hck & Hfl' & Hlow & Hup & Hsp); [unfold is_u; lia|].
  assert (Hc' : forall b, PageIsNew (set_pd_checksum p b) = PageIsNew p).
  { intros b. unfold PageIsNew, set_pd_checksum. destruct (set_field p 8 b) as (_ & _ & _ & Hn); [done|lia|].
    f_equal. apply get16_agree. intros a Ha. apply Hn; lia. }
  split_and!; try done; try lia.
  - by apply checksum_page_same.
  - unfold PageSetChecksumCopy. rewrite Hnew. cbn [orb negb]. rewrite <- Hl, memcpy_whole, bind_val by lia.
    rewrite (surjective_pairing (pg_checksum_page p blkno)), checksum_page_same by done. done.
  - unfold PageIsVerifiedExtended. rewrite Hc', Hnew, checksum_ignores_stored, Hck, Hfl', Hfl, Hlow, Hup, Hsp by done.
    rewrite aligned_MAXALIGN, !Z.eqb_refl by (psizes; lia). rewrite !(proj2 (Z.leb_le _ _)) by (psizes; lia). done.
  - intros q blk Hlq Hbq Hnq Hne. unfold PageIsVerifiedExtended. rewrite Hnq. rewrite (proj2 (Z.eqb_neq _ _) Hne).
    cbn [negb andb]. rewrite !andb_false_r, not_new_not_zero by done. done.
Qed.

Lemma page_init_and_copies_witness :
  (exists p', PageInit (replicate 8192 0) BLCKSZ 10 = Ok p' /\ new_page 10 p') /\
  PageGetTempPageCopy sample_page (replicate 8192 0) = Ok sample_page /\
  PageRestoreTempPage sample_page (replicate 8192 0) = Ok sample_page /\
  (exists t, PageGetTempPageCopySpecial sample_page (replicate 8192 0) = Ok t /\ PageOK t /\ items t = [] /\
     pd_special t = pd_special sample_page /\ pd_upper t = pd_special sample_page /\
     (forall a, pd_special sample_page <= a < BLCKSZ -> nthZ t a = nthZ sample_page a)).
Proof.
  apply (page_init_and_copies sample_page (replicate 8192 0) 10 (proj1 zero_block_ok) (proj2 zero_block_ok)).
  - lia.
  - vm_compute. discriminate.
  - exact sample_page_ok.
  - vm_compute. reflexivity.
Defined.

Lemma page_checksum_roundtrip_witness :
  let p' := PageSetChecksumInplace true sample_page 7 in
  PageSetChecksumCopy true sample_page (replicate 8192 0) 7 = Ok p' /\
  PageIsVerifiedExtended true false p' 7 PIV_REPORT_STAT = (true, false).
Proof.
  destruct (page_checksum_roundtrip sample_page (replicate 8192 0) 7 PIV_REPORT_STAT false sample_page_ok)
    as (_ & _ & _ & _ & Hc & Hv & _); [vm_compute; reflexivity|exact (proj1 zero_block_ok)|].
  exact (conj Hc Hv).
Defined.
