(* ===== verification/PgLz.v ===== *)
(** LZ compression of stored values: [src/common/pg_lzcompress.c] and
    [common/pg_lzcompress.h].

    The input and output buffers are lists of bytes and a pointer into one of
    them is an offset; an access outside a buffer is [Undef].  The two static
    work arrays of the compressor are part of its state: they keep whatever the
    previous call left in them.  A pointer to an entry of [hist_entries] is the
    entry's index, and [None] is NULL. *)
From S2P Require Import Prelude ByteMem.

(** ** Strategies and constants *)
Definition PGLZ_MAX_HISTORY_LISTS : Z := 8192.
Definition PGLZ_HISTORY_SIZE : Z := 4096.
Definition PGLZ_MAX_MATCH : Z := 273.
Definition PGLZ_MAX_OUTPUT (dlen : Z) : Z := dlen + 4.
Definition INT_MAX : Z := 2 ^ 31 - 1.
Definition INVALID_ENTRY : Z := 0.

Record PGLZ_Strategy := mkStrategy {
  min_input_size : Z;
  max_input_size : Z;
  min_comp_rate : Z;
  first_success_by : Z;
  match_size_good : Z;
  match_size_drop : Z }.

Definition strategy_default_data : PGLZ_Strategy := mkStrategy 32 INT_MAX 25 1024 128 10.
Definition strategy_always_data : PGLZ_Strategy := mkStrategy 0 INT_MAX 0 INT_MAX 128 6.

(** ** The history table *)
Record PGLZ_HistEntry := mkEntry {
  next : option Z;
  prev : option Z;
  hindex : Z;
  pos : Z }.
Definition set_next (e : PGLZ_HistEntry) (x : option Z) : PGLZ_HistEntry := mkEntry x (prev e) (hindex e) (pos e).
Definition set_prev (e : PGLZ_HistEntry) (x : option Z) : PGLZ_HistEntry := mkEntry (next e) x (hindex e) (pos e).

(** The static arrays, and the two local variables that go with them. *)
Record history := mkHist {
  hist_start : list Z;
  hist_entries : list PGLZ_HistEntry;
  hist_next : Z;
  hist_recycle : bool }.

(** The hash key of the input at offset [s]; [char] is a signed type. *)
Definition schar (b : Z) : Z := wraps 8 b.
Definition pglz_hist_idx (src : list Z) (s e mask : Z) : res Z :=
  c0 ← aget src s;
  if e - s <? 4 then Ok (Z.land (schar c0) mask)
  else
    c1 ← aget src (s + 1);
    c2 ← aget src (s + 2);
    c3 ← aget src (s + 3);
    Ok (Z.land (Z.lxor (Z.lxor (Z.lxor (Z.shiftl (schar c0) 6) (Z.shiftl (schar c1) 4))
                  (Z.shiftl (schar c2) 2)) (schar c3)) mask).

(** Taking the entry at [hn] out of the list it is in. *)
Definition pglz_hist_unlink (hs : list Z) (he : list PGLZ_HistEntry) (hn : Z)
  : res (list Z * list PGLZ_HistEntry) :=
  myhe ← aget he hn;
  '(hs, he) ←
    (match prev myhe with
     | None =>
       match next myhe with
       | None => Undef
       | Some n => hs ← aset hs (hindex myhe) (wraps 16 n); Ok (hs, he)
       end
     | Some pr =>
       e ← aget he pr;
       he ← aset he pr (set_next e (next myhe)); Ok (hs, he)
     end);
  match next myhe with
  | None => Ok (hs, he)
  | Some n => e ← aget he n; he ← aset he n (set_prev e (prev myhe)); Ok (hs, he)
  end.

Definition pglz_hist_add (h : history) (src : list Z) (s e mask : Z) : res history :=
  hx ← pglz_hist_idx src s e mask;
  let hn := hist_next h in
  '(hs, he) ← (if hist_recycle h then pglz_hist_unlink (hist_start h) (hist_entries h) hn
               else Ok (hist_start h, hist_entries h));
  first ← aget hs hx;
  he ← aset he hn (mkEntry (Some first) None hx s);
  e0 ← aget he first;
  he ← aset he first (set_prev e0 (Some hn));
  hs ← aset hs hx (wraps 16 hn);
  if PGLZ_HISTORY_SIZE + 1 <=? hn + 1 then Ok (mkHist hs he 1 true)
  else Ok (mkHist hs he (hn + 1) (hist_recycle h)).

(** ** Output *)
(** [ctrlp] is the offset of the control byte under construction, [None] while it
    still points to the dummy. *)
Record outbuf := mkOut { buf : list Z; bp : Z; ctrlp : option Z; ctrlb : Z; ctrl : Z }.

Definition store_ctrl (b : list Z) (ctrlp : option Z) (v : Z) : res (list Z) :=
  match ctrlp with None => Ok b | Some a => aset b a v end.

Definition pglz_out_ctrl (o : outbuf) : res outbuf :=
  if Z.land (ctrl o) 255 =? 0 then
    b ← store_ctrl (buf o) (ctrlp o) (ctrlb o);
    Ok (mkOut b (bp o + 1) (Some (bp o)) 0 1)
  else Ok o.

Definition pglz_out_literal (o : outbuf) (byte : Z) : res outbuf :=
  o ← pglz_out_ctrl o;
  b ← aset (buf o) (bp o) (wrapu 8 byte);
  Ok (mkOut b (bp o + 1) (ctrlp o) (ctrlb o) (wrapu 8 (Z.shiftl (ctrl o) 1))).

Definition pglz_out_tag (o : outbuf) (len off : Z) : res outbuf :=
  o ← pglz_out_ctrl o;
  let cb := Z.lor (ctrlb o) (ctrl o) in
  let c := wrapu 8 (Z.shiftl (ctrl o) 1) in
  let hi := Z.shiftr (Z.land off 3840) 4 in
  if 17 <? len then
    b ← aset (buf o) (bp o) (wrapu 8 (Z.lor hi 15));
    b ← aset b (bp o + 1) (wrapu 8 (Z.land off 255));
    b ← aset b (bp o + 2) (wrapu 8 (len - 18));
    Ok (mkOut b (bp o + 3) (ctrlp o) cb c)
  else
    b ← aset (buf o) (bp o) (wrapu 8 (Z.lor hi (len - 3)));
    b ← aset b (bp o + 1) (wrapu 8 (Z.land off 255));
    Ok (mkOut b (bp o + 2) (ctrlp o) cb c).

(** ** Finding a match *)
(** The comparison loop: how far the input at [ip] agrees with the input at [hp]. *)
Fixpoint match_length (fuel : nat) (src : list Z) (ip hp e thislen : Z) : res Z :=
  match fuel with
  | O => OutOfFuel
  | S fuel =>
    if ip <? e then
      a ← aget src ip;
      b ← aget src hp;
      if (a =? b) && (thislen <? PGLZ_MAX_MATCH) then match_length fuel src (ip + 1) (hp + 1) e (thislen + 1)
      else Ok thislen
    else Ok thislen
  end.
Definition match_fuel : nat := 275.

(** The length of the match at [hp] given the best length so far. *)
Definition this_length (src : list Z) (input hp e len : Z) : res Z :=
  if 16 <=? len then
    if in_object src input len && in_object src hp len then
      if bool_decide (bytes_at src input len = bytes_at src hp len)
      then match_length match_fuel src (input + len) (hp + len) e len
      else Ok 0
    else Undef
  else match_length match_fuel src input hp e 0.

Fixpoint find_loop (fuel : nat) (he : list PGLZ_HistEntry) (src : list Z) (hent input e : Z)
    (len off good_match good_drop : Z) : res (Z * Z) :=
  match fuel with
  | O => OutOfFuel
  | S fuel =>
    if hent =? INVALID_ENTRY then Ok (len, off)
    else
      ent ← aget he hent;
      let thisoff := input - pos ent in
      if 4095 <=? thisoff then Ok (len, off)
      else
        thislen ← this_length src input (pos ent) e len;
        let off := if len <? thislen then thisoff else off in
        let len := if len <? thislen then thislen else len in
        match next ent with
        | None => Undef
        | Some hent =>
          if negb (hent =? INVALID_ENTRY) then
            if good_match <=? len then Ok (len, off)
            else find_loop fuel he src hent input e len off
                   (good_match - Z.quot (good_match * good_drop) 100) good_drop
          else find_loop fuel he src hent input e len off good_match good_drop
        end
  end.

Definition pglz_find_match (h : history) (src : list Z) (input e good_match good_drop mask : Z)
  : res (option (Z * Z)) :=
  hx ← pglz_hist_idx src input e mask;
  hentno ← aget (hist_start h) hx;
  '(len, off) ← find_loop (Z.to_nat (PGLZ_HISTORY_SIZE + 2)) (hist_entries h) src hentno input e 0 0 good_match good_drop;
  Ok (if 2 <? len then Some (len, off) else None).

(** ** Compression *)
Definition clamp (lo hi x : Z) : Z := if hi <? x then hi else if x <? lo then lo else x.

Definition result_limit (slen need_rate : Z) : Z :=
  if INT_MAX / 100 <? slen then Z.quot slen 100 * (100 - need_rate)
  else Z.quot (slen * (100 - need_rate)) 100.

Definition hash_size (slen : Z) : Z :=
  if slen <? 128 then 512 else if slen <? 256 then 1024 else if slen <? 512 then 2048
  else if slen <? 1024 then 4096 else 8192.

(** [while (match_len--)]: history entries for all matched characters. *)
Fixpoint add_matched (n : nat) (h : history) (src : list Z) (dp dend mask : Z) : res (history * Z) :=
  match n with
  | O => Ok (h, dp)
  | S n => h ← pglz_hist_add h src dp dend mask; add_matched n h src (dp + 1) dend mask
  end.

(** The main loop: [None] when compression is given up. *)
Fixpoint pglz_compress_loop (fuel : nat) (src : list Z) (dend good_match good_drop mask result_max success_by : Z)
    (dp : Z) (found_match : bool) (h : history) (o : outbuf) : res (outbuf * history * bool) :=
  match fuel with
  | O => OutOfFuel
  | S fuel =>
    if dp <? dend then
      if result_max <=? bp o then Ok (o, h, false)
      else if negb found_match && (success_by <=? bp o) then Ok (o, h, false)
      else
        m ← pglz_find_match h src dp dend good_match good_drop mask;
        match m with
        | Some (match_len, match_off) =>
          o ← pglz_out_tag o match_len match_off;
          '(h, dp) ← add_matched (Z.to_nat match_len) h src dp dend mask;
          pglz_compress_loop fuel src dend good_match good_drop mask result_max success_by dp true h o
        | None =>
          c ← aget src dp;
          o ← pglz_out_literal o c;
          h ← pglz_hist_add h src dp dend mask;
          pglz_compress_loop fuel src dend good_match good_drop mask result_max success_by (dp + 1) found_match h o
        end
    else Ok (o, h, true)
  end.

(** The output buffer, the work arrays and the result; [hs] and [he] are the
    static arrays as the last call left them. *)
Definition pglz_compress (src : list Z) (slen : Z) (dest : list Z) (strategy : option PGLZ_Strategy)
    (hs : list Z) (he : list PGLZ_HistEntry) : res (list Z * history * Z) :=
  let strategy := match strategy with None => strategy_default_data | Some s => s end in
  if (match_size_good strategy <=? 0) || (slen <? min_input_size strategy) || (max_input_size strategy <? slen)
  then Ok (dest, mkHist hs he 1 false, -1)
  else
    let good_match := clamp 17 PGLZ_MAX_MATCH (match_size_good strategy) in
    let good_drop := clamp 0 100 (match_size_drop strategy) in
    let need_rate := clamp 0 99 (min_comp_rate strategy) in
    let result_max := result_limit slen need_rate in
    let hashsz := hash_size slen in
    let mask := hashsz - 1 in
    hs ← (if hashsz <=? lenZ hs then Ok (replicate (Z.to_nat hashsz) 0 ++ drop (Z.to_nat hashsz) hs) else Undef);
    '(o, h, finished) ←
      pglz_compress_loop (S (Z.to_nat slen)) src slen good_match good_drop mask result_max (first_success_by strategy)
        0 false (mkHist hs he 1 false) (mkOut dest 0 None 0 0);
    if negb finished then Ok (buf o, h, -1)
    else
      b ← store_ctrl (buf o) (ctrlp o) (ctrlb o);
      let result_size := bp o in
      if result_max <=? result_size then Ok (b, h, -1) else Ok (b, h, result_size).

(** ** Decompression *)
(** The copy of a match within the output, with doubling offsets. *)
Fixpoint copy_match (fuel : nat) (dest : list Z) (dp off len : Z) : res (list Z * Z) :=
  match fuel with
  | O => OutOfFuel
  | S fuel =>
    if off <? len then
      dest ← memcpy dest dp dest (dp - off) off;
      copy_match fuel dest (dp + off) (off + off) (len - off)
    else
      dest ← memcpy dest dp dest (dp - off) len;
      Ok (dest, dp + len)
  end.
Definition copy_fuel : nat := 10.

(** Up to eight items under one control byte: [None] for corrupt data, else the
    buffer and the two positions reached. *)
Fixpoint decode_items (n : nat) (src : list Z) (srcend destend : Z) (ctrl : Z) (dest : list Z) (sp dp : Z)
  : res (list Z * option (Z * Z)) :=
  match n with
  | O => Ok (dest, Some (sp, dp))
  | S n =>
    if (sp <? srcend) && (dp <? destend) then
      if negb (Z.land ctrl 1 =? 0) then
        b0 ← aget src sp;
        b1 ← aget src (sp + 1);
        let len := Z.land b0 15 + 3 in
        let off := Z.lor (Z.shiftl (Z.land b0 240) 4) b1 in
        let sp := sp + 2 in
        '(len, sp) ← (if len =? 18 then b2 ← aget src sp; Ok (len + b2, sp + 1) else Ok (len, sp));
        if (srcend <? sp) || (off =? 0) || (dp <? off) then Ok (dest, None)
        else
          let len := Z.min len (destend - dp) in
          '(dest, dp) ← copy_match copy_fuel dest dp off len;
          decode_items n src srcend destend (Z.shiftr ctrl 1) dest sp dp
      else
        b ← aget src sp;
        dest ← aset dest dp b;
        decode_items n src srcend destend (Z.shiftr ctrl 1) dest (sp + 1) (dp + 1)
    else Ok (dest, Some (sp, dp))
  end.

Fixpoint decode_loop (fuel : nat) (src : list Z) (srcend destend : Z) (dest : list Z) (sp dp : Z)
  : res (list Z * option (Z * Z)) :=
  match fuel with
  | O => OutOfFuel
  | S fuel =>
    if (sp <? srcend) && (dp <? destend) then
      ctrl ← aget src sp;
      '(dest, p) ← decode_items 8 src srcend destend ctrl dest (sp + 1) dp;
      match p with
      | None => Ok (dest, None)
      | Some (sp, dp) => decode_loop fuel src srcend destend dest sp dp
      end
    else Ok (dest, Some (sp, dp))
  end.

Definition pglz_decompress (src : list Z) (slen : Z) (dest : list Z) (rawsize : Z) (check_complete : bool)
  : res (list Z * Z) :=
  '(dest, p) ← decode_loop (S (Z.to_nat slen)) src slen rawsize dest 0 0;
  match p with
  | None => Ok (dest, -1)
  | Some (sp, dp) =>
    if check_complete && (negb (dp =? rawsize) || negb (sp =? slen)) then Ok (dest, -1) else Ok (dest, dp)
  end.

Definition pglz_maximum_compressed_size (rawsize total_compressed_size : Z) : Z :=
  let compressed_size := Z.quot (rawsize * 9 + 7) 8 in
  let compressed_size := compressed_size + 2 in
  let compressed_size := Z.min compressed_size total_compressed_size in
  wraps 32 compressed_size.
