(* ===== verification/PgLzDecode.v ===== *)
(** The decompressor of [pg_lzcompress.c] against a reference decoder.

    The reference decoder consumes a list of bytes and appends to a list of
    bytes; it copies matches one byte at a time.  The theorem says that
    [pglz_decompress] computes the same thing in a buffer, whatever the input,
    and stays within the destination. *)
From S2P Require Import Prelude ByteMem PgLz.

(** ** The reference decoder *)
(** Append [n] bytes, each the one [off] before the end. *)
Fixpoint copy_back (n : nat) (out : list Z) (off : Z) : list Z :=
  match n with
  | O => out
  | S n => copy_back n (out ++ [nthZ out (lenZ out - off)]) off
  end.

(** The length and offset of a tag of two or three bytes, and the rest. *)
Definition ref_tag (s : list Z) : option (Z * Z * list Z) :=
  match s with
  | b0 :: b1 :: rest =>
    let len := Z.land b0 15 + 3 in
    let off := Z.lor (Z.shiftl (Z.land b0 240) 4) b1 in
    if len =? 18 then
      match rest with
      | b2 :: rest => Some (len + b2, off, rest)
      | [] => None
      end
    else Some (len, off, rest)
  | _ => None
  end.

Fixpoint ref_items (n : nat) (ctrl : Z) (s out : list Z) (rawsize : Z) : option (list Z * list Z) :=
  match n, s with
  | O, _ | _, [] => Some (s, out)
  | S n, b :: rest =>
    if rawsize <=? lenZ out then Some (s, out)
    else if Z.odd ctrl then
      match ref_tag s with
      | None => None
      | Some (len, off, rest) =>
        if (off =? 0) || (lenZ out <? off) then None
        else ref_items n (ctrl / 2) rest (copy_back (Z.to_nat (Z.min len (rawsize - lenZ out))) out off) rawsize
      end
    else ref_items n (ctrl / 2) rest (out ++ [b]) rawsize
  end.

Fixpoint ref_loop (fuel : nat) (s out : list Z) (rawsize : Z) : option (list Z * list Z) :=
  match fuel, s with
  | O, _ | _, [] => Some (s, out)
  | S fuel, ctrl :: s' =>
    if rawsize <=? lenZ out then Some (s, out)
    else
      match ref_items 8 ctrl s' out rawsize with
      | None => None
      | Some (s, out) => ref_loop fuel s out rawsize
      end
  end.

(** The input left over and the output, or [None] for corrupt data. *)
Definition ref_decompress (s : list Z) (rawsize : Z) : option (list Z * list Z) :=
  ref_loop (length s) s [] rawsize.

(** ** Copying a match *)
Lemma copy_back_spec n : forall out off, 1 <= off <= lenZ out ->
  let r := copy_back n out off in
  lenZ r = lenZ out + Z.of_nat n /\ take (length out) r = out /\
  (forall i, lenZ out <= i < lenZ out + Z.of_nat n -> nthZ r i = nthZ r (i - off)).
Proof.
  induction n as [|n IH]; intros out off Hoff r; unfold r; cbn [copy_back].
  - split_and!; [lia|by rewrite take_ge|lia].
  - set (x := nthZ out (lenZ out - off)).
    assert (Hl1 : lenZ (out ++ [x]) = lenZ out + 1) by (unfold lenZ; rewrite length_app; simpl; lia).
    destruct (IH (out ++ [x]) off ltac:(lia)) as (Hl & Ht & Hn). rewrite Hl1 in Hl, Hn.
    assert (Hp : forall i, 0 <= i < lenZ out + 1 -> nthZ (copy_back n (out ++ [x]) off) i = nthZ (out ++ [x]) i).
    { intros i Hi. rewrite <- Ht at 2. rewrite length_app. simpl.
      replace (length out + 1)%nat with (Z.to_nat (lenZ out + 1)) by (unfold lenZ; lia).
      rewrite nthZ_take by lia. done. }
    split_and!; [lia| |].
    + replace (length out) with (length out `min` length (out ++ [x]))%nat by (rewrite length_app; lia).
      rewrite <- take_take, Ht. apply take_app_length.
    + intros i Hi. destruct (decide (i = lenZ out)) as [->|Hne]; [|apply Hn; lia].
      rewrite !Hp by lia. rewrite !nthZ_app by lia. unfold lenZ. rewrite decide_False, decide_True by (unfold lenZ in *; lia).
      rewrite Z.sub_diag. done.
Qed.

(** The periodic reading of a run that repeats itself at distance [off]. *)
Lemma periodic_mod (f : Z -> Z) s off n : 0 < off ->
  (forall i, s + off <= i < s + off + n -> f i = f (i - off)) ->
  forall i, s <= i < s + off + n -> f i = f (s + (i - s) `mod` off).
Proof.
  intros Hoff H. assert (forall k, 0 <= k -> forall i, s <= i < s + off + n -> (i - s) / off = k -> f i = f (s + (i - s) `mod` off)) as G.
  { apply (natlike_ind (fun k => forall i, s <= i < s + off + n -> (i - s) / off = k -> f i = f (s + (i - s) `mod` off))).
    - intros i Hi Hk. rewrite Z.mod_small; [f_equal; lia|]. apply Z.div_small_iff in Hk; lia.
    - intros k Hk IH i Hi Hd. pose proof (Z.div_mod (i - s) off ltac:(lia)) as E. rewrite Hd in E.
      pose proof (Z.mod_pos_bound (i - s) off Hoff). rewrite H by nia.
      assert (Hm : (i - off - s) `mod` off = (i - s) `mod` off).
      { replace (i - off - s) with ((i - s) + (-1) * off) by lia. apply Z_mod_plus_full. }
      rewrite IH; [by rewrite Hm|nia|].
      replace (i - off - s) with ((i - s) + (-1) * off) by lia. rewrite Z_div_plus_full by lia. lia. }
  intros i Hi. apply (G ((i - s) / off)); [apply Z.div_pos; lia|done..].
Qed.

Lemma copy_match_spec fuel : forall dest dest0 dp off len off0,
  1 <= off0 -> (off0 | off) -> 1 <= off <= dp -> 0 <= len -> dp + len <= lenZ dest ->
  len <= off * (2 ^ Z.of_nat fuel - 1) -> (0 < fuel)%nat ->
  (forall i, 0 <= i < off -> nthZ dest (dp - off + i) = nthZ dest0 (dp - off + i `mod` off0)) ->
  exists dest', copy_match fuel dest dp off len = Ok (dest', dp + len) /\ lenZ dest' = lenZ dest /\
    forall i, 0 <= i -> nthZ dest' i =
      if decide (dp <= i < dp + len) then nthZ dest0 (dp - off + (i - (dp - off)) `mod` off0) else nthZ dest i.
Proof.
  induction fuel as [|fuel IH]; intros dest dest0 dp off len off0 H0 Hdiv Hoff Hlen Hdp Hf Hpos Hper; [lia|].
  assert (Hmod : forall i, (i - off) `mod` off0 = i `mod` off0).
  { intros i. destruct Hdiv as [k ->]. replace (i - k * off0) with (i + (- k) * off0) by lia. apply Z_mod_plus_full. }
  cbn [copy_match]. destruct (Z.ltb_spec off len) as [Hlt|Hge].
  - destruct (memcpy_spec dest dp dest (dp - off) off) as (d1 & -> & Hl1 & Hn1); [lia..|]. rewrite bind_val.
    assert (Hfl : (0 < fuel)%nat).
    { destruct fuel; [|lia]. change (2 ^ Z.of_nat 1) with 2 in Hf. lia. }
    destruct (IH d1 dest0 (dp + off) (off + off) (len - off) off0) as (d2 & -> & Hl2 & Hn2).
    + done.
    + by apply Z.divide_add_r.
    + lia.
    + lia.
    + lia.
    + rewrite Nat2Z.inj_succ, Z.pow_succ_r in Hf by lia. nia.
    + done.
    + intros i Hi. replace (dp + off - (off + off)) with (dp - off) by lia. rewrite Hn1 by lia. case_decide.
      * replace (dp - off + (dp - off + i - dp)) with (dp - off + (i - off)) by lia. rewrite Hper by lia. by rewrite Hmod.
      * apply Hper. lia.
    + exists d2. split_and!; [f_equal; f_equal; lia|lia|]. intros i Hi. rewrite Hn2 by done.
      replace (dp + off - (off + off)) with (dp - off) by lia. destruct (decide (dp + off <= i < dp + off + (len - off))).
      * rewrite decide_True by lia. done.
      * rewrite Hn1 by done. destruct (decide (dp <= i < dp + off)).
        -- rewrite decide_True by lia. rewrite Hper by lia. do 2 f_equal. rewrite <- (Hmod (i - (dp - off))). f_equal. lia.
        -- rewrite decide_False by lia. done.
  - destruct (memcpy_spec dest dp dest (dp - off) len) as (d1 & -> & Hl1 & Hn1); [lia..|]. rewrite bind_val.
    exists d1. split_and!; [done|done|]. intros i Hi. rewrite Hn1 by done. case_decide; [|done].
    rewrite Hper by lia. do 2 f_equal. rewrite <- (Hmod (i - (dp - off))). f_equal. lia.
Qed.

(** The buffer with the first bytes replaced by [out]. *)
Definition filled (out dest0 : list Z) : list Z := out ++ drop (length out) dest0.

Lemma lenZ_filled out dest0 : lenZ out <= lenZ dest0 -> lenZ (filled out dest0) = lenZ dest0.
Proof. unfold lenZ, filled. rewrite length_app, length_drop. lia. Qed.

Lemma nthZ_filled out dest0 i : 0 <= i -> nthZ (filled out dest0) i = if decide (i < lenZ out) then nthZ out i else nthZ dest0 i.
Proof.
  intros Hi. unfold filled, lenZ. rewrite nthZ_app by done. case_decide; [done|].
  rewrite <- (Nat2Z.id (length out)) at 1. rewrite nthZ_drop by lia. f_equal. lia.
Qed.

Lemma copy_match_filled out dest0 off len :
  1 <= off <= lenZ out -> 0 <= len <= 273 -> lenZ out + len <= lenZ dest0 ->
  copy_match copy_fuel (filled out dest0) (lenZ out) off len =
  Ok (filled (copy_back (Z.to_nat len) out off) dest0, lenZ out + len).
Proof.
  intros Hoff Hlen Hl. assert (Hlf : lenZ (filled out dest0) = lenZ dest0) by (apply lenZ_filled; lia).
  destruct (copy_match_spec copy_fuel (filled out dest0) (filled out dest0) (lenZ out) off len off)
    as (d & -> & Hld & Hn); [lia|apply Z.divide_refl|lia..| | | |].
  { change (2 ^ Z.of_nat copy_fuel) with 1024. nia. }
  { unfold copy_fuel. lia. }
  { intros i Hi. rewrite Z.mod_small by lia. done. }
  destruct (copy_back_spec (Z.to_nat len) out off Hoff) as (Hlr & Ht & Hr). set (r := copy_back _ _ _) in *.
  rewrite Z2Nat.id in Hlr, Hr by lia. do 2 f_equal. apply list_eq_nthZ; [rewrite lenZ_filled; lia|]. intros i Hi.
  rewrite Hn, (nthZ_filled r) by lia. assert (Hpre : forall j, 0 <= j < lenZ out -> nthZ r j = nthZ out j).
  { intros j Hj. transitivity (nthZ (take (length out) r) j); [|by rewrite Ht].
    rewrite <- (Nat2Z.id (length out)). fold (lenZ out). by rewrite nthZ_take by lia. }
  case_decide.
  - rewrite decide_True by lia. rewrite (periodic_mod (nthZ r) (lenZ out - off) off len); [|lia| |lia].
    + pose proof (Z.mod_pos_bound (i - (lenZ out - off)) off ltac:(lia)). rewrite nthZ_filled by lia.
      rewrite decide_True by lia. rewrite Hpre by lia. done.
    + intros j Hj. apply Hr. lia.
  - rewrite nthZ_filled by lia. destruct (decide (i < lenZ out)).
    + rewrite decide_True by lia. rewrite Hpre by lia. done.
    + rewrite decide_False by lia. done.
Qed.

(** ** The two decoders step by step *)
Section Decode.
Context (src dest0 : list Z) (slen rawsize : Z).
Context (Hbytes : all_bytes src) (Hslen : 0 <= slen) (Hsrc : slen <= lenZ src)
  (Hraw : 0 <= rawsize) (Hdest : rawsize <= lenZ dest0).

(** The input from [sp] on. *)
Definition rest (sp : Z) : list Z := bytes_at src sp (slen - sp).

Lemma rest_cons sp : 0 <= sp < slen -> rest sp = nthZ src sp :: rest (sp + 1).
Proof.
  intros Hsp. apply list_eq_nthZ.
  - unfold rest. rewrite lenZ_bytes_at by lia.
    assert (lenZ (nthZ src sp :: bytes_at src (sp + 1) (slen - (sp + 1))) = 1 + (slen - (sp + 1))); [|lia].
    rewrite <- (lenZ_bytes_at src (sp + 1) (slen - (sp + 1))) at 2 by lia. unfold lenZ. simpl. lia.
  - intros i Hi. unfold rest in *. rewrite lenZ_bytes_at in Hi by lia. rewrite nthZ_bytes_at by lia.
    change (nthZ src sp :: ?l) with ([nthZ src sp] ++ l). rewrite nthZ_app by lia. simpl. case_decide.
    + replace i with 0 by lia. by rewrite Z.add_0_r.
    + rewrite nthZ_bytes_at by lia. f_equal. lia.
Qed.

Lemma rest_nil : rest slen = [].
Proof. unfold rest, bytes_at. by rewrite Z.sub_diag. Qed.

Lemma rest_length sp : 0 <= sp <= slen -> length (rest sp) = Z.to_nat (slen - sp).
Proof. intros. pose proof (lenZ_bytes_at src sp (slen - sp)). unfold rest, lenZ in *. lia. Qed.

Lemma src_byte i : 0 <= i < lenZ src -> aget src i = Ok (nthZ src i) /\ 0 <= nthZ src i < 256.
Proof. intros. split; [apply aget_nthZ; unfold lenZ in *; lia|by apply is_u_nthZ]. Qed.

(** The decoder may read two bytes past the end of its input, but not of a valid one. *)
Definition room {A} (ref : option A) : Prop := slen + 2 <= lenZ src \/ ref <> None.

Lemma room_weaken {A B} (r : option A) (r' : option B) : room r -> (r' = None -> r = None) -> room r'.
Proof. unfold room. naive_solver. Qed.

Lemma land_1_odd c : negb (Z.land c 1 =? 0) = Z.odd c.
Proof.
  change 1 with (Z.ones 1). rewrite Z.land_ones by lia. change (2 ^ 1) with 2. rewrite Zmod_odd. by destruct (Z.odd c).
Qed.

Lemma tag_bounds b0 b1 : 0 <= b0 < 256 -> 0 <= b1 < 256 ->
  0 <= Z.land b0 15 <= 15 /\ 0 <= Z.lor (Z.shiftl (Z.land b0 240) 4) b1.
Proof.
  intros. split.
  - change (Z.land b0 15) with (Z.land b0 (Z.ones 4)). rewrite Z.land_ones by lia. pose proof (Z.mod_pos_bound b0 (2 ^ 4)). lia.
  - apply Z.lor_nonneg. split; [|lia]. apply Z.shiftl_nonneg, Z.land_nonneg. lia.
Qed.

(** What an implementation state and a reference result have in common. *)
Definition agrees (sp : Z) (out : list Z) (ref : option (list Z * list Z)) (st : list Z * option (Z * Z)) : Prop :=
  match ref with
  | Some (s', out') => st.1 = filled out' dest0 /\ lenZ out <= lenZ out' <= rawsize /\
      exists sp', sp <= sp' <= slen /\ s' = rest sp' /\ st.2 = Some (sp', lenZ out')
  | None => st.2 = None /\ exists out', st.1 = filled out' dest0 /\ lenZ out' <= rawsize
  end.

Lemma agrees_weaken sp out sp' out' ref st :
  agrees sp' out' ref st -> sp <= sp' -> lenZ out <= lenZ out' -> agrees sp out ref st.
Proof. unfold agrees. destruct ref as [[s o]|]; [|done]. intros (?&?&x&?&?&?) ??. split_and!; try done; try lia. exists x. split_and!; try done; lia. Qed.

Lemma agrees_same sp out : 0 <= sp <= slen -> lenZ out <= rawsize ->
  agrees sp out (Some (rest sp, out)) (filled out dest0, Some (sp, lenZ out)).
Proof. intros. simpl. split_and!; try done; try lia. exists sp. split_and!; try done; lia. Qed.

Lemma set_next_byte out b : lenZ out < rawsize -> aset (filled out dest0) (lenZ out) b = Ok (filled (out ++ [b]) dest0).
Proof.
  intros H. rewrite aset_Ok by (fold (lenZ (filled out dest0)); rewrite lenZ_filled; unfold lenZ in *; lia).
  f_equal. assert (Hl1 : lenZ (out ++ [b]) = lenZ out + 1) by (unfold lenZ; rewrite length_app; simpl; lia).
  pose proof (lenZ_nonneg out). apply list_eq_nthZ.
  - unfold lenZ at 1. rewrite length_insert. fold (lenZ (filled out dest0)). rewrite !lenZ_filled; lia.
  - intros i Hi. rewrite nthZ_insert by (fold (lenZ (filled out dest0)); rewrite ?lenZ_filled; lia).
    rewrite !nthZ_filled, Hl1 by lia. destruct (decide (lenZ out = i)) as [<-|].
    + rewrite decide_True by lia. rewrite nthZ_app by lia. rewrite decide_False by (unfold lenZ; lia).
      unfold lenZ. by rewrite Z.sub_diag.
    + destruct (decide (i < lenZ out)).
      * rewrite decide_True by lia. rewrite nthZ_app by lia. unfold lenZ in *. by rewrite decide_True by lia.
      * rewrite decide_False by lia. done.
Qed.

Lemma decode_items_ref n : forall ctrl sp out, 0 <= sp <= slen -> lenZ out <= rawsize ->
  room (ref_items n ctrl (rest sp) out rawsize) ->
  exists st, decode_items n src slen rawsize ctrl (filled out dest0) sp (lenZ out) = Ok st /\
    agrees sp out (ref_items n ctrl (rest sp) out rawsize) st.
Proof.
  induction n as [|n IH]; intros ctrl sp out Hsp Hout Hroom; cbn [decode_items].
  { eexists; split; [done|]. by apply agrees_same. }
  pose proof (lenZ_nonneg out).
  destruct (Z.ltb_spec sp slen) as [Hlt|Hge]; cbn [andb]; cycle 1.
  { replace sp with slen by lia. eexists; split; [done|]. rewrite rest_nil. cbn [ref_items].
    rewrite <- rest_nil. apply agrees_same; lia. }
  rewrite (rest_cons sp) in Hroom |- * by lia. cbn [ref_items] in Hroom |- *. destruct (Z.ltb_spec (lenZ out) rawsize) as [Hlo|Hlo]; cycle 1.
  { rewrite (proj2 (Z.leb_le _ _) Hlo), <- (rest_cons sp) by lia. eexists; split; [done|]. apply agrees_same; lia. }
  rewrite (proj2 (Z.leb_gt _ _) Hlo) in Hroom |- *. rewrite land_1_odd. destruct (src_byte sp) as [Hg0 Hb0]; [lia|].
  destruct (Z.odd ctrl); cycle 1.
  { rewrite Hg0, bind_val, set_next_byte, bind_val by lia.
    assert (Hl1 : lenZ (out ++ [nthZ src sp]) = lenZ out + 1) by (unfold lenZ; rewrite length_app; simpl; lia).
    rewrite <- Hl1, Z.shiftr_div_pow2 by lia. change (2 ^ 1) with 2.
    destruct (IH (ctrl / 2) (sp + 1) (out ++ [nthZ src sp])) as (st & -> & Hst); [lia..|done|].
    exists st. split; [done|]. eapply agrees_weaken; [done|lia..]. }
  assert (aget src (sp + 1) = Ok (nthZ src (sp + 1)) /\ 0 <= nthZ src (sp + 1) < 256) as [Hg1 Hb1].
  { destruct (decide (sp + 1 < slen)); [apply src_byte; lia|]. destruct Hroom as [?|Hr]; [apply src_byte; lia|].
    destruct Hr. replace (sp + 1) with slen by lia. by rewrite rest_nil. }
  rewrite Hg0, bind_val, Hg1, bind_val. cbv zeta.
  destruct (tag_bounds _ _ Hb0 Hb1) as [Hlb Hob].
  set (b0 := nthZ src sp) in *. set (b1 := nthZ src (sp + 1)) in *.
  set (off := Z.lor _ _) in *. unfold ref_tag in Hroom |- *.
  assert (Hnone : forall d, agrees sp out None (d, None) <-> exists out', d = filled out' dest0 /\ lenZ out' <= rawsize) by (unfold agrees; naive_solver).
  assert (Hfail : agrees sp out None (filled out dest0, None)) by (apply Hnone; exists out; split; [done|lia]).
  assert (Hcopy : forall len sp', 0 <= len <= 273 -> sp <= sp' <= slen -> off <> 0 -> off <= lenZ out ->
    room (ref_items n (ctrl / 2) (rest sp') (copy_back (Z.to_nat (Z.min len (rawsize - lenZ out))) out off) rawsize) ->
    exists st, ('(dest, dp) ← copy_match copy_fuel (filled out dest0) (lenZ out) off (Z.min len (rawsize - lenZ out));
      decode_items n src slen rawsize (Z.shiftr ctrl 1) dest sp' dp) = Ok st /\
    agrees sp out (ref_items n (ctrl / 2) (rest sp') (copy_back (Z.to_nat (Z.min len (rawsize - lenZ out))) out off) rawsize) st).
  { intros len sp' Hlen Hsp' Ho1 Ho2 Hr. rewrite copy_match_filled, bind_val by lia.
    destruct (copy_back_spec (Z.to_nat (Z.min len (rawsize - lenZ out))) out off) as (Hlr & _ & _); [lia|].
    rewrite Z2Nat.id in Hlr by lia. set (r := copy_back _ _ _) in *. rewrite <- Hlr, Z.shiftr_div_pow2 by lia. change (2 ^ 1) with 2.
    destruct (IH (ctrl / 2) sp' r) as (st & -> & Hst); [lia..|done|]. exists st. split; [done|]. eapply agrees_weaken; [done|lia..]. }
  destruct (decide (sp + 1 < slen)) as [H1|H1]; cycle 1.
  { replace (sp + 1) with slen in Hroom |- * by lia. rewrite rest_nil in Hroom |- *. replace (sp + 2) with (slen + 1) by lia.
    destruct Hroom as [Hr|Hr]; [|by destruct Hr]. destruct (Z.eqb_spec (Z.land b0 15 + 3) 18).
    - destruct (src_byte (slen + 1)) as [-> _]; [lia|]. rewrite !bind_val.
      cbv beta iota. rewrite (proj2 (Z.ltb_lt slen (slen + 1 + 1))) by lia. cbn [orb]. eexists; split; [done|exact Hfail].
    - rewrite bind_val. cbv beta iota. rewrite (proj2 (Z.ltb_lt slen (slen + 1))) by lia. cbn [orb]. eexists; split; [done|exact Hfail]. }
  rewrite (rest_cons (sp + 1)) in Hroom |- * by lia. fold b1 in Hroom |- *. replace (sp + 1 + 1) with (sp + 2) in Hroom |- * by lia.
  revert Hroom. destruct (Z.eqb_spec (Z.land b0 15 + 3) 18) as [H18|H18]; intros Hroom.
  - destruct (decide (sp + 2 < slen)) as [H2|H2]; cycle 1.
    { replace (sp + 2) with slen in Hroom |- * by lia. rewrite rest_nil in Hroom |- *. destruct Hroom as [Hr|Hr]; [|by destruct Hr].
      destruct (src_byte slen) as [-> Hb2]; [lia|]. rewrite !bind_val. cbv beta iota.
      rewrite (proj2 (Z.ltb_lt slen (slen + 1))) by lia. cbn [orb]. eexists; split; [done|exact Hfail]. }
    destruct (src_byte (sp + 2)) as [-> Hb2]; [lia|]. rewrite !bind_val. cbv beta iota.
    rewrite (rest_cons (sp + 2)) in Hroom |- * by lia. replace (sp + 2 + 1) with (sp + 3) in Hroom |- * by lia.
    rewrite (proj2 (Z.ltb_ge slen (sp + 3))) by lia. cbn [orb].
    fold off in Hroom |- *. revert Hroom. destruct (Z.eqb_spec off 0); [eexists; split; [done|exact Hfail]|].
    destruct (Z.ltb_spec (lenZ out) off); [eexists; split; [done|exact Hfail]|].
    cbn [orb]. intros Hroom. apply Hcopy; [lia..|done].
  - rewrite bind_val. cbv beta iota. rewrite (proj2 (Z.ltb_ge slen (sp + 2))) by lia. cbn [orb].
    fold off in Hroom |- *. revert Hroom. destruct (Z.eqb_spec off 0); [eexists; split; [done|exact Hfail]|].
    destruct (Z.ltb_spec (lenZ out) off); [eexists; split; [done|exact Hfail]|].
    cbn [orb]. intros Hroom. apply Hcopy; [lia..|done].
Qed.

Lemma decode_loop_ref fuel : forall n sp out, 0 <= sp <= slen -> lenZ out <= rawsize ->
  slen - sp < Z.of_nat fuel -> slen - sp <= Z.of_nat n -> room (ref_loop n (rest sp) out rawsize) ->
  exists st, decode_loop fuel src slen rawsize (filled out dest0) sp (lenZ out) = Ok st /\
    agrees sp out (ref_loop n (rest sp) out rawsize) st.
Proof.
  induction fuel as [|fuel IH]; intros n sp out Hsp Hout Hf Hn Hroom; [lia|]. cbn [decode_loop].
  destruct (Z.ltb_spec sp slen) as [Hlt|Hge]; cbn [andb]; cycle 1.
  { replace sp with slen by lia. eexists; split; [done|].
    replace (ref_loop n (rest slen) out rawsize) with (Some (rest slen, out)) by (rewrite rest_nil; by destruct n).
    apply agrees_same; lia. }
  destruct n as [|n]; [lia|]. rewrite (rest_cons sp) in Hroom |- * by lia. cbn [ref_loop] in Hroom |- *.
  destruct (Z.ltb_spec (lenZ out) rawsize) as [Hlo|Hlo]; cycle 1.
  { rewrite (proj2 (Z.leb_le _ _) Hlo), <- (rest_cons sp) by lia. eexists; split; [done|]. apply agrees_same; lia. }
  rewrite (proj2 (Z.leb_gt _ _) Hlo) in Hroom |- *. destruct (src_byte sp) as [-> _]; [lia|]. rewrite bind_val.
  destruct (decode_items_ref 8 (nthZ src sp) (sp + 1) out) as ([d r] & -> & Hag); [lia..| |].
  { eapply room_weaken; [exact Hroom|]. by intros ->. }
  rewrite bind_val.
  unfold agrees in Hag. destruct (ref_items _ _ _ _ _) as [[s' out']|]; cbn [fst snd] in Hag.
  - destruct Hag as (-> & Hlo' & sp' & Hsp' & -> & ->).
    destruct (IH n sp' out') as (st & -> & Hst); [lia..|done|]. exists st. split; [done|]. eapply agrees_weaken; [done|lia..].
  - destruct Hag as (-> & out' & -> & Ho). eexists; split; [done|]. split; [done|]. exists out'. done.
Qed.
End Decode.

(** What [pglz_decompress] returns for a result of the reference decoder. *)
Definition decompressed (dest : list Z) (rawsize : Z) (check_complete : bool)
    (ref : option (list Z * list Z)) (dest' : list Z) (r : Z) : Prop :=
  match ref with
  | Some (unread, out) => dest' = filled out dest /\ lenZ out <= rawsize /\
      r = (if check_complete && negb (bool_decide (lenZ out = rawsize /\ unread = [])) then -1 else lenZ out)
  | None => r = -1 /\ lenZ dest' = lenZ dest /\ (forall a, rawsize <= a -> nthZ dest' a = nthZ dest a)
  end.

Lemma decompress_ref src slen dest rawsize check_complete :
  all_bytes src -> 0 <= slen <= lenZ src -> 0 <= rawsize <= lenZ dest ->
  let ref := ref_decompress (take (Z.to_nat slen) src) rawsize in
  slen + 2 <= lenZ src \/ ref <> None ->
  exists dest' r, pglz_decompress src slen dest rawsize check_complete = Ok (dest', r) /\
    decompressed dest rawsize check_complete ref dest' r.
Proof.
  intros Hb Hs Hr. assert (Hrest : rest src slen 0 = take (Z.to_nat slen) src) by (unfold rest, bytes_at; by rewrite drop_0, Z.sub_0_r).
  intros ref Hroom. unfold ref, ref_decompress in Hroom |- *. rewrite <- Hrest in Hroom |- *. rewrite (rest_length src dest slen) in Hroom |- * by lia.
  destruct (decode_loop_ref src dest slen rawsize Hb ltac:(lia) ltac:(lia) ltac:(lia) (S (Z.to_nat slen))
    (Z.to_nat (slen - 0)) 0 []) as ([d p] & Hd & Hag); [lia|unfold lenZ; simpl; lia|lia|lia|done|].
  unfold pglz_decompress. change (filled [] dest) with dest in Hd. change (lenZ (@nil Z)) with 0 in Hd. rewrite Hd, bind_val.
  unfold agrees in Hag. destruct (ref_loop _ _ _ _) as [[unread out]|]; simpl in Hag.
  - destruct Hag as (-> & Hlo & sp' & Hsp & -> & ->). assert (Hnil : rest src slen sp' = [] <-> sp' = slen).
    { pose proof (rest_length src dest slen ltac:(lia) sp' ltac:(lia)) as Hlen.
      split; [|intros ->; by apply rest_nil]. intros E. rewrite E in Hlen. simpl in Hlen. lia. }
    exists (filled out dest). eexists. split; cycle 1; [split_and!; [done|lia|reflexivity]|].
    destruct check_complete; simpl; [|done]. destruct (Z.eqb_spec (lenZ out) rawsize), (Z.eqb_spec sp' slen); simpl.
    all: case_bool_decide; simpl; try done; tauto.
  - destruct Hag as (-> & out & -> & Ho). do 2 eexists. split; [done|]. split_and!; [done|apply lenZ_filled; lia|].
    intros a Ha. destruct (decide (0 <= a)); [|lia]. rewrite nthZ_filled by done. rewrite decide_False by lia. done.
Qed.



