(* ===== verification/PgLzStream.v ===== *)
(** The compressed format of [pg_lzcompress.c]: literals and back references in
    groups of eight under a control byte.  A stream that describes an input is
    decoded to that input by the reference decoder, and a prefix of the stream
    of the size computed by [pglz_maximum_compressed_size] is enough to decode a
    prefix of the input. *)
From S2P Require Import Prelude ByteMem PgLz PgLzDecode.

(** ** Tokens and streams *)
Inductive token := Lit (b : Z) | Ref (len off : Z).

Definition tok_len (t : token) : Z := match t with Lit _ => 1 | Ref len _ => len end.
Definition tok_bit (t : token) : Z := match t with Lit _ => 0 | Ref _ _ => 1 end.
Definition tok_bytes (t : token) : list Z :=
  match t with
  | Lit b => [b]
  | Ref len off =>
    if 17 <? len then [16 * (off / 256) + 15; off `mod` 256; len - 18]
    else [16 * (off / 256) + (len - 3); off `mod` 256]
  end.

Fixpoint ctrl_byte (g : list token) : Z :=
  match g with [] => 0 | t :: g => tok_bit t + 2 * ctrl_byte g end.
Definition body (g : list token) : list Z := concat (map tok_bytes g).
Definition group (g : list token) : list Z := ctrl_byte g :: body g.
Definition stream (gs : list (list token)) : list Z := concat (map group gs).

(** All groups have eight items, the last one at least one. *)
Fixpoint groups_ok (gs : list (list token)) : Prop :=
  match gs with
  | [] => True
  | [g] => (1 <= length g <= 8)%nat
  | g :: gs => length g = 8%nat /\ groups_ok gs
  end.

(** The token describes the input at position [p]. *)
Definition tok_ok (src : list Z) (p : Z) (t : token) : Prop :=
  match t with
  | Lit b => nthZ src p = b
  | Ref len off => 3 <= len <= 273 /\ 1 <= off <= 4094 /\ off <= p /\
      forall i, p <= i < p + len -> nthZ src i = nthZ src (i - off)
  end.
(** The tokens describe the input from [p] to [q]. *)
Fixpoint describes (src : list Z) (p : Z) (ts : list token) (q : Z) : Prop :=
  match ts with
  | [] => p = q
  | t :: ts => tok_ok src p t /\ describes src (p + tok_len t) ts q
  end.

Lemma tok_len_pos src p t : tok_ok src p t -> 1 <= tok_len t.
Proof. destruct t; simpl; lia. Qed.

Lemma describes_le src ts : forall p q, describes src p ts q -> p + Z.of_nat (length ts) <= q.
Proof.
  induction ts as [|t ts IH]; intros p q; simpl; [lia|]. intros [Ht Hc].
  pose proof (tok_len_pos _ _ _ Ht). apply IH in Hc. lia.
Qed.

Lemma describes_app src ts ts' : forall p q, describes src p (ts ++ ts') q <-> exists m, describes src p ts m /\ describes src m ts' q.
Proof.
  induction ts as [|t ts IH]; intros p q; simpl.
  - naive_solver.
  - rewrite IH. naive_solver.
Qed.

(** ** Decoding one token *)
Lemma ref_tag_bytes len off tl : 3 <= len <= 273 -> 1 <= off <= 4094 ->
  ref_tag (tok_bytes (Ref len off) ++ tl) = Some (len, off, tl).
Proof.
  intros Hlen Hoff. assert (Hh : 0 <= off / 256 < 16) by (split; [apply Z.div_pos|apply Z.div_lt_upper_bound]; lia).
  pose proof (Z.mod_pos_bound off 256 ltac:(lia)) as Hm. pose proof (Z.div_mod off 256 ltac:(lia)) as Hdm.
  assert (G : forall n, 0 <= n < 16 -> Z.land (16 * (off / 256) + n) 15 = n /\
    Z.lor (Z.shiftl (Z.land (16 * (off / 256) + n) 240) 4) (off `mod` 256) = off).
  { intros n Hn. set (h := off / 256) in *. split.
    - change 15 with (Z.ones 4). rewrite Z.land_ones by lia. change (2 ^ 4) with 16. Z.to_euclidean_division_equations. lia.
    - assert (Z.land (16 * h + n) 240 = 16 * h) as ->.
      { change 240 with (Z.shiftl (Z.ones 4) 4). replace (16 * h + n) with (Z.lor n (Z.shiftl h 4)).
        2: { rewrite lor_shiftl_add by (unfold is_u; lia). lia. }
        replace (16 * h) with (Z.shiftl h 4) by (rewrite Z.shiftl_mul_pow2; lia).
        apply Z.bits_inj'. intros i Hi. rewrite Z.land_spec, Z.lor_spec, !Z.shiftl_spec by lia.
        destruct (decide (i < 4)).
        - rewrite !(Z.testbit_neg_r _ (i - 4)) by lia. by rewrite andb_false_r.
        - rewrite (is_u_testbit 4 n) by (unfold is_u; lia). simpl. destruct (decide (i - 4 < 4)).
          + rewrite Z.ones_spec_low by lia. apply andb_true_r.
          + rewrite (is_u_testbit 4 h) by (unfold is_u; lia). done. }
      rewrite Z.lor_comm. replace (Z.shiftl (16 * h) 4) with (Z.shiftl h 8) by (rewrite !Z.shiftl_mul_pow2; lia).
      rewrite lor_shiftl_add by (unfold is_u; lia). change (2 ^ 8) with 256. lia. }
  unfold tok_bytes, ref_tag. destruct (Z.ltb_spec 17 len); simpl.
  - destruct (G 15) as [-> ->]; [lia|]. change (15 + 3 =? 18) with true. simpl. do 3 f_equal. lia.
  - destruct (G (len - 3)) as [-> ->]; [lia|]. destruct (Z.eqb_spec (len - 3 + 3) 18); [lia|]. do 3 f_equal. lia.
Qed.

Lemma lenZ_tok_bytes src p t : tok_ok src p t -> 1 <= lenZ (tok_bytes t) <= 3 /\ lenZ (tok_bytes t) <= tok_len t.
Proof. unfold lenZ. destruct t as [b|len off]; simpl; [lia|]. intros (?&?&?). destruct (Z.ltb_spec 17 len); simpl; lia. Qed.

(** The first [n] bytes of the input. *)
Definition upto (src : list Z) (n : Z) : list Z := take (Z.to_nat n) src.

Lemma lenZ_upto src n : 0 <= n <= lenZ src -> lenZ (upto src n) = n.
Proof. unfold lenZ, upto. rewrite length_take. lia. Qed.

Lemma nthZ_upto src n i : 0 <= i < n -> nthZ (upto src n) i = nthZ src i.
Proof. apply nthZ_take. Qed.

Lemma upto_succ src n : 0 <= n < lenZ src -> upto src n ++ [nthZ src n] = upto src (n + 1).
Proof.
  intros Hn. apply list_eq_nthZ.
  - rewrite lenZ_upto by lia. unfold lenZ at 1. rewrite length_app. pose proof (lenZ_upto src n ltac:(lia)). unfold lenZ in *. simpl. lia.
  - intros i Hi. unfold lenZ in Hi. rewrite length_app in Hi. simpl in Hi. pose proof (lenZ_upto src n ltac:(lia)) as Hl.
    rewrite nthZ_app by lia. unfold lenZ in Hl. rewrite Hl in *. rewrite (nthZ_upto _ (n + 1)) by lia. case_decide.
    + apply nthZ_upto. lia.
    + replace i with n by lia. by rewrite Z.sub_diag.
Qed.

Lemma copy_back_upto src n : forall p off, 1 <= off <= p -> p + Z.of_nat n <= lenZ src ->
  (forall i, p <= i < p + Z.of_nat n -> nthZ src i = nthZ src (i - off)) ->
  copy_back n (upto src p) off = upto src (p + Z.of_nat n).
Proof.
  induction n as [|n IH]; intros p off Hoff Hl H; cbn [copy_back].
  - f_equal. lia.
  - rewrite lenZ_upto, nthZ_upto by lia. rewrite <- H by lia. rewrite upto_succ by lia.
    rewrite IH; [f_equal; lia|lia|lia|]. intros i Hi. apply H. lia.
Qed.

(** ** Decoding a stream of which [k] bytes are available *)
(** Enough bytes to produce [r] more bytes of output with [j] items left in the
    group, in the worst case. *)
Definition need (j r : Z) : Z :=
  if r <=? 0 then 0 else r + 2 + (if r <=? j then 0 else (r - j + 7) / 8).
Definition avail (k j r : Z) (s : list Z) : Prop := need j r <= k \/ lenZ s <= k.

Lemma take_cons_avail (k x : Z) s : 1 <= k -> take (Z.to_nat k) (x :: s) = x :: take (Z.to_nat (k - 1)) s.
Proof. intros. replace (Z.to_nat k) with (S (Z.to_nat (k - 1))) by lia. done. Qed.

Lemma take_app_avail (k : Z) (l s : list Z) : lenZ l <= k -> take (Z.to_nat k) (l ++ s) = l ++ take (Z.to_nat (k - lenZ l)) s.
Proof.
  intros. rewrite take_app_ge by (unfold lenZ in *; lia). do 2 f_equal. unfold lenZ. lia.
Qed.

(** The arithmetic of [need]: one item, and one control byte. *)
Lemma need_item j r m n : 1 <= j -> 1 <= r -> 1 <= m <= 3 -> m <= n -> need (j - 1) (r - n) <= need j r - m /\ 3 <= need j r.
Proof.
  intros. unfold need. repeat zcase; try lia.
  all: Z.to_euclidean_division_equations; lia.
Qed.

Lemma need_group r : 1 <= r -> need 8 r <= need 0 r - 1.
Proof. intros. unfold need. repeat zcase; try lia. all: Z.to_euclidean_division_equations; lia. Qed.

Lemma need_nonneg j r : 0 <= need j r.
Proof. unfold need. repeat zcase; try lia. assert (0 <= (r - j + 7) / 8) by (apply Z.div_pos; lia). lia. Qed.

Section Stream.
Context (src : list Z) (rawsize : Z) (Hraw : 0 <= rawsize <= lenZ src).

(** What decoding up to [q] gives: the bytes before [q] or before [rawsize],
    and the input after the tokens if they were all needed. *)
Definition decoded (q k j : Z) (tail : list Z) (r : option (list Z * list Z)) : Prop :=
  exists s', r = Some (s', upto src (Z.min q rawsize)) /\
    (q <= rawsize -> 0 <= k /\ s' = take (Z.to_nat k) tail /\ avail k j (rawsize - q) tail).

Lemma ref_items_full n c s out : rawsize <= lenZ out -> ref_items n c s out rawsize = Some (s, out).
Proof. intros. destruct n, s; try done. cbn [ref_items]. by rewrite (proj2 (Z.leb_le _ _)) by lia. Qed.

Lemma ref_items_token n c t tl p : tok_ok src p t -> 0 <= p < rawsize ->
  ref_items (S n) (tok_bit t + 2 * c) (tok_bytes t ++ tl) (upto src p) rawsize =
  ref_items n c tl (upto src (Z.min (p + tok_len t) rawsize)) rawsize.
Proof.
  intros Ht Hp. assert (Hlp : lenZ (upto src p) = p) by (apply lenZ_upto; lia).
  assert (Hdiv : forall b, 0 <= b <= 1 -> (b + 2 * c) / 2 = c) by (intros; Z.to_euclidean_division_equations; lia).
  assert (Hodd : Z.odd (tok_bit t + 2 * c) = negb (tok_bit t =? 0)) by (rewrite Z.odd_add_mul_2; by destruct t).
  destruct t as [b|len off]; cbn [tok_bit tok_len] in *.
  - cbn [tok_bytes app ref_items]. rewrite Hodd, Hlp, (proj2 (Z.leb_gt _ _)), Hdiv by lia. simpl.
    rewrite <- Ht, upto_succ by lia. do 2 f_equal. lia.
  - pose proof Ht as (Hlen & Hoff & Hop & Heq). pose proof (ref_tag_bytes len off tl Hlen Hoff) as Htag.
    assert (exists b0 rest, tok_bytes (Ref len off) ++ tl = b0 :: rest) as (b0 & rst & E)
      by (unfold tok_bytes; destruct (17 <? len); simpl; eauto).
    rewrite E in *. cbn [ref_items]. rewrite Hodd, Hlp, (proj2 (Z.leb_gt _ _)), Htag, Hdiv by lia. cbn [negb Z.eqb].
    rewrite (proj2 (Z.eqb_neq off 0)), (proj2 (Z.ltb_ge p off)) by lia. cbn [orb].
    rewrite copy_back_upto; [|lia|lia|intros i Hi; apply Heq; lia]. do 2 f_equal. lia.
Qed.

Lemma ref_items_stream g : forall n p q k tail,
  describes src p g q -> 0 <= p <= rawsize -> (length g <= n)%nat -> ((length g < n)%nat -> tail = []) ->
  avail k (Z.of_nat n) (rawsize - p) (body g ++ tail) ->
  decoded q (k - lenZ (body g)) (Z.of_nat (n - length g)) tail
    (ref_items n (ctrl_byte g) (take (Z.to_nat k) (body g ++ tail)) (upto src p) rawsize).
Proof.
  induction g as [|t g IH]; intros n p q k tail Hc Hp Hn Htail Hav.
  - simpl in Hc. subst q. change (body [] ++ tail) with tail in *. rewrite Nat.sub_0_r.
    assert (ref_items n (ctrl_byte []) (take (Z.to_nat k) tail) (upto src p) rawsize = Some (take (Z.to_nat k) tail, upto src p)) as ->.
    { destruct n as [|n]; [by destruct (take _ _)|]. rewrite Htail by (simpl; lia). by rewrite take_nil. }
    eexists. rewrite Z.min_l by lia. split; [done|]. intros _. change (lenZ (body [])) with 0. rewrite Z.sub_0_r.
    split_and!; [|done|done]. pose proof (lenZ_nonneg tail). pose proof (need_nonneg (Z.of_nat n) (rawsize - p)). destruct Hav; lia.
  - destruct n as [|n]; [simpl in Hn; lia|]. destruct Hc as [Ht Hc]. pose proof (describes_le _ _ _ _ Hc).
    pose proof (tok_len_pos _ _ _ Ht). destruct (decide (p = rawsize)) as [->|Hne].
    { rewrite ref_items_full by (rewrite lenZ_upto; lia). eexists. rewrite Z.min_r by lia. split; [done|]. lia. }
    pose proof (lenZ_tok_bytes _ _ _ Ht) as [Hb1 Hb2].
    assert (Hbody : body (t :: g) ++ tail = tok_bytes t ++ (body g ++ tail)) by (unfold body; simpl; by rewrite app_assoc).
    rewrite Hbody in *. destruct (need_item (Z.of_nat (S n)) (rawsize - p) (lenZ (tok_bytes t)) (tok_len t)) as [Hn1 Hn2]; [lia..|].
    assert (Hk : lenZ (tok_bytes t) <= k).
    { destruct Hav as [?|Hav]; [lia|]. rewrite lenZ_app in Hav. pose proof (lenZ_nonneg (body g ++ tail)). lia. }
    rewrite take_app_avail by done. cbn [ctrl_byte]. rewrite ref_items_token by (done || lia).
    replace (Z.of_nat (S n - length (t :: g))) with (Z.of_nat (n - length g)) by (simpl; lia).
    destruct (decide (p + tok_len t <= rawsize)) as [Hle|Hgt].
    + rewrite Z.min_l by lia. simpl in Hn, Htail.
      destruct (IH n (p + tok_len t) q (k - lenZ (tok_bytes t)) tail Hc) as (s' & Hr & Hs'); [lia|lia|intros; apply Htail; lia| |].
      { destruct Hav as [Hav|Hav]; [left|right; rewrite lenZ_app in Hav; lia].
        replace (Z.of_nat n) with (Z.of_nat (S n) - 1) by lia. replace (rawsize - (p + tok_len t)) with (rawsize - p - tok_len t) by lia. lia. }
      exists s'. split; [done|]. intros Hq. replace (k - lenZ (body (t :: g))) with (k - lenZ (tok_bytes t) - lenZ (body g)); [by apply Hs'|].
      unfold body. cbn [map concat]. rewrite lenZ_app. lia.
    + rewrite Z.min_r by lia. rewrite ref_items_full by (rewrite lenZ_upto; lia). eexists. rewrite Z.min_r by lia. split; [done|]. lia.
Qed.

Lemma ref_loop_full n s out : rawsize <= lenZ out -> ref_loop n s out rawsize = Some (s, out).
Proof. intros. destruct n, s; try done. cbn [ref_loop]. by rewrite (proj2 (Z.leb_le _ _)) by lia. Qed.

Lemma ref_loop_stream gs : forall n p q k,
  groups_ok gs -> describes src p (concat gs) q -> 0 <= p <= rawsize -> rawsize <= q ->
  avail k 0 (rawsize - p) (stream gs) -> lenZ (take (Z.to_nat k) (stream gs)) <= Z.of_nat n ->
  exists s', ref_loop n (take (Z.to_nat k) (stream gs)) (upto src p) rawsize = Some (s', upto src rawsize) /\
    (rawsize = q -> s' = []).
Proof.
  induction gs as [|g gs IH]; intros n p q k Hg Hc Hp Hq Hav Hn.
  { simpl in Hc. subst q. replace p with rawsize by lia. change (stream []) with (@nil Z). rewrite take_nil. exists []. split; [by destruct n|done]. }
  simpl in Hc. pose proof Hc as Hc'. apply describes_app in Hc' as (m & Hcg & Hcs). pose proof (describes_le _ _ _ _ Hcg) as Hlg.
  pose proof (describes_le _ _ _ _ Hcs) as Hls.
  assert (Hg1 : (1 <= length g <= 8)%nat) by (destruct gs; simpl in Hg; lia).
  destruct (decide (p = rawsize)) as [->|Hne].
  { rewrite ref_loop_full by (rewrite lenZ_upto; lia). eexists. split; [done|]. lia. }
  change (stream (g :: gs)) with (ctrl_byte g :: body g ++ stream gs) in *.
  assert (Hk : 1 <= k).
  { destruct Hav as [Hav|Hav]; [pose proof (need_item 1 (rawsize - p) 1 1); unfold need in Hav; repeat zcase; try lia|].
    - assert (0 <= (rawsize - p - 0 + 7) / 8) by (apply Z.div_pos; lia). lia.
    - unfold lenZ in Hav. simpl in Hav. lia. }
  rewrite take_cons_avail in Hn |- * by done. unfold lenZ in Hn. simpl in Hn.
  destruct n as [|n]; [lia|]. cbn [ref_loop]. rewrite lenZ_upto by lia. rewrite (proj2 (Z.leb_gt _ _)) by lia.
  destruct (ref_items_stream g 8 p m (k - 1) (stream gs)) as (s' & -> & Hs'); [done|lia|lia| | |].
  { destruct gs; [done|]. simpl in Hg. lia. }
  { destruct Hav as [Hav|Hav]; [left; pose proof (need_group (rawsize - p) ltac:(lia)); change (Z.of_nat 8) with 8; lia|right; unfold lenZ in *; simpl in Hav; lia]. }
  destruct (decide (m <= rawsize)) as [Hm|Hm].
  - rewrite Z.min_l by lia. destruct (Hs' Hm) as (Hk' & -> & Hav'). apply IH with (q := q); [|done|lia|lia| |].
    + destruct gs; [done|]. by destruct Hg.
    + destruct gs as [|g' gs]; [right; unfold lenZ in *; simpl in *; lia|].
      destruct Hg as [Hg8 _]. rewrite Hg8 in Hav'. done.
    + rewrite length_take, length_app in Hn. unfold lenZ. rewrite length_take. unfold lenZ in *. lia.
  - rewrite Z.min_r by lia. rewrite ref_loop_full by (rewrite lenZ_upto; lia). eexists. split; [done|]. lia.
Qed.
End Stream.

(** A stream, or a large enough part of it, decodes to what it describes. *)
Lemma stream_decompress src rawsize gs slen k :
  groups_ok gs -> describes src 0 (concat gs) slen -> 0 <= rawsize <= slen -> slen <= lenZ src ->
  pglz_maximum_compressed_size rawsize (lenZ (stream gs)) <= k -> lenZ (stream gs) < 2 ^ 31 ->
  exists s', ref_decompress (take (Z.to_nat k) (stream gs)) rawsize = Some (s', upto src rawsize) /\
    (rawsize = slen -> s' = []).
Proof.
  intros Hg Hc Hr Hl Hk Hs. unfold ref_decompress. change (@nil Z) with (upto src 0).
  apply ref_loop_stream with (q := slen); try done; try lia.
  revert Hk. unfold pglz_maximum_compressed_size. rewrite Z.quot_div_nonneg by lia.
  pose proof (lenZ_nonneg (stream gs)). assert (0 <= (rawsize * 9 + 7) / 8) by (apply Z.div_pos; lia).
  rewrite wraps_small by (unfold is_s; lia). intros Hk. unfold avail, need.
  destruct (Z.leb_spec (rawsize - 0) 0); [left; lia|]. destruct (Z.leb_spec (rawsize - 0) 0); [lia|].
  assert ((rawsize * 9 + 7) / 8 = rawsize + (rawsize - 0 - 0 + 7) / 8) by (Z.to_euclidean_division_equations; lia). lia.
Qed.
