(* ===== verification/PgLzHistory.v ===== *)
(** The history table of the compressor of [pg_lzcompress.c]: a ring of the last
    4096 input positions, threaded by one doubly linked list per hash key, newest
    position first.  The invariant [hist_ok] says what every link is; adding a
    position and recycling the oldest keep it, and a walk along a list meets
    strictly decreasing positions, so it ends and finds only real matches. *)
From S2P Require Import Prelude ByteMem PgLz.

(** ** Slots of the ring *)
Definition slot (x : Z) : Z := 1 + x `mod` PGLZ_HISTORY_SIZE.
Definition slot0 (o : option Z) : Z := match o with None => INVALID_ENTRY | Some x => slot x end.

Lemma slot_range x : 1 <= slot x <= PGLZ_HISTORY_SIZE.
Proof. unfold slot, PGLZ_HISTORY_SIZE. pose proof (Z.mod_pos_bound x 4096). lia. Qed.

Lemma slot0_range o : 0 <= slot0 o <= PGLZ_HISTORY_SIZE.
Proof. destruct o as [x|]; simpl; [pose proof (slot_range x); lia|done]. Qed.

Lemma slot_inj x y : slot x = slot y -> Z.abs (x - y) < PGLZ_HISTORY_SIZE -> x = y.
Proof. unfold slot, PGLZ_HISTORY_SIZE. intros. Z.to_euclidean_division_equations. lia. Qed.

Lemma slot_recycle x : slot (x + PGLZ_HISTORY_SIZE) = slot x.
Proof. unfold slot, PGLZ_HISTORY_SIZE. replace (x + 4096) with (x + 1 * 4096) by lia. by rewrite Z_mod_plus_full. Qed.

(** Array accesses of any type, by index. *)
Lemma aget_aset {A} (l l' : list A) i j (x : A) : aset l i x = Ok l' -> aget l' j = if decide (i = j) then Ok x else aget l j.
Proof.
  unfold aset. destruct (Z.ltb_spec i 0); [done|]. destruct (Z.leb_spec (Z.of_nat (length l)) i); [done|]. simpl. intros [= <-].
  unfold aget. destruct (Z.ltb_spec j 0); [by rewrite decide_False by lia|]. case_decide as Hd.
  - subst. by rewrite list_lookup_insert_eq by lia.
  - by rewrite list_lookup_insert_ne by lia.
Qed.

Lemma aset_total {A} (l : list A) i (x : A) : 0 <= i < lenZ l -> exists l', aset l i x = Ok l' /\ lenZ l' = lenZ l.
Proof. intros. unfold lenZ in *. rewrite aset_Ok by lia. eexists; split; [done|]. by rewrite length_insert. Qed.

Lemma aget_total {A} (l : list A) i : 0 <= i < lenZ l -> exists x, aget l i = Ok x.
Proof.
  intros. unfold aget, lenZ in *. destruct (Z.ltb_spec i 0); [lia|].
  destruct (lookup_lt_is_Some_2 l (Z.to_nat i)) as [x ->]; [lia|]. by exists x.
Qed.

Lemma nthZ_aset l l' i j x : aset l i x = Ok l' -> 0 <= j -> nthZ l' j = if decide (i = j) then x else nthZ l j.
Proof.
  unfold aset. destruct (Z.ltb_spec i 0); [done|]. destruct (Z.leb_spec (Z.of_nat (length l)) i); [done|]. simpl. intros [= <-] ?.
  apply nthZ_insert; lia.
Qed.

Section History.
Context (src : list Z) (slen bits : Z).
Context (Hslen : 0 <= slen <= lenZ src) (Hbits : 0 <= bits).
#[local] Notation mask := (Z.ones bits).

(** ** Hash keys *)
Definition hidx (s : Z) : Z :=
  if slen - s <? 4 then Z.land (schar (nthZ src s)) mask
  else Z.land (Z.lxor (Z.lxor (Z.lxor (Z.shiftl (schar (nthZ src s)) 6) (Z.shiftl (schar (nthZ src (s + 1))) 4))
                  (Z.shiftl (schar (nthZ src (s + 2))) 2)) (schar (nthZ src (s + 3)))) mask.

Lemma src_get i : 0 <= i < slen -> aget src i = Ok (nthZ src i).
Proof. intros. apply aget_nthZ. fold (lenZ src). lia. Qed.

Lemma hist_idx_ok s : 0 <= s < slen -> pglz_hist_idx src s slen mask = Ok (hidx s).
Proof.
  intros Hs. unfold pglz_hist_idx, hidx. rewrite (src_get s), bind_val by lia.
  destruct (Z.ltb_spec (slen - s) 4); [done|]. by rewrite !src_get by lia.
Qed.

Lemma hidx_range s : 0 <= hidx s < 2 ^ bits.
Proof. unfold hidx. case_match; rewrite Z.land_ones by lia; apply Z.mod_pos_bound; lia. Qed.

(** ** The invariant *)
(** The greatest and the least position in a range with a given key. *)
Definition is_last (lo hi h : Z) (o : option Z) : Prop :=
  match o with
  | None => forall x, lo <= x < hi -> hidx x <> h
  | Some y => lo <= y < hi /\ hidx y = h /\ forall x, y < x < hi -> hidx x <> h
  end.
Definition is_first (lo hi h : Z) (o : option Z) : Prop :=
  match o with
  | None => forall x, lo <= x < hi -> hidx x <> h
  | Some y => lo <= y < hi /\ hidx y = h /\ forall x, lo <= x < y -> hidx x <> h
  end.

Definition entry_ok (lo hi x : Z) (e : PGLZ_HistEntry) : Prop :=
  exists o1 o2, is_last lo x (hidx x) o1 /\ is_first (x + 1) hi (hidx x) o2 /\
    e = mkEntry (Some (slot0 o1)) (slot <$> o2) (hidx x) x.

Record hist_ok (lo hi : Z) (hs : list Z) (he : list PGLZ_HistEntry) : Prop := {
  h_range : 0 <= lo <= hi /\ hi <= slen;
  h_window : hi - lo <= PGLZ_HISTORY_SIZE;
  h_hs : 2 ^ bits <= lenZ hs;
  h_he : lenZ he = PGLZ_HISTORY_SIZE + 1;
  h_start : forall h, 0 <= h < 2 ^ bits -> exists o, is_last lo hi h o /\ nthZ hs h = slot0 o;
  h_entry : forall x, lo <= x < hi -> exists e, aget he (slot x) = Ok e /\ entry_ok lo hi x e }.

(** ** Ranges that grow or shrink by one *)
Lemma is_last_shrink lo hi h o : is_last lo hi h o -> o <> Some lo -> is_last (lo + 1) hi h o.
Proof.
  destruct o as [y|]; simpl.
  - intros (?&?&?) Hne. assert (y <> lo) by congruence. split_and!; try done; lia.
  - intros H _ x Hx. apply H. lia.
Qed.

Lemma is_last_lo lo hi h : is_last lo hi h (Some lo) -> is_last (lo + 1) hi h None.
Proof. simpl. intros (_&_&H) x Hx. apply H. lia. Qed.

Lemma is_last_extend lo hi h o : is_last lo hi h o -> lo <= hi -> is_last lo (hi + 1) h (if decide (hidx hi = h) then Some hi else o).
Proof.
  intros Ho Hle. case_decide as Hd.
  - split_and!; [lia|lia|done|]. intros. lia.
  - destruct o as [y|]; simpl in *.
    + destruct Ho as (?&?&Ho). split_and!; [lia|lia|done|]. intros x Hx. destruct (decide (x = hi)) as [->|]; [done|]. apply Ho. lia.
    + intros x Hx. destruct (decide (x = hi)) as [->|]; [done|]. apply Ho. lia.
Qed.

Lemma is_first_extend lo hi h o : is_first lo hi h o -> lo <= hi ->
  is_first lo (hi + 1) h (match o with Some y => Some y | None => if decide (hidx hi = h) then Some hi else None end).
Proof.
  intros Ho Hle. destruct o as [y|]; simpl in *.
  - destruct Ho as (?&?&?). split_and!; [lia|lia|done|done].
  - case_decide as Hd; simpl.
    + split_and!; [lia|lia|done|done].
    + intros x Hx. destruct (decide (x = hi)) as [->|]; [done|]. apply Ho. lia.
Qed.

(** ** Recycling the oldest position *)
Lemma entry_shrink lo hi x e : entry_ok lo hi x e -> is_last lo x (hidx x) (Some lo) \/ entry_ok (lo + 1) hi x e.
Proof.
  intros (o1 & o2 & H1 & H2 & ->). destruct (decide (o1 = Some lo)) as [->|Hne]; [by left|right].
  exists o1, o2. split_and!; [by apply is_last_shrink|done|done].
Qed.

Lemma start_shrink lo hi hs : (forall h, 0 <= h < 2 ^ bits -> exists o, is_last lo hi h o /\ nthZ hs h = slot0 o) ->
  forall h, 0 <= h < 2 ^ bits -> is_last lo hi h (Some lo) \/ exists o, is_last (lo + 1) hi h o /\ nthZ hs h = slot0 o.
Proof.
  intros H h Hh. destruct (H h Hh) as (o & Ho & Hn). destruct (decide (o = Some lo)) as [->|Hne]; [by left|right].
  exists o. split; [by apply is_last_shrink|done].
Qed.

Lemma hist_unlink_ok lo hs he : hist_ok lo (lo + PGLZ_HISTORY_SIZE) hs he ->
  exists hs' he', pglz_hist_unlink hs he (slot lo) = Ok (hs', he') /\ hist_ok (lo + 1) (lo + PGLZ_HISTORY_SIZE) hs' he'.
Proof.
  intros [Hr Hw Hhs Hhe Hst Hen]. set (hi := lo + PGLZ_HISTORY_SIZE) in *. assert (hi = lo + 4096) as Hhi by done.
  destruct (Hen lo) as (e & He & o1 & o2 & H1 & H2 & ->); [lia|].
  assert (o1 = None) as -> by (destruct o1; simpl in H1; [lia|done]).
  pose proof (hidx_range lo) as Hxr. unfold pglz_hist_unlink. rewrite He, bind_val. cbn [prev next hindex slot0].
  (* the scribble on entry 0 *)
  assert (Hscrib : forall l pr, lenZ l = PGLZ_HISTORY_SIZE + 1 ->
    exists e0 l', aget l INVALID_ENTRY = Ok e0 /\ aset l INVALID_ENTRY (set_prev e0 pr) = Ok l' /\ lenZ l' = lenZ l /\
      forall x, aget l' (slot x) = aget l (slot x)).
  { intros l pr Hl. destruct (aget_total l INVALID_ENTRY) as [e0 He0]; [unfold INVALID_ENTRY, PGLZ_HISTORY_SIZE in *; lia|].
    destruct (aset_total l INVALID_ENTRY (set_prev e0 pr)) as (l' & Hs & Hl'); [unfold INVALID_ENTRY, PGLZ_HISTORY_SIZE in *; lia|].
    exists e0, l'. split_and!; try done. intros x. rewrite (aget_aset _ _ _ _ _ Hs). pose proof (slot_range x).
    rewrite decide_False by (unfold INVALID_ENTRY; lia). done. }
  destruct o2 as [z|]; cbn [fmap option_fmap option_map].
  - (* the next newer position with this key loses its successor *)
    destruct H2 as (Hz & Hzh & Hzf). destruct (Hen z) as (ez & Hez & Hezok); [lia|]. rewrite Hez, bind_val.
    destruct (aset_total he (slot z) (set_next ez (Some INVALID_ENTRY))) as (he1 & Hs1 & Hl1); [pose proof (slot_range z); lia|].
    rewrite Hs1, bind_val. destruct (Hscrib he1 (Some (slot z))) as (e0 & he2 & He0 & Hs2 & Hl2 & Hg2); [lia|].
    rewrite bind_val. cbn beta iota. rewrite He0, bind_val, Hs2, bind_val.
    exists hs, he2. split; [done|]. split; [lia|lia|done|lia| |].
    + intros h Hh. destruct (start_shrink _ _ _ Hst h Hh) as [Hl|?]; [|done]. destruct Hl as (_&Hl&Hn).
      destruct (Hn z); [lia|congruence].
    + intros x Hx. rewrite Hg2, (aget_aset _ _ _ _ _ Hs1). destruct (decide (slot z = slot x)) as [E|Hne].
      * apply slot_inj in E; [subst x|unfold PGLZ_HISTORY_SIZE; lia]. eexists; split; [done|].
        destruct Hezok as (o1 & o2 & Ho1 & Ho2 & ->). exists None, o2. split_and!; [|done|done].
        intros x Hx'. rewrite Hzh. apply Hzf. lia.
      * destruct (Hen x) as (ex & Hex & Hexok); [lia|]. exists ex. split; [done|].
        destruct (entry_shrink _ _ _ _ Hexok) as [Hl|?]; [|done]. exfalso. destruct Hl as (_ & Hl & Hn).
        destruct (decide (z < x)); [destruct (Hn z); [lia|congruence]|].
        destruct (decide (z = x)) as [->|]; [done|]. apply (Hzf x); [lia|congruence].
  - (* no other position with this key: the list becomes empty *)
    destruct (aset_total hs (hidx lo) (wraps 16 INVALID_ENTRY)) as (hs1 & Hs1 & Hl1); [lia|].
    rewrite Hs1, bind_val. destruct (Hscrib he None) as (e0 & he2 & He0 & Hs2 & Hl2 & Hg2); [lia|].
    rewrite bind_val. cbn beta iota. rewrite He0, bind_val, Hs2, bind_val.
    exists hs1, he2. split; [done|]. split; [lia|lia|lia|lia| |].
    + intros h Hh. rewrite (nthZ_aset _ _ _ _ _ Hs1) by lia. case_decide as Hd.
      * subst h. exists None. split; [|done]. intros x Hx. apply H2. lia.
      * destruct (start_shrink _ _ _ Hst h Hh) as [Hl|?]; [|done]. by destruct Hl as (_&Hl&_).
    + intros x Hx. rewrite Hg2. destruct (Hen x) as (ex & Hex & Hexok); [lia|]. exists ex. split; [done|].
      destruct (entry_shrink _ _ _ _ Hexok) as [Hl|?]; [|done]. exfalso. destruct Hl as (_ & Hl & _).
      apply (H2 x); [lia|congruence].
Qed.

(** ** Adding a position *)
Lemma hist_link_ok lo dp hs he : hist_ok lo dp hs he -> dp < slen -> dp - lo < PGLZ_HISTORY_SIZE ->
  exists o he1 e0 he2 hs', nthZ hs (hidx dp) = slot0 o /\
    aset he (slot dp) (mkEntry (Some (slot0 o)) None (hidx dp) dp) = Ok he1 /\
    aget he1 (slot0 o) = Ok e0 /\ aset he1 (slot0 o) (set_prev e0 (Some (slot dp))) = Ok he2 /\
    aset hs (hidx dp) (slot dp) = Ok hs' /\ hist_ok lo (dp + 1) hs' he2.
Proof.
  intros [Hr Hw Hhs Hhe Hst Hen] Hdp Hlt. assert (PGLZ_HISTORY_SIZE = 4096) as HS by done.
  pose proof (hidx_range dp) as Hxr. destruct (Hst (hidx dp) Hxr) as (o & Ho & Hno).
  pose proof (slot_range dp) as Hsr. pose proof (slot0_range o) as Hor.
  destruct (aset_total he (slot dp) (mkEntry (Some (slot0 o)) None (hidx dp) dp)) as (he1 & Hs1 & Hl1); [lia|].
  destruct (aget_total he1 (slot0 o)) as [e0 He0]; [lia|].
  destruct (aset_total he1 (slot0 o) (set_prev e0 (Some (slot dp)))) as (he2 & Hs2 & Hl2); [lia|].
  destruct (aset_total hs (hidx dp) (slot dp)) as (hs' & Hs3 & Hl3); [lia|].
  exists o, he1, e0, he2, hs'. split_and!; try done. split; [lia|lia|lia|lia| |].
  - intros h Hh. destruct (Hst h Hh) as (oh & Hoh & Hnh). exists (if decide (hidx dp = h) then Some dp else oh).
    split; [apply is_last_extend; [done|lia]|]. rewrite (nthZ_aset _ _ _ _ _ Hs3) by lia. by case_decide.
  - intros x Hx. rewrite (aget_aset _ _ _ _ _ Hs2), (aget_aset _ _ _ _ _ Hs1).
    destruct (decide (x = dp)) as [->|Hne].
    { assert (Hns : slot0 o <> slot dp).
      { destruct o as [y|]; [|unfold slot0, INVALID_ENTRY; lia]. intros E. destruct Ho as (Hy&_&_). apply slot_inj in E; lia. }
      rewrite decide_False, decide_True by done. eexists; split; [done|]. exists o, None. split_and!; try done.
      intros y Hy. lia. }
    assert (Hsx : slot dp <> slot x) by (intros E; apply slot_inj in E; lia).
    destruct (Hen x) as (ex & Hex & (o1 & o2 & Ho1 & Ho2 & ->)); [lia|].
    pose proof (is_first_extend _ _ _ _ Ho2 ltac:(lia)) as Ho2'.
    destruct (decide (slot0 o = slot x)) as [E|Hox].
    + destruct o as [y|]; [|simpl in E; pose proof (slot_range x); unfold INVALID_ENTRY in E; lia].
      destruct Ho as (Hy & Hyh & Hyl). apply slot_inj in E; [subst y|lia].
      rewrite (aget_aset _ _ _ _ _ Hs1), decide_False in He0 by done. cbn [slot0] in He0. rewrite Hex in He0.
      injection He0 as <-. eexists; split; [done|]. exists o1, (Some dp). split_and!; [done| |done].
      destruct o2 as [z|]; [exfalso; destruct Ho2 as (?&?&?); apply (Hyl z); [lia|congruence]|].
      by rewrite decide_True in Ho2' by done.
    + rewrite decide_False by done. eexists; split; [done|]. exists o1, o2. split_and!; [done| |done].
      destruct o2 as [z|]; [done|]. destruct (decide (hidx dp = hidx x)) as [Hh|]; [|done]. exfalso.
      (* x would be the newest position with the key *)
      destruct o as [y|]; simpl in Ho; [|by apply (Ho x); [lia|]]. destruct Ho as (Hy & Hyh & Hyl).
      destruct (decide (y < x)); [apply (Hyl x); [lia|done]|]. destruct (decide (y = x)) as [->|]; [done|].
      apply (Ho2 y); [lia|congruence].
Qed.

(** The invariant of the table when the input up to [dp] has been added. *)
Definition hist_inv (dp : Z) (h : history) : Prop :=
  hist_ok (Z.max 0 (dp - PGLZ_HISTORY_SIZE)) dp (hist_start h) (hist_entries h) /\
  hist_next h = slot dp /\ hist_recycle h = (PGLZ_HISTORY_SIZE <=? dp).

Lemma hist_add_ok dp h : hist_inv dp h -> 0 <= dp < slen ->
  exists h', pglz_hist_add h src dp slen mask = Ok h' /\ hist_inv (dp + 1) h'.
Proof.
  intros (Hok & Hnx & Hrc) Hdp. assert (PGLZ_HISTORY_SIZE = 4096) as HS by done.
  set (lo := Z.max 0 (dp + 1 - PGLZ_HISTORY_SIZE)).
  assert (exists hs he, (if hist_recycle h then pglz_hist_unlink (hist_start h) (hist_entries h) (hist_next h)
    else Ok (hist_start h, hist_entries h)) = Ok (hs, he) /\ hist_ok lo dp hs he) as (hs & he & Hun & Hok').
  { rewrite Hrc, Hnx. destruct (Z.leb_spec PGLZ_HISTORY_SIZE dp) as [Hge|Hlt].
    - rewrite Z.max_r in Hok by lia. destruct (hist_unlink_ok (dp - PGLZ_HISTORY_SIZE) (hist_start h) (hist_entries h)) as (hs & he & Hu & Hk).
      { by replace (dp - PGLZ_HISTORY_SIZE + PGLZ_HISTORY_SIZE) with dp by lia. }
      exists hs, he. replace (slot dp) with (slot (dp - PGLZ_HISTORY_SIZE)); cycle 1.
      { rewrite <- (slot_recycle (dp - PGLZ_HISTORY_SIZE)). f_equal. lia. }
      split; [done|]. replace (dp - PGLZ_HISTORY_SIZE + PGLZ_HISTORY_SIZE) with dp in Hk by lia.
      by replace lo with (dp - PGLZ_HISTORY_SIZE + 1) by (unfold lo; lia).
    - do 2 eexists. split; [done|]. replace lo with (Z.max 0 (dp - PGLZ_HISTORY_SIZE)) by (unfold lo; lia). done. }
  destruct (hist_link_ok lo dp hs he Hok') as (o & he1 & e0 & he2 & hs' & Hn & Hs1 & He0 & Hs2 & Hs3 & Hk); [lia|unfold lo; lia|].
  pose proof (h_hs _ _ _ _ Hok') as Hhs. pose proof (hidx_range dp) as Hxr. pose proof (slot_range dp) as Hsr.
  unfold pglz_hist_add. rewrite hist_idx_ok, bind_val by lia. cbv zeta. rewrite Hun, bind_val. cbn beta iota.
  rewrite aget_nthZ, bind_val, Hn by (fold (lenZ hs); lia). rewrite Hnx, Hs1, bind_val, He0, bind_val, Hs2, bind_val.
  rewrite wraps_small by (unfold is_s; lia). rewrite Hs3, bind_val, Hrc.
  assert (Hnext : slot (dp + 1) = if PGLZ_HISTORY_SIZE + 1 <=? slot dp + 1 then 1 else slot dp + 1).
  { rewrite HS. unfold slot. rewrite HS. zcase; Z.to_euclidean_division_equations; lia. }
  destruct (Z.leb_spec (PGLZ_HISTORY_SIZE + 1) (slot dp + 1)).
  - eexists; split; [done|]. split_and!; [done|done|]. cbn [hist_recycle]. symmetry. apply Z.leb_le.
    assert (dp `mod` 4096 = 4095) by (unfold slot in *; rewrite HS in *; lia). Z.to_euclidean_division_equations. lia.
  - eexists; split; [done|]. split_and!; [done|done|]. cbn [hist_recycle].
    assert (dp `mod` 4096 <> 4095) by (unfold slot in *; rewrite HS in *; lia).
    assert (dp + 1 <> 4096) by (intros ?; replace dp with 4095 in * by lia; done). rewrite HS. repeat zcase; lia.
Qed.

Lemma add_matched_ok n : forall dp h, hist_inv dp h -> 0 <= dp -> dp + Z.of_nat n <= slen ->
  exists h', add_matched n h src dp slen mask = Ok (h', dp + Z.of_nat n) /\ hist_inv (dp + Z.of_nat n) h'.
Proof.
  induction n as [|n IH]; intros dp h Hinv Hdp Hn; cbn [add_matched].
  - exists h. by rewrite Z.add_0_r.
  - destruct (hist_add_ok dp h Hinv) as (h1 & -> & H1); [lia|]. rewrite bind_val.
    destruct (IH (dp + 1) h1 H1) as (h2 & -> & H2); [lia..|]. exists h2.
    by replace (dp + Z.of_nat (S n)) with (dp + 1 + Z.of_nat n) by lia.
Qed.

Lemma hist_init hs he : 2 ^ bits <= lenZ hs -> lenZ he = PGLZ_HISTORY_SIZE + 1 ->
  hist_inv 0 (mkHist (replicate (Z.to_nat (2 ^ bits)) 0 ++ drop (Z.to_nat (2 ^ bits)) hs) he 1 false).
Proof.
  intros Hhs Hhe. split_and!; [|done|done]. split; cbn [hist_start hist_entries]; unfold PGLZ_HISTORY_SIZE in *; try lia.
  - unfold lenZ in *. rewrite length_app, length_replicate, length_drop. lia.
  - intros h Hh. exists None. split; [intros x Hx; lia|]. rewrite nthZ_app by lia. rewrite decide_True by (rewrite length_replicate; lia).
    apply nthZ_replicate_0.
Qed.
End History.
