(* ===== verification/PgLzCompress.v ===== *)
(** The compressor of [pg_lzcompress.c]: matches found in the history are real,
    the output buffer holds the stream of the tokens emitted so far, and the
    result is decompressed to the input. *)
From S2P Require Import Prelude ByteMem PgLz PgLzDecode PgLzStream PgLzHistory.

(** ** Finding a match *)
Section Find.
Context (src : list Z) (slen bits : Z).
Context (Hslen : 0 <= slen <= lenZ src) (Hbits : 0 <= bits).

Definition same (n a b : Z) : Prop := forall i, 0 <= i < n -> nthZ src (a + i) = nthZ src (b + i).

Lemma match_length_ok fuel : forall ip hp thislen,
  0 <= thislen <= PGLZ_MAX_MATCH -> PGLZ_MAX_MATCH - thislen < Z.of_nat fuel -> 0 <= hp <= ip -> ip <= slen ->
  exists n, match_length fuel src ip hp slen thislen = Ok n /\ thislen <= n <= PGLZ_MAX_MATCH /\
    ip + (n - thislen) <= slen /\ same (n - thislen) ip hp.
Proof.
  induction fuel as [|fuel IH]; intros ip hp thislen Ht Hf Hhp Hip; [lia|]. cbn [match_length].
  assert (Hstop : same (thislen - thislen) ip hp) by (intros i Hi; lia).
  destruct (Z.ltb_spec ip slen) as [Hlt|]; [|exists thislen; split_and!; (done || lia)].
  rewrite !aget_nthZ, !bind_val by (fold (lenZ src); lia).
  destruct (Z.eqb_spec (nthZ src ip) (nthZ src hp)) as [Heq|]; [|exists thislen; simpl; split_and!; (done || lia)].
  destruct (Z.ltb_spec thislen PGLZ_MAX_MATCH); [|exists thislen; simpl; split_and!; (done || lia)]. cbn [andb].
  destruct (IH (ip + 1) (hp + 1) (thislen + 1)) as (n & -> & Hn & Hend & Hs); [lia..|].
  exists n. split_and!; try (done || lia). intros i Hi. destruct (decide (i = 0)) as [->|]; [by rewrite !Z.add_0_r|].
  replace (ip + i) with (ip + 1 + (i - 1)) by lia. replace (hp + i) with (hp + 1 + (i - 1)) by lia. apply Hs. lia.
Qed.

(** A match of [len] bytes at distance [off], or none yet. *)
Definition match_ok (input len off : Z) : Prop :=
  0 <= len <= PGLZ_MAX_MATCH /\ input + len <= slen /\
  (len <> 0 -> 1 <= off <= 4094 /\ off <= input /\ same len input (input - off)).

Lemma this_length_ok input hp len off : match_ok input len off -> 0 <= hp < input -> input < slen ->
  exists n, this_length src input hp slen len = Ok n /\ 0 <= n <= PGLZ_MAX_MATCH /\ input + n <= slen /\ same n input hp.
Proof.
  intros (Hlen & Hend & Hm) Hhp Hin. unfold this_length. assert (PGLZ_MAX_MATCH = 273) by done.
  destruct (Z.leb_spec 16 len).
  - rewrite !(proj2 (in_object_spec _ _ _)) by lia. cbn [andb]. case_bool_decide as Hb.
    + destruct (match_length_ok match_fuel (input + len) (hp + len) len) as (n & -> & Hn & He & Hs); [lia|unfold match_fuel; lia|lia..|].
      exists n. split_and!; try (done || lia). intros i Hi. destruct (decide (i < len)).
      * rewrite <- !(nthZ_bytes_at src _ len) by lia. by rewrite Hb.
      * replace (input + i) with (input + len + (i - len)) by lia. replace (hp + i) with (hp + len + (i - len)) by lia. apply Hs. lia.
    + exists 0. split_and!; try (done || lia). intros i Hi. lia.
  - destruct (match_length_ok match_fuel input hp 0) as (n & -> & Hn & He & Hs); [lia|unfold match_fuel; lia|lia..|].
    exists n. rewrite Z.sub_0_r in *. split_and!; try (done || lia).
Qed.

Lemma find_loop_ok lo dp hs he good_drop : hist_ok src slen bits lo dp hs he -> dp < slen ->
  forall fuel o len off good_match,
  match o with None => 0 | Some y => y - lo + 1 end < Z.of_nat fuel ->
  match o with None => True | Some y => lo <= y < dp end -> match_ok dp len off ->
  exists len' off', find_loop fuel he src (slot0 o) dp slen len off good_match good_drop = Ok (len', off') /\ match_ok dp len' off'.
Proof.
  intros Hok Hdp. pose proof (h_range _ _ _ _ _ _ _ Hok). induction fuel as [|fuel IH]; intros o len off gm Hf Ho Hg.
  { destruct o; lia. }
  cbn [find_loop]. destruct o as [y|]; [|simpl; eauto].
  pose proof (slot_range y). cbn [slot0]. rewrite (proj2 (Z.eqb_neq (slot y) INVALID_ENTRY)) by (unfold INVALID_ENTRY; lia).
  destruct (h_entry _ _ _ _ _ _ _ Hok y Ho) as (e & -> & (o1 & o2 & Ho1 & _ & ->)). rewrite bind_val. cbn [pos next].
  destruct (Z.leb_spec 4095 (dp - y)); [eauto|].
  destruct (this_length_ok dp y len off Hg) as (n & -> & Hn & He & Hs); [lia..|]. rewrite bind_val. cbv zeta.
  assert (Hg' : match_ok dp (if len <? n then n else len) (if len <? n then dp - y else off)).
  { destruct (Z.ltb_spec len n); [|done]. split_and!; [lia..|]. intros _. split_and!; try lia. by replace (dp - (dp - y)) with y by lia. }
  assert (Hnext : forall gm', exists len' off', find_loop fuel he src (slot0 o1) dp slen (if len <? n then n else len)
    (if len <? n then dp - y else off) gm' good_drop = Ok (len', off') /\ match_ok dp len' off').
  { intros gm'. apply IH; [|destruct o1; simpl in Ho1; [lia|done]|done]. destruct o1; simpl in Ho1; lia. }
  destruct (slot0 o1 =? INVALID_ENTRY); cbn [negb]; [apply Hnext|]. destruct (gm <=? _); [eauto|apply Hnext].
Qed.

Lemma find_match_ok dp h gm gd : hist_inv src slen bits dp h -> 0 <= dp < slen ->
  exists m, pglz_find_match h src dp slen gm gd (Z.ones bits) = Ok m /\
    match m with None => True | Some (len, off) => tok_ok src dp (Ref len off) /\ dp + len <= slen end.
Proof.
  intros (Hok & _ & _) Hdp. assert (PGLZ_HISTORY_SIZE = 4096) as HS by done. pose proof (hidx_range src slen bits Hbits dp) as Hx.
  unfold pglz_find_match. rewrite hist_idx_ok, bind_val by done.
  destruct (h_start _ _ _ _ _ _ _ Hok _ Hx) as (o & Ho & Hn). pose proof (h_hs _ _ _ _ _ _ _ Hok).
  rewrite aget_nthZ, bind_val, Hn by (fold (lenZ (hist_start h)); lia).
  destruct (find_loop_ok _ _ _ _ gd Hok ltac:(lia) (Z.to_nat (PGLZ_HISTORY_SIZE + 2)) o 0 0 gm) as (len & off & -> & Hl & He & Hg).
  { pose proof (h_window _ _ _ _ _ _ _ Hok). destruct o; simpl in Ho; lia. }
  { destruct o; simpl in Ho; [lia|done]. }
  { split_and!; unfold PGLZ_MAX_MATCH; try lia. }
  rewrite bind_val. eexists; split; [done|]. destruct (Z.ltb_spec 2 len); [|done].
  destruct Hg as (Hoff & Hle & Hs); [lia|]. unfold PGLZ_MAX_MATCH in *. split; [|lia]. simpl. split_and!; try lia.
  intros i Hi. replace i with (dp + (i - dp)) at 1 by lia. replace (i - off) with (dp - off + (i - dp)) by lia. apply Hs. lia.
Qed.
End Find.

(** ** The output buffer *)
Lemma ctrl_byte_range g : 0 <= ctrl_byte g < 2 ^ Z.of_nat (length g).
Proof.
  induction g as [|t g IH]; simpl ctrl_byte; [simpl; lia|].
  cbn [length]. rewrite Nat2Z.inj_succ, Z.pow_succ_r by lia. destruct t; simpl; lia.
Qed.

Lemma ctrl_byte_snoc g t : ctrl_byte (g ++ [t]) = ctrl_byte g + tok_bit t * 2 ^ Z.of_nat (length g).
Proof.
  induction g as [|u g IH]; [simpl; lia|]. cbn [app ctrl_byte length]. rewrite IH, Nat2Z.inj_succ, Z.pow_succ_r by lia. lia.
Qed.

Lemma body_snoc g t : body (g ++ [t]) = body g ++ tok_bytes t.
Proof. unfold body. rewrite map_app, concat_app. simpl. by rewrite app_nil_r. Qed.

Lemma stream_snoc gs g : stream (gs ++ [g]) = stream gs ++ ctrl_byte g :: body g.
Proof. unfold stream. rewrite map_app, concat_app. simpl. by rewrite app_nil_r. Qed.

Lemma lenZ_cons {A} (x : A) l : lenZ (x :: l) = 1 + lenZ l.
Proof. unfold lenZ. simpl. lia. Qed.

Lemma nthZ_app_l l l' i : 0 <= i < lenZ l -> nthZ (l ++ l') i = nthZ l i.
Proof. intros. rewrite nthZ_app by lia. unfold lenZ in *. by rewrite decide_True by lia. Qed.

Lemma nthZ_app_r l l' i : lenZ l <= i -> nthZ (l ++ l') i = nthZ l' (i - lenZ l).
Proof. intros. pose proof (lenZ_nonneg l). rewrite nthZ_app by lia. unfold lenZ in *. by rewrite decide_False by lia. Qed.

(** The buffer [o] holds the groups [gs] and the group [g] under construction,
    whose control byte is not yet stored. *)
Record out_ok (size : Z) (o : outbuf) (gs : list (list token)) (g : list token) : Prop := {
  out_size : lenZ (buf o) = size;
  out_full : Forall (fun g => length g = 8%nat) gs;
  out_len : (length g <= 8)%nat;
  out_bp : bp o = lenZ (stream (gs ++ [g])) /\ bp o <= size;
  out_ctrlp : ctrlp o = Some (lenZ (stream gs));
  out_ctrl : ctrl o = wrapu 8 (2 ^ Z.of_nat (length g));
  out_ctrlb : ctrlb o = ctrl_byte g;
  out_bytes : forall i, 0 <= i < bp o -> i <> lenZ (stream gs) -> nthZ (buf o) i = nthZ (stream (gs ++ [g])) i }.

Definition out_start (size : Z) (o : outbuf) : Prop :=
  lenZ (buf o) = size /\ bp o = 0 /\ ctrlp o = None /\ ctrl o = 0.

(** The tokens emitted so far; the group under construction is not empty. *)
Definition out_inv (size : Z) (o : outbuf) (ts : list token) : Prop :=
  (out_start size o /\ ts = []) \/ exists gs g, out_ok size o gs g /\ ts = concat gs ++ g /\ g <> [].

(** Storing the control byte completes the group. *)
Lemma store_ctrl_ok size o gs g : out_ok size o gs g ->
  exists b, store_ctrl (buf o) (ctrlp o) (ctrlb o) = Ok b /\ lenZ b = size /\
    forall i, 0 <= i < bp o -> nthZ b i = nthZ (stream (gs ++ [g])) i.
Proof.
  intros [Hs Hf Hl [Hbp Hsz] Hcp Hc Hcb Hby]. rewrite Hcp. cbn [store_ctrl]. rewrite stream_snoc in *.
  rewrite lenZ_app, lenZ_cons in Hbp. pose proof (lenZ_nonneg (body g)). pose proof (lenZ_nonneg (stream gs)).
  destruct (aset_total (buf o) (lenZ (stream gs)) (ctrlb o)) as (b & Hset & Hlb); [lia|]. exists b. split_and!; [done|lia|].
  intros i Hi. rewrite (nthZ_aset _ _ _ _ _ Hset) by lia. case_decide as Hd; [|apply Hby; lia].
  subst i. rewrite nthZ_app_r, Z.sub_diag by lia. rewrite Hcb. done.
Qed.

(** After [pglz_out_ctrl] there is room in the group. *)
Lemma out_ctrl_ok size o ts : out_inv size o ts -> bp o + 1 <= size ->
  exists o' gs g, pglz_out_ctrl o = Ok o' /\ out_ok size o' gs g /\ ts = concat gs ++ g /\ (length g <= 7)%nat /\ bp o <= bp o' <= bp o + 1.
Proof.
  intros [[(Hs & Hb & Hp & Hc) ->]|(gs & g & Hok & -> & Hne)] Hsz; unfold pglz_out_ctrl.
  - rewrite Hc, Hp, Hb. simpl. eexists _, [], []. split; [done|]. split; [|split; [done|simpl; lia]].
    split; cbn [buf bp ctrlp ctrl ctrlb]; try done; [simpl; lia|change (lenZ (stream ([] ++ [[]]))) with 1; lia|].
    intros i Hi Hne. change (lenZ (stream [])) with 0 in Hne. lia.
  - destruct (decide (length g = 8%nat)) as [E|Hlt]; cycle 1.
    { pose proof (out_len _ _ _ _ Hok). rewrite (out_ctrl _ _ _ _ Hok).
      assert (Hcase : (length g = 1 \/ length g = 2 \/ length g = 3 \/ length g = 4 \/ length g = 5 \/ length g = 6 \/ length g = 7)%nat)
        by (destruct g; [done|]; simpl in *; lia).
      assert (Z.land (wrapu 8 (2 ^ Z.of_nat (length g))) 255 =? 0 = false) as ->
        by (destruct Hcase as [->|[->|[->|[->|[->|[->| ->]]]]]]; done).
      exists o, gs, g. split_and!; try done; lia. }
    destruct (store_ctrl_ok _ _ _ _ Hok) as (b & Hst & Hlb & Hby). rewrite (out_ctrl _ _ _ _ Hok), E.
    change (Z.land (wrapu 8 (2 ^ Z.of_nat 8)) 255 =? 0) with true. cbv iota. rewrite Hst, bind_val.
    destruct Hok as [Hs Hf Hl [Hbp _] Hcp Hc Hcb _]. eexists _, (gs ++ [g]), []. split; [done|].
    split_and!; simpl; try lia; cycle 1. { rewrite concat_app. simpl. by rewrite !app_nil_r. }
    assert (Hlen : lenZ (stream ((gs ++ [g]) ++ [[]])) = bp o + 1) by (rewrite stream_snoc, lenZ_app, lenZ_cons, <- Hbp; done).
    split; cbn [buf bp ctrlp ctrl ctrlb]; try done.
    + apply Forall_app_2; [done|]. by apply Forall_singleton.
    + simpl. lia.
    + by rewrite Hbp.
    + intros i Hi Hni. rewrite <- Hbp in Hni. rewrite stream_snoc, nthZ_app_l by lia. apply Hby. lia.
Qed.

(** Appending the bytes of a token to the group. *)
Lemma out_append size o gs g t b cb : out_ok size o gs g -> (length g <= 7)%nat -> bp o + lenZ (tok_bytes t) <= size ->
  lenZ b = size -> cb = ctrl_byte (g ++ [t]) ->
  (forall i, 0 <= i -> nthZ b i = if decide (bp o <= i < bp o + lenZ (tok_bytes t)) then nthZ (tok_bytes t) (i - bp o) else nthZ (buf o) i) ->
  out_ok size (mkOut b (bp o + lenZ (tok_bytes t)) (ctrlp o) cb (wrapu 8 (Z.shiftl (ctrl o) 1))) gs (g ++ [t]).
Proof.
  intros [Hs Hf Hl [Hbp Hsz] Hcp Hc Hcb Hby] H7 Hroom Hlb -> Hb. rewrite stream_snoc in Hbp, Hby.
  rewrite lenZ_app, lenZ_cons in Hbp. pose proof (lenZ_nonneg (stream gs)). pose proof (lenZ_nonneg (body g)).
  split; cbn [buf bp ctrlp ctrl ctrlb]; try done.
  - rewrite length_app. simpl. lia.
  - rewrite stream_snoc, lenZ_app, lenZ_cons, body_snoc, lenZ_app. lia.
  - rewrite Hc, Z.shiftl_mul_pow2, length_app by lia. cbn [length]. rewrite Nat2Z.inj_add, Z.pow_add_r by lia.
    unfold wrapu. change (2 ^ Z.of_nat 1) with (2 ^ 1). by rewrite Zmult_mod_idemp_l.
  - intros i Hi Hne. rewrite Hb, stream_snoc, body_snoc by lia. case_decide as Hd.
    + rewrite nthZ_app_r by lia. rewrite app_comm_cons, nthZ_app_r by (rewrite lenZ_cons; lia). f_equal. rewrite lenZ_cons. lia.
    + rewrite Hby by lia. destruct (decide (i < lenZ (stream gs))).
      * rewrite !nthZ_app_l by lia. done.
      * rewrite !(nthZ_app_r (stream gs)) by lia. set (j := i - lenZ (stream gs)). assert (1 <= j < 1 + lenZ (body g)) by lia.
        change (?a :: ?l) with ([a] ++ l). rewrite !(nthZ_app_r [_]) by (unfold lenZ; simpl; lia).
        rewrite nthZ_app_l; [done|]. unfold lenZ at 1 2. simpl. lia.
Qed.

Lemma out_append_inv size o gs g t b cb ts : out_ok size o gs g -> (length g <= 7)%nat -> ts = concat gs ++ g ->
  bp o + lenZ (tok_bytes t) <= size -> lenZ b = size -> cb = ctrl_byte (g ++ [t]) ->
  (forall i, 0 <= i -> nthZ b i = if decide (bp o <= i < bp o + lenZ (tok_bytes t)) then nthZ (tok_bytes t) (i - bp o) else nthZ (buf o) i) ->
  out_inv size (mkOut b (bp o + lenZ (tok_bytes t)) (ctrlp o) cb (wrapu 8 (Z.shiftl (ctrl o) 1))) (ts ++ [t]).
Proof.
  intros Hok H7 -> Hr Hl Hcb Hb. right. exists gs, (g ++ [t]). split_and!; [by apply out_append|by rewrite app_assoc|by destruct g].
Qed.

Lemma out_literal_ok size o ts b : out_inv size o ts -> 0 <= b < 256 -> bp o + 2 <= size ->
  exists o', pglz_out_literal o b = Ok o' /\ out_inv size o' (ts ++ [Lit b]) /\ bp o' <= bp o + 2.
Proof.
  intros Hinv Hb Hroom. unfold pglz_out_literal.
  destruct (out_ctrl_ok _ _ _ Hinv) as (o1 & gs & g & -> & Hok & Hts & H7 & Hbp1); [lia|]. rewrite bind_val.
  pose proof (out_bp _ _ _ _ Hok) as [Hbp _]. pose proof (lenZ_nonneg (stream (gs ++ [g]))). pose proof (out_size _ _ _ _ Hok) as Hsz.
  destruct (aset_total (buf o1) (bp o1) (wrapu 8 b)) as (d & Hset & Hld); [lia|]. rewrite Hset, bind_val.
  eexists; split; [done|]. split; [|simpl; lia]. change (bp o1 + 1) with (bp o1 + lenZ (tok_bytes (Lit b))).
  apply out_append_inv with gs g; try done.
  - change (lenZ (tok_bytes (Lit b))) with 1. lia.
  - lia.
  - rewrite (out_ctrlb _ _ _ _ Hok), ctrl_byte_snoc. simpl. lia.
  - intros i Hi. rewrite (nthZ_aset _ _ _ _ _ Hset) by done. change (lenZ (tok_bytes (Lit b))) with 1.
    rewrite wrapu_small by (unfold is_u; lia). destruct (decide (bp o1 = i)) as [<-|].
    + rewrite decide_True, Z.sub_diag by lia. done.
    + rewrite decide_False by lia. done.
Qed.

Lemma tag_hi off n : 1 <= off <= 4094 -> 0 <= n < 16 -> wrapu 8 (Z.lor (Z.shiftr (Z.land off 3840) 4) n) = 16 * (off / 256) + n.
Proof.
  intros Hoff Hn. assert (Hh : 0 <= off / 256 < 16) by (split; [apply Z.div_pos|apply Z.div_lt_upper_bound]; lia).
  assert (Z.shiftr (Z.land off 3840) 4 = Z.shiftl (off / 256) 4) as ->.
  { apply Z.bits_inj'. intros i Hi. change 256 with (2 ^ 8). rewrite <- Z.shiftr_div_pow2 by lia.
    rewrite Z.shiftr_spec, Z.land_spec, Z.shiftl_spec by lia. change 3840 with (Z.shiftl (Z.ones 4) 8). rewrite Z.shiftl_spec by lia.
    destruct (decide (i < 4)).
    - rewrite !(Z.testbit_neg_r _ (_ - _)) by lia. apply andb_false_r.
    - rewrite Z.shiftr_spec by lia. replace (i + 4 - 8) with (i - 4) by lia. replace (i - 4 + 8) with (i + 4) by lia.
      destruct (decide (i - 4 < 4)); [rewrite Z.ones_spec_low by lia; apply andb_true_r|].
      rewrite Z.ones_spec_high by lia. rewrite andb_false_r. symmetry. apply (is_u_testbit 12 off); unfold is_u; lia. }
  rewrite Z.lor_comm, lor_shiftl_add by (unfold is_u; lia). rewrite wrapu_small by (unfold is_u; lia). lia.
Qed.

Lemma nthZ_3 a b c i : 0 <= i < 3 -> nthZ [a; b; c] i = if decide (i = 0) then a else if decide (i = 1) then b else c.
Proof. intros. assert (i = 0 \/ i = 1 \/ i = 2) as [->|[->| ->]] by lia; done. Qed.

Lemma nthZ_2 a b i : 0 <= i < 2 -> nthZ [a; b] i = if decide (i = 0) then a else b.
Proof. intros. assert (i = 0 \/ i = 1) as [->| ->] by lia; done. Qed.

Lemma out_tag_ok size o ts len off : out_inv size o ts -> 3 <= len <= 273 -> 1 <= off <= 4094 -> bp o + 4 <= size ->
  exists o', pglz_out_tag o len off = Ok o' /\ out_inv size o' (ts ++ [Ref len off]) /\ bp o' <= bp o + 4.
Proof.
  intros Hinv Hlen Hoff Hroom. unfold pglz_out_tag.
  destruct (out_ctrl_ok _ _ _ Hinv) as (o1 & gs & g & -> & Hok & Hts & H7 & Hbp1); [lia|]. rewrite bind_val. cbv zeta.
  pose proof (out_bp _ _ _ _ Hok) as [Hbp _]. pose proof (lenZ_nonneg (stream (gs ++ [g]))). pose proof (out_size _ _ _ _ Hok) as Hsz.
  assert (Hcb : Z.lor (ctrlb o1) (ctrl o1) = ctrl_byte (g ++ [Ref len off])).
  { rewrite (out_ctrlb _ _ _ _ Hok), (out_ctrl _ _ _ _ Hok), ctrl_byte_snoc. pose proof (ctrl_byte_range g).
    assert (0 < 2 ^ Z.of_nat (length g) < 256).
    { split; [apply Z.pow_pos_nonneg; lia|]. change 256 with (2 ^ 8). apply Z.pow_lt_mono_r; lia. }
    rewrite wrapu_small by (unfold is_u; lia). replace (2 ^ Z.of_nat (length g)) with (Z.shiftl 1 (Z.of_nat (length g))) at 1.
    - rewrite lor_shiftl_add by (unfold is_u; lia). simpl tok_bit. lia.
    - rewrite Z.shiftl_mul_pow2; lia. }
  assert (Hlo : wrapu 8 (Z.land off 255) = off `mod` 256).
  { change 255 with (Z.ones 8). rewrite Z.land_ones by lia. apply wrapu_small. apply (Z.mod_pos_bound off 256). lia. }
  destruct (Z.ltb_spec 17 len) as [Hbig|Hsmall].
  - rewrite tag_hi, Hlo, (wrapu_small 8 (len - 18)) by (unfold is_u; lia).
    assert (Htb : tok_bytes (Ref len off) = [16 * (off / 256) + 15; off `mod` 256; len - 18]) by (unfold tok_bytes; by rewrite (proj2 (Z.ltb_lt 17 len)) by lia).
    destruct (aset_total (buf o1) (bp o1) (16 * (off / 256) + 15)) as (d1 & Hs1 & Hl1); [lia|]. rewrite Hs1, bind_val.
    destruct (aset_total d1 (bp o1 + 1) (off `mod` 256)) as (d2 & Hs2 & Hl2); [lia|]. rewrite Hs2, bind_val.
    destruct (aset_total d2 (bp o1 + 2) (len - 18)) as (d3 & Hs3 & Hl3); [lia|]. rewrite Hs3, bind_val.
    eexists; split; [done|]. split; [|simpl; lia]. assert (Hlt : lenZ (tok_bytes (Ref len off)) = 3) by (by rewrite Htb).
    rewrite <- Hlt. apply out_append_inv with gs g; try done; try lia. rewrite Hlt, Htb. intros i Hi.
    rewrite (nthZ_aset _ _ _ _ _ Hs3), (nthZ_aset _ _ _ _ _ Hs2), (nthZ_aset _ _ _ _ _ Hs1) by done.
    destruct (decide (bp o1 <= i < bp o1 + 3)); [rewrite nthZ_3 by lia|]; repeat case_decide; try lia; done.
  - rewrite tag_hi, Hlo by lia.
    assert (Htb : tok_bytes (Ref len off) = [16 * (off / 256) + (len - 3); off `mod` 256]) by (unfold tok_bytes; by rewrite (proj2 (Z.ltb_ge 17 len)) by lia).
    destruct (aset_total (buf o1) (bp o1) (16 * (off / 256) + (len - 3))) as (d1 & Hs1 & Hl1); [lia|]. rewrite Hs1, bind_val.
    destruct (aset_total d1 (bp o1 + 1) (off `mod` 256)) as (d2 & Hs2 & Hl2); [lia|]. rewrite Hs2, bind_val.
    eexists; split; [done|]. split; [|simpl; lia]. assert (Hlt : lenZ (tok_bytes (Ref len off)) = 2) by (by rewrite Htb).
    rewrite <- Hlt. apply out_append_inv with gs g; try done; try lia. rewrite Hlt, Htb. intros i Hi.
    rewrite (nthZ_aset _ _ _ _ _ Hs2), (nthZ_aset _ _ _ _ _ Hs1) by done.
    destruct (decide (bp o1 <= i < bp o1 + 2)); [rewrite nthZ_2 by lia|]; repeat case_decide; try lia; done.
Qed.

(** ** The main loop *)
Section Loop.
Context (src : list Z) (slen bits size : Z).
Context (Hbytes : all_bytes src) (Hslen : 0 <= slen <= lenZ src) (Hbits : 0 <= bits).
Context (gm gd result_max success_by : Z) (Hmax : result_max <= slen) (Hsize : slen + 4 <= size).

Lemma out_inv_bp o ts : out_inv size o ts -> 0 <= bp o /\ lenZ (buf o) = size.
Proof.
  intros [[(?&->&_) _]|(gs & g & Hok & _)]; [done|]. rewrite (proj1 (out_bp _ _ _ _ Hok)), (out_size _ _ _ _ Hok).
  split; [apply lenZ_nonneg|done].
Qed.

Lemma hist_inv_sizes dp h : hist_inv src slen bits dp h -> 2 ^ bits <= lenZ (hist_start h) /\ lenZ (hist_entries h) = PGLZ_HISTORY_SIZE + 1.
Proof. intros (Hok & _). split; [apply (h_hs _ _ _ _ _ _ _ Hok)|apply (h_he _ _ _ _ _ _ _ Hok)]. Qed.

Lemma pglz_compress_loop_ok fuel : forall dp found h o ts,
  slen - dp < Z.of_nat fuel -> 0 <= dp <= slen ->
  hist_inv src slen bits dp h -> out_inv size o ts -> describes src 0 ts dp ->
  exists o' h' fin, pglz_compress_loop fuel src slen gm gd (Z.ones bits) result_max success_by dp found h o = Ok (o', h', fin) /\
    lenZ (buf o') = size /\ 2 ^ bits <= lenZ (hist_start h') /\ lenZ (hist_entries h') = PGLZ_HISTORY_SIZE + 1 /\
    (fin = true -> exists ts', out_inv size o' ts' /\ describes src 0 ts' slen).
Proof.
  induction fuel as [|fuel IH]; intros dp found h o ts Hf Hdp Hh Ho Hc; [lia|]. cbn [pglz_compress_loop].
  pose proof (out_inv_bp _ _ Ho) as [Hb0 Hbsz]. pose proof (hist_inv_sizes _ _ Hh) as [Hh1 Hh2].
  destruct (Z.ltb_spec dp slen) as [Hlt|]; cycle 1.
  { do 3 eexists. split; [done|]. split_and!; try done. intros _. exists ts. by replace slen with dp by lia. }
  destruct (Z.leb_spec result_max (bp o)) as [|Hlt2]; [do 3 eexists; split; [done|]; split_and!; done|].
  destruct (_ && _); [do 3 eexists; split; [done|]; split_and!; done|].
  destruct (find_match_ok src slen bits Hslen Hbits dp h gm gd Hh) as (m & -> & Hm); [lia|]. rewrite bind_val.
  destruct m as [[len off]|].
  - destruct Hm as [Hm Hend]. pose proof Hm as (Hlen & Hoff & _).
    destruct (out_tag_ok size o ts len off Ho) as (o1 & -> & Ho1 & _); [lia..|]. rewrite bind_val.
    destruct (add_matched_ok src slen bits Hslen Hbits (Z.to_nat len) dp h Hh) as (h1 & -> & Hh1'); [lia..|]. rewrite bind_val. cbn beta iota.
    rewrite (Z2Nat.id len) in Hh1' |- * by lia. apply (IH _ _ _ _ (ts ++ [Ref len off])); try done; try lia. apply describes_app. by exists dp.
  - rewrite (src_get src slen Hslen dp), bind_val by lia. pose proof (is_u_nthZ src dp Hbytes) as Hb.
    destruct (out_literal_ok size o ts (nthZ src dp) Ho) as (o1 & -> & Ho1 & _); [done|lia|]. rewrite bind_val.
    destruct (hist_add_ok src slen bits Hslen Hbits dp h Hh) as (h1 & -> & Hh1'); [lia|]. rewrite bind_val.
    apply (IH _ _ _ _ (ts ++ [Lit (nthZ src dp)])); try done; try lia. apply describes_app. by exists dp.
Qed.
End Loop.

(** ** The whole compressor *)
Lemma groups_ok_snoc gs g : Forall (fun g => length g = 8%nat) gs -> (1 <= length g <= 8)%nat -> groups_ok (gs ++ [g]).
Proof.
  induction gs as [|g1 gs IH]; intros Hf Hg; [done|]. apply Forall_cons in Hf as [H1 Hf].
  pose proof (IH Hf Hg). cbn [app groups_ok]. by destruct (gs ++ [g]) eqn:E; [by destruct gs|].
Qed.

Lemma hash_size_pow slen : exists b, 0 <= b <= 13 /\ hash_size slen = 2 ^ b.
Proof. unfold hash_size. repeat case_match; [exists 9|exists 10|exists 11|exists 12|exists 13]; done. Qed.

Lemma clamp_range lo hi x : lo <= hi -> lo <= clamp lo hi x <= hi.
Proof. intros. unfold clamp. repeat zcase; lia. Qed.

Lemma result_limit_bound slen rate : 0 <= slen -> 0 <= rate <= 99 ->
  result_limit slen rate <= slen /\ 100 * result_limit slen rate <= slen * (100 - rate).
Proof.
  intros. unfold result_limit. rewrite !Z.quot_div_nonneg by nia. destruct (_ <? _).
  - pose proof (Z.div_mod slen 100 ltac:(lia)). pose proof (Z.mod_pos_bound slen 100 ltac:(lia)). nia.
  - pose proof (Z.div_mod (slen * (100 - rate)) 100 ltac:(lia)). pose proof (Z.mod_pos_bound (slen * (100 - rate)) 100 ltac:(lia)). nia.
Qed.

Definition rate_of (strategy : option PGLZ_Strategy) : Z :=
  clamp 0 99 (min_comp_rate (default strategy_default_data strategy)).

(** The result of the compressor: failure, or the stream of tokens that describe the input. *)
Definition compressed (src : list Z) (slen rate : Z) (dest' : list Z) (r : Z) : Prop :=
  r = -1 \/ 0 < r < slen /\ 100 * r < slen * (100 - rate) /\
    exists gs, groups_ok gs /\ describes src 0 (concat gs) slen /\ take (Z.to_nat r) dest' = stream gs.

Lemma pglz_compress_ok src slen dest strategy hs he :
  all_bytes src -> 0 <= slen <= lenZ src -> PGLZ_MAX_OUTPUT slen <= lenZ dest ->
  lenZ hs = PGLZ_MAX_HISTORY_LISTS -> lenZ he = PGLZ_HISTORY_SIZE + 1 ->
  exists dest' h r, pglz_compress src slen dest strategy hs he = Ok (dest', h, r) /\
    lenZ dest' = lenZ dest /\ compressed src slen (rate_of strategy) dest' r.
Proof.
  intros Hb Hs Hd Hhs Hhe. unfold PGLZ_MAX_OUTPUT, PGLZ_MAX_HISTORY_LISTS in *. unfold pglz_compress.
  change (match strategy with None => strategy_default_data | Some s => s end) with (default strategy_default_data strategy).
  fold (rate_of strategy). set (st := default _ _). destruct (_ || _). { do 3 eexists. split; [done|]. split; [done|by left]. }
  destruct (hash_size_pow slen) as (bits & Hbits & ->). assert (Hp : 2 ^ bits <= 2 ^ 13) by (apply Z.pow_le_mono_r; lia).
  rewrite (proj2 (Z.leb_le _ _)) by lia. rewrite bind_val.
  assert (Hrate : 0 <= rate_of strategy <= 99) by (apply clamp_range; lia).
  destruct (result_limit_bound slen (rate_of strategy)) as [Hlim1 Hlim2]; [lia..|].
  replace (2 ^ bits - 1) with (Z.ones bits) by (rewrite Z.ones_equiv; lia).
  destruct (pglz_compress_loop_ok src slen bits (lenZ dest) Hb Hs ltac:(lia) (clamp 17 PGLZ_MAX_MATCH (match_size_good st))
    (clamp 0 100 (match_size_drop st)) (result_limit slen (rate_of strategy)) (first_success_by st) Hlim1 Hd
    (S (Z.to_nat slen)) 0 false _ (mkOut dest 0 None 0 0) [] ltac:(lia) ltac:(lia)
    (hist_init src slen bits Hs ltac:(lia) hs he ltac:(lia) Hhe)) as (o & h & fin & -> & Hlo & _ & _ & Hfin); [left; done|done|].
  rewrite bind_val. cbn beta iota. destruct fin; cbn [negb]; cycle 1. { do 3 eexists. split; [done|]. split; [done|by left]. }
  destruct Hfin as (ts & Hinv & Hc); [done|].
  destruct Hinv as [[(Hsz & Hbp & Hcp & _) ->]|(gs & g & Hok & -> & Hne)].
  - rewrite Hcp, Hbp. cbn [store_ctrl]. rewrite bind_val. simpl in Hc. cbv zeta. rewrite (proj2 (Z.leb_le _ _)) by lia.
    do 3 eexists. split; [done|]. split; [done|by left].
  - destruct (store_ctrl_ok _ _ _ _ Hok) as (b & -> & Hlb & Hby). rewrite bind_val. cbv zeta.
    destruct (Z.leb_spec (result_limit slen (rate_of strategy)) (bp o)). { do 3 eexists. split; [done|]. split; [done|by left]. }
    do 3 eexists. split; [done|]. split; [done|]. right. pose proof (out_bp _ _ _ _ Hok) as [Hbp Hbs].
    assert (Hpos : 0 < bp o). { rewrite Hbp, stream_snoc, lenZ_app, lenZ_cons. pose proof (lenZ_nonneg (stream gs)). pose proof (lenZ_nonneg (body g)). lia. }
    split_and!; [lia|lia|lia|]. exists (gs ++ [g]). split_and!.
    + apply groups_ok_snoc; [apply (out_full _ _ _ _ Hok)|]. pose proof (out_len _ _ _ _ Hok). destruct g; [done|]. simpl in *. lia.
    + rewrite concat_app. simpl. by rewrite app_nil_r.
    + apply list_eq_nthZ.
      * rewrite <- Hbp. unfold lenZ in *. rewrite length_take. lia.
      * intros i Hi. assert (i < bp o) by (unfold lenZ in *; rewrite length_take in Hi; lia). rewrite nthZ_take by lia. apply Hby. lia.
Qed.

(** ** Round trips *)
Lemma tok_bytes_bytes src p t : all_bytes src -> tok_ok src p t -> all_bytes (tok_bytes t).
Proof.
  intros Hb. destruct t as [b|len off]; simpl.
  - intros <-. apply Forall_singleton. by apply is_u_nthZ.
  - intros (Hlen & Hoff & _). assert (0 <= off / 256 < 16) by (split; [apply Z.div_pos|apply Z.div_lt_upper_bound]; lia).
    pose proof (Z.mod_pos_bound off 256 ltac:(lia)).
    destruct (Z.ltb_spec 17 len); repeat (apply Forall_cons_2; [unfold is_u; lia|]); apply Forall_nil_2.
Qed.

Lemma body_bytes src ts : all_bytes src -> forall p q, describes src p ts q -> all_bytes (body ts).
Proof.
  intros Hb. induction ts as [|t ts IH]; intros p q; [intros; apply Forall_nil_2|]. intros [Ht Hc].
  apply Forall_app_2; [by eapply tok_bytes_bytes|by eapply IH].
Qed.

Lemma stream_bytes src gs : all_bytes src -> groups_ok gs -> forall p q, describes src p (concat gs) q -> all_bytes (stream gs).
Proof.
  intros Hb. induction gs as [|g gs IH]; intros Hg p q Hc; [apply Forall_nil_2|].
  simpl in Hc. apply describes_app in Hc as (m & Hcg & Hcs). change (stream (g :: gs)) with (ctrl_byte g :: body g ++ stream gs).
  assert (length g <= 8)%nat by (destruct gs; simpl in Hg; lia). pose proof (ctrl_byte_range g).
  assert (2 ^ Z.of_nat (length g) <= 2 ^ 8) by (apply Z.pow_le_mono_r; lia).
  apply Forall_cons_2; [unfold is_u; lia|]. apply Forall_app_2; [by eapply body_bytes|]. eapply IH; [|done].
  destruct gs; [done|]. by destruct Hg.
Qed.

(** Decompressing [k] bytes of a compressed value, for a prefix of [rawsize] bytes. *)
Lemma decompress_prefix src slen gs k raw rawsize check_complete :
  all_bytes src -> slen <= lenZ src -> groups_ok gs -> describes src 0 (concat gs) slen ->
  0 <= rawsize <= slen -> rawsize <= lenZ raw -> lenZ (stream gs) < 2 ^ 31 ->
  pglz_maximum_compressed_size rawsize (lenZ (stream gs)) <= k <= lenZ (stream gs) ->
  (check_complete = true -> rawsize = slen) -> 0 <= k ->
  pglz_decompress (take (Z.to_nat k) (stream gs)) k raw rawsize check_complete = Ok (filled (upto src rawsize) raw, rawsize).
Proof.
  intros Hb Hl Hg Hc Hr Hraw Hs Hk Hcc Hk0.
  destruct (stream_decompress src rawsize gs slen k) as (s' & Href & Hnil); try done; try lia.
  assert (Hlk : lenZ (take (Z.to_nat k) (stream gs)) = k) by (unfold lenZ in *; rewrite length_take; lia).
  assert (Htk : take (Z.to_nat k) (take (Z.to_nat k) (stream gs)) = take (Z.to_nat k) (stream gs)) by (rewrite take_take; f_equal; lia).
  destruct (decompress_ref (take (Z.to_nat k) (stream gs)) k raw rawsize check_complete) as (d & r & -> & Hd).
  - apply Forall_take. by eapply stream_bytes.
  - lia.
  - lia.
  - right. by rewrite Htk, Href.
  - rewrite Htk, Href in Hd. destruct Hd as (-> & _ & ->). rewrite lenZ_upto by lia. destruct check_complete; [|done].
    cbn [andb]. rewrite bool_decide_eq_true_2; [done|]. split; [done|]. apply Hnil. by apply Hcc.
Qed.

(** C7. Compression and decompression are inverse.  Whatever the input, the strategy and
    the contents of the static work arrays, and given an output buffer of
    PGLZ_MAX_OUTPUT bytes, [pglz_compress] returns without overrunning it; its result is
    -1, or a size smaller than the input by more than the required rate, and then
    [pglz_decompress] of that many bytes into any buffer restores the input exactly, with
    the check for completeness. *)
Theorem pglz_roundtrip src slen dest strategy hs he :
  all_bytes src -> 0 <= slen <= lenZ src -> slen < 2 ^ 31 -> PGLZ_MAX_OUTPUT slen <= lenZ dest ->
  lenZ hs = PGLZ_MAX_HISTORY_LISTS -> lenZ he = PGLZ_HISTORY_SIZE + 1 ->
  exists dest' h r, pglz_compress src slen dest strategy hs he = Ok (dest', h, r) /\ lenZ dest' = lenZ dest /\
    (r = -1 \/
     0 < r < slen /\ 100 * r < slen * (100 - rate_of strategy) /\
     forall raw, slen <= lenZ raw ->
       pglz_decompress (take (Z.to_nat r) dest') r raw slen true = Ok (filled (upto src slen) raw, slen)).
Proof.
  intros Hb Hs H31 Hd Hhs Hhe. destruct (pglz_compress_ok src slen dest strategy hs he Hb Hs Hd Hhs Hhe) as (d & h & r & -> & Hl & Hc).
  exists d, h, r. split; [done|]. split; [done|]. destruct Hc as [->|(Hr & Hrate & gs & Hg & Hcov & Htake)]; [by left|right].
  split_and!; try done; try lia. intros raw Hraw. unfold PGLZ_MAX_OUTPUT in *.
  assert (Hlr : lenZ (stream gs) = r) by (rewrite <- Htake; unfold lenZ in *; rewrite length_take; lia).
  rewrite Htake, <- (take_ge (stream gs) (Z.to_nat r)) by (unfold lenZ in Hlr; lia).
  apply (decompress_prefix src slen); try done; try lia. rewrite Hlr. split; [|lia].
  unfold pglz_maximum_compressed_size. rewrite Z.quot_div_nonneg by lia.
  assert (0 <= (slen * 9 + 7) / 8) by (apply Z.div_pos; lia). rewrite wraps_small by (unfold is_s; lia). lia.
Qed.

(** A slice of a compressed value can be read from a prefix of it: the first [n] bytes
    of the input are restored from the first [pglz_maximum_compressed_size] bytes of its
    compressed form, without looking at the rest. *)
Theorem pglz_slice src slen dest strategy hs he n raw :
  all_bytes src -> 0 <= slen <= lenZ src -> slen < 2 ^ 31 -> PGLZ_MAX_OUTPUT slen <= lenZ dest ->
  lenZ hs = PGLZ_MAX_HISTORY_LISTS -> lenZ he = PGLZ_HISTORY_SIZE + 1 ->
  0 <= n <= slen -> n <= lenZ raw ->
  exists dest' h r, pglz_compress src slen dest strategy hs he = Ok (dest', h, r) /\
    (0 <= r -> let k := pglz_maximum_compressed_size n r in 0 <= k <= r /\
       pglz_decompress (take (Z.to_nat k) dest') k raw n false = Ok (filled (upto src n) raw, n)).
Proof.
  intros Hb Hs H31 Hd Hhs Hhe Hn Hraw. destruct (pglz_compress_ok src slen dest strategy hs he Hb Hs Hd Hhs Hhe) as (d & h & r & -> & Hl & Hc).
  exists d, h, r. split; [done|]. intros Hr0 k. destruct Hc as [->|(Hr & _ & gs & Hg & Hcov & Htake)]; [lia|]. unfold PGLZ_MAX_OUTPUT in *.
  assert (Hlr : lenZ (stream gs) = r) by (rewrite <- Htake; unfold lenZ in *; rewrite length_take; lia).
  assert (Hk : 0 <= k <= r).
  { unfold k, pglz_maximum_compressed_size. rewrite Z.quot_div_nonneg by lia.
    assert (0 <= (n * 9 + 7) / 8) by (apply Z.div_pos; lia). rewrite wraps_small by (unfold is_s; lia). lia. }
  split; [done|]. replace (take (Z.to_nat k) d) with (take (Z.to_nat k) (stream gs)).
  - apply (decompress_prefix src slen); try done; try lia. rewrite Hlr. fold k. lia.
  - rewrite <- Htake, take_take. f_equal. lia.
Qed.

(** ** A concrete value *)
Definition sample_text : list Z := concat (replicate 8 [49; 49; 50; 51; 52]) ++ replicate 60 32.
Definition stale_starts : list Z := replicate 8192 7.
Definition stale_entries : list PGLZ_HistEntry := replicate 4097 (mkEntry None (Some 3) 9 99).

Lemma sample_text_bytes : all_bytes sample_text.
Proof. unfold sample_text. repeat (apply Forall_cons_2; [unfold is_u; lia|]). apply Forall_nil_2. Qed.

Lemma pglz_roundtrip_witness : exists dest' h,
  pglz_compress sample_text 100 (replicate 104 0) None stale_starts stale_entries = Ok (dest', h, 13) /\
  pglz_decompress (take 13 dest') 13 (replicate 100 0) 100 true = Ok (sample_text, 100).
Proof.
  destruct (pglz_roundtrip sample_text 100 (replicate 104 0) None stale_starts stale_entries) as (d & h & r & Hc & _ & Hr).
  - exact sample_text_bytes.
  - unfold lenZ. simpl. lia.
  - lia.
  - unfold PGLZ_MAX_OUTPUT, lenZ. rewrite length_replicate. lia.
  - unfold lenZ, stale_starts. rewrite length_replicate. reflexivity.
  - unfold lenZ, stale_entries. rewrite length_replicate. reflexivity.
  - assert (r = 13) as -> by (vm_compute in Hc; congruence). exists d, h. split; [exact Hc|].
    destruct Hr as [Hr|(_ & _ & Hr)]; [discriminate Hr|]. exact (Hr (replicate 100 0) ltac:(vm_compute; discriminate)).
Defined.

Lemma pglz_slice_witness : exists dest' h,
  pglz_compress sample_text 100 (replicate 104 0) None stale_starts stale_entries = Ok (dest', h, 13) /\
  pglz_decompress (take 10 dest') 10 (replicate 7 0) 7 false = Ok (upto sample_text 7, 7).
Proof.
  destruct (pglz_slice sample_text 100 (replicate 104 0) None stale_starts stale_entries 7 (replicate 7 0)) as (d & h & r & Hc & Hr).
  - exact sample_text_bytes.
  - unfold lenZ. simpl. lia.
  - lia.
  - unfold PGLZ_MAX_OUTPUT, lenZ. rewrite length_replicate. lia.
  - unfold lenZ, stale_starts. rewrite length_replicate. reflexivity.
  - unfold lenZ, stale_entries. rewrite length_replicate. reflexivity.
  - lia.
  - vm_compute. discriminate.
  - assert (r = 13) as -> by (vm_compute in Hc; congruence). exists d, h. split; [exact Hc|].
    exact (proj2 (Hr ltac:(lia))).
Defined.
