(* ===== verification/Transam.v ===== *)
(** Transaction identifiers: [access/transam.h] and the comparisons of
    [src/backend/access/transam/transam.c].

    A [TransactionId] is a 32-bit number; the three smallest are special and the
    others are compared modulo 2^32.  A [FullTransactionId] is the 64-bit number
    that never wraps.  The theorem relates the two: within half the 32-bit space
    the circular comparisons are the comparisons of the full identifiers. *)
From S2P Require Import Prelude.

(** ** 32-bit identifiers *)
Definition InvalidTransactionId : Z := 0.
Definition BootstrapTransactionId : Z := 1.
Definition FrozenTransactionId : Z := 2.
Definition FirstNormalTransactionId : Z := 3.
Definition MaxTransactionId : Z := 4294967295.

Definition TransactionIdIsValid (xid : Z) : bool := negb (xid =? InvalidTransactionId).
Definition TransactionIdIsNormal (xid : Z) : bool := FirstNormalTransactionId <=? xid.
Definition TransactionIdEquals (id1 id2 : Z) : bool := id1 =? id2.

Definition TransactionIdPrecedes (id1 id2 : Z) : bool :=
  if negb (TransactionIdIsNormal id1) || negb (TransactionIdIsNormal id2) then id1 <? id2
  else wraps 32 (id1 - id2) <? 0.
Definition TransactionIdPrecedesOrEquals (id1 id2 : Z) : bool :=
  if negb (TransactionIdIsNormal id1) || negb (TransactionIdIsNormal id2) then id1 <=? id2
  else wraps 32 (id1 - id2) <=? 0.
Definition TransactionIdFollows (id1 id2 : Z) : bool :=
  if negb (TransactionIdIsNormal id1) || negb (TransactionIdIsNormal id2) then id2 <? id1
  else 0 <? wraps 32 (id1 - id2).
Definition TransactionIdFollowsOrEquals (id1 id2 : Z) : bool :=
  if negb (TransactionIdIsNormal id1) || negb (TransactionIdIsNormal id2) then id2 <=? id1
  else 0 <=? wraps 32 (id1 - id2).
Definition NormalTransactionIdPrecedes (id1 id2 : Z) : bool := wraps 32 (id1 - id2) <? 0.
Definition NormalTransactionIdFollows (id1 id2 : Z) : bool := 0 <? wraps 32 (id1 - id2).

(** The scan runs from the end of the array to its front. *)
Definition TransactionIdLatest (mainxid : Z) (xids : list Z) : Z :=
  fold_left (fun result x => if TransactionIdPrecedes result x then x else result) (reverse xids) mainxid.

Definition TransactionIdAdvance (dest : Z) : Z :=
  let dest := wrapu 32 (dest + 1) in
  if dest <? FirstNormalTransactionId then FirstNormalTransactionId else dest.

(** [do dest--; while (dest < FirstNormalTransactionId)]: at most four rounds. *)
Fixpoint retreat_loop (fuel : nat) (dest : Z) : res Z :=
  match fuel with
  | O => OutOfFuel
  | S fuel =>
    let dest := wrapu 32 (dest - 1) in
    if dest <? FirstNormalTransactionId then retreat_loop fuel dest else Ok dest
  end.
Definition TransactionIdRetreat (dest : Z) : res Z := retreat_loop 5 dest.

Definition TransactionIdRetreatedBy (xid amount : Z) : res Z :=
  let xid := wrapu 32 (xid - amount) in
  if xid <? FirstNormalTransactionId then retreat_loop 5 xid else Ok xid.

Definition TransactionIdOlder (a b : Z) : Z :=
  if negb (TransactionIdIsValid a) then b
  else if negb (TransactionIdIsValid b) then a
  else if TransactionIdPrecedes a b then a else b.
Definition NormalTransactionIdOlder (a b : Z) : Z := if NormalTransactionIdPrecedes a b then a else b.

(** ** 64-bit identifiers *)
Definition EpochFromFullTransactionId (x : Z) : Z := wrapu 32 (Z.shiftr x 32).
Definition XidFromFullTransactionId (x : Z) : Z := wrapu 32 x.
Definition FullTransactionIdFromEpochAndXid (epoch xid : Z) : Z := Z.lor (Z.shiftl epoch 32) xid.
Definition FirstNormalFullTransactionId : Z := FullTransactionIdFromEpochAndXid 0 FirstNormalTransactionId.
Definition FullTransactionIdPrecedes (a b : Z) : bool := a <? b.
Definition FullTransactionIdFollows (a b : Z) : bool := b <? a.
Definition FullTransactionIdIsValid (x : Z) : bool := TransactionIdIsValid (XidFromFullTransactionId x).

Definition FullTransactionIdNewer (a b : Z) : Z :=
  if negb (FullTransactionIdIsValid a) then b
  else if negb (FullTransactionIdIsValid b) then a
  else if FullTransactionIdFollows a b then a else b.

Fixpoint full_skip (fuel : nat) (delta dest : Z) : res Z :=
  match fuel with
  | O => OutOfFuel
  | S fuel =>
    if XidFromFullTransactionId dest <? FirstNormalTransactionId
    then full_skip fuel delta (wrapu 64 (dest + delta)) else Ok dest
  end.
Definition FullTransactionIdAdvance (dest : Z) : res Z :=
  let dest := wrapu 64 (dest + 1) in
  if FullTransactionIdPrecedes dest FirstNormalFullTransactionId then Ok dest else full_skip 5 1 dest.
Definition FullTransactionIdRetreat (dest : Z) : res Z :=
  let dest := wrapu 64 (dest - 1) in
  if FullTransactionIdPrecedes dest FirstNormalFullTransactionId then Ok dest else full_skip 5 (-1) dest.

(** ** Full identifiers seen through their 32 bits *)
Abbreviation xid_of := XidFromFullTransactionId.

(** A full identifier that a transaction can have. *)
Definition normal_full (f : Z) : Prop := 3 <= f < 2 ^ 64 /\ 3 <= xid_of f.

Lemma xid_of_range f : 0 <= xid_of f < 2 ^ 32.
Proof. unfold xid_of. apply Z.mod_pos_bound. lia. Qed.

Lemma xid_diff a b : wraps 32 (xid_of a - xid_of b) = wraps 32 (a - b).
Proof.
  unfold wraps, xid_of, wrapu. f_equal. rewrite (Z.add_comm (_ - _)), (Z.add_comm (a - b)).
  rewrite <- Zplus_mod_idemp_r, <- Zminus_mod, Zplus_mod_idemp_r. done.
Qed.

Lemma normal_is_normal f : normal_full f -> TransactionIdIsNormal (xid_of f) = true.
Proof. intros [_ H]. by apply Z.leb_le. Qed.

(** The four comparisons within half the space. *)
Lemma compare_full a b : normal_full a -> normal_full b -> - 2 ^ 31 < a - b < 2 ^ 31 ->
  TransactionIdPrecedes (xid_of a) (xid_of b) = (a <? b) /\
  TransactionIdPrecedesOrEquals (xid_of a) (xid_of b) = (a <=? b) /\
  TransactionIdFollows (xid_of a) (xid_of b) = (b <? a) /\
  TransactionIdFollowsOrEquals (xid_of a) (xid_of b) = (b <=? a).
Proof.
  intros Ha Hb Hd. unfold TransactionIdPrecedes, TransactionIdPrecedesOrEquals, TransactionIdFollows, TransactionIdFollowsOrEquals.
  rewrite !normal_is_normal by done. cbn [negb orb]. rewrite xid_diff, wraps_small by (unfold is_s; lia).
  split_and!; repeat zcase; lia || done.
Qed.

Lemma full_skip_normal fuel delta f : 3 <= xid_of f -> full_skip (S fuel) delta f = Ok f.
Proof. intros. simpl. unfold FirstNormalTransactionId. by rewrite (proj2 (Z.ltb_ge _ _)) by done. Qed.

(** Advancing skips the special identifiers at the start of an epoch. *)
Definition next_full (f : Z) : Z := if xid_of (f + 1) =? 0 then f + 4 else f + 1.

Lemma xid_of_mod f : xid_of f = f `mod` 4294967296.
Proof. done. Qed.

Lemma full_advance f : normal_full f -> f + 4 < 2 ^ 64 ->
  FullTransactionIdAdvance f = Ok (next_full f) /\ normal_full (next_full f) /\
  xid_of (next_full f) = TransactionIdAdvance (xid_of f).
Proof.
  intros [Hf Hx] Hl. unfold FullTransactionIdAdvance, FullTransactionIdPrecedes, next_full, TransactionIdAdvance.
  change FirstNormalFullTransactionId with 3. rewrite (wrapu_small 64) by (unfold is_u; lia).
  rewrite (proj2 (Z.ltb_ge _ _)) by lia. rewrite xid_of_mod in Hx.
  assert (Hadd : forall k, 1 <= k <= 4 -> xid_of (f + k) = if xid_of f + k <? 2 ^ 32 then xid_of f + k else xid_of f + k - 2 ^ 32).
  { intros k Hk. rewrite !xid_of_mod. zcase; Z.to_euclidean_division_equations; lia. }
  pose proof (xid_of_range f) as Hr. rewrite xid_of_mod in Hr.
  destruct (Z.eqb_spec (xid_of (f + 1)) 0) as [E|E].
  - assert (Hmax : xid_of f = 2 ^ 32 - 1).
    { rewrite Hadd in E by lia. rewrite xid_of_mod in E |- *. revert E. zcase; lia. }
    assert (H2 : xid_of (f + 2) = 1) by (rewrite Hadd, Hmax by lia; done).
    assert (H3 : xid_of (f + 3) = 2) by (rewrite Hadd, Hmax by lia; done).
    assert (H4 : xid_of (f + 4) = 3) by (rewrite Hadd, Hmax by lia; done).
    rewrite H4. split_and!; [|unfold normal_full; lia|by rewrite Hmax].
    cbn [full_skip]. unfold FirstNormalTransactionId. rewrite E. cbn [Z.ltb Z.compare Pos.compare Pos.compare_cont].
    rewrite (wrapu_small 64 (f + 1 + 1)) by (unfold is_u; lia). replace (f + 1 + 1) with (f + 2) by lia. rewrite H2.
    cbn [Z.ltb Z.compare Pos.compare Pos.compare_cont].
    rewrite (wrapu_small 64 (f + 2 + 1)) by (unfold is_u; lia). replace (f + 2 + 1) with (f + 3) by lia. rewrite H3.
    cbn [Z.ltb Z.compare Pos.compare Pos.compare_cont].
    rewrite (wrapu_small 64 (f + 3 + 1)) by (unfold is_u; lia). replace (f + 3 + 1) with (f + 4) by lia. by rewrite H4.
  - assert (Hlt : xid_of f + 1 < 2 ^ 32).
    { rewrite Hadd in E by lia. rewrite xid_of_mod in E |- *. revert E. zcase; lia. }
    assert (H1 : xid_of (f + 1) = xid_of f + 1) by (rewrite Hadd by lia; by rewrite (proj2 (Z.ltb_lt _ _)) by lia).
    split_and!.
    + apply full_skip_normal. rewrite H1, xid_of_mod. lia.
    + split; [lia|]. rewrite H1, xid_of_mod. lia.
    + rewrite H1, wrapu_small by (unfold is_u; rewrite xid_of_mod in *; lia).
      unfold FirstNormalTransactionId. rewrite (proj2 (Z.ltb_ge _ _)); [done|]. rewrite xid_of_mod. lia.
Qed.

Lemma retreat_advance x : 3 <= x < 2 ^ 32 -> TransactionIdRetreat (TransactionIdAdvance x) = Ok x.
Proof.
  intros Hx. unfold TransactionIdAdvance, FirstNormalTransactionId. destruct (decide (x = 2 ^ 32 - 1)) as [->|]; [reflexivity|].
  rewrite (wrapu_small 32 (x + 1)) by (unfold is_u; lia). rewrite (proj2 (Z.ltb_ge _ _)) by lia.
  unfold TransactionIdRetreat. cbn [retreat_loop]. replace (x + 1 - 1) with x by lia. rewrite wrapu_small by (unfold is_u; lia).
  unfold FirstNormalTransactionId. by rewrite (proj2 (Z.ltb_ge _ _)) by lia.
Qed.

Lemma full_retreat_advance f : normal_full f -> f + 4 < 2 ^ 64 -> FullTransactionIdRetreat (next_full f) = Ok f.
Proof.
  intros [Hf Hx] Hl. unfold FullTransactionIdRetreat, FullTransactionIdPrecedes, next_full.
  change FirstNormalFullTransactionId with 3. destruct (Z.eqb_spec (xid_of (f + 1)) 0) as [E|E]; cycle 1.
  { replace (f + 1 - 1) with f by lia. rewrite (wrapu_small 64) by (unfold is_u; lia). rewrite (proj2 (Z.ltb_ge _ _)) by lia.
    by apply full_skip_normal. }
  assert (Hk : forall k, 1 <= k <= 3 -> xid_of (f + k) <? FirstNormalTransactionId = true).
  { intros k Hk. apply Z.ltb_lt. unfold FirstNormalTransactionId. rewrite xid_of_mod in *. Z.to_euclidean_division_equations. lia. }
  replace (f + 4 - 1) with (f + 3) by lia. rewrite (wrapu_small 64 (f + 3)) by (unfold is_u; lia). rewrite (proj2 (Z.ltb_ge _ _)) by lia.
  cbn [full_skip]. rewrite (Hk 3) by lia. replace (f + 3 + -1) with (f + 2) by lia. rewrite (wrapu_small 64 (f + 2)) by (unfold is_u; lia).
  rewrite (Hk 2) by lia. replace (f + 2 + -1) with (f + 1) by lia. rewrite (wrapu_small 64 (f + 1)) by (unfold is_u; lia).
  rewrite (Hk 1) by lia. replace (f + 1 + -1) with f by lia. rewrite (wrapu_small 64 f) by (unfold is_u; lia).
  unfold FirstNormalTransactionId. by rewrite (proj2 (Z.ltb_ge _ _)) by done.
Qed.

Lemma map_reverse_xid fs : map xid_of (reverse fs) = reverse (map xid_of fs).
Proof. induction fs as [|f fs IH]; [done|]. cbn [map]. by rewrite !reverse_cons, map_app, IH. Qed.

Lemma latest_full lo : forall fs a, normal_full a -> lo <= a < lo + 2 ^ 31 ->
  Forall (fun f => normal_full f /\ lo <= f < lo + 2 ^ 31) fs ->
  fold_left (fun result x => if TransactionIdPrecedes result x then x else result) (map xid_of fs) (xid_of a) =
  xid_of (fold_left Z.max fs a).
Proof.
  induction fs as [|f fs IH]; intros a Ha Hlo Hfs; [done|]. apply Forall_cons in Hfs as [[Hf Hflo] Hfs]. cbn [map fold_left].
  destruct (compare_full a f Ha Hf ltac:(lia)) as (-> & _). destruct (Z.ltb_spec a f).
  - rewrite Z.max_r by lia. by apply IH.
  - rewrite Z.max_l by lia. by apply IH.
Qed.

(** C12. The circular comparison of transaction ids is sound.  Of identifiers that lie
    within 2^31 of each other in the full 64-bit order, the four comparisons of the
    32-bit ids decide that order; the latest and the older of several ids are the ones
    with the greatest and the smallest full identifier; and advancing and retreating,
    which skip the special ids, follow the full identifiers across an epoch boundary and
    are inverse to each other. *)
Theorem xid_circular_order lo a b fs :
  normal_full a -> normal_full b -> lo <= a < lo + 2 ^ 31 -> lo <= b < lo + 2 ^ 31 ->
  Forall (fun f => normal_full f /\ lo <= f < lo + 2 ^ 31) fs -> a + 4 < 2 ^ 64 ->
  (TransactionIdPrecedes (xid_of a) (xid_of b) = (a <? b) /\
   TransactionIdPrecedesOrEquals (xid_of a) (xid_of b) = (a <=? b) /\
   TransactionIdFollows (xid_of a) (xid_of b) = (b <? a) /\
   TransactionIdFollowsOrEquals (xid_of a) (xid_of b) = (b <=? a)) /\
  TransactionIdLatest (xid_of a) (map xid_of fs) = xid_of (fold_left Z.max (reverse fs) a) /\
  TransactionIdOlder (xid_of a) (xid_of b) = xid_of (Z.min a b) /\
  (exists a', FullTransactionIdAdvance a = Ok a' /\ a < a' /\ xid_of a' = TransactionIdAdvance (xid_of a) /\
     FullTransactionIdRetreat a' = Ok a /\ TransactionIdRetreat (xid_of a') = Ok (xid_of a)).
Proof.
  intros Ha Hb Hla Hlb Hfs Ha4. pose proof (compare_full a b Ha Hb ltac:(lia)) as Hcmp. split_and!; try apply Hcmp.
  - unfold TransactionIdLatest. rewrite <- map_reverse_xid. apply (latest_full lo); [done..|].
    by rewrite reverse_Permutation.
  - unfold TransactionIdOlder, TransactionIdIsValid, InvalidTransactionId. destruct Ha as [_ Ha'], Hb as [_ Hb'].
    rewrite !(proj2 (Z.eqb_neq _ 0)) by lia. cbn [negb]. rewrite (proj1 Hcmp). destruct (Z.ltb_spec a b); f_equal; lia.
  - destruct (full_advance a Ha Ha4) as (-> & Hn & Hx). exists (next_full a). split_and!; [done| |done|by apply full_retreat_advance|].
    + unfold next_full. case_match; lia.
    + rewrite Hx. apply retreat_advance. pose proof (xid_of_range a). destruct Ha. lia.
Qed.

Lemma xid_circular_order_witness :
  TransactionIdPrecedes 4294967290 7 = true /\ TransactionIdLatest 4294967290 [5; 4294967295; 9] = 9.
Proof.
  destruct (xid_circular_order 4294967000 4294967290 4294967303 [4294967301; 4294967295; 4294967305])
    as ((H & _) & Hl & _).
  - unfold normal_full. vm_compute. intuition discriminate.
  - unfold normal_full. vm_compute. intuition discriminate.
  - lia.
  - lia.
  - repeat (apply Forall_cons_2; [unfold normal_full; vm_compute; intuition discriminate|]). apply Forall_nil_2.
  - lia.
  - exact (conj H Hl).
Defined.
