(* ===== verification/Varsup.v ===== *)
(** Assignment of transaction and object identifiers:
    [src/backend/access/transam/varsup.c].

    The shared [VariableCache] is a record.  [GetNewTransactionId] is split where
    it gives up its lock: [xid_check] and [xid_assign] run under [XidGenLock],
    [xid_unlocked] runs between them on copies of the limits, while other
    backends may assign identifiers and move the limits.  The interleavings of
    any number of backends are a step relation in [VarsupSpec]. *)
From S2P Require Import Prelude ByteMem Transam.

(** ** Shared and per-process state *)
(** The fields that varsup.c uses. *)
Record VariableCacheData := mkCache {
  nextOid : Z;
  oidCount : Z;
  nextXid : Z;
  oldestXid : Z;
  xidVacLimit : Z;
  xidWarnLimit : Z;
  xidStopLimit : Z;
  xidWrapLimit : Z;
  oldestXidDB : Z;
  oldestClogXid : Z }.

Definition set_nextXid (c : VariableCacheData) (x : Z) : VariableCacheData :=
  mkCache (nextOid c) (oidCount c) x (oldestXid c) (xidVacLimit c) (xidWarnLimit c) (xidStopLimit c)
    (xidWrapLimit c) (oldestXidDB c) (oldestClogXid c).
Definition set_oids (c : VariableCacheData) (oid count : Z) : VariableCacheData :=
  mkCache oid count (nextXid c) (oldestXid c) (xidVacLimit c) (xidWarnLimit c) (xidStopLimit c)
    (xidWrapLimit c) (oldestXidDB c) (oldestClogXid c).
Definition set_oldestClogXid (c : VariableCacheData) (x : Z) : VariableCacheData :=
  mkCache (nextOid c) (oidCount c) (nextXid c) (oldestXid c) (xidVacLimit c) (xidWarnLimit c) (xidStopLimit c)
    (xidWrapLimit c) (oldestXidDB c) x.

Definition PGPROC_MAX_CACHED_SUBXIDS : Z := 64.
Record XidCacheStatus := mkStatus { count : Z; overflowed : bool }.
Record PGPROC := mkProc { xid : Z; subxids : list Z; subxidStatus : XidCacheStatus; pgxactoff : Z }.
(** The mirrored arrays of [ProcGlobal]. *)
Record PROC_HDR := mkGlobal { xids : list Z; subxidStates : list XidCacheStatus }.

(** What the process is doing. *)
Record process_mode := mkMode {
  IsInParallelMode : bool;
  IsBootstrapProcessingMode : bool;
  RecoveryInProgress : bool;
  IsUnderPostmaster : bool;
  IsPostmasterEnvironment : bool }.

(** ** Assigning a transaction id *)
(** The values copied before the lock is released. *)
Record xid_copies := mkCopies { cp_xid : Z; cp_warn : Z; cp_stop : Z; cp_wrap : Z; cp_datoid : Z }.

Definition xid_check (c : VariableCacheData) : option xid_copies :=
  let x := XidFromFullTransactionId (nextXid c) in
  if TransactionIdFollowsOrEquals x (xidVacLimit c)
  then Some (mkCopies x (xidWarnLimit c) (xidStopLimit c) (xidWrapLimit c) (oldestXidDB c)) else None.

(** Whether the autovacuum launcher is signalled, and the warning, if any, with
    the number of transactions left. *)
Definition xid_unlocked (m : process_mode) (cp : xid_copies) : res (bool * option Z) :=
  let signal := IsUnderPostmaster m && (cp_xid cp `mod` 65536 =? 0) in
  if IsUnderPostmaster m && TransactionIdFollowsOrEquals (cp_xid cp) (cp_stop cp)
  then Err "database is not accepting commands to avoid wraparound data loss"
  else if TransactionIdFollowsOrEquals (cp_xid cp) (cp_warn cp)
  then Ok (signal, Some (wrapu 32 (cp_wrap cp - cp_xid cp))) else Ok (signal, None).

(** Publishing the id in the process array. *)
Definition publish_xid (isSubXact : bool) (x : Z) (p : PGPROC) (g : PROC_HDR) : res (PGPROC * PROC_HDR) :=
  if negb isSubXact then
    xs ← aset (xids g) (pgxactoff p) x;
    Ok (mkProc x (subxids p) (subxidStatus p) (pgxactoff p), mkGlobal xs (subxidStates g))
  else
    substat ← aget (subxidStates g) (pgxactoff p);
    let nxids := count (subxidStatus p) in
    if nxids <? PGPROC_MAX_CACHED_SUBXIDS then
      subs ← aset (subxids p) nxids x;
      let n := wrapu 8 (nxids + 1) in
      sts ← aset (subxidStates g) (pgxactoff p) (mkStatus n (overflowed substat));
      Ok (mkProc (xid p) subs (mkStatus n (overflowed (subxidStatus p))) (pgxactoff p), mkGlobal (xids g) sts)
    else
      sts ← aset (subxidStates g) (pgxactoff p) (mkStatus (count substat) true);
      Ok (mkProc (xid p) (subxids p) (mkStatus (count (subxidStatus p)) true) (pgxactoff p), mkGlobal (xids g) sts).

(** [extend] stands for [ExtendCLOG], [ExtendCommitTs] and [ExtendSUBTRANS], which
    write a new page of their logs and may fail. *)
Definition xid_assign (extend : Z -> res ()) (isSubXact : bool) (c : VariableCacheData) (p : PGPROC) (g : PROC_HDR)
  : res (VariableCacheData * PGPROC * PROC_HDR * Z) :=
  let full_xid := nextXid c in
  let x := XidFromFullTransactionId full_xid in
  _ ← extend x;
  next ← FullTransactionIdAdvance (nextXid c);
  '(p, g) ← publish_xid isSubXact x p g;
  Ok (set_nextXid c next, p, g, full_xid).

(** [others] is what the other backends do to the cache while the lock is
    released. *)
Definition GetNewTransactionId (m : process_mode) (extend : Z -> res ()) (others : VariableCacheData -> VariableCacheData)
    (isSubXact : bool) (c : VariableCacheData) (p : PGPROC) (g : PROC_HDR)
  : res (VariableCacheData * PGPROC * PROC_HDR * Z) :=
  if IsInParallelMode m then Err "cannot assign TransactionIds during a parallel operation"
  else if IsBootstrapProcessingMode m then
    xs ← aset (xids g) (pgxactoff p) BootstrapTransactionId;
    Ok (c, mkProc BootstrapTransactionId (subxids p) (subxidStatus p) (pgxactoff p), mkGlobal xs (subxidStates g),
        FullTransactionIdFromEpochAndXid 0 BootstrapTransactionId)
  else if RecoveryInProgress m then Err "cannot assign TransactionIds during recovery"
  else
    match xid_check c with
    | Some cp => _ ← xid_unlocked m cp; xid_assign extend isSubXact (others c) p g
    | None => xid_assign extend isSubXact c p g
    end.

Definition ReadNextFullTransactionId (c : VariableCacheData) : Z := nextXid c.

Definition AdvanceNextFullTransactionIdPastXid (c : VariableCacheData) (x : Z) : VariableCacheData :=
  let next_xid := XidFromFullTransactionId (nextXid c) in
  if negb (TransactionIdFollowsOrEquals x next_xid) then c
  else
    let x := TransactionIdAdvance x in
    let epoch := EpochFromFullTransactionId (nextXid c) in
    let epoch := if x <? next_xid then wrapu 32 (epoch + 1) else epoch in
    set_nextXid c (FullTransactionIdFromEpochAndXid epoch x).

Definition AdvanceOldestClogXid (c : VariableCacheData) (oldest_datfrozenxid : Z) : VariableCacheData :=
  if TransactionIdPrecedes (oldestClogXid c) oldest_datfrozenxid then set_oldestClogXid c oldest_datfrozenxid else c.

(** ** The limits *)
Definition SetTransactionIdLimit (autovacuum_freeze_max_age : Z) (c : VariableCacheData)
    (oldest_datfrozenxid oldest_datoid : Z) : VariableCacheData :=
  let wrap := wrapu 32 (oldest_datfrozenxid + Z.shiftr MaxTransactionId 1) in
  let wrap := if wrap <? FirstNormalTransactionId then wrapu 32 (wrap + FirstNormalTransactionId) else wrap in
  let stop := wrapu 32 (wrap - 3000000) in
  let stop := if stop <? FirstNormalTransactionId then wrapu 32 (stop - FirstNormalTransactionId) else stop in
  let warn := wrapu 32 (wrap - 40000000) in
  let warn := if warn <? FirstNormalTransactionId then wrapu 32 (warn - FirstNormalTransactionId) else warn in
  let vac := wrapu 32 (oldest_datfrozenxid + autovacuum_freeze_max_age) in
  let vac := if vac <? FirstNormalTransactionId then wrapu 32 (vac + FirstNormalTransactionId) else vac in
  mkCache (nextOid c) (oidCount c) (nextXid c) oldest_datfrozenxid vac warn stop wrap oldest_datoid (oldestClogXid c).

(** What [SetTransactionIdLimit] does once it has released the lock: the signal to the
    autovacuum launcher and the warning with the number of transactions left. *)
Definition limit_notices (m : process_mode) (InRecovery : bool) (c : VariableCacheData) : bool * option Z :=
  let curXid := XidFromFullTransactionId (nextXid c) in
  (TransactionIdFollowsOrEquals curXid (xidVacLimit c) && IsUnderPostmaster m && negb InRecovery,
   if TransactionIdFollowsOrEquals curXid (xidWarnLimit c) && negb InRecovery
   then Some (wrapu 32 (xidWrapLimit c - curXid)) else None).

(** [db_exists] is the catalog lookup of the database. *)
Definition ForceTransactionIdLimitUpdate (c : VariableCacheData) (db_exists : Z -> bool) : bool :=
  let nextXid := XidFromFullTransactionId (nextXid c) in
  if negb (TransactionIdIsNormal (oldestXid c)) then true
  else if negb (TransactionIdIsValid (xidVacLimit c)) then true
  else if TransactionIdFollowsOrEquals nextXid (xidVacLimit c) then true
  else if negb (db_exists (oldestXidDB c)) then true
  else false.

(** ** Object ids *)
Definition VAR_OID_PREFETCH : Z := 8192.
Definition FirstGenbkiObjectId : Z := 10000.
Definition FirstUnpinnedObjectId : Z := 12000.
Definition FirstNormalObjectId : Z := 16384.

(** The new cache, the value written to the log, if any, and the id. *)
Definition GetNewObjectId (m : process_mode) (c : VariableCacheData) : res (VariableCacheData * option Z * Z) :=
  if RecoveryInProgress m then Err "cannot assign OIDs during recovery"
  else
    let c :=
      if nextOid c <? FirstNormalObjectId then
        if IsPostmasterEnvironment m then set_oids c FirstNormalObjectId 0
        else if nextOid c <? FirstGenbkiObjectId then set_oids c FirstNormalObjectId 0
        else c
      else c in
    let '(c, logged) :=
      if oidCount c =? 0 then
        (set_oids c (nextOid c) VAR_OID_PREFETCH, Some (wrapu 32 (nextOid c + VAR_OID_PREFETCH)))
      else (c, None) in
    let result := nextOid c in
    Ok (set_oids c (wrapu 32 (nextOid c + 1)) (wrapu 32 (oidCount c - 1)), logged, result).

Definition SetNextObjectId (m : process_mode) (c : VariableCacheData) (oid : Z) : res VariableCacheData :=
  if IsPostmasterEnvironment m then Err "cannot advance OID counter anymore"
  else if oid <? nextOid c then Err "too late to advance OID counter"
  else Ok (set_oids c oid 0).

Definition StopGeneratingPinnedObjectIds (m : process_mode) (c : VariableCacheData) : res VariableCacheData :=
  SetNextObjectId m c FirstUnpinnedObjectId.

(** Replay of a logged [XLOG_NEXTOID] record, and the counter a checkpoint records. *)
Definition redo_nextoid (c : VariableCacheData) (oid : Z) : VariableCacheData := set_oids c oid 0.
Definition checkpoint_nextoid (shutdown : bool) (c : VariableCacheData) : Z :=
  if shutdown then nextOid c else wrapu 32 (nextOid c + oidCount c).
