(* ===== verification/VarsupSpec.v ===== *)
(** Wraparound protection of transaction ids: the limits computed from the oldest
    id in use, the check in [GetNewTransactionId], and the interleavings of
    backends that pass the check, give up the lock, and assign later. *)
From S2P Require Import Prelude ByteMem Transam Varsup.

(** ** The limits as full identifiers *)
(** Step over the special ids, up or down. *)
Definition bump (f d : Z) : Z := if xid_of f <? 3 then f + d else f.
Definition wrap64 (o : Z) : Z := bump (o + (2 ^ 31 - 1)) 3.
Definition stop64 (o : Z) : Z := bump (wrap64 o - 3000000) (-3).
Definition warn64 (o : Z) : Z := bump (wrap64 o - 40000000) (-3).
Definition vac64 (age o : Z) : Z := bump (o + age) 3.

Lemma xid_of_add f d : wrapu 32 (xid_of f + d) = xid_of (f + d).
Proof. unfold xid_of, wrapu. by rewrite Zplus_mod_idemp_l. Qed.

Lemma bump_xid f d : xid_of (bump f d) = if xid_of f <? 3 then wrapu 32 (xid_of f + d) else xid_of f.
Proof. unfold bump. case_match; [|done]. by rewrite xid_of_add. Qed.

Lemma bump_normal f d : d = 3 \/ d = -3 -> 3 <= xid_of (bump f d).
Proof.
  intros Hd. rewrite bump_xid. pose proof (xid_of_range f) as Hr. destruct (Z.ltb_spec (xid_of f) 3) as [Hlt|]; [|done].
  destruct Hd as [->| ->].
  - rewrite wrapu_small by (unfold is_u; lia). lia.
  - unfold wrapu. change (2 ^ 32) with 4294967296. Z.to_euclidean_division_equations. lia.
Qed.

Lemma bump_near f d : d = 3 \/ d = -3 -> f - 3 <= bump f d <= f + 3.
Proof. unfold bump. case_match; lia. Qed.

(** The limits set for the oldest full identifier [o]. *)
Record limits_ok (age : Z) (c : VariableCacheData) (o : Z) : Prop := {
  lim_oldest : oldestXid c = xid_of o;
  lim_vac : xidVacLimit c = xid_of (vac64 age o);
  lim_warn : xidWarnLimit c = xid_of (warn64 o);
  lim_stop : xidStopLimit c = xid_of (stop64 o);
  lim_wrap : xidWrapLimit c = xid_of (wrap64 o) }.

Lemma set_limit_ok age c o db : limits_ok age (SetTransactionIdLimit age c (xid_of o) db) o.
Proof.
  assert (Hsub : forall f d, wrapu 32 (xid_of f - d) = xid_of (f - d)).
  { intros f d. replace (xid_of f - d) with (xid_of f + - d) by lia. rewrite xid_of_add. f_equal. }
  unfold SetTransactionIdLimit. change (Z.shiftr MaxTransactionId 1) with (2 ^ 31 - 1). unfold FirstNormalTransactionId.
  rewrite (xid_of_add o (2 ^ 31 - 1)), (xid_of_add o age), <- (bump_xid (o + (2 ^ 31 - 1)) 3), <- (bump_xid (o + age) 3). fold (wrap64 o).
  rewrite (Hsub (wrap64 o) 3000000), (Hsub (wrap64 o) 40000000). replace (xid_of (wrap64 o - 3000000) - 3) with (xid_of (wrap64 o - 3000000) + -3) by lia.
  replace (xid_of (wrap64 o - 40000000) - 3) with (xid_of (wrap64 o - 40000000) + -3) by lia. rewrite <- !bump_xid.
  split; done.
Qed.

(** ** One assignment *)
(** The window in which the circular comparisons are trusted. *)
Definition in_space (age : Z) (c : VariableCacheData) (o : Z) : Prop :=
  limits_ok age c o /\ normal_full o /\ normal_full (nextXid c) /\ o <= nextXid c < o + 2 ^ 31 /\ nextXid c < 2 ^ 63 /\
  100000 <= age <= 2000000000.

Lemma limit_normal o f d : 3 <= o < 2 ^ 63 -> d = 3 \/ d = -3 -> o + 6 <= f <= o + 2 ^ 32 -> normal_full (bump f d).
Proof. intros Ho Hd Hf. pose proof (bump_near f d Hd). pose proof (bump_normal f d Hd). split; [lia|done]. Qed.

Lemma limits_bounds age o : 100000 <= age <= 2000000000 ->
  o + 2 ^ 31 - 4 <= wrap64 o <= o + 2 ^ 31 + 2 /\ wrap64 o - 3000003 <= stop64 o <= wrap64 o - 2999997 /\
  wrap64 o - 40000003 <= warn64 o <= wrap64 o - 39999997 /\ o + age - 3 <= vac64 age o <= o + age + 3 /\ vac64 age o <= stop64 o.
Proof.
  intros Ha. pose proof (bump_near (o + (2 ^ 31 - 1)) 3). pose proof (bump_near (wrap64 o - 3000000) (-3)).
  pose proof (bump_near (wrap64 o - 40000000) (-3)). pose proof (bump_near (o + age) 3).
  unfold stop64, warn64, vac64. unfold wrap64 in *. lia.
Qed.

Lemma check_full age c o : in_space age c o ->
  xid_check c = if vac64 age o <=? nextXid c
    then Some (mkCopies (xid_of (nextXid c)) (xid_of (warn64 o)) (xid_of (stop64 o)) (xid_of (wrap64 o)) (oldestXidDB c)) else None.
Proof.
  intros ([Ho Hv Hw Hs Hr] & No & Nn & Hwin & H63 & Hage). destruct (limits_bounds age o Hage) as (?&?&?&?&?).
  assert (normal_full (vac64 age o)) by (apply (limit_normal o); [destruct No; lia|auto|lia]).
  unfold xid_check. rewrite Hv, Hw, Hs, Hr. destruct (compare_full (nextXid c) (vac64 age o)) as (_&_&_& ->); [done|done|lia|]. done.
Qed.

Lemma unlocked_full age c o m : in_space age c o -> IsUnderPostmaster m = true ->
  let cp := mkCopies (xid_of (nextXid c)) (xid_of (warn64 o)) (xid_of (stop64 o)) (xid_of (wrap64 o)) (oldestXidDB c) in
  xid_unlocked m cp =
    if stop64 o <=? nextXid c then Err "database is not accepting commands to avoid wraparound data loss"
    else Ok (xid_of (nextXid c) `mod` 65536 =? 0, if warn64 o <=? nextXid c then Some (wrap64 o - nextXid c) else None).
Proof.
  intros (_ & No & Nn & Hwin & H63 & Hage) Hm cp. destruct (limits_bounds age o Hage) as (?&?&?&?&?).
  assert (normal_full (stop64 o)) by (apply (limit_normal o); [destruct No; lia|auto|lia]).
  assert (normal_full (warn64 o)) by (apply (limit_normal o); [destruct No; lia|auto|lia]).
  unfold xid_unlocked, cp. cbn [cp_xid cp_warn cp_stop cp_wrap]. rewrite Hm. cbn [andb].
  destruct (compare_full (nextXid c) (stop64 o)) as (_&_&_& ->); [done|done|lia|].
  destruct (compare_full (nextXid c) (warn64 o)) as (_&_&_& ->); [done|done|lia|].
  destruct (Z.leb_spec (stop64 o) (nextXid c)); [done|]. destruct (Z.leb_spec (warn64 o) (nextXid c)); [|done].
  do 2 f_equal. rewrite <- (Z.add_0_r (xid_of (wrap64 o))).
  replace (xid_of (wrap64 o) + 0 - xid_of (nextXid c)) with (xid_of (wrap64 o) + - xid_of (nextXid c)) by lia.
  rewrite xid_of_add. unfold xid_of, wrapu. replace (wrap64 o + - (nextXid c `mod` 2 ^ 32)) with (wrap64 o - nextXid c `mod` 2 ^ 32) by lia.
  rewrite Zminus_mod_idemp_r, Z.mod_small by lia. done.
Qed.

Lemma assign_cache ext sub c p g c' p' g' x : xid_assign ext sub c p g = Ok (c', p', g', x) -> normal_full (nextXid c) -> nextXid c < 2 ^ 63 ->
  x = nextXid c /\ c' = set_nextXid c (next_full (nextXid c)) /\ normal_full (nextXid c') /\ nextXid c < nextXid c' <= nextXid c + 4.
Proof.
  intros H Hn Hl. unfold xid_assign in H. apply bind_Ok in H as (_ & _ & H). destruct (full_advance (nextXid c) Hn ltac:(lia)) as (Ha & Hn' & _).
  rewrite Ha, bind_val in H. apply bind_Ok in H as ([p1 g1] & _ & H). simplify_eq. split_and!; try done; simpl.
  all: unfold next_full; case_match; lia.
Qed.

Lemma set_nextXid_limits age c o x : limits_ok age c o -> limits_ok age (set_nextXid c x) o.
Proof. intros []. by split. Qed.

(** ** Interleavings *)
(** The shared cache, the full identifier behind [oldestXid], and the backends
    that have passed the check and not yet assigned their id. *)
Record sys := mkSys { s_cache : VariableCacheData; s_oldest : Z; s_window : gset nat }.

Definition server : process_mode := mkMode false false false true true.

Inductive step (backends : nat) (age : Z) : sys -> sys -> Prop :=
| step_assign b c o w ext sub p g c' p' g' x :
    (b < backends)%nat -> b ∉ w -> nextXid c < 2 ^ 63 ->
    xid_check c = None -> xid_assign ext sub c p g = Ok (c', p', g', x) ->
    step backends age (mkSys c o w) (mkSys c' o w)
| step_release b c o w cp r :
    (b < backends)%nat -> b ∉ w -> nextXid c < 2 ^ 63 ->
    xid_check c = Some cp -> xid_unlocked server cp = Ok r ->
    step backends age (mkSys c o w) (mkSys c o ({[b]} ∪ w))
| step_refused b c o w cp e :
    (b < backends)%nat -> b ∉ w ->
    xid_check c = Some cp -> xid_unlocked server cp = Err e ->
    step backends age (mkSys c o w) (mkSys c o w)
| step_resume b c o w ext sub p g c' p' g' x :
    b ∈ w -> nextXid c < 2 ^ 63 -> xid_assign ext sub c p g = Ok (c', p', g', x) ->
    step backends age (mkSys c o w) (mkSys c' o (w ∖ {[b]}))
| step_vacuumed o' db c o w :
    normal_full o' -> o <= o' <= nextXid c ->
    step backends age (mkSys c o w) (mkSys (SetTransactionIdLimit age c (xid_of o') db) o' w).

(** Every backend in the window may push the counter four further. *)
Record sys_inv (backends : nat) (age : Z) (s : sys) : Prop := {
  inv_limits : limits_ok age (s_cache s) (s_oldest s);
  inv_oldest : normal_full (s_oldest s);
  inv_next : normal_full (nextXid (s_cache s)) /\ nextXid (s_cache s) <= 2 ^ 63 + 4;
  inv_order : s_oldest s <= nextXid (s_cache s);
  inv_window : s_window s ⊆ set_seq 0 backends;
  inv_room : nextXid (s_cache s) + 4 * Z.of_nat (size (s_window s)) <
    s_oldest s + (2 ^ 31 - 2999995) + 4 * Z.of_nat backends }.

Lemma window_size backends (w : gset nat) b : w ⊆ set_seq 0 backends -> (b < backends)%nat -> b ∉ w -> (size w + 1 <= backends)%nat.
Proof.
  intros Hw Hb Hnb. assert (Hu : {[b]} ∪ w ⊆ set_seq 0 backends).
  { intros x. rewrite elem_of_union, elem_of_singleton. intros [->|Hx]; [|by apply Hw]. apply elem_of_set_seq. lia. }
  apply subseteq_size in Hu. rewrite size_set_seq, size_union, size_singleton in Hu by set_solver. lia.
Qed.

Section Wraparound.
Context (backends : nat) (age : Z).
Context (Hbackends : Z.of_nat backends <= 262143) (Hage : 100000 <= age <= 2000000000).

Lemma inv_space s : sys_inv backends age s -> nextXid (s_cache s) < 2 ^ 63 -> in_space age (s_cache s) (s_oldest s).
Proof. intros [Hl Ho [Hn _] Hle Hw Hr] H63. split_and!; try done; lia. Qed.

(** An assignment keeps the invariant if it is paid for. *)
Lemma assign_inv ext sub c o w p g c' p' g' x w' :
  sys_inv backends age (mkSys c o w) -> nextXid c < 2 ^ 63 -> xid_assign ext sub c p g = Ok (c', p', g', x) ->
  w' ⊆ set_seq 0 backends ->
  nextXid c + 4 + 4 * Z.of_nat (size w') < o + (2 ^ 31 - 2999995) + 4 * Z.of_nat backends ->
  sys_inv backends age (mkSys c' o w').
Proof.
  intros [Hl Ho [Hn _] Hle Hw Hr] H63 Ha Hw' Hroom. cbn [s_cache s_oldest s_window] in *.
  destruct (assign_cache _ _ _ _ _ _ _ _ _ Ha Hn H63) as (_ & -> & Hn' & Hlt). cbn [nextXid set_nextXid] in *.
  split; cbn [s_cache s_oldest s_window nextXid set_nextXid]; try done; try lia; [by apply set_nextXid_limits|].
  split; [done|lia].
Qed.

Lemma step_inv s s' : step backends age s s' -> sys_inv backends age s -> sys_inv backends age s'.
Proof.
  intros Hstep Hinv. pose proof Hinv as [Hl Ho [Hn Hmax] Hle Hw Hr].
  destruct Hstep as [b c o w ext sub p g c' p' g' x Hb Hbw H63 Hc Ha|b c o w cp r Hb Hbw H63 Hc Hu|b c o w cp e Hb Hbw Hc Hu
    |b c o w ext sub p g c' p' g' x Hbw H63 Ha|o' db c o w Ho' Hoo]; cbn [s_cache s_oldest s_window] in *.
  - pose proof (window_size _ _ _ Hw Hb Hbw). pose proof (inv_space _ Hinv H63) as Hsp. cbn [s_cache s_oldest] in Hsp.
    rewrite (check_full age c o Hsp) in Hc. destruct (Z.leb_spec (vac64 age o) (nextXid c)); [done|].
    destruct (limits_bounds age o Hage) as (?&?&?&?&?). eapply assign_inv; [done..|]. lia.
  - pose proof (window_size _ _ _ Hw Hb Hbw). pose proof (inv_space _ Hinv H63) as Hsp. cbn [s_cache s_oldest] in Hsp. rewrite (check_full age c o Hsp) in Hc.
    destruct (Z.leb_spec (vac64 age o) (nextXid c)); [|done]. simplify_eq. rewrite (unlocked_full age c o server Hsp eq_refl) in Hu.
    destruct (Z.leb_spec (stop64 o) (nextXid c)); [done|]. destruct (limits_bounds age o Hage) as (?&?&?&?&?).
    split; cbn [s_cache s_oldest s_window]; try done.
    + intros y. rewrite elem_of_union, elem_of_singleton. intros [->|Hy]; [|by apply Hw]. apply elem_of_set_seq. lia.
    + rewrite size_union, size_singleton by set_solver. lia.
  - done.
  - assert (Hsz : size w = S (size (w ∖ {[b]}))).
    { rewrite (union_difference_L {[b]} w) at 1 by set_solver. rewrite size_union, size_singleton by set_solver. done. }
    eapply assign_inv; [done..| |lia]. set_solver.
  - change (nextXid c) with (nextXid (SetTransactionIdLimit age c (xid_of o') db)) in *.
    split; cbn [s_cache s_oldest s_window]; try done; try lia. apply set_limit_ok.
Qed.

Lemma reachable_inv s s' : rtc (step backends age) s s' -> sys_inv backends age s -> sys_inv backends age s'.
Proof. induction 1 as [|s s1 s' Hs _ IH]; [done|]. intros Hinv. apply IH. by eapply step_inv. Qed.

(** C10. Transaction ids cannot wrap around.  However the backends of a server interleave
    (each checks the limits, may give up the lock before it assigns its id, and does not
    check again; the limits move when the oldest id in use advances), the next id stays
    within 2^31 of the oldest one.  So for any two ids in between, and for the next one,
    the 32-bit comparisons give the order in which they were assigned. *)
Theorem xid_wraparound_protection c0 db o s :
  normal_full o -> normal_full (nextXid c0) -> nextXid c0 < 2 ^ 63 -> o <= nextXid c0 < stop64 o ->
  rtc (step backends age) (mkSys (SetTransactionIdLimit age c0 (xid_of o) db) o ∅) s ->
  oldestXid (s_cache s) = xid_of (s_oldest s) /\
  s_oldest s <= nextXid (s_cache s) < s_oldest s + 2 ^ 31 /\
  forall a b, normal_full a -> normal_full b -> s_oldest s <= a <= nextXid (s_cache s) -> s_oldest s <= b <= nextXid (s_cache s) ->
    TransactionIdPrecedes (xid_of a) (xid_of b) = (a <? b) /\
  TransactionIdFollowsOrEquals (xid_of a) (xid_of b) = (b <=? a).
Proof.
  intros Ho Hn H63 Hle Hr. destruct (limits_bounds age o Hage) as (?&?&_).
  assert (Hinv : sys_inv backends age s).
  { apply (reachable_inv _ _ Hr). split; cbn [s_cache s_oldest s_window nextXid SetTransactionIdLimit]; try done; try lia.
    - apply set_limit_ok.
    - split; [done|lia].
    - rewrite size_empty. lia. }
  destruct Hinv as [Hl Ho' [Hn' _] Hle' Hw Hroom]. pose proof (lim_oldest _ _ _ Hl). split_and!; try done; try lia.
  intros a b Ha Hb Hra Hrb. destruct (compare_full a b Ha Hb) as (?&_&_&?); [lia|done].
Qed.
End Wraparound.

Lemma xid_wraparound_protection_witness :
  let c0 := mkCache 16384 0 4294967294 0 0 0 0 0 0 0 in
  let c := SetTransactionIdLimit 500000000 c0 (xid_of 4000000000) 1 in
  let c' := set_nextXid c 4294967295 in
  oldestXid c' = 4000000000 /\ TransactionIdPrecedes (xid_of 4000000000) (xid_of 4294967295) = true.
Proof.
  intros c0 c c'.
  destruct (xid_wraparound_protection 100 500000000 ltac:(lia) ltac:(lia) c0 1 4000000000 (mkSys c' 4000000000 ∅))
    as (Ho & _ & Hcmp).
  - unfold normal_full. vm_compute. intuition discriminate.
  - unfold normal_full. vm_compute. intuition discriminate.
  - vm_compute. reflexivity.
  - vm_compute. intuition discriminate.
  - apply rtc_once. apply (step_assign 100 500000000 7 c 4000000000 ∅ (fun _ => Ok ()) false (mkProc 0 [] (mkStatus 0 false) 0)
      (mkGlobal [0] []) c' (mkProc 4294967294 [] (mkStatus 0 false) 0) (mkGlobal [4294967294] []) 4294967294).
    + lia.
    + set_solver.
    + vm_compute. reflexivity.
    + vm_compute. reflexivity.
    + vm_compute. reflexivity.
  - split; [exact Ho|]. apply (Hcmp 4000000000 4294967295).
    + unfold normal_full. vm_compute. intuition discriminate.
    + unfold normal_full. vm_compute. intuition discriminate.
    + vm_compute. intuition discriminate.
    + vm_compute. intuition discriminate.
Defined.

(** ** One call of [GetNewTransactionId] *)
(** The process's ids and their mirror in the shared arrays. *)
Record proc_mirrored (p : PGPROC) (g : PROC_HDR) : Prop := {
  pm_off : 0 <= pgxactoff p;
  pm_xid : xids g !! Z.to_nat (pgxactoff p) = Some (xid p);
  pm_sub : subxidStates g !! Z.to_nat (pgxactoff p) = Some (subxidStatus p);
  pm_cache : length (subxids p) = Z.to_nat PGPROC_MAX_CACHED_SUBXIDS;
  pm_count : 0 <= count (subxidStatus p) <= PGPROC_MAX_CACHED_SUBXIDS }.

(** The ids a reader of the process array sees as running in this process. *)
Definition running (p : PGPROC) : list Z := xid p :: take (Z.to_nat (count (subxidStatus p))) (subxids p).

(** The slots of the other processes. *)
Definition same_others (off : Z) (g g' : PROC_HDR) : Prop :=
  forall j, j <> Z.to_nat off -> xids g' !! j = xids g !! j /\ subxidStates g' !! j = subxidStates g !! j.

Lemma aset_lookup {A} (l : list A) i x y : 0 <= i -> l !! Z.to_nat i = Some y -> aset l i x = Ok (<[Z.to_nat i := x]> l).
Proof. intros Hi Hl. apply aset_Ok. apply lookup_lt_Some in Hl. lia. Qed.

Lemma publish_top x p g : proc_mirrored p g -> exists p' g', publish_xid false x p g = Ok (p', g') /\
  proc_mirrored p' g' /\ same_others (pgxactoff p) g g' /\ running p' = x :: tail (running p) /\
  overflowed (subxidStatus p') = overflowed (subxidStatus p).
Proof.
  intros [Ho Hx Hs Hc Hn]. unfold publish_xid. cbn [negb]. rewrite (aset_lookup _ _ _ _ Ho Hx), bind_val.
  eexists _, _. split; [done|]. split_and!; try done.
  - split; try done. cbn. apply list_lookup_insert_eq. by eapply lookup_lt_Some.
  - intros j Hj. cbn. by rewrite list_lookup_insert_ne by done.
Qed.

Lemma publish_sub x p g : proc_mirrored p g -> exists p' g', publish_xid true x p g = Ok (p', g') /\
  proc_mirrored p' g' /\ same_others (pgxactoff p) g g' /\
  if count (subxidStatus p) <? PGPROC_MAX_CACHED_SUBXIDS
  then running p' = running p ++ [x] /\ overflowed (subxidStatus p') = overflowed (subxidStatus p)
  else running p' = running p /\ overflowed (subxidStatus p') = true.
Proof.
  intros [Ho Hx Hs Hc Hn]. unfold publish_xid, PGPROC_MAX_CACHED_SUBXIDS in *. cbn [negb].
  rewrite (proj2 (aget_Ok _ _ _) (conj Ho Hs)), bind_val. destruct (Z.ltb_spec (count (subxidStatus p)) 64) as [Hlt|Hge].
  - rewrite (aset_Ok (subxids p)), bind_val, (aset_lookup _ _ _ _ Ho Hs), bind_val, (wrapu_small 8) by (unfold is_u; lia).
    eexists _, _. split; [done|]. split_and!; try done.
    + split; cbn; try done; [|by rewrite length_insert|unfold PGPROC_MAX_CACHED_SUBXIDS; lia].
      apply list_lookup_insert_eq. by eapply lookup_lt_Some.
    + intros j Hj. cbn. by rewrite list_lookup_insert_ne by done.
    + unfold running. cbn. f_equal. replace (Z.to_nat (count (subxidStatus p) + 1)) with (S (Z.to_nat (count (subxidStatus p)))) by lia.
      rewrite (take_S_r _ _ x) by (apply list_lookup_insert_eq; lia). by rewrite take_insert_ge by lia.
  - rewrite (aset_lookup _ _ _ _ Ho Hs), bind_val. eexists _, _. split; [done|]. split_and!; try done.
    + split; cbn; try done. apply list_lookup_insert_eq. by eapply lookup_lt_Some.
    + intros j Hj. cbn. by rewrite list_lookup_insert_ne by done.
Qed.

Lemma assign_publishes ext sub c p g : normal_full (nextXid c) -> nextXid c < 2 ^ 63 -> proc_mirrored p g ->
  ext (xid_of (nextXid c)) = Ok () ->
  exists p' g', xid_assign ext sub c p g = Ok (set_nextXid c (next_full (nextXid c)), p', g', nextXid c) /\
    proc_mirrored p' g' /\ same_others (pgxactoff p) g g' /\
    (xid_of (nextXid c) ∈ running p' \/ overflowed (subxidStatus p') = true) /\
    (overflowed (subxidStatus p) = true -> overflowed (subxidStatus p') = true) /\
    tail (running p) `prefix_of` tail (running p').
Proof.
  intros Hn H63 Hp He. unfold xid_assign. rewrite He, bind_val. destruct (full_advance (nextXid c) Hn ltac:(lia)) as (-> & _).
  rewrite bind_val. destruct sub.
  - destruct (publish_sub (xid_of (nextXid c)) p g Hp) as (p' & g' & -> & Hp' & Ho & Hr). rewrite bind_val.
    exists p', g'. split; [done|]. split; [done|]. split; [done|]. destruct (_ <? _).
    + destruct Hr as [-> ->]. split_and!; [left; set_solver|done|]. cbn [running app tail]. by apply prefix_app_r.
    + destruct Hr as [-> ->]. split_and!; [by right|done|done].
  - destruct (publish_top (xid_of (nextXid c)) p g Hp) as (p' & g' & -> & Hp' & Ho & Hr & Hv). rewrite bind_val.
    exists p', g'. split; [done|]. rewrite Hr, Hv. split_and!; try done. left. set_solver.
Qed.

(** What one call of [GetNewTransactionId] does, whatever the other backends do while
    the lock is released.  Past the stop limit of the oldest id it is refused and nothing
    changes.  Otherwise it takes the next full identifier, advances the counter to the
    identifier after it, and before the lock is released the id is visible in the shared
    process array (or, when the cache of subtransaction ids is full, the overflow flag is
    set); the entries of other processes and the ids published before stay.  If the commit
    log cannot be extended, the counter does not move. *)
Theorem get_new_transaction_id age c o others ext sub p g :
  in_space age c o -> proc_mirrored p g ->
  let c1 := if vac64 age o <=? nextXid c then others c else c in
  normal_full (nextXid c1) -> nextXid c1 < 2 ^ 63 ->
  if stop64 o <=? nextXid c
  then GetNewTransactionId server ext others sub c p g = Err "database is not accepting commands to avoid wraparound data loss"
  else match ext (xid_of (nextXid c1)) with
  | Ok _ => exists p' g',
      GetNewTransactionId server ext others sub c p g = Ok (set_nextXid c1 (next_full (nextXid c1)), p', g', nextXid c1) /\
      proc_mirrored p' g' /\ same_others (pgxactoff p) g g' /\
      (xid_of (nextXid c1) ∈ running p' \/ overflowed (subxidStatus p') = true) /\
      (overflowed (subxidStatus p) = true -> overflowed (subxidStatus p') = true) /\
      tail (running p) `prefix_of` tail (running p')
  | _ => forall r, GetNewTransactionId server ext others sub c p g <> Ok r
  end.
Proof.
  intros Hsp Hp c1 Hn H63.
  assert (E : GetNewTransactionId server ext others sub c p g =
    if stop64 o <=? nextXid c then Err "database is not accepting commands to avoid wraparound data loss" else xid_assign ext sub c1 p g).
  { unfold GetNewTransactionId, c1. cbn [server IsInParallelMode IsBootstrapProcessingMode RecoveryInProgress].
    rewrite (check_full age c o Hsp). pose proof Hsp as (_&_&_&_&_&Hage). destruct (limits_bounds age o Hage) as (?&?&?&?&?).
    destruct (Z.leb_spec (vac64 age o) (nextXid c)).
    - rewrite (unlocked_full age c o server Hsp eq_refl). by destruct (_ <=? _).
    - by rewrite (proj2 (Z.leb_gt (stop64 o) _)) by lia. }
  rewrite E. clearbody c1. clear E. destruct (stop64 o <=? nextXid c); [done|]. destruct (ext _) as [[]| | |] eqn:He; [by apply assign_publishes|..].
  all: intros r; unfold xid_assign; rewrite He; done.
Qed.

Lemma get_new_transaction_id_witness :
  let c := SetTransactionIdLimit 200000000 (mkCache 16384 0 1000 0 0 0 0 0 0 0) 700 1 in
  let p := mkProc 990 (replicate 64 0) (mkStatus 64 false) 1 in
  let g := mkGlobal [0; 990] [mkStatus 0 false; mkStatus 64 false] in
  exists p' g', GetNewTransactionId server (fun _ => Ok ()) id true c p g = Ok (set_nextXid c 1001, p', g', 1000).
Proof.
  intros c p g.
  destruct (get_new_transaction_id 200000000 c 700 id (fun _ => Ok ()) true p g) as (p' & g' & H & _).
  - split_and!; try (unfold normal_full; vm_compute; intuition discriminate). apply (set_limit_ok 200000000 _ 700).
  - split; vm_compute; try reflexivity; intuition discriminate.
  - unfold normal_full; vm_compute; intuition discriminate.
  - vm_compute. reflexivity.
  - exact (ex_intro _ p' (ex_intro _ g' H)).
Defined.

(** ** Following ids seen in the log *)
Lemma full_split f : 0 <= f < 2 ^ 64 -> FullTransactionIdFromEpochAndXid (EpochFromFullTransactionId f) (xid_of f) = f.
Proof.
  intros Hf. unfold FullTransactionIdFromEpochAndXid, EpochFromFullTransactionId.
  rewrite (wrapu_small 32) by (unfold is_u; rewrite Z.shiftr_div_pow2 by lia; split; [apply Z.div_pos; lia|apply Z.div_lt_upper_bound; lia]).
  unfold xid_of, wrapu. rewrite <- Z.land_ones by lia. apply Z.bits_inj'. intros n Hn. rewrite Z.lor_spec, Z.land_spec, Z.testbit_ones by lia.
  destruct (Z.ltb_spec n 32).
  - rewrite Z.shiftl_spec_low by lia. rewrite (proj2 (Z.leb_le 0 n)) by lia. cbn. by rewrite andb_true_r.
  - rewrite Z.shiftl_spec_high, Z.shiftr_spec by lia. replace (n - 32 + 32) with n by lia. by rewrite !andb_false_r, orb_false_r.
Qed.

Lemma epoch_div f : 0 <= f < 2 ^ 64 -> EpochFromFullTransactionId f = f / 2 ^ 32.
Proof.
  intros. unfold EpochFromFullTransactionId. rewrite Z.shiftr_div_pow2 by lia. apply wrapu_small. unfold is_u.
  split; [apply Z.div_pos; lia|apply Z.div_lt_upper_bound; lia].
Qed.

(** Recovery sees only 32-bit transaction ids.  For the full identifier behind an id
    within 2^31 of the counter, [AdvanceNextFullTransactionIdPastXid] infers the epoch:
    the counter becomes the full identifier after it when it is at or past the counter,
    also across an epoch boundary, and stays otherwise; the oldest id with commit status
    likewise only moves forward. *)
Theorem advance_past_xid c f h : normal_full f -> normal_full (nextXid c) -> nextXid c < 2 ^ 63 ->
  - 2 ^ 31 < f - nextXid c < 2 ^ 31 ->
  normal_full h -> oldestClogXid c = xid_of h -> - 2 ^ 31 < f - h < 2 ^ 31 ->
  AdvanceNextFullTransactionIdPastXid c (xid_of f) = (if nextXid c <=? f then set_nextXid c (next_full f) else c) /\
  oldestClogXid (AdvanceOldestClogXid c (xid_of f)) = xid_of (Z.max h f).
Proof.
  intros Hf Hn H63 Hd Hh Eh Hdh. split; cycle 1.
  { unfold AdvanceOldestClogXid. rewrite Eh. destruct (compare_full h f Hh Hf ltac:(lia)) as (-> & _).
    destruct (Z.ltb_spec h f); cbn; rewrite ?Eh; f_equal; lia. }
  unfold AdvanceNextFullTransactionIdPastXid. destruct (compare_full f (nextXid c) Hf Hn ltac:(lia)) as (_&_&_& ->).
  destruct (Z.leb_spec (nextXid c) f) as [Hle|]; [|done]. cbn [negb].
  destruct (full_advance f Hf ltac:(lia)) as (_ & Hn' & <-). f_equal.
  assert (Hnx : f < next_full f <= f + 4) by (unfold next_full; case_match; lia).
  assert (Hlo : 3 <= nextXid c) by (destruct Hn; lia).
  transitivity (FullTransactionIdFromEpochAndXid (EpochFromFullTransactionId (next_full f)) (xid_of (next_full f))); [|apply full_split; lia].
  f_equal. rewrite !epoch_div by lia.
  assert (0 <= nextXid c / 2 ^ 32 < 2 ^ 31) by (split; [apply Z.div_pos; lia|apply Z.div_lt_upper_bound; lia]).
  pose proof (xid_of_mod (next_full f)) as E1. pose proof (xid_of_mod (nextXid c)) as E2. change 4294967296 with (2 ^ 32) in *.
  destruct (Z.ltb_spec (xid_of (next_full f)) (xid_of (nextXid c))) as [Hx|Hx]; rewrite E1, E2 in Hx; clear E1 E2.
  - rewrite (wrapu_small 32 (nextXid c / 2 ^ 32 + 1)) by (unfold is_u; lia). Z.to_euclidean_division_equations. lia.
  - Z.to_euclidean_division_equations. lia.
Qed.

Lemma advance_past_xid_witness :
  nextXid (AdvanceNextFullTransactionIdPastXid (mkCache 0 0 4294967290 700 0 0 0 0 0 4294967000) 5) = 4294967302.
Proof.
  refine (f_equal nextXid (proj1 (advance_past_xid (mkCache 0 0 4294967290 700 0 0 0 0 0 4294967000) 4294967301 4294967000 _ _ _ _ _ _ _)));
    unfold normal_full; vm_compute; intuition (reflexivity || discriminate).
Defined.

(** ** Object ids across restarts *)
Definition option_to_list {A} (o : option A) : list A := match o with Some a => [a] | None => [] end.

(** The cache, the values logged and the ids handed out, both most recent first.
    A restart replays the last logged value. *)
Inductive oid_run : VariableCacheData -> list Z -> list Z -> Prop :=
| oid_start c : 0 <= nextOid c < 2 ^ 32 -> oidCount c = 0 -> oid_run c [nextOid c] []
| oid_get c ls ids c' lg x : oid_run c ls ids -> GetNewObjectId server c = Ok (c', lg, x) ->
    oid_run c' (option_to_list lg ++ ls) (x :: ids)
| oid_restart c l ls ids : oid_run c (l :: ls) ids -> oid_run (redo_nextoid c l) (l :: ls) ids.

Record oid_inv (c : VariableCacheData) (ls ids : list Z) : Prop := {
  oi_next : 0 <= nextOid c < 2 ^ 32;
  oi_count : 0 <= oidCount c <= VAR_OID_PREFETCH;
  oi_logged : exists l, head ls = Some l /\ wrapu 32 (nextOid c + oidCount c) = l;
  oi_normal : Forall (fun x => FirstNormalObjectId <= x < 2 ^ 32) ids;
  oi_fresh : StronglySorted Z.gt ls -> StronglySorted Z.gt ids /\ Forall (fun x => x < nextOid c) ids /\ nextOid c + oidCount c < 2 ^ 32 }.

(** What one call does once the counter has left the reserved range. *)
Lemma get_oid_server c : exists n k, (n = nextOid c /\ k = oidCount c /\ FirstNormalObjectId <= n \/
    n = FirstNormalObjectId /\ k = 0 /\ nextOid c < FirstNormalObjectId) /\
  GetNewObjectId server c = Ok (set_oids c (wrapu 32 (n + 1)) (wrapu 32 ((if k =? 0 then VAR_OID_PREFETCH else k) - 1)),
    if k =? 0 then Some (wrapu 32 (n + VAR_OID_PREFETCH)) else None, n).
Proof.
  unfold GetNewObjectId. cbn [server RecoveryInProgress IsPostmasterEnvironment].
  destruct (Z.ltb_spec (nextOid c) FirstNormalObjectId).
  - exists FirstNormalObjectId, 0. split; [auto|]. done.
  - exists (nextOid c), (oidCount c). split; [auto|]. by destruct (oidCount c =? 0).
Qed.

Lemma oid_run_inv c ls ids : oid_run c ls ids -> oid_inv c ls ids.
Proof.
  induction 1 as [c Hc Hk|c ls ids c' lg x _ [Hn Hk (l & Hl & El) Hf Hs] Hg|c l ls ids _ [Hn Hk (l' & Hl & El) Hf Hs]].
  - split; [done|rewrite Hk; done|exists (nextOid c); rewrite Hk, Z.add_0_r, wrapu_small by done; done|constructor|].
    intros _. split_and!; [constructor..|lia].
  - destruct (get_oid_server c) as (n & k & Hnk & E). rewrite Hg in E. unfold VAR_OID_PREFETCH, FirstNormalObjectId in *.
    injection E as -> -> ->.
    assert (Hn' : FirstNormalObjectId <= n < 2 ^ 32 /\ 0 <= k <= VAR_OID_PREFETCH) by (unfold VAR_OID_PREFETCH, FirstNormalObjectId; lia).
    assert (Hk' : wrapu 32 ((if k =? 0 then 8192 else k) - 1) = (if k =? 0 then 8192 else k) - 1)
      by (apply wrapu_small; unfold is_u; case_match; lia).
    split; cbn [nextOid oidCount set_oids]; rewrite ?Hk'.
    + apply Z.mod_pos_bound. lia.
    + unfold VAR_OID_PREFETCH. destruct (Z.eqb_spec k 0); lia.
    + destruct (Z.eqb_spec k 0); cbn [option_to_list app head]; eexists; split; try done; unfold wrapu;
        rewrite Zplus_mod_idemp_l; [f_equal; lia|]. destruct Hnk as [(-> & -> & _)|]; [|lia]. rewrite <- El. unfold wrapu. f_equal. lia.
    + apply Forall_cons_2; [exact (proj1 Hn')|exact Hf].
    + intros Hsort. assert (Hls : StronglySorted Z.gt ls) by (destruct (k =? 0); [by apply StronglySorted_inv in Hsort as [? _]|done]).
      destruct (Hs Hls) as (Hids & Hlt & Hb).
      assert (Hn1 : n + (if k =? 0 then 8192 else k) < 2 ^ 32).
      { destruct (Z.eqb_spec k 0) as [Ek0|]; [|lia]. destruct Hnk as [(-> & Ek & ?)|]; [|lia]. destruct ls as [|l0 ls]; [done|].
        injection Hl as ->. apply StronglySorted_inv in Hsort as [_ Hgt]. apply Forall_cons in Hgt as [Hgt _].
        rewrite <- El, <- Ek, Ek0, Z.add_0_r, (wrapu_small 32 (nextOid c)) in Hgt by done. unfold wrapu in Hgt. Z.to_euclidean_division_equations. lia. }
      rewrite (wrapu_small 32 (n + 1)) by (unfold is_u; destruct (Z.eqb_spec k 0); lia). split_and!.
      * constructor; [done|]. eapply Forall_impl; [done|]. simpl. lia.
      * apply Forall_cons_2; [lia|]. eapply Forall_impl; [done|]. simpl. lia.
      * destruct (k =? 0); lia.
  - split; cbn [nextOid oidCount redo_nextoid set_oids]; try done.
    + simpl in Hl. simplify_eq. apply Z.mod_pos_bound. lia.
    + simpl in Hl. simplify_eq. eexists. split; [done|]. rewrite Z.add_0_r. unfold wrapu. apply Zmod_mod.
    + intros Hsort. destruct (Hs Hsort) as (? & Hlt & Hb). simpl in Hl. simplify_eq. unfold wrapu. rewrite Z.mod_small by lia. split_and!; [done| |lia].
      eapply Forall_impl; [done|]. simpl. lia.
Qed.


