(* ===== verification/HeapTup.v ===== *)
(** The header of a heap tuple: [access/htup_details.h].

    The header is a record of its fields; the visibility information lives in the
    bits of [t_infomask] and [t_infomask2], which are read as the source reads
    them, with masks.  The lemmas express every mask test by single bits, and say
    how each test changes when hint bits are set. *)
From S2P Require Import Prelude Transam.

(** ** The header *)
Record HeapTupleHeaderData := mkTup {
  t_xmin : Z;
  t_xmax : Z;
  t_field3 : Z;
  ctid_block : Z;
  ctid_posid : Z;
  t_infomask2 : Z;
  t_infomask : Z }.

Definition set_infomask (t : HeapTupleHeaderData) (m : Z) : HeapTupleHeaderData :=
  mkTup (t_xmin t) (t_xmax t) (t_field3 t) (ctid_block t) (ctid_posid t) (t_infomask2 t) m.

Definition HEAP_COMBOCID : Z := 32.
Definition HEAP_XMAX_KEYSHR_LOCK : Z := 16.
Definition HEAP_XMAX_EXCL_LOCK : Z := 64.
Definition HEAP_XMAX_LOCK_ONLY : Z := 128.
Definition HEAP_XMAX_SHR_LOCK : Z := Z.lor HEAP_XMAX_EXCL_LOCK HEAP_XMAX_KEYSHR_LOCK.
Definition HEAP_LOCK_MASK : Z := Z.lor (Z.lor HEAP_XMAX_SHR_LOCK HEAP_XMAX_EXCL_LOCK) HEAP_XMAX_KEYSHR_LOCK.
Definition HEAP_XMIN_COMMITTED : Z := 256.
Definition HEAP_XMIN_INVALID : Z := 512.
Definition HEAP_XMIN_FROZEN : Z := Z.lor HEAP_XMIN_COMMITTED HEAP_XMIN_INVALID.
Definition HEAP_XMAX_COMMITTED : Z := 1024.
Definition HEAP_XMAX_INVALID : Z := 2048.
Definition HEAP_XMAX_IS_MULTI : Z := 4096.
Definition HEAP_MOVED_OFF : Z := 16384.
Definition HEAP_MOVED_IN : Z := 32768.
Definition HEAP_MOVED : Z := Z.lor HEAP_MOVED_OFF HEAP_MOVED_IN.
Definition HEAP_HOT_UPDATED : Z := 16384.
Definition HEAP_ONLY_TUPLE : Z := 32768.

(** [m & flag] as a condition. *)
Definition has (m flag : Z) : bool := negb (Z.land m flag =? 0).

Definition HEAP_XMAX_IS_LOCKED_ONLY (infomask : Z) : bool :=
  has infomask HEAP_XMAX_LOCK_ONLY ||
  (Z.land infomask (Z.lor HEAP_XMAX_IS_MULTI HEAP_LOCK_MASK) =? HEAP_XMAX_EXCL_LOCK).
Definition HEAP_LOCKED_UPGRADED (infomask : Z) : bool :=
  has infomask HEAP_XMAX_IS_MULTI && has infomask HEAP_XMAX_LOCK_ONLY &&
  (Z.land infomask (Z.lor HEAP_XMAX_EXCL_LOCK HEAP_XMAX_KEYSHR_LOCK) =? 0).

Definition HeapTupleHeaderGetRawXmin (t : HeapTupleHeaderData) : Z := t_xmin t.
Definition HeapTupleHeaderXminCommitted (t : HeapTupleHeaderData) : bool := has (t_infomask t) HEAP_XMIN_COMMITTED.
Definition HeapTupleHeaderXminInvalid (t : HeapTupleHeaderData) : bool :=
  Z.land (t_infomask t) (Z.lor HEAP_XMIN_COMMITTED HEAP_XMIN_INVALID) =? HEAP_XMIN_INVALID.
Definition HeapTupleHeaderXminFrozen (t : HeapTupleHeaderData) : bool :=
  Z.land (t_infomask t) HEAP_XMIN_FROZEN =? HEAP_XMIN_FROZEN.
Definition HeapTupleHeaderGetXmin (t : HeapTupleHeaderData) : Z :=
  if HeapTupleHeaderXminFrozen t then FrozenTransactionId else HeapTupleHeaderGetRawXmin t.
Definition HeapTupleHeaderGetRawXmax (t : HeapTupleHeaderData) : Z := t_xmax t.
Definition HeapTupleHeaderGetRawCommandId (t : HeapTupleHeaderData) : Z := t_field3 t.
Definition HeapTupleHeaderGetXvac (t : HeapTupleHeaderData) : Z :=
  if has (t_infomask t) HEAP_MOVED then t_field3 t else InvalidTransactionId.

Definition SpecTokenOffsetNumber : Z := 65534.
Definition HeapTupleHeaderIsSpeculative (t : HeapTupleHeaderData) : bool := ctid_posid t =? SpecTokenOffsetNumber.
Definition HeapTupleHeaderGetSpeculativeToken (t : HeapTupleHeaderData) : Z := ctid_block t.

Definition HeapTupleHeaderIsHotUpdated (t : HeapTupleHeaderData) : bool :=
  has (t_infomask2 t) HEAP_HOT_UPDATED && (Z.land (t_infomask t) HEAP_XMAX_INVALID =? 0) && negb (HeapTupleHeaderXminInvalid t).
Definition HeapTupleHeaderIsHeapOnly (t : HeapTupleHeaderData) : bool := has (t_infomask2 t) HEAP_ONLY_TUPLE.

(** ** Members of a multixact *)
Inductive MultiXactStatus :=
| MultiXactStatusForKeyShare
| MultiXactStatusForShare
| MultiXactStatusForNoKeyUpdate
| MultiXactStatusForUpdate
| MultiXactStatusNoKeyUpdate
| MultiXactStatusUpdate.
Record MultiXactMember := mkMember { m_xid : Z; m_status : MultiXactStatus }.

Definition ISUPDATE_from_mxstatus (s : MultiXactStatus) : bool :=
  match s with MultiXactStatusNoKeyUpdate | MultiXactStatusUpdate => true | _ => false end.

(** ** Mask tests as bits *)
Lemma land_bit m k : 0 <= k -> Z.land m (2 ^ k) = if Z.testbit m k then 2 ^ k else 0.
Proof.
  intros Hk. apply Z.bits_inj'. intros n Hn. rewrite Z.land_spec, Z.pow2_bits_eqb by done.
  destruct (Z.eqb_spec k n) as [<-|Hne].
  - rewrite andb_true_r. destruct (Z.testbit m k) eqn:E; [by rewrite Z.pow2_bits_true|by rewrite Z.bits_0].
  - rewrite andb_false_r. destruct (Z.testbit m k); [by rewrite Z.pow2_bits_false by lia|by rewrite Z.bits_0].
Qed.

Lemma has_bit m k : 0 <= k -> has m (2 ^ k) = Z.testbit m k.
Proof.
  intros Hk. unfold has. rewrite land_bit by done. destruct (Z.testbit m k); [|done].
  rewrite (proj2 (Z.eqb_neq _ _)); [done|]. pose proof (Z.pow_pos_nonneg 2 k). lia.
Qed.

Lemma has_lor m a b : has m (Z.lor a b) = has m a || has m b.
Proof.
  unfold has. rewrite Z.land_lor_distr_r. destruct (Z.eqb_spec (Z.land m a) 0) as [Ea|Ea], (Z.eqb_spec (Z.land m b) 0) as [Eb|Eb]; cbn.
  - rewrite Ea, Eb. done.
  - rewrite (proj2 (Z.eqb_neq _ _)); [done|]. intros [??]%Z.lor_eq_0_iff. done.
  - rewrite (proj2 (Z.eqb_neq _ _)); [done|]. intros [??]%Z.lor_eq_0_iff. done.
  - rewrite (proj2 (Z.eqb_neq _ _)); [done|]. intros [??]%Z.lor_eq_0_iff. done.
Qed.

Lemma has_comm a b : has a b = has b a.
Proof. unfold has. by rewrite Z.land_comm. Qed.

Lemma has_set m a b : has (Z.lor m a) b = has m b || has a b.
Proof. by rewrite !(has_comm _ b), has_lor. Qed.

Lemma xmin_invalid_bits t : HeapTupleHeaderXminInvalid t =
  has (t_infomask t) HEAP_XMIN_INVALID && negb (has (t_infomask t) HEAP_XMIN_COMMITTED).
Proof.
  unfold HeapTupleHeaderXminInvalid, has, HEAP_XMIN_COMMITTED, HEAP_XMIN_INVALID. rewrite Z.land_lor_distr_r.
  rewrite (land_bit _ 8), (land_bit _ 9) by done. by destruct (Z.testbit _ 8), (Z.testbit _ 9).
Qed.

Lemma xmin_frozen_bits t : HeapTupleHeaderXminFrozen t =
  has (t_infomask t) HEAP_XMIN_INVALID && has (t_infomask t) HEAP_XMIN_COMMITTED.
Proof.
  unfold HeapTupleHeaderXminFrozen, HEAP_XMIN_FROZEN, has, HEAP_XMIN_COMMITTED, HEAP_XMIN_INVALID. rewrite Z.land_lor_distr_r.
  rewrite (land_bit _ 8), (land_bit _ 9) by done. by destruct (Z.testbit _ 8), (Z.testbit _ 9).
Qed.

Lemma locked_only_bits m : HEAP_XMAX_IS_LOCKED_ONLY m =
  has m HEAP_XMAX_LOCK_ONLY || has m HEAP_XMAX_EXCL_LOCK && negb (has m HEAP_XMAX_KEYSHR_LOCK) && negb (has m HEAP_XMAX_IS_MULTI).
Proof.
  unfold HEAP_XMAX_IS_LOCKED_ONLY. f_equal. change (Z.lor HEAP_XMAX_IS_MULTI HEAP_LOCK_MASK) with (Z.lor (2 ^ 12) (Z.lor (2 ^ 6) (2 ^ 4))).
  rewrite !Z.land_lor_distr_r. unfold has, HEAP_XMAX_EXCL_LOCK, HEAP_XMAX_KEYSHR_LOCK, HEAP_XMAX_IS_MULTI.
  change 4096 with (2 ^ 12). change 16 with (2 ^ 4). change 64 with (2 ^ 6). rewrite !land_bit by done.
  by destruct (Z.testbit m 12), (Z.testbit m 6), (Z.testbit m 4).
Qed.

Lemma not_has m f : (Z.land m f =? 0) = negb (has m f).
Proof. unfold has. by rewrite negb_involutive. Qed.

Lemma upgraded_bits m : HEAP_LOCKED_UPGRADED m =
  has m HEAP_XMAX_IS_MULTI && has m HEAP_XMAX_LOCK_ONLY && negb (has m HEAP_XMAX_EXCL_LOCK || has m HEAP_XMAX_KEYSHR_LOCK).
Proof. unfold HEAP_LOCKED_UPGRADED. by rewrite not_has, has_lor. Qed.
