(* ===== verification/HeapVis.v ===== *)
(** Tuple visibility: [src/backend/access/heap/heapam_visibility.c], with the
    snapshot test of [snapmgr.c] and the multixact helpers it calls.

    A function takes the tuple header and returns it with the hint bits it has set.
    What the functions ask about transactions (the process array, the commit log,
    the multixact and subtransaction logs, the combo command ids of the backend) is
    the record [xact_state]: the answers at the moment of the call. *)
From S2P Require Import Prelude Transam HeapTup.

(** ** What the backend knows *)
Record xact_state := mkXact {
  TransactionIdIsCurrentTransactionId : Z -> bool;
  TransactionIdIsInProgress : Z -> bool;
  TransactionIdDidCommit : Z -> bool;
  TransactionIdGetCommitLSN : Z -> Z;
  XLogNeedsFlush : Z -> bool;
  GetMultiXactIdMembers : Z -> bool -> list MultiXactMember;
  GetRealCmin : Z -> Z;
  GetRealCmax : Z -> Z;
  SubTransGetTopmostTransaction : Z -> Z;
  ResolveCminCmaxDuringDecoding : Z * Z -> option (Z * Z) }.

(** The properties of the buffer that hold back a hint bit. *)
Record BufferState := mkBuffer { BufferIsPermanent : bool; BufferGetLSNAtomic : Z }.

Inductive SnapshotType :=
| SNAPSHOT_MVCC
| SNAPSHOT_SELF
| SNAPSHOT_ANY
| SNAPSHOT_TOAST
| SNAPSHOT_DIRTY
| SNAPSHOT_HISTORIC_MVCC
| SNAPSHOT_NON_VACUUMABLE.

Record SnapshotData := mkSnap {
  snapshot_type : SnapshotType;
  snap_xmin : Z;
  snap_xmax : Z;
  xip : list Z;
  subxip : list Z;
  suboverflowed : bool;
  takenDuringRecovery : bool;
  curcid : Z;
  speculativeToken : Z;
  GlobalVisTestIsRemovableXid : Z -> bool }.

Definition set_dirty (s : SnapshotData) (xmin xmax token : Z) : SnapshotData :=
  mkSnap (snapshot_type s) xmin xmax (xip s) (subxip s) (suboverflowed s) (takenDuringRecovery s) (curcid s) token
    (GlobalVisTestIsRemovableXid s).

Inductive HTSV_Result :=
| HEAPTUPLE_DEAD
| HEAPTUPLE_LIVE
| HEAPTUPLE_RECENTLY_DEAD
| HEAPTUPLE_INSERT_IN_PROGRESS
| HEAPTUPLE_DELETE_IN_PROGRESS.
#[export] Instance HTSV_Result_eq_dec : EqDecision HTSV_Result.
Proof. solve_decision. Defined.

Inductive TM_Result :=
| TM_Ok
| TM_Invisible
| TM_SelfModified
| TM_Updated
| TM_Deleted
| TM_BeingModified
| TM_WouldBlock.

(** ** Linear search

    One round of the vector loop compares four registers of four lanes and combines
    the results; a lane of a comparison is all ones or zero. *)
Definition vector32_eq (keys vals : list Z) : list Z := zip_with (fun k v => if k =? v then 4294967295 else 0) keys vals.
Definition vector32_or (v1 v2 : list Z) : list Z := zip_with Z.lor v1 v2.
Definition vector32_is_highbit_set (v : list Z) : bool := 
  existsb (fun x => Z.testbit x 7 || Z.testbit x 15 || Z.testbit x 23 || Z.testbit x 31) v.
Definition vector32_load (base : list Z) (i : nat) : list Z := take 4 (drop i base).

Fixpoint lfind_vectors (rounds : nat) (key : Z) (base : list Z) (i : nat) : bool :=
  match rounds with
  | O => false
  | S rounds =>
    let keys := replicate 4 key in
    let result k := vector32_eq keys (vector32_load base (i + 4 * k)) in
    if vector32_is_highbit_set (vector32_or (vector32_or (result 0%nat) (result 1%nat)) (vector32_or (result 2%nat) (result 3%nat)))
    then true else lfind_vectors rounds key base (i + 16)
  end.
Definition pg_lfind32 (key : Z) (base : list Z) : bool :=
  let rounds := (length base / 16)%nat in
  if lfind_vectors rounds key base 0 then true else existsb (Z.eqb key) (drop (16 * rounds) base).

(** The C library's [bsearch] with [xidComparator], on the entries [l .. u-1]: the
    interval shrinks in every round, so the array's length bounds the rounds. *)
Fixpoint xid_bsearch (fuel : nat) (key : Z) (base : list Z) (l u : Z) : bool :=
  match fuel with
  | O => false
  | S fuel =>
    if l <? u then
      let idx := (l + u) / 2 in
      let x := nthZ base idx in
      if key <? x then xid_bsearch fuel key base l idx
      else if x <? key then xid_bsearch fuel key base (idx + 1) u
      else true
    else false
  end.
Definition TransactionIdInArray (xid : Z) (xip : list Z) : bool :=
  (0 <? Z.of_nat (length xip)) && xid_bsearch (S (length xip)) xid xip 0 (Z.of_nat (length xip)).

Section Visibility.
Context (E : xact_state) (buffer : BufferState).

(** ** Multixacts and command ids *)
Definition MultiXactIdGetUpdateXid (xmax : Z) : Z :=
  match List.find (fun m => ISUPDATE_from_mxstatus (m_status m)) (GetMultiXactIdMembers E xmax false) with
  | Some m => m_xid m
  | None => InvalidTransactionId
  end.
Definition HeapTupleGetUpdateXid (t : HeapTupleHeaderData) : Z := MultiXactIdGetUpdateXid (HeapTupleHeaderGetRawXmax t).
Definition HeapTupleHeaderGetUpdateXid (t : HeapTupleHeaderData) : Z :=
  if negb (has (t_infomask t) HEAP_XMAX_INVALID) && has (t_infomask t) HEAP_XMAX_IS_MULTI &&
     negb (has (t_infomask t) HEAP_XMAX_LOCK_ONLY)
  then HeapTupleGetUpdateXid t else HeapTupleHeaderGetRawXmax t.

Definition MultiXactIdIsRunning (multi : Z) (isLockOnly : bool) : bool :=
  let members := GetMultiXactIdMembers E multi isLockOnly in
  existsb (fun m => TransactionIdIsCurrentTransactionId E (m_xid m)) members ||
  existsb (fun m => TransactionIdIsInProgress E (m_xid m)) members.

Definition HeapTupleHeaderGetCmin (t : HeapTupleHeaderData) : Z :=
  if has (t_infomask t) HEAP_COMBOCID then GetRealCmin E (HeapTupleHeaderGetRawCommandId t) else HeapTupleHeaderGetRawCommandId t.
Definition HeapTupleHeaderGetCmax (t : HeapTupleHeaderData) : Z :=
  if has (t_infomask t) HEAP_COMBOCID then GetRealCmax E (HeapTupleHeaderGetRawCommandId t) else HeapTupleHeaderGetRawCommandId t.

(** ** Snapshots *)
Definition XidInMVCCSnapshot (xid : Z) (s : SnapshotData) : bool :=
  if TransactionIdPrecedes xid (snap_xmin s) then false
  else if TransactionIdFollowsOrEquals xid (snap_xmax s) then true
  else if negb (takenDuringRecovery s) then
    if negb (suboverflowed s) then
      if pg_lfind32 xid (subxip s) then true else pg_lfind32 xid (xip s)
    else
      let xid := SubTransGetTopmostTransaction E xid in
      if TransactionIdPrecedes xid (snap_xmin s) then false else pg_lfind32 xid (xip s)
  else if suboverflowed s then
    let xid := SubTransGetTopmostTransaction E xid in
    if TransactionIdPrecedes xid (snap_xmin s) then false else pg_lfind32 xid (subxip s)
  else pg_lfind32 xid (subxip s).

(** ** Hint bits *)
Definition SetHintBits (t : HeapTupleHeaderData) (infomask xid : Z) : HeapTupleHeaderData :=
  if TransactionIdIsValid xid &&
     (BufferIsPermanent buffer && XLogNeedsFlush E (TransactionIdGetCommitLSN E xid) &&
      (BufferGetLSNAtomic buffer <? TransactionIdGetCommitLSN E xid))
  then t else set_infomask t (Z.lor (t_infomask t) infomask).

(** ** The checks of the inserting transaction

    The blocks of the functions for tuples moved by an old VACUUM FULL: [busy] is the
    test for a running transaction that the function uses.  [Some r] returns early. *)
Definition moved_off {A} (busy : Z -> bool) (invisible : A) (t : HeapTupleHeaderData) : HeapTupleHeaderData * option A :=
  let xvac := HeapTupleHeaderGetXvac t in
  if TransactionIdIsCurrentTransactionId E xvac then (t, Some invisible)
  else if negb (busy xvac) then
    if TransactionIdDidCommit E xvac then (SetHintBits t HEAP_XMIN_INVALID InvalidTransactionId, Some invisible)
    else (SetHintBits t HEAP_XMIN_COMMITTED InvalidTransactionId, None)
  else (t, None).

Definition moved_in {A} (busy : Z -> bool) (invisible : A) (t : HeapTupleHeaderData) : HeapTupleHeaderData * option A :=
  let xvac := HeapTupleHeaderGetXvac t in
  if negb (TransactionIdIsCurrentTransactionId E xvac) then
    if busy xvac then (t, Some invisible)
    else if TransactionIdDidCommit E xvac then (SetHintBits t HEAP_XMIN_COMMITTED InvalidTransactionId, None)
    else (SetHintBits t HEAP_XMIN_INVALID InvalidTransactionId, Some invisible)
  else (t, None).

(** The end of the check: [busy] has been asked about the inserter. *)
Definition inserter_done {A} (aborted : A) (t : HeapTupleHeaderData) : HeapTupleHeaderData * option A :=
  if TransactionIdDidCommit E (HeapTupleHeaderGetRawXmin t)
  then (SetHintBits t HEAP_XMIN_COMMITTED (HeapTupleHeaderGetRawXmin t), None)
  else (SetHintBits t HEAP_XMIN_INVALID InvalidTransactionId, Some aborted).

(** ** SNAPSHOT_SELF *)
Definition self_own (t : HeapTupleHeaderData) : HeapTupleHeaderData * bool :=
  if has (t_infomask t) HEAP_XMAX_INVALID then (t, true)
  else if HEAP_XMAX_IS_LOCKED_ONLY (t_infomask t) then (t, true)
  else if has (t_infomask t) HEAP_XMAX_IS_MULTI then
    let xmax := HeapTupleGetUpdateXid t in
    if negb (TransactionIdIsCurrentTransactionId E xmax) then (t, true) else (t, false)
  else if negb (TransactionIdIsCurrentTransactionId E (HeapTupleHeaderGetRawXmax t))
  then (SetHintBits t HEAP_XMAX_INVALID InvalidTransactionId, true)
  else (t, false).

Definition self_xmin (t : HeapTupleHeaderData) : HeapTupleHeaderData * option bool :=
  if negb (HeapTupleHeaderXminCommitted t) then
    if HeapTupleHeaderXminInvalid t then (t, Some false)
    else if has (t_infomask t) HEAP_MOVED_OFF then moved_off (TransactionIdIsInProgress E) false t
    else if has (t_infomask t) HEAP_MOVED_IN then moved_in (TransactionIdIsInProgress E) false t
    else if TransactionIdIsCurrentTransactionId E (HeapTupleHeaderGetRawXmin t) then
      let '(t, r) := self_own t in (t, Some r)
    else if TransactionIdIsInProgress E (HeapTupleHeaderGetRawXmin t) then (t, Some false)
    else inserter_done false t
  else (t, None).

Definition self_xmax (t : HeapTupleHeaderData) : HeapTupleHeaderData * bool :=
  if has (t_infomask t) HEAP_XMAX_INVALID then (t, true)
  else if has (t_infomask t) HEAP_XMAX_COMMITTED then
    if HEAP_XMAX_IS_LOCKED_ONLY (t_infomask t) then (t, true) else (t, false)
  else if has (t_infomask t) HEAP_XMAX_IS_MULTI then
    if HEAP_XMAX_IS_LOCKED_ONLY (t_infomask t) then (t, true)
    else
      let xmax := HeapTupleGetUpdateXid t in
      if TransactionIdIsCurrentTransactionId E xmax then (t, false)
      else if TransactionIdIsInProgress E xmax then (t, true)
      else if TransactionIdDidCommit E xmax then (t, false)
      else (t, true)
  else if TransactionIdIsCurrentTransactionId E (HeapTupleHeaderGetRawXmax t) then
    if HEAP_XMAX_IS_LOCKED_ONLY (t_infomask t) then (t, true) else (t, false)
  else if TransactionIdIsInProgress E (HeapTupleHeaderGetRawXmax t) then (t, true)
  else if negb (TransactionIdDidCommit E (HeapTupleHeaderGetRawXmax t))
  then (SetHintBits t HEAP_XMAX_INVALID InvalidTransactionId, true)
  else if HEAP_XMAX_IS_LOCKED_ONLY (t_infomask t)
  then (SetHintBits t HEAP_XMAX_INVALID InvalidTransactionId, true)
  else (SetHintBits t HEAP_XMAX_COMMITTED (HeapTupleHeaderGetRawXmax t), false).

Definition HeapTupleSatisfiesSelf (t : HeapTupleHeaderData) : HeapTupleHeaderData * bool :=
  match self_xmin t with (t, Some r) => (t, r) | (t, None) => self_xmax t end.

Definition HeapTupleSatisfiesAny (t : HeapTupleHeaderData) : HeapTupleHeaderData * bool := (t, true).

(** ** SNAPSHOT_TOAST *)
Definition HeapTupleSatisfiesToast (t : HeapTupleHeaderData) : HeapTupleHeaderData * bool :=
  let '(t, early) :=
    if negb (HeapTupleHeaderXminCommitted t) then
      if HeapTupleHeaderXminInvalid t then (t, Some false)
      else if has (t_infomask t) HEAP_MOVED_OFF then moved_off (TransactionIdIsInProgress E) false t
      else if has (t_infomask t) HEAP_MOVED_IN then moved_in (TransactionIdIsInProgress E) false t
      else if negb (TransactionIdIsValid (HeapTupleHeaderGetXmin t)) then (t, Some false)
      else (t, None)
    else (t, None) in
  (t, default true early).

(** ** HeapTupleSatisfiesUpdate *)
Definition modified_since (curcid : Z) (t : HeapTupleHeaderData) : TM_Result :=
  if curcid <=? HeapTupleHeaderGetCmax t then TM_SelfModified else TM_Invisible.

Definition ItemPointerEquals (p1 p2 : Z * Z) : bool := (p1.1 =? p2.1) && (p1.2 =? p2.2).
Definition updated_or_deleted (self : Z * Z) (t : HeapTupleHeaderData) : TM_Result :=
  if negb (ItemPointerEquals self (ctid_block t, ctid_posid t)) then TM_Updated else TM_Deleted.

Definition update_own (curcid : Z) (t : HeapTupleHeaderData) : HeapTupleHeaderData * TM_Result :=
  if curcid <=? HeapTupleHeaderGetCmin t then (t, TM_Invisible)
  else if has (t_infomask t) HEAP_XMAX_INVALID then (t, TM_Ok)
  else if HEAP_XMAX_IS_LOCKED_ONLY (t_infomask t) then
    let xmax := HeapTupleHeaderGetRawXmax t in
    if has (t_infomask t) HEAP_XMAX_IS_MULTI then
      if MultiXactIdIsRunning xmax true then (t, TM_BeingModified) else (t, TM_Ok)
    else if negb (TransactionIdIsInProgress E xmax) then (t, TM_Ok) else (t, TM_BeingModified)
  else if has (t_infomask t) HEAP_XMAX_IS_MULTI then
    let xmax := HeapTupleGetUpdateXid t in
    if negb (TransactionIdIsCurrentTransactionId E xmax) then
      if MultiXactIdIsRunning (HeapTupleHeaderGetRawXmax t) false then (t, TM_BeingModified) else (t, TM_Ok)
    else (t, modified_since curcid t)
  else if negb (TransactionIdIsCurrentTransactionId E (HeapTupleHeaderGetRawXmax t))
  then (SetHintBits t HEAP_XMAX_INVALID InvalidTransactionId, TM_Ok)
  else (t, modified_since curcid t).

Definition update_xmin (curcid : Z) (t : HeapTupleHeaderData) : HeapTupleHeaderData * option TM_Result :=
  if negb (HeapTupleHeaderXminCommitted t) then
    if HeapTupleHeaderXminInvalid t then (t, Some TM_Invisible)
    else if has (t_infomask t) HEAP_MOVED_OFF then moved_off (TransactionIdIsInProgress E) TM_Invisible t
    else if has (t_infomask t) HEAP_MOVED_IN then moved_in (TransactionIdIsInProgress E) TM_Invisible t
    else if TransactionIdIsCurrentTransactionId E (HeapTupleHeaderGetRawXmin t) then
      let '(t, r) := update_own curcid t in (t, Some r)
    else if TransactionIdIsInProgress E (HeapTupleHeaderGetRawXmin t) then (t, Some TM_Invisible)
    else inserter_done TM_Invisible t
  else (t, None).

Definition update_multi (self : Z * Z) (curcid : Z) (t : HeapTupleHeaderData) : HeapTupleHeaderData * TM_Result :=
  if HEAP_LOCKED_UPGRADED (t_infomask t) then (t, TM_Ok)
  else if HEAP_XMAX_IS_LOCKED_ONLY (t_infomask t) then
    if MultiXactIdIsRunning (HeapTupleHeaderGetRawXmax t) true then (t, TM_BeingModified)
    else (SetHintBits t HEAP_XMAX_INVALID InvalidTransactionId, TM_Ok)
  else
    let xmax := HeapTupleGetUpdateXid t in
    if negb (TransactionIdIsValid xmax) && MultiXactIdIsRunning (HeapTupleHeaderGetRawXmax t) false then (t, TM_BeingModified)
    else if TransactionIdIsCurrentTransactionId E xmax then (t, modified_since curcid t)
    else if MultiXactIdIsRunning (HeapTupleHeaderGetRawXmax t) false then (t, TM_BeingModified)
    else if TransactionIdDidCommit E xmax then (t, updated_or_deleted self t)
    else if negb (MultiXactIdIsRunning (HeapTupleHeaderGetRawXmax t) false)
    then (SetHintBits t HEAP_XMAX_INVALID InvalidTransactionId, TM_Ok)
    else (t, TM_BeingModified).

Definition update_xmax (self : Z * Z) (curcid : Z) (t : HeapTupleHeaderData) : HeapTupleHeaderData * TM_Result :=
  if has (t_infomask t) HEAP_XMAX_INVALID then (t, TM_Ok)
  else if has (t_infomask t) HEAP_XMAX_COMMITTED then
    if HEAP_XMAX_IS_LOCKED_ONLY (t_infomask t) then (t, TM_Ok) else (t, updated_or_deleted self t)
  else if has (t_infomask t) HEAP_XMAX_IS_MULTI then update_multi self curcid t
  else if TransactionIdIsCurrentTransactionId E (HeapTupleHeaderGetRawXmax t) then
    if HEAP_XMAX_IS_LOCKED_ONLY (t_infomask t) then (t, TM_BeingModified) else (t, modified_since curcid t)
  else if TransactionIdIsInProgress E (HeapTupleHeaderGetRawXmax t) then (t, TM_BeingModified)
  else if negb (TransactionIdDidCommit E (HeapTupleHeaderGetRawXmax t))
  then (SetHintBits t HEAP_XMAX_INVALID InvalidTransactionId, TM_Ok)
  else if HEAP_XMAX_IS_LOCKED_ONLY (t_infomask t)
  then (SetHintBits t HEAP_XMAX_INVALID InvalidTransactionId, TM_Ok)
  else
    let t := SetHintBits t HEAP_XMAX_COMMITTED (HeapTupleHeaderGetRawXmax t) in
    (t, updated_or_deleted self t).

Definition HeapTupleSatisfiesUpdate (self : Z * Z) (curcid : Z) (t : HeapTupleHeaderData) : HeapTupleHeaderData * TM_Result :=
  match update_xmin curcid t with (t, Some r) => (t, r) | (t, None) => update_xmax self curcid t end.

(** ** SNAPSHOT_DIRTY

    The snapshot is also an output. *)
Definition dirty_xmin (t : HeapTupleHeaderData) (s : SnapshotData) : HeapTupleHeaderData * SnapshotData * option bool :=
  if negb (HeapTupleHeaderXminCommitted t) then
    if HeapTupleHeaderXminInvalid t then (t, s, Some false)
    else if has (t_infomask t) HEAP_MOVED_OFF then let '(t, r) := moved_off (TransactionIdIsInProgress E) false t in (t, s, r)
    else if has (t_infomask t) HEAP_MOVED_IN then let '(t, r) := moved_in (TransactionIdIsInProgress E) false t in (t, s, r)
    else if TransactionIdIsCurrentTransactionId E (HeapTupleHeaderGetRawXmin t) then
      let '(t, r) := self_own t in (t, s, Some r)
    else if TransactionIdIsInProgress E (HeapTupleHeaderGetRawXmin t) then
      let token := if HeapTupleHeaderIsSpeculative t then HeapTupleHeaderGetSpeculativeToken t else speculativeToken s in
      (t, set_dirty s (HeapTupleHeaderGetRawXmin t) (snap_xmax s) token, Some true)
    else let '(t, r) := inserter_done false t in (t, s, r)
  else (t, s, None).

Definition dirty_xmax (t : HeapTupleHeaderData) (s : SnapshotData) : HeapTupleHeaderData * SnapshotData * bool :=
  let busy xmax := set_dirty s (snap_xmin s) xmax (speculativeToken s) in
  if has (t_infomask t) HEAP_XMAX_INVALID then (t, s, true)
  else if has (t_infomask t) HEAP_XMAX_COMMITTED then
    if HEAP_XMAX_IS_LOCKED_ONLY (t_infomask t) then (t, s, true) else (t, s, false)
  else if has (t_infomask t) HEAP_XMAX_IS_MULTI then
    if HEAP_XMAX_IS_LOCKED_ONLY (t_infomask t) then (t, s, true)
    else
      let xmax := HeapTupleGetUpdateXid t in
      if TransactionIdIsCurrentTransactionId E xmax then (t, s, false)
      else if TransactionIdIsInProgress E xmax then (t, busy xmax, true)
      else if TransactionIdDidCommit E xmax then (t, s, false)
      else (t, s, true)
  else if TransactionIdIsCurrentTransactionId E (HeapTupleHeaderGetRawXmax t) then
    if HEAP_XMAX_IS_LOCKED_ONLY (t_infomask t) then (t, s, true) else (t, s, false)
  else if TransactionIdIsInProgress E (HeapTupleHeaderGetRawXmax t) then
    if negb (HEAP_XMAX_IS_LOCKED_ONLY (t_infomask t)) then (t, busy (HeapTupleHeaderGetRawXmax t), true) else (t, s, true)
  else if negb (TransactionIdDidCommit E (HeapTupleHeaderGetRawXmax t))
  then (SetHintBits t HEAP_XMAX_INVALID InvalidTransactionId, s, true)
  else if HEAP_XMAX_IS_LOCKED_ONLY (t_infomask t)
  then (SetHintBits t HEAP_XMAX_INVALID InvalidTransactionId, s, true)
  else (SetHintBits t HEAP_XMAX_COMMITTED (HeapTupleHeaderGetRawXmax t), s, false).

Definition HeapTupleSatisfiesDirty (t : HeapTupleHeaderData) (s : SnapshotData) : HeapTupleHeaderData * SnapshotData * bool :=
  let s := set_dirty s InvalidTransactionId InvalidTransactionId 0 in
  match dirty_xmin t s with (t, s, Some r) => (t, s, r) | (t, s, None) => dirty_xmax t s end.

(** ** SNAPSHOT_MVCC *)
Definition mvcc_own (s : SnapshotData) (t : HeapTupleHeaderData) : HeapTupleHeaderData * bool :=
  if curcid s <=? HeapTupleHeaderGetCmin t then (t, false)
  else if has (t_infomask t) HEAP_XMAX_INVALID then (t, true)
  else if HEAP_XMAX_IS_LOCKED_ONLY (t_infomask t) then (t, true)
  else if has (t_infomask t) HEAP_XMAX_IS_MULTI then
    let xmax := HeapTupleGetUpdateXid t in
    if negb (TransactionIdIsCurrentTransactionId E xmax) then (t, true)
    else if curcid s <=? HeapTupleHeaderGetCmax t then (t, true) else (t, false)
  else if negb (TransactionIdIsCurrentTransactionId E (HeapTupleHeaderGetRawXmax t))
  then (SetHintBits t HEAP_XMAX_INVALID InvalidTransactionId, true)
  else if curcid s <=? HeapTupleHeaderGetCmax t then (t, true) else (t, false).

Definition mvcc_xmin (s : SnapshotData) (t : HeapTupleHeaderData) : HeapTupleHeaderData * option bool :=
  let busy xid := XidInMVCCSnapshot xid s in
  if negb (HeapTupleHeaderXminCommitted t) then
    if HeapTupleHeaderXminInvalid t then (t, Some false)
    else if has (t_infomask t) HEAP_MOVED_OFF then moved_off busy false t
    else if has (t_infomask t) HEAP_MOVED_IN then moved_in busy false t
    else if TransactionIdIsCurrentTransactionId E (HeapTupleHeaderGetRawXmin t) then
      let '(t, r) := mvcc_own s t in (t, Some r)
    else if busy (HeapTupleHeaderGetRawXmin t) then (t, Some false)
    else inserter_done false t
  else if negb (HeapTupleHeaderXminFrozen t) && busy (HeapTupleHeaderGetRawXmin t) then (t, Some false)
  else (t, None).

Definition mvcc_xmax (s : SnapshotData) (t : HeapTupleHeaderData) : HeapTupleHeaderData * bool :=
  let busy xid := XidInMVCCSnapshot xid s in
  if has (t_infomask t) HEAP_XMAX_INVALID then (t, true)
  else if HEAP_XMAX_IS_LOCKED_ONLY (t_infomask t) then (t, true)
  else if has (t_infomask t) HEAP_XMAX_IS_MULTI then
    let xmax := HeapTupleGetUpdateXid t in
    if TransactionIdIsCurrentTransactionId E xmax then
      if curcid s <=? HeapTupleHeaderGetCmax t then (t, true) else (t, false)
    else if busy xmax then (t, true)
    else if TransactionIdDidCommit E xmax then (t, false)
    else (t, true)
  else if negb (has (t_infomask t) HEAP_XMAX_COMMITTED) then
    if TransactionIdIsCurrentTransactionId E (HeapTupleHeaderGetRawXmax t) then
      if curcid s <=? HeapTupleHeaderGetCmax t then (t, true) else (t, false)
    else if busy (HeapTupleHeaderGetRawXmax t) then (t, true)
    else if negb (TransactionIdDidCommit E (HeapTupleHeaderGetRawXmax t))
    then (SetHintBits t HEAP_XMAX_INVALID InvalidTransactionId, true)
    else (SetHintBits t HEAP_XMAX_COMMITTED (HeapTupleHeaderGetRawXmax t), false)
  else if busy (HeapTupleHeaderGetRawXmax t) then (t, true)
  else (t, false).

Definition HeapTupleSatisfiesMVCC (t : HeapTupleHeaderData) (s : SnapshotData) : HeapTupleHeaderData * bool :=
  match mvcc_xmin s t with (t, Some r) => (t, r) | (t, None) => mvcc_xmax s t end.

(** ** The status of a tuple for VACUUM *)
Definition HeapTupleHeaderIsOnlyLocked (t : HeapTupleHeaderData) : bool :=
  if has (t_infomask t) HEAP_XMAX_INVALID then true
  else if has (t_infomask t) HEAP_XMAX_LOCK_ONLY then true
  else if negb (TransactionIdIsValid (HeapTupleHeaderGetRawXmax t)) then true
  else if negb (has (t_infomask t) HEAP_XMAX_IS_MULTI) then false
  else
    let xmax := HeapTupleGetUpdateXid t in
    if TransactionIdIsCurrentTransactionId E xmax then false
    else if TransactionIdIsInProgress E xmax then false
    else if TransactionIdDidCommit E xmax then false
    else true.

Definition vacuum_own (t : HeapTupleHeaderData) : HTSV_Result :=
  if has (t_infomask t) HEAP_XMAX_INVALID then HEAPTUPLE_INSERT_IN_PROGRESS
  else if HEAP_XMAX_IS_LOCKED_ONLY (t_infomask t) || HeapTupleHeaderIsOnlyLocked t then HEAPTUPLE_INSERT_IN_PROGRESS
  else if TransactionIdIsCurrentTransactionId E (HeapTupleHeaderGetUpdateXid t) then HEAPTUPLE_DELETE_IN_PROGRESS
  else HEAPTUPLE_INSERT_IN_PROGRESS.

Definition vacuum_xmin (t : HeapTupleHeaderData) : HeapTupleHeaderData * option HTSV_Result :=
  if negb (HeapTupleHeaderXminCommitted t) then
    if HeapTupleHeaderXminInvalid t then (t, Some HEAPTUPLE_DEAD)
    else if has (t_infomask t) HEAP_MOVED_OFF then
      let xvac := HeapTupleHeaderGetXvac t in
      if TransactionIdIsCurrentTransactionId E xvac then (t, Some HEAPTUPLE_DELETE_IN_PROGRESS)
      else if TransactionIdIsInProgress E xvac then (t, Some HEAPTUPLE_DELETE_IN_PROGRESS)
      else if TransactionIdDidCommit E xvac then (SetHintBits t HEAP_XMIN_INVALID InvalidTransactionId, Some HEAPTUPLE_DEAD)
      else (SetHintBits t HEAP_XMIN_COMMITTED InvalidTransactionId, None)
    else if has (t_infomask t) HEAP_MOVED_IN then
      let xvac := HeapTupleHeaderGetXvac t in
      if TransactionIdIsCurrentTransactionId E xvac then (t, Some HEAPTUPLE_INSERT_IN_PROGRESS)
      else if TransactionIdIsInProgress E xvac then (t, Some HEAPTUPLE_INSERT_IN_PROGRESS)
      else if TransactionIdDidCommit E xvac then (SetHintBits t HEAP_XMIN_COMMITTED InvalidTransactionId, None)
      else (SetHintBits t HEAP_XMIN_INVALID InvalidTransactionId, Some HEAPTUPLE_DEAD)
    else if TransactionIdIsCurrentTransactionId E (HeapTupleHeaderGetRawXmin t) then (t, Some (vacuum_own t))
    else if TransactionIdIsInProgress E (HeapTupleHeaderGetRawXmin t) then (t, Some HEAPTUPLE_INSERT_IN_PROGRESS)
    else inserter_done HEAPTUPLE_DEAD t
  else (t, None).

(** The status and [*dead_after]. *)
Definition vacuum_locked (t : HeapTupleHeaderData) : HeapTupleHeaderData :=
  if negb (has (t_infomask t) HEAP_XMAX_COMMITTED) then
    if has (t_infomask t) HEAP_XMAX_IS_MULTI then
      if negb (HEAP_LOCKED_UPGRADED (t_infomask t)) && MultiXactIdIsRunning (HeapTupleHeaderGetRawXmax t) true then t
      else SetHintBits t HEAP_XMAX_INVALID InvalidTransactionId
    else if TransactionIdIsInProgress E (HeapTupleHeaderGetRawXmax t) then t
    else SetHintBits t HEAP_XMAX_INVALID InvalidTransactionId
  else t.

Definition vacuum_xmax (t : HeapTupleHeaderData) : HeapTupleHeaderData * HTSV_Result * Z :=
  if has (t_infomask t) HEAP_XMAX_INVALID then (t, HEAPTUPLE_LIVE, InvalidTransactionId)
  else if HEAP_XMAX_IS_LOCKED_ONLY (t_infomask t) then (vacuum_locked t, HEAPTUPLE_LIVE, InvalidTransactionId)
  else if has (t_infomask t) HEAP_XMAX_IS_MULTI then
    let xmax := HeapTupleGetUpdateXid t in
    if TransactionIdIsInProgress E xmax then (t, HEAPTUPLE_DELETE_IN_PROGRESS, InvalidTransactionId)
    else if TransactionIdDidCommit E xmax then (t, HEAPTUPLE_RECENTLY_DEAD, xmax)
    else if negb (MultiXactIdIsRunning (HeapTupleHeaderGetRawXmax t) false)
    then (SetHintBits t HEAP_XMAX_INVALID InvalidTransactionId, HEAPTUPLE_LIVE, InvalidTransactionId)
    else (t, HEAPTUPLE_LIVE, InvalidTransactionId)
  else if negb (has (t_infomask t) HEAP_XMAX_COMMITTED) then
    if TransactionIdIsInProgress E (HeapTupleHeaderGetRawXmax t) then (t, HEAPTUPLE_DELETE_IN_PROGRESS, InvalidTransactionId)
    else if TransactionIdDidCommit E (HeapTupleHeaderGetRawXmax t)
    then (SetHintBits t HEAP_XMAX_COMMITTED (HeapTupleHeaderGetRawXmax t), HEAPTUPLE_RECENTLY_DEAD, HeapTupleHeaderGetRawXmax t)
    else (SetHintBits t HEAP_XMAX_INVALID InvalidTransactionId, HEAPTUPLE_LIVE, InvalidTransactionId)
  else (t, HEAPTUPLE_RECENTLY_DEAD, HeapTupleHeaderGetRawXmax t).

Definition HeapTupleSatisfiesVacuumHorizon (t : HeapTupleHeaderData) : HeapTupleHeaderData * HTSV_Result * Z :=
  match vacuum_xmin t with (t, Some r) => (t, r, InvalidTransactionId) | (t, None) => vacuum_xmax t end.

Definition HeapTupleSatisfiesVacuum (t : HeapTupleHeaderData) (OldestXmin : Z) : HeapTupleHeaderData * HTSV_Result :=
  match HeapTupleSatisfiesVacuumHorizon t with
  | (t, HEAPTUPLE_RECENTLY_DEAD, dead_after) =>
    (t, if TransactionIdPrecedes dead_after OldestXmin then HEAPTUPLE_DEAD else HEAPTUPLE_RECENTLY_DEAD)
  | (t, r, _) => (t, r)
  end.

Definition HeapTupleSatisfiesNonVacuumable (t : HeapTupleHeaderData) (s : SnapshotData) : HeapTupleHeaderData * bool :=
  match HeapTupleSatisfiesVacuumHorizon t with
  | (t, HEAPTUPLE_RECENTLY_DEAD, dead_after) => (t, negb (GlobalVisTestIsRemovableXid s dead_after))
  | (t, r, _) => (t, negb (bool_decide (r = HEAPTUPLE_DEAD)))
  end.

Definition HeapTupleIsSurelyDead (vistest : Z -> bool) (t : HeapTupleHeaderData) : bool :=
  if negb (HeapTupleHeaderXminCommitted t) then HeapTupleHeaderXminInvalid t
  else if has (t_infomask t) HEAP_XMAX_INVALID then false
  else if HEAP_XMAX_IS_LOCKED_ONLY (t_infomask t) then false
  else if has (t_infomask t) HEAP_XMAX_IS_MULTI then false
  else if negb (has (t_infomask t) HEAP_XMAX_COMMITTED) then false
  else vistest (HeapTupleHeaderGetRawXmax t).

(** ** SNAPSHOT_HISTORIC_MVCC

    The snapshot lists the committed transactions, and in [subxip] the ids of the
    transaction being decoded. *)
Definition historic_xmin (self : Z * Z) (t : HeapTupleHeaderData) (s : SnapshotData) : bool :=
  let xmin := HeapTupleHeaderGetXmin t in
  if HeapTupleHeaderXminInvalid t then false
  else if TransactionIdInArray xmin (subxip s) then
    match ResolveCminCmaxDuringDecoding E self with
    | None => false
    | Some (cmin, _) => negb (curcid s <=? cmin)
    end
  else if TransactionIdPrecedes xmin (snap_xmin s) then
    HeapTupleHeaderXminCommitted t || TransactionIdDidCommit E xmin
  else if TransactionIdFollowsOrEquals xmin (snap_xmax s) then false
  else TransactionIdInArray xmin (xip s).

Definition InvalidCommandId : Z := 4294967295.

Definition historic_xmax (self : Z * Z) (t : HeapTupleHeaderData) (s : SnapshotData) : bool :=
  if has (t_infomask t) HEAP_XMAX_INVALID then true
  else if HEAP_XMAX_IS_LOCKED_ONLY (t_infomask t) then true
  else
    let xmax := if has (t_infomask t) HEAP_XMAX_IS_MULTI then HeapTupleGetUpdateXid t else HeapTupleHeaderGetRawXmax t in
    if TransactionIdInArray xmax (subxip s) then
      match ResolveCminCmaxDuringDecoding E self with
      | None => true
      | Some (_, cmax) => if cmax =? InvalidCommandId then true else curcid s <=? cmax
      end
    else if TransactionIdPrecedes xmax (snap_xmin s) then
      if has (t_infomask t) HEAP_XMAX_COMMITTED then false else negb (TransactionIdDidCommit E xmax)
    else if TransactionIdFollowsOrEquals xmax (snap_xmax s) then true
    else if TransactionIdInArray xmax (xip s) then false
    else true.

Definition HeapTupleSatisfiesHistoricMVCC (self : Z * Z) (t : HeapTupleHeaderData) (s : SnapshotData) : bool :=
  historic_xmin self t s && historic_xmax self t s.

(** ** The dispatch on the type of snapshot *)
Definition HeapTupleSatisfiesVisibility (self : Z * Z) (t : HeapTupleHeaderData) (s : SnapshotData)
  : HeapTupleHeaderData * SnapshotData * bool :=
  match snapshot_type s with
  | SNAPSHOT_MVCC => let '(t, r) := HeapTupleSatisfiesMVCC t s in (t, s, r)
  | SNAPSHOT_SELF => let '(t, r) := HeapTupleSatisfiesSelf t in (t, s, r)
  | SNAPSHOT_ANY => let '(t, r) := HeapTupleSatisfiesAny t in (t, s, r)
  | SNAPSHOT_TOAST => let '(t, r) := HeapTupleSatisfiesToast t in (t, s, r)
  | SNAPSHOT_DIRTY => HeapTupleSatisfiesDirty t s
  | SNAPSHOT_HISTORIC_MVCC => (t, s, HeapTupleSatisfiesHistoricMVCC self t s)
  | SNAPSHOT_NON_VACUUMABLE => let '(t, r) := HeapTupleSatisfiesNonVacuumable t s in (t, s, r)
  end.
End Visibility.
