(* ===== verification/HeapVisSpec.v ===== *)
(** What the visibility functions decide.

    The fate of the inserting and of the deleting transaction, as the backend can
    know it, determines every answer; the hint bits are a cache of it.  The
    invariant [hints_ok] says that the cache is right, every function keeps it, and
    its answer is the one computed from the fates alone. *)
From S2P Require Import Prelude Transam HeapTup HeapVis.

(** ** The vectorised search finds the members *)
Lemma round_found key l : length l = 16%nat ->
  let result k := vector32_eq (replicate 4 key) (vector32_load l (4 * k)) in
  vector32_is_highbit_set (vector32_or (vector32_or (result 0%nat) (result 1%nat)) (vector32_or (result 2%nat) (result 3%nat))) = existsb (Z.eqb key) l.
Proof.
  intros Hl. do 16 (destruct l as [|? l]; [done|]). destruct l; [|done]. cbn -[Z.testbit Z.lor Z.eqb].
  assert (Hbit : forall a b : bool, Z.lor (if a then 4294967295 else 0) (if b then 4294967295 else 0) = if a || b then 4294967295 else 0) by by intros [] [].
  assert (Htop : forall (a : bool) n, n = 7 \/ n = 15 \/ n = 23 \/ n = 31 -> Z.testbit (if a then 4294967295 else 0) n = a)
    by by intros [] ? [->|[->|[->| ->]]].
  rewrite !Hbit, !Htop by auto. apply eq_iff_eq_true. rewrite !orb_true_iff. tauto.
Qed.

Lemma lfind_vectors_ok key base : forall rounds i, (i + 16 * rounds <= length base)%nat ->
  lfind_vectors rounds key base i = existsb (Z.eqb key) (take (16 * rounds) (drop i base)).
Proof.
  induction rounds as [|rounds IH]; intros i Hi; [done|]. cbn [lfind_vectors]. replace (16 * S rounds)%nat with (16 + 16 * rounds)%nat by lia.
  rewrite <- take_take_drop, existsb_app, drop_drop, IH by lia. assert (Hl : length (take 16 (drop i base)) = 16%nat) by (rewrite length_take, length_drop; lia).
  rewrite <- (round_found key _ Hl). 
  assert (Hv : forall k, (k < 4)%nat -> vector32_load (take 16 (drop i base)) (4 * k) = vector32_load base (i + 4 * k)).
  { intros k Hk. unfold vector32_load. rewrite skipn_firstn_comm, take_take, drop_drop. f_equal. lia. }
  rewrite !Hv by lia. case_match; done.
Qed.

Lemma pg_lfind32_ok key base : pg_lfind32 key base = existsb (Z.eqb key) base.
Proof.
  unfold pg_lfind32. set (r := (length base / 16)%nat). assert (Hr : (16 * r <= length base)%nat) by (unfold r; pose proof (Nat.Div0.mul_div_le (length base) 16); lia).
  rewrite lfind_vectors_ok by lia. rewrite drop_0. transitivity (existsb (Z.eqb key) (take (16 * r) base) || existsb (Z.eqb key) (drop (16 * r) base)); [by case_match|].
  by rewrite <- existsb_app, take_drop.
Qed.

(** ** Fates of transactions *)
Inductive xact_fate := Mine | Running | Committed | Aborted.

Definition fate (E : xact_state) (x : Z) : xact_fate :=
  if TransactionIdIsCurrentTransactionId E x then Mine
  else if TransactionIdIsInProgress E x then Running
  else if TransactionIdDidCommit E x then Committed else Aborted.

Definition inserted_as (E : xact_state) (t : HeapTupleHeaderData) : xact_fate :=
  if HeapTupleHeaderXminFrozen t then Committed else fate E (t_xmin t).

(** The transaction that deleted or replaced the tuple, if it was not only locked. *)
Definition updater (E : xact_state) (t : HeapTupleHeaderData) : option Z :=
  if HEAP_XMAX_IS_LOCKED_ONLY (t_infomask t) then None
  else Some (if has (t_infomask t) HEAP_XMAX_IS_MULTI then HeapTupleGetUpdateXid E t else t_xmax t).
Definition deleted_as (E : xact_state) (t : HeapTupleHeaderData) : option xact_fate := fate E <$> updater E t.

(** Does a running transaction hold or modify the tuple? *)
Definition xmax_running (E : xact_state) (t : HeapTupleHeaderData) : bool :=
  if has (t_infomask t) HEAP_XMAX_IS_MULTI
  then MultiXactIdIsRunning E (t_xmax t) (HEAP_XMAX_IS_LOCKED_ONLY (t_infomask t))
  else TransactionIdIsInProgress E (t_xmax t).

(** ** What is known of the environment and of a tuple *)
Record env_ok (E : xact_state) : Prop := {
  env_current : forall x, TransactionIdIsCurrentTransactionId E x = true -> TransactionIdIsInProgress E x = true;
  env_invalid : fate E InvalidTransactionId = Aborted;
  env_no_multi : forall b, GetMultiXactIdMembers E InvalidTransactionId b = [] }.

Record hints_ok (E : xact_state) (t : HeapTupleHeaderData) : Prop := {
  ho_xmin_committed : has (t_infomask t) HEAP_XMIN_COMMITTED = true -> inserted_as E t = Committed;
  ho_xmin_invalid : HeapTupleHeaderXminInvalid t = true -> inserted_as E t = Aborted;
  ho_xmax_committed : has (t_infomask t) HEAP_XMAX_COMMITTED = true ->
    xmax_running E t = false /\
    (updater E t <> None -> deleted_as E t = Some Committed /\ has (t_infomask t) HEAP_XMAX_IS_MULTI = false);
  ho_xmax_invalid : has (t_infomask t) HEAP_XMAX_INVALID = true ->
    xmax_running E t = false /\ (updater E t <> None -> deleted_as E t = Some Aborted);
  (** only the inserting transaction can have touched its own tuple *)
  ho_own : inserted_as E t = Mine -> updater E t <> None -> deleted_as E t = Some Mine \/ deleted_as E t = Some Aborted;
  (** the tuple was not written by a release before 9.3 *)
  ho_moved : has (t_infomask t) HEAP_MOVED = false;
  ho_upgraded : HEAP_LOCKED_UPGRADED (t_infomask t) = false }.

(** The tuple without its hints: nothing but these may change. *)
Definition HINT_BITS : Z := 3840.
Definition core (t : HeapTupleHeaderData) : HeapTupleHeaderData * bool :=
  (set_infomask t (Z.ldiff (t_infomask t) HINT_BITS), HeapTupleHeaderXminFrozen t).
Definition hinted (E : xact_state) (t t' : HeapTupleHeaderData) : Prop := core t' = core t /\ hints_ok E t'.

(** ** What depends on the core only *)
Lemma has_core_flag t f : Z.land f HINT_BITS = 0 -> has (t_infomask t) f = has (Z.ldiff (t_infomask t) HINT_BITS) f.
Proof.
  intros Hf. unfold has. rewrite (Z.land_comm (Z.ldiff _ _)). do 2 f_equal. apply Z.bits_inj'. intros n Hn.
  rewrite !Z.land_spec, Z.ldiff_spec. assert (H : Z.testbit (Z.land f HINT_BITS) n = false) by by rewrite Hf, Z.bits_0.
  rewrite Z.land_spec in H. destruct (Z.testbit f n), (Z.testbit (t_infomask t) n), (Z.testbit HINT_BITS n); simpl in *; congruence.
Qed.

Lemma core_fields t t' : core t' = core t ->
  t_xmin t' = t_xmin t /\ t_xmax t' = t_xmax t /\ t_field3 t' = t_field3 t /\ ctid_block t' = ctid_block t /\
  ctid_posid t' = ctid_posid t /\ t_infomask2 t' = t_infomask2 t /\ HeapTupleHeaderXminFrozen t' = HeapTupleHeaderXminFrozen t /\
  forall f, Z.land f HINT_BITS = 0 -> has (t_infomask t') f = has (t_infomask t) f.
Proof.
  intros Hc. unfold core, set_infomask in Hc. injection Hc as H1 H2 H3 H4 H5 H6 H7 H8. split_and!; try done.
  intros f Hf. rewrite (has_core_flag t'), (has_core_flag t) by done. by rewrite H7.
Qed.

Lemma core_view E t t' : core t' = core t ->
  inserted_as E t' = inserted_as E t /\ updater E t' = updater E t /\ deleted_as E t' = deleted_as E t /\
  xmax_running E t' = xmax_running E t /\ HEAP_XMAX_IS_LOCKED_ONLY (t_infomask t') = HEAP_XMAX_IS_LOCKED_ONLY (t_infomask t) /\
  HEAP_LOCKED_UPGRADED (t_infomask t') = HEAP_LOCKED_UPGRADED (t_infomask t).
Proof.
  intros Hc. destruct (core_fields t t' Hc) as (H1 & H2 & _ & _ & _ & _ & Hf & Hh).
  assert (Hl : HEAP_XMAX_IS_LOCKED_ONLY (t_infomask t') = HEAP_XMAX_IS_LOCKED_ONLY (t_infomask t)).
  { rewrite !locked_only_bits. by rewrite !Hh by done. }
  assert (Hu : updater E t' = updater E t).
  { unfold updater, HeapTupleGetUpdateXid, HeapTupleHeaderGetRawXmax. rewrite Hl, H2. by rewrite Hh by done. }
  split_and!; try done.
  - unfold inserted_as. by rewrite Hf, H1.
  - unfold deleted_as. by rewrite Hu.
  - unfold xmax_running. rewrite Hl, H2. by rewrite Hh by done.
  - rewrite !upgraded_bits. by rewrite !Hh by done.
Qed.

(** ** The specifications *)
(** SELF: what committed or my own transaction did is in effect. *)
Definition effective (d : option xact_fate) : bool := match d with Some Mine | Some Committed => true | _ => false end.
Definition self_spec (E : xact_state) (t : HeapTupleHeaderData) : bool :=
  effective (Some (inserted_as E t)) && negb (effective (deleted_as E t)).

(** DIRTY: running insertions are in effect and running deletions are reported. *)
Definition dirty_spec (E : xact_state) (t : HeapTupleHeaderData) : bool :=
  match inserted_as E t with Running => true | _ => self_spec E t end.
Definition dirty_xmin_spec (E : xact_state) (t : HeapTupleHeaderData) : Z :=
  match inserted_as E t with Running => t_xmin t | _ => InvalidTransactionId end.
Definition dirty_xmax_spec (E : xact_state) (t : HeapTupleHeaderData) : Z :=
  match inserted_as E t, updater E t with
  | Committed, Some x => match fate E x with Running => x | _ => InvalidTransactionId end
  | _, _ => InvalidTransactionId
  end.

(** MVCC: a snapshot sees what was committed when it was taken, and the earlier
    commands of its own transaction. *)
Definition sees (E : xact_state) (s : SnapshotData) (x cid : Z) : bool :=
  match fate E x with
  | Mine => cid <? curcid s
  | Committed => negb (XidInMVCCSnapshot E x s)
  | _ => false
  end.
Definition mvcc_spec (E : xact_state) (s : SnapshotData) (t : HeapTupleHeaderData) : bool :=
  (HeapTupleHeaderXminFrozen t || sees E s (t_xmin t) (HeapTupleHeaderGetCmin E t)) &&
  negb (match updater E t with Some x => sees E s x (HeapTupleHeaderGetCmax E t) | None => false end).

(** The status for VACUUM, with the deleter whose age decides. *)
Definition vacuum_spec (E : xact_state) (t : HeapTupleHeaderData) : HTSV_Result * Z :=
  match inserted_as E t with
  | Aborted => (HEAPTUPLE_DEAD, InvalidTransactionId)
  | Running => (HEAPTUPLE_INSERT_IN_PROGRESS, InvalidTransactionId)
  | Mine => (match deleted_as E t with Some Mine => HEAPTUPLE_DELETE_IN_PROGRESS | _ => HEAPTUPLE_INSERT_IN_PROGRESS end, InvalidTransactionId)
  | Committed =>
    match updater E t with
    | None => (HEAPTUPLE_LIVE, InvalidTransactionId)
    | Some x =>
      match fate E x with
      | Mine | Running => (HEAPTUPLE_DELETE_IN_PROGRESS, InvalidTransactionId)
      | Committed => (HEAPTUPLE_RECENTLY_DEAD, x)
      | Aborted => (HEAPTUPLE_LIVE, InvalidTransactionId)
      end
    end
  end.

(** UPDATE: may this command modify the tuple? *)
Definition update_spec (E : xact_state) (self : Z * Z) (curcid : Z) (t : HeapTupleHeaderData) : TM_Result :=
  let held := if xmax_running E t then TM_BeingModified else TM_Ok in
  match inserted_as E t with
  | Aborted | Running => TM_Invisible
  | Mine =>
    if curcid <=? HeapTupleHeaderGetCmin E t then TM_Invisible
    else match deleted_as E t with Some Mine => modified_since E curcid t | _ => held end
  | Committed =>
    match deleted_as E t with
    | Some Mine => modified_since E curcid t
    | Some Committed => if xmax_running E t then TM_BeingModified else updated_or_deleted self t
    | _ => held
    end
  end.

(** ** Setting a hint *)
Section Hints.
Context (E : xact_state) (buffer : BufferState) (HE : env_ok E).

Lemma hint_core t f x : Z.ldiff f HINT_BITS = 0 ->
  HeapTupleHeaderXminFrozen (set_infomask t (Z.lor (t_infomask t) f)) = HeapTupleHeaderXminFrozen t ->
  core (SetHintBits E buffer t f x) = core t.
Proof.
  intros Hf Hz. unfold SetHintBits. case_match; [done|]. unfold core. rewrite Hz. f_equal. unfold set_infomask at 1. cbn [t_infomask set_infomask].
  unfold set_infomask. f_equal. apply Z.bits_inj'. intros n Hn. rewrite !Z.ldiff_spec, Z.lor_spec.
  assert (H1 : Z.testbit (Z.ldiff f HINT_BITS) n = false) by by rewrite Hf, Z.bits_0. rewrite Z.ldiff_spec in H1.
  destruct (Z.testbit (t_infomask t) n), (Z.testbit f n), (Z.testbit HINT_BITS n); simpl in *; congruence.
Qed.

Lemma set_bits t f x g : has (t_infomask (SetHintBits E buffer t f x)) g = true -> has (t_infomask t) g = true \/ has f g = true.
Proof. unfold SetHintBits. case_match; [by left|]. cbn [t_infomask set_infomask]. rewrite has_set. apply orb_true_iff. Qed.

Lemma set_other t f x g : has f g = false -> has (t_infomask (SetHintBits E buffer t f x)) g = has (t_infomask t) g.
Proof. intros Hf. unfold SetHintBits. case_match; [done|]. cbn [t_infomask set_infomask]. by rewrite has_set, Hf, orb_false_r. Qed.

(** [hints_ok] of a tuple with the same core is a matter of its four hints. *)
Lemma hints_by_core t t' : core t' = core t -> hints_ok E t ->
  (has (t_infomask t') HEAP_XMIN_COMMITTED = true -> inserted_as E t = Committed) ->
  (HeapTupleHeaderXminInvalid t' = true -> inserted_as E t = Aborted) ->
  (has (t_infomask t') HEAP_XMAX_COMMITTED = true -> xmax_running E t = false /\
    (updater E t <> None -> deleted_as E t = Some Committed /\ has (t_infomask t) HEAP_XMAX_IS_MULTI = false)) ->
  (has (t_infomask t') HEAP_XMAX_INVALID = true -> xmax_running E t = false /\ (updater E t <> None -> deleted_as E t = Some Aborted)) ->
  hinted E t t'.
Proof.
  intros Hc Ht H1 H2 H3 H4. split; [done|]. destruct (core_view E t t' Hc) as (Hi & Hu & Hd & Hr & _ & Hg).
  destruct (core_fields t t' Hc) as (_ & _ & _ & _ & _ & _ & _ & Hh).
  split; rewrite ?Hi, ?Hu, ?Hd, ?Hr, ?Hg; try done.
  - intros Hx. rewrite (Hh HEAP_XMAX_IS_MULTI) by done. auto.
  - apply Ht.
  - rewrite (Hh HEAP_MOVED) by done. apply Ht.
  - apply Ht.
Qed.

Lemma hinted_refl t : hints_ok E t -> hinted E t t.
Proof. by split. Qed.

Lemma hint_xmin_committed t x : hints_ok E t -> inserted_as E t = Committed -> hinted E t (SetHintBits E buffer t HEAP_XMIN_COMMITTED x).
Proof.
  intros Ht Hi. assert (Hnv : HeapTupleHeaderXminInvalid t = false).
  { destruct (HeapTupleHeaderXminInvalid t) eqn:Hv; [|done]. apply (ho_xmin_invalid _ _ Ht) in Hv. congruence. }
  apply hints_by_core; [|done|done| | |].
  - apply hint_core; [done|]. rewrite !xmin_frozen_bits. cbn [t_infomask set_infomask]. rewrite !has_set.
    rewrite xmin_invalid_bits in Hnv. change (has HEAP_XMIN_COMMITTED HEAP_XMIN_INVALID) with false. change (has HEAP_XMIN_COMMITTED HEAP_XMIN_COMMITTED) with true.
    by destruct (has _ HEAP_XMIN_INVALID), (has _ HEAP_XMIN_COMMITTED).
  - rewrite xmin_invalid_bits, set_other by done. rewrite xmin_invalid_bits in Hnv.
    intros [Hinv Hnc]%andb_true_iff. rewrite Hinv in Hnv. cbn in Hnv. apply negb_false_iff in Hnv.
    exfalso. unfold SetHintBits in Hnc. case_match; [by rewrite Hnv in Hnc|]. cbn [t_infomask set_infomask] in Hnc. by rewrite has_set, Hnv in Hnc.
  - intros [H|H]%set_bits; [by apply Ht|done].
  - intros [H|H]%set_bits; [by apply Ht|done].
Qed.

Lemma hint_xmin_invalid t x : hints_ok E t -> inserted_as E t = Aborted -> hinted E t (SetHintBits E buffer t HEAP_XMIN_INVALID x).
Proof.
  intros Ht Hi. assert (Hnc : has (t_infomask t) HEAP_XMIN_COMMITTED = false).
  { destruct (has (t_infomask t) HEAP_XMIN_COMMITTED) eqn:Hv; [|done]. apply (ho_xmin_committed _ _ Ht) in Hv. congruence. }
  apply hints_by_core; [|done| |done| |].
  - apply hint_core; [done|]. rewrite !xmin_frozen_bits. cbn [t_infomask set_infomask]. rewrite !has_set, Hnc.
    change (has HEAP_XMIN_INVALID HEAP_XMIN_COMMITTED) with false. by rewrite !andb_false_r.
  - rewrite set_other by done. by rewrite Hnc.
  - intros [H|H]%set_bits; [by apply Ht|done].
  - intros [H|H]%set_bits; [by apply Ht|done].
Qed.

Lemma xmax_hint_core t f x : f = HEAP_XMAX_COMMITTED \/ f = HEAP_XMAX_INVALID -> core (SetHintBits E buffer t f x) = core t.
Proof.
  intros [-> | ->]; (apply hint_core; [done|]); rewrite !xmin_frozen_bits; cbn [t_infomask set_infomask]; rewrite !has_set;
    by rewrite !orb_false_r.
Qed.

Lemma xmin_invalid_other t f x : has f HEAP_XMIN_INVALID = false -> has f HEAP_XMIN_COMMITTED = false ->
  HeapTupleHeaderXminInvalid (SetHintBits E buffer t f x) = HeapTupleHeaderXminInvalid t.
Proof. intros H1 H2. by rewrite !xmin_invalid_bits, !set_other. Qed.

Lemma hint_xmax_committed t x : hints_ok E t -> deleted_as E t = Some Committed -> has (t_infomask t) HEAP_XMAX_IS_MULTI = false ->
  hinted E t (SetHintBits E buffer t HEAP_XMAX_COMMITTED x).
Proof.
  intros Ht Hd Hm. apply hints_by_core; [apply xmax_hint_core; auto|done| | | |].
  - rewrite set_other by done. apply Ht.
  - rewrite xmin_invalid_other by done. apply Ht.
  - intros _. split; [|done]. unfold xmax_running. rewrite Hm. revert Hd. unfold deleted_as, updater. rewrite Hm.
    case_match; [done|]. cbn. unfold fate. repeat case_match; try done; congruence.
  - intros [H|H]%set_bits; [by apply Ht|done].
Qed.

Lemma hint_xmax_invalid t x : hints_ok E t -> xmax_running E t = false -> (updater E t <> None -> deleted_as E t = Some Aborted) ->
  hinted E t (SetHintBits E buffer t HEAP_XMAX_INVALID x).
Proof.
  intros Ht Hr Hd. apply hints_by_core; [apply xmax_hint_core; auto|done| | | |].
  - rewrite set_other by done. apply Ht.
  - rewrite xmin_invalid_other by done. apply Ht.
  - intros [H|H]%set_bits; [by apply Ht|done].
  - done.
Qed.

Lemma hinted_trans t t1 t2 : hinted E t t1 -> hinted E t1 t2 -> hinted E t t2.
Proof. intros [H1 _] [H2 H3]. split; [congruence|done]. Qed.

(** ** The inserting transaction *)
Lemma not_frozen t : HeapTupleHeaderXminCommitted t = false -> inserted_as E t = fate E (t_xmin t).
Proof. unfold HeapTupleHeaderXminCommitted, inserted_as. intros H. by rewrite xmin_frozen_bits, H, andb_false_r. Qed.

Lemma not_moved t : hints_ok E t -> has (t_infomask t) HEAP_MOVED_OFF = false /\ has (t_infomask t) HEAP_MOVED_IN = false.
Proof. intros Ht. pose proof (ho_moved _ _ Ht) as H. unfold HEAP_MOVED in H. rewrite has_lor in H. by apply orb_false_iff in H. Qed.

Lemma inserter_done_ok {A} (a : A) t : hints_ok E t -> HeapTupleHeaderXminCommitted t = false ->
  TransactionIdIsCurrentTransactionId E (t_xmin t) = false -> TransactionIdIsInProgress E (t_xmin t) = false ->
  let p := inserter_done E buffer a t in
  hinted E t p.1 /\ (inserted_as E t = Committed /\ p.2 = None \/ inserted_as E t = Aborted /\ p.2 = Some a).
Proof.
  intros Ht Hc Hcur Hp. unfold inserter_done, HeapTupleHeaderGetRawXmin. pose proof (not_frozen t Hc) as Hi. unfold fate in Hi.
  rewrite Hcur, Hp in Hi. destruct (TransactionIdDidCommit E (t_xmin t)); cbn [fst snd].
  - split; [by apply hint_xmin_committed|by left].
  - split; [by apply hint_xmin_invalid|by right].
Qed.

(** The check of the inserter that all functions but MVCC share. *)
Definition xmin_shape {A} (aborted running : A) (own : HeapTupleHeaderData * option A) (t : HeapTupleHeaderData) : HeapTupleHeaderData * option A :=
  if negb (HeapTupleHeaderXminCommitted t) then
    if HeapTupleHeaderXminInvalid t then (t, Some aborted)
    else if TransactionIdIsCurrentTransactionId E (t_xmin t) then own
    else if TransactionIdIsInProgress E (t_xmin t) then (t, Some running)
    else inserter_done E buffer aborted t
  else (t, None).

Lemma xmin_shape_ok {A} (aborted running : A) own ownans t : hints_ok E t ->
  (inserted_as E t = Mine -> hinted E t own.1 /\ own.2 = ownans) ->
  let p := xmin_shape aborted running own t in
  hinted E t p.1 /\ p.2 = match inserted_as E t with Aborted => Some aborted | Running => Some running | Mine => ownans | Committed => None end.
Proof.
  intros Ht Hown. unfold xmin_shape. destruct (HeapTupleHeaderXminCommitted t) eqn:Hc; cbn [negb].
  { rewrite (ho_xmin_committed _ _ Ht Hc). split; [by apply hinted_refl|done]. }
  destruct (HeapTupleHeaderXminInvalid t) eqn:Hi.
  { rewrite (ho_xmin_invalid _ _ Ht Hi). split; [by apply hinted_refl|done]. }
  pose proof (not_frozen t Hc) as Hf. unfold fate in Hf. destruct (TransactionIdIsCurrentTransactionId E (t_xmin t)) eqn:Hcur.
  { rewrite Hf. by apply Hown. }
  destruct (TransactionIdIsInProgress E (t_xmin t)) eqn:Hp.
  { rewrite Hf. split; [by apply hinted_refl|done]. }
  destruct (inserter_done_ok aborted t Ht Hc Hcur Hp) as [Hh [[-> ?]|[-> ?]]]; done.
Qed.

(** What the fields say about the deleting transaction when the hints are not set. *)
Lemma single_updater t : has (t_infomask t) HEAP_XMAX_IS_MULTI = false -> HEAP_XMAX_IS_LOCKED_ONLY (t_infomask t) = false ->
  updater E t = Some (t_xmax t).
Proof. intros Hm Hl. unfold updater. by rewrite Hm, Hl. Qed.
Lemma multi_updater t : has (t_infomask t) HEAP_XMAX_IS_MULTI = true -> HEAP_XMAX_IS_LOCKED_ONLY (t_infomask t) = false ->
  updater E t = Some (HeapTupleGetUpdateXid E t).
Proof. intros Hm Hl. unfold updater. by rewrite Hm, Hl. Qed.
Lemma locked_updater t : HEAP_XMAX_IS_LOCKED_ONLY (t_infomask t) = true -> updater E t = None.
Proof. intros Hl. unfold updater. by rewrite Hl. Qed.

Lemma deleted_single t : has (t_infomask t) HEAP_XMAX_IS_MULTI = false -> HEAP_XMAX_IS_LOCKED_ONLY (t_infomask t) = false ->
  deleted_as E t = Some (fate E (t_xmax t)).
Proof. intros Hm Hl. unfold deleted_as. by rewrite single_updater. Qed.
Lemma deleted_multi t : has (t_infomask t) HEAP_XMAX_IS_MULTI = true -> HEAP_XMAX_IS_LOCKED_ONLY (t_infomask t) = false ->
  deleted_as E t = Some (fate E (HeapTupleGetUpdateXid E t)).
Proof. intros Hm Hl. unfold deleted_as. by rewrite multi_updater. Qed.
Lemma deleted_locked t : HEAP_XMAX_IS_LOCKED_ONLY (t_infomask t) = true -> deleted_as E t = None.
Proof. intros Hl. unfold deleted_as. by rewrite locked_updater. Qed.

Lemma running_single t : has (t_infomask t) HEAP_XMAX_IS_MULTI = false -> xmax_running E t = TransactionIdIsInProgress E (t_xmax t).
Proof. unfold xmax_running. intros ->. done. Qed.

(** An updater that is not running holds a single-transaction xmax no longer. *)
Lemma aborted_idle t : has (t_infomask t) HEAP_XMAX_IS_MULTI = false -> fate E (t_xmax t) = Aborted -> xmax_running E t = false.
Proof. intros Hm Hf. rewrite running_single by done. revert Hf. unfold fate. repeat case_match; congruence. Qed.

(** ** SELF *)
Definition xmax_post {A} (t : HeapTupleHeaderData) (answer : A) (p : HeapTupleHeaderData * A) : Prop := hinted E t p.1 /\ p.2 = answer.

(** What a hint on xmax says about the deleter. *)
Lemma invalid_hint t : hints_ok E t -> has (t_infomask t) HEAP_XMAX_INVALID = true ->
  (deleted_as E t = None \/ deleted_as E t = Some Aborted) /\ xmax_running E t = false.
Proof.
  intros Ht H. destruct (ho_xmax_invalid _ _ Ht H) as [Hr Hu]. split; [|done]. unfold deleted_as in *. destruct (updater E t); [right|by left].
  by apply Hu.
Qed.
Lemma committed_hint t : hints_ok E t -> has (t_infomask t) HEAP_XMAX_COMMITTED = true -> HEAP_XMAX_IS_LOCKED_ONLY (t_infomask t) = false ->
  deleted_as E t = Some Committed /\ has (t_infomask t) HEAP_XMAX_IS_MULTI = false /\ xmax_running E t = false.
Proof. intros Ht H Hl. destruct (ho_xmax_committed _ _ Ht H) as [Hr Hu]. unfold updater in Hu. rewrite Hl in Hu. by destruct (Hu ltac:(done)). Qed.
Lemma own_updater t : hints_ok E t -> inserted_as E t = Mine -> HEAP_XMAX_IS_LOCKED_ONLY (t_infomask t) = false ->
  deleted_as E t = Some Mine \/ deleted_as E t = Some Aborted.
Proof. intros Ht Hi Hl. apply (ho_own _ _ Ht Hi). unfold updater. by rewrite Hl. Qed.

(** Marking the xmax of a single aborted deleter. *)
Lemma hint_aborted t : hints_ok E t -> has (t_infomask t) HEAP_XMAX_IS_MULTI = false -> fate E (t_xmax t) = Aborted ->
  hinted E t (SetHintBits E buffer t HEAP_XMAX_INVALID InvalidTransactionId).
Proof.
  intros Ht Hm Hf. apply hint_xmax_invalid; [done|by apply aborted_idle|]. unfold deleted_as, updater. rewrite Hm. case_match; [done|]. intros _. cbn. by rewrite Hf.
Qed.

Lemma fate_mine x : fate E x = Mine -> TransactionIdIsCurrentTransactionId E x = true.
Proof. unfold fate. repeat case_match; done. Qed.
Lemma fate_not_mine x : fate E x <> Mine -> TransactionIdIsCurrentTransactionId E x = false.
Proof. unfold fate. repeat case_match; done. Qed.

Lemma self_own_ok t : hints_ok E t -> inserted_as E t = Mine -> xmax_post t (negb (effective (deleted_as E t))) (self_own E buffer t).
Proof.
  intros Ht Hi. unfold self_own, xmax_post. destruct (has _ HEAP_XMAX_INVALID) eqn:Hxi.
  { destruct (invalid_hint t Ht Hxi) as [[-> | ->] _]; (split; [by apply hinted_refl|done]). }
  destruct (HEAP_XMAX_IS_LOCKED_ONLY _) eqn:Hl.
  { rewrite deleted_locked by done. split; [by apply hinted_refl|done]. }
  destruct (own_updater t Ht Hi Hl) as [Hd|Hd]; rewrite Hd; destruct (has _ HEAP_XMAX_IS_MULTI) eqn:Hm.
  - rewrite deleted_multi in Hd by done. injection Hd as Hd. rewrite (fate_mine _ Hd). split; [by apply hinted_refl|done].
  - rewrite deleted_single in Hd by done. injection Hd as Hd. unfold HeapTupleHeaderGetRawXmax. rewrite (fate_mine _ Hd). split; [by apply hinted_refl|done].
  - rewrite deleted_multi in Hd by done. injection Hd as Hd. rewrite (fate_not_mine _) by congruence. split; [by apply hinted_refl|done].
  - rewrite deleted_single in Hd by done. injection Hd as Hd. unfold HeapTupleHeaderGetRawXmax. rewrite (fate_not_mine _) by congruence. split; [by apply hint_aborted|done].
Qed.

Ltac unmoved Ht := let H1 := fresh in let H2 := fresh in destruct (not_moved _ Ht) as [H1 H2]; rewrite ?H1, ?H2.

Lemma self_xmin_ok t : hints_ok E t -> let p := self_xmin E buffer t in
  hinted E t p.1 /\ p.2 = match inserted_as E t with Committed => None | _ => Some (self_spec E t) end.
Proof.
  intros Ht. set (own := (fst (self_own E buffer t), Some (snd (self_own E buffer t)))).
  replace (self_xmin E buffer t) with (xmin_shape false false own t).
  2: { unfold self_xmin, xmin_shape, own, HeapTupleHeaderGetRawXmin. unmoved Ht. by destruct (self_own E buffer t). }
  destruct (xmin_shape_ok false false own (Some (negb (effective (deleted_as E t)))) t Ht) as [Hh Hp].
  - intros Hi. destruct (self_own_ok t Ht Hi) as [H1 H2]. split; [done|]. unfold own. cbn. by rewrite H2.
  - split; [done|]. rewrite Hp. unfold self_spec. by destruct (inserted_as E t).
Qed.

Lemma fate_cases x : TransactionIdIsCurrentTransactionId E x = true /\ fate E x = Mine \/
  TransactionIdIsCurrentTransactionId E x = false /\ TransactionIdIsInProgress E x = true /\ fate E x = Running \/
  TransactionIdIsCurrentTransactionId E x = false /\ TransactionIdIsInProgress E x = false /\ TransactionIdDidCommit E x = true /\ fate E x = Committed \/
  TransactionIdIsCurrentTransactionId E x = false /\ TransactionIdIsInProgress E x = false /\ TransactionIdDidCommit E x = false /\ fate E x = Aborted.
Proof. unfold fate. destruct (TransactionIdIsCurrentTransactionId E x), (TransactionIdIsInProgress E x), (TransactionIdDidCommit E x); naive_solver. Qed.

(** Marking the xmax of a single locker that is gone. *)
Lemma hint_unlocked t : hints_ok E t -> xmax_running E t = false -> HEAP_XMAX_IS_LOCKED_ONLY (t_infomask t) = true ->
  hinted E t (SetHintBits E buffer t HEAP_XMAX_INVALID InvalidTransactionId).
Proof. intros Ht Hr Hl. apply hint_xmax_invalid; [done|done|]. by rewrite locked_updater. Qed.

(** Case split on the fate of [x], with the answers of the environment. *)
Ltac fate_split x := destruct (fate_cases x) as [[? Hfate]|[(? & ? & Hfate)|[(? & ? & ? & Hfate)|(? & ? & ? & Hfate)]]].
Ltac env_rewrite := repeat match goal with H : _ E _ = _ |- _ => rewrite !H end.

Lemma self_xmax_ok t : hints_ok E t -> xmax_post t (negb (effective (deleted_as E t))) (self_xmax E buffer t).
Proof.
  intros Ht. unfold self_xmax, xmax_post, HeapTupleHeaderGetRawXmax. destruct (has _ HEAP_XMAX_INVALID) eqn:Hxi.
  { destruct (invalid_hint t Ht Hxi) as [[-> | ->] _]; (split; [by apply hinted_refl|done]). }
  destruct (has _ HEAP_XMAX_COMMITTED) eqn:Hxc.
  { destruct (HEAP_XMAX_IS_LOCKED_ONLY _) eqn:Hl.
    - rewrite deleted_locked by done. split; [by apply hinted_refl|done].
    - destruct (committed_hint t Ht Hxc Hl) as (-> & _). split; [by apply hinted_refl|done]. }
  destruct (has _ HEAP_XMAX_IS_MULTI) eqn:Hm, (HEAP_XMAX_IS_LOCKED_ONLY _) eqn:Hl.
  - rewrite deleted_locked by done. split; [by apply hinted_refl|done].
  - rewrite deleted_multi by done. fate_split (HeapTupleGetUpdateXid E t); env_rewrite; (split; [by apply hinted_refl|done]).
  - rewrite deleted_locked by done. fate_split (t_xmax t); env_rewrite; (split; [|done]).
    all: first [by apply hinted_refl|apply hint_unlocked; [done|by rewrite running_single|done]].
  - rewrite deleted_single by done. fate_split (t_xmax t); env_rewrite; rewrite ?Hfate; (split; [|done]).
    all: first [by apply hinted_refl|by apply hint_aborted|apply hint_xmax_committed; [done|by rewrite deleted_single, Hfate|done]].
Qed.

(** ** DIRTY *)
Definition dirty_busy (s : SnapshotData) (t : HeapTupleHeaderData) : SnapshotData :=
  match updater E t with
  | Some x => match fate E x with Running => set_dirty s (snap_xmin s) x (speculativeToken s) | _ => s end
  | None => s
  end.

Lemma dirty_xmin_ok t s : hints_ok E t -> let '(t1, s1, e) := dirty_xmin E buffer t s in hinted E t t1 /\
  match inserted_as E t with
  | Running => e = Some true /\ s1 = set_dirty s (t_xmin t) (snap_xmax s)
      (if HeapTupleHeaderIsSpeculative t then HeapTupleHeaderGetSpeculativeToken t else speculativeToken s)
  | Committed => e = None /\ s1 = s
  | _ => e = Some (self_spec E t) /\ s1 = s
  end.
Proof.
  intros Ht. pose proof (self_xmin_ok t Ht) as Hs. unfold dirty_xmin, self_xmin in *. destruct (HeapTupleHeaderXminCommitted t) eqn:Hc; cbn [negb] in *.
  { destruct Hs as [Hh Hs]. split; [done|]. cbn in Hs. by rewrite (ho_xmin_committed _ _ Ht Hc). }
  destruct (HeapTupleHeaderXminInvalid t) eqn:Hi.
  { destruct Hs as [Hh Hs]. split; [done|]. rewrite (ho_xmin_invalid _ _ Ht Hi) in *. done. }
  destruct (not_moved t Ht) as [H1 H2]. rewrite H1, H2 in *. pose proof (not_frozen t Hc) as Hf. unfold HeapTupleHeaderGetRawXmin in *.
  fate_split (t_xmin t); env_rewrite; rewrite ?Hf, ?Hfate in *.
  - rewrite H in Hs. destruct (self_own E buffer t) as [t1 r]. destruct Hs as [Hh Hs]. by split.
  - split; [by apply hinted_refl|done].
  - rewrite H, H0 in Hs. destruct (inserter_done E buffer false t) as [t1 r]. destruct Hs as [Hh Hs]. by split.
  - rewrite H, H0 in Hs. destruct (inserter_done E buffer false t) as [t1 r]. destruct Hs as [Hh Hs]. by split.
Qed.

Lemma dirty_xmax_ok t s : hints_ok E t ->
  dirty_xmax E buffer t s = (fst (self_xmax E buffer t), dirty_busy s t, snd (self_xmax E buffer t)).
Proof.
  intros Ht. unfold dirty_xmax, self_xmax, HeapTupleHeaderGetRawXmax, dirty_busy.
  destruct (has _ HEAP_XMAX_INVALID) eqn:Hxi.
  { destruct (invalid_hint t Ht Hxi) as [Hd _]. unfold deleted_as in Hd. destruct (updater E t); [|done]. cbn in Hd. destruct Hd as [?|[= ->]]; done. }
  destruct (has _ HEAP_XMAX_COMMITTED) eqn:Hxc.
  { destruct (HEAP_XMAX_IS_LOCKED_ONLY _) eqn:Hl; [by rewrite locked_updater|].
    destruct (committed_hint t Ht Hxc Hl) as (Hd & Hm & _). rewrite deleted_single in Hd by done. injection Hd as Hd.
    by rewrite single_updater, Hd. }
  destruct (has _ HEAP_XMAX_IS_MULTI) eqn:Hm, (HEAP_XMAX_IS_LOCKED_ONLY _) eqn:Hl.
  - by rewrite locked_updater.
  - rewrite multi_updater by done. fate_split (HeapTupleGetUpdateXid E t); env_rewrite; done.
  - rewrite locked_updater by done. fate_split (t_xmax t); env_rewrite; done.
  - rewrite single_updater by done. fate_split (t_xmax t); env_rewrite; done.
Qed.

(** ** MVCC *)
(** Ids that the snapshot does not list have finished. *)
Definition snap_ok (s : SnapshotData) : Prop := forall x,
  TransactionIdIsCurrentTransactionId E x = false -> XidInMVCCSnapshot E x s = false -> TransactionIdIsInProgress E x = false.

Definition deletion_seen (s : SnapshotData) (t : HeapTupleHeaderData) : bool :=
  match updater E t with Some x => sees E s x (HeapTupleHeaderGetCmax E t) | None => false end.

Lemma unseen_deletion s t : deleted_as E t = None \/ deleted_as E t = Some Aborted -> deletion_seen s t = false.
Proof. unfold deletion_seen, deleted_as. destruct (updater E t) as [x|]; [|done]. cbn. unfold sees. intros [?|[= ->]]; done. Qed.

Lemma leb_negb_ltb a b : (a <=? b) = negb (b <? a).
Proof. destruct (Z.leb_spec a b), (Z.ltb_spec b a); done || lia. Qed.

Lemma mvcc_own_ok s t : hints_ok E t -> inserted_as E t = Mine ->
  xmax_post t ((HeapTupleHeaderGetCmin E t <? curcid s) && negb (deletion_seen s t)) (mvcc_own E buffer s t).
Proof.
  intros Ht Hi. unfold mvcc_own, xmax_post, HeapTupleHeaderGetRawXmax. rewrite !leb_negb_ltb.
  destruct (HeapTupleHeaderGetCmin E t <? curcid s); cbn [negb andb]; [|by split; [apply hinted_refl|]].
  destruct (has _ HEAP_XMAX_INVALID) eqn:Hxi.
  { rewrite unseen_deletion by by apply invalid_hint. split; [by apply hinted_refl|done]. }
  destruct (HEAP_XMAX_IS_LOCKED_ONLY _) eqn:Hl.
  { unfold deletion_seen. rewrite locked_updater by done. split; [by apply hinted_refl|done]. }
  unfold deletion_seen, sees. destruct (own_updater t Ht Hi Hl) as [Hd|Hd]; destruct (has _ HEAP_XMAX_IS_MULTI) eqn:Hm.
  - rewrite deleted_multi in Hd by done. injection Hd as Hd. rewrite multi_updater, (fate_mine _ Hd), Hd by done. cbn [negb].
    destruct (_ <? _); (split; [by apply hinted_refl|done]).
  - rewrite deleted_single in Hd by done. injection Hd as Hd. rewrite single_updater, (fate_mine _ Hd), Hd by done. cbn [negb].
    destruct (_ <? _); (split; [by apply hinted_refl|done]).
  - rewrite deleted_multi in Hd by done. injection Hd as Hd. rewrite multi_updater, (fate_not_mine _), Hd by congruence. split; [by apply hinted_refl|done].
  - rewrite deleted_single in Hd by done. injection Hd as Hd. rewrite single_updater, (fate_not_mine _), Hd by congruence. split; [by apply hint_aborted|done].
Qed.

Lemma mvcc_xmin_ok s t : hints_ok E t -> snap_ok s -> let p := mvcc_xmin E buffer s t in
  hinted E t p.1 /\ p.2 = match inserted_as E t with
    | Mine => Some ((HeapTupleHeaderGetCmin E t <? curcid s) && negb (deletion_seen s t))
    | Committed => if negb (HeapTupleHeaderXminFrozen t) && XidInMVCCSnapshot E (t_xmin t) s then Some false else None
    | _ => Some false
    end.
Proof.
  intros Ht Hs. unfold mvcc_xmin, HeapTupleHeaderGetRawXmin. destruct (HeapTupleHeaderXminCommitted t) eqn:Hc; cbn [negb].
  { rewrite (ho_xmin_committed _ _ Ht Hc). destruct (_ && _); (split; [by apply hinted_refl|done]). }
  destruct (HeapTupleHeaderXminInvalid t) eqn:Hi.
  { rewrite (ho_xmin_invalid _ _ Ht Hi). split; [by apply hinted_refl|done]. }
  unmoved Ht. assert (Hz : HeapTupleHeaderXminFrozen t = false).
  { unfold HeapTupleHeaderXminCommitted in Hc. by rewrite xmin_frozen_bits, Hc, andb_false_r. }
  rewrite Hz. cbn [negb andb]. pose proof (not_frozen t Hc) as Hf. destruct (TransactionIdIsCurrentTransactionId E (t_xmin t)) eqn:Hcur.
  { assert (Hmine : inserted_as E t = Mine) by (rewrite Hf; unfold fate; by rewrite Hcur). rewrite Hmine.
    destruct (mvcc_own_ok s t Ht Hmine) as [Hh Ho]. destruct (mvcc_own E buffer s t) as [t1 r]. cbn in *. by rewrite Ho. }
  destruct (XidInMVCCSnapshot E (t_xmin t) s) eqn:Hsn.
  { split; [by apply hinted_refl|]. rewrite Hf. unfold fate. rewrite Hcur. by repeat case_match. }
  destruct (inserter_done_ok false t Ht Hc Hcur (Hs _ Hcur Hsn)) as [Hh [[-> ?]|[-> ?]]]; done.
Qed.

Lemma mvcc_xmax_ok s t : hints_ok E t -> snap_ok s -> xmax_post t (negb (deletion_seen s t)) (mvcc_xmax E buffer s t).
Proof.
  intros Ht Hs. unfold mvcc_xmax, xmax_post, HeapTupleHeaderGetRawXmax. rewrite !leb_negb_ltb. destruct (has _ HEAP_XMAX_INVALID) eqn:Hxi.
  { rewrite unseen_deletion by by apply invalid_hint. split; [by apply hinted_refl|done]. }
  unfold deletion_seen, sees. destruct (HEAP_XMAX_IS_LOCKED_ONLY _) eqn:Hl.
  { rewrite locked_updater by done. split; [by apply hinted_refl|done]. }
  destruct (has _ HEAP_XMAX_IS_MULTI) eqn:Hm.
  - rewrite multi_updater by done. set (x := HeapTupleGetUpdateXid E t). pose proof (Hs x) as Hx.
    fate_split x; env_rewrite.
    all: repeat (case_match; cbn [negb] in *); try (split; [by apply hinted_refl|done]).
    all: exfalso; naive_solver congruence.
  - rewrite single_updater by done. pose proof (Hs (t_xmax t)) as Hx. destruct (has _ HEAP_XMAX_COMMITTED) eqn:Hxc; cbn [negb].
    + destruct (committed_hint t Ht Hxc Hl) as (Hd & _). rewrite deleted_single in Hd by done. injection Hd as ->.
      destruct (XidInMVCCSnapshot _ _ _); (split; [by apply hinted_refl|done]).
    + fate_split (t_xmax t); env_rewrite.
      all: repeat (case_match; cbn [negb] in *); try (split; [by apply hinted_refl|done]).
      all: first [exfalso; naive_solver congruence|split; [|done]].
      all: first [by apply hint_aborted|apply hint_xmax_committed; [done|by rewrite deleted_single, Hfate|done]].
Qed.

(** ** VACUUM *)
Lemma mine_running x : fate E x = Mine -> TransactionIdIsInProgress E x = true.
Proof. intros H. apply (env_current _ HE). by apply fate_mine. Qed.

Lemma only_locked_false t : has (t_infomask t) HEAP_XMAX_INVALID = false -> HEAP_XMAX_IS_LOCKED_ONLY (t_infomask t) = false ->
  deleted_as E t = Some Mine -> HeapTupleHeaderIsOnlyLocked E t = false.
Proof.
  intros Hxi Hl Hd. pose proof Hl as Hl'. unfold HeapTupleHeaderIsOnlyLocked, HeapTupleHeaderGetRawXmax. rewrite Hxi. rewrite locked_only_bits in Hl.
  destruct (has _ HEAP_XMAX_LOCK_ONLY) eqn:Hlo; [done|]. cbn [orb] in Hl.
  unfold TransactionIdIsValid. destruct (Z.eqb_spec (t_xmax t) InvalidTransactionId) as [Hz|]; cbn [negb].
  - exfalso. revert Hd. unfold deleted_as, updater. rewrite locked_only_bits, Hlo, Hl. cbn [orb].
    destruct (has _ HEAP_XMAX_IS_MULTI).
    + unfold HeapTupleGetUpdateXid, MultiXactIdGetUpdateXid, HeapTupleHeaderGetRawXmax. rewrite Hz, (env_no_multi _ HE). cbn. by rewrite (env_invalid _ HE).
    + cbn. by rewrite Hz, (env_invalid _ HE).
  - destruct (has _ HEAP_XMAX_IS_MULTI) eqn:Hm; cbn [negb]; [|done]. rewrite deleted_multi in Hd by done.
    injection Hd as Hd. by rewrite (fate_mine _ Hd).
Qed.

Lemma vacuum_own_ok t : hints_ok E t -> inserted_as E t = Mine ->
  vacuum_own E t = match deleted_as E t with Some Mine => HEAPTUPLE_DELETE_IN_PROGRESS | _ => HEAPTUPLE_INSERT_IN_PROGRESS end.
Proof.
  intros Ht Hi. unfold vacuum_own. destruct (has _ HEAP_XMAX_INVALID) eqn:Hxi.
  { by destruct (invalid_hint t Ht Hxi) as [[-> | ->] _]. }
  destruct (HEAP_XMAX_IS_LOCKED_ONLY _) eqn:Hl; cbn [orb].
  { by rewrite deleted_locked. }
  assert (Hup : updater E t = Some (HeapTupleHeaderGetUpdateXid E t)).
  { unfold updater, HeapTupleHeaderGetUpdateXid. rewrite Hl, Hxi. rewrite locked_only_bits in Hl. apply orb_false_iff in Hl as [-> _]. cbn [negb andb]. rewrite andb_true_r. done. }
  destruct (own_updater t Ht Hi Hl) as [Hd|Hd]; rewrite Hd.
  - rewrite only_locked_false by done. unfold deleted_as in Hd. rewrite Hup in Hd. injection Hd as Hd. by rewrite (fate_mine _ Hd).
  - unfold deleted_as in Hd. rewrite Hup in Hd. injection Hd as Hd. rewrite (fate_not_mine _) by congruence. by case_match.
Qed.

Lemma vacuum_xmin_ok t : hints_ok E t -> let p := vacuum_xmin E buffer t in
  hinted E t p.1 /\ p.2 = match inserted_as E t with Committed => None | _ => Some (fst (vacuum_spec E t)) end.
Proof.
  intros Ht. replace (vacuum_xmin E buffer t) with (xmin_shape HEAPTUPLE_DEAD HEAPTUPLE_INSERT_IN_PROGRESS (t, Some (vacuum_own E t)) t).
  2: { unfold vacuum_xmin, xmin_shape, HeapTupleHeaderGetRawXmin. by unmoved Ht. }
  destruct (xmin_shape_ok HEAPTUPLE_DEAD HEAPTUPLE_INSERT_IN_PROGRESS (t, Some (vacuum_own E t)) (Some (vacuum_own E t)) t Ht) as [Hh Hp].
  - intros Hi. split; [by apply hinted_refl|done].
  - split; [done|]. rewrite Hp. unfold vacuum_spec. destruct (inserted_as E t) eqn:Hi; try done. by rewrite vacuum_own_ok.
Qed.

Lemma vacuum_locked_ok t : hints_ok E t -> HEAP_XMAX_IS_LOCKED_ONLY (t_infomask t) = true -> hinted E t (vacuum_locked E buffer t).
Proof.
  intros Ht Hl. unfold vacuum_locked, HeapTupleHeaderGetRawXmax. rewrite (ho_upgraded _ _ Ht). cbn [negb andb].
  destruct (has _ HEAP_XMAX_COMMITTED); cbn [negb]; [by apply hinted_refl|].
  destruct (has _ HEAP_XMAX_IS_MULTI) eqn:Hm.
  - destruct (MultiXactIdIsRunning _ _ _) eqn:Hr; [by apply hinted_refl|]. apply hint_unlocked; [done| |done]. unfold xmax_running. by rewrite Hm, Hl.
  - destruct (TransactionIdIsInProgress _ _) eqn:Hr; [by apply hinted_refl|]. apply hint_unlocked; [done|by rewrite running_single|done].
Qed.

Lemma vacuum_xmax_ok t : hints_ok E t -> inserted_as E t = Committed -> let '(t1, r, dead_after) := vacuum_xmax E buffer t in
  hinted E t t1 /\ (r, dead_after) = vacuum_spec E t.
Proof.
  intros Ht Hi. unfold vacuum_xmax, vacuum_spec, HeapTupleHeaderGetRawXmax. rewrite Hi. destruct (has _ HEAP_XMAX_INVALID) eqn:Hxi.
  { split; [by apply hinted_refl|]. destruct (invalid_hint t Ht Hxi) as [Hd _]. unfold deleted_as in Hd. destruct (updater E t); [|done].
    cbn in Hd. by destruct Hd as [?|[= ->]]. }
  destruct (HEAP_XMAX_IS_LOCKED_ONLY _) eqn:Hl.
  { rewrite locked_updater by done. split; [by apply vacuum_locked_ok|done]. }
  destruct (has _ HEAP_XMAX_IS_MULTI) eqn:Hm.
  - rewrite multi_updater by done. set (x := HeapTupleGetUpdateXid E t). fate_split x; env_rewrite; rewrite ?(mine_running x) by done;
      try (split; [by apply hinted_refl|done]). destruct (MultiXactIdIsRunning _ _ _) eqn:Hr; (split; [|done]); [by apply hinted_refl|].
    apply hint_xmax_invalid; [done| |].
    + unfold xmax_running. by rewrite Hm, Hl.
    + intros _. rewrite deleted_multi by done. fold x. by rewrite Hfate.
  - rewrite single_updater by done. destruct (has _ HEAP_XMAX_COMMITTED) eqn:Hxc; cbn [negb].
    { destruct (committed_hint t Ht Hxc Hl) as (Hd & _). rewrite deleted_single in Hd by done. injection Hd as ->. split; [by apply hinted_refl|done]. }
    fate_split (t_xmax t); env_rewrite; rewrite ?(mine_running (t_xmax t)) by done; (split; [|done]).
    all: first [by apply hinted_refl|by apply hint_aborted|apply hint_xmax_committed; [done|by rewrite deleted_single, Hfate|done]].
Qed.

(** ** UPDATE *)
Lemma running_updater t : has (t_infomask t) HEAP_XMAX_IS_MULTI = true -> HEAP_XMAX_IS_LOCKED_ONLY (t_infomask t) = false ->
  TransactionIdIsInProgress E (HeapTupleGetUpdateXid E t) = true -> MultiXactIdIsRunning E (t_xmax t) false = true.
Proof.
  intros Hm Hl Hr. unfold HeapTupleGetUpdateXid, MultiXactIdGetUpdateXid, HeapTupleHeaderGetRawXmax in Hr. unfold MultiXactIdIsRunning.
  apply orb_true_iff. right. apply existsb_exists. destruct (List.find _ _) as [m|] eqn:Hf.
  - exists m. split; [by apply find_some in Hf as [??]|done].
  - exfalso. pose proof (env_invalid _ HE) as Hz. unfold fate in Hz. rewrite Hr in Hz. by destruct (TransactionIdIsCurrentTransactionId _ _).
Qed.

Definition held (t : HeapTupleHeaderData) : TM_Result := if xmax_running E t then TM_BeingModified else TM_Ok.

Lemma update_own_ok curcid t : hints_ok E t -> inserted_as E t = Mine ->
  xmax_post t (if curcid <=? HeapTupleHeaderGetCmin E t then TM_Invisible
    else match deleted_as E t with Some Mine => modified_since E curcid t | _ => held t end) (update_own E buffer curcid t).
Proof.
  intros Ht Hi. unfold update_own, xmax_post, held, HeapTupleHeaderGetRawXmax.
  destruct (_ <=? _); [by split; [apply hinted_refl|]|]. destruct (has _ HEAP_XMAX_INVALID) eqn:Hxi.
  { destruct (invalid_hint t Ht Hxi) as [[-> | ->] ->]; (split; [by apply hinted_refl|done]). }
  destruct (HEAP_XMAX_IS_LOCKED_ONLY _) eqn:Hl.
  { rewrite deleted_locked by done. unfold xmax_running. rewrite Hl. destruct (has _ HEAP_XMAX_IS_MULTI); [destruct (MultiXactIdIsRunning _ _ _)|destruct (TransactionIdIsInProgress _ _)];
      (split; [by apply hinted_refl|done]). }
  destruct (own_updater t Ht Hi Hl) as [Hd|Hd]; rewrite Hd; destruct (has _ HEAP_XMAX_IS_MULTI) eqn:Hm.
  - rewrite deleted_multi in Hd by done. injection Hd as Hd. rewrite (fate_mine _ Hd). split; [by apply hinted_refl|done].
  - rewrite deleted_single in Hd by done. injection Hd as Hd. rewrite (fate_mine _ Hd). split; [by apply hinted_refl|done].
  - rewrite deleted_multi in Hd by done. injection Hd as Hd. rewrite (fate_not_mine _) by congruence. unfold xmax_running. rewrite Hm, Hl. cbn [negb].
    case_match; (split; [by apply hinted_refl|done]).
  - rewrite deleted_single in Hd by done. injection Hd as Hd. rewrite (fate_not_mine _) by congruence. rewrite aborted_idle by done. split; [by apply hint_aborted|done].
Qed.

Lemma update_xmin_ok self curcid t : hints_ok E t -> let p := update_xmin E buffer curcid t in
  hinted E t p.1 /\ p.2 = match inserted_as E t with Committed => None | _ => Some (update_spec E self curcid t) end.
Proof.
  intros Ht. set (own := (fst (update_own E buffer curcid t), Some (snd (update_own E buffer curcid t)))).
  replace (update_xmin E buffer curcid t) with (xmin_shape TM_Invisible TM_Invisible own t).
  2: { unfold update_xmin, xmin_shape, own, HeapTupleHeaderGetRawXmin. unmoved Ht. by destruct (update_own E buffer curcid t). }
  destruct (xmin_shape_ok TM_Invisible TM_Invisible own (Some (snd (update_own E buffer curcid t))) t Ht) as [Hh Hp].
  - intros Hi. destruct (update_own_ok curcid t Ht Hi) as [H1 _]. by split.
  - split; [done|]. rewrite Hp. unfold update_spec. destruct (inserted_as E t) eqn:Hi; try done.
    destruct (update_own_ok curcid t Ht Hi) as [_ ->]. done.
Qed.

Lemma update_multi_ok self curcid t : hints_ok E t -> inserted_as E t = Committed -> has (t_infomask t) HEAP_XMAX_IS_MULTI = true ->
  xmax_post t (update_spec E self curcid t) (update_multi E buffer self curcid t).
Proof.
  intros Ht Hi Hm. unfold update_multi, xmax_post, update_spec, HeapTupleHeaderGetRawXmax. rewrite Hi, (ho_upgraded _ _ Ht).
  destruct (HEAP_XMAX_IS_LOCKED_ONLY _) eqn:Hl.
  { rewrite deleted_locked by done. assert (Hr : xmax_running E t = MultiXactIdIsRunning E (t_xmax t) true) by (unfold xmax_running; by rewrite Hm, Hl).
    rewrite Hr. destruct (MultiXactIdIsRunning _ _ _) eqn:Hrun; (split; [|done]); [by apply hinted_refl|]. by apply hint_unlocked. }
  assert (Hr : xmax_running E t = MultiXactIdIsRunning E (t_xmax t) false) by (unfold xmax_running; by rewrite Hm, Hl).
  rewrite deleted_multi, Hr by done. set (x := HeapTupleGetUpdateXid E t).
  destruct (TransactionIdIsValid x) eqn:Hv; cbn [negb andb]; cycle 1.
  { assert (Hx : fate E x = Aborted).
    { unfold TransactionIdIsValid in Hv. apply negb_false_iff, Z.eqb_eq in Hv. rewrite Hv. apply HE. }
    rewrite Hx. destruct (MultiXactIdIsRunning _ _ _) eqn:Hrun; [by split; [apply hinted_refl|]|].
    pose proof Hx as Hx'. unfold fate in Hx'. repeat case_match; try done. split; [|done]. apply hint_xmax_invalid; [done|by rewrite Hr|]. intros _.
    rewrite deleted_multi by done. fold x. by rewrite Hx. }
  pose proof (running_updater t Hm Hl) as Hrun. fold x in Hrun.
  fate_split x; env_rewrite; rewrite ?Hrun by done; try (split; [by apply hinted_refl|done]).
  - destruct (MultiXactIdIsRunning _ _ _); (split; [by apply hinted_refl|done]).
  - destruct (MultiXactIdIsRunning _ _ _) eqn:Hm2; cbn [negb]; (split; [|done]); [by apply hinted_refl|].
    apply hint_xmax_invalid; [done|by rewrite Hr|]. intros _. rewrite deleted_multi by done. fold x. by rewrite Hfate.
Qed.

Lemma update_xmax_ok self curcid t : hints_ok E t -> inserted_as E t = Committed ->
  xmax_post t (update_spec E self curcid t) (update_xmax E buffer self curcid t).
Proof.
  intros Ht Hi. unfold update_xmax, HeapTupleHeaderGetRawXmax. destruct (has _ HEAP_XMAX_INVALID) eqn:Hxi.
  { unfold xmax_post, update_spec. rewrite Hi. destruct (invalid_hint t Ht Hxi) as [[-> | ->] ->]; (split; [by apply hinted_refl|done]). }
  destruct (has _ HEAP_XMAX_COMMITTED) eqn:Hxc.
  { unfold xmax_post, update_spec. rewrite Hi, (proj1 (ho_xmax_committed _ _ Ht Hxc)). destruct (HEAP_XMAX_IS_LOCKED_ONLY _) eqn:Hl.
    - rewrite deleted_locked by done. split; [by apply hinted_refl|done].
    - destruct (committed_hint t Ht Hxc Hl) as (-> & _). split; [by apply hinted_refl|done]. }
  destruct (has _ HEAP_XMAX_IS_MULTI) eqn:Hm; [by apply update_multi_ok|]. unfold xmax_post, update_spec. rewrite Hi, running_single by done.
  destruct (HEAP_XMAX_IS_LOCKED_ONLY _) eqn:Hl.
  - rewrite deleted_locked by done. fate_split (t_xmax t); env_rewrite; rewrite ?(mine_running (t_xmax t)) by done; (split; [|done]).
    all: first [by apply hinted_refl|apply hint_unlocked; [done|by rewrite running_single|done]].
  - rewrite deleted_single by done. fate_split (t_xmax t); env_rewrite; rewrite ?(mine_running (t_xmax t)) by done; (split; [|]).
    all: try done.
    all: first [by apply hinted_refl|by apply hint_aborted|apply hint_xmax_committed; [done|by rewrite deleted_single, Hfate|done]|idtac].
    cbn [negb snd]. unfold updated_or_deleted. by destruct (core_fields t _ (xmax_hint_core t HEAP_XMAX_COMMITTED (t_xmax t) ltac:(auto))) as (_ & _ & _ & -> & -> & _).
Qed.

Lemma cids_core t t' : core t' = core t -> HeapTupleHeaderGetCmin E t' = HeapTupleHeaderGetCmin E t /\ HeapTupleHeaderGetCmax E t' = HeapTupleHeaderGetCmax E t.
Proof.
  intros Hc. unfold HeapTupleHeaderGetCmin, HeapTupleHeaderGetCmax, HeapTupleHeaderGetRawCommandId.
  destruct (core_fields t t' Hc) as (_ & _ & -> & _ & _ & _ & _ & Hb). by rewrite !Hb.
Qed.

Lemma deletion_seen_core s t t' : core t' = core t -> deletion_seen s t' = deletion_seen s t.
Proof. intros Hc. unfold deletion_seen. destruct (core_view E t t' Hc) as (_ & -> & _). by destruct (cids_core t t' Hc) as [_ ->]. Qed.

Lemma mvcc_ok t s : hints_ok E t -> snap_ok s ->
  let '(t', visible) := HeapTupleSatisfiesMVCC E buffer t s in
  visible = mvcc_spec E s t /\ hinted E t t'.
Proof.
  intros Ht Hs. unfold HeapTupleSatisfiesMVCC. destruct (mvcc_xmin_ok s t Ht Hs) as [Hh He]. destruct (mvcc_xmin E buffer s t) as [t1 e]. cbn in Hh, He.
  assert (Hspec : mvcc_spec E s t = (HeapTupleHeaderXminFrozen t || sees E s (t_xmin t) (HeapTupleHeaderGetCmin E t)) && negb (deletion_seen s t)) by done.
  rewrite Hspec. unfold inserted_as, sees in *. destruct (HeapTupleHeaderXminFrozen t) eqn:Hz; cbn [negb andb orb] in *.
  - rewrite He. destruct (mvcc_xmax_ok s t1 (proj2 Hh) Hs) as [Hh2 Hr]. destruct (mvcc_xmax E buffer s t1) as [t2 r]. cbn in *. split; [|by eapply hinted_trans].
    rewrite Hr. by rewrite (deletion_seen_core s t t1 (proj1 Hh)).
  - destruct (fate E (t_xmin t)); rewrite He; try done. destruct (XidInMVCCSnapshot E (t_xmin t) s); [done|]. cbn [negb andb].
    destruct (mvcc_xmax_ok s t1 (proj2 Hh) Hs) as [Hh2 Hr]. destruct (mvcc_xmax E buffer s t1) as [t2 r]. cbn in *. split; [|by eapply hinted_trans].
    rewrite Hr. by rewrite (deletion_seen_core s t t1 (proj1 Hh)).
Qed.

(** C27. The MVCC check decides snapshot visibility.  On a tuple whose hint bits are right,
    [HeapTupleSatisfiesMVCC] answers: the inserter is frozen or seen by the snapshot, and no
    deleter is, where a snapshot sees what had committed when it was taken and the earlier
    commands of its own transaction; lockers do not count and a multixact counts as its
    updater.  It changes nothing but hint bits, and these are right afterwards; so the
    answer does not depend on which hints were set before. *)
Theorem mvcc_visibility t s : hints_ok E t -> snap_ok s ->
  let '(t', visible) := HeapTupleSatisfiesMVCC E buffer t s in
  visible = mvcc_spec E s t /\ hinted E t t'.
Proof. apply mvcc_ok. Qed.

Lemma self_spec_core t t' : core t' = core t -> deleted_as E t' = deleted_as E t.
Proof. intros Hc. by destruct (core_view E t t' Hc) as (_ & _ & -> & _). Qed.

(** The self and dirty checks.  [HeapTupleSatisfiesSelf] answers whether the insertion
    is in effect and no deletion is, counting what has committed and what this transaction
    did; [HeapTupleSatisfiesDirty] also counts running insertions, and reports the running
    inserter (with its speculative token) or the running deleter, and nothing else, in the
    snapshot.  Both change only hint bits and keep them right. *)
Theorem self_dirty_visibility t s : hints_ok E t ->
  (let '(t', r) := HeapTupleSatisfiesSelf E buffer t in r = self_spec E t /\ hinted E t t') /\
  (let '(t', s', r) := HeapTupleSatisfiesDirty E buffer t s in r = dirty_spec E t /\ hinted E t t' /\
     s' = set_dirty s (dirty_xmin_spec E t) (dirty_xmax_spec E t)
       (match inserted_as E t with
        | Running => if HeapTupleHeaderIsSpeculative t then HeapTupleHeaderGetSpeculativeToken t else 0
        | _ => 0
        end)).
Proof.
  intros Ht. split.
  - unfold HeapTupleSatisfiesSelf. destruct (self_xmin_ok t Ht) as [Hh He]. destruct (self_xmin E buffer t) as [t1 e]. cbn in Hh, He. rewrite He.
    destruct (inserted_as E t) eqn:Hi; try done. destruct (self_xmax_ok t1 (proj2 Hh)) as [Hh2 Hr]. destruct (self_xmax E buffer t1) as [t2 r].
    split; [|by eapply hinted_trans]. cbn in Hr. rewrite Hr, (self_spec_core t t1) by apply Hh. unfold self_spec. by rewrite Hi.
  - unfold HeapTupleSatisfiesDirty. set (s0 := set_dirty s InvalidTransactionId InvalidTransactionId 0). pose proof (dirty_xmin_ok t s0 Ht) as Hx.
    destruct (dirty_xmin E buffer t s0) as [[t1 s1] e]. destruct Hx as [Hh Hx]. unfold dirty_spec, dirty_xmin_spec, dirty_xmax_spec.
    destruct (inserted_as E t) eqn:Hi; destruct Hx as [-> ->]; try done.
    rewrite dirty_xmax_ok by apply Hh. destruct (self_xmax_ok t1 (proj2 Hh)) as [Hh2 Hr]. split_and!.
    + rewrite Hr, (self_spec_core t t1) by apply Hh. unfold self_spec. by rewrite Hi.
    + by eapply hinted_trans.
    + unfold dirty_busy. destruct (core_view E t t1 (proj1 Hh)) as (_ & -> & _). destruct (updater E t); [|done]. by destruct (fate E z).
Qed.

Lemma vacuum_ok t : hints_ok E t ->
  let '(t', r, dead_after) := HeapTupleSatisfiesVacuumHorizon E buffer t in (r, dead_after) = vacuum_spec E t /\ hinted E t t'.
Proof.
  intros Ht. unfold HeapTupleSatisfiesVacuumHorizon. destruct (vacuum_xmin_ok t Ht) as [Hh He]. destruct (vacuum_xmin E buffer t) as [t1 e]. cbn in Hh, He. rewrite He.
  destruct (inserted_as E t) eqn:Hi; try (split; [unfold vacuum_spec; by rewrite Hi|done]).
  destruct (core_view E t t1 (proj1 Hh)) as (Hi1 & Hu1 & _). pose proof (vacuum_xmax_ok t1 (proj2 Hh) ltac:(congruence)) as Hx.
  destruct (vacuum_xmax E buffer t1) as [[t2 r] d]. destruct Hx as [Hh2 ->]. split; [|by eapply hinted_trans]. unfold vacuum_spec. by rewrite Hi1, Hi, Hu1.
Qed.

(** C29. The status of a tuple for VACUUM.  [HeapTupleSatisfiesVacuumHorizon] returns the
    status that the fates of inserter and deleter determine, with the deleter whose age is
    to be compared when the tuple is recently dead; it changes only hint bits and keeps
    them right.  [HeapTupleSatisfiesVacuum] is that status with the horizon applied, and
    what the cheap test [HeapTupleIsSurelyDead] calls dead is dead for VACUUM. *)
Theorem vacuum_status t h : hints_ok E t ->
  (let '(t', r, dead_after) := HeapTupleSatisfiesVacuumHorizon E buffer t in (r, dead_after) = vacuum_spec E t /\ hinted E t t') /\
  snd (HeapTupleSatisfiesVacuum E buffer t h) =
    (match vacuum_spec E t with
     | (HEAPTUPLE_RECENTLY_DEAD, x) => if TransactionIdPrecedes x h then HEAPTUPLE_DEAD else HEAPTUPLE_RECENTLY_DEAD
     | (r, _) => r
     end) /\
  (HeapTupleIsSurelyDead (fun x => TransactionIdPrecedes x h) t = true -> snd (HeapTupleSatisfiesVacuum E buffer t h) = HEAPTUPLE_DEAD).
Proof.
  intros Ht. pose proof (vacuum_ok t Ht) as Hmain.
  split; [done|]. assert (Hv : snd (HeapTupleSatisfiesVacuum E buffer t h) =
    match vacuum_spec E t with (HEAPTUPLE_RECENTLY_DEAD, x) => if TransactionIdPrecedes x h then HEAPTUPLE_DEAD else HEAPTUPLE_RECENTLY_DEAD | (r, _) => r end).
  { unfold HeapTupleSatisfiesVacuum. destruct (HeapTupleSatisfiesVacuumHorizon E buffer t) as [[t1 r] d]. destruct Hmain as [<- _]. by destruct r. }
  split; [done|]. rewrite Hv. unfold HeapTupleIsSurelyDead, HeapTupleHeaderXminCommitted, HeapTupleHeaderGetRawXmax, vacuum_spec.
  destruct (has _ HEAP_XMIN_COMMITTED) eqn:Hc; cbn [negb].
  - rewrite (ho_xmin_committed _ _ Ht Hc). destruct (has _ HEAP_XMAX_INVALID); [done|]. destruct (HEAP_XMAX_IS_LOCKED_ONLY _) eqn:Hl; [done|].
    destruct (has _ HEAP_XMAX_IS_MULTI) eqn:Hm; [done|]. destruct (has _ HEAP_XMAX_COMMITTED) eqn:Hxc; [|done]. cbn [negb].
    destruct (committed_hint t Ht Hxc Hl) as (Hd & _). rewrite deleted_single in Hd by done. injection Hd as Hd. rewrite single_updater, Hd by done. by intros ->.
  - intros Hi. by rewrite (ho_xmin_invalid _ _ Ht Hi).
Qed.

(** C30. May a command update or delete the tuple?  [HeapTupleSatisfiesUpdate] answers from
    the fates of inserter and deleter, the command ids of its own transaction, and whether
    a running transaction holds the tuple, and distinguishes an update from a deletion by
    the tuple's link; it changes only hint bits and keeps them right. *)
Theorem update_status t self curcid : hints_ok E t ->
  let '(t', r) := HeapTupleSatisfiesUpdate E buffer self curcid t in r = update_spec E self curcid t /\ hinted E t t'.
Proof.
  intros Ht. unfold HeapTupleSatisfiesUpdate. destruct (update_xmin_ok self curcid t Ht) as [Hh He]. destruct (update_xmin E buffer curcid t) as [t1 e].
  cbn in Hh, He. rewrite He. destruct (inserted_as E t) eqn:Hi; try done.
  destruct (core_view E t t1 (proj1 Hh)) as (Hi1 & Hu1 & Hd1 & Hr1 & _). pose proof (update_xmax_ok self curcid t1 (proj2 Hh) ltac:(congruence)) as [Hh2 Hr].
  destruct (update_xmax E buffer self curcid t1) as [t2 r]. cbn in Hr. split; [|by eapply hinted_trans]. rewrite Hr. unfold update_spec, modified_since, updated_or_deleted.
  destruct (cids_core t t1 (proj1 Hh)) as [-> ->]. destruct (core_fields t t1 (proj1 Hh)) as (_ & _ & _ & -> & -> & _). by rewrite Hi1, Hi, Hd1, Hr1.
Qed.
End Hints.

(** ** Removal and visibility *)
(** [E'] is the knowledge of some backend at a later time. *)
Record knows_more (E E' : xact_state) : Prop := {
  km_committed : forall x, fate E x = Committed -> fate E' x = Committed;
  km_aborted : forall x, fate E x = Aborted -> fate E' x = Aborted;
  km_members : forall x b, GetMultiXactIdMembers E' x b = GetMultiXactIdMembers E x b }.

Lemma fate_done E x : TransactionIdIsCurrentTransactionId E x = false -> TransactionIdIsInProgress E x = false ->
  fate E x = Committed \/ fate E x = Aborted.
Proof. intros H1 H2. unfold fate. rewrite H1, H2. case_match; auto. Qed.

Section Later.
Context (E E' : xact_state) (HE : env_ok E) (HE' : env_ok E') (Hk : knows_more E E').

Lemma done_later x : TransactionIdIsInProgress E x = false -> TransactionIdIsInProgress E' x = false /\ TransactionIdIsCurrentTransactionId E' x = false.
Proof.
  intros Hp. assert (Hc : TransactionIdIsCurrentTransactionId E x = false).
  { destruct (TransactionIdIsCurrentTransactionId E x) eqn:Hc; [|done]. apply HE in Hc. congruence. }
  destruct (fate_done E x Hc Hp) as [Hf|Hf]; [apply (km_committed _ _ Hk) in Hf|apply (km_aborted _ _ Hk) in Hf];
    unfold fate in Hf; repeat case_match; done.
Qed.

Lemma updater_later t : updater E' t = updater E t.
Proof. unfold updater, HeapTupleGetUpdateXid, MultiXactIdGetUpdateXid. by rewrite (km_members _ _ Hk). Qed.

Lemma idle_later t : xmax_running E t = false -> xmax_running E' t = false.
Proof.
  unfold xmax_running. case_match; [|by intros Hd; destruct (done_later _ Hd)]. unfold MultiXactIdIsRunning. rewrite (km_members _ _ Hk). intros [H1 H2]%orb_false_iff.
  assert (Hall : forall m, In m (GetMultiXactIdMembers E (t_xmax t) (HEAP_XMAX_IS_LOCKED_ONLY (t_infomask t))) -> TransactionIdIsInProgress E (m_xid m) = false).
  { intros m Hm. destruct (TransactionIdIsInProgress E (m_xid m)) eqn:Hp; [|done]. exfalso. rewrite <- not_true_iff_false in H2. apply H2. apply existsb_exists. eauto. }
  apply orb_false_iff. split; apply not_true_iff_false; intros (m & Hm & Hx)%existsb_exists; destruct (done_later _ (Hall m Hm)); congruence.
Qed.

Lemma deleted_later t r : r = Committed \/ r = Aborted -> deleted_as E t = Some r -> deleted_as E' t = Some r.
Proof.
  unfold deleted_as. rewrite updater_later. destruct (updater E t) as [x|]; [|done]. cbn. intros [-> | ->] [= Hf].
  - by rewrite (km_committed _ _ Hk _ Hf).
  - by rewrite (km_aborted _ _ Hk _ Hf).
Qed.

Lemma hints_later t : hints_ok E t -> inserted_as E t = Committed \/ inserted_as E t = Aborted ->
  hints_ok E' t /\ inserted_as E' t = inserted_as E t.
Proof.
  intros Ht Hi. assert (Hins : inserted_as E' t = inserted_as E t).
  { unfold inserted_as in *. case_match; [done|]. destruct Hi as [Hf|Hf]; rewrite Hf; [by apply Hk|by apply Hk]. }
  split; [|done]. split; rewrite ?Hins; try apply Ht.
  - intros H. destruct (ho_xmax_committed _ _ Ht H) as [Hr Hd]. split; [by apply idle_later|]. rewrite updater_later. intros Hu. destruct (Hd Hu) as [Hd1 Hd2].
    split; [|done]. by apply deleted_later; [left|].
  - intros H. destruct (ho_xmax_invalid _ _ Ht H) as [Hr Hd]. split; [by apply idle_later|]. rewrite updater_later. intros Hu. apply deleted_later; auto.
  - intros Hm. destruct Hi; congruence.
Qed.
End Later.

(** What dead means: an aborted insertion, or a deletion before the horizon. *)
Lemma vacuum_dead E buffer t t' h : env_ok E -> hints_ok E t -> HeapTupleSatisfiesVacuum E buffer t h = (t', HEAPTUPLE_DEAD) ->
  hinted E t t' /\ (inserted_as E t = Aborted \/
    inserted_as E t = Committed /\ exists x, updater E t = Some x /\ fate E x = Committed /\ TransactionIdPrecedes x h = true).
Proof.
  intros HE Ht. unfold HeapTupleSatisfiesVacuum. pose proof (vacuum_ok E buffer HE t Ht) as Hv. destruct (HeapTupleSatisfiesVacuumHorizon E buffer t) as [[t1 r] d].
  destruct Hv as [Hv Hh]. unfold vacuum_spec in Hv. destruct r; intros Hr; try discriminate Hr; [injection Hr as <-|injection Hr as <- Hr]; (split; [done|]).
  - destruct (inserted_as E t); [by destruct (deleted_as E t) as [[]|]|done| |by left]. destruct (updater E t) as [x|]; [|done]. by destruct (fate E x).
  - destruct (TransactionIdPrecedes d h) eqn:Hp; [|done]. right. destruct (inserted_as E t); [by destruct (deleted_as E t) as [[]|]|done| |done].
    split; [done|]. destruct (updater E t) as [x|]; [|done]. exists x. destruct (fate E x) eqn:Hf; try done. by injection Hv as ->.
Qed.

(** C28. VACUUM never removes what someone can see.  If [HeapTupleSatisfiesVacuum] calls a
    tuple dead for the horizon [h], then for every backend, then or later, and every
    snapshot whose xmin is at or past that horizon, [HeapTupleSatisfiesMVCC] does not show
    the tuple, as it was left by the check.  (The ids involved lie within 2^31 of each other, which wraparound
    protection guarantees.) *)
Theorem vacuum_never_removes_visible E buffer E' buffer' t t' s h m :
  env_ok E -> env_ok E' -> knows_more E E' -> hints_ok E t -> snap_ok E' s ->
  normal_full h -> normal_full m -> snap_xmin s = xid_of m -> h <= m ->
  (forall x, updater E t = Some x -> fate E x = Committed -> exists d, x = xid_of d /\ normal_full d /\ m - 2 ^ 31 < d < h + 2 ^ 31) ->
  HeapTupleSatisfiesVacuum E buffer t (xid_of h) = (t', HEAPTUPLE_DEAD) ->
  snd (HeapTupleSatisfiesMVCC E' buffer' t' s) = false.
Proof.
  intros HE HE' Hk Ht Hs Hh Hm Hxm Hle Hfull Hv. destruct (vacuum_dead E buffer t t' _ HE Ht Hv) as [[Hc Ht'] Hdead].
  destruct (core_view E t t' Hc) as (Hi & Hu & _).
  assert (Hfin : inserted_as E t' = Committed \/ inserted_as E t' = Aborted) by (rewrite Hi; destruct Hdead as [?|[? _]]; auto).
  destruct (hints_later E E' HE Hk t' Ht' Hfin) as [Ht2 Hi2]. pose proof (mvcc_ok E' buffer' t' s Ht2 Hs) as Hmv.
  destruct (HeapTupleSatisfiesMVCC E' buffer' t' s) as [t2 r]. destruct Hmv as [-> _]. cbn [snd]. unfold mvcc_spec.
  destruct Hdead as [Ha|(Hcm & x & Hux & Hfx & Hp)].
  - rewrite Hi, Ha in Hi2. unfold inserted_as in Hi2. destruct (HeapTupleHeaderXminFrozen t'); [done|]. unfold sees. by rewrite Hi2.
  - rewrite (updater_later E E' Hk), Hu, Hux. unfold sees at 2. rewrite (km_committed _ _ Hk x Hfx). destruct (Hfull x Hux Hfx) as (d & -> & Hd & Hw).
    destruct (compare_full d h Hd Hh ltac:(lia)) as (Hdh & _). rewrite Hdh in Hp. apply Z.ltb_lt in Hp.
    unfold XidInMVCCSnapshot. rewrite Hxm. destruct (compare_full d m Hd Hm ltac:(lia)) as (-> & _). rewrite (proj2 (Z.ltb_lt d m)) by lia. apply andb_false_r.
Qed.

(** ** Concrete instances *)
(** Transaction 20 is mine, 21 runs, 10 to 12 have committed, and multixact 5 is an
    update by 12 with a locker. *)
Definition demo_env : xact_state :=
  mkXact (Z.eqb 20) (fun x => (x =? 20) || (x =? 21)) (fun x => (10 <=? x) && (x <=? 12)) (fun _ => 0) (fun _ => false)
    (fun x _ => if x =? 5 then [mkMember 11 MultiXactStatusForKeyShare; mkMember 12 MultiXactStatusUpdate] else []) id id id (fun _ => None).
Definition demo_buffer : BufferState := mkBuffer true 0.
Definition demo_tuple : HeapTupleHeaderData := mkTup 10 5 0 7 2 0 4096.
Definition demo_snap : SnapshotData := mkSnap SNAPSHOT_MVCC 12 22 [12; 20; 21] [] false false 3 0 (fun _ => false).
Definition new_snap : SnapshotData := mkSnap SNAPSHOT_MVCC 20 22 [20; 21] [] false false 3 0 (fun _ => false).

Lemma demo_env_ok : env_ok demo_env.
Proof. split; [|done|done]. intros x Hx. change ((20 =? x) = true) in Hx. by apply Z.eqb_eq in Hx as <-. Qed.

Lemma demo_hints : hints_ok demo_env demo_tuple.
Proof. split; vm_compute; intros; done. Qed.

Lemma demo_snap_ok s : 21 ∈ xip s -> takenDuringRecovery s = false -> suboverflowed s = false ->
  TransactionIdPrecedes 21 (snap_xmin s) = false -> snap_ok demo_env s.
Proof.
  intros Hin Hr Ho Hp x Hc Hs. change ((20 =? x) = false) in Hc. change ((x =? 20) || (x =? 21) = false). rewrite Z.eqb_sym in Hc. rewrite Hc. cbn [orb]. destruct (Z.eqb_spec x 21) as [->|]; [|done].
  exfalso. revert Hs. unfold XidInMVCCSnapshot. rewrite Hp, Hr, Ho. case_match; [done|]. cbn [negb]. case_match; [done|].
  rewrite pg_lfind32_ok. apply not_false_iff_true, existsb_exists. exists 21. split; [by apply list_elem_of_In|done].
Qed.

Lemma mvcc_visibility_witness : snd (HeapTupleSatisfiesMVCC demo_env demo_buffer demo_tuple demo_snap) = true.
Proof.
  pose proof (mvcc_visibility demo_env demo_buffer demo_tuple demo_snap demo_hints
    (demo_snap_ok demo_snap ltac:(set_solver) eq_refl eq_refl eq_refl)) as H.
  destruct (HeapTupleSatisfiesMVCC _ _ _ _) as [t r]. exact (proj1 H).
Defined.

Lemma self_dirty_visibility_witness : snd (HeapTupleSatisfiesSelf demo_env demo_buffer demo_tuple) = false.
Proof.
  destruct (self_dirty_visibility demo_env demo_buffer demo_tuple demo_snap demo_hints) as [H _].
  destruct (HeapTupleSatisfiesSelf demo_env demo_buffer demo_tuple) as [t r]. exact (proj1 H).
Defined.

Lemma vacuum_status_witness : snd (HeapTupleSatisfiesVacuum demo_env demo_buffer demo_tuple 20) = HEAPTUPLE_DEAD.
Proof. exact (proj1 (proj2 (vacuum_status demo_env demo_buffer demo_env_ok demo_tuple 20 demo_hints))). Defined.

Lemma update_status_witness : snd (HeapTupleSatisfiesUpdate demo_env demo_buffer (7, 1) 3 demo_tuple) = TM_Updated.
Proof.
  pose proof (update_status demo_env demo_buffer demo_env_ok demo_tuple (7, 1) 3 demo_hints) as H.
  destruct (HeapTupleSatisfiesUpdate _ _ _ _ _) as [t r]. exact (proj1 H).
Defined.

Lemma vacuum_never_removes_visible_witness :
  snd (HeapTupleSatisfiesMVCC demo_env demo_buffer (fst (HeapTupleSatisfiesVacuum demo_env demo_buffer demo_tuple 20)) new_snap) = false.
Proof.
  refine (vacuum_never_removes_visible demo_env demo_buffer demo_env demo_buffer demo_tuple _ new_snap 20 20
    demo_env_ok demo_env_ok _ demo_hints (demo_snap_ok new_snap ltac:(set_solver) eq_refl eq_refl eq_refl) _ _ eq_refl _ _ _).
  - split; done.
  - unfold normal_full. vm_compute. intuition discriminate.
  - unfold normal_full. vm_compute. intuition discriminate.
  - lia.
  - intros x Hx _. vm_compute in Hx. injection Hx as <-. exists 12. split; [reflexivity|]. split; [|lia]. unfold normal_full. vm_compute. intuition discriminate.
  - vm_compute. reflexivity.
Defined.

(** ** Sorted id arrays *)
Lemma sorted_nthZ l i j : StronglySorted Z.le l -> 0 <= i <= j -> j < Z.of_nat (length l) -> nthZ l i <= nthZ l j.
Proof.
  intros Hs Hij Hj. unfold nthZ. rewrite !nth_lookup.
  destruct (lookup_lt_is_Some_2 l (Z.to_nat i)) as [a Ha]; [lia|]. destruct (lookup_lt_is_Some_2 l (Z.to_nat j)) as [b Hb]; [lia|]. rewrite Ha, Hb. cbn.
  destruct (decide (i = j)) as [->|Hne]; [naive_solver lia|]. assert (Hlt : (Z.to_nat i < Z.to_nat j)%nat) by lia. clear Hij Hj Hne.
  revert Ha Hb Hlt. generalize (Z.to_nat i) (Z.to_nat j). induction Hs as [|y l Hs IH Hy]; intros n k Ha Hb Hlt; [done|].
  destruct n, k; try lia; cbn in *; [|eapply IH; [exact Ha|exact Hb|lia]]. injection Ha as ->. by eapply Forall_lookup_1 in Hb.
Qed.

Lemma xid_bsearch_ok key l : StronglySorted Z.le l -> forall fuel lo hi, 0 <= lo -> hi <= Z.of_nat (length l) -> hi - lo < Z.of_nat fuel ->
  xid_bsearch fuel key l lo hi = true <-> exists i, lo <= i < hi /\ nthZ l i = key.
Proof.
  intros Hs. induction fuel as [|fuel IH]; intros lo hi Hlo Hhi Hf; [split; [done|intros (i & ? & _); lia]|]. cbn [xid_bsearch].
  destruct (Z.ltb_spec lo hi); [|split; [done|intros (i & ? & _); lia]]. set (mid := (lo + hi) / 2).
  assert (Hmid : lo <= mid < hi) by (unfold mid; Z.to_euclidean_division_equations; lia). destruct (Z.ltb_spec key (nthZ l mid)) as [Hk|Hk].
  - rewrite IH by lia. split; intros (i & Hi & <-); exists i; (split; [|done]); [lia|]. destruct (Z.lt_ge_cases i mid); [lia|].
    pose proof (sorted_nthZ l mid i Hs). lia.
  - destruct (Z.ltb_spec (nthZ l mid) key) as [Hk2|Hk2].
    + rewrite IH by lia. split; intros (i & Hi & <-); exists i; (split; [|done]); [lia|]. destruct (Z.lt_ge_cases mid i); [lia|].
      pose proof (sorted_nthZ l i mid Hs). lia.
    + split; [intros _; exists mid; lia|done].
Qed.

(** Binary search on a sorted array finds exactly its members. *)
Lemma transaction_id_in_array x l : StronglySorted Z.le l -> TransactionIdInArray x l = true <-> x ∈ l.
Proof.
  intros Hs. unfold TransactionIdInArray. rewrite andb_true_iff, xid_bsearch_ok by (done || lia). rewrite list_elem_of_lookup. split.
  - intros [_ (i & Hi & <-)]. exists (Z.to_nat i). unfold nthZ. rewrite nth_lookup. destruct (lookup_lt_is_Some_2 l (Z.to_nat i)) as [a Ha]; [lia|]. by rewrite Ha.
  - intros [i Hi]. pose proof (lookup_lt_Some _ _ _ Hi). split; [apply Z.ltb_lt; lia|]. exists (Z.of_nat i). split; [lia|]. unfold nthZ. rewrite Nat2Z.id, nth_lookup. by rewrite Hi.
Qed.
