(* ===== verification/HeapPrune.v ===== *)
(** Heap pruning and HOT chains: [src/backend/access/heap/pruneheap.c], and the chain
    search of an index scan, [heap_hot_search_buffer] of [heapam.c].

    The functions work on the bytes of a page as modelled in [BufPage]; tuple headers
    are read from the page, and the hint bits that the visibility checks set are
    written back to it.  The arrays of [PruneState] are lists: storing past the end of
    one is [Undef]. *)
From S2P Require Import Prelude ByteMem BufPage Transam HeapTup HeapVis.

(** ** Line pointers and headers on the page *)
Definition ItemIdIsNormal (l : ItemIdData) : bool := lp_flags l =? LP_NORMAL.
Definition ItemIdIsRedirected (l : ItemIdData) : bool := lp_flags l =? LP_REDIRECT.
Definition ItemIdIsDead (l : ItemIdData) : bool := lp_flags l =? LP_DEAD.
Definition ItemIdGetRedirect (l : ItemIdData) : Z := lp_off l.
Definition ItemIdSetRedirect (l : ItemIdData) (link : Z) : ItemIdData := mkItemId link LP_REDIRECT 0.
Definition ItemIdSetDead (l : ItemIdData) : ItemIdData := mkItemId 0 LP_DEAD 0.

Definition SizeofHeapTupleHeader : Z := 23.

(** The header at an address: [t_xmin], [t_xmax], [t_cid], the two halves of the block
    number and the offset number of [t_ctid], the two masks. *)
Definition header_at (p : list Z) (a : Z) : HeapTupleHeaderData :=
  mkTup (get32 p a) (get32 p (a + 4)) (get32 p (a + 8)) (get16 p (a + 12) * 65536 + get16 p (a + 14)) (get16 p (a + 16))
    (get16 p (a + 18)) (get16 p (a + 20)).
Definition tuple_header (p : Page) (l : ItemIdData) : res HeapTupleHeaderData :=
  if in_object p (ItemIdGetOffset l) SizeofHeapTupleHeader then Ok (header_at p (ItemIdGetOffset l)) else Undef.
Definition store_infomask (p : Page) (l : ItemIdData) (m : Z) : Page := put16 p (ItemIdGetOffset l + 20) (wrapu 16 m).

Definition pd_prune_xid (p : Page) : Z := get32 p 20.
Definition set_pd_prune_xid (p : Page) (xid : Z) : Page := put32 p 20 (wrapu 32 xid).
Definition PD_PAGE_FULL : Z := 2.
Definition PageIsFull (p : Page) : bool := negb (Z.land (pd_flags p) PD_PAGE_FULL =? 0).
Definition PageClearFull (p : Page) : Page := set_pd_flags p (Z.land (pd_flags p) (notu 32 PD_PAGE_FULL)).
Definition PageSetLSN (p : Page) (lsn : Z) : Page := put32 (put32 p 0 (wrapu 32 (Z.shiftr lsn 32))) 4 (wrapu 32 lsn).

(** ** State *)
Record PruneState := mkPrune {
  oldest_xmin : Z;
  old_snap_ts : Z;
  old_snap_xmin : Z;
  old_snap_used : bool;
  new_prune_xid : Z;
  snapshotConflictHorizon : Z;
  redirected : list (Z * Z);
  nowdead : list Z;
  nowunused : list Z;
  marked : list bool;
  htsv : list (option HTSV_Result);
  (** the argument of [SetOldSnapshotThresholdTimestamp], if it was called *)
  threshold : option (Z * Z) }.

(** The horizons of the relation: [GlobalVisTestIsRemovableXid], whether
    [old_snapshot_threshold] is active, and what
    [TransactionIdLimitedForOldSnapshots] stores. *)
Record horizons := mkHorizons {
  vistest : Z -> bool;
  OldSnapshotThresholdActive : bool;
  TransactionIdLimitedForOldSnapshots : option (Z * Z) }.

Definition set_old_snap (s : PruneState) (xmin ts : Z) (used : bool) (th : option (Z * Z)) : PruneState :=
  mkPrune (oldest_xmin s) ts xmin used (new_prune_xid s) (snapshotConflictHorizon s) (redirected s) (nowdead s) (nowunused s)
    (marked s) (htsv s) th.
Definition set_htsv (s : PruneState) (h : list (option HTSV_Result)) : PruneState :=
  mkPrune (oldest_xmin s) (old_snap_ts s) (old_snap_xmin s) (old_snap_used s) (new_prune_xid s) (snapshotConflictHorizon s)
    (redirected s) (nowdead s) (nowunused s) (marked s) h (threshold s).
Definition set_xids (s : PruneState) (prune horizon : Z) : PruneState :=
  mkPrune (oldest_xmin s) (old_snap_ts s) (old_snap_xmin s) (old_snap_used s) prune horizon
    (redirected s) (nowdead s) (nowunused s) (marked s) (htsv s) (threshold s).
Definition set_arrays (s : PruneState) (r : list (Z * Z)) (d u : list Z) (m : list bool) : PruneState :=
  mkPrune (oldest_xmin s) (old_snap_ts s) (old_snap_xmin s) (old_snap_used s) (new_prune_xid s) (snapshotConflictHorizon s)
    r d u m (htsv s) (threshold s).

(** ** Visibility of one tuple *)
Definition heap_prune_satisfies_vacuum (V : horizons) (E : xact_state) (buffer : BufferState) (s : PruneState)
    (tup : HeapTupleHeaderData) : HeapTupleHeaderData * PruneState * HTSV_Result :=
  let '(tup, r, dead_after) := HeapTupleSatisfiesVacuumHorizon E buffer tup in
  if negb (bool_decide (r = HEAPTUPLE_RECENTLY_DEAD)) then (tup, s, r)
  else if old_snap_used s then
    (tup, s, if TransactionIdPrecedes dead_after (old_snap_xmin s) then HEAPTUPLE_DEAD else r)
  else if TransactionIdIsValid (oldest_xmin s) && NormalTransactionIdPrecedes dead_after (oldest_xmin s) then (tup, s, HEAPTUPLE_DEAD)
  else if vistest V dead_after then (tup, s, HEAPTUPLE_DEAD)
  else if OldSnapshotThresholdActive V then
    let s :=
      if negb (TransactionIdIsValid (old_snap_xmin s)) then
        match TransactionIdLimitedForOldSnapshots V with
        | Some (xmin, ts) => set_old_snap s xmin ts (old_snap_used s) (threshold s)
        | None => s
        end
      else s in
    if TransactionIdIsValid (old_snap_xmin s) && TransactionIdPrecedes dead_after (old_snap_xmin s)
    then (tup, set_old_snap s (old_snap_xmin s) (old_snap_ts s) true (Some (old_snap_ts s, old_snap_xmin s)), HEAPTUPLE_DEAD)
    else (tup, s, r)
  else (tup, s, r).

(** The first loop of [heap_page_prune]: the status of every tuple, from the last
    line pointer to the first.  [E] gives the state of transactions when each tuple
    is checked. *)
Fixpoint htsv_loop (V : horizons) (E : Z -> xact_state) (buffer : BufferState) (n : nat) (p : Page) (s : PruneState) : res (Page * PruneState) :=
  match n with
  | O => Ok (p, s)
  | S n' =>
    let offnum := Z.of_nat n in
    itemid ← load_lp p (PageGetItemId offnum);
    if negb (ItemIdIsNormal itemid) then
      h ← aset (htsv s) offnum None;
      htsv_loop V E buffer n' p (set_htsv s h)
    else
      htup ← tuple_header p itemid;
      let '(htup, s, r) := heap_prune_satisfies_vacuum V (E offnum) buffer s htup in
      h ← aset (htsv s) offnum (Some r);
      htsv_loop V E buffer n' (store_infomask p itemid (t_infomask htup)) (set_htsv s h)
  end.

(** ** Recording decisions *)
Definition heap_prune_record_prunable (s : PruneState) (xid : Z) : PruneState :=
  if negb (TransactionIdIsValid (new_prune_xid s)) || TransactionIdPrecedes xid (new_prune_xid s)
  then set_xids s xid (snapshotConflictHorizon s) else s.

(** Appending to an array of [n] entries. *)
Definition push {A} (n : Z) (l : list A) (x : A) : res (list A) :=
  if lenZ l <? n then Ok (l ++ [x]) else Undef.

Definition heap_prune_record_redirect (s : PruneState) (offnum rdoffnum : Z) : res PruneState :=
  r ← push MaxHeapTuplesPerPage (redirected s) (offnum, rdoffnum);
  m ← aset (marked s) offnum true;
  m ← aset m rdoffnum true;
  Ok (set_arrays s r (nowdead s) (nowunused s) m).
Definition heap_prune_record_dead (s : PruneState) (offnum : Z) : res PruneState :=
  d ← push MaxHeapTuplesPerPage (nowdead s) offnum;
  m ← aset (marked s) offnum true;
  Ok (set_arrays s (redirected s) d (nowunused s) m).
Definition heap_prune_record_unused (s : PruneState) (offnum : Z) : res PruneState :=
  u ← push MaxHeapTuplesPerPage (nowunused s) offnum;
  m ← aset (marked s) offnum true;
  Ok (set_arrays s (redirected s) (nowdead s) u m).

Section Chains.
(** The state of transactions while the chains are examined. *)
Context (E : xact_state).

Definition HeapTupleHeaderAdvanceConflictHorizon (tuple : HeapTupleHeaderData) (horizon : Z) : Z :=
  let xmin := HeapTupleHeaderGetXmin tuple in
  let xmax := HeapTupleHeaderGetUpdateXid E tuple in
  let xvac := HeapTupleHeaderGetXvac tuple in
  let horizon := if has (t_infomask tuple) HEAP_MOVED && TransactionIdPrecedes horizon xvac then xvac else horizon in
  if HeapTupleHeaderXminCommitted tuple || (negb (HeapTupleHeaderXminInvalid tuple) && TransactionIdDidCommit E xmin) then
    if negb (xmax =? xmin) && TransactionIdFollows xmax horizon then xmax else horizon
  else horizon.

(** ** Following one chain *)
(** The walk: the state, the chain and the last dead tuple. *)
Fixpoint chain_loop (fuel : nat) (dp : Page) (maxoff : Z) (rootlp : ItemIdData) (offnum priorXmax : Z) (s : PruneState)
    (chain : list Z) (latestdead : Z) : res (PruneState * list Z * Z) :=
  match fuel with
  | O => OutOfFuel
  | S fuel =>
    if offnum <? FirstOffsetNumber then Ok (s, chain, latestdead)
    else if maxoff <? offnum then Ok (s, chain, latestdead)
    else
      m ← aget (marked s) offnum;
      if (m : bool) then Ok (s, chain, latestdead)
      else
        lp ← load_lp dp (PageGetItemId offnum);
        if negb (ItemIdIsUsed lp) then Ok (s, chain, latestdead)
        else if ItemIdIsRedirected lp then
          if 0 <? lenZ chain then Ok (s, chain, latestdead)
          else
            chain ← push MaxHeapTuplesPerPage chain offnum;
            chain_loop fuel dp maxoff rootlp (ItemIdGetRedirect rootlp) priorXmax s chain latestdead
        else if ItemIdIsDead lp then Ok (s, chain, latestdead)
        else
          htup ← tuple_header dp lp;
          if TransactionIdIsValid priorXmax && negb (TransactionIdEquals (HeapTupleHeaderGetXmin htup) priorXmax)
          then Ok (s, chain, latestdead)
          else
            chain ← push MaxHeapTuplesPerPage chain offnum;
            st ← aget (htsv s) offnum;
            match st with
            | None => Err "unexpected HeapTupleSatisfiesVacuum result"
            | Some r =>
              let s := match r with
                       | HEAPTUPLE_RECENTLY_DEAD | HEAPTUPLE_DELETE_IN_PROGRESS =>
                         heap_prune_record_prunable s (HeapTupleHeaderGetUpdateXid E htup)
                       | _ => s
                       end in
              let tupdead := bool_decide (r = HEAPTUPLE_DEAD) in
              let recent_dead := bool_decide (r = HEAPTUPLE_RECENTLY_DEAD) in
              let s := if tupdead then set_xids s (new_prune_xid s) (HeapTupleHeaderAdvanceConflictHorizon htup (snapshotConflictHorizon s)) else s in
              let latestdead := if tupdead then offnum else latestdead in
              if negb tupdead && negb recent_dead then Ok (s, chain, latestdead)
              else if negb (HeapTupleHeaderIsHotUpdated htup) then Ok (s, chain, latestdead)
              else chain_loop fuel dp maxoff rootlp (ctid_posid htup) (HeapTupleHeaderGetUpdateXid E htup) s chain latestdead
            end
  end.

(** The loop that removes the chain members up to the last dead one, from the
    second on: [prev] is the member before the rest of the chain.  It returns the
    members that stay. *)
Fixpoint unused_loop (prev : Z) (rest : list Z) (latestdead : Z) (s : PruneState) (ndeleted : Z) : res (PruneState * list Z * Z) :=
  match rest with
  | [] => Ok (s, [], ndeleted)
  | x :: rest' =>
    if prev =? latestdead then Ok (s, rest, ndeleted)
    else
      s ← heap_prune_record_unused s x;
      unused_loop x rest' latestdead s (ndeleted + 1)
  end.

Definition chain_finish (rootoffnum : Z) (rootlp : ItemIdData) (s : PruneState) (chain : list Z) (latestdead : Z) : res (PruneState * Z) :=
  if OffsetNumberIsValid latestdead then
    '(s, rest, ndeleted) ← match chain with [] => Ok (s, [], 0) | c0 :: rest => unused_loop c0 rest latestdead s 0 end;
    let ndeleted := if ItemIdIsNormal rootlp then ndeleted + 1 else ndeleted in
    s ← match rest with
        | [] => heap_prune_record_dead s rootoffnum
        | x :: _ => heap_prune_record_redirect s rootoffnum x
        end;
    Ok (s, ndeleted)
  else if (lenZ chain <? 2) && ItemIdIsRedirected rootlp then
    s ← heap_prune_record_dead s rootoffnum;
    Ok (s, 0)
  else Ok (s, 0).

Definition heap_prune_chain (dp : Page) (rootoffnum : Z) (s : PruneState) : res (PruneState * Z) :=
  let maxoff := PageGetMaxOffsetNumber dp in
  rootlp ← load_lp dp (PageGetItemId rootoffnum);
  let walk :=
    '(s, chain, latestdead) ← chain_loop (S (S (Z.to_nat MaxHeapTuplesPerPage))) dp maxoff rootlp rootoffnum InvalidTransactionId s [] InvalidOffsetNumber;
    chain_finish rootoffnum rootlp s chain latestdead in
  if ItemIdIsNormal rootlp then
    htup ← tuple_header dp rootlp;
    if HeapTupleHeaderIsHeapOnly htup then
      h ← aget (htsv s) rootoffnum;
      if bool_decide (h = Some HEAPTUPLE_DEAD) && negb (HeapTupleHeaderIsHotUpdated htup) then
        s ← heap_prune_record_unused s rootoffnum;
        Ok (set_xids s (new_prune_xid s) (HeapTupleHeaderAdvanceConflictHorizon htup (snapshotConflictHorizon s)), 1)
      else Ok (s, 0)
    else walk
  else walk.

(** The second loop of [heap_page_prune]: [rounds] line pointers from [offnum] on. *)
Fixpoint scan_loop (rounds : nat) (p : Page) (offnum : Z) (s : PruneState) (ndeleted : Z) : res (PruneState * Z) :=
  match rounds with
  | O => Ok (s, ndeleted)
  | S rounds =>
    m ← aget (marked s) offnum;
    if (m : bool) then scan_loop rounds p (offnum + 1) s ndeleted
    else
      itemid ← load_lp p (PageGetItemId offnum);
      if negb (ItemIdIsUsed itemid) || ItemIdIsDead itemid then scan_loop rounds p (offnum + 1) s ndeleted
      else
        '(s, n) ← heap_prune_chain p offnum s;
        scan_loop rounds p (offnum + 1) s (ndeleted + n)
  end.
End Chains.

(** ** Applying the decisions *)
Definition update_lp (p : Page) (off : Z) (f : ItemIdData -> ItemIdData) : res Page :=
  lp ← load_lp p (PageGetItemId off);
  store_lp p (PageGetItemId off) (f lp).

Fixpoint apply_redirects (p : Page) (l : list (Z * Z)) : res Page :=
  match l with
  | [] => Ok p
  | (fromoff, tooff) :: l => p ← update_lp p fromoff (fun lp => ItemIdSetRedirect lp tooff); apply_redirects p l
  end.
Fixpoint apply_each (f : ItemIdData -> ItemIdData) (p : Page) (l : list Z) : res Page :=
  match l with
  | [] => Ok p
  | off :: l => p ← update_lp p off f; apply_each f p l
  end.

(** [scratch] is the uninitialised buffer of [PageRepairFragmentation]. *)
Definition heap_page_prune_execute (p : Page) (r : list (Z * Z)) (d u : list Z) (scratch : list Z) : res Page :=
  p ← apply_redirects p r;
  p ← apply_each ItemIdSetDead p d;
  p ← apply_each ItemIdSetUnused p u;
  PageRepairFragmentation p scratch.

(** The critical section of [heap_page_prune].  [wal] is the position of the log record,
    if the relation is logged. *)
Definition prune_write (wal : option Z) (scratch : list Z) (p : Page) (s : PruneState) : res Page :=
  if (0 <? lenZ (redirected s)) || (0 <? lenZ (nowdead s)) || (0 <? lenZ (nowunused s)) then
    p ← heap_page_prune_execute p (redirected s) (nowdead s) (nowunused s) scratch;
    let p := PageClearFull (set_pd_prune_xid p (new_prune_xid s)) in
    Ok (match wal with Some recptr => PageSetLSN p recptr | None => p end)
  else if negb (pd_prune_xid p =? new_prune_xid s) || PageIsFull p
  then Ok (PageClearFull (set_pd_prune_xid p (new_prune_xid s)))
  else Ok p.

(** ** The whole page: the new page, the number of tuples deleted and of line pointers
    set dead, and the final state. *)
Definition heap_page_prune (V : horizons) (E : Z -> xact_state) (E1 : xact_state) (buffer : BufferState) (wal : option Z) (scratch : list Z)
    (p : Page) (oldest_xmin old_snap_xmin old_snap_ts : Z) : res (Page * Z * Z * PruneState) :=
  let s := mkPrune oldest_xmin old_snap_ts old_snap_xmin false InvalidTransactionId InvalidTransactionId [] [] []
             (replicate (S (Z.to_nat MaxHeapTuplesPerPage)) false) (replicate (S (Z.to_nat MaxHeapTuplesPerPage)) None) None in
  let maxoff := PageGetMaxOffsetNumber p in
  '(p, s) ← htsv_loop V E buffer (Z.to_nat maxoff) p s;
  '(s, ndeleted) ← scan_loop E1 (Z.to_nat maxoff) p FirstOffsetNumber s 0;
  p ← prune_write wal scratch p s;
  Ok (p, ndeleted, lenZ (nowdead s), s).
