(* ===== verification/HeapPruneChain.v ===== *)
(** Following HOT chains: the graph of line pointers on a page, and what
    [heap_prune_chain] records for one chain. *)
From S2P Require Import Prelude ByteMem BufPage BufPageLayout BufPageSpec Transam HeapTup HeapVis HeapPrune.

(** ** The page as a graph *)
Section Graph.
Context (E : xact_state) (p : Page).

(** Line pointers are numbered from 1. *)
Definition lpi (i : Z) : ItemIdData := lp p (i - 1).
Definition in_page (i : Z) : Prop := 1 <= i <= nline p.
Definition is_tuple (i : Z) : Prop := in_page i /\ lp_flags (lpi i) = LP_NORMAL.
Definition is_redirect (i t : Z) : Prop := in_page i /\ lp_flags (lpi i) = LP_REDIRECT /\ lp_off (lpi i) = t.
Definition hdr (i : Z) : HeapTupleHeaderData := header_at p (lp_off (lpi i)).
Definition heap_only (i : Z) : Prop := HeapTupleHeaderIsHeapOnly (hdr i) = true.
Definition hot (i : Z) : Prop := HeapTupleHeaderIsHotUpdated (hdr i) = true.
Definition update_xid (i : Z) : Z := HeapTupleHeaderGetUpdateXid E (hdr i).

(** [j] continues a chain that reaches it with [prior] as the last xmax. *)
Definition joins (prior j : Z) : Prop :=
  is_tuple j /\ (TransactionIdIsValid prior = true -> HeapTupleHeaderGetXmin (hdr j) = prior).
Definition edge (i j : Z) : Prop :=
  is_redirect i j /\ is_tuple j \/ is_tuple i /\ hot i /\ ctid_posid (hdr i) = j /\ joins (update_xid i) j.

(** A page whose chains are sound: redirects and links lead to heap-only tuples, no
    tuple has two predecessors, and there is no cycle. *)
Record hot_graph : Prop := {
  hg_redirect : forall i t, is_redirect i t -> is_tuple t;
  hg_heap_only : forall i j, edge i j -> heap_only j;
  hg_unique : forall i j k, edge i k -> edge j k -> i = j;
  hg_rank : exists rank : Z -> nat, forall i j, edge i j -> (rank i < rank j)%nat }.

(** Heap pages: every tuple has a header, redirects have no storage, and the arrays have
    room for every line. *)
Record heap_lines : Prop := {
  hl_ok : PageOK p;
  hl_heap : heap_page p;
  hl_normal : forall i, is_tuple i -> SizeofHeapTupleHeader <= lp_len (lpi i);
  hl_redirect : forall i t, is_redirect i t -> lp_len (lpi i) = 0;
  hl_lines : nline p <= MaxHeapTuplesPerPage }.

Fixpoint path (l : list Z) : Prop :=
  match l with
  | x :: (y :: _) as l' => edge x y /\ path l'
  | _ => True
  end.

Lemma path_snoc l x y : path (l ++ [x]) -> edge x y -> path (l ++ [x; y]).
Proof.
  induction l as [|a l IH]; intros Hp He; [by split|]. destruct l as [|b l]; cbn [app path] in *.
  - destruct Hp as [Ha _]. by split.
  - destruct Hp as [Ha Hp]. split; [done|]. by apply IH.
Qed.

Lemma path_app_l l1 l2 : path (l1 ++ l2) -> path l1.
Proof. induction l1 as [|a l1 IH]; [done|]. destruct l1 as [|b l1]; [done|]. cbn in *. intros [? ?]. split; [done|]. by apply IH. Qed.
Lemma path_app_r l1 l2 : path (l1 ++ l2) -> path l2.
Proof. induction l1 as [|a l1 IH]; [done|]. cbn. destruct (l1 ++ l2) eqn:El; [|intros [_ ?]; by apply IH]. intros _. by apply app_eq_nil in El as [-> ->]. Qed.
Lemma path_edge l1 x y l2 : path (l1 ++ x :: y :: l2) -> edge x y.
Proof. intros H. apply path_app_r in H. by destruct H. Qed.

(** A member of a path but the first has its predecessor on the path. *)
Lemma path_pred r us u : path (r :: us) -> u ∈ us -> exists x, x ∈ r :: us /\ edge x u.
Proof.
  revert r. induction us as [|y us IH]; intros r Hp Hu; [by apply elem_of_nil in Hu|]. destruct Hp as [He Hp].
  apply elem_of_cons in Hu as [->|Hu]; [exists r; split; [set_solver|done]|]. destruct (IH y Hp Hu) as (x & Hx & Hxu). exists x. split; [set_solver|done].
Qed.

Section Ranked.
Context (Hg : hot_graph).

Lemma path_rank rank l : (forall i j, edge i j -> (rank i < rank j)%nat) -> path l -> StronglySorted (fun i j => (rank i < rank j)%nat) l.
Proof.
  intros Hr. induction l as [|x l IH]; [constructor|]. intros Hp. destruct l as [|y l]; [repeat constructor|]. destruct Hp as [He Hp]. specialize (IH Hp).
  constructor; [done|]. constructor; [by apply Hr|]. apply StronglySorted_inv in IH as [_ Hy]. eapply Forall_impl; [exact Hy|]. cbn. intros z Hz. pose proof (Hr _ _ He). lia.
Qed.

Lemma path_nodup l : path l -> NoDup l.
Proof.
  intros Hp. destruct (hg_rank Hg) as [rank Hr]. pose proof (path_rank rank l Hr Hp) as Hs. clear Hp. induction Hs as [|x l _ IH Hx]; constructor; [|done].
  intros Hin. rewrite Forall_forall in Hx. specialize (Hx x Hin). lia.
Qed.

Lemma edge_tuple i j : edge i j -> is_tuple j.
Proof. by intros [[_ H]|(_ & _ & _ & H & _)]. Qed.

Lemma edge_fun i j k : edge i j -> edge i k -> j = k.
Proof.
  intros [[(_ & Hf & Ho) _]|((_ & Hf) & _ & Hc & _)] [[(_ & Hf' & Ho') _]|((_ & Hf') & _ & Hc' & _)]; try congruence.
  - rewrite Hf in Hf'. done.
  - rewrite Hf in Hf'. done.
Qed.

Lemma path_tuples r us u : path (r :: us) -> u ∈ us -> is_tuple u /\ heap_only u.
Proof. intros Hp Hu. destruct (path_pred r us u Hp Hu) as (x & _ & He). split; [by eapply edge_tuple|by eapply hg_heap_only]. Qed.
End Ranked.
End Graph.

(** ** One walk *)
Section Walk.
Context (E : xact_state) (p : Page) (st : Z -> option HTSV_Result).
Context (Hl : heap_lines p) (Hg : hot_graph E p).
Context (Hst : forall i, is_tuple p i <-> in_page p i /\ st i <> None).

Definition is_marked (s : PruneState) (i : Z) : Prop := marked s !! Z.to_nat i = Some true.
Definition dead (i : Z) : Prop := st i = Some HEAPTUPLE_DEAD.
Definition dying (i : Z) : Prop := dead i \/ st i = Some HEAPTUPLE_RECENTLY_DEAD.

(** The working arrays have their size, and hold the statuses. *)
Record arrays_ok (s : PruneState) : Prop := {
  ar_marked : lenZ (marked s) = MaxHeapTuplesPerPage + 1;
  ar_htsv : lenZ (htsv s) = MaxHeapTuplesPerPage + 1;
  ar_status : forall i, in_page p i -> htsv s !! Z.to_nat i = Some (st i) }.

(** The walk changes no array. *)
Definition same_plan (s s' : PruneState) : Prop :=
  redirected s' = redirected s /\ nowdead s' = nowdead s /\ nowunused s' = nowunused s /\ marked s' = marked s /\ htsv s' = htsv s.

Lemma load_ok i : in_page p i -> load_lp p (PageGetItemId i) = Ok (lpi p i).
Proof.
  intros Hi. pose proof (ok_nline p (hl_ok _ Hl)) as [_ Hn]. apply load_lp_ok; [apply Hl|]. unfold in_page in Hi. lia.
Qed.

Lemma header_ok i : is_tuple p i -> tuple_header p (lpi p i) = Ok (hdr p i).
Proof.
  intros Hi. pose proof (hl_normal _ Hl i Hi) as Hlen. destruct Hi as [[Hi1 Hi2] Hf]. unfold tuple_header, ItemIdGetOffset.
  pose proof (ok_lps p (hl_ok _ Hl) (i - 1) ltac:(lia)) as [_ Hs]. fold (lpi p i) in Hs. destruct Hs as (Hu & _ & Hend); [unfold SizeofHeapTupleHeader in *; lia|].
  pose proof (alen_bounds _ (lp_is_wf p (i - 1))) as [Ha _]. fold (lpi p i) in Ha. pose proof (ok_layout p (hl_ok _ Hl)) as []. pose proof (ok_len p (hl_ok _ Hl)).
  rewrite (proj2 (in_object_spec _ _ _)); [done|]. unfold SizeofHeapTupleHeader in *. psizes. lia.
Qed.

Lemma mark_ok s i : arrays_ok s -> in_page p i -> exists b, aget (marked s) i = Ok b /\ (b = true <-> is_marked s i).
Proof.
  intros Ha Hi. pose proof (ar_marked _ Ha) as Hm. pose proof (hl_lines _ Hl) as Hn. unfold in_page in Hi. unfold lenZ in Hm.
  destruct (lookup_lt_is_Some_2 (marked s) (Z.to_nat i)) as [b Hb]; [lia|]. exists b. split; [apply aget_Ok; split; [lia|done]|]. unfold is_marked. rewrite Hb. naive_solver.
Qed.

Lemma status_ok s i : arrays_ok s -> in_page p i -> aget (htsv s) i = Ok (st i).
Proof. intros Ha Hi. apply aget_Ok. split; [unfold in_page in Hi; lia|]. by apply Ha. Qed.

Context (r : Z).
Definition root_ok (s : PruneState) : Prop :=
  in_page p r /\ ~ is_marked s r /\ lp_flags (lpi p r) <> LP_UNUSED /\ lp_flags (lpi p r) <> LP_DEAD.

Definition dead_split (chain : list Z) (ld : Z) : Prop :=
  ld = 0 /\ (forall y, y ∈ chain -> ~ dead y) \/
  exists a b, chain = a ++ ld :: b /\ dead ld /\ forall y, y ∈ b -> ~ dead y.

(** [x] is the last member so far and leads to [offnum]. *)
Definition pending (x offnum prior : Z) : Prop :=
  is_redirect p x offnum /\ prior = InvalidTransactionId \/
  is_tuple p x /\ hot p x /\ ctid_posid (hdr p x) = offnum /\ prior = update_xid E p x.

Record chain_ok (s : PruneState) (chain : list Z) (ld : Z) : Prop := {
  co_root : exists c, chain = r :: c;
  co_path : path E p chain;
  co_unmarked : forall y, y ∈ chain -> ~ is_marked s y;
  co_pages : forall y, y ∈ chain -> in_page p y;
  co_dead : dead_split chain ld }.

Definition walking (s : PruneState) (chain : list Z) (ld offnum prior : Z) : Prop :=
  chain = [] /\ ld = 0 /\ offnum = r /\ prior = InvalidTransactionId \/
  chain_ok s chain ld /\ (forall y, y ∈ chain -> is_tuple p y -> dying y) /\ exists c x, chain = c ++ [x] /\ pending x offnum prior.

Definition walked (s : PruneState) (chain : list Z) (ld : Z) : Prop :=
  chain_ok s chain ld /\ exists c x, chain = c ++ [x] /\ (forall y, y ∈ c -> is_tuple p y -> dying y) /\
    (is_tuple p x /\ ~ dying x \/ (is_tuple p x -> dying x) /\ forall y, edge E p x y -> is_marked s y).

(** The next member, if any, is [offnum]. *)
Lemma pending_edge x offnum prior y : pending x offnum prior -> edge E p x y -> y = offnum /\ joins p prior y.
Proof.
  intros [[(Hx & Hf & Ho) ->]|((Hx & Hf) & Hh & Hc & ->)] [[(_ & Hf' & Ho') Ht]|((_ & Hf') & _ & Hc' & Hj)]; try (rewrite Hf in Hf'; done).
  - split; [congruence|]. split; [done|]. by unfold TransactionIdIsValid.
  - split; [congruence|done].
Qed.

Lemma edge_pending x offnum prior : pending x offnum prior -> joins p prior offnum -> edge E p x offnum.
Proof. intros [[Hr ->]|(Hx & Hh & Hc & ->)] Hj; [left; split; [done|apply Hj]|right; by split_and!]. Qed.

(** The walk ends here. *)
Lemma walk_end s chain ld offnum prior : root_ok s -> walking s chain ld offnum prior ->
  (joins p prior offnum -> chain <> [] -> is_marked s offnum) -> (chain = [] -> False) -> walked s chain ld.
Proof.
  intros Hr Hw Hj Hne. destruct Hw as [(-> & _)|(Hc & Hdy & c & x & -> & Hp)]; [done|]. split; [done|]. exists c, x. split; [done|]. split.
  - intros y Hy. apply Hdy. set_solver.
  - right. split; [apply Hdy; set_solver|]. intros y He. destruct (pending_edge x offnum prior y Hp He) as [-> Hjoin]. apply Hj; [done|]. by destruct c.
Qed.

(** Appending a member. *)
Lemma chain_push s chain ld offnum prior : root_ok s -> walking s chain ld offnum prior -> in_page p offnum -> ~ is_marked s offnum ->
  (chain <> [] -> joins p prior offnum) ->
  push MaxHeapTuplesPerPage chain offnum = Ok (chain ++ [offnum]) /\ path E p (chain ++ [offnum]) /\ (exists c, chain ++ [offnum] = r :: c) /\
  (forall y, y ∈ chain ++ [offnum] -> ~ is_marked s y) /\ (forall y, y ∈ chain ++ [offnum] -> in_page p y).
Proof.
  intros Hr Hw Hi Hm Hj. assert (Hpath : path E p (chain ++ [offnum]) /\ exists c, chain ++ [offnum] = r :: c).
  { destruct Hw as [(-> & _ & -> & _)|(Hc & Hdy & c & x & -> & Hp)]; [split; [done|by exists []]|]. split.
    - rewrite <- app_assoc. apply path_snoc; [apply Hc|]. eapply edge_pending; [done|]. apply Hj. by destruct c.
    - destruct (co_root _ _ _ Hc) as [c' ->]. by eexists. }
  destruct Hpath as [Hpath Hroot]. assert (Hin : forall y, y ∈ chain ++ [offnum] -> ~ is_marked s y /\ in_page p y).
  { intros y [Hy|Hy%list_elem_of_singleton]%elem_of_app; [|by subst]. destruct Hw as [(-> & _)|(Hc & _)]; [by apply elem_of_nil in Hy|]. split; by apply Hc. }
  split_and!; [|done|done|by apply Hin|by apply Hin].
  unfold push. destruct (Z.ltb_spec (lenZ chain) MaxHeapTuplesPerPage) as [|Hge]; [done|exfalso].
  pose proof (path_nodup E p Hg _ Hpath) as Hnd. pose proof (hl_lines _ Hl) as Hn.
  assert (Hsub : chain ++ [offnum] ⊆+ seqZ 1 (nline p)).
  { apply NoDup_submseteq; [done|]. intros y Hy. apply elem_of_seqZ. destruct (Hin y Hy) as [_ [? ?]]. lia. }
  apply submseteq_length in Hsub. rewrite length_app, length_seqZ in Hsub. unfold lenZ in Hge. cbn in Hsub. lia.
Qed.

Lemma dead_split_dead chain offnum : dead offnum -> dead_split (chain ++ [offnum]) offnum.
Proof. intros Hd. right. exists chain, []. split_and!; [done|done|]. intros y Hy. by apply elem_of_nil in Hy. Qed.
Lemma dead_split_alive chain ld offnum : dead_split chain ld -> ~ dead offnum -> dead_split (chain ++ [offnum]) ld.
Proof.
  intros [[-> Hd]|(a & b & -> & Hd & Hb)] Ho.
  - left. split; [done|]. intros y [Hy|Hy%list_elem_of_singleton]%elem_of_app; [by apply Hd|by subst].
  - right. exists a, (b ++ [offnum]). rewrite <- app_assoc. split_and!; [done|done|]. intros y [Hy|Hy%list_elem_of_singleton]%elem_of_app; [by apply Hb|by subst].
Qed.

Lemma same_refl s : same_plan s s.
Proof. by split_and!. Qed.
Lemma same_marked s s' i : same_plan s s' -> is_marked s' i <-> is_marked s i.
Proof. intros (_ & _ & _ & Hm & _). unfold is_marked. by rewrite Hm. Qed.
Lemma same_arrays s s' : same_plan s s' -> arrays_ok s -> arrays_ok s'.
Proof. intros (_ & _ & _ & Hm & Hh) [H1 H2 H3]. split; rewrite ?Hm, ?Hh; done. Qed.
Lemma same_trans s s1 s2 : same_plan s s1 -> same_plan s1 s2 -> same_plan s s2.
Proof. unfold same_plan. intuition congruence. Qed.

Lemma same_chain_ok s s' chain ld : same_plan s s' -> chain_ok s chain ld -> chain_ok s' chain ld.
Proof. intros Hs [H1 H2 H3 H4 H5]. split; try done. intros y Hy. rewrite (same_marked s s' y Hs). auto. Qed.
Lemma same_walked s s' chain ld : same_plan s s' -> walked s' chain ld -> walked s chain ld.
Proof.
  intros Hs [Hc (c & x & -> & Hdy & Hend)]. split.
  - destruct Hc as [H1 H2 H3 H4 H5]. split; try done. intros y Hy. rewrite <- (same_marked s s' y Hs). auto.
  - exists c, x. split_and!; [done|done|]. destruct Hend as [?|[? Hend]]; [by left|right]. split; [done|]. intros y He. rewrite <- (same_marked s s' y Hs). auto.
Qed.

(** The bookkeeping of one member changes only transaction ids. *)
Lemma prunable_same s x : same_plan s (heap_prune_record_prunable s x).
Proof. unfold heap_prune_record_prunable. case_match; by split_and!. Qed.

Lemma lenZ_pos {A} (l : list A) : (0 <? lenZ l) = false -> l = [].
Proof. destruct l; [done|]. unfold lenZ. cbn. destruct (Z.ltb_spec 0 (Z.of_nat (S (length l)))); [done|lia]. Qed.

Lemma push_len {A} (l : list A) x l' : push MaxHeapTuplesPerPage l x = Ok l' -> lenZ l < MaxHeapTuplesPerPage /\ l' = l ++ [x].
Proof. unfold push. destruct (Z.ltb_spec (lenZ l) MaxHeapTuplesPerPage); [|done]. intros [= <-]. done. Qed.

Lemma chain_loop_ok : forall fuel s chain ld offnum prior, arrays_ok s -> root_ok s -> walking s chain ld offnum prior ->
  MaxHeapTuplesPerPage + 1 - lenZ chain < Z.of_nat fuel -> lenZ chain <= MaxHeapTuplesPerPage ->
  exists s' chain' ld', chain_loop E fuel p (nline p) (lpi p r) offnum prior s chain ld = Ok (s', chain', ld') /\
    same_plan s s' /\ walked s chain' ld'.
Proof.
  induction fuel as [|fuel IH]; intros s chain ld offnum prior Ha Hr Hw Hf Hlen; [lia|]. cbn [chain_loop].
  assert (Hfirst : chain = [] -> offnum = r) by (destruct Hw as [(_ & _ & ? & _)|(_ & _ & c & x & -> & _)]; [done|by destruct c]).
  assert (Hstop : (joins p prior offnum -> chain <> [] -> is_marked s offnum) -> (chain = [] -> False) ->
    exists s' chain' ld', Ok (s, chain, ld) = Ok (s', chain', ld') /\ same_plan s s' /\ walked s chain' ld').
  { intros H1 H2. exists s, chain, ld. split_and!; [done|apply same_refl|by eapply walk_end]. }
  pose proof Hr as (Hrp & Hrm & Hru & Hrd). destruct (Z.ltb_spec offnum FirstOffsetNumber) as [Hlt|Hge].
  { apply Hstop; [intros [[[? _] _] _]; unfold FirstOffsetNumber in *; lia|]. intros ->. rewrite (Hfirst eq_refl) in Hlt. unfold in_page, FirstOffsetNumber in *. lia. }
  destruct (Z.ltb_spec (nline p) offnum) as [Hgt|Hle].
  { apply Hstop; [intros [[[_ ?] _] _]; lia|]. intros ->. rewrite (Hfirst eq_refl) in Hgt. unfold in_page in *. lia. }
  assert (Hin : in_page p offnum) by (unfold in_page, FirstOffsetNumber in *; lia).
  destruct (mark_ok s offnum Ha Hin) as (b & -> & Hb). rewrite bind_val. destruct b.
  { apply Hstop; [intros _ _; by apply Hb|]. intros ->. rewrite (Hfirst eq_refl) in *. apply Hrm. by apply Hb. }
  assert (Hum : ~ is_marked s offnum) by (intros Hm; apply Hb in Hm; done).
  rewrite load_ok by done. rewrite bind_val. unfold ItemIdIsUsed, ItemIdIsRedirected, ItemIdIsDead.
  destruct (Z.eqb_spec (lp_flags (lpi p offnum)) LP_UNUSED) as [Hu|Hu]; cbn [negb].
  { apply Hstop; [intros [[_ H] _]; rewrite Hu in H; done|]. intros ->. rewrite (Hfirst eq_refl) in *. done. }
  destruct (Z.eqb_spec (lp_flags (lpi p offnum)) LP_REDIRECT) as [Hrd'|Hrd'].
  { destruct (0 <? lenZ chain) eqn:Hlc.
    - apply Hstop; [intros [[_ H] _]; rewrite Hrd' in H; done|]. intros ->. done.
    - apply lenZ_pos in Hlc. subst chain. specialize (Hfirst eq_refl). subst offnum.
      destruct (chain_push s [] ld r prior Hr Hw Hin Hum ltac:(done)) as (-> & Hpath & Hroot & Hum' & Hpg). rewrite bind_val.
      apply IH; [done|done| |unfold lenZ in *; cbn [length app] in *; lia|vm_compute; discriminate].
      assert (Hnt : ~ is_tuple p r) by (intros [_ H]; rewrite Hrd' in H; done).
      destruct Hw as [(_ & -> & _ & ->)|(_ & _ & c & x & Hc & _)]; [|by destruct c]. right. split; [|split].
      + split; [done|done|done|done|]. left. split; [done|]. intros y Hy%list_elem_of_singleton. subst y. intros Hd. apply Hnt. apply Hst. split; [done|]. unfold dead in Hd. congruence.
      + intros y Hy%list_elem_of_singleton. by subst y.
      + exists [], r. split; [done|]. left. done. }
  destruct (Z.eqb_spec (lp_flags (lpi p offnum)) LP_DEAD) as [Hd|Hd].
  { apply Hstop; [intros [[_ H] _]; rewrite Hd in H; done|]. intros ->. rewrite (Hfirst eq_refl) in *. done. }
  assert (Ht : is_tuple p offnum).
  { split; [done|]. destruct (lp_is_wf p (offnum - 1)) as (_ & Hw4 & _). fold (lpi p offnum) in Hw4. unfold LP_UNUSED, LP_REDIRECT, LP_DEAD, LP_NORMAL in *. lia. }
  rewrite header_ok by done. rewrite bind_val. unfold TransactionIdEquals.
  destruct (TransactionIdIsValid prior && negb (HeapTupleHeaderGetXmin (hdr p offnum) =? prior)) eqn:Hxm.
  { apply andb_true_iff in Hxm as [Hv Hx]. apply negb_true_iff, Z.eqb_neq in Hx. apply Hstop; [intros [_ H]; exfalso; auto|].
    intros ->. destruct Hw as [(_ & _ & _ & ->)|(_ & _ & c & x & Hc & _)]; [done|by destruct c]. }
  assert (Hj : joins p prior offnum).
  { split; [done|]. intros Hv. rewrite Hv in Hxm. by apply negb_false_iff, Z.eqb_eq in Hxm. }
  destruct (chain_push s chain ld offnum prior Hr Hw Hin Hum ltac:(done)) as (Hpush & Hpath & Hroot & Hum' & Hpg). rewrite Hpush, bind_val.
  rewrite status_ok by done. rewrite bind_val. destruct (st offnum) as [v|] eqn:Hv; [|by apply Hst in Ht as [_ ?]].
  match goal with |- context [if negb (bool_decide _) && _ then Ok (?s2', _, ?ld2') else _] => set (s2 := s2'); set (ld2 := ld2') end.
  assert (Hs2 : same_plan s s2).
  { unfold s2. destruct v; cbn [bool_decide]; repeat case_bool_decide; try done; try apply prunable_same; by split_and!. }
  assert (Hlen2 : lenZ (chain ++ [offnum]) = lenZ chain + 1) by (unfold lenZ; rewrite length_app; cbn; lia).
  assert (Hco : chain_ok s (chain ++ [offnum]) ld2).
  { split; try done. unfold ld2. case_bool_decide as Hvd; [apply dead_split_dead; unfold dead; congruence|].
    apply dead_split_alive; [|unfold dead; congruence]. destruct Hw as [(-> & -> & _)|(Hc & _)]; [|apply Hc]. left. split; [done|]. intros y Hy. by apply elem_of_nil in Hy. }
  assert (Hdy0 : forall y, y ∈ chain -> is_tuple p y -> dying y).
  { destruct Hw as [(-> & _)|(_ & Hdy & _)]; [|done]. intros y Hy. by apply elem_of_nil in Hy. }
  assert (Hdying : negb (bool_decide (v = HEAPTUPLE_DEAD)) && negb (bool_decide (v = HEAPTUPLE_RECENTLY_DEAD)) = false <-> dying offnum).
  { unfold dying, dead. rewrite Hv. destruct v; cbn; naive_solver. }
  destruct (negb (bool_decide (v = HEAPTUPLE_DEAD)) && negb (bool_decide (v = HEAPTUPLE_RECENTLY_DEAD))) eqn:Hb2.
  { exists s2, (chain ++ [offnum]), ld2. split_and!; [done|done|]. split; [done|]. exists chain, offnum. split_and!; [done|done|]. left. split; [done|]. intros Hx. apply Hdying in Hx. done. }
  assert (Hdyo : dying offnum) by by apply Hdying.
  destruct (HeapTupleHeaderIsHotUpdated (hdr p offnum)) eqn:Hhot; cbn [negb]; cycle 1.
  { exists s2, (chain ++ [offnum]), ld2. split_and!; [done|done|]. split; [done|]. exists chain, offnum. split_and!; [done|done|]. right. split; [done|].
    intros y [[(_ & H & _) _]|(_ & H & _)]; [destruct Ht as [_ Hn]; rewrite Hn in H; done|unfold hot in H; congruence]. }
  destruct (IH s2 (chain ++ [offnum]) ld2 (ctid_posid (hdr p offnum)) (HeapTupleHeaderGetUpdateXid E (hdr p offnum))) as (s' & chain' & ld' & Hrun & Hs' & Hwd).
  - by eapply same_arrays.
  - destruct Hr as (? & Hm & ? & ?). split_and!; [done| |done|done]. by rewrite (same_marked s s2 r Hs2).
  - right. split; [by eapply same_chain_ok|]. split; [|exists chain, offnum; split; [done|]; right; by split_and!].
    intros y [Hy|Hy%list_elem_of_singleton]%elem_of_app; [by apply Hdy0|by subst].
  - lia.
  - destruct (push_len chain offnum _ Hpush). lia.
  - exists s', chain', ld'. split_and!; [done|by eapply same_trans|by eapply same_walked].
Qed.
End Walk.
