(* ===== verification/HeapPrunePlan.v ===== *)
(** The decisions of a pruning pass: what [heap_prune_chain] records, and the invariant
    of the arrays over the whole page. *)
From S2P Require Import Prelude ByteMem BufPage BufPageLayout BufPageSpec Transam HeapTup HeapVis HeapPrune HeapPruneChain.

(** ** Marking a list of entries *)
Definition mark_all (m : list bool) (l : list Z) : list bool := fold_left (fun m i => <[Z.to_nat i := true]> m) l m.

Lemma mark_all_len l : forall m, length (mark_all m l) = length m.
Proof. induction l as [|x l IH]; intros m; [done|]. cbn. unfold mark_all in IH. by rewrite IH, length_insert. Qed.

Lemma mark_all_app m l1 l2 : mark_all m (l1 ++ l2) = mark_all (mark_all m l1) l2.
Proof. apply fold_left_app. Qed.

Lemma mark_all_lookup l : forall m i, 0 <= i < lenZ m -> Forall (fun x => 0 <= x < lenZ m) l ->
  mark_all m l !! Z.to_nat i = Some true <-> m !! Z.to_nat i = Some true \/ i ∈ l.
Proof.
  induction l as [|x l IH]; intros m i Hi Hl; [set_solver|]. apply Forall_cons in Hl as [Hx Hl]. cbn [mark_all fold_left]. fold (mark_all (<[Z.to_nat x := true]> m) l).
  rewrite IH by (unfold lenZ in *; rewrite length_insert; done). rewrite elem_of_cons. destruct (decide (i = x)) as [->|Hne].
  - rewrite list_lookup_insert_eq by (unfold lenZ in *; lia). naive_solver.
  - rewrite list_lookup_insert_ne by lia. naive_solver.
Qed.

(** ** Chains as lists *)
(** The last member of the chain [r :: us]. *)
Definition lastof (r : Z) (us : list Z) : Z := fold_left (fun _ x => x) us r.
Lemma last_in (us : list Z) : forall r, lastof r us ∈ r :: us.
Proof. induction us as [|y us IH]; intros r; [set_solver|]. cbn. specialize (IH y). unfold lastof in IH. set_solver. Qed.

Lemma lastof_snoc (us : list Z) r x : lastof r (us ++ [x]) = x.
Proof. unfold lastof. by rewrite fold_left_app. Qed.

Section Plan.
Context (E : xact_state) (p : Page) (st : Z -> option HTSV_Result).
Context (Hl : heap_lines p) (Hg : hot_graph E p).
Context (Hst : forall i, is_tuple p i <-> in_page p i /\ st i <> None).

(** ** Distinct line pointers fit in the arrays *)
Lemma distinct_fit l : NoDup l -> (forall i, i ∈ l -> in_page p i) -> lenZ l <= MaxHeapTuplesPerPage.
Proof.
  intros Hnd Hin. pose proof (hl_lines _ Hl). pose proof (ok_nline p (hl_ok _ Hl)) as [_ ?]. assert (Hsub : l ⊆+ seqZ 1 (nline p)).
  { apply NoDup_submseteq; [done|]. intros y Hy. apply elem_of_seqZ. destruct (Hin y Hy). lia. }
  apply submseteq_length in Hsub. rewrite length_seqZ in Hsub. unfold lenZ. lia.
Qed.

Lemma push_fit {A} (l : list A) x k : lenZ l + 1 <= k -> k <= MaxHeapTuplesPerPage -> push MaxHeapTuplesPerPage l x = Ok (l ++ [x]).
Proof. intros. unfold push. by destruct (Z.ltb_spec (lenZ l) MaxHeapTuplesPerPage); [|lia]. Qed.

Lemma push_room {A} (l : list A) x : lenZ l + 1 <= lenZ (l ++ [x]).
Proof. unfold lenZ. rewrite length_app. cbn. lia. Qed.

Lemma aset_mark s i : arrays_ok p st s -> in_page p i -> forall l, aset (mark_all (marked s) l) i true = Ok (mark_all (marked s) (l ++ [i])).
Proof.
  intros Ha Hi l. pose proof (ar_marked _ _ _ Ha) as Hm. pose proof (hl_lines _ Hl). unfold in_page in Hi. unfold lenZ in Hm.
  rewrite aset_Ok by (rewrite mark_all_len; lia). by rewrite mark_all_app.
Qed.

(** ** The loop over the dead part of a chain *)
Lemma unused_loop_ok s : arrays_ok p st s -> forall rest prev a b ld done n, prev :: rest = a ++ ld :: b -> NoDup (prev :: rest) ->
  NoDup (nowunused s ++ done ++ tail (a ++ [ld])) -> (forall i, i ∈ nowunused s ++ done ++ tail (a ++ [ld]) -> in_page p i) ->
  unused_loop prev rest ld (set_arrays s (redirected s) (nowdead s) (nowunused s ++ done) (mark_all (marked s) done)) n =
  Ok (set_arrays s (redirected s) (nowdead s) (nowunused s ++ done ++ tail (a ++ [ld])) (mark_all (marked s) (done ++ tail (a ++ [ld]))), b,
      n + lenZ (tail (a ++ [ld]))).
Proof.
  intros Ha. induction rest as [|x rest IH]; intros prev a b ld done n Hsplit Hnd Hnu Hin; destruct a as [|a0 a]; cbn [app tail] in *.
  - injection Hsplit as -> <-. cbn. rewrite !app_nil_r. do 2 f_equal. unfold lenZ. cbn. lia.
  - injection Hsplit as -> Hs. by destruct a.
  - injection Hsplit as -> <-. cbn [unused_loop]. rewrite Z.eqb_refl. rewrite !app_nil_r. do 2 f_equal. unfold lenZ. cbn. lia.
  - injection Hsplit as -> Hs. cbn [unused_loop]. rewrite (proj2 (Z.eqb_neq a0 ld)).
    2: { intros ->. apply NoDup_cons in Hnd as [Hnd _]. apply Hnd. rewrite Hs. set_solver. }
    assert (Htl : a ++ [ld] = x :: tail (a ++ [ld])) by (destruct a; cbn in *; congruence).
    unfold heap_prune_record_unused. cbn [nowunused marked set_arrays redirected nowdead].
    pose proof (distinct_fit _ Hnu Hin) as Hfit. assert (Hx : x ∈ a ++ [ld]) by (rewrite Htl; set_solver).
    rewrite (push_fit _ _ (lenZ (nowunused s ++ done ++ a ++ [ld]))) by (done || (unfold lenZ; rewrite !length_app; cbn; lia)). rewrite bind_val.
    rewrite aset_mark by (done || (apply Hin; set_solver)). rewrite bind_val.
    specialize (IH x a b ld (done ++ [x]) (n + 1)). rewrite <- !app_assoc in IH. cbn [app] in IH. rewrite <- Htl in IH.
    rewrite bind_val, <- (app_assoc (nowunused s)). etransitivity; [apply IH; [done|by apply NoDup_cons in Hnd as [_ ?]|done|done]|].
    do 2 f_equal. unfold lenZ. rewrite Htl. cbn [length tail]. lia.
Qed.

(** ** Certificates *)
Definition from (s : PruneState) : list Z := map fst (redirected s).
Definition targets (s : PruneState) : list Z := map snd (redirected s).
Definition removed (s : PruneState) : list Z := from s ++ nowdead s ++ nowunused s.

(** A dead heap-only tuple at the end of its chain is removed on its own. *)
Definition direct (u : Z) : Prop := is_tuple p u /\ heap_only p u /\ dead st u /\ ~ hot p u.
Definition is_root (i : Z) : Prop := (exists t, is_redirect p i t) \/ is_tuple p i /\ ~ heap_only p i.

(** Why the root [r] is redirected to [o] or set dead: the members [us] behind it are
    removed; all are dead or recently dead and the last one is dead; the chain goes on
    with [o], which is not dead, or ends, but for a tuple removed on its own. *)
Record cert (s : PruneState) (r : Z) (us : list Z) (o : option Z) : Prop := {
  ce_path : path E p (r :: us);
  ce_unused : forall u, u ∈ us -> u ∈ nowunused s;
  ce_dying : forall x, x ∈ r :: us -> is_tuple p x -> dying st x;
  ce_dead : is_tuple p (lastof r us) -> dead st (lastof r us);
  ce_next : match o with
            | Some x => edge E p (lastof r us) x /\ ~ dead st x
            | None => forall y, edge E p (lastof r us) y -> y ∈ nowunused s /\ direct y
            end }.

Definition recorded (s : PruneState) (r : Z) (o : option Z) : Prop :=
  match o with Some x => (r, x) ∈ redirected s | None => r ∈ nowdead s end.

Record plan_inv (s : PruneState) : Prop := {
  pv_arrays : arrays_ok p st s;
  pv_marked : forall i, in_page p i -> is_marked s i <-> i ∈ targets s \/ i ∈ removed s;
  pv_nodup : NoDup (removed s);
  pv_pages : forall i, i ∈ removed s -> in_page p i;
  pv_roots : forall i, i ∈ from s ++ nowdead s -> is_root i;
  pv_targets : forall x, x ∈ targets s -> is_tuple p x /\ ~ dead st x /\ x ∉ removed s;
  pv_certs : forall r o, recorded s r o -> exists us, cert s r us o;
  pv_unused : forall u, u ∈ nowunused s -> direct u \/ exists r us o, cert s r us o /\ recorded s r o /\ u ∈ us }.

Lemma cert_mono s s' r us o : (forall u, u ∈ nowunused s -> u ∈ nowunused s') -> cert s r us o -> cert s' r us o.
Proof. intros Hsub [H1 H2 H3 H4 H5]. split; try done; [auto|]. destruct o; [done|]. intros y Hy. destruct (H5 y Hy). auto. Qed.

Lemma elem_removed s i : i ∈ removed s <-> i ∈ from s \/ i ∈ nowdead s \/ i ∈ nowunused s.
Proof. unfold removed. rewrite !elem_of_app. done. Qed.

Lemma recorded_removed s r o : recorded s r o -> r ∈ removed s.
Proof. intros H. apply elem_removed. destruct o as [x|]; [left|by right; left]. unfold from. apply list_elem_of_fmap. by exists (r, x). Qed.

Lemma cert_removed s r us o x : cert s r us o -> recorded s r o -> x ∈ r :: us -> x ∈ removed s.
Proof. intros Hc Hr [->|Hx]%elem_of_cons; [by eapply recorded_removed|]. apply elem_removed. right. right. by eapply ce_unused. Qed.

Lemma tuple_not_redirect i t : is_tuple p i -> is_redirect p i t -> False.
Proof. intros [_ H1] (_ & H2 & _). rewrite H1 in H2. done. Qed.

(** The successor of an unmarked line pointer is marked only if it was removed on
    its own. *)
Lemma marked_next s x y : plan_inv s -> in_page p x -> ~ is_marked s x -> edge E p x y -> is_marked s y -> y ∈ nowunused s /\ direct y.
Proof.
  intros Hp Hx Hmx He Hmy. pose proof (edge_tuple E p x y He) as Ht. pose proof (hg_heap_only _ _ Hg _ _ He) as Hho.
  assert (Hnot : forall r us o, cert s r us o -> recorded s r o -> x ∈ r :: us -> False).
  { intros r us o Hc Hr Hin. apply Hmx. apply (pv_marked _ Hp x Hx). right. by eapply cert_removed. }
  apply (pv_marked _ Hp y (proj1 Ht)) in Hmy as [Hy|Hy].
  - unfold targets in Hy. apply list_elem_of_fmap in Hy as ([r y'] & Hy' & Hr). cbn in Hy'. subst y'.
    destruct (pv_certs _ Hp r (Some y) Hr) as [us Hc]. destruct (ce_next _ _ _ _ Hc) as [He' _]. exfalso. apply (Hnot r us (Some y)); [done|done|].
    rewrite (hg_unique _ _ Hg _ _ _ He He'). apply last_in.
  - apply elem_removed in Hy. assert (Hcase : y ∈ from s ++ nowdead s \/ y ∈ nowunused s) by (rewrite elem_of_app; tauto). destruct Hcase as [Hroot|Hu].
    + exfalso. destruct (pv_roots _ Hp y Hroot) as [[t Hrd]|[_ Hnh]]; [by eapply tuple_not_redirect|done].
    + split; [done|]. destruct (pv_unused _ Hp y Hu) as [Hd|(r & us & o & Hc & Hr & Hin)]; [done|]. exfalso.
      destruct (path_pred E p r us y (ce_path _ _ _ _ Hc) Hin) as (x' & Hx' & He'). apply (Hnot r us o Hc Hr). by rewrite (hg_unique _ _ Hg _ _ _ He He').
Qed.

(** ** Recording a chain *)
Definition opt_list (o : option Z) : list Z := match o with Some x => [x] | None => [] end.
Definition extend (s : PruneState) (r : Z) (us : list Z) (o : option Z) : PruneState :=
  set_arrays s (match o with Some x => redirected s ++ [(r, x)] | None => redirected s end)
    (match o with Some _ => nowdead s | None => nowdead s ++ [r] end) (nowunused s ++ us) (mark_all (marked s) (us ++ r :: opt_list o)).

Lemma extend_removed s r us o i : i ∈ removed (extend s r us o) <-> i ∈ removed s \/ i ∈ r :: us.
Proof. rewrite !elem_removed. unfold from. destruct o; cbn; rewrite ?map_app, ?elem_of_app; set_solver. Qed.
Lemma extend_targets s r us o i : i ∈ targets (extend s r us o) <-> i ∈ targets s \/ i ∈ opt_list o.
Proof. unfold targets. destruct o; cbn; rewrite ?map_app, ?elem_of_app; set_solver. Qed.
Lemma extend_perm s r us o : removed (extend s r us o) ≡ₚ (r :: us) ++ removed s.
Proof. unfold removed, from. destruct o; cbn; rewrite ?map_app; cbn; solve_Permutation. Qed.

Lemma extend_arrays s r us o : arrays_ok p st s -> arrays_ok p st (extend s r us o).
Proof. intros [H1 H2 H3]. split; cbn; [|done|done]. unfold lenZ. rewrite mark_all_len. done. Qed.

Lemma extend_marked s r us o i : arrays_ok p st s -> (forall y, y ∈ (r :: us) ++ opt_list o -> in_page p y) -> in_page p i ->
  is_marked (extend s r us o) i <-> is_marked s i \/ i ∈ (r :: us) ++ opt_list o.
Proof.
  intros Ha Hin Hi. pose proof (ar_marked _ _ _ Ha) as Hm. pose proof (hl_lines _ Hl) as Hn. unfold is_marked. cbn [extend marked set_arrays].
  rewrite mark_all_lookup.
  - assert (Heq : i ∈ us ++ r :: opt_list o <-> i ∈ (r :: us) ++ opt_list o) by set_solver. by rewrite Heq.
  - unfold in_page in Hi. rewrite Hm. lia.
  - apply Forall_forall. intros x Hx. destruct (Hin x) as [? ?]; [set_solver|]. rewrite Hm. lia.
Qed.

Lemma extend_inv s r us o : plan_inv s -> is_root r ->
  path E p ((r :: us) ++ opt_list o) -> (forall y, y ∈ (r :: us) ++ opt_list o -> ~ is_marked s y /\ in_page p y) ->
  (forall x, x ∈ r :: us -> is_tuple p x -> dying st x) -> (is_tuple p (lastof r us) -> dead st (lastof r us)) ->
  (match o with Some x => edge E p (lastof r us) x /\ ~ dead st x | None => forall y, edge E p (lastof r us) y -> is_marked s y end) ->
  plan_inv (extend s r us o).
Proof.
  intros Hp Hroot Hpath Hun Hdy Hdead Hnext. pose proof (path_nodup E p Hg _ Hpath) as Hnd. apply NoDup_app in Hnd as (Hnd & Hdisj & _).
  assert (Hfresh : forall y, y ∈ (r :: us) ++ opt_list o -> y ∉ removed s /\ y ∉ targets s).
  { intros y Hy. destruct (Hun y Hy) as [Hm Hi]. split; intros H; apply Hm; apply (pv_marked _ Hp y Hi); auto. }
  assert (Hmono : forall u, u ∈ nowunused s -> u ∈ nowunused (extend s r us o)) by (intros u Hu; cbn; apply elem_of_app; by left).
  assert (Hcert : cert (extend s r us o) r us o).
  { split; [by apply path_app_l in Hpath|intros u Hu; cbn; apply elem_of_app; by right|done|done|]. destruct o as [x|]; [done|]. intros y Hy.
    destruct (Hun (lastof r us)) as [Hm Hi]; [cbn; rewrite app_nil_r; apply last_in|]. destruct (marked_next s _ y Hp Hi Hm Hy (Hnext y Hy)). auto. }
  assert (Hrec : forall r' o', recorded (extend s r us o) r' o' -> recorded s r' o' \/ r' = r /\ o' = o).
  { intros r' o'. destruct o as [x|], o' as [x'|]; cbn; rewrite ?elem_of_app, ?list_elem_of_singleton; naive_solver. }
  split.
  - apply extend_arrays, Hp.
  - intros i Hi. rewrite extend_marked; [|apply Hp|intros y Hy; by apply Hun|done]. rewrite extend_targets, extend_removed, (pv_marked _ Hp i Hi), elem_of_app. tauto.
  - rewrite extend_perm. apply NoDup_app. split_and!; [done| |apply Hp]. intros y Hy. apply Hfresh. set_solver.
  - intros i [Hi|Hi]%extend_removed; [by apply Hp|]. apply Hun. set_solver.
  - intros i Hi. assert (i ∈ from s ++ nowdead s \/ i = r) as [H| ->]; [|by apply Hp|done].
    revert Hi. unfold from. destruct o; cbn; rewrite ?map_app, !elem_of_app, ?elem_of_app; cbn; rewrite ?list_elem_of_singleton; tauto.
  - intros x [Hx|Hx]%extend_targets.
    + destruct (pv_targets _ Hp x Hx) as (? & ? & ?). split_and!; [done|done|]. rewrite extend_removed. intros [?|Hin]; [done|]. eapply (proj2 (Hfresh x ltac:(set_solver))). done.
    + destruct o as [z|]; [|by apply elem_of_nil in Hx]. apply list_elem_of_singleton in Hx. subst z. destruct Hnext as [He Hnd']. split_and!; [by eapply edge_tuple|done|].
      rewrite extend_removed. intros [Hr|Hr]; [eapply (proj1 (Hfresh x ltac:(set_solver))); done|]. eapply (Hdisj x Hr). set_solver.
  - intros r' o' [H|[-> ->]]%Hrec; [|by exists us]. destruct (pv_certs _ Hp r' o' H) as [us' Hc]. exists us'. by eapply cert_mono.
  - intros u Hu. cbn in Hu. apply elem_of_app in Hu as [Hu|Hu].
    + destruct (pv_unused _ Hp u Hu) as [?|(r' & us' & o' & Hc & Hr & Hin)]; [by left|right]. exists r', us', o'. split_and!; [by eapply cert_mono| |done].
      destruct o, o'; cbn in *; rewrite ?elem_of_app; tauto.
    + right. exists r, us, o. split_and!; [done| |done]. destruct o; cbn; apply elem_of_app; right; by apply list_elem_of_singleton.
Qed.

(** Recording a tuple that is removed on its own. *)
Definition extend_direct (s : PruneState) (u : Z) : PruneState :=
  set_arrays s (redirected s) (nowdead s) (nowunused s ++ [u]) (mark_all (marked s) [u]).

Lemma extend_direct_inv s u : plan_inv s -> direct u -> ~ is_marked s u -> plan_inv (extend_direct s u).
Proof.
  intros Hp Hd Hm. pose proof (proj1 (proj1 Hd)) as Hi. assert (Hfresh : u ∉ removed s /\ u ∉ targets s).
  { split; intros H; apply Hm; apply (pv_marked _ Hp u Hi); auto. }
  assert (Hrem : forall i, i ∈ removed (extend_direct s u) <-> i ∈ removed s \/ i = u).
  { intros i. rewrite !elem_removed. cbn. rewrite elem_of_app, list_elem_of_singleton. unfold from. cbn. tauto. }
  assert (Hmono : forall x, x ∈ nowunused s -> x ∈ nowunused (extend_direct s u)) by (intros x Hx; cbn; set_solver).
  destruct (pv_arrays _ Hp) as [Ha1 Ha2 Ha3]. pose proof (hl_lines _ Hl) as Hn. split.
  - split; cbn; [|done|done]. unfold lenZ. by rewrite length_insert.
  - intros i Hi'. unfold is_marked. cbn [extend_direct marked set_arrays]. rewrite mark_all_lookup, Hrem, list_elem_of_singleton.
    + fold (is_marked s i). rewrite (pv_marked _ Hp i Hi'). unfold targets. cbn. tauto.
    + unfold in_page in Hi'. rewrite Ha1. lia.
    + repeat constructor; unfold in_page in Hi; rewrite ?Ha1; lia.
  - assert (Hperm : removed (extend_direct s u) ≡ₚ u :: removed s) by (unfold removed, from; cbn; solve_Permutation).
    rewrite Hperm. apply NoDup_cons. split; [apply Hfresh|apply Hp].
  - intros i [H| ->]%Hrem; [by apply Hp|done].
  - apply Hp.
  - intros x Hx. destruct (pv_targets _ Hp x Hx) as (? & ? & ?). split_and!; [done|done|]. rewrite Hrem. intros [?| ->]; [done|]. by apply Hfresh.
  - intros r o H. destruct (pv_certs _ Hp r o H) as [us Hc]. exists us. by eapply cert_mono.
  - intros x Hx. cbn in Hx. apply elem_of_app in Hx as [Hx| ->%list_elem_of_singleton]; [|by left].
    destruct (pv_unused _ Hp x Hx) as [?|(r & us & o & Hc & Hr & Hin)]; [by left|right]. exists r, us, o. split_and!; [by eapply cert_mono|done|done].
Qed.

(** ** One chain *)
Lemma same_sym s s' : same_plan s s' -> same_plan s' s.
Proof. unfold same_plan. intuition congruence. Qed.
Lemma same_removed s s' : same_plan s s' -> removed s' = removed s.
Proof. intros (Hr & Hd & Hu & _). unfold removed, from. by rewrite Hr, Hd, Hu. Qed.
Lemma same_recorded s s' r o : same_plan s s' -> recorded s' r o <-> recorded s r o.
Proof. intros (Hr & Hd & _). unfold recorded. destruct o; by rewrite ?Hr, ?Hd. Qed.

Lemma same_inv s s' : same_plan s s' -> plan_inv s -> plan_inv s'.
Proof.
  intros Hs Hp. pose proof (same_removed _ _ Hs) as Hrem. pose proof Hs as (Hr & Hd & Hu & Hm & _).
  assert (Hc : forall r us o, cert s r us o -> cert s' r us o) by (intros r us o; apply cert_mono; intros u; by rewrite Hu).
  split; unfold from, targets; rewrite ?Hrem, ?Hr, ?Hd, ?Hu.
  - eapply same_arrays; [done|apply Hp].
  - intros i Hi. rewrite (same_marked s s' i Hs). by apply Hp.
  - apply Hp.
  - apply Hp.
  - apply Hp.
  - apply Hp.
  - intros r o Hrc. apply (same_recorded s s' r o Hs) in Hrc. destruct (pv_certs _ Hp r o Hrc) as [us ?]. exists us. auto.
  - intros u Hin. destruct (pv_unused _ Hp u Hin) as [?|(r & us & o & ? & ? & ?)]; [by left|right]. exists r, us, o. split_and!; [auto|by eapply same_recorded|done].
Qed.

(** What is settled once [i] has been visited: a dead root, a dead tuple at the end of
    its chain and a redirect to a dead tuple have been removed. *)
Definition settled (s : PruneState) (i : Z) : Prop :=
  (forall t, is_redirect p i t -> dead st t -> i ∈ removed s) /\
  (is_tuple p i -> dead st i -> ~ heap_only p i \/ ~ hot p i -> i ∈ removed s).
Definition tuples_removed (s : PruneState) : Z := lenZ (filter (fun i => lp_flags (lpi p i) = LP_NORMAL) (removed s)).

(** The outcome of one step, from [s] to [s'] with [n] tuples deleted. *)
Record step_ok (s s' : PruneState) (n : Z) : Prop := {
  so_inv : plan_inv s';
  so_mono : forall i, i ∈ removed s -> i ∈ removed s';
  so_count : tuples_removed s' = tuples_removed s + n }.

Lemma step_same s s' : plan_inv s -> same_plan s s' -> step_ok s s' 0.
Proof. intros Hp Hs. split; [by eapply same_inv| |]; unfold tuples_removed; rewrite (same_removed _ _ Hs); [done|lia]. Qed.

Lemma settled_mono s s' i : (forall j, j ∈ removed s -> j ∈ removed s') -> settled s i -> settled s' i.
Proof. intros Hm [H1 H2]. split; eauto. Qed.

Lemma extend_count s r us o : (forall u, u ∈ us -> is_tuple p u) ->
  tuples_removed (extend s r us o) = tuples_removed s + (if ItemIdIsNormal (lpi p r) then lenZ us + 1 else lenZ us).
Proof.
  intros Ht. unfold tuples_removed, lenZ. rewrite extend_perm, filter_app, length_app. assert (Hus : filter (fun i => lp_flags (lpi p i) = LP_NORMAL) us = us).
  { induction us as [|u us IH]; [done|]. rewrite filter_cons, decide_True by (apply Ht; set_solver). f_equal. apply IH. intros v Hv. apply Ht. set_solver. }
  unfold ItemIdIsNormal. rewrite filter_cons, Hus. destruct (Z.eqb_spec (lp_flags (lpi p r)) LP_NORMAL); [rewrite decide_True by done|rewrite decide_False by done]; cbn [length]; lia.
Qed.

Lemma extend_step s r us o : plan_inv (extend s r us o) -> (forall u, u ∈ us -> is_tuple p u) ->
  step_ok s (extend s r us o) (if ItemIdIsNormal (lpi p r) then lenZ us + 1 else lenZ us).
Proof. intros Hp Ht. split; [done| |by apply extend_count]. intros i Hi. apply extend_removed. by left. Qed.

Lemma extend_settled s r us o : settled (extend s r us o) r.
Proof. assert (r ∈ removed (extend s r us o)) by (apply extend_removed; right; set_solver). by split. Qed.

Lemma record_dead_ok s us r : arrays_ok p st s -> in_page p r -> lenZ (nowdead s ++ [r]) <= MaxHeapTuplesPerPage ->
  heap_prune_record_dead (set_arrays s (redirected s) (nowdead s) (nowunused s ++ us) (mark_all (marked s) us)) r = Ok (extend s r us None).
Proof.
  intros Ha Hr Hfit. unfold heap_prune_record_dead. cbn [nowdead marked set_arrays redirected nowunused].
  rewrite (push_fit _ _ _ (push_room _ _) Hfit), bind_val, aset_mark by done. done.
Qed.

Lemma record_redirect_ok s us r x : arrays_ok p st s -> in_page p r -> in_page p x -> lenZ (redirected s ++ [(r, x)]) <= MaxHeapTuplesPerPage ->
  heap_prune_record_redirect (set_arrays s (redirected s) (nowdead s) (nowunused s ++ us) (mark_all (marked s) us)) r x = Ok (extend s r us (Some x)).
Proof.
  intros Ha Hr Hx Hfit. unfold heap_prune_record_redirect. cbn [nowdead marked set_arrays redirected nowunused].
  rewrite (push_fit _ _ _ (push_room _ _) Hfit), bind_val, aset_mark, bind_val, aset_mark, bind_val by done.
  unfold extend. cbn [opt_list]. rewrite <- app_assoc. done.
Qed.

(** Everything recorded fits. *)
Lemma extend_fit s r us o : plan_inv s -> NoDup (r :: us) -> (forall y, y ∈ r :: us -> ~ is_marked s y /\ in_page p y) ->
  NoDup (nowunused s ++ us) /\ (forall y, y ∈ nowunused s ++ us -> in_page p y) /\ lenZ (nowdead s ++ [r]) <= MaxHeapTuplesPerPage /\
  lenZ (redirected s ++ [(r, o)]) <= MaxHeapTuplesPerPage.
Proof.
  intros Hp Hnd Hin. assert (Hnd' : NoDup (removed (extend s r us None))).
  { rewrite extend_perm. apply NoDup_app. split_and!; [done| |apply Hp]. intros y Hy Hr. destruct (Hin y Hy) as [Hm Hi]. apply Hm, (pv_marked _ Hp y Hi). by right. }
  assert (Hin' : forall y, y ∈ removed (extend s r us None) -> in_page p y).
  { intros y [Hy|Hy]%extend_removed; [by apply Hp|by apply Hin]. }
  pose proof (distinct_fit _ Hnd' Hin') as Hlen. unfold removed, from in *. cbn in Hnd', Hin', Hlen. split_and!.
  - apply NoDup_app in Hnd' as (_ & _ & Hnd'). by apply NoDup_app in Hnd' as (_ & _ & ?).
  - intros y Hy. apply Hin'. rewrite !elem_of_app in *. tauto.
  - unfold lenZ in *. rewrite !length_app in *. cbn in *. lia.
  - unfold lenZ in *. rewrite !length_app, length_map in *. cbn in *. lia.
Qed.

Lemma set_arrays_id s : set_arrays s (redirected s) (nowdead s) (nowunused s ++ []) (mark_all (marked s) []) = s.
Proof. destruct s. unfold set_arrays. cbn. by rewrite app_nil_r. Qed.

Lemma offset_valid i : in_page p i -> OffsetNumberIsValid i = true.
Proof.
  intros [H1 H2]. pose proof (hl_lines _ Hl). unfold OffsetNumberIsValid, InvalidOffsetNumber. apply andb_true_iff. split; [apply negb_true_iff, Z.eqb_neq; lia|].
  apply Z.leb_le. assert (MaxHeapTuplesPerPage <= MaxOffsetNumber) by done. lia.
Qed.

(** A chain with a dead member: the walk gives what [extend_inv] asks for. *)
Lemma finish_inv s r us b : plan_inv s -> is_root r -> walked E p st r s ((r :: us) ++ b) (lastof r us) -> dead st (lastof r us) ->
  (forall y, y ∈ b -> ~ dead st y) -> plan_inv (extend s r us (head b)).
Proof.
  intros Hp Hr [Hc (c & x & Heq & Hdy & Hend)] Hd Hb. assert (Hin : forall y, y ∈ (r :: us) ++ opt_list (head b) -> y ∈ (r :: us) ++ b).
  { intros y. destruct b as [|z b]; cbn [head opt_list]; [done|]. rewrite !elem_of_app, list_elem_of_singleton. intros [?| ->]; [by left|right; set_solver]. }
  apply extend_inv; try done.
  - destruct b as [|z b]; [apply Hc|]. apply (path_app_l E p _ b). cbn [head opt_list]. rewrite <- app_assoc. apply Hc.
  - intros y Hy%Hin. split; by apply Hc.
  - intros y Hy. destruct (decide (y = lastof r us)) as [->|Hne]; [by left|]. apply Hdy. destruct b as [|z b] using rev_ind.
    + rewrite app_nil_r in Heq. destruct us as [|u us _] using rev_ind; [apply list_elem_of_singleton in Hy; by subst|].
      rewrite lastof_snoc in Hne. rewrite app_comm_cons in Heq, Hy. apply app_inj_tail in Heq as [<- _]. apply elem_of_app in Hy as [?|?%list_elem_of_singleton]; done.
    + rewrite app_assoc in Heq. apply app_inj_tail in Heq as [<- _]. by apply elem_of_app; left.
  - destruct b as [|z b]; cbn [head].
    + rewrite app_nil_r in Heq. assert (x = lastof r us) as ->.
      { destruct us as [|u us _] using rev_ind; [by destruct c as [|? []]; cbn in *; simplify_eq|]. rewrite lastof_snoc, app_comm_cons in *. apply app_inj_tail in Heq as [_ ->]. done. }
      destruct Hend as [[_ Hnd]|[_ Hend]]; [|done]. exfalso. apply Hnd. by left.
    + split; [|apply Hb; set_solver]. pose proof (co_path _ _ _ _ _ _ _ Hc) as Hpath. destruct us as [|u us _] using rev_ind; [by destruct Hpath|].
      rewrite lastof_snoc. rewrite app_comm_cons, <- app_assoc in Hpath. cbn [app] in Hpath. by apply (path_edge E p (r :: us) u z b).
Qed.

Lemma finish_dead s r us b : plan_inv s -> is_root r -> walked E p st r s ((r :: us) ++ b) (lastof r us) -> dead st (lastof r us) ->
  (forall y, y ∈ b -> ~ dead st y) ->
  chain_finish r (lpi p r) s ((r :: us) ++ b) (lastof r us) = Ok (extend s r us (head b), if ItemIdIsNormal (lpi p r) then lenZ us + 1 else lenZ us).
Proof.
  intros Hp Hr [Hc _] Hd Hb. pose proof (path_nodup E p Hg _ (co_path _ _ _ _ _ _ _ Hc)) as Hnd. pose proof (proj1 (proj1 (NoDup_app _ _) Hnd)) as Hnd1.
  assert (Hin : forall y, y ∈ (r :: us) ++ b -> ~ is_marked s y /\ in_page p y) by (intros y Hy; split; by apply Hc).
  assert (Hin1 : forall y, y ∈ r :: us -> ~ is_marked s y /\ in_page p y) by (intros y Hy; apply Hin, elem_of_app; by left).
  destruct (extend_fit s r us (hd 0 b) Hp Hnd1 Hin1) as (Hnu & Hpg & Hfd & Hfr).
  assert (Hrp : in_page p r) by (apply Hin1; set_solver).
  assert (Hsp : exists a, r :: us = a ++ [lastof r us]) by (destruct us as [|u us _] using rev_ind; [by exists []|rewrite lastof_snoc; by exists (r :: us)]).
  destruct Hsp as [a Ha]. assert (Hus : tail (a ++ [lastof r us]) = us) by (by rewrite <- Ha).
  unfold chain_finish. rewrite (offset_valid (lastof r us)) by apply Hin1, last_in. cbn [app].
  pose proof (unused_loop_ok s (pv_arrays _ Hp) (us ++ b) r a b (lastof r us) [] 0) as Hloop. rewrite set_arrays_id, Hus in Hloop. cbn [app] in Hloop.
  rewrite Hloop; [|by rewrite app_comm_cons, Ha, <- app_assoc|done|done|done]. rewrite bind_val. cbn [fst snd]. destruct b as [|z b]; cbn [head].
  - rewrite record_dead_ok by (done || apply Hp). done.
  - rewrite record_redirect_ok; [done|apply Hp|done|apply Hin; set_solver|done].
Qed.

Lemma root_single s r : plan_inv s -> is_root r -> ~ is_tuple p r -> walked E p st r s [r] 0 -> plan_inv (extend s r [] None).
Proof.
  intros Hp Hr Hnt [Hc (c & x & Heq & _ & Hend)]. assert (x = r) as -> by (by destruct c as [|? []]; cbn in *; simplify_eq).
  apply extend_inv; try done.
  - intros y Hy. split; by apply Hc.
  - intros y ->%list_elem_of_singleton Ht. done.
  - destruct Hend as [[? _]|[_ Hend]]; [done|]. apply Hend.
Qed.

Lemma chain_finish_ok s r chain ld : plan_inv s -> is_root r -> walked E p st r s chain ld ->
  exists s' n, chain_finish r (lpi p r) s chain ld = Ok (s', n) /\ step_ok s s' n /\ settled s' r.
Proof.
  intros Hp Hr Hw. pose proof Hw as [Hc _]. destruct (co_root _ _ _ _ _ _ _ Hc) as [c ->].
  destruct (co_dead _ _ _ _ _ _ _ Hc) as [[-> Hnd]|(a & b & Heq & Hd & Hb)].
  - unfold chain_finish. cbn [OffsetNumberIsValid]. destruct (ItemIdIsRedirected (lpi p r)) eqn:Hred.
    + apply Z.eqb_eq in Hred. assert (Hrd : is_redirect p r (lp_off (lpi p r))) by (split; [apply Hc; set_solver|done]).
      assert (Hnt : ~ is_tuple p r) by (intros Ht; by eapply tuple_not_redirect).
      destruct c as [|y c].
      * change (lenZ [r] <? 2) with true. cbn [andb negb OffsetNumberIsValid]. pose proof (root_single s r Hp Hr Hnt Hw) as Hinv.
        destruct (extend_fit s r [] 0 Hp (NoDup_singleton r)) as (_ & _ & Hfd & _); [intros y Hy; split; by apply Hc|].
        pose proof (record_dead_ok s [] r (pv_arrays _ Hp) ltac:(apply Hrd) Hfd) as Hdead. rewrite set_arrays_id in Hdead.
        eexists _, _. split; [change (OffsetNumberIsValid 0) with false; cbv iota; by rewrite Hdead|]. split; [|apply extend_settled].
        pose proof (extend_step s r [] None Hinv) as Hstep. unfold ItemIdIsNormal in Hstep. destruct Hrd as (_ & Hf & _). rewrite Hf in Hstep. apply Hstep. intros u Hu. by apply elem_of_nil in Hu.
      * eexists s, 0. split; [|split; [apply step_same; [done|by apply same_refl]|]].
        -- change (OffsetNumberIsValid 0) with false. cbv iota. rewrite (proj2 (Z.ltb_ge _ _)); [done|]. unfold lenZ. cbn. lia.
        -- split; [|done]. intros t Ht Hdt. exfalso. apply (Hnd y); [set_solver|]. assert (y = t) as ->; [|done].
           eapply (edge_fun E p r); [apply (co_path _ _ _ _ _ _ _ Hc)|]. left. split; [done|]. by eapply hg_redirect.
    + change (OffsetNumberIsValid 0) with false. cbv iota. rewrite andb_false_r. eexists s, 0. split; [done|]. split; [apply step_same; [done|by apply same_refl]|].
      split; [|intros _ Hd; exfalso; by apply (Hnd r); [set_solver|]]. intros t (_ & Hf & _). unfold ItemIdIsRedirected in Hred. rewrite Hf in Hred. done.
  - assert (Hus : exists us, a ++ [ld] = r :: us /\ lastof r us = ld).
    { destruct a as [|a0 a]; cbn in Heq; simplify_eq; [by exists []|]. exists (a ++ [ld]). split; [done|apply lastof_snoc]. }
    destruct Hus as (us & Hus & <-). assert (Hch : r :: c = (r :: us) ++ b) by (rewrite <- Hus, <- app_assoc, Heq; done). rewrite Hch in *.
    pose proof (finish_inv s r us b Hp Hr Hw Hd Hb) as Hinv. rewrite finish_dead by done. eexists _, _. split; [done|]. split; [|apply extend_settled].
    apply extend_step; [done|]. intros u Hu. pose proof (co_path _ _ _ _ _ _ _ Hc) as Hpath. apply path_app_l in Hpath. by eapply path_tuples.
Qed.

(** ** One line pointer *)
Lemma walk_chain_ok s r : plan_inv s -> root_ok p r s -> is_root r ->
  exists s' n, ('(s, chain, latestdead) ← chain_loop E (S (S (Z.to_nat MaxHeapTuplesPerPage))) p (nline p) (lpi p r) r InvalidTransactionId s [] InvalidOffsetNumber;
    chain_finish r (lpi p r) s chain latestdead) = Ok (s', n) /\ step_ok s s' n /\ settled s' r.
Proof.
  intros Hp Hr Hroot. destruct (chain_loop_ok E p st Hl Hg Hst r (S (S (Z.to_nat MaxHeapTuplesPerPage))) s [] 0 r InvalidTransactionId) as (s1 & chain & ld & Hrun & Hs & Hw).
  - apply Hp.
  - done.
  - by left.
  - unfold lenZ. cbn [length]. lia.
  - by vm_compute.
  - change 0 with InvalidOffsetNumber in Hrun. rewrite Hrun, bind_val. cbv beta iota. destruct (chain_finish_ok s1 r chain ld) as (s2 & n & Hf & [Hi Hm Hc] & Hset); [by eapply same_inv|done|by eapply same_walked, Hw; apply same_sym|].
    exists s2, n. split_and!; [done| |done]. split; [done| |].
    + intros i Hi'. apply Hm. by rewrite (same_removed _ _ Hs).
    + rewrite Hc. unfold tuples_removed. by rewrite (same_removed _ _ Hs).
Qed.

Lemma extend_direct_step s u x y : plan_inv s -> direct u -> ~ is_marked s u ->
  heap_prune_record_unused s u = Ok (extend_direct s u) /\ step_ok s (set_xids (extend_direct s u) x y) 1 /\ settled (set_xids (extend_direct s u) x y) u.
Proof.
  intros Hp Hd Hm. pose proof (extend_direct_inv s u Hp Hd Hm) as Hinv. pose proof (proj1 Hd) as [Hu Hf].
  assert (Hperm : removed (extend_direct s u) ≡ₚ u :: removed s) by (unfold removed, from; cbn; solve_Permutation).
  destruct (extend_fit s u [] 0 Hp (NoDup_singleton u)) as (_ & _ & _ & _); [by intros y' ->%list_elem_of_singleton|]. split_and!.
  - unfold heap_prune_record_unused. assert (Hfit : lenZ (nowunused s ++ [u]) <= MaxHeapTuplesPerPage).
    { apply distinct_fit; [|intros i Hi; apply (pv_pages _ Hinv), elem_removed; by right; right]. pose proof (pv_nodup _ Hinv) as Hnd. unfold removed in Hnd.
      apply NoDup_app in Hnd as (_ & _ & Hnd). by apply NoDup_app in Hnd as (_ & _ & ?). }
    rewrite (push_fit _ _ _ (push_room _ _) Hfit), bind_val. pose proof (aset_mark s u (pv_arrays _ Hp) Hu []) as Hset. cbn [mark_all fold_left] in Hset. rewrite Hset. done.
  - split.
    + eapply same_inv, Hinv. by split_and!.
    + intros i Hi. change (i ∈ removed (extend_direct s u)). rewrite Hperm. set_solver.
    + unfold tuples_removed. change (removed (set_xids _ _ _)) with (removed (extend_direct s u)). unfold lenZ. rewrite Hperm, filter_cons, decide_True by done. cbn [length]. lia.
  - assert (u ∈ removed (set_xids (extend_direct s u) x y)) by (change (u ∈ removed (extend_direct s u)); rewrite Hperm; set_solver). by split.
Qed.

Lemma flags_cases l : lp_wf l -> lp_flags l = LP_UNUSED \/ lp_flags l = LP_NORMAL \/ lp_flags l = LP_REDIRECT \/ lp_flags l = LP_DEAD.
Proof. intros (_ & ? & _). unfold LP_UNUSED, LP_NORMAL, LP_REDIRECT, LP_DEAD. lia. Qed.

Lemma heap_prune_chain_ok s r : plan_inv s -> root_ok p r s ->
  exists s' n, heap_prune_chain E p r s = Ok (s', n) /\ step_ok s s' n /\ settled s' r.
Proof.
  intros Hp Hr. pose proof Hr as (Hrp & Hrm & Hru & Hrd). unfold heap_prune_chain. rewrite (load_ok p Hl r Hrp), bind_val. cbv zeta. fold (nline p).
  destruct (flags_cases _ (lp_is_wf p (r - 1))) as [?|[Hf|[Hf|?]]]; try done; fold (lpi p r) in Hf; unfold ItemIdIsNormal at 1; rewrite Hf; cbn [Z.eqb].
  - change (LP_NORMAL =? LP_NORMAL) with true. cbv iota. assert (Ht : is_tuple p r) by done. rewrite (header_ok p Hl r Ht), bind_val.
    destruct (HeapTupleHeaderIsHeapOnly (hdr p r)) eqn:Hho.
    + rewrite (status_ok p st s r (pv_arrays _ Hp) Hrp), bind_val. case_bool_decide as Hd; cbn [andb]; [destruct (HeapTupleHeaderIsHotUpdated (hdr p r)) eqn:Hhot; cbn [negb]|].
      * exists s, 0. split; [done|]. split; [apply step_same; [done|by apply same_refl]|]. split; [|intros _ _ [?|?]; unfold heap_only, hot in *; congruence].
        intros t Hrdr. exfalso. by eapply tuple_not_redirect.
      * destruct (extend_direct_step s r (new_prune_xid (extend_direct s r)) (HeapTupleHeaderAdvanceConflictHorizon E (hdr p r) (snapshotConflictHorizon (extend_direct s r))) Hp) as (Hrec & Hstep & Hset); [|done|].
        { split_and!; try done. unfold hot. congruence. }
        rewrite Hrec, bind_val. eexists _, _. split; [done|]. done.
      * exists s, 0. split; [done|]. split; [apply step_same; [done|by apply same_refl]|]. split; [|done]. intros t Hrdr. exfalso. by eapply tuple_not_redirect.
    + apply walk_chain_ok; [done|done|]. right. split; [done|]. unfold heap_only. congruence.
  - change (LP_REDIRECT =? LP_NORMAL) with false. cbv iota. apply walk_chain_ok; [done|done|]. left. by eexists.
Qed.

(** ** All of them *)
Lemma marked_settled s i : plan_inv s -> in_page p i -> is_marked s i -> settled s i.
Proof.
  intros Hp Hi [Ht|Hr]%(pv_marked _ Hp i Hi); [|by split]. destruct (pv_targets _ Hp i Ht) as (H1 & H2 & _). split; [|done].
  intros t Hrd. exfalso. by eapply tuple_not_redirect.
Qed.

Lemma scan_loop_ok rounds : forall offnum s n, plan_inv s -> tuples_removed s = n -> (forall i, 1 <= i < offnum -> settled s i) ->
  1 <= offnum -> offnum + Z.of_nat rounds = nline p + 1 ->
  exists s' n', scan_loop E rounds p offnum s n = Ok (s', n') /\ plan_inv s' /\ tuples_removed s' = n' /\ (forall i, in_page p i -> settled s' i).
Proof.
  induction rounds as [|rounds IH]; intros offnum s n Hp Hn Hset Hge Hend; cbn [scan_loop].
  { exists s, n. split_and!; try done. intros i [? ?]. apply Hset. lia. }
  assert (Hi : in_page p offnum) by (split; lia). assert (Hnext : forall s', (forall j, j ∈ removed s -> j ∈ removed s') -> settled s' offnum -> forall i, 1 <= i < offnum + 1 -> settled s' i).
  { intros s' Hm Hs i Hlt. destruct (decide (i = offnum)) as [->|]; [done|]. eapply settled_mono; [done|]. apply Hset. lia. }
  destruct (mark_ok p st Hl Hst s offnum (pv_arrays _ Hp) Hi) as (b & -> & Hb). rewrite bind_val. destruct b.
  { apply IH; [done|done| |lia|lia]. apply Hnext; [done|]. apply marked_settled; [done|done|]. by apply Hb. }
  rewrite (load_ok p Hl offnum Hi), bind_val. unfold ItemIdIsUsed, ItemIdIsDead.
  destruct (flags_cases _ (lp_is_wf p (offnum - 1))) as [Hf|[Hf|[Hf|Hf]]]; fold (lpi p offnum) in Hf; rewrite Hf.
  1,4: cbn [negb orb]; change (negb _ || _) with true; apply IH; [done|done| |lia|lia]; apply Hnext; [done|]; split; [intros t (_ & Hf' & _)|intros [_ Hf']]; rewrite Hf in Hf'; done.
  all: change (negb _ || _) with false; cbv iota; destruct (heap_prune_chain_ok s offnum Hp) as (s' & k & -> & [Hp' Hm Hc] & Hs');
    [split_and!; [done|by rewrite <- Hb|by rewrite Hf|by rewrite Hf]|].
  all: rewrite bind_val; cbv beta iota; apply IH; [done|lia|by apply Hnext|lia|lia].
Qed.
End Plan.
