(* ===== verification/HeapPruneGraph.v ===== *)
(** Chains across pruning: if the line pointers and tuples of a page change as the recorded
    decisions say, its chains stay sound, and from every root the same surviving tuples
    are reached. *)
From S2P Require Import Prelude ByteMem BufPage BufPageLayout BufPageSpec Transam HeapTup HeapVis HeapPrune HeapPruneChain HeapPrunePlan.

(** Membership in a list written out. *)
Ltac member := rewrite ?elem_of_app, ?elem_of_cons; tauto.

Section Across.
Context (E : xact_state) (p p' : Page) (st : Z -> option HTSV_Result) (s : PruneState).
Context (Hg : hot_graph E p).
Context (Hp : plan_inv E p st s) (Hset : forall i, in_page p i -> settled p st s i).
Context (Htup : forall i, is_tuple p' i <-> is_tuple p i /\ i ∉ removed s).
Context (Hhdr : forall i, is_tuple p' i -> hdr p' i = hdr p i).
Context (Hred : forall i t, is_redirect p' i t <-> (i, t) ∈ redirected s \/ is_redirect p i t /\ i ∉ removed s).

(** ** Removed line pointers *)
Lemma direct_end u y : direct p st u -> edge E p u y -> False.
Proof. intros (Ht & _ & _ & Hnh) [[Hr _]|(_ & Hh & _)]; [by eapply tuple_not_redirect|done]. Qed.

Lemma unused_heap_only u : u ∈ nowunused s -> is_tuple p u /\ heap_only p u.
Proof.
  intros Hu. destruct (pv_unused _ _ _ _ Hp u Hu) as [(? & ? & _)|(r & us & o & Hc & _ & Hin)]; [done|]. eapply path_tuples; [done| |done]. apply Hc.
Qed.

(** A member of a chain that is removed was not a root. *)
Lemma removed_member x y : edge E p x y -> y ∈ removed s -> y ∈ nowunused s.
Proof.
  intros He Hy. pose proof (edge_tuple _ _ _ _ He) as Ht. pose proof (hg_heap_only _ _ Hg _ _ He) as Hh. apply elem_removed in Hy.
  destruct Hy as [Hy|[Hy|?]]; [| |done]; exfalso.
  all: destruct (pv_roots _ _ _ _ Hp y) as [[t Hr]|[_ ?]]; [apply elem_of_app; auto| |done]; by eapply tuple_not_redirect.
Qed.

(** If the member before it stays, it was removed on its own. *)
Lemma removed_after x y : edge E p x y -> x ∉ removed s -> y ∈ removed s -> direct p st y.
Proof.
  intros He Hx Hy. pose proof (removed_member x y He Hy) as Hu. destruct (pv_unused _ _ _ _ Hp y Hu) as [?|(r & us & o & Hc & Hr & Hin)]; [done|exfalso].
  destruct (path_pred E p r us y (ce_path _ _ _ _ _ _ _ Hc) Hin) as (x' & Hx' & He'). apply Hx. rewrite (hg_unique _ _ Hg _ _ _ He He'). by eapply cert_removed.
Qed.

(** ** Edges *)
Lemma new_edge i j : edge E p' i j <-> (i, j) ∈ redirected s \/ edge E p i j /\ i ∉ removed s /\ j ∉ removed s.
Proof.
  split.
  - intros [[Hr Ht]|(Ht & Hh & Hc & Hjt & Hj)].
    + apply Hred in Hr as [?|[Hr Hn]]; [by left|right]. apply Htup in Ht as [Ht ?]. split_and!; [by left|done|done].
    + right. unfold hot, update_xid in *. rewrite (Hhdr i Ht) in *. rewrite (Hhdr j Hjt) in Hj. apply Htup in Ht as [Ht ?], Hjt as [Hjt ?]. split_and!; [|done|done]. right. by split_and!.
  - intros [Hin|(He & Hi & Hj)].
    + left. split; [apply Hred; by left|]. apply Htup. destruct (pv_targets _ _ _ _ Hp j) as (? & _ & ?); [|done]. apply list_elem_of_fmap. by exists (i, j).
    + assert (Hjt : is_tuple p' j) by (apply Htup; split; [by eapply edge_tuple|done]). destruct He as [[Hr _]|(Ht & Hh & Hc & _ & Hjoin)].
      * left. split; [apply Hred; by right|done].
      * assert (Hit : is_tuple p' i) by (by apply Htup). right. unfold hot, update_xid, joins. rewrite (Hhdr i Hit), (Hhdr j Hjt). by split_and!.
Qed.

(** Two roots do not share a chain. *)
Lemma roots_apart us : forall us' r r', path E p (r :: us) -> path E p (r' :: us') -> is_root p r -> is_root p r' -> lastof r us = lastof r' us' -> r = r'.
Proof.
  assert (Hroot : forall r us, path E p (r :: us) -> forall x, x ∈ us -> is_root p x -> False).
  { intros r us0 Hpath x Hx [[t Hr]|[_ Hnh]]; destruct (path_tuples E p Hg r us0 x Hpath Hx); [by eapply tuple_not_redirect|done]. }
  induction us as [|x us IH] using rev_ind; intros us' r r' Hp1 Hp2 Hr Hr'; destruct us' as [|x' us' _] using rev_ind; rewrite ?lastof_snoc; cbn [lastof fold_left]; intros Heq.
  - done.
  - subst r. exfalso. eapply (Hroot _ _ Hp2 x'); [member|done].
  - subst r'. exfalso. eapply (Hroot _ _ Hp1 x); [member|done].
  - subst x'. rewrite app_comm_cons in Hp1, Hp2. assert (He : forall q vs, path E p ((q :: vs) ++ [x]) -> edge E p (lastof q vs) x).
    { intros q vs Hq. destruct vs as [|v vs _] using rev_ind; [by destruct Hq|]. rewrite lastof_snoc. rewrite app_comm_cons, <- app_assoc in Hq. by apply path_edge in Hq. }
    apply (IH us' r r'); [by apply path_app_l in Hp1|by apply path_app_l in Hp2|done|done|]. eapply (hg_unique _ _ Hg); [by apply He|by apply He].
Qed.

Lemma redirect_cert r x : (r, x) ∈ redirected s -> is_root p r /\ r ∈ removed s /\ exists us, cert E p st s r us (Some x).
Proof.
  intros Hin. assert (Hf : r ∈ from s) by (apply list_elem_of_fmap; by exists (r, x)). split; [apply (pv_roots _ _ _ _ Hp), elem_of_app; by left|]. split; [apply elem_removed; by left|].
  by apply (pv_certs _ _ _ _ Hp r (Some x)).
Qed.

Lemma new_hot_graph : hot_graph E p'.
Proof.
  split.
  - intros i t [Hin|[Hr Hn]]%Hred; apply Htup.
    + destruct (pv_targets _ _ _ _ Hp t) as (? & _ & ?); [apply list_elem_of_fmap; by exists (i, t)|done].
    + assert (He : edge E p i t) by (left; split; [done|by eapply hg_redirect]). split; [by eapply edge_tuple|]. intros Ht. apply Hn.
      destruct (Hset i (proj1 Hr)) as [Hs _]. apply (Hs t Hr). by eapply removed_after.
  - intros i j Hij. assert (Hj : is_tuple p' j) by (by eapply edge_tuple). unfold heap_only. rewrite (Hhdr j Hj). apply new_edge in Hij as [Hin|(He & _)]; [|by eapply hg_heap_only].
    destruct (redirect_cert i j Hin) as (_ & _ & us & Hc). destruct (ce_next _ _ _ _ _ _ _ Hc) as [He _]. by eapply hg_heap_only.
  - intros i j k [Hi|(Hi & Hni & _)]%new_edge [Hj|(Hj & Hnj & _)]%new_edge.
    + destruct (redirect_cert i k Hi) as (Hri & _ & us & Hc). destruct (redirect_cert j k Hj) as (Hrj & _ & us' & Hc').
      eapply (roots_apart us us'); [apply Hc|apply Hc'|done|done|]. destruct (ce_next _ _ _ _ _ _ _ Hc) as [He _], (ce_next _ _ _ _ _ _ _ Hc') as [He' _]. by eapply hg_unique.
    + exfalso. destruct (redirect_cert i k Hi) as (Hri & _ & us & Hc). destruct (ce_next _ _ _ _ _ _ _ Hc) as [He _]. apply Hnj.
      rewrite (hg_unique _ _ Hg _ _ _ Hj He). eapply cert_removed; [done|exact Hi|apply last_in].
    + exfalso. destruct (redirect_cert j k Hj) as (Hrj & _ & us & Hc). destruct (ce_next _ _ _ _ _ _ _ Hc) as [He _]. apply Hni.
      rewrite (hg_unique _ _ Hg _ _ _ Hi He). eapply cert_removed; [done|exact Hj|apply last_in].
    + by eapply hg_unique.
  - destruct (hg_rank _ _ Hg) as [rank Hr]. exists rank. intros i j [Hin|(He & _)]%new_edge; [|by apply Hr].
    destruct (redirect_cert i j Hin) as (_ & _ & us & Hc). destruct (ce_next _ _ _ _ _ _ _ Hc) as [He _]. pose proof (Hr _ _ He).
    pose proof (path_rank E p rank _ Hr (ce_path _ _ _ _ _ _ _ Hc)) as Hs. apply StronglySorted_inv in Hs as [_ Hs]. pose proof (last_in us i) as Hlast.
    apply elem_of_cons in Hlast as [Heq|Hlast]; [rewrite Heq in *; lia|]. rewrite Forall_forall in Hs. specialize (Hs _ Hlast). lia.
Qed.

(** ** Reachable tuples *)
Lemma path_rtc r us : path E p (r :: us) -> forall x, x ∈ r :: us -> rtc (edge E p) x (lastof r us).
Proof.
  revert r. induction us as [|y us IH]; intros r Hpath x Hx; [apply list_elem_of_singleton in Hx; subst; apply rtc_refl|]. destruct Hpath as [He Hpath]. change (lastof r (y :: us)) with (lastof y us).
  apply elem_of_cons in Hx as [->|Hx]; [eapply rtc_l; [done|]; apply IH; [done|member]|by apply IH].
Qed.

Lemma path_head r us : path E p (r :: us) -> rtc (edge E p) r (lastof r us).
Proof. intros Hpath. apply path_rtc; [done|member]. Qed.

(** From a line pointer that stays. *)
Lemma reach_kept x y : rtc (edge E p) x y -> x ∉ removed s -> y ∉ removed s -> rtc (edge E p') x y.
Proof.
  intros Hxy. induction Hxy as [x|x z y He Hzy IH]; intros Hx Hy; [apply rtc_refl|]. assert (Hz : z ∉ removed s).
  { intros Hz. pose proof (removed_after x z He Hx Hz) as Hd. destruct Hzy as [|z w y Hzw _]; [done|]. by eapply direct_end. }
  eapply rtc_l; [apply new_edge; right; by split_and!|]. by apply IH.
Qed.

Lemma reach_along r us : path E p (r :: us) -> forall y, rtc (edge E p) r y -> y ∉ r :: us -> exists z, edge E p (lastof r us) z /\ rtc (edge E p) z y.
Proof.
  revert r. induction us as [|v us IH]; intros r Hpath y Hry Hy; destruct Hry as [r|r z y He Hzy].
  1,3: exfalso; apply Hy, elem_of_cons; by left.
  - by exists z.
  - destruct Hpath as [He' Hpath]. rewrite (edge_fun _ _ _ _ _ He He') in Hzy. change (lastof r (v :: us)) with (lastof v us). apply IH; [done|done|]. intros Hin. apply Hy, elem_of_cons. by right.
Qed.

Lemma root_recorded r : is_root p r -> r ∈ removed s -> exists o us, recorded s r o /\ cert E p st s r us o.
Proof.
  intros Hr Hin. apply elem_removed in Hin as [Hin|[Hin|Hin]].
  - apply list_elem_of_fmap in Hin as ([r' x] & -> & Hin). destruct (redirect_cert r' x Hin) as (_ & _ & us & Hc). by exists (Some x), us.
  - destruct (pv_certs _ _ _ _ Hp r None Hin) as [us Hc]. by exists None, us.
  - exfalso. destruct (unused_heap_only r Hin) as [Ht Hh]. destruct Hr as [[t Hr]|[_ ?]]; [by eapply tuple_not_redirect|done].
Qed.

Lemma reach_root r y : is_root p r -> is_tuple p' y -> rtc (edge E p') r y <-> rtc (edge E p) r y.
Proof.
  intros Hr Hy. pose proof (proj1 (Htup y) Hy) as [_ Hny]. split.
  - clear Hr. intros Hry. induction Hry as [r|r z y Hrz Hzy IH]; [apply rtc_refl|]. specialize (IH Hy Hny). apply new_edge in Hrz as [Hin|(He & _)]; [|by eapply rtc_l].
    destruct (redirect_cert r z Hin) as (_ & _ & us & Hc). destruct (ce_next _ _ _ _ _ _ _ Hc) as [He _]. etransitivity; [apply path_head, Hc|]. by eapply rtc_l.
  - intros Hry. destruct (decide (r ∈ removed s)) as [Hin|Hn]; [|by apply reach_kept].
    destruct (root_recorded r Hr Hin) as (o & us & Hrec & Hc). destruct (reach_along r us (ce_path _ _ _ _ _ _ _ Hc) y Hry) as (z & He & Hzy).
    { intros Hus. apply Hny. by eapply cert_removed. }
    pose proof (ce_next _ _ _ _ _ _ _ Hc) as Hnext. destruct o as [x|].
    + destruct Hnext as [Hex _]. rewrite (edge_fun _ _ _ _ _ He Hex) in Hzy. eapply rtc_l; [apply new_edge; by left|]. apply reach_kept; [done| |done].
      apply (pv_targets _ _ _ _ Hp). apply list_elem_of_fmap. by exists (r, x).
    + exfalso. destruct (Hnext z He) as [Hz Hd]. destruct Hzy as [|z w y Hzw _]; [apply Hny, elem_removed; by right; right|by eapply direct_end].
Qed.

(** ** Why a tuple was removed *)
Lemma removed_tuple i : is_tuple p i -> i ∈ removed s -> dying st i /\ exists z, rtc (edge E p) i z /\ is_tuple p z /\ dead st z /\ z ∈ removed s.
Proof.
  intros Ht Hi. assert (Hdir : direct p st i -> dying st i /\ exists z, rtc (edge E p) i z /\ is_tuple p z /\ dead st z /\ z ∈ removed s).
  { intros (_ & _ & Hd & _). split; [by left|]. exists i. split_and!; [apply rtc_refl|done|done|done]. }
  assert (Hcert : forall r us o, cert E p st s r us o -> recorded s r o -> i ∈ r :: us -> dying st i /\ exists z, rtc (edge E p) i z /\ is_tuple p z /\ dead st z /\ z ∈ removed s).
  { intros r us o Hc Hr Hin. split; [by eapply ce_dying|]. exists (lastof r us). assert (Hl : is_tuple p (lastof r us)).
    { destruct us as [|u us _] using rev_ind; [apply list_elem_of_singleton in Hin; by subst|]. rewrite lastof_snoc. eapply path_tuples; [done|apply Hc|member]. }
    split_and!; [apply path_rtc; [apply Hc|done]|done|by eapply ce_dead|]. eapply cert_removed; [done|done|apply last_in]. }
  pose proof Hi as Hi'. apply elem_removed in Hi' as [Hin|[Hin|Hin]].
  - apply list_elem_of_fmap in Hin as ([r x] & -> & Hin). destruct (redirect_cert r x Hin) as (_ & _ & us & Hc). eapply (Hcert r us (Some x)); [done|done|member].
  - destruct (pv_certs _ _ _ _ Hp i None Hin) as [us Hc]. eapply (Hcert i us None); [done|done|member].
  - destruct (pv_unused _ _ _ _ Hp i Hin) as [?|(r & us & o & Hc & Hr & Hus)]; [by apply Hdir|]. eapply (Hcert r us o); [done|done|member].
Qed.
End Across.
