(* ===== verification/HeapPruneExec.v ===== *)
(** Carrying out the decisions of pruning: the line pointers are rewritten and the page is
    compacted.  The contents of the page change item by item, as [prune_item] says. *)
From S2P Require Import Prelude ByteMem BufPage BufPageLayout BufPageSpec Transam HeapTup HeapVis HeapPrune HeapPruneChain.

(** ** Storing at line numbers *)
Definition put_items {B A} (g : B -> Z) (v : B -> A) (es : list B) (L : list A) : list A := fold_left (fun L e => <[Z.to_nat (g e - 1) := v e]> L) es L.

Lemma put_items_lookup {B A} (g : B -> Z) (v : B -> A) (es : list B) : NoDup (map g es) -> (forall e, e ∈ es -> 1 <= g e) -> forall L (k : nat), (k < length L)%nat ->
  put_items g v es L !! k =
  match find (fun e => g e =? Z.of_nat k + 1) es with Some e => Some (v e) | None => L !! k end.
Proof.
  induction es as [|e es IH]; intros Hnd Hpos L k Hk; [done|]. cbn [map] in Hnd. apply NoDup_cons in Hnd as [Hne Hnd]. cbn [put_items fold_left find]. fold (put_items g v es (<[Z.to_nat (g e - 1) := v e]> L)).
  rewrite IH; [|done|intros e' He'; apply Hpos; set_solver|by rewrite length_insert]. pose proof (Hpos e ltac:(set_solver)). destruct (Z.eqb_spec (g e) (Z.of_nat k + 1)) as [Heq|Hneq].
  - destruct (find _ es) as [e'|] eqn:Hf.
    + apply find_some in Hf as [Hin Hg]. apply Z.eqb_eq in Hg. exfalso. apply Hne. rewrite Heq, <- Hg. apply list_elem_of_In. by apply in_map.
    + replace (Z.to_nat (g e - 1)) with k by lia. by rewrite list_lookup_insert_eq.
  - destruct (find _ es); [done|]. by rewrite list_lookup_insert_ne by lia.
Qed.

Lemma put_items_length {B A} (g : B -> Z) (v : B -> A) (es : list B) : forall L, length (put_items g v es L) = length L.
Proof. induction es as [|e es IH]; intros L; [done|]. cbn. unfold put_items in IH. by rewrite IH, length_insert. Qed.

(** ** One line pointer *)
(** What a line pointer without storage stands for. *)
Definition link_item (l : ItemIdData) : item := abs_lp [] l.

Lemma abs_lp_empty p l : lp_len l = 0 -> abs_lp p l = link_item l.
Proof. intros Hl. unfold link_item, abs_lp. rewrite Hl. done. Qed.

Definition tail_same (p p' : Page) : Prop := pd_special p' = pd_special p /\ forall a, pd_special p <= a -> nthZ p' a = nthZ p a.

Lemma update_lp_ok p i f l : PageOK p -> heap_page p -> in_page p i -> f (lpi p i) = l -> lp_wf l -> lp_len l = 0 ->
  exists p', update_lp p i f = Ok p' /\ PageOK p' /\ heap_page p' /\ nline p' = nline p /\
    items p' = <[Z.to_nat (i - 1) := link_item l]> (items p) /\ tail_same p p'.
Proof.
  intros Hok Hh Hi Hf Hwf Hlen. pose proof (ok_nline p Hok) as [Hlv Hnb]. unfold in_page in Hi. pose proof (ok_layout p Hok) as [].
  unfold update_lp. rewrite load_lp_ok by (apply Hok || lia). rewrite bind_val. fold (lpi p i). rewrite Hf.
  destruct (store_lp_ok p i l) as (p1 & Hst & Hl1 & Hb1 & Hlp1 & Hn1); [apply Hok|apply Hok|lia|]. rewrite itemid_unpack_pack in Hlp1 by done.
  exists p1. assert (Hg : forall a, 0 <= a <= 22 -> get16 p1 a = get16 p a).
  { intros a ?. apply get16_agree. intros b ?. apply Hn1; unfold PageGetItemId; psizes; lia. }
  assert (Hlo : pd_lower p1 = pd_lower p) by (apply Hg; lia). assert (Hup : pd_upper p1 = pd_upper p) by (apply Hg; lia).
  assert (Hsp : pd_special p1 = pd_special p) by (apply Hg; lia). pose proof (nline_lower _ _ Hlo) as Hnl.
  assert (Hlps : forall j, 0 <= j -> lp p1 j = if decide (j = i - 1) then l else lp p j).
  { intros j Hj. case_decide as Ej; [by rewrite Ej|]. apply (lp_other p p1 (i - 1) j); [done|done|]. replace (i - 1 + 1) with i by lia. done. }
  assert (Hm : forall a, pd_lower p <= a -> nthZ p1 a = nthZ p a) by (intros a Ha; apply Hn1; unfold PageGetItemId; psizes; lia).
  split; [done|]. split_and!; try done.
  - destruct Hok as [Hlk Hbk Hlay Hlpk Hdk]. split; rewrite ?Hlo, ?Hup, ?Hsp, ?Hnl; try done.
    + intros j Hj. rewrite Hlps by lia. case_decide; [by split|]. by apply Hlpk.
    + intros j k Hj Hk Hjk. rewrite !Hlps by lia. repeat case_decide; try (by left); [by right; left|]. by apply Hdk.
  - intros j. rewrite Hnl. intros Hj. rewrite Hlps by lia. case_decide; [by rewrite Hlen|]. by apply Hh.
  - apply items_eq; [lia| |].
    + pose proof (lenZ_items p). unfold lenZ in *. rewrite length_insert. lia.
    + rewrite Hnl. intros k Hk. rewrite Hlps by lia. case_decide as Ek.
      * replace (Z.to_nat (i - 1)) with k by lia. rewrite list_lookup_insert_eq, (abs_lp_empty p1) by (done || (pose proof (lenZ_items p); unfold lenZ in *; lia)). done.
      * rewrite list_lookup_insert_ne, items_lookup by lia. f_equal. symmetry. apply abs_lp_data; [done|lia|done|]. intros a Ha. apply Hm. lia.
  - split; [done|]. intros a Ha. apply Hm. psizes. lia.
Qed.

Lemma tail_trans p p1 p2 : tail_same p p1 -> tail_same p1 p2 -> tail_same p p2.
Proof. intros [H1 H2] [H3 H4]. split; [congruence|]. intros a Ha. rewrite H4, H2 by lia. done. Qed.

(** ** The three loops *)
Lemma apply_each_ok f (l0 : ItemIdData) : (forall l, f l = l0) -> lp_wf l0 -> lp_len l0 = 0 -> forall offs p, PageOK p -> heap_page p ->
  (forall i, i ∈ offs -> in_page p i) ->
  exists p', apply_each f p offs = Ok p' /\ PageOK p' /\ heap_page p' /\ nline p' = nline p /\
    items p' = put_items id (fun _ => link_item l0) offs (items p) /\ tail_same p p'.
Proof.
  intros Hf Hwf Hlen. induction offs as [|i offs IH]; intros p Hok Hh Hin; cbn [apply_each fold_left]; [by exists p|].
  destruct (update_lp_ok p i f l0 Hok Hh ltac:(apply Hin; set_solver) (Hf _) Hwf Hlen) as (p1 & -> & Hok1 & Hh1 & Hn1 & Hi1 & Ht1). rewrite bind_val.
  destruct (IH p1 Hok1 Hh1) as (p2 & -> & Hok2 & Hh2 & Hn2 & Hi2 & Ht2); [intros j Hj; unfold in_page; rewrite Hn1; apply Hin; set_solver|].
  exists p2. split_and!; try done; [congruence|by rewrite Hi2, Hi1|by eapply tail_trans].
Qed.

Lemma apply_redirects_ok : forall rs p, PageOK p -> heap_page p -> (forall i t, (i, t) ∈ rs -> in_page p i /\ in_page p t) ->
  exists p', apply_redirects p rs = Ok p' /\ PageOK p' /\ heap_page p' /\ nline p' = nline p /\
    items p' = put_items fst (fun e => mkItem LP_REDIRECT (snd e) []) rs (items p) /\ tail_same p p'.
Proof.
  induction rs as [|[i t] rs IH]; intros p Hok Hh Hin; cbn [apply_redirects fold_left]; [by exists p|].
  destruct (Hin i t) as [Hi Ht]; [set_solver|]. pose proof (ok_nline p Hok) as [_ Hnb].
  destruct (update_lp_ok p i (fun lp => ItemIdSetRedirect lp t) (mkItemId t LP_REDIRECT 0) Hok Hh Hi eq_refl) as (p1 & -> & Hok1 & Hh1 & Hn1 & Hi1 & Ht1); [|done|].
  { unfold in_page in Ht. psizes. unfold lp_wf, LP_REDIRECT. cbn. lia. }
  rewrite bind_val. destruct (IH p1 Hok1 Hh1) as (p2 & -> & Hok2 & Hh2 & Hn2 & Hi2 & Ht2).
  { intros j k Hj. unfold in_page. rewrite Hn1. apply Hin. set_solver. }
  exists p2. split_and!; try done; [congruence|by rewrite Hi2, Hi1|by eapply tail_trans].
Qed.

(** ** The items afterwards *)
Definition prune_item (rs : list (Z * Z)) (d u : list Z) (i : Z) (x : item) : item :=
  match find (fun e => fst e =? i) rs with
  | Some e => mkItem LP_REDIRECT (snd e) []
  | None => if bool_decide (i ∈ d) then mkItem LP_DEAD 0 [] else if bool_decide (i ∈ u) then unused_item else x
  end.
Definition pruned_items (rs : list (Z * Z)) (d u : list Z) (L : list item) : list item :=
  imap (fun k x => prune_item rs d u (Z.of_nat k + 1) x) L.

Lemma find_mem (i : Z) l : find (fun e => e =? i) l = if bool_decide (i ∈ l) then Some i else None.
Proof.
  induction l as [|x l IH]; [done|]. cbn [find]. rewrite IH. destruct (Z.eqb_spec x i) as [->|Hne].
  - by rewrite bool_decide_eq_true_2 by set_solver.
  - destruct (bool_decide (i ∈ l)) eqn:Hb.
    + apply bool_decide_eq_true in Hb. by rewrite bool_decide_eq_true_2 by set_solver.
    + apply bool_decide_eq_false in Hb. by rewrite bool_decide_eq_false_2 by set_solver.
Qed.

Lemma execute_ok p rs d u scratch : PageOK p -> heap_page p -> lenZ scratch = BLCKSZ -> all_bytes scratch ->
  NoDup (map fst rs ++ d ++ u) -> (forall i, i ∈ map fst rs ++ d ++ u -> in_page p i) -> (forall t, t ∈ map snd rs -> in_page p t) ->
  exists p', heap_page_prune_execute p rs d u scratch = Ok p' /\ PageOK p' /\ items p' = strip_unused (pruned_items rs d u (items p)) /\ tail_same p p'.
Proof.
  intros Hok Hh Hsl Hsb Hnd Hin Ht. unfold heap_page_prune_execute. pose proof (ok_nline p Hok) as [_ Hnb].
  destruct (apply_redirects_ok rs p Hok Hh) as (p1 & -> & Hok1 & Hh1 & Hn1 & Hi1 & Ht1).
  { intros i t Hit. split; [apply Hin, elem_of_app; left|apply Ht]; apply list_elem_of_fmap; by exists (i, t). }
  rewrite bind_val. destruct (apply_each_ok ItemIdSetDead (mkItemId 0 LP_DEAD 0) (fun _ => eq_refl) ltac:(done) eq_refl d p1 Hok1 Hh1) as (p2 & -> & Hok2 & Hh2 & Hn2 & Hi2 & Ht2).
  { intros i Hi. unfold in_page. rewrite Hn1. apply Hin. rewrite !elem_of_app. tauto. }
  rewrite bind_val. destruct (apply_each_ok ItemIdSetUnused (mkItemId 0 LP_UNUSED 0) (fun _ => eq_refl) ltac:(done) eq_refl u p2 Hok2 Hh2) as (p3 & -> & Hok3 & Hh3 & Hn3 & Hi3 & Ht3).
  { intros i Hi. unfold in_page. rewrite Hn2, Hn1. apply Hin. rewrite !elem_of_app. tauto. }
  rewrite bind_val. destruct (repair_ok p3 scratch Hok3 Hh3 Hsl Hsb) as (p' & -> & Hok' & Hi' & Hs' & _ & _ & Hm').
  exists p'. split_and!; [done|done| |by eapply tail_trans, tail_trans, tail_trans; [done|done|done|split; [done|done]]].
  rewrite Hi'. f_equal. apply NoDup_app in Hnd as (Hnd1 & Hd1 & Hnd2). apply NoDup_app in Hnd2 as (Hnd2 & Hd2 & Hnd3).
  assert (Hpos : forall i, i ∈ map fst rs ++ d ++ u -> 1 <= i) by (intros i Hi; apply Hin in Hi; unfold in_page in Hi; lia).
  apply list_eq. intros k. destruct (decide (k < length (items p))%nat) as [Hk|Hk].
  - unfold pruned_items. rewrite list_lookup_imap, Hi3, Hi2, Hi1.
    rewrite !put_items_lookup; rewrite ?map_id, ?put_items_length; try done; try (intros e He; apply Hpos; rewrite !elem_of_app; try tauto; left; apply list_elem_of_fmap; by exists e).
    unfold id. rewrite !find_mem. unfold prune_item. destruct (lookup_lt_is_Some_2 _ _ Hk) as [x ->]. cbn [fmap option_fmap option_map].
    set (i := Z.of_nat k + 1). destruct (find (fun e => fst e =? i) rs) as [e|] eqn:Hf.
    + apply find_some in Hf as [He%list_elem_of_In Hei]. apply Z.eqb_eq in Hei. assert (Hir : i ∈ map fst rs) by (apply list_elem_of_fmap; by exists e).
      rewrite !bool_decide_eq_false_2; [done|intros Hx; apply (Hd1 i Hir), elem_of_app; by left|intros Hx; apply (Hd1 i Hir), elem_of_app; by right].
    + case_bool_decide as Hu; [|by case_bool_decide]. rewrite bool_decide_eq_false_2; [done|]. intros Hx. by apply (Hd2 i).
  - unfold pruned_items. rewrite !lookup_ge_None_2; [done|by rewrite length_imap; lia|]. rewrite Hi3, Hi2, Hi1, !put_items_length. lia.
Qed.
