(* ===== verification/HeapPruneHints.v ===== *)
(** The first phase of pruning: the status of every tuple.  The loop reads the header of
    each tuple from the page, asks for its status and stores the hint bits that the check
    sets; nothing else on the page changes. *)
From S2P Require Import Prelude ByteMem BufPage BufPageLayout BufPageSpec Transam HeapTup HeapVis HeapVisSpec HeapPrune HeapPruneChain.

(** ** Hint bits are only added *)
Definition grows (t t' : HeapTupleHeaderData) : Prop :=
  exists f, is_u 16 f /\ t' = set_infomask t (Z.lor (t_infomask t) f).

Lemma grows_refl t : grows t t.
Proof. exists 0. split; [done|]. rewrite Z.lor_0_r. by destruct t. Qed.
Lemma grows_trans t t1 t2 : grows t t1 -> grows t1 t2 -> grows t t2.
Proof. intros (f & Hf & ->) (g & Hg & ->). exists (Z.lor f g). split; [by apply is_u_lor|]. cbn. by rewrite Z.lor_assoc. Qed.
Lemma set_hint_grows E buffer t f x : is_u 16 f -> grows t (SetHintBits E buffer t f x).
Proof. intros Hf. unfold SetHintBits. case_match; [apply grows_refl|by exists f]. Qed.

Lemma vacuum_grows E buffer t : grows t (fst (fst (HeapTupleSatisfiesVacuumHorizon E buffer t))).
Proof.
  unfold HeapTupleSatisfiesVacuumHorizon. assert (Hmin : grows t (fst (vacuum_xmin E buffer t))).
  { unfold vacuum_xmin, inserter_done. repeat case_match; cbn [fst]; try apply grows_refl; by apply set_hint_grows. }
  assert (Hmax : forall u, grows u (fst (fst (vacuum_xmax E buffer u)))).
  { intros u. unfold vacuum_xmax, vacuum_locked. repeat case_match; cbn [fst]; try apply grows_refl; by apply set_hint_grows. }
  destruct (vacuum_xmin E buffer t) as [t1 [r|]]; [done|]. cbn [fst] in Hmin. by eapply grows_trans.
Qed.

Lemma grows_has t t' g : grows t t' -> has (t_infomask t) g = true -> has (t_infomask t') g = true.
Proof. intros (f & _ & ->) H. cbn. by rewrite has_set, H. Qed.

(** ** Headers as bytes *)
Lemma header_at_ext p a p' a' : (forall d, 0 <= d < 22 -> nthZ p' (a' + d) = nthZ p (a + d)) -> header_at p' a' = header_at p a.
Proof.
  intros H. assert (H16 : forall d, 0 <= d < 21 -> get16 p' (a' + d) = get16 p (a + d)).
  { intros d Hd. apply get16_ext; [apply H; lia|]. rewrite <- !Z.add_assoc. apply H. lia. }
  assert (H32 : forall d, 0 <= d < 19 -> get32 p' (a' + d) = get32 p (a + d)).
  { intros d Hd. apply get32_ext. intros e He. rewrite <- !Z.add_assoc. apply H. lia. }
  unfold header_at. rewrite !H16, !H32 by lia. f_equal. pose proof (H32 0 ltac:(lia)) as H0. by rewrite !Z.add_0_r in H0.
Qed.

Lemma header_put p a m : 0 <= a -> a + 22 <= lenZ p -> is_u 16 m -> header_at (put16 p (a + 20) m) a = set_infomask (header_at p a) m.
Proof.
  intros Ha Hl Hm. unfold header_at, set_infomask. cbn. rewrite get16_put16 by (done || lia).
  rewrite !get32_put16_ne, !get16_put16_ne by lia. done.
Qed.

(** ** One store *)
(** Byte [d] of tuple [i]. *)
Definition tuple_byte (p : Page) (i d : Z) : Z := nthZ p (lp_off (lpi p i) + d).

Record same_lines (p p' : Page) : Prop := {
  sl_lines : heap_lines p';
  sl_nline : nline p' = nline p;
  sl_lpi : forall i, in_page p i -> lpi p' i = lpi p i;
  sl_tail : pd_special p' = pd_special p /\ forall a, pd_special p <= a -> nthZ p' a = nthZ p a }.

Lemma tuple_extent p i : heap_lines p -> is_tuple p i -> pd_upper p <= lp_off (lpi p i) /\ lp_off (lpi p i) + lp_len (lpi p i) <= pd_special p /\ 23 <= lp_len (lpi p i).
Proof.
  intros Hl Hi. pose proof (hl_normal _ Hl i Hi) as Hlen. destruct Hi as [[Hi1 Hi2] Hf]. pose proof (ok_lps p (hl_ok _ Hl) (i - 1) ltac:(lia)) as [_ Hs].
  fold (lpi p i) in Hs. unfold SizeofHeapTupleHeader in Hlen. destruct Hs as (Hu & _ & Hend); [lia|]. pose proof (alen_bounds _ (lp_is_wf p (i - 1))) as [Ha _]. fold (lpi p i) in Ha. lia.
Qed.

Lemma tuples_apart p i j : heap_lines p -> is_tuple p i -> is_tuple p j -> i <> j ->
  lp_off (lpi p i) + lp_len (lpi p i) <= lp_off (lpi p j) \/ lp_off (lpi p j) + lp_len (lpi p j) <= lp_off (lpi p i).
Proof.
  intros Hl Hi Hj Hne. destruct (tuple_extent p i Hl Hi) as (_ & _ & H1). destruct (tuple_extent p j Hl Hj) as (_ & _ & H2).
  pose proof (alen_bounds _ (lp_is_wf p (i - 1))) as [Ha _]. pose proof (alen_bounds _ (lp_is_wf p (j - 1))) as [Hb _]. fold (lpi p i) in Ha. fold (lpi p j) in Hb.
  destruct Hi as [[? ?] _], Hj as [[? ?] _]. destruct (ok_disjoint p (hl_ok _ Hl) (i - 1) (j - 1)) as [Hd|[Hd|[Hd|Hd]]]; try lia; fold (lpi p i) in Hd; fold (lpi p j) in Hd; lia.
Qed.

Lemma same_lines_of p p' : heap_lines p -> lenZ p' = BLCKSZ -> all_bytes p' -> agree 0 (pd_upper p) p p' -> agree (pd_special p) BLCKSZ p p' -> 
  (forall a, BLCKSZ <= a -> nthZ p' a = nthZ p a) -> same_lines p p'.
Proof.
  intros Hl Hl' Hb' Hlow Hhigh Hout. pose proof (hl_ok _ Hl) as Hok. pose proof (ok_nline p Hok) as [Hlv Hnb]. pose proof (ok_layout p Hok) as [].
  assert (Hf : forall a, 0 <= a <= 22 -> get16 p' a = get16 p a) by (intros a ?; apply get16_agree; eapply agree_weaken; [exact Hlow|psizes; lia..]).
  assert (H1 : pd_lower p' = pd_lower p) by (apply Hf; lia). assert (H2 : pd_upper p' = pd_upper p) by (apply Hf; lia).
  assert (H3 : pd_special p' = pd_special p) by (apply Hf; lia). pose proof (nline_lower _ _ H1) as Hn.
  assert (Hlp : forall i, 0 <= i < nline p -> lp p' i = lp p i) by (intros i ?; apply lp_agree; eapply agree_weaken; [exact Hlow|psizes; lia..]).
  assert (Hlpi : forall i, in_page p i -> lpi p' i = lpi p i) by (intros i [? ?]; apply Hlp; lia).
  assert (Htup : forall i, is_tuple p' i -> is_tuple p i).
  { intros i [Hi Hfl]. assert (in_page p i) by (unfold in_page in *; lia). split; [done|]. by rewrite <- Hlpi. }
  split; try done.
  - split; [| | | |rewrite Hn; apply Hl].
    + split; try done; rewrite ?H1, ?H2, ?H3, ?Hn; [apply Hok| |].
      * intros i Hi. rewrite Hlp by done. by apply Hok.
      * intros i j ? ? ?. rewrite !Hlp by done. by apply Hok.
    + intros i Hi. rewrite Hn in Hi. rewrite Hlp by done. by apply (hl_heap _ Hl).
    + intros i Hi. pose proof (Htup i Hi) as Hi'. rewrite Hlpi by apply Hi'. by apply (hl_normal _ Hl).
    + intros i t (Hi & Hfl & Ho). assert (Hi' : in_page p i) by (unfold in_page in *; lia). rewrite Hlpi in * by done. eapply (hl_redirect _ Hl). by split.
  - split; [done|]. intros a Ha. destruct (decide (a < BLCKSZ)); [apply Hhigh; lia|apply Hout; lia].
Qed.

Lemma store_infomask_ok p i m : heap_lines p -> is_tuple p i -> is_u 16 m ->
  let p' := store_infomask p (lpi p i) m in
  same_lines p p' /\ hdr p' i = set_infomask (hdr p i) m /\ (forall d, 0 <= d -> d <> 20 -> d <> 21 -> tuple_byte p' i d = tuple_byte p i d) /\
  (forall j d, is_tuple p j -> j <> i -> 0 <= d < lp_len (lpi p j) -> tuple_byte p' j d = tuple_byte p j d).
Proof.
  intros Hl Hi Hm p'. destruct (tuple_extent p i Hl Hi) as (Hu & Hs & Hlen). pose proof (ok_layout p (hl_ok _ Hl)) as []. pose proof (ok_len p (hl_ok _ Hl)) as Hpl.
  set (a0 := lp_off (lpi p i)) in *. assert (Hp' : p' = put16 p (a0 + 20) m) by (unfold p', store_infomask, ItemIdGetOffset; by rewrite wrapu_small).
  psizes. assert (Hn : forall a, 0 <= a -> a < a0 + 20 \/ a0 + 22 <= a -> nthZ p' a = nthZ p a) by (intros a Ha Ho; rewrite Hp'; apply nthZ_put16_ne; lia).
  assert (Hsl : same_lines p p').
  { apply same_lines_of; [done|rewrite Hp', lenZ_put16 by lia; done|rewrite Hp'; apply all_bytes_put16, Hl|intros a Ha; psizes; apply Hn; lia..]. }
  assert (Hlp : forall j, in_page p j -> lpi p' j = lpi p j) by apply Hsl. split_and!; [done| | |].
  - unfold hdr. rewrite Hlp by apply Hi. fold a0. rewrite Hp'. apply header_put; [lia..|done].
  - intros d Hd H20 H21. unfold tuple_byte. rewrite Hlp by apply Hi. fold a0. apply Hn; lia.
  - intros j d Hj Hne Hd. destruct (tuples_apart p i j Hl Hi Hj) as [H|H]; [done| |]; unfold tuple_byte; rewrite Hlp by apply Hj; fold a0 in H;
      destruct (tuple_extent p j Hl Hj) as (? & ? & ?); apply Hn; lia.
Qed.

Lemma hdr_ext p p' i j : (forall d, 0 <= d < 22 -> tuple_byte p' j d = tuple_byte p i d) -> hdr p' j = hdr p i.
Proof. intros H. apply header_at_ext, H. Qed.

Lemma infomask_range p a : all_bytes p -> is_u 16 (t_infomask (header_at p a)).
Proof. intros Hb. by apply get16_is_u. Qed.

(** ** The status *)
Section Status.
Context (V : horizons) (buffer : BufferState) (oldest snap0 : Z).

(** No one can need a tuple whose deleter is [x]: it is older than the horizon, or than
    the snapshots allowed by [old_snapshot_threshold]. *)
Definition snap_limit (m : Z) : Prop := m = snap0 \/ exists ts, TransactionIdLimitedForOldSnapshots V = Some (m, ts).
Definition expired (x : Z) : Prop :=
  TransactionIdIsValid oldest = true /\ NormalTransactionIdPrecedes x oldest = true \/ vistest V x = true \/
  OldSnapshotThresholdActive V = true /\ exists m, snap_limit m /\ TransactionIdIsValid m = true /\ TransactionIdPrecedes x m = true.

(** The status of a tuple, with the horizons taken into account. *)
Definition judged (E : xact_state) (t : HeapTupleHeaderData) (r : HTSV_Result) : Prop :=
  r = fst (vacuum_spec E t) \/ fst (vacuum_spec E t) = HEAPTUPLE_RECENTLY_DEAD /\ r = HEAPTUPLE_DEAD /\ expired (snd (vacuum_spec E t)).

Record snap_inv (s : PruneState) : Prop := {
  sn_oldest : oldest_xmin s = oldest;
  sn_limit : snap_limit (old_snap_xmin s);
  sn_used : old_snap_used s = true -> OldSnapshotThresholdActive V = true /\ TransactionIdIsValid (old_snap_xmin s) = true }.

Lemma prune_vacuum_ok E t s : env_ok E -> hints_ok E t -> snap_inv s ->
  let '(t', s', r) := heap_prune_satisfies_vacuum V E buffer s t in
  hinted E t t' /\ grows t t' /\ judged E t r /\ snap_inv s' /\ same_plan s s'.
Proof.
  intros HE Ht [Ho Hlim Hus]. unfold heap_prune_satisfies_vacuum. pose proof (vacuum_grows E buffer t) as Hgr. pose proof (vacuum_ok E buffer HE t Ht) as Hv.
  destruct (HeapTupleSatisfiesVacuumHorizon E buffer t) as [[t1 r] x]. destruct Hv as [Hv Hh]. cbn [fst] in Hgr.
  assert (Hplain : judged E t r) by (left; by rewrite <- Hv). assert (Hs0 : snap_inv s) by done.
  assert (Hdead : r = HEAPTUPLE_RECENTLY_DEAD -> expired x -> judged E t HEAPTUPLE_DEAD) by (intros Hr Hx; right; rewrite <- Hv; done).
  case_bool_decide as Hr; cbn [negb]; [|by split_and!].
  destruct (old_snap_used s) eqn:Hu.
  { destruct (Hus eq_refl) as [Hact Hval]. split_and!; try done. destruct (TransactionIdPrecedes x (old_snap_xmin s)) eqn:Hpx; [|done].
    apply Hdead; [done|]. right. right. split; [done|]. by exists (old_snap_xmin s). }
  destruct (TransactionIdIsValid (oldest_xmin s) && NormalTransactionIdPrecedes x (oldest_xmin s)) eqn:Hold.
  { apply andb_true_iff in Hold. rewrite Ho in Hold. split_and!; try done. apply Hdead; [done|]. by left. }
  destruct (vistest V x) eqn:Hvis.
  { split_and!; try done. apply Hdead; [done|]. by right; left. }
  destruct (OldSnapshotThresholdActive V) eqn:Hact; [|by split_and!].
  set (s1 := if negb (TransactionIdIsValid (old_snap_xmin s)) then _ else s).
  assert (Hs1 : snap_inv s1 /\ same_plan s s1).
  { unfold s1. destruct (TransactionIdIsValid (old_snap_xmin s)); cbn [negb]; [split; [done|apply same_refl]|]. destruct (TransactionIdLimitedForOldSnapshots V) as [[m ts]|] eqn:Hlm; [|split; [done|apply same_refl]].
    split; [|by split_and!]. split; cbn; [done|right; by exists ts|done]. }
  destruct Hs1 as [Hs1 Hsp]. destruct (TransactionIdIsValid (old_snap_xmin s1) && TransactionIdPrecedes x (old_snap_xmin s1)) eqn:Hpx; [|done].
  apply andb_true_iff in Hpx as [Hval Hpx]. destruct Hs1 as [Ho1 Hl1 Hu1]. split_and!; try done.
  - apply Hdead; [done|]. right. right. split; [done|]. by exists (old_snap_xmin s1).
Qed.

(** ** The loop *)
Context (E : Z -> xact_state).

Record rehinted (n : Z) (p p' : Page) : Prop := {
  rh_lines : same_lines p p';
  rh_hinted : forall i, is_tuple p i -> i <= n -> hinted (E i) (hdr p i) (hdr p' i);
  rh_grows : forall i, is_tuple p i -> grows (hdr p i) (hdr p' i);
  rh_bytes : forall i d, is_tuple p i -> 0 <= d < lp_len (lpi p i) -> n < i \/ d <> 20 /\ d <> 21 -> tuple_byte p' i d = tuple_byte p i d }.

Definition same_decisions (s s' : PruneState) : Prop :=
  redirected s' = redirected s /\ nowdead s' = nowdead s /\ nowunused s' = nowunused s /\ marked s' = marked s.

(** The statuses stored for the line pointers up to [n]. *)
Record statuses (n : Z) (p : Page) (h h' : list (option HTSV_Result)) : Prop := {
  ss_len : length h' = length h;
  ss_kept : forall i, n < i -> h' !! Z.to_nat i = h !! Z.to_nat i;
  ss_none : forall i, in_page p i -> i <= n -> ~ is_tuple p i -> h' !! Z.to_nat i = Some None;
  ss_some : forall i, is_tuple p i -> i <= n -> exists r, h' !! Z.to_nat i = Some (Some r) /\ judged (E i) (hdr p i) r }.

Lemma same_lines_refl p : heap_lines p -> same_lines p p.
Proof. by split. Qed.
Lemma same_lines_tuple p p' i : same_lines p p' -> is_tuple p' i <-> is_tuple p i.
Proof.
  intros [_ Hn Hlp _]. split; intros [Hi Hf]; (assert (Hi' : in_page p i) by (unfold in_page in *; lia)); (split; [unfold in_page in *; lia|]); rewrite ?Hlp in * by done; done.
Qed.
Lemma same_lines_trans p p1 p2 : same_lines p p1 -> same_lines p1 p2 -> same_lines p p2.
Proof.
  intros [_ Hn1 Hl1 [Hs1 Ht1]] [Hh Hn2 Hl2 [Hs2 Ht2]]. split; [done|congruence| |].
  - intros i Hi. rewrite Hl2, Hl1; [done|done|]. unfold in_page in *. lia.
  - split; [congruence|]. intros a Ha. rewrite Ht2, Ht1 by lia. done.
Qed.

Lemma rehinted_refl n p : n = 0 -> heap_lines p -> rehinted n p p.
Proof. intros -> Hl. split; [by apply same_lines_refl|intros i [[? ?] _] ?; lia|intros; apply grows_refl|done]. Qed.

(** One more tuple. *)
Lemma rehinted_step n p m p2 : heap_lines p -> is_tuple p (n + 1) -> is_u 16 m -> let t' := set_infomask (hdr p (n + 1)) m in
  hinted (E (n + 1)) (hdr p (n + 1)) t' -> grows (hdr p (n + 1)) t' ->
  let p1 := store_infomask p (lpi p (n + 1)) m in rehinted n p1 p2 -> rehinted (n + 1) p p2.
Proof.
  intros Hl Hi Hm t' Hh Hg p1 [Hsl H1 H2 H3]. destruct (store_infomask_ok p (n + 1) m Hl Hi Hm) as (Hs1 & Hhd & Hb1 & Hb2). fold p1 in Hs1, Hhd, Hb1, Hb2.
  assert (Ht : forall i, is_tuple p i -> is_tuple p1 i) by (intros i; by apply same_lines_tuple). assert (Hlp : forall i, in_page p i -> lpi p1 i = lpi p i) by apply Hs1.
  assert (Hother : forall i, is_tuple p i -> i <> n + 1 -> hdr p1 i = hdr p i).
  { intros i Hti Hne. apply hdr_ext. intros d Hd. apply Hb2; [done|done|]. pose proof (tuple_extent p i Hl Hti). lia. }
  assert (Hnew : hdr p2 (n + 1) = t').
  { unfold t'. rewrite <- Hhd. apply hdr_ext. intros d Hd. apply H3; [by apply Ht| |lia]. rewrite Hlp by apply Hi. pose proof (tuple_extent p (n + 1) Hl Hi). lia. }
  split.
  - by eapply same_lines_trans.
  - intros i Hti Hle. destruct (decide (i = n + 1)) as [->|Hne]; [by rewrite Hnew|]. rewrite <- (Hother i) by done. apply H1; [by apply Ht|lia].
  - intros i Hti. destruct (decide (i = n + 1)) as [->|Hne]; [by rewrite Hnew|]. rewrite <- (Hother i) by done. apply H2. by apply Ht.
  - intros i d Hti Hd Hc. rewrite (H3 i d) by (first [by apply Ht|rewrite Hlp by apply Hti; lia|lia]).
    destruct (decide (i = n + 1)) as [->|Hne]; [apply Hb1; lia|by apply Hb2].
Qed.

Lemma statuses_step n p p1 h v h' : 0 <= n -> in_page p (n + 1) -> same_lines p p1 -> (forall i, is_tuple p i -> i <= n -> hdr p1 i = hdr p i) -> n + 1 < lenZ h ->
  (is_tuple p (n + 1) -> exists r, v = Some r /\ judged (E (n + 1)) (hdr p (n + 1)) r) -> (~ is_tuple p (n + 1) -> v = None) ->
  statuses n p1 (<[Z.to_nat (n + 1) := v]> h) h' -> statuses (n + 1) p h h'.
Proof.
  intros Hn Hi Hsl Hhd Hlen Hsome Hnone [Hl Hk H1 H2]. assert (Hnew : h' !! Z.to_nat (n + 1) = Some v).
  { rewrite Hk by lia. apply list_lookup_insert_eq. unfold lenZ in Hlen. lia. }
  split.
  - by rewrite Hl, length_insert.
  - intros i Hlt. rewrite Hk, list_lookup_insert_ne by lia. done.
  - intros i Hip Hle Hnt. destruct (decide (i = n + 1)) as [->|Hne]; [by rewrite Hnew, Hnone|]. apply H1; [unfold in_page in *; rewrite (sl_nline _ _ Hsl); done|lia|]. by rewrite (same_lines_tuple p p1 i Hsl).
  - intros i Hti Hle. destruct (decide (i = n + 1)) as [->|Hne].
    + destruct (Hsome Hti) as (r & -> & Hr). by exists r.
    + destruct (H2 i) as (r & Hr & Hj); [by rewrite (same_lines_tuple p p1 i Hsl)|lia|]. exists r. split; [done|]. rewrite <- (Hhd i); [done|done|lia].
Qed.

Lemma decisions_trans s s1 s2 : same_decisions s s1 -> same_decisions s1 s2 -> same_decisions s s2.
Proof. unfold same_decisions. intuition congruence. Qed.

Lemma grows_eta t t' : grows t t' -> is_u 16 (t_infomask t) -> t' = set_infomask t (t_infomask t') /\ is_u 16 (t_infomask t').
Proof. intros (f & Hf & ->) Ht. split; [done|]. cbn. by apply is_u_lor. Qed.

Lemma htsv_loop_ok : forall n p s, heap_lines p -> snap_inv s -> nline p < lenZ (htsv s) -> Z.of_nat n <= nline p ->
  (forall i, is_tuple p i -> i <= Z.of_nat n -> env_ok (E i) /\ hints_ok (E i) (hdr p i)) ->
  exists p' s', htsv_loop V E buffer n p s = Ok (p', s') /\ rehinted (Z.of_nat n) p p' /\ same_decisions s s' /\ statuses (Z.of_nat n) p (htsv s) (htsv s').
Proof.
  induction n as [|n IH]; intros p s Hl Hs Hlen Hle Hok; cbn [htsv_loop].
  { exists p, s. split_and!; try done; [by apply rehinted_refl|]. split; try done; [intros i [? _] ?; lia|intros i [[? _] _] ?; lia]. }
  replace (Z.of_nat (S n)) with (Z.of_nat n + 1) in * by lia. set (i := Z.of_nat n + 1) in *. assert (Hi : in_page p i) by (unfold in_page; lia).
  rewrite (load_ok p Hl i Hi), bind_val. unfold ItemIdIsNormal. destruct (Z.eqb_spec (lp_flags (lpi p i)) LP_NORMAL) as [Hf|Hf]; cbn [negb].
  - assert (Ht : is_tuple p i) by done. rewrite (header_ok p Hl i Ht), bind_val. destruct (Hok i Ht ltac:(lia)) as [HE Hh].
    pose proof (prune_vacuum_ok (E i) (hdr p i) s HE Hh Hs) as Hv. destruct (heap_prune_satisfies_vacuum V (E i) buffer s (hdr p i)) as [[t' s1] r].
    destruct Hv as (Hhin & Hgr & Hj & Hs1 & Hsp). pose proof (infomask_range p (lp_off (lpi p i)) (ok_bytes p (hl_ok _ Hl))) as Hu.
    destruct (grows_eta _ _ Hgr Hu) as [Heta Hu']. destruct Hsp as (H1 & H2 & H3 & H4 & H5).
    rewrite aset_Ok by (rewrite H5; unfold lenZ in Hlen; lia). rewrite bind_val, H5.
    destruct (store_infomask_ok p i (t_infomask t') Hl Ht Hu') as (Hsl & Hhd & _ & Hb). set (p1 := store_infomask p (lpi p i) (t_infomask t')) in *.
    assert (Hother : forall j, is_tuple p j -> j <= Z.of_nat n -> hdr p1 j = hdr p j).
    { intros j Hj' Hle'. apply hdr_ext. intros d Hd. apply Hb; [done|lia|]. pose proof (tuple_extent p j Hl Hj'). lia. }
    destruct (IH p1 (set_htsv s1 (<[Z.to_nat i := Some r]> (htsv s)))) as (p2 & s2 & Hrun & Hre & Hdec & Hst).
    + apply Hsl.
    + by destruct Hs1.
    + rewrite (sl_nline _ _ Hsl). cbn [htsv set_htsv]. unfold lenZ in *. rewrite length_insert. done.
    + rewrite (sl_nline _ _ Hsl). lia.
    + intros j Hj' Hle'. apply (same_lines_tuple p p1 j Hsl) in Hj'. rewrite Hother by done. apply Hok; [done|lia].
    + exists p2, s2. split_and!; try done.
      * apply (rehinted_step (Z.of_nat n) p (t_infomask t')); fold i; [done|done|done|by rewrite <- Heta|by rewrite <- Heta|exact Hre].
      * eapply decisions_trans, Hdec. by split_and!.
      * apply (statuses_step (Z.of_nat n) p p1 _ (Some r)); [lia|done|exact Hsl|done|lia| |done|exact Hst]. intros _. by exists r.
  - rewrite aset_Ok by (unfold lenZ in Hlen; lia). rewrite bind_val.
    destruct (IH p (set_htsv s (<[Z.to_nat i := None]> (htsv s)))) as (p2 & s2 & Hrun & Hre & Hdec & Hst).
    + done.
    + by destruct Hs.
    + cbn [htsv set_htsv]. unfold lenZ in *. rewrite length_insert. done.
    + lia.
    + intros j Hj' Hle'. apply Hok; [done|lia].
    + exists p2, s2. split_and!; try done.
      * destruct Hre as [R1 R2 R3 R4]. split; try done; [|intros j d Hj' Hd Hc; apply R4; [done|done|lia]]. intros j Hj' Hle'. apply R2; [done|].
        destruct (decide (j = i)) as [->|]; [|lia]. by destruct Hj'.
      * apply (statuses_step (Z.of_nat n) p p _ None); [lia|done|by apply same_lines_refl|done|lia| |done|exact Hst]. intros [_ ?]. done.
Qed.
End Status.
