(* ===== verification/HeapPruneSpec.v ===== *)
(** What pruning a heap page does: the page after [heap_page_prune] compared with the page
    before, as a graph of line pointers and tuples. *)
From S2P Require Import Prelude ByteMem BufPage BufPageLayout BufPageSpec Transam HeapTup HeapVis HeapVisSpec HeapPrune HeapPruneChain HeapPrunePlan HeapPruneGraph HeapPruneExec HeapPruneHints.

(** ** From items to line pointers *)
Lemma items_at p i : PageOK p -> in_page p i -> items p !! Z.to_nat (i - 1) = Some (abs_lp p (lpi p i)).
Proof. intros Hok Hi. unfold in_page in Hi. rewrite items_lookup by lia. unfold lpi. by replace (Z.of_nat (Z.to_nat (i - 1))) with (i - 1) by lia. Qed.

Lemma items_len p : PageOK p -> Z.of_nat (length (items p)) = nline p.
Proof. intros Hok. apply lenZ_items. apply (ok_nline p Hok). Qed.

Lemma abs_flags p l : it_flags (abs_lp p l) = lp_flags l.
Proof. unfold abs_lp. destruct (Z.eqb_spec (lp_flags l) LP_UNUSED); done. Qed.

Lemma abs_data p i : PageOK p -> in_page p i -> lenZ (it_data (abs_lp p (lpi p i))) = lp_len (lpi p i) /\
  forall d, 0 <= d < lp_len (lpi p i) -> nthZ (it_data (abs_lp p (lpi p i))) d = tuple_byte p i d.
Proof.
  intros Hok [H1 H2]. destruct (ok_lps p Hok (i - 1) ltac:(lia)) as [Hu Hs]. fold (lpi p i) in Hu, Hs. pose proof (lp_is_wf p (i - 1)) as (Ho & _ & Hln). fold (lpi p i) in Ho, Hln.
  unfold abs_lp. destruct (Z.eqb_spec (lp_flags (lpi p i)) LP_UNUSED) as [Hf|_]; cbn [it_data unused_item].
  { rewrite (Hu Hf). split; [done|]. intros; lia. }
  split; [|intros d Hd; unfold tuple_byte; apply nthZ_bytes_at; lia]. destruct (decide (lp_len (lpi p i) = 0)) as [->|Hne]; [done|]. specialize (Hs Hne).
  pose proof (alen_bounds _ (lp_is_wf p (i - 1))) as [Ha _]. fold (lpi p i) in Ha. pose proof (ok_layout p Hok) as []. apply lenZ_bytes_at; [lia|lia|]. rewrite (ok_len p Hok). lia.
Qed.

Lemma abs_link p l : lp_len l = 0 -> lp_flags l <> LP_UNUSED -> it_link (abs_lp p l) = lp_off l.
Proof. intros Hl Hf. unfold abs_lp. rewrite (proj2 (Z.eqb_neq _ _)) by done. by rewrite Hl. Qed.

Definition cut (L L' : list item) : Prop := exists f, L' = take f L /\ forall k x, (f <= k)%nat -> L !! k = Some x -> is_unused x = true.
Lemma cut_refl L : cut L L.
Proof. exists (length L). rewrite firstn_all. split; [done|]. intros k x Hk Hx%lookup_lt_Some. lia. Qed.
Lemma cut_strip L : cut L (strip_unused L).
Proof.
  induction L as [|x L (f & Hf & Hrest)]; [apply cut_refl|]. cbn [strip_unused]. destruct (strip_unused L) as [|y L'] eqn:Hs.
  - assert (Hall : forall k z, L !! k = Some z -> is_unused z = true).
    { intros k z Hz. destruct (decide (f <= k)%nat); [by eapply Hrest|]. assert (Hk : take f L !! k = Some z) by (rewrite lookup_take_lt by lia; done). by rewrite <- Hf in Hk. }
    destruct (is_unused x) eqn:Hx; [exists 0%nat|exists 1%nat]; split; try done; intros [|k] z Hk; cbn; intros Hz; simplify_eq; eauto. lia.
  - exists (S f). cbn [take]. split; [by rewrite <- Hf|]. intros [|k] z Hk; [lia|]. cbn. apply Hrest. lia.
Qed.

(** ** The page after pruning *)
Section Pruned.
Context (rs : list (Z * Z)) (d u : list Z) (p p' : Page).
Context (Hl : heap_lines p) (Hok : PageOK p') (Hit : cut (pruned_items rs d u (items p)) (items p')).
Context (Hnd : NoDup (map fst rs ++ d ++ u)).

Definition new_item (i : Z) : item := prune_item rs d u i (abs_lp p (lpi p i)).

Lemma new_at i : in_page p' i -> in_page p i /\ abs_lp p' (lpi p' i) = new_item i.
Proof.
  intros Hi. pose proof (items_at p' i Hok Hi) as Hx. destruct Hit as (f & Hf & _). rewrite Hf in Hx. apply lookup_take_Some in Hx as [Hx _].
  unfold pruned_items in Hx. rewrite list_lookup_imap in Hx. unfold in_page in *. pose proof (items_len p (hl_ok _ Hl)) as Hlen.
  destruct (items p !! Z.to_nat (i - 1)) as [y|] eqn:Hy; [|done]. pose proof (lookup_lt_Some _ _ _ Hy). assert (Hip : in_page p i) by (unfold in_page; lia). split; [done|].
  rewrite items_at in Hy by (done || apply Hl). injection Hy as <-. cbn in Hx. injection Hx as <-. unfold new_item. f_equal. lia.
Qed.

Lemma new_stays i : in_page p i -> it_flags (new_item i) <> LP_UNUSED -> in_page p' i.
Proof.
  intros Hi Hf. pose proof (items_len p' Hok) as Hlen. destruct Hit as (f & Heq & Hrest). pose proof (items_at p i (hl_ok _ Hl) Hi) as Hx. unfold in_page in *.
  assert (Hp : pruned_items rs d u (items p) !! Z.to_nat (i - 1) = Some (new_item i)).
  { unfold pruned_items. rewrite list_lookup_imap, Hx. cbn. unfold new_item. do 2 f_equal. lia. }
  destruct (decide (f <= Z.to_nat (i - 1))%nat) as [Hle|Hlt].
  - specialize (Hrest _ _ Hle Hp). unfold is_unused in Hrest. apply Z.eqb_eq in Hrest. done.
  - split; [lia|]. assert (Hin : items p' !! Z.to_nat (i - 1) = Some (new_item i)) by (rewrite Heq, lookup_take_lt by lia; done). apply lookup_lt_Some in Hin. lia.
Qed.

Lemma new_cases i : in_page p i ->
  (exists t, (i, t) ∈ rs /\ new_item i = mkItem LP_REDIRECT t []) \/ i ∈ d /\ new_item i = mkItem LP_DEAD 0 [] \/ i ∈ u /\ new_item i = unused_item \/
  i ∉ map fst rs ++ d ++ u /\ new_item i = abs_lp p (lpi p i).
Proof.
  intros Hi. unfold new_item, prune_item. destruct (find _ rs) as [[j t]|] eqn:Hf.
  - apply find_some in Hf as [Hin%list_elem_of_In Hj]. apply Z.eqb_eq in Hj. cbn in Hj. subst j. left. by exists t.
  - right. case_bool_decide; [by left|right]. case_bool_decide; [by left|right]. split; [|done]. rewrite !elem_of_app. intros [Hin|[?|?]]; [|done|done].
    apply list_elem_of_fmap in Hin as ([j t] & -> & Hin). apply list_elem_of_In in Hin. apply (find_none _ _ Hf) in Hin. cbn in Hin. by rewrite Z.eqb_refl in Hin.
Qed.

Lemma new_redirect i t : in_page p i -> (i, t) ∈ rs -> new_item i = mkItem LP_REDIRECT t [].
Proof.
  intros Hi Hin. assert (Hir : i ∈ map fst rs) by (apply list_elem_of_fmap; by exists (i, t)). apply NoDup_app in Hnd as (Hn1 & Hn2 & _). 
  destruct (new_cases i Hi) as [(t' & Hin' & Heq)|[[Hx _]|[[Hx _]|[Hx _]]]]; [|exfalso..].
  - rewrite Heq. f_equal. clear -Hn1 Hin Hin'. induction rs as [|[j s] l IH]; [by apply elem_of_nil in Hin|]. cbn in Hn1. apply NoDup_cons in Hn1 as [Hj Hn1].
    apply elem_of_cons in Hin as [Hin|Hin], Hin' as [Hin'|Hin']; simplify_eq; [done|..].
    + exfalso. apply Hj, list_elem_of_fmap. by exists (j, t').
    + exfalso. apply Hj, list_elem_of_fmap. by exists (j, t).
    + by apply IH.
  - apply (Hn2 i Hir). rewrite elem_of_app. by left.
  - apply (Hn2 i Hir). rewrite elem_of_app. by right.
  - apply Hx. rewrite elem_of_app. by left.
Qed.

Lemma kept_item i : in_page p i -> i ∉ map fst rs ++ d ++ u -> new_item i = abs_lp p (lpi p i).
Proof.
  intros Hi Hn. rewrite !elem_of_app in Hn. destruct (new_cases i Hi) as [(t & Hin & _)|[[? _]|[[? _]|[_ ?]]]]; [exfalso; apply Hn|tauto|tauto|done].
  left. apply list_elem_of_fmap. by exists (i, t).
Qed.

Lemma pruned_tuple i : is_tuple p' i <-> is_tuple p i /\ i ∉ map fst rs ++ d ++ u.
Proof.
  split.
  - intros [Hi Hf]. destruct (new_at i Hi) as [Hip Heq]. rewrite <- (abs_flags p'), Heq in Hf.
    destruct (new_cases i Hip) as [(t & _ & Hx)|[[_ Hx]|[[_ Hx]|[Hn Hx]]]]; rewrite Hx in Hf; try done. rewrite abs_flags in Hf. by split.
  - intros [[Hi Hf] Hn]. pose proof (kept_item i Hi Hn) as Hx. assert (Hi' : in_page p' i) by (apply new_stays; [done|]; rewrite Hx, abs_flags, Hf; done).
    split; [done|]. destruct (new_at i Hi') as [_ Heq]. by rewrite <- (abs_flags p'), Heq, Hx, abs_flags.
Qed.

Lemma pruned_len i : in_page p' i -> lp_len (lpi p' i) = lenZ (it_data (new_item i)).
Proof. intros Hi. destruct (new_at i Hi) as [_ <-]. symmetry. by apply abs_data. Qed.

Lemma pruned_bytes i : is_tuple p' i -> lp_len (lpi p' i) = lp_len (lpi p i) /\ forall k, 0 <= k < lp_len (lpi p i) -> tuple_byte p' i k = tuple_byte p i k.
Proof.
  intros Hi. pose proof (proj1 (pruned_tuple i) Hi) as [[Hip _] Hn]. pose proof (kept_item i Hip Hn) as Hx. pose proof (pruned_len i (proj1 Hi)) as Hlen.
  rewrite Hx in Hlen. destruct (abs_data p i (hl_ok _ Hl) Hip) as [Hlp Hb]. split; [congruence|]. intros k Hk. rewrite <- Hb by done.
  destruct (abs_data p' i Hok (proj1 Hi)) as [_ Hb']. rewrite <- Hb' by lia. destruct (new_at i (proj1 Hi)) as [_ Heq]. by rewrite Heq, Hx.
Qed.

Lemma pruned_redirect i t : (forall i t, (i, t) ∈ rs -> in_page p i) ->
  (is_redirect p' i t <-> (i, t) ∈ rs \/ is_redirect p i t /\ i ∉ map fst rs ++ d ++ u) /\ (is_redirect p' i t -> lp_len (lpi p' i) = 0).
Proof.
  intros Hrs. assert (Hzero : is_redirect p' i t -> lp_len (lpi p' i) = 0).
  { intros (Hi & Hf & _). rewrite (pruned_len i Hi). destruct (new_at i Hi) as [Hip Heq].
    destruct (new_cases i Hip) as [(t' & _ & Hx)|[[_ Hx]|[[_ Hx]|[Hn Hx]]]]; rewrite Hx; try done. destruct (abs_data p i (hl_ok _ Hl) Hip) as [-> _].
    eapply (hl_redirect _ Hl). split_and!; [apply Hip| |done]. by rewrite <- (abs_flags p), <- Hx, <- Heq, abs_flags. }
  split; [|done]. split.
  - intros Hr. pose proof (Hzero Hr) as Hz. destruct Hr as (Hi & Hf & Ho). destruct (new_at i Hi) as [Hip Heq].
    assert (Hlink : it_link (new_item i) = t) by (rewrite <- Heq, abs_link; [done|done|by rewrite Hf]).
    assert (Hfl : it_flags (new_item i) = LP_REDIRECT) by (by rewrite <- Heq, abs_flags).
    destruct (new_cases i Hip) as [(t' & Hin & Hx)|[[_ Hx]|[[_ Hx]|[Hn Hx]]]]; rewrite Hx in Hlink, Hfl; try done; [left; cbn in Hlink; by subst|right]. split; [|done].
    rewrite abs_flags in Hfl. assert (Hr' : is_redirect p i (lp_off (lpi p i))) by (by split_and!). rewrite abs_link in Hlink; [|by eapply (hl_redirect _ Hl)|by rewrite Hfl]. by rewrite <- Hlink.
  - intros [Hin|[Hr Hn]].
    + pose proof (Hrs i t Hin) as Hip. pose proof (new_redirect i t Hip Hin) as Hx. assert (Hi : in_page p' i) by (apply new_stays; [done|by rewrite Hx]).
      destruct (new_at i Hi) as [_ Heq]. pose proof (pruned_len i Hi) as Hlen. rewrite Hx in Heq, Hlen. assert (Hf : lp_flags (lpi p' i) = LP_REDIRECT) by (by rewrite <- (abs_flags p'), Heq).
      split_and!; [apply Hi|done|]. rewrite <- (abs_link p'), Heq; [done|done|by rewrite Hf].
    + pose proof Hr as (Hip & Hf & Ho). pose proof (kept_item i Hip Hn) as Hx. assert (Hi : in_page p' i) by (apply new_stays; [done|by rewrite Hx, abs_flags, Hf]).
      destruct (new_at i Hi) as [_ Heq]. pose proof (pruned_len i Hi) as Hlen. rewrite Hx in Heq, Hlen. pose proof (hl_redirect _ Hl i t Hr) as Hz.
      assert (Hf' : lp_flags (lpi p' i) = LP_REDIRECT) by (by rewrite <- (abs_flags p'), Heq, abs_flags). split_and!; [apply Hi|done|].
      rewrite <- (abs_link p'), Heq, abs_link; [done|done|by rewrite Hf| |by rewrite Hf']. rewrite Hlen. destruct (abs_data p i (hl_ok _ Hl) Hip) as [-> _]. done.
Qed.

Lemma pruned_dead i : in_page p i -> i ∈ d -> in_page p' i /\ lp_flags (lpi p' i) = LP_DEAD.
Proof.
  intros Hip Hd. assert (Hx : it_flags (new_item i) = LP_DEAD).
  { apply NoDup_app in Hnd as (_ & Hn1 & Hn2). apply NoDup_app in Hn2 as (_ & Hn2 & _).
    destruct (new_cases i Hip) as [(t & Hin & _)|[[_ ->]|[[Hu _]|[Hn _]]]]; [|done|by destruct (Hn2 i)|].
    - exfalso. apply (Hn1 i); [apply list_elem_of_fmap; by exists (i, t)|apply elem_of_app; by left].
    - exfalso. apply Hn. rewrite !elem_of_app. tauto. }
  assert (Hi : in_page p' i) by (apply new_stays; [done|by rewrite Hx]). split; [done|]. destruct (new_at i Hi) as [_ Heq]. by rewrite <- (abs_flags p'), Heq.
Qed.

Lemma pruned_lines : (forall i t, (i, t) ∈ rs -> in_page p i) -> heap_lines p'.
Proof.
  intros Hrs. split; [done| | | |].
  - intros k Hk Hne. assert (Hi : in_page p' (k + 1)) by (unfold in_page; lia). pose proof (pruned_len _ Hi) as Hlen. unfold lpi in Hlen. replace (k + 1 - 1) with k in Hlen by lia.
    rewrite Hlen in *. destruct (new_at _ Hi) as [Hip _]. destruct (new_cases _ Hip) as [(t & _ & Hx)|[[_ Hx]|[[_ Hx]|[_ Hx]]]]; rewrite Hx in *; try done.
    destruct (abs_data p _ (hl_ok _ Hl) Hip) as [Hd _]. rewrite Hd in *. apply (hl_heap _ Hl); [unfold in_page in Hip; lia|done].
  - intros i Hi. destruct (pruned_bytes i Hi) as [-> _]. apply (hl_normal _ Hl). by apply pruned_tuple.
  - intros i t Hr. by apply (pruned_redirect i t Hrs).
  - pose proof (hl_lines _ Hl). pose proof (ok_nline p' Hok) as [_ Hn]. pose proof (ok_nline p (hl_ok _ Hl)) as [_ Hn']. destruct (decide (nline p' = 0)) as [->|Hne]; [lia|].
    destruct (new_at (nline p')) as [[_ ?] _]; [unfold in_page; lia|]. lia.
Qed.
End Pruned.

(** ** The header of the page *)
Lemma header32_page p a v : PageOK p -> a = 0 \/ a = 4 \/ a = 20 -> PageOK (put32 p a v) /\ items (put32 p a v) = items p.
Proof.
  intros Hok Ha. pose proof (ok_len p Hok) as Hlen. psizes.
  destruct (fields_irrelevant p (put32 p a v)) as (? & ? & _); [done|rewrite lenZ_put32 by lia; done|apply all_bytes_put32, Hok| | |done].
  all: intros b Hb; psizes; apply nthZ_put32_ne; lia.
Qed.

Lemma finish_page p xid : PageOK p -> let p' := PageClearFull (set_pd_prune_xid p xid) in PageOK p' /\ items p' = items p.
Proof.
  intros Hok p'. destruct (header32_page p 20 (wrapu 32 xid) Hok) as [H1 H2]; [lia|]. unfold p', PageClearFull, set_pd_prune_xid. 
  destruct (set_flags_page (put32 p 20 (wrapu 32 xid)) (Z.land (pd_flags (put32 p 20 (wrapu 32 xid))) (notu 32 PD_PAGE_FULL)) H1) as (H3 & H4 & _). split; [done|congruence].
Qed.

Lemma lsn_page p lsn : PageOK p -> PageOK (PageSetLSN p lsn) /\ items (PageSetLSN p lsn) = items p.
Proof.
  intros Hok. unfold PageSetLSN. destruct (header32_page p 0 (wrapu 32 (Z.shiftr lsn 32)) Hok) as [H1 H2]; [lia|].
  destruct (header32_page _ 4 (wrapu 32 lsn) H1) as [H3 H4]; [lia|]. split; [done|congruence].
Qed.

(** ** Hint bits and chains *)
Lemma hinted_xmin E t t' : hinted E t t' -> HeapTupleHeaderGetXmin t' = HeapTupleHeaderGetXmin t.
Proof. intros [Hc _]. destruct (core_fields t t' Hc) as (H1 & _ & _ & _ & _ & _ & Hf & _). unfold HeapTupleHeaderGetXmin, HeapTupleHeaderGetRawXmin. by rewrite Hf, H1. Qed.

Lemma hinted_hot E E1 t t' : hinted E t t' -> grows t t' -> HeapTupleHeaderIsHotUpdated t' = true ->
  HeapTupleHeaderIsHotUpdated t = true /\ HeapTupleHeaderGetUpdateXid E1 t' = HeapTupleHeaderGetUpdateXid E1 t.
Proof.
  intros [Hc _] Hg. destruct (core_fields t t' Hc) as (_ & Hx & _ & _ & _ & H2 & Hf & Hh). unfold HeapTupleHeaderIsHotUpdated. rewrite H2, !not_has, !andb_true_iff, !negb_true_iff.
  intros [[Hhot Hmax] Hmin]. assert (Hm : has (t_infomask t) HEAP_XMAX_INVALID = false).
  { destruct (has (t_infomask t) HEAP_XMAX_INVALID) eqn:Hi; [|done]. apply (grows_has _ _ _ Hg) in Hi. congruence. }
  split.
  - split_and!; [done|done|]. rewrite xmin_invalid_bits in *. rewrite !xmin_frozen_bits in Hf. destruct (has (t_infomask t) HEAP_XMIN_INVALID) eqn:Hi; [|done].
    rewrite (grows_has _ _ _ Hg Hi) in *. cbn [andb] in *. by rewrite <- Hf.
  - unfold HeapTupleHeaderGetUpdateXid, HeapTupleGetUpdateXid, HeapTupleHeaderGetRawXmax. rewrite Hmax, Hm, Hx. by rewrite !Hh by done.
Qed.

Section Hinted.
Context (E : Z -> xact_state) (E1 : xact_state) (p p1 : Page) (Hre : rehinted E (nline p) p p1).

Lemma rehinted_tuple i : is_tuple p1 i <-> is_tuple p i.
Proof. apply same_lines_tuple, Hre. Qed.
Lemma rehinted_redirect i t : is_redirect p1 i t <-> is_redirect p i t.
Proof.
  destruct (rh_lines _ _ _ _ Hre) as [_ Hn Hlp _]. assert (Hin : in_page p1 i <-> in_page p i) by (unfold in_page; by rewrite Hn). unfold is_redirect. rewrite Hin.
  split; intros (Hi & Hf & Ho); rewrite ?Hlp in * by done; done.
Qed.
Lemma rehinted_heap_only i : is_tuple p i -> heap_only p1 i <-> heap_only p i.
Proof.
  intros Hi. destruct (rh_hinted _ _ _ _ Hre i Hi ltac:(apply Hi)) as [Hc _]. destruct (core_fields _ _ Hc) as (_ & _ & _ & _ & _ & H2 & _). unfold heap_only, HeapTupleHeaderIsHeapOnly. by rewrite H2.
Qed.

Lemma rehinted_edge i j : edge E1 p1 i j -> edge E1 p i j.
Proof.
  intros [[Hr Hj]|(Hi & Hh & Hc & Hj & Hjoin)].
  - left. split; [by apply rehinted_redirect|by apply rehinted_tuple].
  - right. apply rehinted_tuple in Hi, Hj. pose proof (rh_hinted _ _ _ _ Hre i Hi ltac:(apply Hi)) as Hhi. pose proof (rh_hinted _ _ _ _ Hre j Hj ltac:(apply Hj)) as Hhj.
    destruct (hinted_hot _ E1 _ _ Hhi (rh_grows _ _ _ _ Hre i Hi) Hh) as [Hhot Hup]. destruct Hhi as [Hci _]. destruct (core_fields _ _ Hci) as (_ & _ & _ & _ & Hpos & _).
    unfold update_xid in *. rewrite Hup, (hinted_xmin _ _ _ Hhj) in Hjoin. rewrite Hpos in Hc. by split_and!.
Qed.

Lemma rehinted_graph : hot_graph E1 p -> hot_graph E1 p1.
Proof.
  intros [H1 H2 H3 [rank H4]]. split.
  - intros i t Hr%rehinted_redirect. apply rehinted_tuple. by eapply H1.
  - intros i j He. pose proof (edge_tuple _ _ _ _ He) as Hj%rehinted_tuple. apply rehinted_heap_only; [done|]. eapply H2. by apply rehinted_edge.
  - intros i j k Hi Hj. eapply H3; by apply rehinted_edge.
  - exists rank. intros i j He. by apply H4, rehinted_edge.
Qed.
End Hinted.

(** ** The whole pass *)
Definition status (s : PruneState) (i : Z) : option HTSV_Result := default None (htsv s !! Z.to_nat i).

(** A sound heap page, with what the visibility checks need to know of each tuple. *)
Record prunable (E : Z -> xact_state) (E1 : xact_state) (scratch : list Z) (p : Page) : Prop := {
  pp_lines : heap_lines p;
  pp_graph : hot_graph E1 p;
  pp_tuples : forall i, is_tuple p i -> env_ok (E i) /\ hints_ok (E i) (hdr p i);
  pp_scratch : lenZ scratch = BLCKSZ /\ all_bytes scratch }.

(** [p1] is the page with the hint bits of the first phase. *)
Record outcome (V : horizons) (E : Z -> xact_state) (E1 : xact_state) (oldest snap0 : Z) (p p1 p' : Page) (st : Z -> option HTSV_Result) (s : PruneState) (n : Z) : Prop := {
  oc_hints : rehinted E (nline p) p p1;
  oc_graph : hot_graph E1 p1;
  oc_status : forall i, is_tuple p i -> exists r, st i = Some r /\ judged V oldest snap0 (E i) (hdr p i) r;
  oc_plan : plan_inv E1 p1 st s;
  oc_settled : forall i, in_page p i -> settled p1 st s i;
  oc_count : n = tuples_removed p1 s;
  oc_lines : heap_lines p';
  oc_tuple : forall i, is_tuple p' i <-> is_tuple p1 i /\ i ∉ removed s;
  oc_bytes : forall i, is_tuple p' i -> lp_len (lpi p' i) = lp_len (lpi p i) /\ forall d, 0 <= d < lp_len (lpi p i) -> tuple_byte p' i d = tuple_byte p1 i d;
  oc_dead : forall i, i ∈ nowdead s -> in_page p' i /\ lp_flags (lpi p' i) = LP_DEAD;
  oc_redirect : forall i t, is_redirect p' i t <-> (i, t) ∈ redirected s \/ is_redirect p1 i t /\ i ∉ removed s }.

Lemma start_inv E1 p st s : arrays_ok p st s -> (forall i, in_page p i -> ~ is_marked s i) -> redirected s = [] -> nowdead s = [] -> nowunused s = [] -> plan_inv E1 p st s.
Proof.
  intros Ha Hm Hr Hd Hu. assert (Hrem : removed s = []) by (unfold removed, from; by rewrite Hr, Hd, Hu). assert (Htg : targets s = []) by (unfold targets; by rewrite Hr).
  assert (Hno : forall (i : Z), i ∉ @nil Z) by (intros i; apply not_elem_of_nil). split; rewrite ?Hrem, ?Htg, ?Hu; try done.
  - intros i Hi. split; [intros H; by apply Hm in H|]. intros [H|H]; by apply Hno in H.
  - constructor.
  - intros i H. by apply Hno in H.
  - unfold from. rewrite Hr, Hd. intros i H. by apply Hno in H.
  - intros x H. by apply Hno in H.
  - intros r [x|]; cbn; rewrite ?Hr, ?Hd; intros H; [by apply not_elem_of_nil in H|by apply Hno in H].
  - intros x H. by apply Hno in H.
Qed.

Lemma statuses_of V E oldest snap0 p p1 h s : rehinted E (nline p) p p1 -> lenZ h = MaxHeapTuplesPerPage + 1 -> nline p <= MaxHeapTuplesPerPage ->
  statuses V oldest snap0 E (nline p) p h (htsv s) ->
  lenZ (htsv s) = MaxHeapTuplesPerPage + 1 /\ (forall i, in_page p1 i -> htsv s !! Z.to_nat i = Some (status s i)) /\
  (forall i, is_tuple p1 i <-> in_page p1 i /\ status s i <> None) /\
  (forall i, is_tuple p i -> exists r, status s i = Some r /\ judged V oldest snap0 (E i) (hdr p i) r).
Proof.
  intros Hre Hh Hn [Hl _ Hnone Hsome]. pose proof (sl_nline _ _ (rh_lines _ _ _ _ Hre)) as Hnl. assert (Hin : forall i, in_page p1 i <-> in_page p i) by (intros i; unfold in_page; by rewrite Hnl).
  assert (Htp : forall i, is_tuple p1 i <-> is_tuple p i) by (intros i; by apply (rehinted_tuple E)). split_and!.
  - unfold lenZ in *. by rewrite Hl.
  - intros i Hi%Hin. unfold status. unfold lenZ, in_page in *. destruct (lookup_lt_is_Some_2 (htsv s) (Z.to_nat i)) as [x ->]; [lia|done].
  - intros i. rewrite Htp, Hin. split.
    + intros Hi. split; [apply Hi|]. destruct (Hsome i Hi ltac:(apply Hi)) as (r & Hr & _). unfold status. by rewrite Hr.
    + intros [Hi Hs]. destruct (decide (lp_flags (lpi p i) = LP_NORMAL)) as [Hf|Hf]; [done|]. exfalso. apply Hs. unfold status. rewrite (Hnone i Hi); [done|apply Hi|by intros [_ ?]].
  - intros i Hi. destruct (Hsome i Hi ltac:(apply Hi)) as (r & Hr & Hj). exists r. unfold status. by rewrite Hr.
Qed.

(** The last phase: the page that is written. *)
Lemma write_ok p s wal scratch : heap_lines p -> lenZ scratch = BLCKSZ -> all_bytes scratch ->
  NoDup (removed s) -> (forall i, i ∈ removed s -> in_page p i) -> (forall t, t ∈ targets s -> in_page p t) ->
  exists p', prune_write wal scratch p s = Ok p' /\ PageOK p' /\ cut (pruned_items (redirected s) (nowdead s) (nowunused s) (items p)) (items p').
Proof.
  intros Hl Hsl Hsb Hnd Hin Ht. unfold prune_write. destruct ((0 <? lenZ (redirected s)) || (0 <? lenZ (nowdead s)) || (0 <? lenZ (nowunused s))) eqn:Hany.
  - destruct (execute_ok p (redirected s) (nowdead s) (nowunused s) scratch) as (q & -> & Hq & Hi & _); [apply Hl|apply Hl|done|done|done|done|done|]. rewrite bind_val. cbv zeta.
    destruct (finish_page q (new_prune_xid s) Hq) as [Hq1 Hi1]. set (q1 := PageClearFull (set_pd_prune_xid q (new_prune_xid s))) in *.
    assert (Hcut : cut (pruned_items (redirected s) (nowdead s) (nowunused s) (items p)) (items q1)) by (rewrite Hi1, Hi; apply cut_strip).
    destruct wal as [lsn|]; [|by exists q1]. destruct (lsn_page q1 lsn Hq1) as [Hq2 Hi2]. eexists. split; [done|]. split; [done|by rewrite Hi2].
  - apply orb_false_iff in Hany as [[H1 H2]%orb_false_iff H3]. apply lenZ_pos in H1, H2, H3. rewrite H1, H2, H3.
    assert (Hid : forall L, pruned_items [] [] [] L = L).
    { intros L. unfold pruned_items. apply list_eq. intros k. rewrite list_lookup_imap. destruct (L !! k); [|done]. cbn. unfold prune_item. cbn. by rewrite !bool_decide_eq_false_2 by apply not_elem_of_nil. }
    rewrite Hid. destruct (negb (pd_prune_xid p =? new_prune_xid s) || PageIsFull p); [|exists p; split_and!; [done|apply Hl|apply cut_refl]].
    destruct (finish_page p (new_prune_xid s) (hl_ok _ Hl)) as [Hq1 Hi1]. eexists. split; [done|]. split; [done|]. rewrite Hi1. apply cut_refl.
Qed.

Section Pass.
Context (V : horizons) (E : Z -> xact_state) (E1 : xact_state) (buffer : BufferState) (wal : option Z) (scratch : list Z) (p : Page).
Context (oldest snap0 ts0 : Z).

Lemma prune_ok : prunable E E1 scratch p -> exists p1 p' st s n,
  heap_page_prune V E E1 buffer wal scratch p oldest snap0 ts0 = Ok (p', n, lenZ (nowdead s), s) /\ outcome V E E1 oldest snap0 p p1 p' st s n.
Proof.
  intros [Hl Hg Htu [Hsl Hsb]]. unfold heap_page_prune. pose proof (hl_lines _ Hl) as Hn. pose proof (ok_nline p (hl_ok _ Hl)) as [_ Hn0]. fold (nline p).
  set (s0 := mkPrune oldest ts0 snap0 false InvalidTransactionId InvalidTransactionId [] [] [] _ _ None).
  assert (Hlen0 : lenZ (htsv s0) = MaxHeapTuplesPerPage + 1 /\ lenZ (marked s0) = MaxHeapTuplesPerPage + 1) by (unfold lenZ, s0; cbn [htsv marked]; rewrite !length_replicate; done).
  destruct Hlen0 as [Hlen0 Hlenm]. destruct (htsv_loop_ok V buffer oldest snap0 E (Z.to_nat (nline p)) p s0) as (p1 & s1 & Hrun & Hre & Hdec & Hst); [done| |lia|lia|auto|].
  { split; [done|by left|done]. }
  rewrite Z2Nat.id in Hre, Hst by lia. change PageGetMaxOffsetNumber with nline. rewrite Hrun, bind_val. cbv beta iota.
  destruct (statuses_of V E oldest snap0 p p1 _ s1 Hre Hlen0 Hn Hst) as (Hlen1 & Hat & Htup & Hjudged). destruct Hdec as (Hd1 & Hd2 & Hd3 & Hd4).
  pose proof (rehinted_graph E E1 p p1 Hre Hg) as Hg1. pose proof (sl_lines _ _ (rh_lines _ _ _ _ Hre)) as Hl1. pose proof (sl_nline _ _ (rh_lines _ _ _ _ Hre)) as Hnl.
  assert (Hinv : plan_inv E1 p1 (status s1) s1).
  { apply start_inv; [|intros i Hi|by rewrite Hd1|by rewrite Hd2|by rewrite Hd3].
    - split; [by rewrite Hd4|done|done].
    - unfold is_marked. rewrite Hd4. intros [Hr _]%lookup_replicate. done. }
  destruct (scan_loop_ok E1 p1 (status s1) Hl1 Hg1 Htup (Z.to_nat (nline p)) FirstOffsetNumber s1 0) as (s & n & Hscan & Hp & Hcnt & Hset).
  - done.
  - unfold tuples_removed, removed, from. by rewrite Hd1, Hd2, Hd3.
  - intros i Hi. unfold FirstOffsetNumber in Hi. lia.
  - done.
  - unfold FirstOffsetNumber. rewrite Hnl. lia.
  - rewrite Hscan, bind_val. cbv beta iota. assert (Hpg : forall t, t ∈ targets s -> in_page p1 t) by (intros t Ht; apply (pv_targets _ _ _ _ Hp t Ht)).
    destruct (write_ok p1 s wal scratch Hl1 Hsl Hsb (pv_nodup _ _ _ _ Hp) (pv_pages _ _ _ _ Hp) Hpg) as (p' & Hw & Hok' & Hcut). rewrite Hw, bind_val.
    exists p1, p', (status s1), s, n. split; [done|].
    assert (Hrs : forall i t, (i, t) ∈ redirected s -> in_page p1 i) by (intros i t Hi; apply (pv_pages _ _ _ _ Hp), elem_removed; left; apply list_elem_of_fmap; by exists (i, t)).
    split; [exact Hre|exact Hg1|exact Hjudged|exact Hp| |by rewrite <- Hcnt| | | | |].
    + intros i Hi. apply Hset. unfold in_page in *. by rewrite Hnl.
    + by eapply (pruned_lines _ _ _ p1 p' Hl1 Hok' Hcut (pv_nodup _ _ _ _ Hp)).
    + intros i. by apply (pruned_tuple _ _ _ p1 p').
    + intros i Hi. destruct (pruned_bytes _ _ _ p1 p' Hl1 Hok' Hcut i Hi) as [H1 H2]. pose proof (proj1 (pruned_tuple _ _ _ p1 p' Hl1 Hok' Hcut i) Hi) as [[Hip _] _].
      assert (Hlp : lpi p1 i = lpi p i) by (apply (rh_lines _ _ _ _ Hre); unfold in_page in *; by rewrite <- Hnl). rewrite Hlp in H1, H2. done.
    + intros i Hi. apply (pruned_dead _ _ _ p1 p' Hl1 Hok' Hcut (pv_nodup _ _ _ _ Hp)); [|done]. apply (pv_pages _ _ _ _ Hp), elem_removed. by right; left.
    + intros i t. exact (proj1 (pruned_redirect _ _ _ p1 p' Hl1 Hok' Hcut (pv_nodup _ _ _ _ Hp) i t Hrs)).
Qed.
End Pass.

(** ** What a caller sees *)
Instance is_tuple_dec p i : Decision (is_tuple p i).
Proof. unfold is_tuple, in_page. apply _. Defined.

(** The tuples of [p] that are not tuples of [p'] any more. *)
Definition gone (p p' : Page) : list Z := filter (fun i => is_tuple p i /\ ~ is_tuple p' i) (seqZ 1 (nline p)).

Section Outcome.
Context (V : horizons) (E : Z -> xact_state) (E1 : xact_state) (oldest snap0 : Z) (p p1 p' : Page) (st : Z -> option HTSV_Result) (s : PruneState) (n : Z).
Context (Ho : outcome V E E1 oldest snap0 p p1 p' st s n).

Lemma oc_tuples i : is_tuple p1 i <-> is_tuple p i.
Proof. apply (rehinted_tuple E), Ho. Qed.
Lemma oc_removed i : is_tuple p i -> ~ is_tuple p' i <-> i ∈ removed s.
Proof. intros Hi. rewrite (oc_tuple _ _ _ _ _ _ _ _ _ _ _ Ho), oc_tuples. destruct (decide (i ∈ removed s)); tauto. Qed.

Lemma oc_hdr i : is_tuple p' i -> hdr p' i = hdr p1 i.
Proof.
  intros Hi. apply hdr_ext. intros d Hd. apply (oc_bytes _ _ _ _ _ _ _ _ _ _ _ Ho i Hi). pose proof (proj1 (oc_tuple _ _ _ _ _ _ _ _ _ _ _ Ho i) Hi) as [Ht%oc_tuples _].
  destruct (oc_bytes _ _ _ _ _ _ _ _ _ _ _ Ho i Hi) as [Hlen _]. pose proof (hl_normal _ (oc_lines _ _ _ _ _ _ _ _ _ _ _ Ho) i Hi) as Hn. unfold SizeofHeapTupleHeader in Hn. lia.
Qed.

Lemma oc_gone : n = lenZ (gone p p').
Proof.
  rewrite (oc_count _ _ _ _ _ _ _ _ _ _ _ Ho). unfold tuples_removed, gone, lenZ. f_equal. apply Permutation_length, NoDup_Permutation.
  - apply NoDup_filter, (oc_plan _ _ _ _ _ _ _ _ _ _ _ Ho).
  - apply NoDup_filter, NoDup_seqZ.
  - intros i. rewrite !list_elem_of_filter, elem_of_seqZ. split.
    + intros [Hf Hr]. pose proof (pv_pages _ _ _ _ (oc_plan _ _ _ _ _ _ _ _ _ _ _ Ho) i Hr) as Hi. assert (Ht : is_tuple p i) by (by apply oc_tuples).
      split; [split; [done|by apply oc_removed]|]. destruct Ht as [[H1 H2] _]. lia.
    + intros [[Ht Hn] _]. split; [by apply oc_tuples|by apply oc_removed].
Qed.

Lemma oc_hot_graph : hot_graph E1 p'.
Proof.
  eapply (new_hot_graph E1 p1 p' st s); [apply Ho|apply Ho| |apply Ho|apply oc_hdr|apply Ho].
  intros i Hi. apply (oc_settled _ _ _ _ _ _ _ _ _ _ _ Ho). unfold in_page in *. by rewrite (sl_nline _ _ (rh_lines _ _ _ _ (oc_hints _ _ _ _ _ _ _ _ _ _ _ Ho))) in Hi.
Qed.

Lemma oc_reach r y : is_root p1 r -> is_tuple p' y -> rtc (edge E1 p') r y <-> rtc (edge E1 p1) r y.
Proof. apply (reach_root E1 p1 p' st s); [apply Ho|apply Ho|apply Ho|apply oc_hdr|apply Ho]. Qed.

(** A removed root keeps a line pointer. *)
Lemma oc_root i : is_tuple p i -> ~ is_tuple p' i -> ~ heap_only p i -> in_page p' i /\ (lp_flags (lpi p' i) = LP_REDIRECT \/ lp_flags (lpi p' i) = LP_DEAD).
Proof.
  intros Ht Hn Hr. apply oc_removed in Hn; [|done]. apply elem_removed in Hn as [Hn|[Hn|Hn]].
  - apply list_elem_of_fmap in Hn as ([j t] & -> & Hin). assert (Hrd : is_redirect p' j t) by (apply Ho; by left). destruct Hrd as (? & ? & _). by split; [|left].
  - destruct (oc_dead _ _ _ _ _ _ _ _ _ _ _ Ho i Hn). by split; [|right].
  - exfalso. apply Hr. apply (rehinted_heap_only E p p1 (oc_hints _ _ _ _ _ _ _ _ _ _ _ Ho) i Ht). by apply (unused_heap_only E1 p1 st s (oc_graph _ _ _ _ _ _ _ _ _ _ _ Ho) (oc_plan _ _ _ _ _ _ _ _ _ _ _ Ho)).
Qed.

(** Why it was removed, in terms of the page before. *)
Lemma oc_why i : is_tuple p i -> ~ is_tuple p' i ->
  (st i = Some HEAPTUPLE_DEAD \/ st i = Some HEAPTUPLE_RECENTLY_DEAD) /\ exists z, rtc (edge E1 p) i z /\ st z = Some HEAPTUPLE_DEAD /\ is_tuple p z /\ ~ is_tuple p' z.
Proof.
  intros Ht Hn. apply oc_removed in Hn; [|done]. destruct (removed_tuple E1 p1 st s (oc_graph _ _ _ _ _ _ _ _ _ _ _ Ho) (oc_plan _ _ _ _ _ _ _ _ _ _ _ Ho) i) as (Hd & z & Hz & Htz%oc_tuples & Hdz & Hrz); [by apply oc_tuples|done|].
  split; [done|]. exists z. split_and!; [|done|done|by apply oc_removed]. eapply rtc_subrel, Hz. intros a b. apply (rehinted_edge E), Ho.
Qed.

(** What the bytes of a tuple that stays are. *)
Lemma oc_kept i : is_tuple p' i -> is_tuple p i /\ lp_len (lpi p' i) = lp_len (lpi p i) /\ hinted (E i) (hdr p i) (hdr p' i) /\
  forall d, 0 <= d < lp_len (lpi p i) -> d <> 20 -> d <> 21 -> tuple_byte p' i d = tuple_byte p i d.
Proof.
  intros Hi. pose proof (proj1 (oc_tuple _ _ _ _ _ _ _ _ _ _ _ Ho i) Hi) as [Ht%oc_tuples _]. destruct (oc_bytes _ _ _ _ _ _ _ _ _ _ _ Ho i Hi) as [Hlen Hb].
  pose proof (oc_hints _ _ _ _ _ _ _ _ _ _ _ Ho) as Hre. split_and!; [done|done|..].
  - rewrite oc_hdr by done. apply Hre; [done|apply Ht].
  - intros d Hd H20 H21. rewrite Hb by done. apply Hre; [done|done|by right].
Qed.
End Outcome.

Section Claims.
Context (V : horizons) (E : Z -> xact_state) (E1 : xact_state) (buffer : BufferState) (wal : option Z) (scratch : list Z) (p : Page).
Context (oldest snap0 ts0 : Z).

(** C13. Pruning removes nothing that is needed.  On a sound heap page, [heap_page_prune]
    always succeeds, within the page and its arrays, and leaves a well-formed heap page.
    Every tuple that stays keeps its line number, its length and all its bytes but hint
    bits.  Every tuple that goes was found DEAD, or RECENTLY_DEAD in front of a member of
    its chain that was found DEAD and goes too; a status is DEAD only if the fates of the
    tuple's transactions and the horizons say so.  A tuple that is not heap-only, to which
    indexes may point, leaves a redirect or a dead line pointer behind.  The number
    returned is the number of tuples that went. *)
Theorem prune_removes_dead_only : prunable E E1 scratch p ->
  exists p' n s st, heap_page_prune V E E1 buffer wal scratch p oldest snap0 ts0 = Ok (p', n, lenZ (nowdead s), s) /\ heap_lines p' /\
    (forall i, is_tuple p i -> exists r, st i = Some r /\ judged V oldest snap0 (E i) (hdr p i) r) /\
    (forall i, is_tuple p' i -> is_tuple p i /\ lp_len (lpi p' i) = lp_len (lpi p i) /\ hinted (E i) (hdr p i) (hdr p' i) /\
       forall d, 0 <= d < lp_len (lpi p i) -> d <> 20 -> d <> 21 -> tuple_byte p' i d = tuple_byte p i d) /\
    (forall i, is_tuple p i -> ~ is_tuple p' i ->
       (st i = Some HEAPTUPLE_DEAD \/ st i = Some HEAPTUPLE_RECENTLY_DEAD) /\
       (exists z, rtc (edge E1 p) i z /\ st z = Some HEAPTUPLE_DEAD /\ is_tuple p z /\ ~ is_tuple p' z) /\
       (~ heap_only p i -> in_page p' i /\ (lp_flags (lpi p' i) = LP_REDIRECT \/ lp_flags (lpi p' i) = LP_DEAD))) /\
    n = lenZ (gone p p').
Proof.
  intros Hp. destruct (prune_ok V E E1 buffer wal scratch p oldest snap0 ts0 Hp) as (p1 & p' & st & s & n & Hrun & Ho). exists p', n, s, st.
  split; [done|]. split; [apply Ho|]. split; [apply Ho|]. split; [intros i Hi; by apply (oc_kept _ _ _ _ _ _ _ _ _ _ _ Ho)|]. split; [|by apply (oc_gone _ _ _ _ _ _ _ _ _ _ _ Ho)].
  intros i Ht Hn. destruct (oc_why _ _ _ _ _ _ _ _ _ _ _ Ho i Ht Hn) as [Hd Hz]. split; [done|]. split; [done|]. by apply (oc_root _ _ _ _ _ _ _ _ _ _ _ Ho).
Qed.

(** C14. Pruning keeps the chains.  The page [p'] that [heap_page_prune] leaves again has
    sound chains: redirects and links lead to heap-only tuples, no tuple has two
    predecessors, and there is no cycle.  With [p1] the page once the hint bits are set,
    a search that starts at a line pointer to which an index may point, that is, a
    redirect or a tuple that is not heap-only, reaches a tuple of [p'] exactly when it
    reached it on [p1]: no version is lost to an index scan, and none is gained. *)
Theorem prune_keeps_chains p' n nd s : prunable E E1 scratch p ->
  heap_page_prune V E E1 buffer wal scratch p oldest snap0 ts0 = Ok (p', n, nd, s) ->
  hot_graph E1 p' /\ exists p1, rehinted E (nline p) p p1 /\
    forall r y, is_root p r -> is_tuple p' y -> rtc (edge E1 p') r y <-> rtc (edge E1 p1) r y.
Proof.
  intros Hp Hrun. destruct (prune_ok V E E1 buffer wal scratch p oldest snap0 ts0 Hp) as (p1 & q & st & s' & m & Hrun' & Ho). rewrite Hrun' in Hrun. injection Hrun as <- <- <- <-.
  split; [by eapply oc_hot_graph|]. exists p1. split; [apply Ho|]. intros r y Hr Hy. eapply (oc_reach _ _ _ _ _ _ _ _ _ _ _ Ho); [|done].
  pose proof (oc_hints _ _ _ _ _ _ _ _ _ _ _ Ho) as Hre. destruct Hr as [[t Hr]|[Ht Hh]]; [left; exists t; by apply (rehinted_redirect E p p1 Hre)|right].
  split; [by apply (rehinted_tuple E p p1 Hre)|]. by rewrite (rehinted_heap_only E p p1 Hre).
Qed.

End Claims.

(** ** A concrete page: a chain of three tuples, of which transactions 11 and 12 have
    replaced the first two *)
Definition le16 (x : Z) : list Z := [x `mod` 256; x / 256].
Definition le32 (x : Z) : list Z := le16 (x `mod` 65536) ++ le16 (x / 65536).
Definition demo_heap_tuple (xmin xmax posid mask2 mask : Z) : list Z :=
  le32 xmin ++ le32 xmax ++ le32 0 ++ le16 0 ++ le16 0 ++ le16 posid ++ le16 mask2 ++ le16 mask ++ [24; 0].
Definition demo_heap_page : Page :=
  match (p ← PageInit (replicate 8192 0) BLCKSZ 0;
         '(p, _) ← PageAddItemExtended p (demo_heap_tuple 10 11 2 HEAP_HOT_UPDATED 0) 24 0 PAI_IS_HEAP;
         '(p, _) ← PageAddItemExtended p (demo_heap_tuple 11 12 3 (Z.lor HEAP_ONLY_TUPLE HEAP_HOT_UPDATED) 0) 24 0 PAI_IS_HEAP;
         '(p, _) ← PageAddItemExtended p (demo_heap_tuple 12 0 3 HEAP_ONLY_TUPLE HEAP_XMAX_INVALID) 24 0 PAI_IS_HEAP;
         Ok p) with
  | Ok p => p
  | _ => []
  end.
Definition demo_horizons : horizons := mkHorizons (fun _ => false) false None.

Lemma demo_heap_cases i : in_page demo_heap_page i -> i = 1 \/ i = 2 \/ i = 3.
Proof. unfold in_page. change (nline demo_heap_page) with (PageGetMaxOffsetNumber demo_heap_page). replace (PageGetMaxOffsetNumber demo_heap_page) with 3 by (vm_compute; done). lia. Qed.

Lemma demo_heap_normal i : in_page demo_heap_page i -> lp_flags (lpi demo_heap_page i) = LP_NORMAL /\ lp_len (lpi demo_heap_page i) = 24.
Proof. intros [-> |[-> | ->]]%demo_heap_cases; vm_compute; done. Qed.

Lemma demo_heap_lines : heap_lines demo_heap_page.
Proof.
  split.
  - apply page_okb_sound. vm_compute. reflexivity.
  - intros i Hi _. destruct (demo_heap_normal (i + 1)) as [_ H]; [unfold in_page; lia|]. unfold lpi in H. replace (i + 1 - 1) with i in H by lia. by rewrite H.
  - intros i [Hi _]. by rewrite (proj2 (demo_heap_normal i Hi)).
  - intros i t (Hi & Hf & _). rewrite (proj1 (demo_heap_normal i Hi)) in Hf. discriminate Hf.
  - by vm_compute.
Qed.

Lemma demo_heap_edge i j : edge demo_env demo_heap_page i j -> i = 1 /\ j = 2 \/ i = 2 /\ j = 3.
Proof.
  intros [[(Hi & Hf & _) _]|(Ht & Hh & Hc & _)].
  - rewrite (proj1 (demo_heap_normal i Hi)) in Hf. discriminate Hf.
  - destruct Ht as [[-> |[-> | ->]]%demo_heap_cases _]; vm_compute in Hh, Hc; [by left|by right|done].
Qed.

Lemma demo_heap_graph : hot_graph demo_env demo_heap_page.
Proof.
  split.
  - intros i t (Hi & Hf & _). rewrite (proj1 (demo_heap_normal i Hi)) in Hf. discriminate Hf.
  - intros i j [[_ ->]|[_ ->]]%demo_heap_edge; vm_compute; done.
  - intros i j k Hi%demo_heap_edge Hj%demo_heap_edge. lia.
  - exists Z.to_nat. intros i j H%demo_heap_edge. lia.
Qed.

Lemma demo_prunable : prunable (fun _ => demo_env) demo_env (replicate 8192 0) demo_heap_page.
Proof.
  split; [apply demo_heap_lines|apply demo_heap_graph| |apply zero_block_ok]. intros i [Hi _]. split; [apply demo_env_ok|].
  apply demo_heap_cases in Hi as [-> |[-> | ->]]; split; vm_compute; intros; done.
Qed.

Lemma prune_removes_dead_only_witness : exists p' n s st,
  heap_page_prune demo_horizons (fun _ => demo_env) demo_env demo_buffer None (replicate 8192 0) demo_heap_page 20 0 0 = Ok (p', n, lenZ (nowdead s), s) /\
  (forall i, is_tuple demo_heap_page i -> ~ is_tuple p' i -> (st i = Some HEAPTUPLE_DEAD \/ st i = Some HEAPTUPLE_RECENTLY_DEAD)) /\ n = lenZ (gone demo_heap_page p').
Proof.
  destruct (prune_removes_dead_only demo_horizons (fun _ => demo_env) demo_env demo_buffer None (replicate 8192 0) demo_heap_page 20 0 0 demo_prunable)
    as (p' & n & s & st & H1 & _ & _ & _ & H2 & H3).
  exists p', n, s, st. split; [exact H1|]. split; [|exact H3]. intros i Hi Hn. exact (proj1 (H2 i Hi Hn)).
Defined.

Definition demo_pruned : Page :=
  match heap_page_prune demo_horizons (fun _ => demo_env) demo_env demo_buffer None (replicate 8192 0) demo_heap_page 20 0 0 with Ok (p, _, _, _) => p | _ => [] end.
Definition demo_prune_state : PruneState :=
  match heap_page_prune demo_horizons (fun _ => demo_env) demo_env demo_buffer None (replicate 8192 0) demo_heap_page 20 0 0 with Ok (_, _, _, s) => s | _ => mkPrune 0 0 0 false 0 0 [] [] [] [] [] None end.

(** The first line pointer is redirected to the third, the second is unused. *)
Lemma demo_prune_runs : heap_page_prune demo_horizons (fun _ => demo_env) demo_env demo_buffer None (replicate 8192 0) demo_heap_page 20 0 0 =
  Ok (demo_pruned, 2, 0, demo_prune_state) /\ redirected demo_prune_state = [(1, 3)] /\ nowunused demo_prune_state = [2] /\
  map it_flags (items demo_pruned) = [LP_REDIRECT; LP_UNUSED; LP_NORMAL].
Proof. split_and!; vm_compute; reflexivity. Qed.

Lemma prune_keeps_chains_witness : hot_graph demo_env demo_pruned.
Proof.
  exact (proj1 (prune_keeps_chains demo_horizons (fun _ => demo_env) demo_env demo_buffer None (replicate 8192 0) demo_heap_page 20 0 0
    demo_pruned 2 0 demo_prune_state demo_prunable (proj1 demo_prune_runs))).
Defined.

