(* ===== verification/HeapHot.v ===== *)
(** Searching HOT chains: [heap_hot_search_buffer] of [heapam.c], which an index scan uses,
    [heap_get_root_tuples] of [pruneheap.c], which index creation uses, and the
    opportunistic [heap_page_prune_opt].

    The tracking of conflicts between serializable transactions
    ([HeapCheckForSerializableConflictOut], [PredicateLockTID]) is left out. *)
From S2P Require Import Prelude ByteMem BufPage Transam HeapTup HeapVis HeapPrune.

(** ** The search for a visible member *)
Section Search.
(** [E] gives the state of transactions when the tuple at an offset is checked, [vistest]
    is [GlobalVisTestIsRemovableXid] for the relation. *)
Context (E : Z -> xact_state) (buffer : BufferState) (vistest : Z -> bool) (blkno : Z).

(** The page and the snapshot may be written; the result is the offset found, if any, and
    [*all_dead], if the pointer is not NULL. *)
Fixpoint hot_search_loop (fuel : nat) (page : Page) (snapshot : SnapshotData) (offnum prev_xmax : Z) (at_chain_start skip : bool) (all_dead : option bool)
    : res (Page * SnapshotData * option Z * option bool) :=
  match fuel with
  | O => OutOfFuel
  | S fuel =>
    if (offnum <? FirstOffsetNumber) || (PageGetMaxOffsetNumber page <? offnum) then Ok (page, snapshot, None, all_dead)
    else
      lp ← load_lp page (PageGetItemId offnum);
      if negb (ItemIdIsNormal lp) then
        if ItemIdIsRedirected lp && at_chain_start
        then hot_search_loop fuel page snapshot (ItemIdGetRedirect lp) prev_xmax false skip all_dead
        else Ok (page, snapshot, None, all_dead)
      else
        htup ← tuple_header page lp;
        if at_chain_start && HeapTupleHeaderIsHeapOnly htup then Ok (page, snapshot, None, all_dead)
        else if TransactionIdIsValid prev_xmax && negb (TransactionIdEquals prev_xmax (HeapTupleHeaderGetXmin htup)) then Ok (page, snapshot, None, all_dead)
        else
          let '(htup, snapshot, valid) :=
            if negb skip then HeapTupleSatisfiesVisibility (E offnum) buffer (blkno, offnum) htup snapshot else (htup, snapshot, false) in
          let page := store_infomask page lp (t_infomask htup) in
          if valid then Ok (page, snapshot, Some offnum, (fun _ => false) <$> all_dead)
          else
            let all_dead := (fun d => d && HeapTupleIsSurelyDead vistest htup) <$> all_dead in
            if HeapTupleHeaderIsHotUpdated htup
            then hot_search_loop fuel page snapshot (ctid_posid htup) (HeapTupleHeaderGetUpdateXid (E offnum) htup) false false all_dead
            else Ok (page, snapshot, None, all_dead)
  end.

(** [all_dead] tells whether the caller passed a pointer. *)
Definition heap_hot_search_buffer (page : Page) (offnum : Z) (snapshot : SnapshotData) (all_dead first_call : bool)
    : res (Page * SnapshotData * option Z * option bool) :=
  hot_search_loop (S (S (Z.to_nat MaxHeapTuplesPerPage))) page snapshot offnum InvalidTransactionId first_call (negb first_call)
    (if all_dead then Some first_call else None).
End Search.

(** ** Root line pointers *)
Section Roots.
Context (E : xact_state).

(** The inner loop; it tests [offnum], which does not change, against the bounds. *)
Fixpoint root_chase (fuel : nat) (page : Page) (maxoff offnum nextoffnum priorXmax : Z) (root_offsets : list Z) : res (list Z) :=
  match fuel with
  | O => OutOfFuel
  | S fuel =>
    if offnum <? FirstOffsetNumber then Ok root_offsets
    else if maxoff <? offnum then Ok root_offsets
    else
      lp ← load_lp page (PageGetItemId nextoffnum);
      if negb (ItemIdIsNormal lp) then Ok root_offsets
      else
        htup ← tuple_header page lp;
        if TransactionIdIsValid priorXmax && negb (TransactionIdEquals priorXmax (HeapTupleHeaderGetXmin htup)) then Ok root_offsets
        else
          root_offsets ← aset root_offsets (nextoffnum - 1) offnum;
          if negb (HeapTupleHeaderIsHotUpdated htup) then Ok root_offsets
          else root_chase fuel page maxoff offnum (ctid_posid htup) (HeapTupleHeaderGetUpdateXid E htup) root_offsets
  end.

(** One round of the outer loop. *)
Definition root_step (page : Page) (maxoff offnum : Z) (root_offsets : list Z) : res (list Z) :=
  let fuel := S (Z.to_nat MaxHeapTuplesPerPage) in
  lp ← load_lp page (PageGetItemId offnum);
  if negb (ItemIdIsUsed lp) || ItemIdIsDead lp then Ok root_offsets
  else if ItemIdIsNormal lp then
    htup ← tuple_header page lp;
    if HeapTupleHeaderIsHeapOnly htup then Ok root_offsets
    else
      root_offsets ← aset root_offsets (offnum - 1) offnum;
      if negb (HeapTupleHeaderIsHotUpdated htup) then Ok root_offsets
      else root_chase fuel page maxoff offnum (ctid_posid htup) (HeapTupleHeaderGetUpdateXid E htup) root_offsets
  else root_chase fuel page maxoff offnum (ItemIdGetRedirect lp) InvalidTransactionId root_offsets.

Fixpoint root_loop (rounds : nat) (page : Page) (maxoff offnum : Z) (root_offsets : list Z) : res (list Z) :=
  match rounds with
  | O => Ok root_offsets
  | S rounds => root_offsets ← root_step page maxoff offnum root_offsets; root_loop rounds page maxoff (offnum + 1) root_offsets
  end.

Definition heap_get_root_tuples (page : Page) : res (list Z) :=
  let maxoff := PageGetMaxOffsetNumber page in
  root_loop (Z.to_nat maxoff) page maxoff FirstOffsetNumber (replicate (Z.to_nat MaxHeapTuplesPerPage) InvalidOffsetNumber).
End Roots.

(** ** Opportunistic pruning *)
Definition RelationGetTargetPageFreeSpace (fillfactor : Z) : Z := BLCKSZ * (100 - fillfactor) / 100.

(** What decides whether to prune, and the lock: [locked] is the page once the cleanup lock
    is held, or [None] if it was not available at once. *)
Record prune_context := mkPruneContext {
  RecoveryInProgress : bool;
  fillfactor : Z;
  locked : option Page }.

(** Is the page full enough? *)
Definition wants_pruning (minfree : Z) (page : Page) : res bool :=
  if PageIsFull page then Ok true else free ← PageGetHeapFreeSpace page; Ok (free <? minfree).

(** The page and the number of tuples reported to the statistics; [None] if nothing was
    done. *)
Definition heap_page_prune_opt (V : horizons) (E : Z -> xact_state) (E1 : xact_state) (buffer : BufferState) (wal : option Z) (scratch : list Z)
    (C : prune_context) (page : Page) : res (option (Page * Z)) :=
  if RecoveryInProgress C then Ok None
  else
    let prune_xid := pd_prune_xid page in
    if negb (TransactionIdIsValid prune_xid) then Ok None
    else
      let limited :=
        if negb (vistest V prune_xid) then
          if negb (OldSnapshotThresholdActive V) then None
          else match TransactionIdLimitedForOldSnapshots V with
               | None => None
               | Some (limited_xmin, limited_ts) => if negb (TransactionIdPrecedes prune_xid limited_xmin) then None else Some (limited_xmin, limited_ts)
               end
        else Some (InvalidTransactionId, 0) in
      match limited with
      | None => Ok None
      | Some (limited_xmin, limited_ts) =>
        let minfree := Z.max (RelationGetTargetPageFreeSpace (fillfactor C)) (BLCKSZ / 10) in
        wanted ← wants_pruning minfree page;
        if (wanted : bool) then
          match locked C with
          | None => Ok None
          | Some page =>
            wanted ← wants_pruning minfree page;
            if (wanted : bool) then
              '(page, ndeleted, nnewlpdead, _) ← heap_page_prune V E E1 buffer wal scratch page InvalidTransactionId limited_xmin limited_ts;
              Ok (Some (page, if nnewlpdead <? ndeleted then ndeleted - nnewlpdead else 0))
            else Ok None
          end
        else Ok None
      end.
