(* ===== verification/HeapHotSpec.v ===== *)
(** What the searches of HOT chains find. *)
From S2P Require Import Prelude ByteMem BufPage BufPageLayout BufPageSpec Transam HeapTup HeapVis HeapVisSpec HeapPrune HeapPruneChain HeapPrunePlan HeapPruneGraph HeapPruneExec HeapPruneHints HeapPruneSpec HeapHot.

(** ** Roots *)
Section Roots.
Context (E : xact_state) (p : Page) (Hl : heap_lines p) (Hg : hot_graph E p).

Lemma root_no_pred r x : is_root p r -> edge E p x r -> False.
Proof.
  intros [[t Hr]|[_ Hh]] He; [|by apply Hh, (hg_heap_only _ _ Hg x)]. eapply tuple_not_redirect; [by eapply edge_tuple|done].
Qed.

(** [j] is the root of the chain of the tuple [k]. *)
Definition root_of (j k : Z) : Prop := is_root p j /\ is_tuple p k /\ rtc (edge E p) j k.

Lemma root_of_unique j j' k : root_of j k -> root_of j' k -> j = j'.
Proof.
  intros (Hj & _ & Hjk) (Hj' & _ & Hjk'). revert j' Hj' Hjk'. revert k Hjk. apply (rtc_ind_r (fun k => forall j', is_root p j' -> rtc (edge E p) j' k -> j = j')).
  - intros j' Hj' Hjk'. apply rtc_inv_r in Hjk' as [->|(x & _ & Hx)]; [done|]. exfalso. by apply (root_no_pred j x).
  - intros x k _ Hxk IH j' Hj' Hjk'. apply rtc_inv_r in Hjk' as [->|(x' & Hjx' & Hx')]; [exfalso; by apply (root_no_pred k x)|]. apply IH; [done|]. by rewrite (hg_unique _ _ Hg _ _ _ Hxk Hx').
Qed.

Lemma root_in_page j : is_root p j -> in_page p j.
Proof. by intros [[t [? _]]|[[? _] _]]. Qed.

(** The links of tuples that were updated stay on the page. *)
Context (Hlinks : forall i, is_tuple p i -> hot p i -> in_page p (ctid_posid (hdr p i))).

Lemma pending_page x next prior : pending E p x next prior -> in_page p next.
Proof. intros [[Hr _]|(Ht & Hh & <- & _)]; [by eapply (hg_redirect _ _ Hg) in Hr as [? _]|by apply Hlinks]. Qed.

(** The entries written for a chain. *)
Definition written (l : list Z) (o : Z) (roots roots' : list Z) : Prop :=
  length roots' = length roots /\ forall k, 1 <= k <= lenZ roots -> roots' !! Z.to_nat (k - 1) = if decide (k ∈ l) then Some o else roots !! Z.to_nat (k - 1).

Lemma written_nil o roots : written [] o roots roots.
Proof. split; [done|]. intros k _. by rewrite decide_False by apply not_elem_of_nil. Qed.

Lemma written_cons x l o roots roots' : 1 <= x <= lenZ roots -> written l o (<[Z.to_nat (x - 1) := o]> roots) roots' -> written (x :: l) o roots roots'.
Proof.
  intros Hx [Hlen Hk]. rewrite length_insert in Hlen. split; [done|]. intros k Hr. rewrite Hk by (unfold lenZ in *; rewrite length_insert; done).
  destruct (decide (k ∈ l)) as [Hin|Hn]; [by rewrite decide_True by (apply elem_of_cons; by right)|]. destruct (decide (k = x)) as [->|Hne].
  - rewrite decide_True by (apply elem_of_cons; by left). apply list_lookup_insert_eq. unfold lenZ in *. lia.
  - rewrite decide_False by (rewrite elem_of_cons; tauto). apply list_lookup_insert_ne. lia.
Qed.

Lemma no_edge_tc x : (forall y, edge E p x y -> False) -> forall k, tc (edge E p) x k -> False.
Proof. intros Hn k Hk. destruct Hk as [x y He|x y z He _]; by apply (Hn y). Qed.

Lemma tc_step x y k : edge E p x y -> tc (edge E p) x k <-> k = y \/ tc (edge E p) y k.
Proof.
  intros He. split.
  - intros Hk. destruct Hk as [x k He'|x z k He' Hk]; [left; by eapply edge_fun|right]. by rewrite (edge_fun _ _ _ _ _ He He').
  - intros [->|Hk]; [by apply tc_once|by eapply tc_l].
Qed.

Lemma root_chase_ok o : in_page p o -> forall fuel c x next prior roots, path E p (c ++ [x]) -> (forall y, y ∈ c ++ [x] -> in_page p y) -> pending E p x next prior ->
  MaxHeapTuplesPerPage < lenZ (c ++ [x]) + Z.of_nat fuel -> lenZ roots = MaxHeapTuplesPerPage ->
  exists roots' l, root_chase E fuel p (nline p) o next prior roots = Ok roots' /\ (forall k, k ∈ l <-> tc (edge E p) x k) /\ written l o roots roots'.
Proof.
  intros Ho. induction fuel as [|fuel IH]; intros c x next prior roots Hpath Hin Hpend Hfuel Hlen; cbn [root_chase].
  { exfalso. pose proof (distinct_fit p Hl (c ++ [x]) (path_nodup E p Hg _ Hpath) Hin). lia. }
  pose proof (pending_page x next prior Hpend) as Hnext. unfold in_page in Ho. rewrite (proj2 (Z.ltb_ge o FirstOffsetNumber)), (proj2 (Z.ltb_ge (nline p) o)) by (unfold FirstOffsetNumber; lia).
  rewrite (load_ok p Hl next Hnext), bind_val. unfold ItemIdIsNormal. destruct (Z.eqb_spec (lp_flags (lpi p next)) LP_NORMAL) as [Hf|Hf]; cbn [negb].
  2: { exists roots, []. split; [done|]. split; [|apply written_nil]. intros k. split; [by intros ?%not_elem_of_nil|]. intros Hk. exfalso. eapply no_edge_tc, Hk. intros y He.
       destruct (pending_edge E p x next prior y Hpend He) as [-> [[_ ?] _]]. done. }
  assert (Ht : is_tuple p next) by done. rewrite (header_ok p Hl next Ht), bind_val. unfold TransactionIdEquals.
  destruct (TransactionIdIsValid prior && negb (prior =? HeapTupleHeaderGetXmin (hdr p next))) eqn:Hbreak.
  { exists roots, []. split; [done|]. split; [|apply written_nil]. intros k. split; [by intros ?%not_elem_of_nil|]. intros Hk. exfalso. eapply no_edge_tc, Hk. intros y He.
    destruct (pending_edge E p x next prior y Hpend He) as [-> [_ Hj]]. apply andb_true_iff in Hbreak as [Hv Hx]. apply Hj in Hv. rewrite Hv, Z.eqb_refl in Hx. done. }
  assert (Hj : joins p prior next). { split; [done|]. intros Hv. rewrite Hv in Hbreak. cbn in Hbreak. apply negb_false_iff, Z.eqb_eq in Hbreak. done. }
  pose proof (edge_pending E p x next prior Hpend Hj) as He. pose proof (hl_lines _ Hl). unfold in_page in Hnext.
  rewrite aset_Ok by (unfold lenZ in Hlen; lia). rewrite bind_val. destruct (HeapTupleHeaderIsHotUpdated (hdr p next)) eqn:Hh; cbn [negb].
  - destruct (IH (c ++ [x]) next (ctid_posid (hdr p next)) (HeapTupleHeaderGetUpdateXid E (hdr p next)) (<[Z.to_nat (next - 1) := o]> roots)) as (roots' & l & Hrun & Hmem & Hw).
    + rewrite <- app_assoc. by apply path_snoc.
    + intros y [Hy|Hy%list_elem_of_singleton]%elem_of_app; [by apply Hin|by subst].
    + right. by split_and!.
    + unfold lenZ in *. rewrite length_app. cbn [length]. lia.
    + unfold lenZ in *. by rewrite length_insert.
    + exists roots', (next :: l). split; [done|]. split; [|apply written_cons; [lia|done]]. intros k. rewrite elem_of_cons, Hmem, (tc_step x next k He). tauto.
  - exists (<[Z.to_nat (next - 1) := o]> roots), [next]. split; [done|]. split; [|apply written_cons; [lia|apply written_nil]]. intros k. rewrite list_elem_of_singleton, (tc_step x next k He).
    split; [by left|]. intros [->|Hk]; [done|]. exfalso. eapply no_edge_tc, Hk. intros y [[Hr _]|(_ & Hh' & _)]; [by eapply tuple_not_redirect|]. unfold hot in Hh'. congruence.
Qed.

Lemma reach_cases x k : rtc (edge E p) x k <-> k = x \/ tc (edge E p) x k.
Proof. rewrite rtc_tc. naive_solver. Qed.
Lemma tc_tuple x k : tc (edge E p) x k -> is_tuple p k.
Proof. induction 1; [by eapply edge_tuple|done]. Qed.

Lemma root_step_ok o roots : in_page p o -> lenZ roots = MaxHeapTuplesPerPage ->
  exists roots' l, root_step E p (nline p) o roots = Ok roots' /\ (forall k, k ∈ l <-> root_of o k) /\ written l o roots roots'.
Proof.
  intros Ho Hlen. unfold root_step. rewrite (load_ok p Hl o Ho), bind_val. cbv zeta. pose proof (hl_lines _ Hl) as Hmax. assert (Hb : 1 <= o <= lenZ roots) by (unfold in_page in Ho; lia).
  assert (Hnone : (is_root p o -> False) -> forall k, k ∈ @nil Z <-> root_of o k).
  { intros Hn k. split; [by intros ?%not_elem_of_nil|]. intros [Hr _]. by apply Hn in Hr. }
  assert (Hchase : forall next prior roots, pending E p o next prior -> lenZ roots = MaxHeapTuplesPerPage ->
    exists roots' l, root_chase E (S (Z.to_nat MaxHeapTuplesPerPage)) p (nline p) o next prior roots = Ok roots' /\ (forall k, k ∈ l <-> tc (edge E p) o k) /\ written l o roots roots').
  { intros next prior rs Hp Hrs. apply (root_chase_ok o Ho _ [] o); [done|by intros y ->%list_elem_of_singleton|done| |done]. change (lenZ ([] ++ [o])) with 1. lia. }
  unfold ItemIdIsUsed, ItemIdIsDead, ItemIdIsNormal, ItemIdGetRedirect.
  destruct (flags_cases _ (lp_is_wf p (o - 1))) as [Hf|[Hf|[Hf|Hf]]]; fold (lpi p o) in Hf; rewrite Hf.
  1,4: change (negb _ || _) with true; exists roots, []; split; [done|]; split; [|apply written_nil]; apply Hnone; intros [[t (_ & Hf' & _)]|[[_ Hf'] _]]; rewrite Hf in Hf'; discriminate Hf'.
  - change (negb _ || _) with false. change (LP_NORMAL =? LP_NORMAL) with true. cbv iota. assert (Ht : is_tuple p o) by done. rewrite (header_ok p Hl o Ht), bind_val.
    destruct (HeapTupleHeaderIsHeapOnly (hdr p o)) eqn:Hh.
    { exists roots, []. split; [done|]. split; [|apply written_nil]. apply Hnone. intros [[t Hr]|[_ Hn]]; [by eapply tuple_not_redirect|done]. }
    assert (Hroot : is_root p o) by (right; split; [done|]; unfold heap_only; congruence). unfold lenZ in Hlen, Hb. rewrite aset_Ok, bind_val by lia.
    assert (Hmem : forall k, root_of o k <-> k = o \/ tc (edge E p) o k).
    { intros k. rewrite <- reach_cases. split; [by intros (_ & _ & ?)|]. intros Hk. split_and!; [done| |done]. apply reach_cases in Hk as [->|Hk]; [done|by eapply tc_tuple]. }
    destruct (HeapTupleHeaderIsHotUpdated (hdr p o)) eqn:Hhot; cbn [negb].
    + destruct (Hchase (ctid_posid (hdr p o)) (HeapTupleHeaderGetUpdateXid E (hdr p o)) (<[Z.to_nat (o - 1) := o]> roots)) as (roots' & l & Hrun & Hl' & Hw).
      * right. by split_and!.
      * unfold lenZ. by rewrite length_insert.
      * exists roots', (o :: l). split; [done|]. split; [|by apply written_cons]. intros k. by rewrite elem_of_cons, Hl', Hmem.
    + exists (<[Z.to_nat (o - 1) := o]> roots), [o]. split; [done|]. split; [|apply written_cons; [done|apply written_nil]]. intros k. rewrite list_elem_of_singleton, Hmem. split; [by left|].
      intros [->|Hk]; [done|]. exfalso. eapply no_edge_tc, Hk. intros y [[Hr _]|(_ & Hh' & _)]; [by eapply tuple_not_redirect|]. unfold hot in Hh'. congruence.
  - change (negb _ || _) with false. change (LP_REDIRECT =? LP_NORMAL) with false. cbv iota. assert (Hr : is_redirect p o (lp_off (lpi p o))) by done.
    destruct (Hchase (lp_off (lpi p o)) InvalidTransactionId roots) as (roots' & l & Hrun & Hl' & Hw); [by left|done|]. exists roots', l. split; [done|]. split; [|done].
    intros k. rewrite Hl'. split.
    + intros Hk. split_and!; [left; by eexists|by eapply tc_tuple|by apply tc_rtc].
    + intros (_ & Ht & Hk). apply reach_cases in Hk as [->|?]; [|done]. exfalso. by eapply tuple_not_redirect.
Qed.

(** The entries for the line pointers before [o]. *)
Definition roots_upto (o : Z) (roots : list Z) : Prop :=
  lenZ roots = MaxHeapTuplesPerPage /\ forall k, 1 <= k <= MaxHeapTuplesPerPage -> exists v, roots !! Z.to_nat (k - 1) = Some v /\ forall j, root_of j k /\ j < o <-> v = j /\ j <> 0.

Lemma root_loop_ok rounds : forall o roots, 1 <= o -> o + Z.of_nat rounds = nline p + 1 -> roots_upto o roots ->
  exists roots', root_loop E rounds p (nline p) o roots = Ok roots' /\ roots_upto (nline p + 1) roots'.
Proof.
  induction rounds as [|rounds IH]; intros o roots Ho Hend [Hlen Hr]; cbn [root_loop]; [exists roots; split; [done|]; by replace (nline p + 1) with o by lia|].
  destruct (root_step_ok o roots) as (roots' & l & -> & Hmem & Hlen' & Hw); [unfold in_page; lia|done|]. rewrite bind_val. apply IH; [lia|lia|]. split; [unfold lenZ in *; by rewrite Hlen'|].
  intros k Hk. destruct (Hr k Hk) as (v & Hv & Hj). rewrite Hw by lia. destruct (decide (k ∈ l)) as [Hin|Hn].
  - exists o. split; [done|]. apply Hmem in Hin. intros j. split; [|intros [<- _]; split; [done|lia]]. intros [Hjk _]. pose proof (root_of_unique _ _ _ Hin Hjk). lia.
  - exists v. split; [done|]. intros j. rewrite <- Hj. split; [|intros [? ?]; split; [done|lia]]. intros [Hjk Hlt]. split; [done|]. destruct (decide (j = o)) as [->|]; [|lia]. by apply Hmem in Hjk.
Qed.

Lemma root_tuples_ok : exists roots, heap_get_root_tuples E p = Ok roots /\ lenZ roots = MaxHeapTuplesPerPage /\
  forall k, 1 <= k <= MaxHeapTuplesPerPage -> exists v, roots !! Z.to_nat (k - 1) = Some v /\ forall j, root_of j k <-> v = j /\ j <> 0.
Proof.
  unfold heap_get_root_tuples. fold (nline p). pose proof (ok_nline p (hl_ok _ Hl)) as [_ Hn]. destruct (root_loop_ok (Z.to_nat (nline p)) FirstOffsetNumber (replicate (Z.to_nat MaxHeapTuplesPerPage) 0)) as (roots & Hrun & Hlen & Hr).
  - done.
  - unfold FirstOffsetNumber. lia.
  - split; [unfold lenZ; by rewrite length_replicate|]. intros k Hk. exists 0. split; [apply lookup_replicate_2; lia|]. intros j. split; [|lia]. unfold FirstOffsetNumber.
    intros [[Hj%root_in_page _] ?]. unfold in_page in Hj. lia.
  - exists roots. change PageGetMaxOffsetNumber with nline. split; [done|]. split; [done|]. intros k Hk. destruct (Hr k Hk) as (v & Hv & Hj). exists v. split; [done|]. intros j. rewrite <- Hj.
    split; [|by intros [? _]]. intros Hjk. split; [done|]. destruct Hjk as [Hjk%root_in_page _]. unfold in_page in Hjk. lia.
Qed.
End Roots.



(** The array of line pointers was truncated behind a link: the tuple names line 200, where
    the bytes of tuple data lie.  The loop tests [offnum] against the end of the array and
    not [nextoffnum], takes these bytes for a line pointer and follows it out of the
    page. *)
Definition truncated_page : Page :=
  match (p ← PageInit (replicate 8192 0) BLCKSZ 0;
         '(p, _) ← PageAddItemExtended p (demo_heap_tuple 10 11 200 HEAP_HOT_UPDATED 0 ++ concat (replicate 1994 [255; 255; 0; 0])) 8000 0 PAI_IS_HEAP;
         Ok p) with
  | Ok p => p
  | _ => []
  end.
Example root_tuples_past_the_end : PageOK truncated_page /\ nline truncated_page = 1 /\ heap_get_root_tuples demo_env truncated_page = Undef.
Proof. split; [apply page_okb_sound; vm_compute; reflexivity|]. split; vm_compute; reflexivity. Qed.
