(* ===== verification/HeapHotSearch.v ===== *)
(** What an index scan finds: [heap_hot_search_buffer] with an MVCC snapshot returns the first
    visible member of the chain. *)
From S2P Require Import Prelude ByteMem BufPage BufPageLayout BufPageSpec Transam HeapTup HeapVis HeapVisSpec HeapPrune HeapPruneChain HeapPrunePlan HeapPruneGraph HeapPruneExec HeapPruneHints HeapPruneSpec HeapHot HeapHotSpec.

Lemma mvcc_grows E buffer t s : grows t (fst (HeapTupleSatisfiesMVCC E buffer t s)).
Proof.
  unfold HeapTupleSatisfiesMVCC. assert (Hown : forall u, grows u (fst (mvcc_own E buffer s u))).
  { intros u. unfold mvcc_own. repeat case_match; cbn [fst]; try apply grows_refl; by apply set_hint_grows. }
  assert (Hmin : grows t (fst (mvcc_xmin E buffer s t))).
  { unfold mvcc_xmin, moved_off, moved_in, inserter_done. pose proof (Hown t) as Ho. destruct (mvcc_own E buffer s t) as [u b]. cbn [fst] in Ho.
    repeat case_match; cbn [fst]; try apply grows_refl; try done; by apply set_hint_grows. }
  assert (Hmax : forall u, grows u (fst (mvcc_xmax E buffer s u))).
  { intros u. unfold mvcc_xmax. repeat case_match; cbn [fst]; try apply grows_refl; by apply set_hint_grows. }
  destruct (mvcc_xmin E buffer s t) as [t1 [r|]]; [done|]. cbn [fst] in Hmin. by eapply grows_trans.
Qed.

Lemma mvcc_spec_core E s t t' : core t' = core t -> mvcc_spec E s t' = mvcc_spec E s t.
Proof.
  intros Hc. destruct (core_view E t t' Hc) as (Hi & Hu & _). destruct (core_fields t t' Hc) as (Hx & _ & _ & _ & _ & _ & Hf & _). destruct (cids_core E t t' Hc) as [Hmin Hmax].
  unfold mvcc_spec. by rewrite Hu, Hf, Hx, Hmin, Hmax.
Qed.

(** ** Storing hint bits of one tuple *)
Section Store.
Context (E : xact_state) (p q : Page) (Hre : rehinted (fun _ => E) (nline p) p q) (Hlp : heap_lines p).
Context (i : Z) (Hi : is_tuple p i) (t' : HeapTupleHeaderData) (Hh : hinted E (hdr q i) t') (Hgr : grows (hdr q i) t').
Let q' := store_infomask q (lpi q i) (t_infomask t').

Lemma store_facts : same_lines q q' /\ hdr q' i = t' /\ (forall d, 0 <= d -> d <> 20 -> d <> 21 -> tuple_byte q' i d = tuple_byte q i d) /\
  (forall j d, is_tuple q j -> j <> i -> 0 <= d < lp_len (lpi q j) -> tuple_byte q' j d = tuple_byte q j d) /\
  (forall j, is_tuple p j -> j <> i -> hdr q' j = hdr q j).
Proof.
  assert (Hl : heap_lines q) by apply Hre. assert (Hiq : is_tuple q i) by (by apply (rehinted_tuple (fun _ => E) p q)).
  pose proof (infomask_range q (lp_off (lpi q i)) (ok_bytes q (hl_ok _ Hl))) as Hu. destruct (grows_eta _ _ Hgr Hu) as [Heta Hu'].
  destruct (store_infomask_ok q i (t_infomask t') Hl Hiq Hu') as (H1 & H2 & H3 & H4). fold q' in H1, H2, H3, H4. split_and!; try done; [by rewrite H2, <- Heta|].
  intros j Hj Hne. apply (rehinted_tuple (fun _ => E) p q Hre) in Hj. apply hdr_ext. intros d Hd. apply H4; [done|done|]. pose proof (tuple_extent q j Hl Hj). lia.
Qed.

Lemma rehinted_store : rehinted (fun _ => E) (nline p) p q'.
Proof.
  destruct store_facts as (Hs & H1 & H2 & H3 & H4). split.
  - by eapply same_lines_trans; [apply Hre|].
  - intros j Hj Hle. destruct (decide (j = i)) as [->|Hne]; [rewrite H1|rewrite H4 by done; by apply Hre]. eapply hinted_trans; [apply Hre; [done|lia]|done].
  - intros j Hj. destruct (decide (j = i)) as [->|Hne]; [rewrite H1|rewrite H4 by done; by apply Hre]. eapply grows_trans; [by apply Hre|done].
  - intros j d Hj Hd Hc. assert (Hjq : is_tuple q j) by (by apply (rehinted_tuple (fun _ => E) p q)). assert (Hlj : lpi q j = lpi p j) by (apply Hre, Hj).
    destruct Hj as [Hjp Hf]. destruct Hc as [Hc|[? ?]]; [unfold in_page in Hjp; lia|]. transitivity (tuple_byte q j d); [|apply Hre; [done|done|by right]].
    destruct (decide (j = i)) as [->|Hne]; [apply H2; lia|apply H3; [done|done|by rewrite Hlj]].
Qed.

(** The edges that leave other line pointers stay. *)
Lemma store_edge x y : x <> i -> edge E q' x y <-> edge E q x y.
Proof.
  intros Hne. destruct store_facts as (Hs & H1 & _ & _ & H4). assert (Ht : forall j, is_tuple q' j <-> is_tuple q j) by (intros j; by apply same_lines_tuple).
  assert (Htp : forall j, is_tuple q j <-> is_tuple p j) by (intros j; by apply (rehinted_tuple (fun _ => E) p q)).
  assert (Hrd : forall t, is_redirect q' x t <-> is_redirect q x t).
  { intros t. rewrite (rehinted_redirect _ _ _ rehinted_store), (rehinted_redirect _ _ _ Hre). done. }
  assert (Hx : forall j, is_tuple p j -> HeapTupleHeaderGetXmin (hdr q' j) = HeapTupleHeaderGetXmin (hdr q j)).
  { intros j Hj. destruct (decide (j = i)) as [->|]; [rewrite H1; by eapply hinted_xmin|by rewrite H4]. }
  unfold edge, joins, hot, update_xid. rewrite Hrd, !Ht, !Htp. split; (intros [?|(Hxp & Hh' & Hc & Hy & Hj)]; [by left|right]);
    (rewrite (H4 x) in * by done); (rewrite (Hx y) in * by done); by split_and!.
Qed.
End Store.

Lemma path_mono E q q' l : (forall x y, x ∈ l -> edge E q x y -> edge E q' x y) -> path E q l -> path E q' l.
Proof.
  induction l as [|x l IH]; [done|]. intros Hm Hp. destruct l as [|y l]; [done|]. destruct Hp as [He Hp]. split; [apply Hm; [apply elem_of_cons; by left|done]|].
  apply IH; [|done]. intros a b Ha. apply Hm, elem_of_cons. by right.
Qed.

(** The members of a path whose last member leads nowhere are all that is reached. *)
Lemma path_reach E q r us y : path E q (r :: us) -> (forall z, edge E q (lastof r us) z -> False) -> rtc (edge E q) r y -> y ∈ r :: us.
Proof.
  intros Hp Hend Hy. destruct (decide (y ∈ r :: us)); [done|]. destruct (reach_along E q r us Hp y Hy) as (z & Hz & _); [done|]. by apply Hend in Hz.
Qed.

(** ** The walk *)
Section Search.
Context (E : xact_state) (buffer : BufferState) (vistest : Z -> bool) (blkno : Z) (p : Page) (s : SnapshotData).
Context (Hl : heap_lines p) (Hg : hot_graph E p) (Hhints : forall i, is_tuple p i -> hints_ok E (hdr p i)).
Context (Hs : snap_ok E s) (Hmvcc : snapshot_type s = SNAPSHOT_MVCC).
Context (r : Z) (Hr : is_root p r).
Notation rehint := (rehinted (fun _ => E) (nline p) p).

(** Is the tuple visible to the snapshot? *)
Definition seen (i : Z) : bool := mvcc_spec E s (hdr p i).

Lemma rehint_refl : rehint p.
Proof. split; [by apply same_lines_refl|intros i Hi _; by apply hinted_refl, Hhints|intros; apply grows_refl|done]. Qed.

Lemma seen_now q i : rehint q -> is_tuple p i -> mvcc_spec E s (hdr q i) = seen i.
Proof. intros Hre Hi. apply mvcc_spec_core. apply Hre; [done|apply Hi]. Qed.

(** The walk has visited [c], and arrives at [offnum]. *)
Definition arrives (q : Page) (c : list Z) (offnum prior : Z) (start : bool) : Prop :=
  c = [] /\ offnum = r /\ prior = InvalidTransactionId /\ start = true \/
  start = false /\ exists us x, c = r :: us /\ x = lastof r us /\ pending E q x offnum prior.

Record search_inv (q : Page) (c : list Z) (ad : option bool) : Prop := {
  si_hints : rehint q;
  si_path : path E q c;
  si_pages : forall y, y ∈ c -> in_page p y;
  si_unseen : forall y, y ∈ c -> is_tuple p y -> seen y = false;
  si_dead : ad = Some true -> forall y, y ∈ c -> is_tuple p y -> HeapTupleIsSurelyDead vistest (hdr q y) = true }.

(** What the search reports, on the page [q] it leaves. *)
Record found (q : Page) (res : option Z) (ad : option bool) : Prop := {
  fo_hints : rehint q;
  fo_some : forall y, res = Some y -> is_tuple p y /\ seen y = true /\
    exists c, path E q (c ++ [y]) /\ head (c ++ [y]) = Some r /\ forall z, z ∈ c -> is_tuple p z -> seen z = false;
  fo_none : res = None -> forall y, is_tuple p y -> rtc (edge E q) r y -> seen y = false;
  fo_dead : ad = Some true -> res = None /\ forall y, is_tuple p y -> rtc (edge E q) r y -> HeapTupleIsSurelyDead vistest (hdr q y) = true }.

Lemma search_end q us ad : search_inv q (r :: us) ad -> (forall z, edge E q (lastof r us) z -> False) -> found q None ad.
Proof.
  intros [H1 H2 H3 H4 H5] Hend. split; [done|done| |].
  - intros _ y Hy Hry. apply H4; [by eapply path_reach|done].
  - intros Had. split; [done|]. intros y Hy Hry. apply H5; [done|by eapply path_reach|done].
Qed.

Lemma arrive_path q c offnum prior start : search_inv q c None -> arrives q c offnum prior start -> in_page p offnum ->
  (start = false -> joins q prior offnum) -> path E q (c ++ [offnum]) /\ head (c ++ [offnum]) = Some r /\ (start = false -> c <> []) /\
  (forall y, y ∈ c ++ [offnum] -> in_page p y) /\ offnum ∉ c.
Proof.
  intros [H1 H2 H3 _ _] Ha Hi Hj. assert (Hin : forall y, y ∈ c ++ [offnum] -> in_page p y) by (intros y [Hy|Hy%list_elem_of_singleton]%elem_of_app; [by apply H3|by subst]).
  assert (Hp : path E q (c ++ [offnum]) /\ head (c ++ [offnum]) = Some r /\ (start = false -> c <> [])).
  { destruct Ha as [(-> & -> & _ & ->)|(-> & us & x & -> & -> & Hp)]; [done|]. split_and!; [|done|done]. specialize (Hj eq_refl). pose proof (edge_pending E q _ _ _ Hp Hj) as He.
    destruct us as [|u us _] using rev_ind; [by split|]. rewrite lastof_snoc in He. rewrite app_comm_cons, <- app_assoc. apply path_snoc; [done|done]. }
  destruct Hp as (Hp & Hh & Hne). split_and!; try done. pose proof (path_nodup E q (rehinted_graph _ E p q H1 Hg) _ Hp) as Hnd. apply NoDup_app in Hnd as (_ & Hd & _).
  intros Hc. apply (Hd offnum Hc), list_elem_of_singleton. done.
Qed.

Lemma inv_forget q c ad : search_inv q c ad -> search_inv q c None.
Proof. by intros [H1 H2 H3 H4 H5]. Qed.

(** One member is visited. *)
Lemma visit_ok q c offnum prior start ad : search_inv q c ad -> arrives q c offnum prior start -> is_tuple p offnum ->
  (start = false -> joins q prior offnum) ->
  exists t', HeapTupleSatisfiesVisibility E buffer (blkno, offnum) (hdr q offnum) s = (t', s, seen offnum) /\
    let q' := store_infomask q (lpi q offnum) (t_infomask t') in
    hdr q' offnum = t' /\
    (seen offnum = true -> found q' (Some offnum) ((fun _ => false) <$> ad)) /\
    (seen offnum = false -> search_inv q' (c ++ [offnum]) ((fun d => d && HeapTupleIsSurelyDead vistest t') <$> ad)).
Proof.
  intros Hinv Ha Ht Hj. destruct (arrive_path q c offnum prior start (inv_forget _ _ _ Hinv) Ha (proj1 Ht) Hj) as (Hp & Hh & Hne & Hin & Hnin).
  pose proof Hinv as [H1 H2 H3 H4 H5]. assert (Hhq : hints_ok E (hdr q offnum)) by (apply H1; [done|apply Ht]).
  pose proof (mvcc_ok E buffer (hdr q offnum) s Hhq Hs) as Hv. pose proof (mvcc_grows E buffer (hdr q offnum) s) as Hgr. unfold HeapTupleSatisfiesVisibility. rewrite Hmvcc.
  destruct (HeapTupleSatisfiesMVCC E buffer (hdr q offnum) s) as [t' v]. destruct Hv as [-> Hhin]. cbn [fst] in Hgr. rewrite (seen_now q offnum H1 Ht). exists t'. split; [done|]. cbv zeta.
  destruct (store_facts E p q H1 offnum Ht t' Hgr) as (_ & Hhd & _ & _ & Hother). pose proof (rehinted_store E p q H1 offnum Ht t' Hhin Hgr) as Hre'.
  set (q' := store_infomask q (lpi q offnum) (t_infomask t')) in *. assert (Hp' : path E q' (c ++ [offnum])).
  { destruct c as [|x0 c0 _] using rev_ind; [done|]. rewrite <- app_assoc in Hp |- *. cbn [app] in *. pose proof (path_edge E q c0 x0 offnum [] Hp) as He.
    apply path_snoc.
    - apply (path_mono E q); [|done]. intros x y Hx Hxy. apply (store_edge E p q H1 offnum Ht t' Hhin Hgr); [|done]. intros Heq. by rewrite Heq in Hx.
    - apply (store_edge E p q H1 offnum Ht t' Hhin Hgr); [|done]. intros Heq. apply Hnin. rewrite <- Heq. apply elem_of_app. right. by apply list_elem_of_singleton. }
  split; [done|]. split.
  - intros Hseen. split; [done| |done|by destruct ad]. intros y [= <-]. split; [done|]. split; [done|]. exists c. split; [done|]. split; [done|]. intros z Hz Htz. by apply H4.
  - intros Hseen. split; [done|done|done| |].
    + intros y [Hy|Hy%list_elem_of_singleton]%elem_of_app Hty; [by apply H4|by rewrite Hy].
    + intros Had. destruct ad as [[]|]; cbn in Had; try done. intros y [Hy|Hy%list_elem_of_singleton]%elem_of_app Hty.
      * rewrite Hother; [by apply H5|done|]. intros Heq. by rewrite Heq in Hy.
      * rewrite Hy, Hhd. by injection Had.
Qed.

(** The member before leads nowhere. *)
Lemma stop_ok q c offnum prior start ad : search_inv q c ad -> arrives q c offnum prior start -> (start = true -> False) -> (joins q prior offnum -> False) -> found q None ad.
Proof.
  intros Hinv [(_ & _ & _ & Hst)|(_ & us & x & -> & -> & Hpend)] Hn Hj; [by apply Hn in Hst|]. eapply search_end; [done|]. intros z He.
  destruct (pending_edge E q _ _ _ z Hpend He) as [-> ?]. by apply Hj.
Qed.

Lemma hot_search_ok fuel : forall q c offnum prior start ad, search_inv q c ad -> arrives q c offnum prior start -> MaxHeapTuplesPerPage < lenZ c + Z.of_nat fuel ->
  exists q' res ad', hot_search_loop (fun _ => E) buffer vistest blkno fuel q s offnum prior start false ad = Ok (q', s, res, ad') /\ found q' res ad'.
Proof.
  induction fuel as [|fuel IH]; intros q c offnum prior start ad Hinv Ha Hfuel; cbn [hot_search_loop].
  { exfalso. pose proof (si_path _ _ _ Hinv) as Hp. pose proof (path_nodup E q (rehinted_graph _ E p q (si_hints _ _ _ Hinv) Hg) _ Hp) as Hnd. pose proof (distinct_fit p Hl c Hnd (si_pages _ _ _ Hinv)). lia. }
  pose proof (si_hints _ _ _ Hinv) as Hre. pose proof (sl_nline _ _ (rh_lines _ _ _ _ Hre)) as Hn. pose proof (sl_lines _ _ (rh_lines _ _ _ _ Hre)) as Hlq. fold (nline q). rewrite Hn.
  assert (Hstop : (start = true -> False) -> (joins q prior offnum -> False) -> exists q' res ad', Ok (q, s, None, ad) = Ok (q', s, res, ad') /\ found q' res ad').
  { intros H1 H2. exists q, None, ad. split; [done|]. by eapply stop_ok. }
  assert (Hstart : start = true -> c = [] /\ offnum = r /\ prior = InvalidTransactionId) by (destruct Ha as [(-> & -> & -> & _)|(-> & _)]; [done|done]).
  assert (Hin : forall i, in_page q i <-> in_page p i) by (intros i; unfold in_page; by rewrite Hn). assert (Htq : forall i, is_tuple q i <-> is_tuple p i) by (intros i; by apply (rehinted_tuple (fun _ => E) p q)).
  destruct (Z.ltb_spec offnum FirstOffsetNumber) as [Hlt|Hge]; [|destruct (Z.ltb_spec (nline p) offnum) as [Hgt|Hle]]; cbn [orb].
  1,2: apply Hstop; [intros (_ & -> & _)%Hstart; pose proof (root_in_page p r Hr) as Hrp|intros [[Hrp%Hin _] _]]; unfold in_page, FirstOffsetNumber in *; lia.
  assert (Hi : in_page p offnum) by (unfold in_page, FirstOffsetNumber in *; lia). rewrite (load_ok q Hlq offnum (proj2 (Hin offnum) Hi)), bind_val.
  unfold ItemIdIsNormal. destruct (Z.eqb_spec (lp_flags (lpi q offnum)) LP_NORMAL) as [Hf|Hf]; cbn [negb].
  2: { unfold ItemIdIsRedirected. destruct (Z.eqb_spec (lp_flags (lpi q offnum)) LP_REDIRECT) as [Hrd|Hrd]; destruct start; cbn [andb].
    - destruct (Hstart eq_refl) as (-> & -> & ->). apply (IH q [r]); [| |change (lenZ [r]) with 1; change (lenZ []) with 0 in Hfuel; lia].
      + destruct Hinv as [H1 H2 H3 H4 H5]. assert (Hrt : is_tuple p r -> False) by (intros [_ Hf']%Htq; by rewrite Hrd in Hf').
        split; [done|done|by intros y ->%list_elem_of_singleton|intros y ->%list_elem_of_singleton Ht; by apply Hrt in Ht|intros _ y ->%list_elem_of_singleton Ht; by apply Hrt in Ht].
      + right. split; [done|]. exists [], r. split_and!; [done|done|]. left. split; [|done]. split_and!; [by apply Hin|done|done].
    - apply Hstop; [done|]. by intros [[_ ?] _].
    - exfalso. destruct (Hstart eq_refl) as (-> & -> & ->). destruct Hr as [[t Hrr]|[Ht _]]; [|by apply Htq in Ht as [_ ?]]. apply (rehinted_redirect _ _ _ Hre) in Hrr as (_ & ? & _). done.
    - apply Hstop; [done|]. by intros [[_ ?] _]. }
  assert (Ht : is_tuple p offnum) by (apply Htq; split; [by apply Hin|done]). assert (Htq' : is_tuple q offnum) by (by apply Htq). rewrite (header_ok q Hlq offnum Htq'), bind_val.
  destruct (start && HeapTupleHeaderIsHeapOnly (hdr q offnum)) eqn:Hho.
  { exfalso. apply andb_true_iff in Hho as [Hst Hho]. destruct (Hstart Hst) as (_ & -> & _). destruct Hr as [[t Hrr]|[_ Hnh]]; [by eapply tuple_not_redirect|]. apply Hnh. by apply (rehinted_heap_only (fun _ => E) p q Hre r Ht). }
  unfold TransactionIdEquals. destruct (TransactionIdIsValid prior && negb (prior =? HeapTupleHeaderGetXmin (hdr q offnum))) eqn:Hbr.
  { apply andb_true_iff in Hbr as [Hv Hx]. apply Hstop; [intros (_ & _ & ->)%Hstart; done|]. intros [_ Hj]. rewrite (Hj Hv), Z.eqb_refl in Hx. done. }
  assert (Hj : start = false -> joins q prior offnum).
  { intros _. split; [done|]. intros Hv. rewrite Hv in Hbr. cbn in Hbr. apply negb_false_iff, Z.eqb_eq in Hbr. done. }
  destruct (visit_ok q c offnum prior start ad Hinv Ha Ht Hj) as (t' & -> & Hhd & Hyes & Hno). cbv beta iota. set (q' := store_infomask q (lpi q offnum) (t_infomask t')) in *.
  destruct (seen offnum) eqn:Hseen; [eexists q', _, _; split; [done|by apply Hyes]|]. specialize (Hno eq_refl).
  assert (Hc : exists us, c ++ [offnum] = r :: us /\ lastof r us = offnum).
  { destruct (arrive_path q c offnum prior start (inv_forget _ _ _ Hinv) Ha Hi Hj) as (_ & Hhead & _). destruct c as [|x0 c]; cbn in Hhead; simplify_eq; [by exists []|]. exists (c ++ [offnum]). split; [done|apply lastof_snoc]. }
  destruct Hc as (us & Hc & Hlast). destruct (HeapTupleHeaderIsHotUpdated t') eqn:Hhot.
  - apply (IH q' (c ++ [offnum])); [done| |unfold lenZ in *; rewrite length_app; cbn [length]; lia]. right. split; [done|]. exists us, offnum. split_and!; [done|done|]. right.
    unfold hot, update_xid. rewrite Hhd. split_and!; try done. by apply (rehinted_tuple (fun _ => E) p q' (si_hints _ _ _ Hno)).
  - eexists q', _, _. split; [done|]. rewrite Hc in Hno. eapply search_end; [exact Hno|]. rewrite Hlast. intros z [[Hrr _]|(_ & Hh & _)].
    + apply (rehinted_redirect _ _ _ (si_hints _ _ _ Hno)) in Hrr. exact (tuple_not_redirect p _ _ Ht Hrr).
    + unfold hot in Hh. rewrite Hhd in Hh. congruence.
Qed.
End Search.

(** C16. An index scan finds the right version.  For an MVCC snapshot and a root [r] of a heap
    page with sound chains and hint bits, [heap_hot_search_buffer] ends, stays within the
    page and changes only hint bits.  If it finds [y], then [y] is a tuple that the
    snapshot sees, at the end of a chain from [r] of which the snapshot sees no tuple
    before [y].  If it finds nothing, the snapshot sees no tuple that is reached from [r].
    If it reports [all_dead], it has found nothing and every such tuple is surely dead. *)
Theorem hot_search E buffer vistest blkno p s r all_dead : heap_lines p -> hot_graph E p -> (forall i, is_tuple p i -> hints_ok E (hdr p i)) ->
  snap_ok E s -> snapshot_type s = SNAPSHOT_MVCC -> is_root p r ->
  exists q res ad, heap_hot_search_buffer (fun _ => E) buffer vistest blkno p r s all_dead true = Ok (q, s, res, ad) /\ found E vistest p s r q res ad.
Proof.
  intros Hl Hg Hh Hs Hm Hr. unfold heap_hot_search_buffer. apply (hot_search_ok E buffer vistest blkno p s Hl Hg Hs Hm r Hr _ p []).
  - split; [by apply rehint_refl|done|intros y Hy; by apply not_elem_of_nil in Hy|intros y Hy; by apply not_elem_of_nil in Hy|intros _ y Hy; by apply not_elem_of_nil in Hy].
  - by left.
  - change (lenZ []) with 0. lia.
Qed.

Lemma hot_search_witness : exists q res ad,
  heap_hot_search_buffer (fun _ => demo_env) demo_buffer (fun _ => false) 7 demo_heap_page 1 demo_snap true true = Ok (q, demo_snap, res, ad) /\
  (res = None -> forall y, is_tuple demo_heap_page y -> rtc (edge demo_env q) 1 y -> seen demo_env demo_heap_page demo_snap y = false).
Proof.
  destruct (hot_search demo_env demo_buffer (fun _ => false) 7 demo_heap_page demo_snap 1 true demo_heap_lines demo_heap_graph) as (q & res & ad & H1 & [_ _ H2 _]).
  - intros i Hi. exact (proj2 (pp_tuples _ _ _ _ demo_prunable i Hi)).
  - apply demo_snap_ok; [set_solver|reflexivity..].
  - reflexivity.
  - right. split; [split; [vm_compute; split; discriminate|vm_compute; reflexivity]|]. intros H. vm_compute in H. discriminate H.
  - exists q, res, ad. exact (conj H1 H2).
Defined.

(** The snapshot, for which 12 still runs, sees the second version. *)
Example hot_search_second : match heap_hot_search_buffer (fun _ => demo_env) demo_buffer (fun _ => false) 7 demo_heap_page 1 demo_snap true true with
  | Ok (_, _, res, ad) => res = Some 2 /\ ad = Some false
  | _ => False
  end.
Proof. vm_compute. split; reflexivity. Qed.
