(* ===== verification/Bits.v ===== *)
(** Bit manipulation primitives: src/pg-src/src/include/port/pg_bitutils.h and
    src/pg-src/src/port/pg_bitutils.c.

    The portable (table-driven) branches are modelled, with the three 256-entry
    tables written out as in the source.  The compiler built-ins the other
    branches use are the mathematical functions [Z.log2], [ctz] and [popcnt]
    below, and the theorems prove that the portable branches compute them. *)

From S2P Require Import Prelude.

(** ** The mathematical functions *)

(** Number of bits set among the lowest [n] bits of [w]. *)
Definition popcnt (n w : Z) : Z :=
  Z.of_nat (length (filter (fun i => Z.testbit w i = true) (seqZ 0 n))).

Fixpoint pos_ctz (p : positive) : Z :=
  match p with
  | xO q => 1 + pos_ctz q
  | _ => 0
  end.
(** Number of trailing zero bits of a positive word. *)
Definition ctz (w : Z) : Z := match w with Zpos p => pos_ctz p | _ => 0 end.

(** ** Tables *)

Definition pg_leftmost_one_pos : list Z :=
  [0; 0; 1; 1; 2; 2; 2; 2; 3; 3; 3; 3; 3; 3; 3; 3;
   4; 4; 4; 4; 4; 4; 4; 4; 4; 4; 4; 4; 4; 4; 4; 4;
   5; 5; 5; 5; 5; 5; 5; 5; 5; 5; 5; 5; 5; 5; 5; 5;
   5; 5; 5; 5; 5; 5; 5; 5; 5; 5; 5; 5; 5; 5; 5; 5;
   6; 6; 6; 6; 6; 6; 6; 6; 6; 6; 6; 6; 6; 6; 6; 6;
   6; 6; 6; 6; 6; 6; 6; 6; 6; 6; 6; 6; 6; 6; 6; 6;
   6; 6; 6; 6; 6; 6; 6; 6; 6; 6; 6; 6; 6; 6; 6; 6;
   6; 6; 6; 6; 6; 6; 6; 6; 6; 6; 6; 6; 6; 6; 6; 6;
   7; 7; 7; 7; 7; 7; 7; 7; 7; 7; 7; 7; 7; 7; 7; 7;
   7; 7; 7; 7; 7; 7; 7; 7; 7; 7; 7; 7; 7; 7; 7; 7;
   7; 7; 7; 7; 7; 7; 7; 7; 7; 7; 7; 7; 7; 7; 7; 7;
   7; 7; 7; 7; 7; 7; 7; 7; 7; 7; 7; 7; 7; 7; 7; 7;
   7; 7; 7; 7; 7; 7; 7; 7; 7; 7; 7; 7; 7; 7; 7; 7;
   7; 7; 7; 7; 7; 7; 7; 7; 7; 7; 7; 7; 7; 7; 7; 7;
   7; 7; 7; 7; 7; 7; 7; 7; 7; 7; 7; 7; 7; 7; 7; 7;
   7; 7; 7; 7; 7; 7; 7; 7; 7; 7; 7; 7; 7; 7; 7; 7].

Definition pg_rightmost_one_pos : list Z :=
  [0; 0; 1; 0; 2; 0; 1; 0; 3; 0; 1; 0; 2; 0; 1; 0;
   4; 0; 1; 0; 2; 0; 1; 0; 3; 0; 1; 0; 2; 0; 1; 0;
   5; 0; 1; 0; 2; 0; 1; 0; 3; 0; 1; 0; 2; 0; 1; 0;
   4; 0; 1; 0; 2; 0; 1; 0; 3; 0; 1; 0; 2; 0; 1; 0;
   6; 0; 1; 0; 2; 0; 1; 0; 3; 0; 1; 0; 2; 0; 1; 0;
   4; 0; 1; 0; 2; 0; 1; 0; 3; 0; 1; 0; 2; 0; 1; 0;
   5; 0; 1; 0; 2; 0; 1; 0; 3; 0; 1; 0; 2; 0; 1; 0;
   4; 0; 1; 0; 2; 0; 1; 0; 3; 0; 1; 0; 2; 0; 1; 0;
   7; 0; 1; 0; 2; 0; 1; 0; 3; 0; 1; 0; 2; 0; 1; 0;
   4; 0; 1; 0; 2; 0; 1; 0; 3; 0; 1; 0; 2; 0; 1; 0;
   5; 0; 1; 0; 2; 0; 1; 0; 3; 0; 1; 0; 2; 0; 1; 0;
   4; 0; 1; 0; 2; 0; 1; 0; 3; 0; 1; 0; 2; 0; 1; 0;
   6; 0; 1; 0; 2; 0; 1; 0; 3; 0; 1; 0; 2; 0; 1; 0;
   4; 0; 1; 0; 2; 0; 1; 0; 3; 0; 1; 0; 2; 0; 1; 0;
   5; 0; 1; 0; 2; 0; 1; 0; 3; 0; 1; 0; 2; 0; 1; 0;
   4; 0; 1; 0; 2; 0; 1; 0; 3; 0; 1; 0; 2; 0; 1; 0].

Definition pg_number_of_ones : list Z :=
  [0; 1; 1; 2; 1; 2; 2; 3; 1; 2; 2; 3; 2; 3; 3; 4;
   1; 2; 2; 3; 2; 3; 3; 4; 2; 3; 3; 4; 3; 4; 4; 5;
   1; 2; 2; 3; 2; 3; 3; 4; 2; 3; 3; 4; 3; 4; 4; 5;
   2; 3; 3; 4; 3; 4; 4; 5; 3; 4; 4; 5; 4; 5; 5; 6;
   1; 2; 2; 3; 2; 3; 3; 4; 2; 3; 3; 4; 3; 4; 4; 5;
   2; 3; 3; 4; 3; 4; 4; 5; 3; 4; 4; 5; 4; 5; 5; 6;
   2; 3; 3; 4; 3; 4; 4; 5; 3; 4; 4; 5; 4; 5; 5; 6;
   3; 4; 4; 5; 4; 5; 5; 6; 4; 5; 5; 6; 5; 6; 6; 7;
   1; 2; 2; 3; 2; 3; 3; 4; 2; 3; 3; 4; 3; 4; 4; 5;
   2; 3; 3; 4; 3; 4; 4; 5; 3; 4; 4; 5; 4; 5; 5; 6;
   2; 3; 3; 4; 3; 4; 4; 5; 3; 4; 4; 5; 4; 5; 5; 6;
   3; 4; 4; 5; 4; 5; 5; 6; 4; 5; 5; 6; 5; 6; 6; 7;
   2; 3; 3; 4; 3; 4; 4; 5; 3; 4; 4; 5; 4; 5; 5; 6;
   3; 4; 4; 5; 4; 5; 5; 6; 4; 5; 5; 6; 5; 6; 6; 7;
   3; 4; 4; 5; 4; 5; 5; 6; 4; 5; 5; 6; 5; 6; 6; 7;
   4; 5; 5; 6; 5; 6; 6; 7; 5; 6; 6; 7; 6; 7; 7; 8].

(** ** Portable branches of the inline functions *)

(** [while ((word >> shift) == 0) shift -= 8;] *)
Fixpoint leftmost_loop (fuel : nat) (word shift : Z) : Z :=
  match fuel with
  | O => shift
  | S f => if Z.shiftr word shift =? 0 then leftmost_loop f word (shift - 8) else shift
  end.

Definition pg_leftmost_one_pos32 (word : Z) : Z :=
  let shift := leftmost_loop 4 word (32 - 8) in
  shift + nthZ pg_leftmost_one_pos (Z.land (Z.shiftr word shift) 255).

Definition pg_leftmost_one_pos64 (word : Z) : Z :=
  let shift := leftmost_loop 8 word (64 - 8) in
  shift + nthZ pg_leftmost_one_pos (Z.land (Z.shiftr word shift) 255).

(** [while ((word & 255) == 0) { word >>= 8; result += 8; }] *)
Fixpoint rightmost_loop (fuel : nat) (word result : Z) : Z * Z :=
  match fuel with
  | O => (word, result)
  | S f => if Z.land word 255 =? 0 then rightmost_loop f (Z.shiftr word 8) (result + 8)
           else (word, result)
  end.

Definition pg_rightmost_one_pos32 (word : Z) : Z :=
  let '(w, result) := rightmost_loop 4 word 0 in
  result + nthZ pg_rightmost_one_pos (Z.land w 255).

Definition pg_rightmost_one_pos64 (word : Z) : Z :=
  let '(w, result) := rightmost_loop 8 word 0 in
  result + nthZ pg_rightmost_one_pos (Z.land w 255).

Definition pg_nextpower2_32 (num : Z) : Z :=
  if Z.land num (u32 (num - 1)) =? 0 then num
  else shlu 32 1 (pg_leftmost_one_pos32 num + 1).

Definition pg_nextpower2_64 (num : Z) : Z :=
  if Z.land num (u64 (num - 1)) =? 0 then num
  else shlu 64 1 (pg_leftmost_one_pos64 num + 1).

Definition pg_prevpower2_32 (num : Z) : Z := shlu 32 1 (pg_leftmost_one_pos32 num).

Definition pg_prevpower2_64 (num : Z) : Z := shlu 64 1 (pg_leftmost_one_pos64 num).

Definition pg_ceil_log2_32 (num : Z) : Z :=
  if num <? 2 then 0 else pg_leftmost_one_pos32 (num - 1) + 1.

Definition pg_ceil_log2_64 (num : Z) : Z :=
  if num <? 2 then 0 else pg_leftmost_one_pos64 (num - 1) + 1.

(** [while (word != 0) { result += pg_number_of_ones[word & 255]; word >>= 8; }] *)
Fixpoint popcount_loop (fuel : nat) (word result : Z) : Z :=
  match fuel with
  | O => result
  | S f => if word =? 0 then result
           else popcount_loop f (Z.shiftr word 8) (result + nthZ pg_number_of_ones (Z.land word 255))
  end.

Definition pg_popcount32_slow (word : Z) : Z := popcount_loop 4 word 0.
Definition pg_popcount64_slow (word : Z) : Z := popcount_loop 8 word 0.
Definition pg_popcount32 (word : Z) : Z := pg_popcount32_slow word.
Definition pg_popcount64 (word : Z) : Z := pg_popcount64_slow word.

(** A 64-bit load of eight bytes on a little-endian machine. *)
Definition le64 (b0 b1 b2 b3 b4 b5 b6 b7 : Z) : Z :=
  little_endian_to_Z 8 [b0; b1; b2; b3; b4; b5; b6; b7].

(** The 64-bit chunks of [pg_popcount]: consumes eight bytes at a time. *)
Fixpoint popcount_words (buf : list Z) (popcnt : Z) : Z * list Z :=
  match buf with
  | b0 :: b1 :: b2 :: b3 :: b4 :: b5 :: b6 :: b7 :: rest =>
      popcount_words rest (u64 (popcnt + pg_popcount64 (le64 b0 b1 b2 b3 b4 b5 b6 b7)))
  | _ => (popcnt, buf)
  end.

Fixpoint popcount_bytes (buf : list Z) (popcnt : Z) : Z :=
  match buf with
  | [] => popcnt
  | b :: rest => popcount_bytes rest (u64 (popcnt + nthZ pg_number_of_ones b))
  end.

(** [pg_popcount(buf, bytes)]; [aligned] is the outcome of the TYPEALIGN(8, buf) test. *)
Definition pg_popcount (aligned : bool) (buf : list Z) : Z :=
  let '(n, rest) := if aligned then popcount_words buf 0 else (0, buf) in
  popcount_bytes rest n.

Definition pg_rotate_right32 (word n : Z) : Z := Z.lor (Z.shiftr word n) (shlu 32 word (32 - n)).
Definition pg_rotate_left32 (word n : Z) : Z := Z.lor (shlu 32 word n) (Z.shiftr word (32 - n)).

(** ** Lemmas on the mathematical functions *)

Lemma seqZ_shift m n k : seqZ (m + k) n = (Z.add k) <$> seqZ m n.
Proof. rewrite fmap_add_seqZ. f_equal. lia. Qed.

Lemma filter_fmap_length {A B} (f : A -> B) (P : B -> Prop) `{!forall x, Decision (P x)} l :
  length (filter P (f <$> l)) = length (filter (fun x => P (f x)) l).
Proof.
  induction l as [|a l IH]; [done|]. rewrite fmap_cons, !filter_cons.
  destruct (decide (P (f a))); cbn [length]; by rewrite IH.
Qed.

Lemma filter_ext_in {A} (P Q : A -> Prop) `{!forall x, Decision (P x), !forall x, Decision (Q x)} (l : list A) :
  (forall x, x ∈ l -> P x <-> Q x) -> filter P l = filter Q l.
Proof.
  induction l as [|a l IH]; intros HPQ; [done|]. rewrite !filter_cons.
  assert (P a <-> Q a) by (apply HPQ, list_elem_of_here).
  rewrite IH by (intros; apply HPQ; by apply list_elem_of_further).
  destruct (decide (P a)), (decide (Q a)); tauto.
Qed.

Lemma popcnt_ext n v w :
  (forall i, 0 <= i < n -> Z.testbit v i = Z.testbit w i) -> popcnt n v = popcnt n w.
Proof.
  intros H. unfold popcnt. do 2 f_equal. apply filter_ext_in.
  intros x Hx%elem_of_seqZ. by rewrite H by lia.
Qed.

Lemma popcnt_split n m w : 0 <= n -> 0 <= m ->
  popcnt (n + m) w = popcnt n w + popcnt m (Z.shiftr w n).
Proof.
  intros. unfold popcnt. rewrite seqZ_app, filter_app, length_app by lia.
  rewrite Nat2Z.inj_add. do 2 f_equal. rewrite (seqZ_shift 0 m n), filter_fmap_length.
  f_equal. apply filter_ext_in. intros x Hx%elem_of_seqZ.
  rewrite Z.shiftr_spec by lia. by rewrite Z.add_comm.
Qed.

Lemma popcnt_0 n : popcnt n 0 = 0.
Proof.
  unfold popcnt. induction (seqZ 0 n) as [|a l IH]; [done|].
  rewrite filter_cons_False; [done|]. by rewrite Z.bits_0.
Qed.

Lemma popcnt_range n w : 0 <= n -> 0 <= popcnt n w <= n.
Proof.
  intros. unfold popcnt. pose proof (length_filter (fun i => Z.testbit w i = true) (seqZ 0 n)).
  rewrite length_seqZ in *. lia.
Qed.

Lemma popcnt_land_ones n w : 0 <= n -> popcnt n (Z.land w (Z.ones n)) = popcnt n w.
Proof.
  intros. apply popcnt_ext. intros i Hi.
  rewrite Z.land_spec, Z.ones_spec by lia. rewrite bool_decide_true by lia. apply andb_true_r.
Qed.

Lemma ctz_nonneg w : 0 <= ctz w.
Proof. destruct w as [|p|p]; simpl; try lia. induction p; simpl; lia. Qed.

Lemma ctz_spec w : 0 < w ->
  Z.testbit w (ctz w) = true /\ forall i, i < ctz w -> Z.testbit w i = false.
Proof.
  destruct w as [|p|p]; try lia. intros _. simpl.
  induction p as [p IH|p IH|]; simpl pos_ctz.
  - split; [done|]. intros. by rewrite Z.testbit_neg_r by lia.
  - destruct IH as [IH1 IH2]. rewrite (Pos2Z.inj_xO p).
    assert (0 <= pos_ctz p) by apply (ctz_nonneg (Zpos p)).
    split.
    + replace (1 + pos_ctz p) with (Z.succ (pos_ctz p)) by lia.
      by rewrite Z.testbit_even_succ by lia.
    + intros i Hi. destruct (decide (i < 0)); [by apply Z.testbit_neg_r|].
      destruct (decide (i = 0)) as [->|]; [by rewrite Z.testbit_even_0|].
      replace i with (Z.succ (i - 1)) by lia. rewrite Z.testbit_even_succ by lia. apply IH2. lia.
  - split; [done|]. intros. by rewrite Z.testbit_neg_r by lia.
Qed.

Lemma ctz_unique w c : 0 < w ->
  Z.testbit w c = true -> (forall i, i < c -> Z.testbit w i = false) -> ctz w = c.
Proof.
  intros Hw H1 H2. destruct (ctz_spec w Hw) as [H3 H4].
  destruct (Z.lt_trichotomy (ctz w) c) as [H|[H|H]]; [|done|].
  - by rewrite H2 in H3.
  - by rewrite H4 in H1.
Qed.

Lemma ctz_lt n w : 0 <= n -> 0 < w < 2 ^ n -> ctz w < n.
Proof.
  intros Hn Hw. destruct (ctz_spec w) as [H1 _]; [lia|]. apply Z.nle_gt. intros ?.
  rewrite (is_u_testbit n w) in H1; [done|unfold is_u; lia|lia].
Qed.

(** ** The tables *)

Lemma table_ext (t : list Z) (f : Z -> Z) :
  length t = 256%nat ->
  forallb (fun n => nthZ t n =? f n) (seqZ 0 256) = true ->
  forall n, 0 <= n < 256 -> nthZ t n = f n.
Proof.
  intros _ H n Hn. rewrite forallb_forall in H. apply Z.eqb_eq, H.
  apply list_elem_of_In, elem_of_seqZ. lia.
Qed.

Lemma leftmost_table n : 0 <= n < 256 -> nthZ pg_leftmost_one_pos n = Z.log2 n.
Proof. apply (table_ext pg_leftmost_one_pos Z.log2); vm_compute; reflexivity. Qed.

Lemma rightmost_table n : 0 <= n < 256 -> nthZ pg_rightmost_one_pos n = ctz n.
Proof. apply (table_ext pg_rightmost_one_pos ctz); vm_compute; reflexivity. Qed.

Lemma ones_table n : 0 <= n < 256 -> nthZ pg_number_of_ones n = popcnt 8 n.
Proof. apply (table_ext pg_number_of_ones (popcnt 8)); vm_compute; reflexivity. Qed.

Lemma land_255_range w : 0 <= w -> 0 <= Z.land w 255 < 256.
Proof.
  intros. change 255 with (Z.ones 8). rewrite Z.land_ones by lia. apply Z.mod_pos_bound. lia.
Qed.

(** ** The portable branches compute the mathematical functions *)

Lemma leftmost_loop_spec (k : nat) w :
  0 < w < 2 ^ (8 * Z.of_nat k + 8) ->
  let s := leftmost_loop (S k) w (8 * Z.of_nat k) in
  0 <= s /\ Z.shiftr w s <> 0 /\ w < 2 ^ (s + 8).
Proof.
  revert w. induction k as [|k IH]; intros w Hw.
  - change (8 * Z.of_nat 0) with 0 in *. cbn [leftmost_loop]. rewrite Z.shiftr_0_r.
    destruct (Z.eqb_spec w 0); [lia|]. rewrite Z.shiftr_0_r. lia.
  - cbn [leftmost_loop]. destruct (Z.eqb_spec (Z.shiftr w (8 * Z.of_nat (S k))) 0) as [E|E].
    + replace (8 * Z.of_nat (S k) - 8) with (8 * Z.of_nat k) by lia. apply IH.
      split; [lia|]. rewrite Z.shiftr_div_pow2 in E by lia.
      apply Z.div_small_iff in E; [|lia].
      replace (8 * Z.of_nat k + 8) with (8 * Z.of_nat (S k)) by lia. lia.
    + split; [lia|]. done || (split; [done|lia]).
Qed.

Lemma leftmost_correct (k : nat) w :
  0 < w < 2 ^ (8 * Z.of_nat k + 8) ->
  let s := leftmost_loop (S k) w (8 * Z.of_nat k) in
  s + nthZ pg_leftmost_one_pos (Z.land (Z.shiftr w s) 255) = Z.log2 w.
Proof.
  intros Hw s. destruct (leftmost_loop_spec k w Hw) as (H1 & H2 & H3). fold s in H1, H2, H3.
  assert (0 <= Z.shiftr w s) by (apply Z.shiftr_nonneg; lia).
  assert (Z.shiftr w s < 256).
  { rewrite Z.shiftr_div_pow2 by lia. apply Z.div_lt_upper_bound; [lia|].
    rewrite Z.pow_add_r in H3 by lia. lia. }
  change 255 with (Z.ones 8). rewrite Z.land_ones, Z.mod_small by lia.
  rewrite leftmost_table, Z.log2_shiftr by lia.
  assert (0 < Z.shiftr w s) by lia. rewrite Z.shiftr_div_pow2 in * by lia.
  assert (2 ^ s <= w).
  { apply Z.nlt_ge. intros ?. assert (w / 2 ^ s = 0) by (apply Z.div_small; lia). lia. }
  pose proof (Z.log2_le_pow2 w s). lia.
Qed.

Lemma ctz_shift8 w : 0 < w -> Z.land w 255 = 0 -> 0 < Z.shiftr w 8 /\ ctz w = 8 + ctz (Z.shiftr w 8).
Proof.
  intros Hw H. assert (forall i, i < 8 -> Z.testbit w i = false) as Hlow.
  { intros i Hi. destruct (decide (i < 0)); [by apply Z.testbit_neg_r|].
    assert (Z.testbit (Z.land w 255) i = false) as E by (by rewrite H, Z.bits_0).
    change 255 with (Z.ones 8) in E. rewrite Z.land_spec, Z.ones_spec in E by lia.
    rewrite bool_decide_true in E by lia. by rewrite andb_true_r in E. }
  destruct (ctz_spec w Hw) as [H1 H2].
  assert (8 <= ctz w). { apply Z.nlt_ge. intros ?. by rewrite Hlow in H1. }
  assert (0 < Z.shiftr w 8).
  { assert (0 <= Z.shiftr w 8) by (apply Z.shiftr_nonneg; lia).
    destruct (decide (Z.shiftr w 8 = 0)) as [E|]; [|lia]. exfalso.
    assert (Z.testbit (Z.shiftr w 8) (ctz w - 8) = true).
    { rewrite Z.shiftr_spec by lia. by replace (ctz w - 8 + 8) with (ctz w) by lia. }
    by rewrite E, Z.bits_0 in *. }
  split; [done|]. apply ctz_unique; [done| |].
  - destruct (ctz_spec (Z.shiftr w 8)) as [Hc _]; [done|].
    rewrite Z.shiftr_spec in Hc by apply ctz_nonneg. by rewrite Z.add_comm.
  - intros i Hi. destruct (decide (i < 8)); [by apply Hlow|].
    destruct (ctz_spec (Z.shiftr w 8)) as [_ Hc]; [done|].
    specialize (Hc (i - 8)). rewrite Z.shiftr_spec in Hc by lia.
    replace (i - 8 + 8) with i in Hc by lia. apply Hc. lia.
Qed.

Lemma ctz_land_255 w : 0 < w -> Z.land w 255 <> 0 -> ctz (Z.land w 255) = ctz w.
Proof.
  intros Hw H. assert (0 < Z.land w 255) by (pose proof (land_255_range w); lia).
  assert (ctz (Z.land w 255) < 8) by (apply ctz_lt; pose proof (land_255_range w); lia).
  destruct (ctz_spec (Z.land w 255)) as [Hc1 Hc2]; [done|]. symmetry. apply ctz_unique; [done| |].
  - rewrite Z.land_spec in Hc1. by apply andb_prop in Hc1 as [? _].
  - intros i Hi. destruct (decide (i < 0)); [by apply Z.testbit_neg_r|].
    specialize (Hc2 i Hi). change 255 with (Z.ones 8) in Hc2.
    rewrite Z.land_spec, Z.ones_spec in Hc2 by lia.
    rewrite bool_decide_true in Hc2 by lia. by rewrite andb_true_r in Hc2.
Qed.

Lemma rightmost_loop_spec (k : nat) w r :
  0 < w < 2 ^ (8 * Z.of_nat k) ->
  let '(w', r') := rightmost_loop k w r in
  0 < w' /\ Z.land w' 255 <> 0 /\ r' + ctz w' = r + ctz w.
Proof.
  revert w r. induction k as [|k IH]; intros w r Hw; [simpl in *; lia|].
  cbn [rightmost_loop]. destruct (Z.eqb_spec (Z.land w 255) 0); [|lia].
  destruct (ctz_shift8 w) as [H1 H2]; [lia|done|].
  specialize (IH (Z.shiftr w 8) (r + 8)).
  destruct (rightmost_loop k (Z.shiftr w 8) (r + 8)) as [w' r'].
  destruct IH as (?&?&?); [|split; [done|split; [done|lia]]].
  split; [done|]. rewrite Z.shiftr_div_pow2 by lia. apply Z.div_lt_upper_bound; [lia|].
  rewrite <- Z.pow_add_r by lia. replace (8 + 8 * Z.of_nat k) with (8 * Z.of_nat (S k)) by lia. lia.
Qed.

Lemma rightmost_correct (k : nat) w :
  0 < w < 2 ^ (8 * Z.of_nat k) ->
  (let '(w', r) := rightmost_loop k w 0 in r + nthZ pg_rightmost_one_pos (Z.land w' 255)) = ctz w.
Proof.
  intros Hw. pose proof (rightmost_loop_spec k w 0 Hw) as H.
  destruct (rightmost_loop k w 0) as [w' r]. destruct H as (H1 & H2 & H3).
  rewrite rightmost_table by (apply land_255_range; lia). rewrite ctz_land_255 by done. lia.
Qed.

Lemma popcount_loop_spec (k : nat) w r :
  0 <= w < 2 ^ (8 * Z.of_nat k) -> popcount_loop k w r = r + popcnt (8 * Z.of_nat k) w.
Proof.
  revert w r. induction k as [|k IH]; intros w r Hw.
  - simpl in *. unfold popcnt. simpl. lia.
  - cbn [popcount_loop]. destruct (Z.eqb_spec w 0); [subst; rewrite popcnt_0; lia|].
    rewrite IH.
    + rewrite ones_table by (apply land_255_range; lia).
      replace (8 * Z.of_nat (S k)) with (8 + 8 * Z.of_nat k) by lia.
      rewrite popcnt_split by lia. change 255 with (Z.ones 8). rewrite popcnt_land_ones by lia. lia.
    + split; [apply Z.shiftr_nonneg; lia|]. rewrite Z.shiftr_div_pow2 by lia.
      apply Z.div_lt_upper_bound; [lia|]. rewrite <- Z.pow_add_r by lia.
      replace (8 + 8 * Z.of_nat k) with (8 * Z.of_nat (S k)) by lia. lia.
Qed.

Lemma leftmost64_log2 w : 0 < w < 2 ^ 64 -> pg_leftmost_one_pos64 w = Z.log2 w.
Proof. apply (leftmost_correct 7). Qed.
Lemma leftmost32_log2 w : 0 < w < 2 ^ 32 -> pg_leftmost_one_pos32 w = Z.log2 w.
Proof. apply (leftmost_correct 3). Qed.
Lemma rightmost64_ctz w : 0 < w < 2 ^ 64 -> pg_rightmost_one_pos64 w = ctz w.
Proof. apply (rightmost_correct 8). Qed.
Lemma rightmost32_ctz w : 0 < w < 2 ^ 32 -> pg_rightmost_one_pos32 w = ctz w.
Proof. apply (rightmost_correct 4). Qed.
Lemma popcount64_popcnt w : 0 <= w < 2 ^ 64 -> pg_popcount64 w = popcnt 64 w.
Proof. intros. apply (popcount_loop_spec 8). done. Qed.
Lemma popcount32_popcnt w : 0 <= w < 2 ^ 32 -> pg_popcount32 w = popcnt 32 w.
Proof. intros. apply (popcount_loop_spec 4). done. Qed.

Lemma land_pred_pow2 n : 0 < n -> Z.land n (n - 1) = 0 -> n = 2 ^ Z.log2 n.
Proof.
  intros Hn H. apply Z.bits_inj'. intros i Hi.
  pose proof (Z.log2_nonneg n). rewrite Z.pow2_bits_eqb by done.
  destruct (Z.eqb_spec (Z.log2 n) i) as [<-|Hne]; [by apply Z.bit_log2|].
  destruct (Z.lt_trichotomy i (Z.log2 n)) as [Hlt|[?|Hgt]]; [|lia|by apply Z.bits_above_log2; lia].
  destruct (Z.testbit n i) eqn:E; [|done]. exfalso.
  (* a lower bit set makes [n - 1] keep the leading bit *)
  assert (2 ^ Z.log2 n < n).
  { pose proof (Z.log2_spec n Hn). destruct (decide (n = 2 ^ Z.log2 n)) as [E2|]; [|lia].
    rewrite E2, Z.pow2_bits_eqb in E by done. apply Z.eqb_eq in E. lia. }
  assert (Z.log2 (n - 1) = Z.log2 n) as El.
  { apply Z.log2_unique; [done|]. pose proof (Z.log2_spec n Hn). lia. }
  assert (Z.testbit (Z.land n (n - 1)) (Z.log2 n) = true) as Hb.
  { rewrite Z.land_spec, Z.bit_log2 by done. rewrite <- El. apply Z.bit_log2.
    assert (0 < 2 ^ Z.log2 n) by lia. lia. }
  by rewrite H, Z.bits_0 in Hb.
Qed.

Lemma pow2_land_pred k : 0 <= k -> Z.land (2 ^ k) (2 ^ k - 1) = 0.
Proof.
  intros. apply Z.bits_inj'. intros i Hi.
  replace (2 ^ k - 1) with (Z.ones k) by (rewrite Z.ones_equiv; lia).
  rewrite Z.land_spec, Z.ones_spec, Z.pow2_bits_eqb, Z.bits_0 by lia.
  destruct (Z.eqb_spec k i); case_bool_decide; try done; lia.
Qed.

(** The shape of [pg_nextpower2_32] and [pg_nextpower2_64]: the result is the
    least power of two that is at least [num]. *)
Lemma nextpower2_generic w num (lm : Z -> Z) :
  0 < w -> 0 < num <= 2 ^ (w - 1) -> lm num = Z.log2 num ->
  (if Z.land num (wrapu w (num - 1)) =? 0 then num else shlu w 1 (lm num + 1)) = 2 ^ Z.log2_up num.
Proof.
  intros Hw Hn Hlm.
  assert (2 ^ w = 2 * 2 ^ (w - 1)) by (rewrite <- Z.pow_succ_r by lia; f_equal; lia).
  rewrite wrapu_small by (unfold is_u; lia).
  destruct (Z.eqb_spec (Z.land num (num - 1)) 0) as [E|E].
  - apply land_pred_pow2 in E; [|lia]. rewrite E at 2.
    rewrite Z.log2_up_pow2 by apply Z.log2_nonneg. done.
  - assert (num <> 2 ^ Z.log2 num).
    { intros E2. apply E. rewrite E2.
      apply pow2_land_pred, Z.log2_nonneg. }
    pose proof (Z.log2_spec num). pose proof (Z.log2_nonneg num).
    assert (Z.log2_up num = Z.log2 num + 1) as ->.
    { destruct (decide (num = 1)) as [->|]; [done|].
      apply Z.log2_up_unique; [lia|]. split; [|lia].
      replace (Z.pred (Z.log2 num + 1)) with (Z.log2 num) by lia. lia. }
    rewrite Hlm. unfold shlu. rewrite Z.shiftl_1_l. apply wrapu_small. split; [lia|].
    apply Z.pow_lt_mono_r; [lia|lia|].
    assert (2 ^ Z.log2 num < 2 ^ (w - 1)) as Hlt by lia.
    apply Z.pow_lt_mono_r_iff in Hlt; lia.
Qed.

Lemma prevpower2_generic w num (lm : Z -> Z) :
  0 < w -> is_u w num -> 0 < num -> lm num = Z.log2 num ->
  shlu w 1 (lm num) = 2 ^ Z.log2 num.
Proof.
  intros Hw [_ Hn] Hp ->. unfold shlu. rewrite Z.shiftl_1_l. apply wrapu_small.
  pose proof (Z.log2_spec num). unfold is_u. lia.
Qed.

Lemma ceil_log2_generic num (lm : Z -> Z) :
  0 <= num -> (2 <= num -> lm (num - 1) = Z.log2 (num - 1)) ->
  (if num <? 2 then 0 else lm (num - 1) + 1) = Z.log2_up num.
Proof.
  intros Hn H. destruct (Z.ltb_spec num 2).
  - assert (num = 0 \/ num = 1) as [-> | ->] by lia; done.
  - rewrite H by lia. rewrite Z.log2_up_eqn by lia.
    replace (Z.pred num) with (num - 1) by lia. lia.
Qed.

Lemma little_endian_cons_shiftr n b bs : 0 <= n -> is_u n b ->
  Z.shiftr (little_endian_to_Z n (b :: bs)) n = little_endian_to_Z n bs.
Proof.
  intros Hn Hb. simpl. apply Z.bits_inj'. intros i Hi. autorewrite with wordbits.
  rewrite (is_u_testbit n b) by (done || lia). simpl. f_equal. lia.
Qed.

Lemma little_endian_cons_low n b bs i : 0 <= i < n ->
  Z.testbit (little_endian_to_Z n (b :: bs)) i = Z.testbit b i.
Proof.
  intros. simpl. autorewrite with wordbits. rewrite (Z.testbit_neg_r _ (i - n)) by lia.
  apply orb_false_r.
Qed.

Lemma popcnt_little_endian n bs : 0 <= n -> Forall (is_u n) bs ->
  popcnt (n * Z.of_nat (length bs)) (little_endian_to_Z n bs) = foldr Z.add 0 (popcnt n <$> bs).
Proof.
  intros Hn. induction 1 as [|b bs Hb Hbs IH]; [simpl; rewrite popcnt_0; lia|].
  replace (n * Z.of_nat (length (b :: bs))) with (n + n * Z.of_nat (length bs)) by (simpl; lia).
  rewrite popcnt_split, little_endian_cons_shiftr, IH by (done || lia). simpl. f_equal.
  apply popcnt_ext. intros. by apply (little_endian_cons_low n b bs).
Qed.

(** Number of one bits of a byte string. *)
Definition bytes_popcnt (buf : list Z) : Z := foldr Z.add 0 (popcnt 8 <$> buf).

Lemma bytes_popcnt_cons b buf : bytes_popcnt (b :: buf) = popcnt 8 b + bytes_popcnt buf.
Proof. done. Qed.

Lemma bytes_popcnt_app l1 l2 : bytes_popcnt (l1 ++ l2) = bytes_popcnt l1 + bytes_popcnt l2.
Proof. induction l1 as [|b l1 IH]; [done|]. simpl app. rewrite !bytes_popcnt_cons. lia. Qed.

Lemma bytes_popcnt_range buf : 0 <= bytes_popcnt buf <= 8 * Z.of_nat (length buf).
Proof.
  induction buf as [|b buf IH]; [unfold bytes_popcnt; simpl; lia|].
  rewrite bytes_popcnt_cons. pose proof (popcnt_range 8 b). cbn [length]. lia.
Qed.

Lemma popcount_bytes_spec buf n :
  Forall (is_u 8) buf -> 0 <= n -> n + 8 * Z.of_nat (length buf) < 2 ^ 64 ->
  popcount_bytes buf n = n + bytes_popcnt buf.
Proof.
  intros Hb. revert n. induction Hb as [|b buf Hb ? IH]; intros n Hn Hlt;
    cbn [popcount_bytes length] in *.
  - unfold bytes_popcnt; simpl. lia.
  - rewrite ones_table by (unfold is_u in Hb; lia). pose proof (popcnt_range 8 b).
    rewrite wrapu_small by (unfold is_u; lia). rewrite IH by lia.
    rewrite bytes_popcnt_cons. lia.
Qed.

Lemma popcount_words_spec buf n :
  Forall (is_u 8) buf -> 0 <= n -> n + 8 * Z.of_nat (length buf) < 2 ^ 64 ->
  exists pre, let '(n', rest) := popcount_words buf n in
    buf = pre ++ rest /\ n' = n + bytes_popcnt pre.
Proof.
  remember (length buf) as len eqn:Hlen. revert buf n Hlen.
  induction len as [len IH] using lt_wf_ind; intros buf n -> Hb Hn Hlt.
  do 8 (destruct buf as [|? buf]; [exists []; split; [done|]; unfold bytes_popcnt; simpl; lia|]).
  cbn [popcount_words]. set (hd := [z; z0; z1; z2; z3; z4; z5; z6]).
  change (z :: z0 :: z1 :: z2 :: z3 :: z4 :: z5 :: z6 :: buf) with (hd ++ buf) in *.
  apply Forall_app in Hb as [Hhd Hb]. rewrite length_app in Hlt.
  assert (pg_popcount64 (le64 z z0 z1 z2 z3 z4 z5 z6) = bytes_popcnt hd) as ->.
  { rewrite popcount64_popcnt.
    - apply (popcnt_little_endian 8 hd); [lia|done].
    - apply (little_endian_to_Z_bound 8 hd); [lia|done]. }
  pose proof (bytes_popcnt_range hd). change (length hd) with 8%nat in *.
  rewrite wrapu_small by (unfold is_u; lia).
  destruct (IH (length buf)) with (buf := buf) (n := n + bytes_popcnt hd) as [pre Hpre];
    [rewrite length_app; simpl; lia|done|done|lia|lia|].
  destruct (popcount_words buf (n + bytes_popcnt hd)) as [n' rest]. destruct Hpre as [-> ->].
  exists (hd ++ pre). rewrite <- app_assoc. split; [done|].
  rewrite bytes_popcnt_app. lia.
Qed.

(** ** Properties *)

(** The portable bit-scan branches return what the compiler built-ins
    return: the position of the most significant one bit ([Z.log2]), of the
    least significant one bit ([ctz]) and the number of one bits, for every
    non-zero 32-bit or 64-bit word. *)
Theorem bitscan_portable_correct w :
  0 < w < 2 ^ 64 ->
  (pg_leftmost_one_pos64 w = Z.log2 w /\ pg_rightmost_one_pos64 w = ctz w /\
   pg_popcount64 w = popcnt 64 w) /\
  (w < 2 ^ 32 ->
   pg_leftmost_one_pos32 w = Z.log2 w /\ pg_rightmost_one_pos32 w = ctz w /\
   pg_popcount32 w = popcnt 32 w).
Proof.
  intros Hw. split; [|intros ?]; (split; [|split]).
  - by apply leftmost64_log2.
  - by apply rightmost64_ctz.
  - apply popcount64_popcnt. lia.
  - apply leftmost32_log2. lia.
  - apply rightmost32_ctz. lia.
  - apply popcount32_popcnt. lia.
Qed.

Lemma bitscan_portable_correct_witness :
  0 < 40960 < 2 ^ 64 /\ pg_rightmost_one_pos64 40960 = ctz 40960.
Proof.
  split; [lia|]. destruct (bitscan_portable_correct 40960) as [(_ & H & _) _]; [lia|]. exact H.
Defined.

(** [pg_nextpower2] is the least power of two not below its argument,
    [pg_prevpower2] the greatest not above it and [pg_ceil_log2] the logarithm
    rounded up, at both widths and without overflow inside the documented
    argument range. *)
Theorem power2_correct num :
  0 < num <= 2 ^ 63 ->
  (pg_nextpower2_64 num = 2 ^ Z.log2_up num /\ pg_prevpower2_64 num = 2 ^ Z.log2 num /\
   pg_ceil_log2_64 num = Z.log2_up num) /\
  (num <= 2 ^ 31 ->
   pg_nextpower2_32 num = 2 ^ Z.log2_up num /\ pg_prevpower2_32 num = 2 ^ Z.log2 num /\
   pg_ceil_log2_32 num = Z.log2_up num).
Proof.
  intros Hn. split; [|intros ?]; (split; [|split]).
  - apply nextpower2_generic; [lia|done|apply leftmost64_log2; lia].
  - apply prevpower2_generic; [lia|unfold is_u; lia|lia|apply leftmost64_log2; lia].
  - apply ceil_log2_generic; [lia|]. intros. apply leftmost64_log2. lia.
  - apply nextpower2_generic; [lia|lia|apply leftmost32_log2; lia].
  - apply prevpower2_generic; [lia|unfold is_u; lia|lia|apply leftmost32_log2; lia].
  - apply ceil_log2_generic; [lia|]. intros. apply leftmost32_log2. lia.
Qed.

Lemma power2_correct_witness : 0 < 1000 <= 2 ^ 63 /\ pg_nextpower2_64 1000 = 2 ^ Z.log2_up 1000.
Proof. split; [lia|]. destruct (power2_correct 1000) as [(H & _) _]; [lia|]. exact H. Defined.

(** [pg_popcount] counts the one bits of the buffer whether or not the
    buffer is 8-byte aligned: the 64-bit fast path and the byte-at-a-time path
    agree. *)
Theorem pg_popcount_alignment_independent aligned buf :
  Forall (is_u 8) buf -> Z.of_nat (length buf) < 2 ^ 31 ->
  pg_popcount aligned buf = bytes_popcnt buf.
Proof.
  intros Hb Hlen. unfold pg_popcount. destruct aligned; [|rewrite popcount_bytes_spec by (done || lia); lia].
  destruct (popcount_words_spec buf 0 Hb) as [pre Hpre]; [lia|lia|].
  destruct (popcount_words buf 0) as [n rest]. destruct Hpre as [-> ->].
  apply Forall_app in Hb as [_ Hrest]. rewrite length_app in Hlen.
  pose proof (bytes_popcnt_range pre). rewrite popcount_bytes_spec by (done || lia).
  rewrite bytes_popcnt_app. lia.
Qed.

Lemma pg_popcount_alignment_independent_witness :
  Forall (is_u 8) [255; 1; 0; 0; 0; 0; 0; 16; 3; 7] /\
  pg_popcount true [255; 1; 0; 0; 0; 0; 0; 16; 3; 7] = bytes_popcnt [255; 1; 0; 0; 0; 0; 0; 16; 3; 7].
Proof.
  assert (Forall (is_u 8) [255; 1; 0; 0; 0; 0; 0; 16; 3; 7]) by (repeat constructor; unfold is_u; lia).
  split; [done|]. apply (pg_popcount_alignment_independent true); [done|simpl; lia].
Defined.
