(* ===== verification/Hashfn.v ===== *)
(** Hash functions: src/pg-src/src/common/hashfn.c (Bob Jenkins' lookup3 as
    adapted by PostgreSQL) and the inline helpers of
    src/pg-src/src/include/common/hashfn.h.

    The C code has four copies of the absorption loop, for aligned and unaligned
    keys on little- and big-endian machines; all four are modelled, the machine's
    byte order and the alignment of the key being arguments.  A key is the list of
    its bytes, and a switch with fall-through is the sequence of its guarded
    additions. *)

From S2P Require Import Prelude Bits.

(** 32-bit unsigned addition and subtraction, and the rotation macro. *)
Definition add32 (x y : Z) : Z := u32 (x + y).
Definition sub32 (x y : Z) : Z := u32 (x - y).
Definition rot (x k : Z) : Z := pg_rotate_left32 x k.

(** The three-word internal state [(a, b, c)]. *)
Definition hstate : Type := Z * Z * Z.

Definition mix (s : hstate) : hstate :=
  let '(a, b, c) := s in
  let a := sub32 a c in let a := Z.lxor a (rot c 4) in let c := add32 c b in
  let b := sub32 b a in let b := Z.lxor b (rot a 6) in let a := add32 a c in
  let c := sub32 c b in let c := Z.lxor c (rot b 8) in let b := add32 b a in
  let a := sub32 a c in let a := Z.lxor a (rot c 16) in let c := add32 c b in
  let b := sub32 b a in let b := Z.lxor b (rot a 19) in let a := add32 a c in
  let c := sub32 c b in let c := Z.lxor c (rot b 4) in let b := add32 b a in
  (a, b, c).

Definition final (s : hstate) : hstate :=
  let '(a, b, c) := s in
  let c := Z.lxor c b in let c := sub32 c (rot b 14) in
  let a := Z.lxor a c in let a := sub32 a (rot c 11) in
  let b := Z.lxor b a in let b := sub32 b (rot a 25) in
  let c := Z.lxor c b in let c := sub32 c (rot b 16) in
  let a := Z.lxor a c in let a := sub32 a (rot c 4) in
  let b := Z.lxor b a in let b := sub32 b (rot a 14) in
  let c := Z.lxor c b in let c := sub32 c (rot b 24) in
  (a, b, c).

(** The byte [k[i]] promoted to [uint32]. *)
Definition kb (k : list Z) (i : Z) : Z := nthZ k i.

(** A word-wide fetch [ka[i]] through a [const uint32 *] in the machine's byte order. *)
Definition ka (bigendian : bool) (k : list Z) (i : Z) : Z :=
  let bs := take 4 (drop (Z.to_nat (4 * i)) k) in
  little_endian_to_Z 8 (if bigendian then reverse bs else bs).

(** [c += (uint32) k[i] << n] *)
Definition addk (x : Z) (k : list Z) (i n : Z) : Z := add32 x (shlu 32 (kb k i) n).

(** Adding under a switch label: [case n] and everything it falls through to. *)
Definition on_case (len n : Z) (x : Z) (f : Z -> Z) : Z := if n <=? len then f x else x.

(** "handle most of the key", aligned source data. *)
Fixpoint hash_loop_aligned (bigendian : bool) (fuel : nat) (k : list Z) (s : hstate) : hstate * list Z :=
  match fuel with
  | O => (s, k)
  | S f =>
      if 12 <=? Z.of_nat (length k) then
        let '(a, b, c) := s in
        hash_loop_aligned bigendian f (drop 12 k)
          (mix (add32 a (ka bigendian k 0), add32 b (ka bigendian k 1), add32 c (ka bigendian k 2)))
      else (s, k)
  end.

(** "handle the last 11 bytes", aligned source data, WORDS_BIGENDIAN. *)
Definition hash_tail_aligned_be (k : list Z) (s : hstate) : hstate :=
  let '(a, b, c) := s in
  let len := Z.of_nat (length k) in
  if 8 <=? len then
    let c := on_case len 11 c (fun c => addk c k 10 8) in
    let c := on_case len 10 c (fun c => addk c k 9 16) in
    let c := on_case len 9 c (fun c => addk c k 8 24) in
    (add32 a (ka true k 0), add32 b (ka true k 1), c)
  else if 4 <=? len then
    let b := on_case len 7 b (fun b => addk b k 6 8) in
    let b := on_case len 6 b (fun b => addk b k 5 16) in
    let b := on_case len 5 b (fun b => addk b k 4 24) in
    (add32 a (ka true k 0), b, c)
  else
    let a := on_case len 3 a (fun a => addk a k 2 8) in
    let a := on_case len 2 a (fun a => addk a k 1 16) in
    let a := on_case len 1 a (fun a => addk a k 0 24) in
    (a, b, c).

(** "handle the last 11 bytes", aligned source data, little-endian. *)
Definition hash_tail_aligned_le (k : list Z) (s : hstate) : hstate :=
  let '(a, b, c) := s in
  let len := Z.of_nat (length k) in
  if 8 <=? len then
    let c := on_case len 11 c (fun c => addk c k 10 24) in
    let c := on_case len 10 c (fun c => addk c k 9 16) in
    let c := on_case len 9 c (fun c => addk c k 8 8) in
    (add32 a (ka false k 0), add32 b (ka false k 1), c)
  else if 4 <=? len then
    let b := on_case len 7 b (fun b => addk b k 6 16) in
    let b := on_case len 6 b (fun b => addk b k 5 8) in
    let b := on_case len 5 b (fun b => add32 b (kb k 4)) in
    (add32 a (ka false k 0), b, c)
  else
    let a := on_case len 3 a (fun a => addk a k 2 16) in
    let a := on_case len 2 a (fun a => addk a k 1 8) in
    let a := on_case len 1 a (fun a => add32 a (kb k 0)) in
    (a, b, c).

(** [k[i] + (k[i+1] << 8) + (k[i+2] << 16) + (k[i+3] << 24)] in [uint32] arithmetic,
    with the bytes in the opposite order under WORDS_BIGENDIAN. *)
Definition fetch_bytes (bigendian : bool) (k : list Z) (i : Z) : Z :=
  if bigendian
  then addk (addk (addk (kb k (i + 3)) k (i + 2) 8) k (i + 1) 16) k i 24
  else addk (addk (addk (kb k i) k (i + 1) 8) k (i + 2) 16) k (i + 3) 24.

(** "handle most of the key", non-aligned source data. *)
Fixpoint hash_loop_unaligned (bigendian : bool) (fuel : nat) (k : list Z) (s : hstate) : hstate * list Z :=
  match fuel with
  | O => (s, k)
  | S f =>
      if 12 <=? Z.of_nat (length k) then
        let '(a, b, c) := s in
        hash_loop_unaligned bigendian f (drop 12 k)
          (mix (add32 a (fetch_bytes bigendian k 0), add32 b (fetch_bytes bigendian k 4),
                add32 c (fetch_bytes bigendian k 8)))
      else (s, k)
  end.

(** "handle the last 11 bytes", non-aligned source data, WORDS_BIGENDIAN. *)
Definition hash_tail_unaligned_be (k : list Z) (s : hstate) : hstate :=
  let '(a, b, c) := s in
  let len := Z.of_nat (length k) in
  let c := on_case len 11 c (fun c => addk c k 10 8) in
  let c := on_case len 10 c (fun c => addk c k 9 16) in
  let c := on_case len 9 c (fun c => addk c k 8 24) in
  let b := on_case len 8 b (fun b => add32 b (kb k 7)) in
  let b := on_case len 7 b (fun b => addk b k 6 8) in
  let b := on_case len 6 b (fun b => addk b k 5 16) in
  let b := on_case len 5 b (fun b => addk b k 4 24) in
  let a := on_case len 4 a (fun a => add32 a (kb k 3)) in
  let a := on_case len 3 a (fun a => addk a k 2 8) in
  let a := on_case len 2 a (fun a => addk a k 1 16) in
  let a := on_case len 1 a (fun a => addk a k 0 24) in
  (a, b, c).

(** "handle the last 11 bytes", non-aligned source data, little-endian. *)
Definition hash_tail_unaligned_le (k : list Z) (s : hstate) : hstate :=
  let '(a, b, c) := s in
  let len := Z.of_nat (length k) in
  let c := on_case len 11 c (fun c => addk c k 10 24) in
  let c := on_case len 10 c (fun c => addk c k 9 16) in
  let c := on_case len 9 c (fun c => addk c k 8 8) in
  let b := on_case len 8 b (fun b => addk b k 7 24) in
  let b := on_case len 7 b (fun b => addk b k 6 16) in
  let b := on_case len 6 b (fun b => addk b k 5 8) in
  let b := on_case len 5 b (fun b => add32 b (kb k 4)) in
  let a := on_case len 4 a (fun a => addk a k 3 24) in
  let a := on_case len 3 a (fun a => addk a k 2 16) in
  let a := on_case len 2 a (fun a => addk a k 1 8) in
  let a := on_case len 1 a (fun a => add32 a (kb k 0)) in
  (a, b, c).

(** The absorption of the key shared by [hash_bytes] and [hash_bytes_extended].  Each
    round consumes twelve bytes, so the key length bounds the number of rounds. *)
Definition hash_absorb (bigendian aligned : bool) (k : list Z) (s : hstate) : hstate :=
  if aligned then
    let '(s, k) := hash_loop_aligned bigendian (length k) k s in
    if bigendian then hash_tail_aligned_be k s else hash_tail_aligned_le k s
  else
    let '(s, k) := hash_loop_unaligned bigendian (length k) k s in
    if bigendian then hash_tail_unaligned_be k s else hash_tail_unaligned_le k s.

(** [a = b = c = 0x9e3779b9 + len + 3923095] *)
Definition hash_init (len : Z) : hstate :=
  let x := u32 (0x9e3779b9 + u32 len + 3923095) in (x, x, x).

Definition hash_bytes (bigendian aligned : bool) (k : list Z) : Z :=
  let s := hash_init (Z.of_nat (length k)) in
  let '(a, b, c) := final (hash_absorb bigendian aligned k s) in
  c.

(** "If the seed is non-zero, use it to perturb the internal state." *)
Definition hash_seed (seed : Z) (s : hstate) : hstate :=
  let '(a, b, c) := s in
  if seed =? 0 then s else mix (add32 a (u32 (Z.shiftr seed 32)), add32 b (u32 seed), c).

Definition hash_bytes_extended (bigendian aligned : bool) (k : list Z) (seed : Z) : Z :=
  let s := hash_seed seed (hash_init (Z.of_nat (length k))) in
  let '(a, b, c) := final (hash_absorb bigendian aligned k s) in
  Z.lor (shlu 64 b 32) c.

Definition hash_bytes_uint32 (k : Z) : Z :=
  let '(a, b, c) := hash_init 4 in
  let a := add32 a k in
  let '(a, b, c) := final (a, b, c) in
  c.

Definition hash_bytes_uint32_extended (k seed : Z) : Z :=
  let '(a, b, c) := hash_seed seed (hash_init 4) in
  let a := add32 a k in
  let '(a, b, c) := final (a, b, c) in
  Z.lor (shlu 64 b 32) c.

(** [strlen]: the bytes before the terminating NUL. *)
Fixpoint strlen (s : list Z) : nat :=
  match s with
  | [] => O
  | b :: s' => if b =? 0 then O else S (strlen s')
  end.

(** [key] is the memory the pointer refers to; a NUL is assumed to be present. *)
Definition string_hash (bigendian aligned : bool) (key : list Z) (keysize : Z) : Z :=
  let s_len := Z.min (Z.of_nat (strlen key)) (u64 (keysize - 1)) in
  hash_bytes bigendian aligned (take (Z.to_nat s_len) key).

Definition tag_hash (bigendian aligned : bool) (key : list Z) (keysize : Z) : Z :=
  hash_bytes bigendian aligned (take (Z.to_nat keysize) key).

Definition uint32_hash (bigendian : bool) (key : list Z) : Z := hash_bytes_uint32 (ka bigendian key 0).

Definition hash_combine (a b : Z) : Z :=
  Z.lxor a (u32 (b + 0x9e3779b9 + shlu 32 a 6 + Z.shiftr a 2)).

Definition hash_combine64 (a b : Z) : Z :=
  Z.lxor a (u64 (b + 0x49a0f4dd15e5a8e3 + shlu 64 a 54 + Z.shiftr a 7)).

Definition murmurhash32 (data : Z) : Z :=
  let h := data in
  let h := Z.lxor h (Z.shiftr h 16) in
  let h := u32 (h * 0x85ebca6b) in
  let h := Z.lxor h (Z.shiftr h 13) in
  let h := u32 (h * 0xc2b2ae35) in
  Z.lxor h (Z.shiftr h 16).

(** ** Arithmetic modulo 2^32 *)

Definition state_ok (s : hstate) : Prop :=
  let '(a, b, c) := s in is_u 32 a /\ is_u 32 b /\ is_u 32 c.

Lemma add32_nest x y z : add32 (add32 x y) z = add32 x (y + z).
Proof. unfold add32, wrapu. rewrite Zplus_mod_idemp_l. f_equal. lia. Qed.

Lemma add32_u32 x y : add32 x (u32 y) = add32 x y.
Proof. unfold add32, wrapu. by rewrite Zplus_mod_idemp_r. Qed.

Lemma add32_u32_l x y : add32 (u32 x) y = add32 x y.
Proof. unfold add32, wrapu. by rewrite Zplus_mod_idemp_l. Qed.

Lemma sub32_add32 x y : is_u 32 x -> sub32 (add32 x y) y = x.
Proof.
  intros. unfold sub32, add32, wrapu. rewrite Zminus_mod_idemp_l.
  replace (x + y - y) with x by lia. by apply wrapu_small.
Qed.

Lemma add32_sub32 x y : is_u 32 x -> add32 (sub32 x y) y = x.
Proof.
  intros. unfold sub32, add32, wrapu. rewrite Zplus_mod_idemp_l.
  replace (x - y + y) with x by lia. by apply wrapu_small.
Qed.

Lemma add32_is_u x y : is_u 32 (add32 x y).
Proof. by apply wrapu_range. Qed.
Lemma sub32_is_u x y : is_u 32 (sub32 x y).
Proof. by apply wrapu_range. Qed.

Lemma rot_is_u x k : is_u 32 x -> 0 <= k <= 32 -> is_u 32 (rot x k).
Proof.
  intros Hx Hk. unfold rot, pg_rotate_left32. apply is_u_lor; [lia|by apply wrapu_range|].
  apply is_u_bits; [lia|apply Z.shiftr_nonneg; unfold is_u in *; lia|].
  intros i Hi. rewrite Z.shiftr_spec by lia. apply (is_u_testbit 32); [done|lia].
Qed.

Lemma lxor_cancel x y : Z.lxor (Z.lxor x y) y = x.
Proof. by rewrite Z.lxor_assoc, Z.lxor_nilpotent, Z.lxor_0_r. Qed.

#[export] Hint Resolve add32_is_u sub32_is_u rot_is_u : words.

Lemma shlu_byte b n : is_u 8 b -> 0 <= n <= 24 -> shlu 32 b n = b * 2 ^ n.
Proof.
  intros Hb Hn. unfold shlu. rewrite Z.shiftl_mul_pow2 by lia. apply wrapu_small.
  assert (2 ^ n <= 2 ^ 24) by (apply Z.pow_le_mono_r; lia). unfold is_u in *. split; [lia|].
  apply Z.le_lt_trans with (255 * 2 ^ 24); [|lia]. apply Z.mul_le_mono_nonneg; lia.
Qed.

Lemma addk_byte x k i n : is_u 8 (kb k i) -> 0 <= n <= 24 -> addk x k i n = add32 x (kb k i * 2 ^ n).
Proof. intros. unfold addk. by rewrite shlu_byte. Qed.

Lemma little_endian4 b0 b1 b2 b3 :
  is_u 8 b0 -> is_u 8 b1 -> is_u 8 b2 -> is_u 8 b3 ->
  little_endian_to_Z 8 [b0; b1; b2; b3] = b0 + b1 * 2 ^ 8 + b2 * 2 ^ 16 + b3 * 2 ^ 24.
Proof.
  intros. cbn [little_endian_to_Z]. rewrite Z.shiftl_0_l, Z.lor_0_r.
  rewrite !lor_shiftl_add by (done || lia). lia.
Qed.

Lemma kb_byte k i : Forall (is_u 8) k -> is_u 8 (kb k i).
Proof. intros. apply Forall_nthZ; [unfold is_u; lia|done]. Qed.
#[export] Hint Resolve kb_byte : words.

Lemma kb_drop k n i : 0 <= i -> kb (drop n k) i = kb k (Z.of_nat n + i).
Proof.
  intros. unfold kb, nthZ. rewrite !nth_lookup, lookup_drop. do 2 f_equal. lia.
Qed.

Lemma take4_drop k i : 0 <= i -> 4 * i + 4 <= Z.of_nat (length k) ->
  take 4 (drop (Z.to_nat (4 * i)) k) = [kb k (4 * i); kb k (4 * i + 1); kb k (4 * i + 2); kb k (4 * i + 3)].
Proof.
  intros Hi Hl. pose proof (kb_drop k (Z.to_nat (4 * i))) as Hd. rewrite Z2Nat.id in Hd by lia.
  pose proof (length_drop k (Z.to_nat (4 * i))) as Hlen.
  rewrite <- (Z.add_0_r (4 * i)) at 2. rewrite <- !Hd by lia.
  destruct (drop (Z.to_nat (4 * i)) k) as [|x0 [|x1 [|x2 [|x3 r]]]]; simpl in Hlen; try lia. done.
Qed.

(** A word-wide fetch equals the byte-wise fetch in the same byte order. *)
Lemma fetch_bytes_ka be k j i :
  Forall (is_u 8) k -> 0 <= i -> j = 4 * i -> 4 * i + 4 <= Z.of_nat (length k) ->
  fetch_bytes be k j = u32 (ka be k i).
Proof.
  intros Hk Hi -> Hl. unfold fetch_bytes, ka. rewrite take4_drop by done.
  destruct be; [unfold reverse; cbn [rev_append]|];
    rewrite !addk_byte, !add32_nest, little_endian4 by (auto with words; lia);
    unfold add32; f_equal; lia.
Qed.

(** ** Aligned and unaligned code paths agree *)

Lemma ka_sum be k i :
  Forall (is_u 8) k -> 0 <= i -> 4 * i + 4 <= Z.of_nat (length k) ->
  ka be k i =
    if be then kb k (4 * i) * 2 ^ 24 + kb k (4 * i + 1) * 2 ^ 16 + kb k (4 * i + 2) * 2 ^ 8 + kb k (4 * i + 3)
    else kb k (4 * i) + kb k (4 * i + 1) * 2 ^ 8 + kb k (4 * i + 2) * 2 ^ 16 + kb k (4 * i + 3) * 2 ^ 24.
Proof.
  intros Hk Hi Hl. unfold ka. rewrite take4_drop by done.
  destruct be; [unfold reverse; cbn [rev_append]|]; rewrite little_endian4 by auto with words; lia.
Qed.

Lemma ka_0 be k : Forall (is_u 8) k -> 4 <= Z.of_nat (length k) ->
  ka be k 0 = if be then kb k 0 * 2 ^ 24 + kb k 1 * 2 ^ 16 + kb k 2 * 2 ^ 8 + kb k 3
              else kb k 0 + kb k 1 * 2 ^ 8 + kb k 2 * 2 ^ 16 + kb k 3 * 2 ^ 24.
Proof. intros. apply (ka_sum be k 0); [done|lia|lia]. Qed.

Lemma ka_1 be k : Forall (is_u 8) k -> 8 <= Z.of_nat (length k) ->
  ka be k 1 = if be then kb k 4 * 2 ^ 24 + kb k 5 * 2 ^ 16 + kb k 6 * 2 ^ 8 + kb k 7
              else kb k 4 + kb k 5 * 2 ^ 8 + kb k 6 * 2 ^ 16 + kb k 7 * 2 ^ 24.
Proof. intros. apply (ka_sum be k 1); [done|lia|lia]. Qed.

(** Evaluate the guards of a switch on a length whose range is in the context. *)
Ltac switch_cases :=
  repeat match goal with
    | |- context [on_case ?l ?n _ _] => unfold on_case at 1
    | |- context [?a <=? ?b] => destruct (Z.leb_spec a b); try lia
    end.

Lemma add32_eq x y x' y' : x + y = x' + y' -> add32 x y = add32 x' y'.
Proof. unfold add32. congruence. Qed.

(** Turn the additions of one path into one sum per state word, and compare them. *)
Ltac tail_sums :=
  rewrite ?addk_byte, ?ka_0, ?ka_1 by (auto with words; lia); rewrite ?add32_nest;
  apply (f_equal2 pair); [apply (f_equal2 pair)|];
  first [reflexivity | apply add32_eq; lia].

Lemma tail_le_agree k s :
  Forall (is_u 8) k -> Z.of_nat (length k) < 12 ->
  hash_tail_aligned_le k s = hash_tail_unaligned_le k s.
Proof.
  intros Hk Hl. destruct s as [[a b] c]. unfold hash_tail_aligned_le, hash_tail_unaligned_le.
  switch_cases; tail_sums.
Qed.

Lemma tail_be_agree k s :
  Forall (is_u 8) k -> Z.of_nat (length k) < 12 ->
  hash_tail_aligned_be k s = hash_tail_unaligned_be k s.
Proof.
  intros Hk Hl. destruct s as [[a b] c]. unfold hash_tail_aligned_be, hash_tail_unaligned_be.
  switch_cases; tail_sums.
Qed.

Lemma loop_agree be fuel k s :
  Forall (is_u 8) k -> hash_loop_aligned be fuel k s = hash_loop_unaligned be fuel k s.
Proof.
  revert k s. induction fuel as [|f IH]; intros k s Hk; [done|].
  cbn [hash_loop_aligned hash_loop_unaligned]. destruct (Z.leb_spec 12 (Z.of_nat (length k))); [|done].
  destruct s as [[a b] c]. rewrite (fetch_bytes_ka be k 0 0), (fetch_bytes_ka be k 4 1),
    (fetch_bytes_ka be k 8 2), !add32_u32 by (done || lia).
  apply IH. by apply Forall_drop.
Qed.

Lemma loop_rest be fuel k s :
  (length k <= fuel)%nat -> Forall (is_u 8) k ->
  let '(_, k') := hash_loop_unaligned be fuel k s in
  Forall (is_u 8) k' /\ Z.of_nat (length k') < 12.
Proof.
  revert k s. induction fuel as [|f IH]; intros k s Hl Hk; cbn [hash_loop_unaligned].
  - split; [done|lia].
  - destruct (Z.leb_spec 12 (Z.of_nat (length k))); [|done].
    destruct s as [[a b] c]. apply IH; [rewrite length_drop; lia|by apply Forall_drop].
Qed.

Lemma hash_absorb_aligned be k s :
  Forall (is_u 8) k -> hash_absorb be true k s = hash_absorb be false k s.
Proof.
  intros Hk. unfold hash_absorb. rewrite loop_agree by done.
  pose proof (loop_rest be (length k) k s (le_n _) Hk) as Hr.
  destruct (hash_loop_unaligned be (length k) k s) as [s' k']. destruct Hr.
  destruct be; [by apply tail_be_agree|by apply tail_le_agree].
Qed.

(** ** Reversibility of [mix]

    Each line of the macro is the same step [mstep] on a rotation of the state. *)

Definition mstep (k : Z) (s : hstate) : hstate :=
  let '(x, y, z) := s in (Z.lxor (sub32 x z) (rot z k), y, add32 z y).
Definition munstep (k : Z) (s : hstate) : hstate :=
  let '(x, y, z) := s in let z := sub32 z y in (add32 (Z.lxor x (rot z k)) z, y, z).
Definition rotl (s : hstate) : hstate := let '(x, y, z) := s in (y, z, x).
Definition rotr (s : hstate) : hstate := let '(x, y, z) := s in (z, x, y).

Definition mround (s : hstate) (k : Z) : hstate := rotl (mstep k s).
Definition munround (k : Z) (s : hstate) : hstate := munstep k (rotr s).

Lemma mix_rounds s : mix s = fold_left mround [4; 6; 8; 16; 19; 4] s.
Proof. by destruct s as [[a b] c]. Qed.

(** The inverse of [mix]: the rounds undone in the opposite order. *)
Definition unmix (s : hstate) : hstate := foldr munround s [4; 6; 8; 16; 19; 4].

Lemma mround_inv s k : state_ok s -> 0 <= k <= 32 ->
  state_ok (mround s k) /\ munround k (mround s k) = s.
Proof.
  destruct s as [[x y] z]. intros (Hx & Hy & Hz) Hk. split.
  - split; [done|]. split; [apply add32_is_u|].
    apply is_u_lxor; [lia|apply sub32_is_u|by apply rot_is_u].
  - unfold munround, mround, rotl, rotr, mstep, munstep.
    by rewrite sub32_add32, lxor_cancel, add32_sub32.
Qed.

Lemma rounds_inv ks s : Forall (fun k => 0 <= k <= 32) ks -> state_ok s ->
  state_ok (fold_left mround ks s) /\ foldr munround (fold_left mround ks s) ks = s.
Proof.
  intros Hks. revert s. induction Hks as [|k ks Hk _ IH]; intros s Hs; [done|]. simpl.
  destruct (mround_inv s k Hs Hk) as [Hok Hinv]. destruct (IH _ Hok) as [Hok' ->]. done.
Qed.

(** ** Ranges *)

Lemma mix_ok s : state_ok s -> state_ok (mix s).
Proof.
  intros. rewrite mix_rounds. apply rounds_inv; [|done]. repeat constructor; lia.
Qed.

Lemma final_ok s : state_ok s -> state_ok (final s).
Proof. destruct s as [[a b] c]. intros _. split; [|split]; apply sub32_is_u. Qed.

Lemma hash_init_ok len : state_ok (hash_init len).
Proof. split; [|split]; by apply wrapu_range. Qed.

Lemma hash_seed_0 s : hash_seed 0 s = s.
Proof. by destruct s as [[a b] c]. Qed.

Lemma lor_shl32_low b c : is_u 32 b -> is_u 32 c ->
  Z.lor (shlu 64 b 32) c `mod` 2 ^ 32 = c.
Proof.
  intros Hb Hc. change (u32 (Z.lor (shlu 64 b 32) c) = c). apply Z.bits_inj'. intros i Hi.
  autorewrite with wordbits. repeat case_bool_decide; simpl; try lia.
  1: by rewrite Z.testbit_neg_r by lia.
  all: by rewrite (is_u_testbit 32 c) by (done || lia).
Qed.

(** ** Properties *)

(** The hash of a key does not depend on where the key is stored: on either
    byte order the word-wide code path for aligned keys and the byte-wise path for
    unaligned keys return the same 32-bit and 64-bit hashes. *)
Theorem hash_bytes_alignment_independent bigendian k seed :
  Forall (is_u 8) k ->
  hash_bytes bigendian true k = hash_bytes bigendian false k /\
  hash_bytes_extended bigendian true k seed = hash_bytes_extended bigendian false k seed.
Proof. intros Hk. unfold hash_bytes, hash_bytes_extended. by rewrite !hash_absorb_aligned. Qed.

Lemma hash_bytes_alignment_independent_witness :
  Forall (is_u 8) [1; 2; 3; 4; 5; 6; 7; 8; 9; 10; 11; 12; 13; 14; 255] /\
  hash_bytes false true [1; 2; 3; 4; 5; 6; 7; 8; 9; 10; 11; 12; 13; 14; 255]
  = hash_bytes false false [1; 2; 3; 4; 5; 6; 7; 8; 9; 10; 11; 12; 13; 14; 255].
Proof.
  assert (Forall (is_u 8) [1; 2; 3; 4; 5; 6; 7; 8; 9; 10; 11; 12; 13; 14; 255]) as H
    by (repeat constructor; unfold is_u; lia).
  split; [exact H|].
  destruct (hash_bytes_alignment_independent false _ 0 H) as [E _]. exact E.
Defined.

(** [hash_bytes_uint32] returns the hash of the four bytes of its argument, as
    its comment says, on either byte order, and [hash_bytes_uint32_extended] does so
    for the seeded 64-bit hash. *)
Theorem hash_bytes_uint32_same bigendian aligned bytes seed :
  Forall (is_u 8) bytes -> length bytes = 4%nat ->
  hash_bytes_uint32 (ka bigendian bytes 0) = hash_bytes bigendian aligned bytes /\
  hash_bytes_uint32_extended (ka bigendian bytes 0) seed
    = hash_bytes_extended bigendian aligned bytes seed.
Proof.
  intros Hb Hl.
  assert (forall s, hash_absorb bigendian aligned bytes s =
            let '(a, b, c) := s in (add32 a (ka bigendian bytes 0), b, c)) as Habs.
  { intros s. transitivity (hash_absorb bigendian true bytes s).
    { destruct aligned; [done|]. by rewrite hash_absorb_aligned. }
    unfold hash_absorb. destruct bytes as [|b0 [|b1 [|b2 [|b3 [|]]]]]; try done.
    destruct s as [[a b] c]. by destruct bigendian. }
  unfold hash_bytes_uint32, hash_bytes_uint32_extended, hash_bytes, hash_bytes_extended.
  rewrite !Habs, Hl. change (Z.of_nat 4) with 4.
  split; [done|]. destruct (hash_seed seed (hash_init 4)) as [[a b] c]. done.
Qed.

Lemma hash_bytes_uint32_same_witness :
  length [120; 86; 52; 18] = 4%nat /\
  hash_bytes_uint32 (ka false [120; 86; 52; 18] 0) = hash_bytes false true [120; 86; 52; 18].
Proof.
  split; [reflexivity|].
  destruct (hash_bytes_uint32_same false true [120; 86; 52; 18] 0) as [E _];
    [repeat constructor; unfold is_u; lia|reflexivity|exact E].
Defined.

(** With seed zero the low 32 bits of the extended hash are the plain hash, the
    compatibility the extended hash functions are designed for. *)
Theorem hash_bytes_extended_seed0 bigendian aligned k :
  hash_bytes_extended bigendian aligned k 0 `mod` 2 ^ 32 = hash_bytes bigendian aligned k.
Proof.
  unfold hash_bytes_extended, hash_bytes. rewrite hash_seed_0.
  destruct (hash_absorb bigendian aligned k (hash_init (Z.of_nat (length k)))) as [[a b] c].
  unfold final. apply lor_shl32_low; apply sub32_is_u.
Qed.

(** [mix] is reversible, as its comment claims: [unmix] recovers the state from
    the mixed state, so no information about [(a, b, c)] is lost. *)
Theorem mix_reversible s : state_ok s -> state_ok (mix s) /\ unmix (mix s) = s.
Proof.
  intros Hs. rewrite mix_rounds. apply rounds_inv; [|done]. repeat constructor; lia.
Qed.

Lemma mix_reversible_witness : state_ok (1, 2, 3) /\ unmix (mix (1, 2, 3)) = (1, 2, 3).
Proof.
  assert (state_ok (1, 2, 3)) as H by (repeat split; unfold is_u; lia).
  split; [exact H|]. apply (mix_reversible (1, 2, 3) H).
Defined.
