(* ===== verification/SimpleHash.v ===== *)
(** Open-addressing hash tables: [src/include/lib/simplehash.h].

    The header is a template: the including file supplies the type of elements and of keys, the
    hash function and the prefix of the names.  Here they are the variables of a section; the
    table of [tidbitmap.c] is one instance.  The configuration is the one without stored hashes
    ([SH_STORE_HASH]).  A pointer to an element is its index in [data]. *)
From S2P Require Import Prelude Bits.

(** ** Data *)
Inductive SH_STATUS := SH_STATUS_EMPTY | SH_STATUS_IN_USE.
#[export] Instance SH_STATUS_eq_dec : EqDecision SH_STATUS.
Proof. solve_decision. Defined.

(** An element: its status, its key, and what else the including file stores. *)
Record SH_ELEMENT_TYPE (K V : Type) := mkElem { sh_status : SH_STATUS; SH_KEY : K; sh_val : V }.
Arguments mkElem {K V}.
Arguments sh_status {K V}.
Arguments SH_KEY {K V}.
Arguments sh_val {K V}.

Record SH_TYPE (K V : Type) := mkSH { sh_size : Z; sh_members : Z; sizemask : Z; grow_threshold : Z; data : list (SH_ELEMENT_TYPE K V) }.
Arguments mkSH {K V}.
Arguments sh_size {K V}.
Arguments sh_members {K V}.
Arguments sizemask {K V}.
Arguments grow_threshold {K V}.
Arguments data {K V}.

Record SH_ITERATOR := mkIter { it_cur : Z; it_end : Z; it_done : bool }.

Definition SH_MAX_SIZE : Z := 2 ^ 32.
Definition SIZE_MAX : Z := 2 ^ 64 - 1.
(** The fill factors are the doubles next to 0.9, 0.98 and 0.1, fractions with a power of two
    below.  Sizes are powers of two, so the products and quotients are exact. *)
Definition SH_FILLFACTOR (size : Z) : Z := size * 8106479329266893 / 2 ^ 53.
Definition SH_MAX_FILLFACTOR (size : Z) : Z := size * 2206763817411543 / 2 ^ 51.
Definition SH_GROW_MIN_FILLFACTOR (members size : Z) : bool := 3602879701896397 * size <=? members * 2 ^ 55.
Definition SH_GROW_MAX_DIB : Z := 25.
Definition SH_GROW_MAX_MOVE : Z := 150.

Section Table.
Context {K V : Type} `{EqDecision K}.
(** The zeroed key and contents of fresh memory, [sizeof(SH_ELEMENT_TYPE)] and the hash
    function of the including file. *)
Context (K0 : K) (V0 : V) (sizeof_element : Z) (SH_HASH_KEY : K -> Z).

Notation elem := (SH_ELEMENT_TYPE K V).
Notation table := (SH_TYPE K V).

Definition zero_element : elem := mkElem SH_STATUS_EMPTY K0 V0.
Definition set_data (tb : table) (d : list elem) : table := mkSH (sh_size tb) (sh_members tb) (sizemask tb) (grow_threshold tb) d.
Definition set_members (tb : table) (m : Z) : table := mkSH (sh_size tb) m (sizemask tb) (grow_threshold tb) (data tb).
Definition set_threshold (tb : table) (t : Z) : table := mkSH (sh_size tb) (sh_members tb) (sizemask tb) t (data tb).

(** ** Bucket arithmetic *)
Definition SH_COMPUTE_PARAMETERS (tb : table) (newsize : Z) : res table :=
  let size := pg_nextpower2_64 (Z.max newsize 2) in
  if SIZE_MAX / 2 <=? wrapu 64 (sizeof_element * size) then Err "hash table too large"
  else Ok (mkSH size (sh_members tb) (wrapu 32 (size - 1)) (if size =? SH_MAX_SIZE then SH_MAX_FILLFACTOR size else SH_FILLFACTOR size) (data tb)).

Definition SH_INITIAL_BUCKET (tb : table) (hash : Z) : Z := Z.land hash (sizemask tb).
Definition SH_NEXT (tb : table) (curelem : Z) : Z := Z.land (wrapu 32 (curelem + 1)) (sizemask tb).
Definition SH_PREV (tb : table) (curelem : Z) : Z := Z.land (wrapu 32 (curelem - 1)) (sizemask tb).
Definition SH_DISTANCE_FROM_OPTIMAL (tb : table) (optimal bucket : Z) : Z :=
  if optimal <=? bucket then bucket - optimal else wrapu 32 (sh_size tb + bucket - optimal).
Definition SH_ENTRY_HASH (entry : elem) : Z := SH_HASH_KEY (SH_KEY entry).

(** ** Creation, reset and growth *)
Definition SH_ALLOCATE (size : Z) : list elem := replicate (Z.to_nat size) zero_element.

(** [nelements] divided by the double 0.9, rounded and truncated: below 2^32 this is
    [nelements * 10 / 9]. *)
Definition SH_CREATE (nelements : Z) : res table :=
  let size := Z.min SH_MAX_SIZE (nelements * 10 / 9) in
  tb ← SH_COMPUTE_PARAMETERS (mkSH 0 0 0 0 []) size;
  Ok (set_data tb (SH_ALLOCATE (sh_size tb))).

Definition SH_RESET (tb : table) : table := set_members (set_data tb (SH_ALLOCATE (sh_size tb))) 0.

(** The first bucket that is empty or has its element at the optimal position; 0 if none. *)
Fixpoint grow_start (tb : table) (olddata : list elem) (i : Z) : Z :=
  match olddata with
  | [] => 0
  | oldentry :: olddata =>
    if negb (bool_decide (sh_status oldentry = SH_STATUS_IN_USE)) then i
    else if SH_INITIAL_BUCKET tb (SH_ENTRY_HASH oldentry) =? i then i
    else grow_start tb olddata (i + 1)
  end.

Fixpoint grow_find (fuel : nat) (tb : table) (newdata : list elem) (curelem : Z) : res Z :=
  match fuel with
  | O => OutOfFuel
  | S fuel =>
    newentry ← aget newdata curelem;
    if bool_decide (sh_status newentry = SH_STATUS_EMPTY) then Ok curelem
    else grow_find fuel tb newdata (SH_NEXT tb curelem)
  end.

(** [n] old buckets are left to copy, from [copyelem] on. *)
Fixpoint grow_copy (n : nat) (tb : table) (oldsize : Z) (olddata : list elem) (copyelem : Z) (newdata : list elem) : res (list elem) :=
  match n with
  | O => Ok newdata
  | S n =>
    oldentry ← aget olddata copyelem;
    newdata ← (if bool_decide (sh_status oldentry = SH_STATUS_IN_USE) then
                 curelem ← grow_find (length newdata) tb newdata (SH_INITIAL_BUCKET tb (SH_ENTRY_HASH oldentry));
                 aset newdata curelem oldentry
               else Ok newdata);
    let copyelem := copyelem + 1 in
    grow_copy n tb oldsize olddata (if oldsize <=? copyelem then 0 else copyelem) newdata
  end.

Definition SH_GROW (tb : table) (newsize : Z) : res table :=
  let oldsize := sh_size tb in
  let olddata := data tb in
  tb ← SH_COMPUTE_PARAMETERS tb newsize;
  let tb := set_data tb (SH_ALLOCATE (sh_size tb)) in
  newdata ← grow_copy (length olddata) tb oldsize olddata (grow_start tb olddata 0) (data tb);
  Ok (set_data tb newdata).

(** ** Insertion *)
(** The next empty bucket after [emptyelem]; [None] is the jump to [restart]. *)
Fixpoint insert_empty (fuel : nat) (tb : table) (emptyelem emptydist : Z) : res (option Z) :=
  match fuel with
  | O => OutOfFuel
  | S fuel =>
    let emptyelem := SH_NEXT tb emptyelem in
    emptyentry ← aget (data tb) emptyelem;
    if bool_decide (sh_status emptyentry = SH_STATUS_EMPTY) then Ok (Some emptyelem)
    else
      let emptydist := emptydist + 1 in
      if (SH_GROW_MAX_MOVE <? emptydist) && SH_GROW_MIN_FILLFACTOR (sh_members tb) (sh_size tb) then Ok None
      else insert_empty fuel tb emptyelem emptydist
  end.

Fixpoint insert_shift (fuel : nat) (tb : table) (d : list elem) (moveelem lastentry curelem : Z) : res (list elem) :=
  match fuel with
  | O => OutOfFuel
  | S fuel =>
    if moveelem =? curelem then Ok d
    else
      let moveelem := SH_PREV tb moveelem in
      moveentry ← aget d moveelem;
      d ← aset d lastentry moveentry;
      insert_shift fuel tb d moveelem moveelem curelem
  end.

(** Fill a bucket with the new key; the rest of its contents stays. *)
Definition fill_bucket (tb : table) (d : list elem) (curelem : Z) (key : K) : res table :=
  entry ← aget d curelem;
  d ← aset d curelem (mkElem SH_STATUS_IN_USE key (sh_val entry));
  Ok (mkSH (sh_size tb) (wrapu 32 (sh_members tb + 1)) (sizemask tb) (grow_threshold tb) d).

(** The search loop: the table, the bucket of the element and whether it was found; [None] is
    the jump to [restart]. *)
Fixpoint insert_loop (fuel : nat) (tb : table) (key : K) (curelem insertdist : Z) : res (option (table * Z * bool)) :=
  match fuel with
  | O => OutOfFuel
  | S fuel =>
    entry ← aget (data tb) curelem;
    if bool_decide (sh_status entry = SH_STATUS_EMPTY) then
      tb ← fill_bucket tb (data tb) curelem key;
      Ok (Some (tb, curelem, false))
    else if bool_decide (SH_KEY entry = key) then Ok (Some (tb, curelem, true))
    else
      let curoptimal := SH_INITIAL_BUCKET tb (SH_ENTRY_HASH entry) in
      let curdist := SH_DISTANCE_FROM_OPTIMAL tb curoptimal curelem in
      if curdist <? insertdist then
        e ← insert_empty (length (data tb)) tb curelem 0;
        match e with
        | None => Ok None
        | Some emptyelem =>
          d ← insert_shift (S (length (data tb))) tb (data tb) emptyelem emptyelem curelem;
          tb ← fill_bucket tb d curelem key;
          Ok (Some (tb, curelem, false))
        end
      else
        let curelem := SH_NEXT tb curelem in
        let insertdist := insertdist + 1 in
        if (SH_GROW_MAX_DIB <? insertdist) && SH_GROW_MIN_FILLFACTOR (sh_members tb) (sh_size tb) then Ok None
        else insert_loop fuel tb key curelem insertdist
  end.

(** Every restart grows the table first, so there are at most as many as doublings. *)
Fixpoint insert_restart (fuel : nat) (tb : table) (key : K) (hash : Z) : res (table * Z * bool) :=
  match fuel with
  | O => OutOfFuel
  | S fuel =>
    tb ← (if grow_threshold tb <=? sh_members tb then
            if sh_size tb =? SH_MAX_SIZE then Err "hash table size exceeded" else SH_GROW tb (sh_size tb * 2)
          else Ok tb);
    r ← insert_loop (length (data tb)) tb key (SH_INITIAL_BUCKET tb hash) 0;
    match r with
    | None => insert_restart fuel (set_threshold tb 0) key hash
    | Some r => Ok r
    end
  end.
Definition SH_INSERT_HASH_INTERNAL (tb : table) (key : K) (hash : Z) : res (table * Z * bool) := insert_restart 34 tb key hash.
Definition SH_INSERT (tb : table) (key : K) : res (table * Z * bool) := SH_INSERT_HASH_INTERNAL tb key (SH_HASH_KEY key).
Definition SH_INSERT_HASH (tb : table) (key : K) (hash : Z) : res (table * Z * bool) := SH_INSERT_HASH_INTERNAL tb key hash.

(** ** Lookup and deletion *)
Fixpoint lookup_loop (fuel : nat) (tb : table) (key : K) (curelem : Z) : res (option Z) :=
  match fuel with
  | O => OutOfFuel
  | S fuel =>
    entry ← aget (data tb) curelem;
    if bool_decide (sh_status entry = SH_STATUS_EMPTY) then Ok None
    else if bool_decide (SH_KEY entry = key) then Ok (Some curelem)
    else lookup_loop fuel tb key (SH_NEXT tb curelem)
  end.
Definition SH_LOOKUP_HASH_INTERNAL (tb : table) (key : K) (hash : Z) : res (option Z) := lookup_loop (length (data tb)) tb key (SH_INITIAL_BUCKET tb hash).
Definition SH_LOOKUP (tb : table) (key : K) : res (option Z) := SH_LOOKUP_HASH_INTERNAL tb key (SH_HASH_KEY key).
Definition SH_LOOKUP_HASH (tb : table) (key : K) (hash : Z) : res (option Z) := SH_LOOKUP_HASH_INTERNAL tb key hash.

(** Shift the elements after [lastentry] back by one. *)
Fixpoint delete_shift (fuel : nat) (tb : table) (d : list elem) (curelem lastentry : Z) : res (list elem) :=
  match fuel with
  | O => OutOfFuel
  | S fuel =>
    let curelem := SH_NEXT tb curelem in
    curentry ← aget d curelem;
    if negb (bool_decide (sh_status curentry = SH_STATUS_IN_USE)) || (SH_INITIAL_BUCKET tb (SH_ENTRY_HASH curentry) =? curelem) then
      last ← aget d lastentry;
      aset d lastentry (mkElem SH_STATUS_EMPTY (SH_KEY last) (sh_val last))
    else
      d ← aset d lastentry curentry;
      delete_shift fuel tb d curelem curelem
  end.

Fixpoint delete_loop (fuel : nat) (tb : table) (key : K) (curelem : Z) : res (table * bool) :=
  match fuel with
  | O => OutOfFuel
  | S fuel =>
    entry ← aget (data tb) curelem;
    if bool_decide (sh_status entry = SH_STATUS_EMPTY) then Ok (tb, false)
    else if bool_decide (sh_status entry = SH_STATUS_IN_USE) && bool_decide (SH_KEY entry = key) then
      d ← delete_shift (length (data tb)) tb (data tb) curelem curelem;
      Ok (set_members (set_data tb d) (wrapu 32 (sh_members tb - 1)), true)
    else delete_loop fuel tb key (SH_NEXT tb curelem)
  end.
Definition SH_DELETE (tb : table) (key : K) : res (table * bool) := delete_loop (length (data tb)) tb key (SH_INITIAL_BUCKET tb (SH_HASH_KEY key)).
Definition SH_DELETE_ITEM (tb : table) (entry : Z) : res table :=
  d ← delete_shift (length (data tb)) tb (data tb) entry entry;
  Ok (set_members (set_data tb d) (wrapu 32 (sh_members tb - 1))).

(** ** Iteration *)
(** The first bucket not in use; [PG_UINT64_MAX] if none. *)
Fixpoint first_empty (d : list elem) (i : Z) : Z :=
  match d with
  | [] => 2 ^ 64 - 1
  | entry :: d => if negb (bool_decide (sh_status entry = SH_STATUS_IN_USE)) then i else first_empty d (i + 1)
  end.
Definition SH_START_ITERATE (tb : table) : SH_ITERATOR :=
  let cur := wrapu 32 (first_empty (data tb) 0) in mkIter cur cur false.
Definition SH_START_ITERATE_AT (tb : table) (at_ : Z) : SH_ITERATOR :=
  let cur := Z.land at_ (sizemask tb) in mkIter cur cur false.

Fixpoint iterate_loop (fuel : nat) (tb : table) (iter : SH_ITERATOR) : res (SH_ITERATOR * option Z) :=
  match fuel with
  | O => OutOfFuel
  | S fuel =>
    if it_done iter then Ok (iter, None)
    else
      let elem := it_cur iter in
      entry ← aget (data tb) elem;
      let cur := Z.land (wrapu 32 (it_cur iter - 1)) (sizemask tb) in
      let done := it_done iter || (Z.land cur (sizemask tb) =? Z.land (it_end iter) (sizemask tb)) in
      let iter := mkIter cur (it_end iter) done in
      if bool_decide (sh_status entry = SH_STATUS_IN_USE) then Ok (iter, Some elem) else iterate_loop fuel tb iter
  end.
Definition SH_ITERATE (tb : table) (iter : SH_ITERATOR) : res (SH_ITERATOR * option Z) := iterate_loop (S (length (data tb))) tb iter.

(** The caller reads and writes the contents of an element through the pointer it was given. *)
Definition elem_get (tb : table) (p : Z) : res elem := aget (data tb) p.
Definition elem_put (tb : table) (p : Z) (v : V) : res table :=
  entry ← aget (data tb) p;
  d ← aset (data tb) p (mkElem (sh_status entry) (SH_KEY entry) v);
  Ok (set_data tb d).
End Table.
