(* ===== verification/SimpleHashInv.v ===== *)
(** The invariant of the hash tables of [lib/simplehash.h].

    Buckets are addressed by all integers, modulo the size.  With the distance of the element in
    a bucket from its optimal bucket plus one as [dd], and 0 for an empty bucket, the order that
    the displacement rule of insertion maintains is local: from one bucket to the next [dd] grows
    by at most one. *)
From S2P Require Import Prelude ByteMem Bits SimpleHash.

(** The least index with a decidable property. *)
Lemma least_hit (P : Z -> Prop) `{forall x, Decision (P x)} m : 0 <= m -> P m -> exists k, 0 <= k <= m /\ P k /\ forall j, 0 <= j < k -> ~ P j.
Proof.
  revert m. refine (Zlt_0_ind _ _). intros m IH Hm HP.
  destruct (decide (Exists P (seqZ 0 m))) as [He|He].
  - apply Exists_exists in He as (x & Hx & HPx). apply elem_of_seqZ in Hx. destruct (IH x ltac:(lia) HPx) as (k & Hk & ? & ?). exists k. split_and!; [lia|lia|done|done].
  - exists m. split_and!; [lia|lia|done|]. intros j Hj HPj. apply He, Exists_exists. exists j. split; [|done]. apply elem_of_seqZ. lia.
Qed.

Lemma mod_shift n a b : 0 < n -> a `mod` n = b `mod` n <-> exists q, a = b + q * n.
Proof.
  intros Hn. split.
  - intros E. exists (a / n - b / n). pose proof (Z.div_mod a n ltac:(lia)). pose proof (Z.div_mod b n ltac:(lia)). nia.
  - intros [q ->]. apply Z.mod_add. lia.
Qed.

(** Two buckets less than a round apart are different. *)
Lemma mod_near n a b : 0 < n -> - n < a - b < n -> a `mod` n = b `mod` n -> a = b.
Proof. intros Hn Hab E. apply mod_shift in E as [q Hq]; [|done]. assert (q = 0) by nia. lia. Qed.

Section Inv.
Context {K V : Type} `{EqDecision K} `{!Countable K} (K0 : K) (V0 : V) (hash : K -> Z).
Notation elem := (SH_ELEMENT_TYPE K V).
Implicit Types (d : list elem) (e : elem).

Definition used e : Prop := sh_status e = SH_STATUS_IN_USE.
#[export] Instance used_dec e : Decision (used e).
Proof. unfold used. apply _. Defined.
#[global] Typeclasses Opaque used.
Definition slot d (u : Z) : elem := nth (Z.to_nat (u `mod` lenZ d)) d (zero_element K0 V0).
Definition dist d (u : Z) : Z := (u - hash (SH_KEY (slot d u))) `mod` lenZ d.
Definition dd d (u : Z) : Z := if decide (used (slot d u)) then dist d u + 1 else 0.

Definition ordered d : Prop := forall u, dd d u <= dd d (u - 1) + 1.
Definition unique d : Prop := forall u w, used (slot d u) -> used (slot d w) -> SH_KEY (slot d u) = SH_KEY (slot d w) -> u `mod` lenZ d = w `mod` lenZ d.
Definition contents d : gmap K V := list_to_map ((fun e => (SH_KEY e, sh_val e)) <$> filter used d).

Lemma slot_lookup d u : 0 < lenZ d -> d !! Z.to_nat (u `mod` lenZ d) = Some (slot d u).
Proof.
  intros Hn. pose proof (Z.mod_pos_bound u (lenZ d) Hn). destruct (lookup_lt_is_Some_2 d (Z.to_nat (u `mod` lenZ d))) as [x Hx]; [unfold lenZ in *; lia|].
  unfold slot. by rewrite nth_lookup, Hx.
Qed.
Lemma slot_get d u : 0 < lenZ d -> aget d (u `mod` lenZ d) = Ok (slot d u).
Proof. intros Hn. apply aget_Ok. split; [apply Z.mod_pos_bound; lia|by apply slot_lookup]. Qed.

Lemma slot_mod d u w : u `mod` lenZ d = w `mod` lenZ d -> slot d u = slot d w.
Proof. unfold slot. by intros ->. Qed.
Lemma slot_round d u q : 0 < lenZ d -> slot d (u + q * lenZ d) = slot d u.
Proof. intros Hn. apply slot_mod. apply Z.mod_add. lia. Qed.

Definition update d (u : Z) e : list elem := <[Z.to_nat (u `mod` lenZ d) := e]> d.
Lemma update_len d u e : lenZ (update d u e) = lenZ d.
Proof. unfold lenZ, update. by rewrite length_insert. Qed.
Lemma update_set d u e : 0 < lenZ d -> aset d (u `mod` lenZ d) e = Ok (update d u e).
Proof. intros Hn. pose proof (Z.mod_pos_bound u (lenZ d) Hn). apply aset_Ok. unfold lenZ in *. lia. Qed.
Lemma update_slot d u e w : 0 < lenZ d -> slot (update d u e) w = if decide (w `mod` lenZ d = u `mod` lenZ d) then e else slot d w.
Proof.
  intros Hn. pose proof (Z.mod_pos_bound u (lenZ d) Hn). pose proof (Z.mod_pos_bound w (lenZ d) Hn). unfold slot. rewrite update_len. unfold update. rewrite !nth_lookup. case_decide as E.
  - rewrite E, list_lookup_insert_eq by (unfold lenZ in *; lia). done.
  - rewrite list_lookup_insert_ne by lia. done.
Qed.

Lemma elem_slot d e : 0 < lenZ d -> e ∈ d <-> exists u, slot d u = e.
Proof.
  intros Hn. split.
  - intros [i Hi]%list_elem_of_lookup. exists (Z.of_nat i). pose proof (lookup_lt_Some _ _ _ Hi). unfold slot. rewrite Z.mod_small by (unfold lenZ; lia). by rewrite Nat2Z.id, nth_lookup, Hi.
  - intros [u <-]. eapply list_elem_of_lookup_2. by apply slot_lookup.
Qed.

Lemma unique_nodup d : 0 < lenZ d -> unique d -> NoDup ((fun e => (SH_KEY e, sh_val e)) <$> filter used d).*1.
Proof.
  intros Hn Hu. rewrite <- list_fmap_compose. cbn.
  assert (Hu' : forall i j e e', d !! i = Some e -> d !! j = Some e' -> used e -> used e' -> SH_KEY e = SH_KEY e' -> i = j).
  { intros i j e e' Hi Hj He He' Hk. pose proof (lookup_lt_Some _ _ _ Hi). pose proof (lookup_lt_Some _ _ _ Hj).
    assert (Hs : forall i e, d !! i = Some e -> slot d (Z.of_nat i) = e /\ Z.of_nat i `mod` lenZ d = Z.of_nat i).
    { intros i' e'' Hi'. pose proof (lookup_lt_Some _ _ _ Hi'). unfold slot. rewrite Z.mod_small by (unfold lenZ; lia). split; [|done]. by rewrite Nat2Z.id, nth_lookup, Hi'. }
    destruct (Hs _ _ Hi) as [Si Mi], (Hs _ _ Hj) as [Sj Mj]. specialize (Hu (Z.of_nat i) (Z.of_nat j)). rewrite Si, Sj, Mi, Mj in Hu. specialize (Hu He He' Hk). lia. }
  clear -Hu'. induction d as [|e d IH]; [constructor|].
  assert (IH' : NoDup ((λ x : elem, SH_KEY x) <$> filter used d)).
  { apply IH. intros i j e1 e2 Hi Hj. intros. assert (S i = S j); [|lia]. by eapply (Hu' (S i) (S j)). }
  rewrite filter_cons. case_decide as He; [|done]. rewrite fmap_cons. constructor; [|done]. intros (e' & Hk & Hin)%list_elem_of_fmap. apply list_elem_of_filter in Hin as [He' Hin].
  apply list_elem_of_lookup in Hin as [j Hj]. by assert (0%nat = S j) by by eapply (Hu' 0%nat (S j)).
Qed.

Lemma contents_lookup d k v : 0 < lenZ d -> unique d -> contents d !! k = Some v <-> exists u, used (slot d u) /\ SH_KEY (slot d u) = k /\ sh_val (slot d u) = v.
Proof.
  intros Hn Hu. unfold contents. rewrite <- elem_of_list_to_map by by apply unique_nodup. rewrite list_elem_of_fmap. split.
  - intros (e & He & Hin). apply list_elem_of_filter in Hin as [Hused Hin]. apply elem_slot in Hin as [u <-]; [|done]. exists u. injection He as -> ->. done.
  - intros (u & Hused & <- & <-). exists (slot d u). split; [done|]. apply list_elem_of_filter. split; [done|]. apply elem_slot; [done|]. by exists u.
Qed.

Lemma contents_none d k : 0 < lenZ d -> unique d -> contents d !! k = None <-> forall u, used (slot d u) -> SH_KEY (slot d u) <> k.
Proof.
  intros Hn Hu. rewrite eq_None_not_Some. split.
  - intros Hno u Hused Hk. apply Hno. exists (sh_val (slot d u)). apply contents_lookup; [done|done|]. by exists u.
  - intros Hno [v Hv]. apply contents_lookup in Hv as (u & Hused & Hk & _); [|done|done]. by eapply Hno.
Qed.

(** Equal contents, whatever the buckets. *)
Lemma contents_size d : 0 < lenZ d -> unique d -> size (contents d) = length (filter used d).
Proof. intros Hn Hu. unfold contents. rewrite map_size_list_to_map by by apply unique_nodup. by rewrite length_fmap. Qed.

Lemma some_empty d : 0 < lenZ d -> unique d -> Z.of_nat (size (contents d)) < lenZ d -> exists u, ~ used (slot d u).
Proof.
  intros Hn Hu Hs. rewrite contents_size in Hs by done. destruct (decide (Forall used d)) as [Hall|Hno].
  - exfalso. assert (filter used d = d) as Ef by (clear -Hall; induction Hall; [done|]; rewrite filter_cons_True by done; by f_equal). rewrite Ef in Hs. unfold lenZ in Hs. lia.
  - apply not_Forall_Exists in Hno; [|apply _]. apply Exists_exists in Hno as (e & Hin & He). apply elem_slot in Hin as [u <-]; [|done]. by exists u.
Qed.

(** ** The order *)
Lemma dist_range d u : 0 < lenZ d -> 0 <= dist d u < lenZ d.
Proof. intros Hn. apply Z.mod_pos_bound. lia. Qed.
Lemma dd_range d u : 0 < lenZ d -> 0 <= dd d u <= lenZ d.
Proof. intros Hn. unfold dd. pose proof (dist_range d u Hn). case_decide; lia. Qed.

Lemma dd_back d u j : ordered d -> 0 <= j -> dd d u - j <= dd d (u - j).
Proof.
  intros Ho. revert j. apply (natlike_ind _); [rewrite !Z.sub_0_r; lia|]. intros j Hj IH. pose proof (Ho (u - j)) as Hl. replace (u - Z.succ j) with (u - j - 1) by lia. lia.
Qed.

(** The buckets from the optimal one of a key to its element are in use, and no nearer to
    their own optimal buckets. *)
Lemma probe_path d u j : 0 < lenZ d -> ordered d -> used (slot d u) -> 0 <= j <= dist d u -> used (slot d (u - dist d u + j)) /\ j <= dist d (u - dist d u + j).
Proof.
  intros Hn Ho Hu Hj. pose proof (dd_back d u (dist d u - j) Ho ltac:(lia)) as Hb. replace (u - (dist d u - j)) with (u - dist d u + j) in Hb by lia.
  unfold dd in Hb. rewrite (decide_True _ _ Hu) in Hb. destruct (decide (used (slot d (u - dist d u + j)))) as [Hu'|Hu']; [|lia]. split; [done|lia].
Qed.

Lemma home_mod d u : 0 < lenZ d -> (u - dist d u) `mod` lenZ d = hash (SH_KEY (slot d u)) `mod` lenZ d.
Proof. intros Hn. unfold dist. rewrite Zminus_mod_idemp_r. f_equal. lia. Qed.

(** No element is a whole round from its optimal bucket while a bucket is empty. *)
Lemma dist_bound d u w : 0 < lenZ d -> ordered d -> used (slot d u) -> ~ used (slot d w) -> dist d u < lenZ d - 1.
Proof.
  intros Hn Ho Hu Hw. pose proof (dist_range d u Hn) as Hr. destruct (decide (dist d u = lenZ d - 1)) as [E|]; [|lia]. exfalso. apply Hw.
  pose proof (Z.mod_pos_bound (w - (u - dist d u)) (lenZ d) Hn) as Hj. destruct (probe_path d u ((w - (u - dist d u)) `mod` lenZ d) Hn Ho Hu) as [Hp _]; [lia|].
  erewrite slot_mod; [exact Hp|]. rewrite Zplus_mod_idemp_r. f_equal. lia.
Qed.
End Inv.
