(* ===== verification/SimpleHashOps.v ===== *)
(** The operations of the hash tables of [lib/simplehash.h] in terms of the finite map of their
    contents: lookup, deletion, insertion and the access to elements. *)
From S2P Require Import Prelude ByteMem Bits SimpleHash SimpleHashInv.

Section Ops.
Context {K V : Type} `{EqDecision K} `{!Countable K} (K0 : K) (V0 : V) (sizeof_element : Z) (hash : K -> Z).
Notation elem := (SH_ELEMENT_TYPE K V).
Notation table := (SH_TYPE K V).
Notation slot := (slot K0 V0).
Notation dist := (dist K0 V0 hash).
Notation dd := (dd K0 V0 hash).
Implicit Types (tb : table) (d : list elem) (e : elem).

Record shape tb : Prop := {
  sp_pow : exists k, 1 <= k <= 32 /\ sh_size tb = 2 ^ k;
  sp_len : lenZ (data tb) = sh_size tb;
  sp_mask : sizemask tb = sh_size tb - 1 }.

(** Below this number of members a table never fails to grow: at the largest size it is less
    than [SH_GROW_MIN_FILLFACTOR] full. *)
Definition member_limit : Z := 429496729.

Record table_ok tb : Prop := {
  ok_shape : shape tb;
  ok_members : sh_members tb = Z.of_nat (size (contents (data tb)));
  ok_room : sh_members tb < sh_size tb;
  ok_threshold : grow_threshold tb < sh_size tb;
  ok_max : sh_size tb = SH_MAX_SIZE -> member_limit < grow_threshold tb;
  ok_ordered : ordered K0 V0 hash (data tb);
  ok_unique : unique K0 V0 (data tb) }.

Lemma size_bounds tb : shape tb -> 2 <= sh_size tb <= 2 ^ 32.
Proof.
  intros [(k & Hk & ->) _ _]. split; [change 2 with (2 ^ 1) at 1|]; apply Z.pow_le_mono_r; lia.
Qed.
Lemma len_pos tb : shape tb -> 0 < lenZ (data tb).
Proof. intros Hs. rewrite (sp_len _ Hs). pose proof (size_bounds _ Hs). lia. Qed.

Lemma mask_mod tb x : shape tb -> Z.land x (sizemask tb) = x `mod` sh_size tb.
Proof. intros Hs. rewrite (sp_mask _ Hs). destruct (sp_pow _ Hs) as (k & Hk & ->). replace (2 ^ k - 1) with (Z.ones k) by (rewrite Z.ones_equiv; lia). apply Z.land_ones. lia. Qed.

Lemma mask_wrap tb x : shape tb -> Z.land (wrapu 32 x) (sizemask tb) = x `mod` sh_size tb.
Proof.
  intros Hs. rewrite mask_mod by done. destruct (sp_pow _ Hs) as (k & Hk & ->). unfold wrapu. apply mod_shift; [by apply Z.pow_pos_nonneg; lia|].
  exists (- (x / 2 ^ 32) * 2 ^ (32 - k)). rewrite <- Z.mul_assoc, <- Z.pow_add_r by lia. replace (32 - k + k) with 32 by lia. pose proof (Z.div_mod x (2 ^ 32) ltac:(lia)). lia.
Qed.

Lemma next_ok tb u : shape tb -> SH_NEXT tb (u `mod` sh_size tb) = (u + 1) `mod` sh_size tb.
Proof. intros Hs. unfold SH_NEXT. rewrite mask_wrap by done. by rewrite Zplus_mod_idemp_l. Qed.
Lemma prev_ok tb u : shape tb -> SH_PREV tb (u `mod` sh_size tb) = (u - 1) `mod` sh_size tb.
Proof. intros Hs. unfold SH_PREV. rewrite mask_wrap by done. by rewrite Zminus_mod_idemp_l. Qed.
Lemma bucket_ok tb h : shape tb -> SH_INITIAL_BUCKET tb h = h `mod` sh_size tb.
Proof. apply mask_mod. Qed.

Lemma distance_ok tb h u : shape tb -> SH_DISTANCE_FROM_OPTIMAL tb (h `mod` sh_size tb) (u `mod` sh_size tb) = (u - h) `mod` sh_size tb.
Proof.
  intros Hs. pose proof (size_bounds _ Hs) as Hb. unfold SH_DISTANCE_FROM_OPTIMAL. pose proof (Z.mod_pos_bound h (sh_size tb) ltac:(lia)). pose proof (Z.mod_pos_bound u (sh_size tb) ltac:(lia)).
  rewrite Zminus_mod. set (a := h `mod` sh_size tb) in *. set (b := u `mod` sh_size tb) in *. zcase; [by rewrite Z.mod_small by lia|]. rewrite wrapu_small by (unfold is_u; lia). rewrite <- (Z.mod_add (b - a) 1) by lia. rewrite Z.mod_small by lia. lia.
Qed.

Lemma get_ok tb u : shape tb -> aget (data tb) (u `mod` sh_size tb) = Ok (slot (data tb) u).
Proof. intros Hs. rewrite <- (sp_len _ Hs). apply slot_get. by apply len_pos. Qed.

Lemma not_used e : ~ used e -> sh_status e = SH_STATUS_EMPTY.
Proof. unfold used. by destruct (sh_status e). Qed.
Lemma empty_dec e : bool_decide (sh_status e = SH_STATUS_EMPTY) = negb (bool_decide (used e)).
Proof. case_bool_decide as Hs; case_bool_decide as Hu; unfold used in Hu; [congruence|done|done|by destruct (sh_status e)]. Qed.

(** Where the probe of a key passes. *)
Lemma key_path d u k i : 0 < lenZ d -> ordered K0 V0 hash d -> used (slot d u) -> SH_KEY (slot d u) = k -> 0 <= i <= dist d u ->
  used (slot d (hash k + i)) /\ i <= dist d (hash k + i) /\ slot d (hash k + dist d u) = slot d u.
Proof.
  intros Hn Ho Hu Hk Hi. pose proof (home_mod K0 V0 hash d u Hn) as Hm. rewrite Hk in Hm. destruct (probe_path K0 V0 hash d u i Hn Ho Hu Hi) as [Hp1 Hp2].
  assert (Hs : forall j, slot d (hash k + j) = slot d (u - dist d u + j)) by (intros j; apply slot_mod; rewrite <- (Zplus_mod_idemp_l (hash k)), <- Hm, Zplus_mod_idemp_l; done).
  rewrite Hs. split_and!; [done| |rewrite Hs; f_equal; lia]. unfold SimpleHashInv.dist in Hp2 |- *. rewrite Hs. erewrite <- Zminus_mod_idemp_l in Hp2 |- *. rewrite <- (Zplus_mod_idemp_l (hash k)), <- Hm, Zplus_mod_idemp_l. done.
Qed.

(** The probe of a key stops, at its element or at an empty bucket. *)
Lemma probe_stop tb k : table_ok tb -> exists j, 0 <= j < sh_size tb /\
  (forall i, 0 <= i < j -> used (slot (data tb) (hash k + i)) /\ SH_KEY (slot (data tb) (hash k + i)) <> k) /\
  (~ used (slot (data tb) (hash k + j)) /\ contents (data tb) !! k = None \/ used (slot (data tb) (hash k + j)) /\ SH_KEY (slot (data tb) (hash k + j)) = k).
Proof.
  intros Hok. pose proof (ok_shape _ Hok) as Hs. pose proof (len_pos _ Hs) as Hn. set (d := data tb) in *. rewrite <- (sp_len _ Hs). fold d.
  destruct (some_empty K0 V0 d Hn (ok_unique _ Hok)) as [w Hw]; [unfold d; rewrite <- (ok_members _ Hok), (sp_len _ Hs); apply Hok|].
  set (P := fun j => ~ (used (slot d (hash k + j)) /\ SH_KEY (slot d (hash k + j)) <> k)).
  pose proof (Z.mod_pos_bound (w - hash k) (lenZ d) Hn) as Hwr. destruct (least_hit P ((w - hash k) `mod` lenZ d)) as (j & Hj & HP & Hmin); [lia| |].
  { intros [Hu _]. apply Hw. erewrite slot_mod; [exact Hu|]. rewrite Zplus_mod_idemp_r. f_equal. lia. }
  assert (Hpre : forall i, 0 <= i < j -> used (slot d (hash k + i)) /\ SH_KEY (slot d (hash k + i)) <> k).
  { intros i Hi. specialize (Hmin i Hi). unfold P in Hmin. destruct (decide (used (slot d (hash k + i)) /\ SH_KEY (slot d (hash k + i)) <> k)); [done|]. by destruct Hmin. }
  exists j. split; [lia|]. split; [done|]. destruct (decide (used (slot d (hash k + j)))) as [Hu|Hu].
  - right. split; [done|]. destruct (decide (SH_KEY (slot d (hash k + j)) = k)); [done|]. by destruct HP.
  - left. split; [done|]. apply (contents_none K0 V0); [done|apply Hok|]. intros u Hused Hk. pose proof (dist_range K0 V0 hash d u Hn). destruct (decide (j <= dist d u)).
    + destruct (key_path d u k j Hn (ok_ordered _ Hok) Hused Hk) as [Hu' _]; [lia|]. done.
    + destruct (key_path d u k 0 Hn (ok_ordered _ Hok) Hused Hk) as (_ & _ & Hsu); [lia|]. destruct (Hpre (dist d u)) as [_ Hne]; [lia|]. rewrite Hsu in Hne. done.
Qed.

(** ** Lookup *)
Lemma lookup_loop_ok tb k j i : shape tb -> 0 <= i <= j -> (forall i', i <= i' < j -> used (slot (data tb) (hash k + i')) /\ SH_KEY (slot (data tb) (hash k + i')) <> k) ->
  (used (slot (data tb) (hash k + j)) -> SH_KEY (slot (data tb) (hash k + j)) = k) ->
  forall fuel, j - i < Z.of_nat fuel ->
  lookup_loop fuel tb k ((hash k + i) `mod` sh_size tb) = Ok (if decide (used (slot (data tb) (hash k + j))) then Some ((hash k + j) `mod` sh_size tb) else None).
Proof.
  intros Hs Hij Hpre Hstop. remember (Z.to_nat (j - i)) as m eqn:Hm. revert i Hij Hpre Hm. induction m as [|m IH]; intros i Hij Hpre Hm [|fuel] Hf; try lia; cbn [lookup_loop]; rewrite get_ok, bind_val, empty_dec by done.
  - assert (i = j) as -> by lia. case_decide as Hu; [rewrite bool_decide_true by done; cbn; by rewrite bool_decide_true by auto|by rewrite bool_decide_false by done].
  - destruct (Hpre i ltac:(lia)) as [Hu Hk]. rewrite bool_decide_true, bool_decide_false by done. cbn [negb]. rewrite next_ok by done. rewrite <- Z.add_assoc. apply IH; [lia|intros; apply Hpre; lia|lia|lia].
Qed.

Lemma lookup_spec tb k : table_ok tb -> exists r, SH_LOOKUP hash tb k = Ok r /\
  match r with
  | None => contents (data tb) !! k = None
  | Some p => 0 <= p < sh_size tb /\ used (slot (data tb) p) /\ SH_KEY (slot (data tb) p) = k
  end.
Proof.
  intros Hok. pose proof (ok_shape _ Hok) as Hs. destruct (probe_stop tb k Hok) as (j & Hj & Hpre & Hend). unfold SH_LOOKUP, SH_LOOKUP_HASH_INTERNAL. rewrite bucket_ok by done.
  pose proof (lookup_loop_ok tb k j 0 Hs ltac:(lia) Hpre ltac:(by destruct Hend as [[? _]|[_ ?]]) (length (data tb)) ltac:(rewrite <- (sp_len _ Hs) in Hj; unfold lenZ in Hj; lia)) as Hrun.
  rewrite Z.add_0_r in Hrun. rewrite Hrun. eexists. split; [done|]. destruct Hend as [[Hu Hc]|[Hu Hk]]; [by rewrite decide_False by done|]. rewrite decide_True by done. pose proof (size_bounds _ Hs).
  rewrite <- (sp_len _ Hs). rewrite (slot_mod K0 V0 _ _ (hash k + j)) by (apply Z.mod_mod; rewrite (sp_len _ Hs); lia). split_and!; [apply Z.mod_pos_bound; rewrite (sp_len _ Hs); lia..|done|done].
Qed.
(** ** Buckets as offsets from a given one *)
Lemma slot_off d c u : 0 < lenZ d -> slot d u = slot d (c + (u - c) `mod` lenZ d).
Proof. intros Hn. apply slot_mod. rewrite Zplus_mod_idemp_r. f_equal. lia. Qed.
Lemma dd_mod d u w : u `mod` lenZ d = w `mod` lenZ d -> dd d u = dd d w.
Proof. intros E. unfold SimpleHashInv.dd, SimpleHashInv.dist. rewrite (slot_mod K0 V0 d u w E). by rewrite <- (Zminus_mod_idemp_l u), E, Zminus_mod_idemp_l. Qed.

(** The order need only be checked on one round. *)
Lemma ordered_round d c : 0 < lenZ d -> (forall j, 0 <= j < lenZ d -> dd d (c + j) <= dd d (c + (j - 1)) + 1) -> ordered K0 V0 hash d.
Proof.
  intros Hn H u. pose proof (Z.mod_pos_bound (u - c) (lenZ d) Hn) as Hj. specialize (H _ Hj). rewrite (dd_mod d u (c + (u - c) `mod` lenZ d)), (dd_mod d (u - 1) (c + ((u - c) `mod` lenZ d - 1))); [done| |].
  - replace (c + ((u - c) `mod` lenZ d - 1)) with (c - 1 + (u - c) `mod` lenZ d) by lia. rewrite Zplus_mod_idemp_r. f_equal. lia.
  - rewrite Zplus_mod_idemp_r. f_equal. lia.
Qed.

(** A rearrangement: every element of [d'] was at an offset of its own in [d]. *)
Lemma unique_moved d d' c (f : Z -> Z) : 0 < lenZ d -> lenZ d' = lenZ d -> unique K0 V0 d ->
  (forall j, 0 <= j < lenZ d -> used (slot d' (c + j)) -> 0 <= f j < lenZ d /\ slot d' (c + j) = slot d (c + f j)) ->
  (forall i j, 0 <= i < lenZ d -> 0 <= j < lenZ d -> used (slot d' (c + i)) -> used (slot d' (c + j)) -> f i = f j -> i = j) -> unique K0 V0 d'.
Proof.
  intros Hn Hl Hu Hf Hinj u w Hus Hws Hk. rewrite Hl. rewrite (slot_off d' c u), (slot_off d' c w) in * by lia. rewrite Hl in *.
  pose proof (Z.mod_pos_bound (u - c) (lenZ d) Hn) as Hj1. pose proof (Z.mod_pos_bound (w - c) (lenZ d) Hn) as Hj2. destruct (Hf _ Hj1 Hus) as [Hf1 E1]. destruct (Hf _ Hj2 Hws) as [Hf2 E2].
  specialize (Hinj _ _ Hj1 Hj2 Hus Hws). rewrite E1, E2 in *. pose proof (Hu _ _ Hus Hws Hk) as Hmod. apply mod_near in Hmod; [|done|lia]. specialize (Hinj ltac:(lia)).
  apply (f_equal (fun x => (c + x) `mod` lenZ d)) in Hinj. rewrite !Zplus_mod_idemp_r in Hinj. by replace (c + (u - c)) with u in Hinj by lia; replace (c + (w - c)) with w in Hinj by lia.
Qed.
(** ** Deletion *)
Definition emptied e : elem := mkElem SH_STATUS_EMPTY (SH_KEY e) (sh_val e).
(** The bucket holds an element away from its optimal bucket. *)
Definition away d (u : Z) : Prop := used (slot d u) /\ dist d u <> 0.
#[export] Instance away_dec d u : Decision (away d u).
Proof. unfold away. apply _. Defined.

Lemma set_ok d u e n : lenZ d = n -> 0 < n -> aset d (u `mod` n) e = Ok (update d u e).
Proof. intros <- Hn. by apply update_set. Qed.

Lemma at_home tb d u : shape tb -> lenZ d = sh_size tb -> (SH_INITIAL_BUCKET tb (hash (SH_KEY (slot d u))) =? u `mod` sh_size tb) = bool_decide (dist d u = 0).
Proof.
  intros Hs Hl. pose proof (size_bounds _ Hs). rewrite bucket_ok by done. unfold SimpleHashInv.dist. rewrite Hl. apply eq_true_iff_eq. rewrite Z.eqb_eq, bool_decide_eq_true. split.
  - intros E. rewrite Zminus_mod, E, Z.sub_diag. done.
  - intros E. apply Z.mod_divide in E as [q Hq]; [|lia]. apply mod_shift; [lia|]. exists (- q). lia.
Qed.

(** The slots [c + j] for [j] positive are untouched by an update of [c]. *)
Lemma update_ne d c e n j : lenZ d = n -> 0 < j < n -> slot (update d c e) (c + j) = slot d (c + j).
Proof. intros <- Hj. rewrite update_slot by lia. rewrite decide_False; [done|]. intros E. apply mod_near in E; lia. Qed.
Lemma update_eq d c e n q : lenZ d = n -> 0 < n -> slot (update d c e) (c + q * n) = e.
Proof. intros <- Hn. rewrite update_slot by lia. rewrite decide_True; [done|]. apply Z.mod_add. lia. Qed.

Lemma delete_shift_ok tb m : shape tb -> forall fuel d c, lenZ d = sh_size tb -> 1 <= m < sh_size tb -> m <= Z.of_nat fuel ->
  (forall j, 0 < j < m -> away d (c + j)) -> ~ away d (c + m) ->
  exists d', delete_shift hash fuel tb d (c `mod` sh_size tb) (c `mod` sh_size tb) = Ok d' /\ lenZ d' = lenZ d /\
    forall j, 0 <= j < sh_size tb -> slot d' (c + j) = if decide (j < m - 1) then slot d (c + j + 1) else if decide (j = m - 1) then emptied (slot d (c + j)) else slot d (c + j).
Proof.
  intros Hs fuel. revert m. induction fuel as [|fuel IH]; intros m d c Hl Hm Hf Haway Hstop; [lia|]. cbn [delete_shift]. cbv zeta. rewrite next_ok by done. pose proof (size_bounds _ Hs) as Hsz.
  assert (Hg : forall u, aget d (u `mod` sh_size tb) = Ok (slot d u)) by (intros u; rewrite <- Hl; apply slot_get; lia). rewrite (Hg (c + 1)), bind_val.
  assert (Hrun : (negb (bool_decide (sh_status (slot d (c + 1)) = SH_STATUS_IN_USE)) || (SH_INITIAL_BUCKET tb (SH_ENTRY_HASH hash (slot d (c + 1))) =? (c + 1) `mod` sh_size tb)) = negb (bool_decide (away d (c + 1)))).
  { unfold SH_ENTRY_HASH. rewrite at_home by done. unfold away, used. do 3 case_bool_decide; naive_solver. }
  rewrite Hrun. clear Hrun. destruct (decide (m = 1)) as [->|Hm1].
  - rewrite bool_decide_false by done. cbn [negb]. rewrite Hg, bind_val, (set_ok d c _ (sh_size tb)) by (done || lia). eexists. split; [done|]. split; [apply update_len|]. intros j Hj. destruct (decide (j = 0)) as [->|Hj0].
    + rewrite decide_False, decide_True by lia. change (c + 0) with (c + 0 * sh_size tb) at 1. rewrite update_eq by (done || lia). unfold emptied. by rewrite Z.add_0_r.
    + rewrite (update_ne d c _ (sh_size tb)) by (done || lia). by rewrite !decide_False by lia.
  - rewrite bool_decide_true by (apply Haway; lia). cbn [negb]. rewrite (set_ok d c _ (sh_size tb)), bind_val by (done || lia). set (d1 := update d c (slot d (c + 1))).
    assert (Hl1 : lenZ d1 = sh_size tb) by (unfold d1; rewrite update_len; done).
    assert (Hs1 : forall j, 0 < j < sh_size tb -> slot d1 (c + j) = slot d (c + j)) by (intros j Hj; by apply (update_ne d c _ (sh_size tb))).
    assert (Ha1 : forall j, 0 < j < sh_size tb -> away d1 (c + j) <-> away d (c + j)) by (intros j Hj; unfold away, SimpleHashInv.dist; rewrite Hs1, Hl1, Hl by lia; done).
    destruct (IH (m - 1) d1 (c + 1) Hl1) as (d' & Hrun & Hl' & Hslots); [lia|lia| | |].
    + intros j Hj. rewrite <- Z.add_assoc. apply Ha1; [lia|]. apply Haway. lia.
    + rewrite <- Z.add_assoc. rewrite Ha1 by lia. by replace (1 + (m - 1)) with m by lia.
    + exists d'. split; [done|]. split; [lia|]. intros j Hj. destruct (decide (j = 0)) as [->|Hj0].
      * rewrite decide_True by lia. rewrite Z.add_0_r. rewrite <- (slot_round K0 V0 d' c 1) by lia. rewrite Hl', Hl1. replace (c + 1 * sh_size tb) with (c + 1 + (sh_size tb - 1)) by lia.
        rewrite Hslots by lia. rewrite !decide_False by lia. replace (c + 1 + (sh_size tb - 1)) with (c + 1 * sh_size tb) by lia. by apply update_eq; [|lia].
      * replace (c + j) with (c + 1 + (j - 1)) by lia. rewrite Hslots by lia. replace (c + 1 + (j - 1)) with (c + j) by lia. rewrite (Hs1 j) by lia.
        destruct (decide (j < m - 1)); [rewrite decide_True by lia; rewrite <- Z.add_assoc; rewrite Hs1 by lia; done|]. rewrite decide_False by lia.
        destruct (decide (j = m - 1)); [by rewrite decide_True by lia|by rewrite decide_False by lia].
Qed.

(** What the backward shift leaves: [m] buckets from [c] on were shifted. *)
Record shifted_back d (c m : Z) d' : Prop := {
  sb_len : lenZ d' = lenZ d;
  sb_m : 1 <= m < lenZ d;
  sb_away : forall j, 0 < j < m -> away d (c + j);
  sb_stop : ~ away d (c + m);
  sb_slots : forall j, 0 <= j < lenZ d -> slot d' (c + j) = if decide (j < m - 1) then slot d (c + j + 1) else if decide (j = m - 1) then emptied (slot d (c + j)) else slot d (c + j) }.

Lemma emptied_unused e : ~ used (emptied e).
Proof. done. Qed.

(** Where an element of the result was before. *)
Lemma back_from d c m d' j : shifted_back d c m d' -> 0 <= j < lenZ d -> used (slot d' (c + j)) -> let i := if decide (j < m - 1) then j + 1 else j in
  0 < i < lenZ d /\ slot d' (c + j) = slot d (c + i).
Proof.
  intros Hb Hj Hu i. pose proof (sb_m _ _ _ _ Hb). pose proof (sb_slots _ _ _ _ Hb j Hj) as Hs. subst i. destruct (decide (j < m - 1)).
  - split; [lia|]. rewrite Hs. f_equal. lia.
  - destruct (decide (j = m - 1)); [rewrite Hs in Hu; by apply emptied_unused in Hu|]. split; [lia|done].
Qed.

Lemma back_dd d c m d' j : shifted_back d c m d' -> 0 <= j < lenZ d -> dd d' (c + j) = if decide (j < m - 1) then dd d (c + (j + 1)) - 1 else if decide (j = m - 1) then 0 else dd d (c + j).
Proof.
  intros Hb Hj. pose proof (sb_m _ _ _ _ Hb). pose proof (sb_slots _ _ _ _ Hb j Hj) as Hs. unfold SimpleHashInv.dd, SimpleHashInv.dist. rewrite Hs, (sb_len _ _ _ _ Hb). destruct (decide (j < m - 1)).
  - rewrite <- Z.add_assoc. destruct (sb_away _ _ _ _ Hb (j + 1) ltac:(lia)) as [Hu Hd]. rewrite decide_True by done. rewrite decide_True by done. unfold SimpleHashInv.dist in Hd.
    set (h := hash _) in *. pose proof (Z.mod_pos_bound (c + (j + 1) - h) (lenZ d) ltac:(lia)). replace (c + j - h) with ((c + (j + 1) - h) - 1) by lia. rewrite <- Zminus_mod_idemp_l. rewrite (Z.mod_small (_ - 1)) by lia. lia.
  - destruct (decide (j = m - 1)); [|done]. rewrite decide_False; [done|]. apply emptied_unused.
Qed.

Lemma back_ordered d c m d' : shifted_back d c m d' -> ordered K0 V0 hash d -> used (slot d c) -> ordered K0 V0 hash d'.
Proof.
  intros Hb Ho Hu. pose proof (sb_m _ _ _ _ Hb) as Hm. pose proof (sb_len _ _ _ _ Hb) as Hl. apply (ordered_round d' c); [lia|]. rewrite Hl. intros j Hj. rewrite (back_dd d c m d' j Hb Hj).
  assert (Hstop : dd d (c + m) <= 1). { pose proof (sb_stop _ _ _ _ Hb) as Hs. unfold away in Hs. unfold SimpleHashInv.dd. case_decide; [|lia]. destruct (decide (dist d (c + m) = 0)); [lia|]. by destruct Hs. }
  assert (Hprev : dd d (c + j) <= dd d (c + (j - 1)) + 1) by (replace (c + (j - 1)) with (c + j - 1) by lia; apply Ho). pose proof (Ho (c + (j + 1))) as Hnext. replace (c + (j + 1) - 1) with (c + j) in Hnext by lia.
  destruct (decide (j = 0)) as [->|Hj0].
  - assert (Hlast : dd d' (c + (0 - 1)) = dd d (c + (0 - 1))).
    { rewrite (dd_mod d' _ (c + (lenZ d - 1))), (dd_mod d _ (c + (lenZ d - 1))) by (rewrite ?Hl; replace (c + (lenZ d - 1)) with (c + (0 - 1) + 1 * lenZ d) by lia; rewrite Z.mod_add by lia; done).
      rewrite (back_dd d c m d' _ Hb) by lia. by rewrite !decide_False by lia. }
    rewrite Hlast. pose proof (dd_range K0 V0 hash d (c + (0 - 1)) ltac:(lia)). repeat case_decide; lia.
  - rewrite (back_dd d c m d' (j - 1) Hb) by lia. replace (j - 1 + 1) with j by lia. pose proof (dd_range K0 V0 hash d (c + j) ltac:(lia)). destruct (decide (j = m)) as [->|]; repeat case_decide; lia.
Qed.

Lemma back_unique d c m d' : shifted_back d c m d' -> unique K0 V0 d -> unique K0 V0 d'.
Proof.
  intros Hb Hu. pose proof (sb_m _ _ _ _ Hb) as Hm. pose proof (sb_len _ _ _ _ Hb) as Hl. apply (unique_moved d d' c (fun j => if decide (j < m - 1) then j + 1 else j)); [lia|done|done| |].
  - intros j Hj Hus. destruct (back_from d c m d' j Hb Hj Hus) as [Hi Hs]. split; [lia|done].
  - assert (Hno : forall j, 0 <= j < lenZ d -> used (slot d' (c + j)) -> j <> m - 1).
    { intros j Hj Huj ->. rewrite (sb_slots _ _ _ _ Hb), decide_False, decide_True in Huj by lia. by apply emptied_unused in Huj. }
    intros i j Hi Hj Hui Huj. specialize (Hno i Hi Hui) as Hi1. specialize (Hno j Hj Huj) as Hj1. repeat case_decide; lia.
Qed.

Lemma back_contents d c m d' : shifted_back d c m d' -> unique K0 V0 d -> used (slot d c) -> contents d' = delete (SH_KEY (slot d c)) (contents d).
Proof.
  intros Hb Hu Hc. pose proof (sb_m _ _ _ _ Hb) as Hm. pose proof (sb_len _ _ _ _ Hb) as Hl. pose proof (back_unique _ _ _ _ Hb Hu) as Hu'. apply map_eq. intros k. apply option_eq. intros v.
  rewrite (contents_lookup K0 V0) by (done || lia). rewrite lookup_delete_Some, (contents_lookup K0 V0) by (done || lia). split.
  - intros (u & Hus & Hk & Hv). rewrite (slot_off d' c u) in * by lia. rewrite Hl in *. destruct (back_from d c m d' _ Hb (Z.mod_pos_bound (u - c) (lenZ d) ltac:(lia)) Hus) as [Hi Hs]. cbv zeta in *.
    set (i := if decide _ then _ else _) in *. rewrite Hs in *. split; [|by exists (c + i)]. intros Hkc. assert (Hmod : (c + 0) `mod` lenZ d = (c + i) `mod` lenZ d) by (apply Hu; rewrite ?Z.add_0_r; congruence). apply mod_near in Hmod; lia.
  - intros (Hne & u & Hus & Hk & Hv). rewrite (slot_off d c u) in * by lia. pose proof (Z.mod_pos_bound (u - c) (lenZ d) ltac:(lia)) as Hj. set (j := (u - c) `mod` lenZ d) in *.
    destruct (decide (j = 0)) as [E|Hj0]; [rewrite E, Z.add_0_r in Hk; by destruct Hne|]. exists (c + (if decide (j < m) then j - 1 else j)). destruct (decide (j < m)) as [Hjm|Hjm].
    + rewrite (sb_slots _ _ _ _ Hb) by lia. rewrite decide_True by lia. replace (c + (j - 1) + 1) with (c + j) by lia. done.
    + rewrite (sb_slots _ _ _ _ Hb) by lia. by rewrite !decide_False by lia.
Qed.

(** Deleting the element in bucket [c]. *)
Lemma delete_at tb c : table_ok tb -> used (slot (data tb) c) -> exists d' m, delete_shift hash (length (data tb)) tb (data tb) (c `mod` sh_size tb) (c `mod` sh_size tb) = Ok d' /\
  shifted_back (data tb) c m d' /\ table_ok (set_members (set_data tb d') (wrapu 32 (sh_members tb - 1))) /\ contents d' = delete (SH_KEY (slot (data tb) c)) (contents (data tb)).
Proof.
  intros Hok Hc. pose proof (ok_shape _ Hok) as Hs. pose proof (size_bounds _ Hs) as Hsz. pose proof (sp_len _ Hs) as Hl. pose proof (len_pos _ Hs) as Hn. set (d := data tb) in *.
  destruct (some_empty K0 V0 d Hn (ok_unique _ Hok)) as [w Hw]; [rewrite Hl; unfold d; rewrite <- (ok_members _ Hok); apply Hok|].
  pose proof (Z.mod_pos_bound (w - c) (lenZ d) Hn) as Hwr. assert (Hw0 : (w - c) `mod` lenZ d <> 0).
  { intros E. apply Hw. rewrite (slot_off d c w Hn), E, Z.add_0_r. done. }
  destruct (least_hit (fun j => ~ away d (c + (j + 1))) ((w - c) `mod` lenZ d - 1)) as (j & Hj & HP & Hmin); [lia| |].
  { intros [Hu _]. apply Hw. rewrite (slot_off d c w Hn). by replace (c + (w - c) `mod` lenZ d) with (c + ((w - c) `mod` lenZ d - 1 + 1)) by lia. }
  assert (Haway : forall i, 0 < i < j + 1 -> away d (c + i)).
  { intros i Hi. specialize (Hmin (i - 1) ltac:(lia)). replace (i - 1 + 1) with i in Hmin by lia. destruct (decide (away d (c + i))); [done|]. by destruct Hmin. }
  destruct (delete_shift_ok tb (j + 1) Hs (length d) d c Hl ltac:(lia) ltac:(unfold lenZ in *; lia) Haway HP) as (d' & Hrun & Hl' & Hslots).
  assert (Hb : shifted_back d c (j + 1) d') by (split; [done|lia|done|done|by rewrite Hl]). exists d', (j + 1). split; [done|]. split; [done|]. pose proof (back_contents _ _ _ _ Hb (ok_unique _ Hok) Hc) as Hcont. split; [|done].
  assert (Hsz' : Z.of_nat (size (contents d')) = sh_members tb - 1).
  { rewrite Hcont, (ok_members _ Hok). fold d. rewrite map_size_delete_Some; [|exists (sh_val (slot d c)); apply (contents_lookup K0 V0); [done|apply Hok|by exists c]].
    assert (size (contents d) <> 0%nat); [|lia]. intros E. apply map_size_empty_inv in E. pose proof (proj2 (contents_lookup K0 V0 d _ _ Hn (ok_unique _ Hok)) (ex_intro _ c (conj Hc (conj eq_refl eq_refl)))) as Hlk. by rewrite E, lookup_empty in Hlk. }
  pose proof (ok_room _ Hok). split; cbn [set_members set_data sh_members data sh_size grow_threshold].
  - split; cbn [set_members set_data data sh_size sizemask]; [apply Hs|lia|apply Hs].
  - rewrite Hsz', wrapu_small; [done|]. unfold is_u. lia.
  - rewrite wrapu_small by (unfold is_u; lia). lia.
  - apply Hok.
  - apply Hok.
  - eapply back_ordered; [done|apply Hok|done].
  - eapply back_unique; [done|apply Hok].
Qed.
End Ops.
