(* ===== verification/SimpleHashInsert.v ===== *)
(** Insertion into the hash tables of [lib/simplehash.h]: the displacement of elements that are
    nearer to their optimal buckets keeps the order and adds exactly one key. *)
From S2P Require Import Prelude ByteMem Bits SimpleHash SimpleHashInv SimpleHashOps.

Section Insert.
Context {K V : Type} `{EqDecision K} `{!Countable K} (K0 : K) (V0 : V) (hash : K -> Z).
Notation elem := (SH_ELEMENT_TYPE K V).
Notation table := (SH_TYPE K V).
Notation slot := (slot K0 V0).
Notation dist := (dist K0 V0 hash).
Notation dd := (dd K0 V0 hash).
Notation table_ok := (table_ok K0 V0 hash).
Implicit Types (tb : table) (d : list elem) (e : elem).

(** [m] elements from bucket [p] on move up by one and [e] is put into [p]. *)
Record inserted d (p m : Z) e d' : Prop := {
  in_len : lenZ d' = lenZ d;
  in_m : 0 <= m < lenZ d;
  in_used : forall j, 0 <= j < m -> used (slot d (p + j));
  in_empty : ~ used (slot d (p + m));
  in_new : used e;
  in_slots : forall j, 0 <= j < lenZ d -> slot d' (p + j) = if decide (j = 0) then e else if decide (j <= m) then slot d (p + (j - 1)) else slot d (p + j) }.

(** Bucket [p], [i] buckets from the optimal one of the new key, is where it belongs. *)
Record place d (p i : Z) e : Prop := {
  pl_i : 0 <= i < lenZ d;
  pl_p : p = hash (SH_KEY e) + i;
  pl_before : 0 < i -> i <= dd d (p - 1);
  pl_here : dd d p <= i;
  pl_fresh : forall u, used (slot d u) -> SH_KEY (slot d u) <> SH_KEY e }.

Lemma inserted_dd d p m e d' i j : 0 < lenZ d -> ordered K0 V0 hash d -> inserted d p m e d' -> place d p i e -> 0 <= j < lenZ d ->
  dd d' (p + j) = if decide (j = 0) then i + 1 else if decide (j <= m) then dd d (p + (j - 1)) + 1 else dd d (p + j).
Proof.
  intros Hn Ho Hin Hpl Hj. pose proof (in_slots _ _ _ _ _ Hin j Hj) as Hs. unfold SimpleHashInv.dd, SimpleHashInv.dist. rewrite Hs, (in_len _ _ _ _ _ Hin). destruct (decide (j = 0)) as [->|Hj0].
  - rewrite decide_True by apply Hin. rewrite (pl_p _ _ _ _ Hpl). replace (hash (SH_KEY e) + i + 0 - hash (SH_KEY e)) with i by lia. rewrite Z.mod_small by apply Hpl. done.
  - destruct (decide (j <= m)) as [Hjm|Hjm]; [|done]. pose proof (in_used _ _ _ _ _ Hin (j - 1) ltac:(lia)) as Hu. rewrite !decide_True by done.
    pose proof (dist_bound K0 V0 hash d (p + (j - 1)) (p + m) Hn Ho Hu (in_empty _ _ _ _ _ Hin)) as Hd. unfold SimpleHashInv.dist in Hd. set (h := hash _) in *. pose proof (Z.mod_pos_bound (p + (j - 1) - h) (lenZ d) Hn).
    replace (p + j - h) with (p + (j - 1) - h + 1) by lia. rewrite <- Zplus_mod_idemp_l. rewrite Z.mod_small by lia. lia.
Qed.

Lemma inserted_ordered d p m e d' i : 0 < lenZ d -> ordered K0 V0 hash d -> inserted d p m e d' -> place d p i e -> ordered K0 V0 hash d'.
Proof.
  intros Hn Ho Hin Hpl. pose proof (in_len _ _ _ _ _ Hin) as Hl. pose proof (in_m _ _ _ _ _ Hin) as Hm. apply (ordered_round K0 V0 hash d' p); [lia|]. rewrite Hl. intros j Hj.
  rewrite (inserted_dd d p m e d' i j) by done. assert (Hempty : dd d (p + m) = 0) by (unfold SimpleHashInv.dd; rewrite decide_False; [done|apply Hin]).
  assert (Hprev : forall x, dd d (p + x) <= dd d (p + (x - 1)) + 1) by (intros x; replace (p + (x - 1)) with (p + x - 1) by lia; apply Ho). destruct (decide (j = 0)) as [->|Hj0].
  - destruct (decide (0 < i)) as [Hi|Hi]; [|pose proof (dd_range K0 V0 hash d' (p + (0 - 1)) ltac:(lia)); pose proof (pl_i _ _ _ _ Hpl); lia].
    pose proof (pl_before _ _ _ _ Hpl Hi) as Hb. assert (Hlast : forall x, lenZ x = lenZ d -> dd x (p + (0 - 1)) = dd x (p + (lenZ d - 1))).
    { intros x Hx. apply dd_mod. rewrite Hx. replace (p + (lenZ d - 1)) with (p + (0 - 1) + 1 * lenZ d) by lia. by rewrite Z.mod_add by lia. }
    replace (p - 1) with (p + (0 - 1)) in Hb by lia. rewrite Hlast in Hb |- * by lia. rewrite (inserted_dd d p m e d' i) by (done || lia). assert (m <> lenZ d - 1) by (intros ->; lia). rewrite !decide_False by lia. lia.
  - rewrite (inserted_dd d p m e d' i (j - 1)) by (done || lia). pose proof (pl_here _ _ _ _ Hpl) as Hh. pose proof (dd_range K0 V0 hash d (p + (j - 1)) Hn). pose proof (Hprev (j - 1)). pose proof (Hprev j).
    destruct (decide (j = 1)) as [->|].
    + replace (1 - 1) with 0 in * by lia. rewrite Z.add_0_r in *. repeat case_decide; lia.
    + destruct (decide (j = m + 1)) as [->|]; [replace (m + 1 - 1) with m in * by lia|]; repeat case_decide; lia.
Qed.

Lemma inserted_from d p m e d' j : inserted d p m e d' -> 0 <= j < lenZ d -> used (slot d' (p + j)) -> j = 0 /\ slot d' (p + j) = e \/
  j <> 0 /\ exists i, 0 <= i < lenZ d /\ i <> m /\ slot d' (p + j) = slot d (p + i) /\ i = if decide (j <= m) then j - 1 else j.
Proof.
  intros Hin Hj Hu. pose proof (in_slots _ _ _ _ _ Hin j Hj) as Hs. destruct (decide (j = 0)) as [->|Hj0]; [by left|]. right. split; [done|]. pose proof (in_m _ _ _ _ _ Hin). destruct (decide (j <= m)).
  - exists (j - 1). split_and!; [lia|lia|lia|done|done].
  - exists j. split_and!; [lia|lia|lia|done|done].
Qed.

Lemma inserted_unique d p m e d' i : inserted d p m e d' -> place d p i e -> unique K0 V0 d -> unique K0 V0 d'.
Proof.
  intros Hin Hpl Hu u w Hus Hws Hk. pose proof (in_len _ _ _ _ _ Hin) as Hl. pose proof (in_m _ _ _ _ _ Hin) as Hm. rewrite Hl. rewrite (slot_off K0 V0 d' p u), (slot_off K0 V0 d' p w) in * by lia. rewrite Hl in *.
  pose proof (Z.mod_pos_bound (u - p) (lenZ d) ltac:(lia)) as Hj1. pose proof (Z.mod_pos_bound (w - p) (lenZ d) ltac:(lia)) as Hj2.
  assert (Hoff : (u - p) `mod` lenZ d = (w - p) `mod` lenZ d).
  { destruct (inserted_from _ _ _ _ _ _ Hin Hj1 Hus) as [[E1 S1]|(N1 & i1 & R1 & M1 & S1 & D1)], (inserted_from _ _ _ _ _ _ Hin Hj2 Hws) as [[E2 S2]|(N2 & i2 & R2 & M2 & S2 & D2)]; [lia|exfalso..|].
    - rewrite S1, S2 in *. by eapply (pl_fresh _ _ _ _ Hpl (p + i2)).
    - rewrite S1, S2 in *. by eapply (pl_fresh _ _ _ _ Hpl (p + i1)).
    - rewrite S1, S2 in *. pose proof (Hu _ _ Hus Hws Hk) as E. apply mod_near in E; [|lia|lia]. repeat case_decide; lia. }
  apply (f_equal (fun x => (p + x) `mod` lenZ d)) in Hoff. rewrite !Zplus_mod_idemp_r in Hoff. by replace (p + (u - p)) with u in Hoff by lia; replace (p + (w - p)) with w in Hoff by lia.
Qed.

Lemma inserted_contents d p m e d' i : inserted d p m e d' -> place d p i e -> unique K0 V0 d -> contents d' = <[SH_KEY e := sh_val e]> (contents d).
Proof.
  intros Hin Hpl Hu. pose proof (in_len _ _ _ _ _ Hin) as Hl. pose proof (in_m _ _ _ _ _ Hin) as Hm. pose proof (inserted_unique _ _ _ _ _ _ Hin Hpl Hu) as Hu'. apply map_eq. intros k. apply option_eq. intros v.
  rewrite (contents_lookup K0 V0) by (done || lia). rewrite lookup_insert_Some, (contents_lookup K0 V0) by (done || lia). split.
  - intros (u & Hus & Hk & Hv). rewrite (slot_off K0 V0 d' p u) in * by lia. rewrite Hl in *. destruct (inserted_from _ _ _ _ _ _ Hin (Z.mod_pos_bound (u - p) (lenZ d) ltac:(lia)) Hus) as [[_ S1]|(_ & i1 & R1 & _ & S1 & _)]; rewrite S1 in *; [by left|].
    right. split; [|by exists (p + i1)]. rewrite <- Hk. intros E. by eapply (pl_fresh _ _ _ _ Hpl (p + i1)).
  - intros [[<- <-]|(Hne & u & Hus & Hk & Hv)].
    + exists (p + 0). rewrite (in_slots _ _ _ _ _ Hin) by lia. cbn. split; [apply Hin|done].
    + rewrite (slot_off K0 V0 d p u) in * by lia. pose proof (Z.mod_pos_bound (u - p) (lenZ d) ltac:(lia)) as Hj. set (j := (u - p) `mod` lenZ d) in *. assert (j <> m) by (intros E; rewrite E in Hus; by apply (in_empty _ _ _ _ _ Hin)).
      exists (p + (if decide (j < m) then j + 1 else j)). destruct (decide (j < m)).
      * rewrite (in_slots _ _ _ _ _ Hin) by lia. rewrite decide_False, decide_True by lia. by replace (j + 1 - 1) with j by lia.
      * rewrite (in_slots _ _ _ _ _ Hin) by lia. by rewrite !decide_False by lia.
Qed.

(** ** The loops *)
Lemma insert_shift_ok tb m : shape tb -> forall d fuel p, lenZ d = sh_size tb -> 0 <= m < sh_size tb -> m < Z.of_nat fuel ->
  exists d1, insert_shift fuel tb d ((p + m) `mod` sh_size tb) ((p + m) `mod` sh_size tb) (p `mod` sh_size tb) = Ok d1 /\ lenZ d1 = lenZ d /\
    forall j, 0 <= j < sh_size tb -> slot d1 (p + j) = if decide (0 < j <= m) then slot d (p + (j - 1)) else slot d (p + j).
Proof.
  intros Hs d fuel. revert m d. induction fuel as [|fuel IH]; intros m d p Hl Hm Hf; [lia|]. cbn [insert_shift]. pose proof (size_bounds _ Hs) as Hsz. destruct (decide (m = 0)) as [->|Hm0].
  { rewrite Z.add_0_r, Z.eqb_refl. exists d. split_and!; [done|done|]. intros j Hj. by rewrite decide_False by lia. }
  rewrite (proj2 (Z.eqb_neq _ _)) by (intros E; apply mod_near in E; lia). cbv zeta. rewrite prev_ok by done. rewrite <- Hl. rewrite (slot_get K0 V0), bind_val by lia. rewrite update_set, bind_val by lia. set (d0 := update d (p + m) _).
  assert (Hl0 : lenZ d0 = sh_size tb) by (unfold d0; rewrite update_len; lia). replace (p + m - 1) with (p + (m - 1)) by lia. rewrite Hl. destruct (IH (m - 1) d0 p Hl0 ltac:(lia) ltac:(lia)) as (d1 & Hrun & Hl1 & Hslots).
  exists d1. split; [done|]. split; [lia|]. intros j Hj. rewrite Hslots by done. unfold d0. rewrite !update_slot by lia. rewrite Hl.
  assert (Hne : forall x, 0 <= x < sh_size tb -> x <> m -> (p + x) `mod` sh_size tb <> (p + m) `mod` sh_size tb) by (intros x Hx Hxm E; apply mod_near in E; lia).
  destruct (decide (j = m)) as [->|].
  - rewrite (decide_False (P := 0 < m <= m - 1)) by lia. rewrite !decide_True by (done || lia). f_equal. lia.
  - pose proof (Hne j Hj ltac:(lia)). repeat case_decide; try lia; try done. exfalso. by apply (Hne (j - 1)); [lia|lia|].
Qed.

Lemma insert_empty_ok tb m : shape tb -> forall fuel p c, 1 <= m -> m <= Z.of_nat fuel -> (forall j, 0 < j < m -> used (slot (data tb) (p + j))) -> ~ used (slot (data tb) (p + m)) ->
  insert_empty fuel tb (p `mod` sh_size tb) c = Ok (Some ((p + m) `mod` sh_size tb)) \/
  insert_empty fuel tb (p `mod` sh_size tb) c = Ok None /\ SH_GROW_MIN_FILLFACTOR (sh_members tb) (sh_size tb) = true.
Proof.
  intros Hs fuel. revert m. induction fuel as [|fuel IH]; intros m p c Hm Hf Hused Hempty; [lia|]. cbn [insert_empty]. cbv zeta. rewrite next_ok by done. rewrite (get_ok K0 V0), bind_val, empty_dec by done.
  destruct (decide (m = 1)) as [->|Hm1]; [left; by rewrite bool_decide_false|]. rewrite bool_decide_true by (apply Hused; lia). cbn [negb].
  destruct (_ && _) eqn:E; [right; apply andb_true_iff in E as [_ E]; done|]. destruct (IH (m - 1) (p + 1) (c + 1)) as [H|H]; [lia|lia| | | |].
  - intros j Hj. rewrite <- Z.add_assoc. apply Hused. lia.
  - rewrite <- Z.add_assoc. by replace (1 + (m - 1)) with m by lia.
  - left. rewrite H. do 2 f_equal. f_equal. lia.
  - by right.
Qed.

(** The buckets before offset [i] hold other keys, no nearer to their optimal buckets. *)
Definition probed tb (k : K) (i : Z) : Prop :=
  forall x, 0 <= x < i -> used (slot (data tb) (hash k + x)) /\ SH_KEY (slot (data tb) (hash k + x)) <> k /\ x <= dist (data tb) (hash k + x).

Lemma probed_place tb k i v : table_ok tb -> 0 <= i < sh_size tb -> probed tb k i -> dd (data tb) (hash k + i) <= i -> place (data tb) (hash k + i) i (mkElem SH_STATUS_IN_USE k v).
Proof.
  intros Hok Hi Hp Hh. pose proof (ok_shape _ _ _ _ Hok) as Hs. pose proof (len_pos _ Hs) as Hn. split; cbn; [by rewrite (sp_len _ Hs)|done| |done|].
  - intros Hi0. replace (hash k + i - 1) with (hash k + (i - 1)) by lia. destruct (Hp (i - 1) ltac:(lia)) as (Hu & _ & Hd). unfold SimpleHashInv.dd. rewrite decide_True by done. lia.
  - intros u Hu Hk. pose proof (dist_range K0 V0 hash (data tb) u Hn). destruct (decide (i <= dist (data tb) u)).
    + destruct (key_path K0 V0 hash (data tb) u k i Hn (ok_ordered _ _ _ _ Hok) Hu Hk ltac:(lia)) as (Hu' & Hd & _). unfold SimpleHashInv.dd in Hh. rewrite decide_True in Hh by done. lia.
    + destruct (key_path K0 V0 hash (data tb) u k 0 Hn (ok_ordered _ _ _ _ Hok) Hu Hk ltac:(lia)) as (_ & _ & E). destruct (Hp (dist (data tb) u) ltac:(lia)) as (_ & Hne & _). rewrite E in Hne. done.
Qed.

(** What insertion of [k] into a table with the contents [M] and at least [n0] buckets returns. *)
Definition insert_post (M : gmap K V) (n0 : Z) (k : K) (r : table * Z * bool) : Prop :=
  let '(tb, p, found) := r in
  table_ok tb /\ n0 <= sh_size tb /\ 0 <= p < sh_size tb /\ used (slot (data tb) p) /\ SH_KEY (slot (data tb) p) = k /\
  (found = true /\ contents (data tb) = M /\ is_Some (M !! k) \/ found = false /\ M !! k = None /\ exists v, contents (data tb) = <[k := v]> M).

(** Put the key into bucket [p], after the [m] elements there have moved up. *)
Lemma fill_ok tb k i m d1 : table_ok tb -> sh_members tb + 1 < sh_size tb -> 0 <= i < sh_size tb -> probed tb k i -> dd (data tb) (hash k + i) <= i ->
  0 <= m < sh_size tb -> (forall j, 0 <= j < m -> used (slot (data tb) (hash k + i + j))) -> ~ used (slot (data tb) (hash k + i + m)) -> lenZ d1 = lenZ (data tb) ->
  (forall j, 0 <= j < sh_size tb -> slot d1 (hash k + i + j) = if decide (0 < j <= m) then slot (data tb) (hash k + i + (j - 1)) else slot (data tb) (hash k + i + j)) ->
  exists tb', fill_bucket tb d1 ((hash k + i) `mod` sh_size tb) k = Ok tb' /\ insert_post (contents (data tb)) (sh_size tb) k (tb', (hash k + i) `mod` sh_size tb, false).
Proof.
  intros Hok Hroom Hi Hp Hh Hm Hused Hempty Hl1 Hslots. pose proof (ok_shape _ _ _ _ Hok) as Hs. pose proof (size_bounds _ Hs) as Hsz. pose proof (sp_len _ Hs) as Hl. set (p := hash k + i) in *. unfold fill_bucket.
  assert (Hn1 : lenZ d1 = sh_size tb) by lia. rewrite <- Hn1. rewrite (slot_get K0 V0), bind_val by lia. rewrite update_set, bind_val by lia. eexists. split; [done|]. set (e := mkElem SH_STATUS_IN_USE k (sh_val (slot d1 p))). set (d' := update d1 p e).
  assert (Hpl : place (data tb) p i e) by by apply probed_place. assert (Hin : inserted (data tb) p m e d').
  { split; [unfold d'; rewrite update_len; done|lia|done|done|done|]. intros j Hj. unfold d'. destruct (decide (j = 0)) as [->|Hj0]; [change (p + 0) with (p + 0 * sh_size tb); by apply update_eq; [|lia]|].
    rewrite (update_ne K0 V0 d1 p e (sh_size tb)) by lia. rewrite Hslots by lia. repeat case_decide; lia || done. }
  pose proof (inserted_contents _ _ _ _ _ _ Hin Hpl (ok_unique _ _ _ _ Hok)) as Hcont. assert (Hfresh : contents (data tb) !! k = None) by (apply (contents_none K0 V0); [lia|apply Hok|]; intros u Hu; by apply (pl_fresh _ _ _ _ Hpl)).
  rewrite Hn1. unfold insert_post. assert (Hpslot : slot d' (p `mod` sh_size tb) = e).
  { rewrite (slot_mod K0 V0 _ _ (p + 0 * sh_size tb)); [by apply update_eq; [|lia]|]. unfold d'. rewrite update_len, Hn1, Z.mod_mod by lia. f_equal. lia. }
  cbn [data sh_size]. rewrite Hpslot. split_and!; [|lia|apply Z.mod_pos_bound; lia|apply Z.mod_pos_bound; lia|done|done|right; split; [done|]; split; [done|]; by exists (sh_val e)].
  pose proof (ok_members _ _ _ _ Hok) as Hmem. assert (Hcard : Z.of_nat (size (contents d')) = sh_members tb + 1) by (rewrite Hcont, map_size_insert_None by done; lia). split; cbn [data sh_size sh_members grow_threshold].
  - split; cbn [data sh_size sizemask]; [apply Hs| |apply Hs]. unfold d'. rewrite update_len. lia.
  - rewrite wrapu_small; [done|]. unfold is_u. lia.
  - rewrite wrapu_small by (unfold is_u; lia). done.
  - apply Hok.
  - apply Hok.
  - eapply inserted_ordered; [|apply Hok|done|done]. lia.
  - eapply inserted_unique; [done|done|apply Hok].
Qed.

Lemma empty_dd d u : ~ used (slot d u) -> dd d u = 0.
Proof. intros Hu. unfold SimpleHashInv.dd. by rewrite decide_False. Qed.

(** The distance to the next empty bucket. *)
Lemma next_empty tb p : table_ok tb -> exists m, 0 <= m < sh_size tb /\ (forall j, 0 <= j < m -> used (slot (data tb) (p + j))) /\ ~ used (slot (data tb) (p + m)).
Proof.
  intros Hok. pose proof (ok_shape _ _ _ _ Hok) as Hs. pose proof (len_pos _ Hs) as Hn. rewrite <- (sp_len _ Hs).
  destruct (some_empty K0 V0 (data tb) Hn (ok_unique _ _ _ _ Hok)) as [w Hw]; [rewrite <- (ok_members _ _ _ _ Hok), (sp_len _ Hs); apply Hok|].
  pose proof (Z.mod_pos_bound (w - p) (lenZ (data tb)) Hn) as Hwr. rewrite (slot_off K0 V0 _ p) in Hw by done.
  destruct (least_hit (fun j => ~ used (slot (data tb) (p + j))) ((w - p) `mod` lenZ (data tb)) ltac:(lia) Hw) as (m & Hm & Hem & Hmin). exists m. split; [lia|]. split; [|done]. intros j Hj. specialize (Hmin j Hj). destruct (decide (used (slot (data tb) (p + j)))); [done|]. by destruct Hmin.
Qed.

Lemma insert_loop_ok tb k : table_ok tb -> sh_members tb + 1 < sh_size tb -> forall fuel i, 0 <= i < sh_size tb -> probed tb k i -> sh_size tb - i <= Z.of_nat fuel ->
  exists r, insert_loop hash fuel tb k ((hash k + i) `mod` sh_size tb) i = Ok r /\
    match r with
    | None => SH_GROW_MIN_FILLFACTOR (sh_members tb) (sh_size tb) = true
    | Some r => insert_post (contents (data tb)) (sh_size tb) k r
    end.
Proof.
  intros Hok Hroom fuel. pose proof (ok_shape _ _ _ _ Hok) as Hs. pose proof (size_bounds _ Hs) as Hsz. pose proof (sp_len _ Hs) as Hl. destruct (probe_stop K0 V0 hash tb k Hok) as (j & Hj & Hpre & Hend).
  induction fuel as [|fuel IH]; intros i Hi Hp Hf; [lia|]. cbn [insert_loop]. rewrite (get_ok K0 V0), bind_val, empty_dec by done. set (p := hash k + i). assert (Hij : i <= j).
  { destruct (decide (i <= j)); [done|]. destruct (Hp j ltac:(lia)) as (Hu & Hk & _). destruct Hend as [[? _]|[_ ?]]; done. }
  destruct (decide (used (slot (data tb) p))) as [Hu|Hu].
  2: { rewrite bool_decide_false by done. cbn [negb]. destruct (fill_ok tb k i 0 (data tb)) as (tb' & Hfill & Hpost); try done; [rewrite empty_dd by done; lia|lia|lia|by rewrite Z.add_0_r|intros x Hx; by rewrite decide_False by lia|].
       fold p in Hfill, Hpost. rewrite Hfill, bind_val. eexists. split; [done|]. done. }
  rewrite bool_decide_true by done. cbn [negb]. case_bool_decide as Hk.
  { eexists. split; [done|]. assert (Hps : slot (data tb) (p `mod` sh_size tb) = slot (data tb) p) by (apply slot_mod; rewrite Hl; apply Z.mod_mod; lia). unfold insert_post. rewrite Hps.
    split_and!; [done|lia|apply Z.mod_pos_bound; lia|apply Z.mod_pos_bound; lia|done|done|]. left. split; [done|]. split; [done|]. exists (sh_val (slot (data tb) p)). apply (contents_lookup K0 V0); [lia|apply Hok|]. by exists p. }
  cbv zeta. unfold SH_ENTRY_HASH. rewrite bucket_ok, distance_ok by done. assert (Hdd : dd (data tb) p = dist (data tb) p + 1) by (unfold SimpleHashInv.dd; by rewrite decide_True by done).
  replace ((p - hash (SH_KEY (slot (data tb) p))) `mod` sh_size tb) with (dist (data tb) p) by (unfold SimpleHashInv.dist; by rewrite Hl). destruct (Z.ltb_spec (dist (data tb) p) i) as [Hlt|Hge].
  - destruct (next_empty tb p Hok) as (m & Hm & Hmu & Hme). assert (m <> 0) by (intros ->; by rewrite Z.add_0_r in Hme).
    destruct (insert_empty_ok tb m Hs (length (data tb)) p 0) as [Hrun|[Hrun Hfill]]; [lia|unfold lenZ in Hl; lia|intros x Hx; apply Hmu; lia|done| |]; rewrite Hrun, bind_val; [|by eexists].
    destruct (insert_shift_ok tb m Hs (data tb) (S (length (data tb))) p Hl Hm) as (d1 & -> & Hl1 & Hslots); [unfold lenZ in Hl; lia|]. rewrite bind_val.
    destruct (fill_ok tb k i m d1) as (tb' & Hfill & Hpost); try done; [fold p; lia|]. fold p in Hfill, Hpost. rewrite Hfill, bind_val. eexists. split; [done|]. done.
  - assert (Hij' : i <> j) by (intros ->; destruct Hend as [[? _]|[_ ?]]; done). destruct (_ && _) eqn:E; [apply andb_true_iff in E as [_ E]; by eexists|]. rewrite next_ok by done. unfold p. rewrite <- Z.add_assoc. apply IH; [lia| |lia].
    intros x Hx. destruct (decide (x = i)) as [->|]; [done|]. apply Hp. lia.
Qed.
End Insert.
