(* ===== verification/SimpleHashGrow.v ===== *)
(** Growth of the hash tables of [lib/simplehash.h], and insertion with growth.

    The old table is cut at a bucket that no probe path crosses.  From there on the elements are
    in the order of their optimal buckets; in the doubled table each goes to one of two halves, not
    further from the start of its half than before, so that the order is kept without moving
    any element twice. *)
From S2P Require Import Prelude ByteMem Bits SimpleHash SimpleHashInv SimpleHashOps SimpleHashInsert.

Section Grow.
Context {K V : Type} `{EqDecision K} `{!Countable K} (K0 : K) (V0 : V) (sizeof_element : Z) (hash : K -> Z).
Hypothesis sizeof_small : 0 < sizeof_element < 2 ^ 30.
Notation elem := (SH_ELEMENT_TYPE K V).
Notation table := (SH_TYPE K V).
Notation slot := (slot K0 V0).
Notation dist := (dist K0 V0 hash).
Notation dd := (dd K0 V0 hash).
Notation table_ok := (table_ok K0 V0 hash).
Implicit Types (tb : table) (d nd : list elem) (e : elem).

Lemma compute_ok tb k : 1 <= k <= 32 -> exists t, SH_COMPUTE_PARAMETERS sizeof_element tb (2 ^ k) = Ok (mkSH (2 ^ k) (sh_members tb) (2 ^ k - 1) t (data tb)) /\
  t < 2 ^ k /\ (2 ^ k = SH_MAX_SIZE -> member_limit < t).
Proof.
  intros Hk. assert (Hp : 2 <= 2 ^ k <= 2 ^ 32) by (split; [change 2 with (2 ^ 1) at 1|]; apply Z.pow_le_mono_r; lia). unfold SH_COMPUTE_PARAMETERS. rewrite Z.max_l by lia.
  destruct (power2_correct (2 ^ k)) as [(-> & _) _]; [lia|]. rewrite Z.log2_up_pow2 by lia. rewrite wrapu_small by (unfold is_u; nia). change (SIZE_MAX / 2) with (2 ^ 63 - 1).
  rewrite (proj2 (Z.leb_gt _ _)) by nia. rewrite wrapu_small by (unfold is_u; lia). eexists. split; [done|]. destruct (Z.eqb_spec (2 ^ k) SH_MAX_SIZE) as [E|E].
  - rewrite E. by vm_compute.
  - split; [|done]. unfold SH_FILLFACTOR. apply Z.div_lt_upper_bound; lia.
Qed.

(** The first bucket to copy. *)
Lemma grow_start_ok tb d i : Exists (fun e => ~ used e) d -> exists j e, d !! j = Some e /\ grow_start hash tb d i = i + Z.of_nat j /\
  (used e -> SH_INITIAL_BUCKET tb (SH_ENTRY_HASH hash e) = i + Z.of_nat j).
Proof.
  intros He. revert i. induction d as [|e d IH]; intros i; [by apply Exists_nil in He|]. cbn [grow_start]. destruct (decide (used e)) as [Hu|Hu].
  - rewrite bool_decide_true by done. cbn [negb]. destruct (Z.eqb_spec (SH_INITIAL_BUCKET tb (SH_ENTRY_HASH hash e)) i) as [E|E].
    + exists 0%nat, e. split; [done|]. split; [lia|]. intros _. rewrite E. lia.
    + apply Exists_cons in He as [He|He]; [done|]. destruct (IH He (i + 1)) as (j & e' & Hj & -> & Hb). exists (S j), e'. split; [done|]. split; [lia|]. intros Hu'. rewrite Hb by done. lia.
  - rewrite bool_decide_false by done. exists 0%nat, e. split; [done|]. split; [cbn; lia|done].
Qed.

Lemma grow_find_ok tb nd m : shape tb -> lenZ nd = sh_size tb -> forall fuel p, 0 <= m < Z.of_nat fuel -> (forall j, 0 <= j < m -> used (slot nd (p + j))) -> ~ used (slot nd (p + m)) ->
  grow_find fuel tb nd (p `mod` sh_size tb) = Ok ((p + m) `mod` sh_size tb).
Proof.
  intros Hs Hl fuel. revert m. induction fuel as [|fuel IH]; intros m p Hm Hu He; [lia|]. cbn [grow_find]. pose proof (size_bounds _ Hs). rewrite <- Hl at 1. rewrite (slot_get K0 V0), bind_val, empty_dec by lia. destruct (decide (m = 0)) as [->|].
  - rewrite Z.add_0_r in *. by rewrite bool_decide_false by done.
  - rewrite bool_decide_true by (rewrite <- (Z.add_0_r p); apply Hu; lia). cbn [negb]. rewrite next_ok by done. rewrite (IH (m - 1)); [f_equal; f_equal; lia|lia| |].
    + intros j Hj. rewrite <- Z.add_assoc. apply Hu. lia.
    + rewrite <- Z.add_assoc. by replace (1 + (m - 1)) with m by lia.
Qed.

(** ** The copy *)
Section Copy.
Context (d : list elem) (n s : Z) (tb : table).
Hypothesis Hn : 0 < n.
Hypothesis Hl : lenZ d = n.
Hypothesis Ho : ordered K0 V0 hash d.
Hypothesis Hu : unique K0 V0 d.
Hypothesis Hcut : dd d s <= 1.
Hypothesis Hs : shape tb.
Hypothesis HN : sh_size tb = 2 * n.

(** The offset from the cut of the optimal bucket, in the old table and in the new one. *)
Definition old_off (j : Z) : Z := j - dist d (s + j).
Definition new_off e : Z := (hash (SH_KEY e) - s) `mod` (2 * n).

Lemma old_off_range j : 0 <= j < n -> used (slot d (s + j)) -> 0 <= old_off j <= j.
Proof.
  intros Hj Hus. unfold old_off. pose proof (dd_back K0 V0 hash d (s + j) j Ho ltac:(lia)) as Hb. replace (s + j - j) with s in Hb by lia. unfold SimpleHashInv.dd in Hb at 1. rewrite decide_True in Hb by done.
  pose proof (dist_range K0 V0 hash d (s + j) ltac:(lia)). lia.
Qed.

Lemma old_off_mono i j : 0 <= i < j -> j < n -> used (slot d (s + i)) -> used (slot d (s + j)) -> old_off i <= old_off j.
Proof.
  intros Hi Hj Hui Huj. unfold old_off. pose proof (dd_back K0 V0 hash d (s + j) (j - i) Ho ltac:(lia)) as Hb. replace (s + j - (j - i)) with (s + i) in Hb by lia. unfold SimpleHashInv.dd in Hb. rewrite !decide_True in Hb by done. lia.
Qed.

Lemma new_off_half j : 0 <= j < n -> used (slot d (s + j)) -> exists t, 0 <= t <= 1 /\ new_off (slot d (s + j)) = t * n + old_off j.
Proof.
  intros Hj Hus. pose proof (old_off_range j Hj Hus) as Hr. unfold new_off. set (h := hash _). exists (((h - s) `mod` (2 * n)) / n). pose proof (Z.mod_pos_bound (h - s) (2 * n) ltac:(lia)) as Hm.
  assert (E : old_off j = ((h - s) `mod` (2 * n)) `mod` n).
  { pose proof (home_mod K0 V0 hash d (s + j) ltac:(lia)) as Hh. fold h in Hh. rewrite Hl in Hh. rewrite <- (Z.mod_small (old_off j) n) by lia. unfold old_off in *. apply mod_shift in Hh as [q Hq]; [|done]. apply mod_shift; [done|].
    pose proof (Z.div_mod (h - s) (2 * n) ltac:(lia)). exists (q + 2 * ((h - s) / (2 * n))). lia. }
  split; [|rewrite E; pose proof (Z.div_mod ((h - s) `mod` (2 * n)) n ltac:(lia)); lia]. split; [apply Z.div_pos; lia|]. apply Z.lt_succ_r, Z.div_lt_upper_bound; lia.
Qed.

Lemma half_cases t : 0 <= t <= 1 -> t = 0 /\ t * n = 0 \/ t = 1 /\ t * n = n.
Proof. intros Ht. assert (t = 0 \/ t = 1) as [-> | ->] by lia; lia. Qed.

(** The first [j] buckets after the cut are copied. *)
Record copied (j : Z) nd : Prop := {
  cp_len : lenZ nd = 2 * n;
  cp_ordered : ordered K0 V0 hash nd;
  cp_unique : unique K0 V0 nd;
  cp_from : forall x, 0 <= x < 2 * n -> used (slot nd (s + x)) -> exists i t, 0 <= i < j /\ used (slot d (s + i)) /\ slot nd (s + x) = slot d (s + i) /\
    0 <= t <= 1 /\ new_off (slot d (s + i)) = t * n + old_off i /\ t * n + old_off i <= x <= t * n + i;
  cp_contents : forall k v, contents nd !! k = Some v <-> exists i, 0 <= i < j /\ used (slot d (s + i)) /\ SH_KEY (slot d (s + i)) = k /\ sh_val (slot d (s + i)) = v }.

Lemma copied_next j nd : 0 <= j < n -> copied j nd -> used (slot d (s + j)) -> exists nd', copied (j + 1) nd' /\
  (grow_find (length nd) tb nd (hash (SH_KEY (slot d (s + j))) `mod` sh_size tb) ≫= fun c => aset nd c (slot d (s + j))) = Ok nd'.
Proof.
  intros Hj Hc Hus. set (e := slot d (s + j)). destruct (new_off_half j Hj Hus) as (t & Ht & HG). fold e in HG. pose proof (old_off_range j Hj Hus) as Hg. pose proof (cp_len _ _ Hc) as Hln. pose proof (half_cases t Ht) as Htn.
  assert (Hhome : forall x, slot nd (hash (SH_KEY e) + x) = slot nd (s + (new_off e + x))).
  { intros x. apply slot_mod. rewrite Hln. unfold new_off. replace (s + ((hash (SH_KEY e) - s) `mod` (2 * n) + x)) with (s + x + (hash (SH_KEY e) - s) `mod` (2 * n)) by lia. rewrite Zplus_mod_idemp_r. f_equal. lia. }
  (* the bucket at the same place in the half is still empty *)
  assert (Hfree : ~ used (slot nd (s + (t * n + j)))).
  { intros Hfu. destruct (cp_from _ _ Hc (t * n + j) ltac:(lia) Hfu) as (i & t' & Hi & Hui & _ & Ht' & _ & Hx). pose proof (old_off_range i ltac:(lia) Hui). pose proof (half_cases t' Ht'). lia. }
  destruct (least_hit (fun x => ~ used (slot nd (s + (new_off e + x)))) (j - old_off j)) as (m & Hm & Hem & Hmin); [lia|rewrite HG; by replace (t * n + old_off j + (j - old_off j)) with (t * n + j) by lia|].
  assert (Hbefore : forall x, 0 <= x < m -> used (slot nd (s + (new_off e + x)))) by (intros x Hx; specialize (Hmin x Hx); destruct (decide (used (slot nd (s + (new_off e + x))))); [done|]; by destruct Hmin).
  pose proof (size_bounds _ Hs) as Hsz. rewrite (grow_find_ok tb nd m Hs ltac:(lia)); [|unfold lenZ in Hln; lia|intros x Hx; rewrite Hhome; by apply Hbefore|by rewrite Hhome]. rewrite bind_val, HN, <- Hln, update_set by lia.
  eexists. split; [|done]. set (p := hash (SH_KEY e) + m). assert (Hin : inserted K0 V0 nd p 0 e (update nd p e)).
  { split; [apply update_len|lia|lia|rewrite Z.add_0_r; unfold p; by rewrite Hhome|done|]. intros x Hx. destruct (decide (x = 0)) as [->|]; [change (p + 0) with (p + 0 * lenZ nd); by apply update_eq; [|lia]|]. rewrite decide_False by lia. by apply (update_ne K0 V0 nd p e (lenZ nd)); [|lia]. }
  assert (Hpl : place K0 V0 hash nd p m e).
  { split; [rewrite Hln; lia|done| | |].
    - intros Hm0. specialize (Hbefore (m - 1) ltac:(lia)). assert (Hx : 0 <= new_off e + (m - 1) < 2 * n) by lia. destruct (cp_from _ _ Hc _ Hx Hbefore) as (i & t' & Hi & Hui & Hsi & Ht' & HG' & Hx').
      pose proof (old_off_range i ltac:(lia) Hui) as Hgi. assert (t' = t) as -> by (pose proof (half_cases t' Ht'); lia). pose proof (old_off_mono i j ltac:(lia) ltac:(lia) Hui Hus) as Hmono.
      replace (p - 1) with (hash (SH_KEY e) + (m - 1)) by (unfold p; lia). unfold SimpleHashInv.dd, SimpleHashInv.dist. rewrite Hhome, decide_True by done. rewrite Hsi, Hln. pose proof HG' as HG2. unfold new_off in HG2. pose proof HG as HG3. unfold new_off in HG3. set (h' := hash (SH_KEY (slot d (s + i)))) in *. set (h := hash (SH_KEY e)) in *.
      replace (h + (m - 1) - h') with ((h - s) - (h' - s) + (m - 1)) by lia. rewrite <- Zplus_mod_idemp_l, Zminus_mod, HG2, HG3. rewrite Zplus_mod_idemp_l. rewrite Z.mod_small by lia. lia.
    - rewrite (empty_dd K0 V0 hash); [lia|]. unfold p. by rewrite Hhome.
    - intros u Hud Hk. assert (Hlk : contents nd !! SH_KEY e = Some (sh_val (slot nd u))) by (apply (contents_lookup K0 V0); [lia|apply Hc|by exists u]). apply (cp_contents _ _ Hc) in Hlk as (i & Hi & Hui & Hki & _).
      pose proof (Hu (s + i) (s + j) Hui Hus Hki) as E. rewrite Hl in E. apply mod_near in E; lia. }
  pose proof (inserted_contents K0 V0 hash nd p 0 e _ m Hin Hpl (cp_unique _ _ Hc)) as Hcont. split.
  - rewrite update_len. done.
  - apply (inserted_ordered K0 V0 hash nd p 0 e _ m); [lia|apply Hc|done|done].
  - eapply inserted_unique; [done|done|apply Hc].
  - intros x Hx. rewrite update_slot by lia. rewrite Hln. case_decide as E.
    + intros _. exists j, t. assert (Hxe : x = new_off e + m).
      { unfold p in E. assert (E2 : (s + x) `mod` (2 * n) = (s + (new_off e + m)) `mod` (2 * n)). { rewrite E. unfold new_off. replace (s + ((hash (SH_KEY e) - s) `mod` (2 * n) + m)) with (s + m + (hash (SH_KEY e) - s) `mod` (2 * n)) by lia. rewrite Zplus_mod_idemp_r. f_equal. lia. }
        apply mod_near in E2; lia. }
      split_and!; (done || lia).
    + intros Hux. destruct (cp_from _ _ Hc x Hx Hux) as (i & t' & Hi & Hrest). exists i, t'. split; [lia|done].
  - intros k v. rewrite Hcont, lookup_insert_Some, (cp_contents _ _ Hc). split.
    + intros [[<- <-]|(_ & i & Hi & Hrest)]; [exists j; split; [lia|done]|exists i; split; [lia|done]].
    + intros (i & Hi & Hui & Hk & Hv). destruct (decide (i = j)) as [->|]; [left; done|]. right. split; [|exists i; split; [lia|done]].
      intros Hke. rewrite <- Hk in Hke. pose proof (Hu (s + i) (s + j) Hui Hus (eq_sym Hke)) as E. rewrite Hl in E. apply mod_near in E; lia.
Qed.

Lemma allocate_slot (m u : Z) : 0 < m -> lenZ (SH_ALLOCATE K0 V0 m) = m /\ ~ used (slot (SH_ALLOCATE K0 V0 m) u).
Proof.
  intros Hm. assert (Hla : lenZ (SH_ALLOCATE K0 V0 m) = m) by (unfold lenZ, SH_ALLOCATE; rewrite length_replicate; lia). split; [done|]. pose proof (slot_lookup K0 V0 (SH_ALLOCATE K0 V0 m) u ltac:(lia)) as Hlk.
  unfold SH_ALLOCATE in Hlk at 1. apply lookup_replicate in Hlk as [E _]. rewrite E. done.
Qed.

Lemma copied_start : copied 0 (SH_ALLOCATE K0 V0 (2 * n)).
Proof.
  assert (Hno : forall u, ~ used (slot (SH_ALLOCATE K0 V0 (2 * n)) u)) by (intros u; apply allocate_slot; lia). assert (Hla : lenZ (SH_ALLOCATE K0 V0 (2 * n)) = 2 * n) by (apply (allocate_slot _ 0); lia).
  assert (Huq : unique K0 V0 (SH_ALLOCATE K0 V0 (2 * n))) by (intros u w Hus; by destruct (Hno u)). split; [done| |done| |].
  - intros u. rewrite !(empty_dd K0 V0 hash) by done. lia.
  - intros x Hx Hus. by destruct (Hno (s + x)).
  - intros k v. split; [|intros (i & Hi & _); lia]. intros Hlk. apply (contents_lookup K0 V0) in Hlk as (u & Hus & _); [by destruct (Hno u)|lia|done].
Qed.

Lemma grow_copy_ok c : forall j nd, 0 <= j -> j + Z.of_nat c = n -> copied j nd -> exists nd', grow_copy hash c tb n d ((s + j) `mod` n) nd = Ok nd' /\ copied n nd'.
Proof.
  induction c as [|c IH]; intros j nd Hj Hjc Hc; cbn [grow_copy].
  { exists nd. split; [done|]. by replace n with j by lia. }
  assert (Hget : aget d ((s + j) `mod` n) = Ok (slot d (s + j))) by (rewrite <- Hl; apply slot_get; lia). rewrite Hget, bind_val. assert (Hstep : exists nd', copied (j + 1) nd' /\ (if bool_decide (sh_status (slot d (s + j)) = SH_STATUS_IN_USE) then
    curelem ← grow_find (length nd) tb nd (SH_INITIAL_BUCKET tb (SH_ENTRY_HASH hash (slot d (s + j)))); aset nd curelem (slot d (s + j)) else Ok nd) = Ok nd').
  { case_bool_decide as Hus.
    - destruct (copied_next j nd ltac:(lia) Hc Hus) as (nd' & Hc' & Hrun). exists nd'. split; [done|]. unfold SH_ENTRY_HASH. rewrite bucket_ok by done. done.
    - exists nd. split; [|done]. assert (Hext : forall i, used (slot d (s + i)) -> 0 <= i < j + 1 -> 0 <= i < j) by (intros i Hi Hr; destruct (decide (i = j)) as [->|]; [done|lia]). split; [apply Hc..| |].
      + intros x Hx Hux. destruct (cp_from _ _ Hc x Hx Hux) as (i & t & Hi & Hrest). exists i, t. split; [lia|done].
      + intros k v. rewrite (cp_contents _ _ Hc). split; intros (i & Hi & Hui & Hrest); exists i; split; [lia|done|by apply Hext|done]. }
  destruct Hstep as (nd' & Hc' & ->). rewrite bind_val. cbv zeta. replace (if n <=? (s + j) `mod` n + 1 then 0 else (s + j) `mod` n + 1) with ((s + (j + 1)) `mod` n); [apply IH; [lia|lia|done]|].
  pose proof (Z.mod_pos_bound (s + j) n Hn). rewrite Z.add_assoc, <- Zplus_mod_idemp_l. destruct (Z.leb_spec n ((s + j) `mod` n + 1)) as [Hle|Hlt].
  - replace ((s + j) `mod` n + 1) with n by lia. apply Z.mod_same. lia.
  - apply Z.mod_small. lia.
Qed.
End Copy.

Lemma grow_spec tb : table_ok tb -> sh_size tb <> SH_MAX_SIZE -> exists tb', SH_GROW K0 V0 sizeof_element hash tb (sh_size tb * 2) = Ok tb' /\
  table_ok tb' /\ sh_size tb' = 2 * sh_size tb /\ sh_members tb' = sh_members tb /\ contents (data tb') = contents (data tb).
Proof.
  intros Hok Hmax. pose proof (ok_shape _ _ _ _ Hok) as Hs. pose proof (size_bounds _ Hs) as Hsz. pose proof (sp_len _ Hs) as Hl. pose proof (len_pos _ Hs) as Hn. destruct (sp_pow _ Hs) as (k & Hk & Hpow).
  assert (Hk32 : k <> 32) by (intros ->; by apply Hmax). unfold SH_GROW. assert (H2 : sh_size tb * 2 = 2 ^ (k + 1)) by (rewrite Hpow, Z.pow_add_r by lia; done). rewrite H2.
  destruct (compute_ok tb (k + 1) ltac:(lia)) as (t & -> & Ht & Htm). rewrite bind_val. cbv zeta. set (tb1 := set_data _ _). assert (Hs1 : sh_size tb1 = 2 * sh_size tb) by (cbn; lia).
  assert (Hsh1 : forall nd, lenZ nd = 2 * sh_size tb -> shape (set_data tb1 nd)) by (intros nd Hnd; split; cbn; [exists (k + 1); lia|lia|done]).
  assert (Hshape : shape tb1) by (apply (Hsh1 (data tb1)); rewrite <- Hs1; cbn; apply (allocate_slot _ 0); lia).
  assert (He : Exists (fun e => ~ used e) (data tb)).
  { destruct (some_empty K0 V0 (data tb) Hn (ok_unique _ _ _ _ Hok)) as [w Hw]; [rewrite <- (ok_members _ _ _ _ Hok), Hl; apply Hok|]. apply Exists_exists. exists (slot (data tb) w). split; [|done]. apply (elem_slot K0 V0); [done|]. by exists w. }
  destruct (grow_start_ok tb1 (data tb) 0 He) as (j & e & Hj & -> & Hb). rewrite Z.add_0_l in *. pose proof (lookup_lt_Some _ _ _ Hj) as Hjl. assert (Hje : slot (data tb) (Z.of_nat j) = e).
  { unfold SimpleHashInv.slot. rewrite Z.mod_small by (unfold lenZ; lia). by rewrite Nat2Z.id, nth_lookup, Hj. }
  assert (Hcut : dd (data tb) (Z.of_nat j) <= 1).
  { unfold SimpleHashInv.dd. case_decide as Hu; [|lia]. rewrite Hje in Hu. specialize (Hb Hu). unfold SimpleHashInv.dist. rewrite Hje. unfold SH_ENTRY_HASH in Hb. rewrite bucket_ok, Hs1 in Hb by done. rewrite Hl. set (h := hash (SH_KEY e)) in *.
    assert (E : (Z.of_nat j - h) `mod` sh_size tb = 0); [|lia]. apply Z.mod_divide; [lia|]. exists (- (2 * (h / (2 * sh_size tb)))). pose proof (Z.div_mod h (2 * sh_size tb) ltac:(lia)). lia. }
  destruct (grow_copy_ok (data tb) (sh_size tb) (Z.of_nat j) tb1 ltac:(lia) Hl (ok_ordered _ _ _ _ Hok) (ok_unique _ _ _ _ Hok) Hcut Hshape Hs1 (length (data tb)) 0 (data tb1)) as (nd & Hrun & Hc); [lia|unfold lenZ in Hl; lia|unfold tb1; cbn [data set_data]; rewrite <- H2, (Z.mul_comm (sh_size tb)); apply copied_start; lia|].
  rewrite Z.add_0_r, Z.mod_small in Hrun by (unfold lenZ in Hl; lia). rewrite Hrun, bind_val. eexists. split; [done|]. assert (Hcont : contents nd = contents (data tb)).
  { apply map_eq. intros k'. apply option_eq. intros v. rewrite (cp_contents _ _ _ _ _ Hc), (contents_lookup K0 V0) by (done || apply Hok). split.
    - intros (i & Hi & Hrest). by exists (Z.of_nat j + i).
    - intros (u & Hu & Hku & Hv). rewrite (slot_off K0 V0 _ (Z.of_nat j) u) in * by done. eexists. split; [rewrite <- Hl; by apply Z.mod_pos_bound|done]. }
  split; [|split; [cbn; lia|split; [done|exact Hcont]]]. pose proof (ok_room _ _ _ _ Hok). split; cbn [set_data data sh_members sh_size grow_threshold tb1].
  - apply Hsh1. apply Hc.
  - rewrite Hcont. apply Hok.
  - lia.
  - done.
  - done.
  - apply Hc.
  - apply Hc.
Qed.
End Grow.
