(* ===== verification/SimpleHashSpec.v ===== *)
(** What the hash tables of [lib/simplehash.h] promise: they implement finite maps, and iteration
    returns every element once, even if the caller deletes elements it was given. *)
From S2P Require Import Prelude ByteMem Bits SimpleHash SimpleHashInv SimpleHashOps SimpleHashInsert SimpleHashGrow.

Section Spec.
Context {K V : Type} `{EqDecision K} `{!Countable K} (K0 : K) (V0 : V) (sizeof_element : Z) (hash : K -> Z).
Notation elem := (SH_ELEMENT_TYPE K V).
Notation table := (SH_TYPE K V).
Notation slot := (slot K0 V0).
Notation dist := (dist K0 V0 hash).
Notation dd := (dd K0 V0 hash).
Notation table_ok := (table_ok K0 V0 hash).
Implicit Types (tb : table) (d : list elem) (e : elem).

Lemma empty_contents (m : Z) : 0 < m -> contents (SH_ALLOCATE K0 V0 m) = ∅ /\ ordered K0 V0 hash (SH_ALLOCATE K0 V0 m) /\ unique K0 V0 (SH_ALLOCATE K0 V0 m).
Proof.
  intros Hm. assert (Hno : forall u, ~ used (slot (SH_ALLOCATE K0 V0 m) u)) by (intros u; by apply allocate_slot). assert (Hu : unique K0 V0 (SH_ALLOCATE K0 V0 m)) by (intros u w Hus; by destruct (Hno u)).
  split; [|split; [|done]].
  - apply map_eq. intros k. rewrite lookup_empty. apply (contents_none K0 V0); [rewrite (proj1 (allocate_slot K0 V0 m 0 Hm)); lia|done|]. intros u Hus. by destruct (Hno u).
  - intros u. rewrite !(empty_dd K0 V0 hash) by done. lia.
Qed.

(** ** Insertion with growth *)
Section Growing.
Hypothesis sizeof_small : 0 < sizeof_element < 2 ^ 30.

Lemma min_fill tb : sh_members tb <= member_limit -> sh_size tb = SH_MAX_SIZE -> SH_GROW_MIN_FILLFACTOR (sh_members tb) (sh_size tb) = false.
Proof. intros Hm ->. apply Z.leb_gt. unfold member_limit in Hm. unfold SH_MAX_SIZE. lia. Qed.

Lemma insert_restart_ok k fuel : forall tb, table_ok tb -> sh_members tb <= member_limit -> 32 - Z.log2 (sh_size tb) + (if grow_threshold tb =? 0 then 0 else 1) < Z.of_nat fuel ->
  exists r, insert_restart K0 V0 sizeof_element hash fuel tb k (hash k) = Ok r /\ insert_post K0 V0 hash (contents (data tb)) (sh_size tb) k r.
Proof.
  induction fuel as [|fuel IH]; intros tb Hok Hm Hf; pose proof (ok_shape _ _ _ _ Hok) as Hs; pose proof (size_bounds _ Hs) as Hsz; destruct (sp_pow _ Hs) as (b & Hb & Hpow); rewrite Hpow, Z.log2_pow2 in Hf by lia; [destruct (_ =? _); lia|].
  cbn [insert_restart]. assert (Hgrow : exists tb1, (if grow_threshold tb <=? sh_members tb then if sh_size tb =? SH_MAX_SIZE then Err "hash table size exceeded" else SH_GROW K0 V0 sizeof_element hash tb (sh_size tb * 2) else Ok tb) = Ok tb1 /\
    table_ok tb1 /\ sh_members tb1 = sh_members tb /\ sh_members tb1 + 1 < sh_size tb1 /\ contents (data tb1) = contents (data tb) /\ sh_size tb <= sh_size tb1 /\ (grow_threshold tb = 0 -> sh_size tb1 = 2 * sh_size tb)).
  { pose proof (ok_room _ _ _ _ Hok). pose proof (ok_threshold _ _ _ _ Hok). assert (0 <= sh_members tb) by (rewrite (ok_members _ _ _ _ Hok); lia). destruct (Z.leb_spec (grow_threshold tb) (sh_members tb)) as [Hg|Hg].
    - destruct (Z.eqb_spec (sh_size tb) SH_MAX_SIZE) as [E|E]; [pose proof (ok_max _ _ _ _ Hok E); lia|]. destruct (grow_spec K0 V0 sizeof_element hash sizeof_small tb Hok E) as (tb1 & -> & Hok1 & Hs1 & Hm1 & Hc1). exists tb1. split_and!; (done || lia).
    - exists tb. split_and!; (done || lia). }
  destruct Hgrow as (tb1 & -> & Hok1 & Hm1 & Hr1 & Hc1 & Hle & Hdouble). rewrite bind_val. pose proof (ok_shape _ _ _ _ Hok1) as Hs1. pose proof (size_bounds _ Hs1) as Hsz1. rewrite bucket_ok by done.
  destruct (insert_loop_ok K0 V0 hash tb1 k Hok1 Hr1 (length (data tb1)) 0) as (r & Hrun & Hr); [lia|by intros x Hx; lia|rewrite <- (sp_len _ Hs1); unfold lenZ; lia|]. rewrite Z.add_0_r in Hrun. rewrite Hrun, bind_val, <- Hc1. assert (Hpost : forall r, insert_post K0 V0 hash (contents (data tb1)) (sh_size tb1) k r -> insert_post K0 V0 hash (contents (data tb1)) (sh_size tb) k r) by (intros [[tb2 p] found] (H1 & H2 & H3); split; [done|]; split; [lia|done]).
  destruct r as [r|]; [exists r; auto|]. assert (Hne : sh_size tb1 <> SH_MAX_SIZE) by (intros E; rewrite (min_fill tb1) in Hr by (done || lia); done).
  destruct (IH (set_threshold tb1 0)) as (r & Hr2 & Hpost2); [| | |by exists r; auto].
  - destruct Hok1 as [[H1 H2 H3] ? ? ? ? ? ?]. split; [by split|done|done|cbn; lia|done|done|done].
  - cbn. lia.
  - cbn [sh_size grow_threshold set_threshold Z.eqb]. destruct (sp_pow _ Hs1) as (b1 & Hb1 & Hpow1). rewrite Hpow1, Z.log2_pow2 by lia. rewrite Hpow, Hpow1 in *. destruct (Z.eqb_spec (grow_threshold tb) 0) as [E|E].
    + specialize (Hdouble E). assert (b1 = b + 1); [|lia]. apply (Z.pow_inj_r 2); [lia|lia|lia|]. rewrite Z.pow_add_r by lia. lia.
    + apply Z.pow_le_mono_r_iff in Hle; lia.
Qed.

Lemma insert_spec tb k : table_ok tb -> sh_members tb <= member_limit ->
  exists r, SH_INSERT K0 V0 sizeof_element hash tb k = Ok r /\ insert_post K0 V0 hash (contents (data tb)) (sh_size tb) k r.
Proof.
  intros Hok Hm. apply insert_restart_ok; [done|done|]. destruct (sp_pow _ (ok_shape _ _ _ _ Hok)) as (b & Hb & ->). rewrite Z.log2_pow2 by lia. destruct (_ =? _); lia.
Qed.

(** ** Creation *)
Lemma create_spec nelements : is_u 32 nelements -> exists tb, SH_CREATE K0 V0 sizeof_element nelements = Ok tb /\ table_ok tb /\ contents (data tb) = ∅ /\ (nelements <= member_limit -> nelements <= sh_size tb).
Proof.
  intros Hn. unfold SH_CREATE. assert (Hq : 0 <= nelements * 10 / 9 <= 2 ^ 33) by (unfold is_u in Hn; split; [apply Z.div_pos; lia|apply Z.div_le_upper_bound; lia]). set (size := Z.min SH_MAX_SIZE (nelements * 10 / 9)).
  assert (Hsize : 0 <= size <= 2 ^ 32) by (unfold size, SH_MAX_SIZE; lia). set (b := Z.log2_up (Z.max size 2)).
  assert (Hb : 1 <= b <= 32).
  { unfold b. split; [change 1 with (Z.log2_up 2); apply Z.log2_up_le_mono; lia|]. change 32 with (Z.log2_up (2 ^ 32)). apply Z.log2_up_le_mono. lia. }
  assert (Hle : size <= 2 ^ b) by (unfold b; pose proof (Z.log2_up_spec (Z.max size 2) ltac:(lia)); lia).
  assert (Hpar : SH_COMPUTE_PARAMETERS (K := K) (V := V) sizeof_element (mkSH 0 0 0 0 []) size = SH_COMPUTE_PARAMETERS sizeof_element (mkSH 0 0 0 0 []) (2 ^ b)).
  { unfold SH_COMPUTE_PARAMETERS. assert (2 <= 2 ^ b <= 2 ^ 32) by (split; [change 2 with (2 ^ 1) at 1|]; apply Z.pow_le_mono_r; lia).
    rewrite (proj1 (proj1 (power2_correct (Z.max size 2) ltac:(lia)))), (Z.max_l (2 ^ b)) by lia. rewrite (proj1 (proj1 (power2_correct (2 ^ b) ltac:(lia)))). rewrite Z.log2_up_pow2 by lia. done. }
  rewrite Hpar. destruct (compute_ok sizeof_element sizeof_small (K := K) (V := V) (mkSH 0 0 0 0 []) b Hb) as (t & -> & Ht & Htm). rewrite bind_val. eexists. split; [done|].
  assert (Hp : 0 < 2 ^ b) by (apply Z.pow_pos_nonneg; lia). destruct (empty_contents (2 ^ b) Hp) as (Hc & Ho & Hu). cbn [data set_data sh_size]. split; [|split; [done|]].
  - split; cbn [data set_data sh_size sh_members grow_threshold]; [split; cbn; [by exists b|by apply (allocate_slot K0 V0 _ 0)|done]|by rewrite Hc|done|done|done|done|done].
  - intros Hlim. unfold size, member_limit, SH_MAX_SIZE in *. assert (nelements <= nelements * 10 / 9) by (apply Z.div_le_lower_bound; unfold is_u in Hn; lia). lia.
Qed.

End Growing.

Lemma reset_spec tb : table_ok tb -> table_ok (SH_RESET K0 V0 tb) /\ contents (data (SH_RESET K0 V0 tb)) = ∅.
Proof.
  intros Hok. pose proof (ok_shape _ _ _ _ Hok) as Hs. pose proof (size_bounds _ Hs). destruct (empty_contents (sh_size tb) ltac:(lia)) as (Hc & Ho & Hu). split; [|done].
  split; cbn [SH_RESET set_members set_data data sh_size sh_members grow_threshold]; [|by rewrite Hc|lia|apply Hok|apply Hok|done|done]. split; cbn; [apply Hs|apply (allocate_slot K0 V0 _ 0); lia|apply Hs].
Qed.

(** ** Deletion *)
(** The bucket that a pointer names is a bucket modulo the size. *)
Lemma slot_bucket tb u : shape tb -> slot (data tb) (u `mod` sh_size tb) = slot (data tb) u.
Proof. intros Hs. pose proof (size_bounds _ Hs). apply slot_mod. rewrite (sp_len _ Hs). apply Z.mod_mod. lia. Qed.

Lemma delete_loop_ok tb k j i : table_ok tb -> 0 <= i <= j -> (forall x, i <= x < j -> used (slot (data tb) (hash k + x)) /\ SH_KEY (slot (data tb) (hash k + x)) <> k) ->
  (used (slot (data tb) (hash k + j)) -> SH_KEY (slot (data tb) (hash k + j)) = k) -> forall fuel, j - i < Z.of_nat fuel ->
  delete_loop hash fuel tb k ((hash k + i) `mod` sh_size tb) = if decide (used (slot (data tb) (hash k + j))) then
    d ← delete_shift hash (length (data tb)) tb (data tb) ((hash k + j) `mod` sh_size tb) ((hash k + j) `mod` sh_size tb);
    Ok (set_members (set_data tb d) (wrapu 32 (sh_members tb - 1)), true) else Ok (tb, false).
Proof.
  intros Hok Hij Hpre Hstop. pose proof (ok_shape _ _ _ _ Hok) as Hs. remember (Z.to_nat (j - i)) as m eqn:Hm. revert i Hij Hpre Hm.
  induction m as [|m IH]; intros i Hij Hpre Hm [|fuel] Hf; try lia; cbn [delete_loop]; rewrite (get_ok K0 V0), bind_val, empty_dec by done.
  - assert (i = j) as -> by lia. case_decide as Hu; [rewrite bool_decide_true by done; cbn [negb]; by rewrite (bool_decide_true (_ = SH_STATUS_IN_USE)), bool_decide_true by auto|by rewrite bool_decide_false by done].
  - destruct (Hpre i ltac:(lia)) as [Hu Hk]. rewrite bool_decide_true by done. cbn [negb]. rewrite (bool_decide_false (_ = k)), andb_false_r by done. rewrite next_ok by done. rewrite <- Z.add_assoc. apply IH; [lia|intros; apply Hpre; lia|lia|lia].
Qed.

(** Deletion of [k]; when it was there, in bucket [c], the buckets after it were shifted. *)
Lemma delete_spec tb k : table_ok tb -> exists tb', SH_DELETE hash tb k = Ok (tb', bool_decide (is_Some (contents (data tb) !! k))) /\ table_ok tb' /\
  contents (data tb') = delete k (contents (data tb)) /\ sh_size tb' = sh_size tb /\
  (contents (data tb) !! k = None /\ tb' = tb \/ exists c m, used (slot (data tb) c) /\ SH_KEY (slot (data tb) c) = k /\ shifted_back K0 V0 hash (data tb) c m (data tb')).
Proof.
  intros Hok. pose proof (ok_shape _ _ _ _ Hok) as Hs. destruct (probe_stop K0 V0 hash tb k Hok) as (j & Hj & Hpre & Hend). unfold SH_DELETE. rewrite bucket_ok by done.
  pose proof (delete_loop_ok tb k j 0 Hok ltac:(lia) Hpre ltac:(by destruct Hend as [[? _]|[_ ?]]) (length (data tb)) ltac:(rewrite <- (sp_len _ Hs) in Hj; unfold lenZ in Hj; lia)) as Hrun. rewrite Z.add_0_r in Hrun. rewrite Hrun.
  destruct Hend as [[Hu Hc]|[Hu Hk]].
  - rewrite decide_False by done. exists tb. rewrite Hc, bool_decide_false by (by intros [? ?]). split_and!; [done|done|by rewrite delete_id|done|by left].
  - rewrite decide_True by done. destruct (delete_at K0 V0 hash tb (hash k + j) Hok Hu) as (d' & m & -> & Hb & Hok' & Hc). rewrite bind_val. eexists. rewrite Hk in Hc.
    assert (Hsome : contents (data tb) !! k = Some (sh_val (slot (data tb) (hash k + j)))) by (apply (contents_lookup K0 V0); [by apply len_pos|apply Hok|by eexists]).
    rewrite Hsome, bool_decide_true by done. split_and!; [done|done|done|done|]. right. by exists (hash k + j), m.
Qed.

Lemma delete_item_spec tb p : table_ok tb -> 0 <= p < sh_size tb -> used (slot (data tb) p) -> exists tb', SH_DELETE_ITEM hash tb p = Ok tb' /\ table_ok tb' /\ contents (data tb') = delete (SH_KEY (slot (data tb) p)) (contents (data tb)).
Proof.
  intros Hok Hp Hu. destruct (delete_at K0 V0 hash tb p Hok Hu) as (d' & m & Hrun & Hb & Hok' & Hc). unfold SH_DELETE_ITEM. rewrite Z.mod_small in Hrun by done. rewrite Hrun, bind_val. by eexists.
Qed.

(** ** Access through a pointer *)
(** [p] points to the element with key [k]. *)
Definition points tb (p : Z) (k : K) : Prop := 0 <= p < sh_size tb /\ used (slot (data tb) p) /\ SH_KEY (slot (data tb) p) = k.

Lemma get_spec tb p k : table_ok tb -> points tb p k -> exists v, elem_get tb p = Ok (mkElem SH_STATUS_IN_USE k v) /\ contents (data tb) !! k = Some v.
Proof.
  intros Hok (Hp & Hu & Hk). pose proof (ok_shape _ _ _ _ Hok) as Hs. unfold elem_get. rewrite <- (Z.mod_small p (sh_size tb)) by done. rewrite (get_ok K0 V0) by done. exists (sh_val (slot (data tb) p)). split.
  - destruct (slot (data tb) p) as [st k' v]. unfold used in Hu. cbn in *. by subst.
  - apply (contents_lookup K0 V0); [by apply len_pos|apply Hok|]. by exists p.
Qed.

(** Writing the contents of an element changes no bucket but this one, and no key. *)
Lemma put_spec tb p k v : table_ok tb -> points tb p k -> exists tb', elem_put tb p v = Ok tb' /\ table_ok tb' /\ contents (data tb') = <[k := v]> (contents (data tb)) /\ sh_size tb' = sh_size tb /\
  forall u, (used (slot (data tb') u) <-> used (slot (data tb) u)) /\ SH_KEY (slot (data tb') u) = SH_KEY (slot (data tb) u).
Proof.
  intros Hok (Hp & Hu & Hk). pose proof (ok_shape _ _ _ _ Hok) as Hs. pose proof (len_pos _ Hs) as Hn. pose proof (sp_len _ Hs) as Hl. unfold elem_put. rewrite <- (Z.mod_small p (sh_size tb)) by done. rewrite (get_ok K0 V0), bind_val by done. rewrite <- Hl, update_set, bind_val by lia.
  set (e := mkElem _ _ v). set (d' := update (data tb) p e). eexists. split; [done|]. assert (Hl' : lenZ d' = lenZ (data tb)) by apply update_len.
  assert (Hsl : forall u, (used (slot d' u) <-> used (slot (data tb) u)) /\ SH_KEY (slot d' u) = SH_KEY (slot (data tb) u)).
  { intros u. unfold d'. rewrite update_slot by lia. case_decide as E; [|done]. rewrite (slot_mod K0 V0 _ _ _ E). by destruct (slot (data tb) p). }
  assert (Hdd : forall u, dd d' u = dd (data tb) u). { intros u. destruct (Hsl u) as [Hu1 Hk1]. unfold SimpleHashInv.dd, SimpleHashInv.dist. rewrite Hk1, Hl'. destruct (decide (used (slot d' u))), (decide (used (slot (data tb) u))); tauto. }
  assert (Huq : unique K0 V0 d'). { intros u w. rewrite Hl'. destruct (Hsl u) as [Hu1 ->], (Hsl w) as [Hu2 ->]. rewrite Hu1, Hu2. apply Hok. }
  assert (Hc : contents d' = <[k := v]> (contents (data tb))).
  { apply map_eq. intros k'. apply option_eq. intros v'. rewrite (contents_lookup K0 V0), lookup_insert_Some, (contents_lookup K0 V0) by (done || lia || apply Hok). split.
    - intros (u & Hus & Hku & Hvu). unfold d' in *. rewrite update_slot in * by lia. case_decide as E; [left; cbn in *; by subst|]. right. split; [|by exists u]. intros ->. apply E. apply Hok; congruence.
    - intros [[<- <-]|(Hne & u & Hus & Hku & Hvu)].
      + exists p. unfold d'. rewrite update_slot, decide_True by (done || lia). done.
      + exists u. unfold d'. rewrite update_slot by lia. rewrite decide_False; [done|]. intros E. rewrite (slot_mod K0 V0 _ _ _ E) in Hku. congruence. }
  split_and!; [|done|done|done]. split; cbn [set_data data sh_size sh_members grow_threshold]; [|rewrite Hc, map_size_insert_Some; [apply Hok|]|apply Hok|apply Hok|apply Hok| |done].
  - split; cbn; [apply Hs|lia|apply Hs].
  - exists (sh_val (slot (data tb) p)). apply (contents_lookup K0 V0); [done|apply Hok|]. by exists p.
  - intros u. rewrite !Hdd. apply Hok.
Qed.

(** ** Iteration *)
(** [r] buckets have been passed, from [w] downwards. *)
Record iter_at tb (it : SH_ITERATOR) (w r : Z) : Prop := {
  ia_r : 0 <= r <= sh_size tb;
  ia_cur : it_cur it = (w - r) `mod` sh_size tb;
  ia_end : it_end it = w `mod` sh_size tb;
  ia_done : it_done it = (r =? sh_size tb) }.

Lemma iterate_loop_ok tb w : shape tb -> forall fuel it r, iter_at tb it w r -> sh_size tb - r < Z.of_nat fuel ->
  exists it' o r', iterate_loop fuel tb it = Ok (it', o) /\ iter_at tb it' w r' /\ r <= r' /\
    match o with
    | None => r' = sh_size tb /\ forall x, r <= x < sh_size tb -> ~ used (slot (data tb) (w - x))
    | Some p => r < r' /\ p = (w - (r' - 1)) `mod` sh_size tb /\ used (slot (data tb) (w - (r' - 1))) /\ forall x, r <= x < r' - 1 -> ~ used (slot (data tb) (w - x))
    end.
Proof.
  intros Hs fuel. pose proof (size_bounds _ Hs) as Hsz. induction fuel as [|fuel IH]; intros it r Hat Hf; [destruct Hat; lia|]. cbn [iterate_loop]. pose proof (ia_r _ _ _ _ Hat) as Hr. rewrite (ia_done _ _ _ _ Hat).
  destruct (Z.eqb_spec r (sh_size tb)) as [->|Hne]; [exists it, None, (sh_size tb); split_and!; [done|done|lia|done|lia]|]. cbv zeta. rewrite (ia_cur _ _ _ _ Hat), (ia_end _ _ _ _ Hat).
  rewrite (get_ok K0 V0), bind_val by done. cbn [orb]. rewrite mask_wrap, !mask_mod, !Z.mod_mod, Zminus_mod_idemp_l by (done || lia). replace (w - r - 1) with (w - (r + 1)) by lia.
  assert (Hdone : ((w - (r + 1)) `mod` sh_size tb =? w `mod` sh_size tb) = (r + 1 =? sh_size tb)).
  { apply eq_true_iff_eq. rewrite !Z.eqb_eq. split.
    - intros E. apply mod_shift in E as [q Hq]; [|lia]. assert (q = -1) by nia. lia.
    - intros <-. apply mod_shift; [lia|]. exists (-1). lia. }
  rewrite Hdone. set (it1 := mkIter _ _ _). assert (Hat1 : iter_at tb it1 w (r + 1)) by (split; [lia|done|done|done]). case_bool_decide as Hu.
  - exists it1, (Some ((w - r) `mod` sh_size tb)), (r + 1). replace (r + 1 - 1) with r by lia. split_and!; [done|done|lia|lia|done|done|lia].
  - destruct (IH it1 (r + 1) Hat1 ltac:(lia)) as (it' & o & r' & Hrun & Hat' & Hle & Ho). exists it', o, r'. split; [done|]. split; [done|]. split; [lia|].
    assert (Hx : forall x, (r + 1 <= x -> ~ used (slot (data tb) (w - x))) -> r <= x -> ~ used (slot (data tb) (w - x))) by (intros x Hx Hrx; destruct (decide (x = r)) as [->|]; [done|apply Hx; lia]).
    destruct o as [p|].
    + destruct Ho as (Hr' & Hp & Hup & Hno). split_and!; [lia|done|done|]. intros x Hxr. apply Hx; [|lia]. intros. apply Hno. lia.
    + destruct Ho as (Hr' & Hno). split; [done|]. intros x Hxr. apply Hx; [|lia]. intros. apply Hno. lia.
Qed.

(** The iterator stands before the buckets of the elements with the keys [R]; bucket [w], where it started, is empty. *)
Definition iter_ok tb (it : SH_ITERATOR) (R : gset K) : Prop := exists w r, iter_at tb it w r /\ ~ used (slot (data tb) w) /\
  forall k, k ∈ R <-> exists x, r <= x < sh_size tb /\ used (slot (data tb) (w - x)) /\ SH_KEY (slot (data tb) (w - x)) = k.

Lemma first_empty_ok d i : Exists (fun e => ~ used e) d -> exists j e, d !! j = Some e /\ ~ used e /\ first_empty d i = i + Z.of_nat j.
Proof.
  intros He. revert i. induction d as [|e d IH]; intros i; [by apply Exists_nil in He|]. cbn [first_empty]. destruct (decide (used e)) as [Hu|Hu].
  - rewrite bool_decide_true by done. cbn [negb]. apply Exists_cons in He as [He|He]; [done|]. destruct (IH He (i + 1)) as (j & e' & Hj & Hu' & ->). exists (S j), e'. split_and!; [done|done|lia].
  - rewrite bool_decide_false by done. exists 0%nat, e. split_and!; [done|done|cbn; lia].
Qed.

Lemma start_spec tb : table_ok tb -> iter_ok tb (SH_START_ITERATE tb) (dom (contents (data tb))).
Proof.
  intros Hok. pose proof (ok_shape _ _ _ _ Hok) as Hs. pose proof (size_bounds _ Hs) as Hsz. pose proof (len_pos _ Hs) as Hn. pose proof (sp_len _ Hs) as Hl.
  destruct (some_empty K0 V0 (data tb) Hn (ok_unique _ _ _ _ Hok)) as [w0 Hw0]; [rewrite <- (ok_members _ _ _ _ Hok), Hl; apply Hok|].
  destruct (first_empty_ok (data tb) 0) as (j & e & Hj & Hue & Hfe); [apply Exists_exists; exists (slot (data tb) w0); split; [apply (elem_slot K0 V0); [done|by exists w0]|done]|]. pose proof (lookup_lt_Some _ _ _ Hj) as Hjl.
  assert (Hje : slot (data tb) (Z.of_nat j) = e) by (unfold SimpleHashInv.slot; rewrite Z.mod_small by (unfold lenZ; lia); by rewrite Nat2Z.id, nth_lookup, Hj). assert (Hjs : Z.of_nat j < sh_size tb) by (unfold lenZ in Hl; lia).
  exists (Z.of_nat j), 0. unfold SH_START_ITERATE. rewrite Hfe, Z.add_0_l, wrapu_small by (unfold is_u; lia). split; [split; cbn [it_cur it_end it_done]|split].
  - lia.
  - rewrite Z.sub_0_r, Z.mod_small; lia.
  - rewrite Z.mod_small; lia.
  - symmetry. apply Z.eqb_neq. lia.
  - by rewrite Hje.
  - intros k. rewrite elem_of_dom. split.
    + intros [v Hv]. apply (contents_lookup K0 V0) in Hv as (u & Hu & Hk & _); [|done|apply Hok]. pose proof (Z.mod_pos_bound (Z.of_nat j - u) (sh_size tb) ltac:(lia)) as Hx. exists ((Z.of_nat j - u) `mod` sh_size tb). split; [done|].
      rewrite (slot_mod K0 V0 _ _ u); [done|]. rewrite Hl, Zminus_mod_idemp_r. f_equal. lia.
    + intros (x & _ & Hu & Hk). eexists. apply (contents_lookup K0 V0); [done|apply Hok|]. by eexists.
Qed.

Lemma iterate_spec tb it R : table_ok tb -> iter_ok tb it R -> exists it' o, SH_ITERATE tb it = Ok (it', o) /\
  match o with
  | None => R = ∅
  | Some p => exists k, points tb p k /\ k ∈ R /\ iter_ok tb it' (R ∖ {[k]})
  end.
Proof.
  intros Hok (w & r & Hat & Hw & HR). pose proof (ok_shape _ _ _ _ Hok) as Hs. pose proof (size_bounds _ Hs) as Hsz. unfold SH_ITERATE. pose proof (ia_r _ _ _ _ Hat) as Hrr.
  destruct (iterate_loop_ok tb w Hs (S (length (data tb))) it r Hat) as (it' & o & r' & -> & Hat' & Hle & Ho); [rewrite <- (sp_len _ Hs) in *; unfold lenZ in *; lia|]. exists it', o. split; [done|]. destruct o as [p|].
  - destruct Ho as (Hr' & -> & Hu & Hno). pose proof (ia_r _ _ _ _ Hat') as Hrr'. set (k := SH_KEY (slot (data tb) (w - (r' - 1)))). exists k. split; [|split].
    + split; [apply Z.mod_pos_bound; lia|]. rewrite slot_bucket by done. done.
    + apply HR. exists (r' - 1). split; [lia|done].
    + exists w, r'. split; [done|]. split; [done|]. intros k'. rewrite elem_of_difference, elem_of_singleton, HR. split.
      * intros [(x & Hx & Hux & Hkx) Hne]. exists x. split; [|done]. destruct (decide (x = r' - 1)) as [->|]; [by destruct Hne|]. destruct (decide (x < r' - 1)); [|lia]. by destruct (Hno x ltac:(lia)).
      * intros (x & Hx & Hux & Hkx). split; [exists x; split; [lia|done]|]. intros ->. pose proof (ok_unique _ _ _ _ Hok _ _ Hux Hu Hkx) as E. rewrite (sp_len _ Hs) in E. apply mod_near in E; lia.
  - destruct Ho as [-> Hno]. apply set_eq. intros k. rewrite HR. split; [|intros Hk; by apply not_elem_of_empty in Hk]. intros (x & Hx & Hux & _). by destruct (Hno x Hx).
Qed.

(** Deleting an element that was already returned leaves the others to come. *)
Lemma iter_delete tb it R k tb' b : table_ok tb -> iter_ok tb it R -> k ∉ R -> SH_DELETE hash tb k = Ok (tb', b) -> iter_ok tb' it R.
Proof.
  intros Hok (w & r & Hat & Hw & HR) Hk Hrun. pose proof (ok_shape _ _ _ _ Hok) as Hs. pose proof (size_bounds _ Hs) as Hsz. pose proof (sp_len _ Hs) as Hl. pose proof (ia_r _ _ _ _ Hat) as Hr.
  destruct (delete_spec tb k Hok) as (tb2 & Hrun2 & Hok' & _ & Hsize & Hcase). rewrite Hrun2 in Hrun. injection Hrun as -> _. destruct Hcase as [[_ ->]|(c & m & Hc & Hck & Hb)]; [by exists w, r|].
  pose proof (sb_m _ _ _ _ _ _ _ Hb) as Hm. rewrite Hl in Hm. pose proof (Z.mod_pos_bound (w - c) (sh_size tb) ltac:(lia)) as Hx0. set (x0 := (w - c) `mod` sh_size tb) in *.
  assert (Hwc : forall d x, lenZ d = sh_size tb -> slot d (w - x) = slot d (c + (x0 - x))).
  { intros d x Hd. apply slot_mod. rewrite Hd. unfold x0. replace (c + ((w - c) `mod` sh_size tb - x)) with (c - x + (w - c) `mod` sh_size tb) by lia. rewrite Zplus_mod_idemp_r. f_equal. lia. }
  assert (Hx0m : m <= x0).
  { destruct (decide (m <= x0)); [done|]. exfalso. apply Hw. rewrite <- (Z.sub_0_r w), Hwc by done. rewrite Z.sub_0_r. destruct (decide (x0 = 0)) as [->|]; [by rewrite Z.add_0_r|]. apply (sb_away _ _ _ _ _ _ _ Hb). lia. }
  assert (Hxr : x0 < r).
  { destruct (decide (x0 < r)); [done|]. destruct Hk. apply HR. exists x0. rewrite Hwc by done. rewrite Z.sub_diag, Z.add_0_r. split; [lia|done]. }
  assert (Hsame : forall x, x = 0 \/ r <= x < sh_size tb -> slot (data tb') (w - x) = slot (data tb) (w - x)).
  { intros x Hx. pose proof (sb_len _ _ _ _ _ _ _ Hb) as Hl'. rewrite !Hwc by lia. destruct Hx as [->|Hx].
    - rewrite Z.sub_0_r, (sb_slots _ _ _ _ _ _ _ Hb) by lia. by rewrite !decide_False by lia.
    - rewrite <- (slot_round K0 V0 (data tb') _ 1), <- (slot_round K0 V0 (data tb) _ 1) by lia. rewrite Hl', Hl. replace (c + (x0 - x) + 1 * sh_size tb) with (c + (sh_size tb + x0 - x)) by lia. rewrite (sb_slots _ _ _ _ _ _ _ Hb) by lia. by rewrite !decide_False by lia. }
  exists w, r. split; [destruct Hat; split; by rewrite ?Hsize|]. split; [rewrite <- (Z.sub_0_r w), Hsame by lia; by rewrite Z.sub_0_r|]. rewrite Hsize. intros k'. rewrite HR. split; intros (x & Hx & Hux); exists x; (split; [done|]); rewrite Hsame in * by lia; done.
Qed.

Lemma iter_put tb it R p k v tb' : table_ok tb -> iter_ok tb it R -> points tb p k -> elem_put tb p v = Ok tb' -> iter_ok tb' it R.
Proof.
  intros Hok (w & r & Hat & Hw & HR) Hp Hrun. destruct (put_spec tb p k v Hok Hp) as (tb2 & Hrun2 & _ & _ & Hsize & Hsame). rewrite Hrun2 in Hrun. injection Hrun as ->. exists w, r. split; [destruct Hat; split; by rewrite ?Hsize|].
  split; [rewrite (proj1 (Hsame w)); done|]. rewrite Hsize. intros k'. rewrite HR. split; intros (x & Hx & Hux); exists x; (split; [done|]); destruct (Hsame (w - x)) as [Hu ->] || destruct (Hsame (w - x)) as [Hu <-]; tauto.
Qed.

(** ** Iteration over a table that changes *)
Definition iter_weak tb (it : SH_ITERATOR) : Prop := 0 <= it_cur it < sh_size tb /\ 0 <= it_end it < sh_size tb /\ (it_done it = true -> it_cur it = it_end it).
(** The buckets left to visit. *)
Definition iter_left tb (it : SH_ITERATOR) : Z := if it_done it then 0 else sh_size tb - (it_end it - it_cur it) `mod` sh_size tb.

Lemma iter_weak_at tb it : shape tb -> iter_weak tb it -> iter_at tb it (it_end it) (sh_size tb - iter_left tb it).
Proof.
  intros Hs (Hc & He & Hd). pose proof (size_bounds _ Hs) as Hsz. pose proof (Z.mod_pos_bound (it_end it - it_cur it) (sh_size tb) ltac:(lia)) as Hm. unfold iter_left. split.
  - destruct (it_done it); lia.
  - destruct (it_done it).
    + rewrite Hd by done. rewrite Z.sub_0_r. symmetry. rewrite <- (Z.mod_add _ 1) by lia. replace (it_end it - sh_size tb + 1 * sh_size tb) with (it_end it) by lia. by rewrite Z.mod_small by lia.
    + replace (sh_size tb - (sh_size tb - (it_end it - it_cur it) `mod` sh_size tb)) with ((it_end it - it_cur it) `mod` sh_size tb) by lia. rewrite Zminus_mod_idemp_r. replace (it_end it - (it_end it - it_cur it)) with (it_cur it) by lia. by rewrite Z.mod_small by lia.
  - by rewrite Z.mod_small by lia.
  - destruct (it_done it); symmetry; [apply Z.eqb_eq; lia|apply Z.eqb_neq; lia].
Qed.

Lemma iterate_weak tb it : shape tb -> iter_weak tb it -> exists it' o, SH_ITERATE tb it = Ok (it', o) /\ iter_weak tb it' /\ 0 <= iter_left tb it' <= sh_size tb /\
  match o with
  | None => True
  | Some p => iter_left tb it' < iter_left tb it /\ exists k, points tb p k
  end.
Proof.
  intros Hs Hw. pose proof (size_bounds _ Hs) as Hsz. pose proof (iter_weak_at tb it Hs Hw) as Hat. pose proof (ia_r _ _ _ _ Hat) as Hr0. unfold SH_ITERATE.
  destruct (iterate_loop_ok tb (it_end it) Hs (S (length (data tb))) it _ Hat) as (it' & o & r' & -> & Hat' & Hle & Ho); [rewrite <- (sp_len _ Hs) in *; unfold lenZ in *; lia|]. destruct Hw as (Hc & He & Hd). pose proof (ia_r _ _ _ _ Hat') as Hr.
  assert (He' : it_end it' = it_end it) by (rewrite (ia_end _ _ _ _ Hat'); apply Z.mod_small; lia). pose proof (ia_cur _ _ _ _ Hat') as Hcur. pose proof (ia_done _ _ _ _ Hat') as Hdone. pose proof (Z.mod_pos_bound (it_end it - r') (sh_size tb) ltac:(lia)).
  assert (Hleft : iter_left tb it' = sh_size tb - r').
  { unfold iter_left. rewrite Hdone, He', Hcur. destruct (Z.eqb_spec r' (sh_size tb)); [lia|]. rewrite Zminus_mod_idemp_r. replace (it_end it - (it_end it - r')) with r' by lia. rewrite Z.mod_small by lia. lia. }
  exists it', o. split; [done|]. split; [|split; [lia|]].
  - split; [lia|]. split; [lia|]. rewrite Hdone, Z.eqb_eq. intros ->. rewrite Hcur, He'. rewrite <- (Z.mod_add _ 1) by lia. replace (it_end it - sh_size tb + 1 * sh_size tb) with (it_end it) by lia. apply Z.mod_small. lia.
  - destruct o as [p|]; [|done]. destruct Ho as (Hr' & -> & Hu & _). split; [lia|]. eexists. split; [apply Z.mod_pos_bound; lia|]. rewrite slot_bucket by done. done.
Qed.

Lemma start_at_weak tb x : shape tb -> iter_weak tb (SH_START_ITERATE_AT tb x).
Proof. intros Hs. pose proof (size_bounds _ Hs). unfold SH_START_ITERATE_AT, iter_weak. cbn. rewrite mask_mod by done. pose proof (Z.mod_pos_bound x (sh_size tb) ltac:(lia)). done. Qed.

Lemma iter_weak_mono tb tb' it : iter_weak tb it -> sh_size tb <= sh_size tb' -> iter_weak tb' it.
Proof. unfold iter_weak. intros (? & ? & ?) ?. split_and!; (done || lia). Qed.
End Spec.
