(* ===== verification/SimpleHashRefine.v ===== *)
(** The hash tables of [lib/simplehash.h] as finite maps: any sequence of operations, and a sweep
    over a table that deletes some of its elements. *)
From Stdlib Require Import Permutation.
From S2P Require Import Prelude ByteMem Bits Hashfn SimpleHash SimpleHashInv SimpleHashOps SimpleHashInsert SimpleHashGrow SimpleHashSpec.

Section Refine.
Context {K V : Type} `{EqDecision K} `{!Countable K} (K0 : K) (V0 : V) (sizeof_element : Z) (hash : K -> Z).
Notation table := (SH_TYPE K V).
Notation table_ok := (table_ok K0 V0 hash).
Implicit Types (tb : table) (M : gmap K V).

(** ** Sequences of operations *)
(** Insertion stores a value through the pointer it returns; lookup reads one. *)
Inductive table_op := OpInsert (k : K) (v : V) | OpLookup (k : K) | OpDelete (k : K) | OpReset.
Inductive op_result := RFound (b : bool) | RValue (v : option V) | RDone.

Definition run_op tb (o : table_op) : res (table * op_result) :=
  match o with
  | OpInsert k v => '(tb, p, found) ← SH_INSERT K0 V0 sizeof_element hash tb k; tb ← elem_put tb p v; Ok (tb, RFound found)
  | OpLookup k => p ← SH_LOOKUP hash tb k; match p with None => Ok (tb, RValue None) | Some p => e ← elem_get tb p; Ok (tb, RValue (Some (sh_val e))) end
  | OpDelete k => '(tb, found) ← SH_DELETE hash tb k; Ok (tb, RFound found)
  | OpReset => Ok (SH_RESET K0 V0 tb, RDone)
  end.
Fixpoint run_ops tb (l : list table_op) : res (table * list op_result) :=
  match l with
  | [] => Ok (tb, [])
  | o :: l => '(tb, r) ← run_op tb o; '(tb, rs) ← run_ops tb l; Ok (tb, r :: rs)
  end.

(** The same operations on a finite map. *)
Definition map_op M (o : table_op) : gmap K V * op_result :=
  match o with
  | OpInsert k v => (<[k := v]> M, RFound (bool_decide (is_Some (M !! k))))
  | OpLookup k => (M, RValue (M !! k))
  | OpDelete k => (delete k M, RFound (bool_decide (is_Some (M !! k))))
  | OpReset => (∅, RDone)
  end.
Fixpoint map_ops M (l : list table_op) : gmap K V * list op_result :=
  match l with
  | [] => (M, [])
  | o :: l => let '(M, r) := map_op M o in let '(M, rs) := map_ops M l in (M, r :: rs)
  end.

Section Proofs.
Hypothesis sizeof_small : 0 < sizeof_element < 2 ^ 30.

Lemma run_op_ok tb o : table_ok tb -> sh_members tb <= member_limit ->
  exists tb', run_op tb o = Ok (tb', (map_op (contents (data tb)) o).2) /\ table_ok tb' /\ contents (data tb') = (map_op (contents (data tb)) o).1 /\ sh_members tb' <= sh_members tb + 1.
Proof.
  intros Hok Hm. assert (Hcard : forall tb tb' : table, table_ok tb -> table_ok tb' -> (size (contents (data tb')) <= size (contents (data tb)) + 1)%nat -> sh_members tb' <= sh_members tb + 1).
  { intros t t' Ht Ht' Hle. rewrite (ok_members _ _ _ _ Ht), (ok_members _ _ _ _ Ht'). lia. }
  destruct o as [k v|k|k|]; cbn [run_op map_op fst snd].
  - destruct (insert_spec K0 V0 sizeof_element hash sizeof_small tb k Hok Hm) as ([[tb1 p] found] & -> & (Hok1 & _ & Hp & Hu & Hk & Hcase)). rewrite bind_val. cbv beta iota.
    destruct (put_spec K0 V0 hash tb1 p k v Hok1) as (tb2 & -> & Hok2 & Hc2 & _); [done|]. rewrite bind_val. exists tb2.
    assert (Hf : found = bool_decide (is_Some (contents (data tb) !! k)) /\ contents (data tb2) = <[k := v]> (contents (data tb))).
    { destruct Hcase as [(-> & Hc & Hsome)|(-> & Hnone & v0 & Hc)].
      - rewrite bool_decide_true by done. by rewrite Hc2, Hc.
      - rewrite bool_decide_false by (rewrite Hnone; by intros [? ?]). by rewrite Hc2, Hc, insert_insert_eq. }
    destruct Hf as [-> Hc]. split_and!; [done|done|done|]. apply Hcard; [done|done|]. rewrite Hc. rewrite map_size_insert. destruct (_ !! k); unfold id; lia.
  - destruct (lookup_spec K0 V0 hash tb k Hok) as (r & -> & Hr). rewrite bind_val. destruct r as [p|].
    + destruct (get_spec K0 V0 hash tb p k Hok Hr) as (v & -> & Hv). rewrite bind_val. exists tb. rewrite Hv. split_and!; [done|done|done|lia].
    + exists tb. rewrite Hr. split_and!; [done|done|done|lia].
  - destruct (delete_spec K0 V0 hash tb k Hok) as (tb' & -> & Hok' & Hc & _). rewrite bind_val. exists tb'. split_and!; [done|done|done|]. apply Hcard; [done|done|]. rewrite Hc. rewrite map_size_delete. destruct (_ !! k); unfold id; lia.
  - destruct (reset_spec K0 V0 hash tb Hok) as [Hok' Hc]. eexists. split_and!; [done|done|done|]. apply Hcard; [done|done|]. rewrite Hc, map_size_empty. lia.
Qed.

Lemma run_ops_ok l : forall tb, table_ok tb -> sh_members tb + Z.of_nat (length l) <= member_limit + 1 ->
  exists tb', run_ops tb l = Ok (tb', (map_ops (contents (data tb)) l).2) /\ table_ok tb' /\ contents (data tb') = (map_ops (contents (data tb)) l).1.
Proof.
  induction l as [|o l IH]; intros tb Hok Hm; cbn [run_ops map_ops]; [by eexists|]. cbn [length] in Hm. destruct (run_op_ok tb o Hok ltac:(lia)) as (tb1 & -> & Hok1 & Hc1 & Hm1). rewrite bind_val. cbv beta iota.
  destruct (IH tb1 Hok1 ltac:(lia)) as (tb2 & -> & Hok2 & Hc2). rewrite bind_val. cbv beta iota. exists tb2. rewrite Hc1 in *. destruct (map_op (contents (data tb)) o) as [M1 r1]. cbn [fst snd] in *. destruct (map_ops M1 l) as [M2 rs]. done.
Qed.
End Proofs.

(** C21. A fresh table behaves as the empty finite map under any sequence of insertions with stored
    values, lookups, deletions and resets, of at most 429496729 operations: no operation fails, each result
    is the one of the map, and the contents are those of the map at the end.  Collisions, displacement
    and growth of the table are never visible. *)
Theorem simplehash_refines_map (Hsize : 0 < sizeof_element < 2 ^ 30) nelements l : is_u 32 nelements -> Z.of_nat (length l) <= member_limit ->
  exists tb tb', SH_CREATE K0 V0 sizeof_element nelements = Ok tb /\ run_ops tb l = Ok (tb', (map_ops ∅ l).2) /\ table_ok tb' /\ contents (data tb') = (map_ops ∅ l).1.
Proof.
  intros Hn Hl. destruct (create_spec K0 V0 sizeof_element hash Hsize nelements Hn) as (tb & Hc & Hok & Hcont & _). pose proof (ok_members _ _ _ _ Hok) as Hm. rewrite Hcont, map_size_empty in Hm.
  destruct (run_ops_ok Hsize l tb Hok ltac:(lia)) as (tb' & Hrun & Hok' & Hc'). rewrite Hcont in *. by exists tb, tb'.
Qed.

(** ** Sweeping a table *)
(** Visit every element and delete those that [remove] chooses. *)
Fixpoint sweep (fuel : nat) (remove : K -> V -> bool) tb (it : SH_ITERATOR) : res (table * list (K * V)) :=
  match fuel with
  | O => OutOfFuel
  | S fuel =>
    '(it, o) ← SH_ITERATE tb it;
    match o with
    | None => Ok (tb, [])
    | Some p =>
      e ← elem_get tb p;
      tb ← (if remove (SH_KEY e) (sh_val e) then '(tb, _) ← SH_DELETE hash tb (SH_KEY e); Ok tb else Ok tb);
      '(tb, l) ← sweep fuel remove tb it;
      Ok (tb, (SH_KEY e, sh_val e) :: l)
    end
  end.

Lemma sweep_ok remove fuel : forall tb it R, table_ok tb -> iter_ok K0 V0 tb it R -> R ⊆ dom (contents (data tb)) -> (size R < fuel)%nat ->
  exists tb' l, sweep fuel remove tb it = Ok (tb', l) /\ table_ok tb' /\ l ≡ₚ map_to_list (filter (fun kv => kv.1 ∈ R) (contents (data tb))) /\
    contents (data tb') = filter (fun kv => ~ (kv.1 ∈ R /\ remove kv.1 kv.2 = true)) (contents (data tb)).
Proof.
  induction fuel as [|fuel IH]; intros tb it R Hok Hit Hsub Hf; [lia|]. cbn [sweep]. destruct (iterate_spec K0 V0 hash tb it R Hok Hit) as (it' & o & -> & Ho). rewrite bind_val. cbv beta iota. destruct o as [p|].
  2: { subst R. exists tb, []. split_and!; [done|done| |].
       - replace (filter _ _) with (∅ : gmap K V); [by rewrite map_to_list_empty|]. symmetry. apply map_empty. intros k. apply map_lookup_filter_None. right. intros v _ Hin. by apply not_elem_of_empty in Hin.
       - symmetry. apply map_filter_id. intros k v _ [Hin _]. by apply not_elem_of_empty in Hin. }
  destruct Ho as (k & Hp & Hk & Hit'). destruct (get_spec K0 V0 hash tb p k Hok Hp) as (v & -> & Hv). rewrite bind_val. cbn [SH_KEY sh_val].
  assert (Hstep : exists tb1, (if remove k v then '(tb, _) ← SH_DELETE hash tb k; Ok tb else Ok tb) = Ok tb1 /\ table_ok tb1 /\ iter_ok K0 V0 tb1 it' (R ∖ {[k]}) /\ contents (data tb1) = if remove k v then delete k (contents (data tb)) else contents (data tb)).
  { destruct (remove k v); [|by exists tb]. destruct (delete_spec K0 V0 hash tb k Hok) as (tb1 & Hrun & Hok1 & Hc1 & _). rewrite Hrun, bind_val. exists tb1. split_and!; [done|done| |done]. eapply (iter_delete K0 V0 hash tb _ _ k); [done|exact Hit'|set_solver|exact Hrun]. }
  destruct Hstep as (tb1 & -> & Hok1 & Hit1 & Hc1). rewrite bind_val.
  assert (Hsz : (size (R ∖ {[k]}) < fuel)%nat) by (assert (R ∖ {[k]} ⊂ R) as Hss by set_solver; apply subset_size in Hss; lia).
  destruct (IH tb1 it' (R ∖ {[k]}) Hok1 Hit1) as (tb2 & l & -> & Hok2 & Hl & Hc2); [rewrite Hc1; destruct (remove k v); rewrite ?dom_delete; set_solver|done|]. rewrite bind_val. cbv beta iota. exists tb2, ((k, v) :: l). split_and!; [done|done| |].
  - assert (Hins : filter (fun kv => kv.1 ∈ R) (contents (data tb)) = <[k := v]> (filter (fun kv => kv.1 ∈ R ∖ {[k]}) (contents (data tb1)))).
    { apply map_eq. intros k'. apply option_eq. intros v'. rewrite map_lookup_filter_Some, lookup_insert_Some, map_lookup_filter_Some, Hc1. cbn [fst]. destruct (decide (k' = k)) as [->|Hne].
      - split; [intros [Hv' _]; left; split; [done|congruence]|]. intros [[_ <-]|[Hne _]]; [by split|by destruct Hne].
      - destruct (remove k v); rewrite ?lookup_delete_ne by done; set_solver. }
    rewrite Hins, map_to_list_insert; [by rewrite Hl|]. apply map_lookup_filter_None. right. intros v' _ Hin. cbn in Hin. set_solver.
  - rewrite Hc2, Hc1. apply map_eq. intros k'. apply option_eq. intros v'. rewrite !map_lookup_filter_Some. cbn [fst snd]. destruct (decide (k' = k)) as [->|Hne].
    + destruct (remove k v) eqn:Er.
      * rewrite lookup_delete_eq. split; [by intros [? _]|]. intros [Hv' Hno]. exfalso. apply Hno. split; [done|]. congruence.
      * rewrite Hv. split; intros [Heq Hno]; (split; [done|]); injection Heq as <-; rewrite Er; by intros [_ ?].
    + destruct (remove k v); rewrite ?lookup_delete_ne by done; set_solver.
Qed.

(** C22. Iterating over a table and deleting any of the elements it returns visits every element exactly
    once, and leaves exactly the elements that were not deleted. *)
Theorem simplehash_sweep remove tb : table_ok tb ->
  exists tb' l, sweep (S (Z.to_nat (sh_members tb))) remove tb (SH_START_ITERATE tb) = Ok (tb', l) /\ table_ok tb' /\ l ≡ₚ map_to_list (contents (data tb)) /\
    contents (data tb') = filter (fun kv => remove kv.1 kv.2 = false) (contents (data tb)).
Proof.
  intros Hok. destruct (sweep_ok remove (S (Z.to_nat (sh_members tb))) tb (SH_START_ITERATE tb) (dom (contents (data tb))) Hok) as (tb' & l & Hrun & Hok' & Hl & Hc); [by apply (start_spec K0 V0 hash)|done|rewrite (ok_members _ _ _ _ Hok), size_dom; lia|].
  exists tb', l. split_and!; [done|done| |].
  - rewrite map_filter_id in Hl; [done|]. intros k v Hkv. by eapply elem_of_dom_2.
  - rewrite Hc. apply map_filter_ext. intros k v Hkv. cbn. apply elem_of_dom_2 in Hkv. destruct (remove k v); naive_solver.
Qed.
End Refine.

(** ** Witnesses *)
Definition ex_ops : list (table_op (K := Z) (V := Z)) := [OpInsert 3 30; OpInsert 260 1; OpInsert 3 31; OpInsert 5 50; OpInsert 6 60; OpLookup 3; OpDelete 260; OpLookup 260].

Lemma simplehash_refines_map_witness : exists tb tb', SH_CREATE 0 0 48 1 = Ok tb /\
  run_ops 0 0 48 murmurhash32 tb ex_ops = Ok (tb', [RFound false; RFound false; RFound true; RFound false; RFound false; RValue (Some 31); RFound true; RValue None]).
Proof.
  destruct (simplehash_refines_map 0 0 48 murmurhash32 ltac:(lia) 1 ex_ops) as (tb & tb' & Hc & Hrun & _); [unfold is_u; lia|by vm_compute|]. by exists tb, tb'.
Defined.

Lemma ex_table : exists tb : SH_TYPE Z Z, table_ok 0 0 murmurhash32 tb /\ contents (data tb) = {[3 := 31; 5 := 50; 6 := 60]}.
Proof.
  destruct (create_spec 0 0 48 murmurhash32 ltac:(lia) 1) as (tb & Hc & Hok & Hcont & _); [unfold is_u; lia|]. pose proof (ok_members _ _ _ _ Hok) as Hm. rewrite Hcont, map_size_empty in Hm.
  destruct (run_ops_ok 0 0 48 murmurhash32 ltac:(lia) ex_ops tb Hok) as (tb' & _ & Hok' & Hc'); [rewrite Hm; by vm_compute|]. exists tb'. split; [done|]. rewrite Hc', Hcont. by vm_compute.
Qed.

Lemma simplehash_sweep_witness : exists (tb : SH_TYPE Z Z) tb' l, sweep murmurhash32 (S (Z.to_nat (sh_members tb))) (fun k v => k =? 5) tb (SH_START_ITERATE tb) = Ok (tb', l) /\
  l ≡ₚ [(3, 31); (5, 50); (6, 60)] /\ contents (data tb') = {[3 := 31; 6 := 60]}.
Proof.
  destruct ex_table as (tb & Hok & Hc). destruct (simplehash_sweep 0 0 murmurhash32 (fun k v => k =? 5) tb Hok) as (tb' & l & Hrun & _ & Hl & Hc'). exists tb, tb', l. rewrite Hc in *. split_and!; [done| |].
  - rewrite Hl. apply NoDup_Permutation; [apply NoDup_map_to_list|apply (bool_decide_unpack _); by vm_compute|]. intros [k v]. rewrite elem_of_map_to_list. split.
    + intros Hk. repeat (apply lookup_insert_Some in Hk as [[<- <-]|[_ Hk]]; [set_solver|]). apply lookup_singleton_Some in Hk as [<- <-]. set_solver.
    + rewrite !elem_of_cons, elem_of_nil. intros [[= -> ->]|[[= -> ->]|[[= -> ->]|[]]]]; by vm_compute.
  - rewrite Hc'. by vm_compute.
Defined.
