(* ===== verification/Bitmapset.v ===== *)
(** Bitmap sets: src/pg-src/src/backend/nodes/bitmapset.c.

    A [Bitmapset *] is [option Bitmapset] ([None] is the NULL pointer); the
    words are 64-bit unsigned integers, least significant word first.  Loops over
    word arrays are recursions over the word lists, a loop over two arrays
    up to the shorter length being a recursion over both.  Functions that
    recycle their argument (reuse or free its storage) are modelled by the value
    they return.  The abstraction [bms_set] maps a bitmapset to the finite set of
    its members, and every operation is proved to implement the corresponding
    operation on finite sets. *)

From S2P Require Import Prelude Bits Hashfn.

(** ** Data *)

Definition BITS_PER_BITMAPWORD : Z := 64.

Record Bitmapset := mkBitmapset { words : list Z }.
Definition nwords (a : Bitmapset) : Z := Z.of_nat (length (words a)).

(** A [Bitmapset *]. *)
Abbreviation bmsptr := (option Bitmapset).

Inductive BMS_Comparison := BMS_EQUAL | BMS_SUBSET1 | BMS_SUBSET2 | BMS_DIFFERENT.
Inductive BMS_Membership := BMS_EMPTY_SET | BMS_SINGLETON | BMS_MULTIPLE.

#[export] Instance Bitmapset_eq_dec : EqDecision Bitmapset.
Proof. solve_decision. Defined.
#[export] Instance BMS_Comparison_eq_dec : EqDecision BMS_Comparison.
Proof. solve_decision. Defined.
#[export] Instance BMS_Membership_eq_dec : EqDecision BMS_Membership.
Proof. solve_decision. Defined.

(** C division and remainder truncate towards zero. *)
Definition WORDNUM (x : Z) : Z := Z.quot x BITS_PER_BITMAPWORD.
Definition BITNUM (x : Z) : Z := Z.rem x BITS_PER_BITMAPWORD.

Definition bmw (x : Z) : Z := u64 x.
(** [~w] on a bitmapword. *)
Definition bmw_not (w : Z) : Z := notu 64 w.
(** [(bitmapword) 1 << n] *)
Definition bmw_bit (n : Z) : Z := shlu 64 1 n.
(** [~(bitmapword) 0] *)
Definition bmw_ones : Z := bmw_not 0.

(** [(signedbitmapword) (x) & -((signedbitmapword) (x))] *)
Definition RIGHTMOST_ONE (x : Z) : Z := Z.land (i64 x) (i64 (- i64 x)).
Definition HAS_MULTIPLE_ONES (x : Z) : bool := negb (bmw (RIGHTMOST_ONE x) =? x).

Definition bmw_leftmost_one_pos (w : Z) : Z := pg_leftmost_one_pos64 w.
Definition bmw_rightmost_one_pos (w : Z) : Z := pg_rightmost_one_pos64 w.
Definition bmw_popcount (w : Z) : Z := pg_popcount64 w.

Definition neg_member_error : string := "negative bitmapset member not allowed".

(** ** Loops over word arrays *)

(** [for (i = 0; i < otherlen; i++) result->words[i] op= other->words[i];] where
    [other] is not longer than [result]. *)
Fixpoint words_update (op : Z -> Z -> Z) (result other : list Z) : list Z :=
  match result, other with
  | r :: rs, o :: os => op r o :: words_update op rs os
  | rs, [] => rs
  | [], _ => []
  end.

(** [for (i = 0; i < shortlen; i++) if (test(a->words[i], b->words[i])) return true;] *)
Fixpoint words_exists2 (test : Z -> Z -> bool) (a b : list Z) : bool :=
  match a, b with
  | x :: a', y :: b' => test x y || words_exists2 test a' b'
  | _, _ => false
  end.

(** [for (; i < len; i++) if (words[i] != 0) return true;] *)
Fixpoint words_nonzero (a : list Z) : bool :=
  match a with
  | [] => false
  | x :: a' => negb (x =? 0) || words_nonzero a'
  end.

(** ** Operations *)

Definition bms_copy (a : bmsptr) : bmsptr := a.

Definition bms_equal (a b : bmsptr) : bool :=
  match a, b with
  | None, None => true
  | None, Some _ => false
  | Some _, None => false
  | Some a, Some b =>
      let '(shorter, longer) := if nwords a <=? nwords b then (a, b) else (b, a) in
      if words_exists2 (fun s l => negb (s =? l)) (words shorter) (words longer) then false
      else negb (words_nonzero (drop (length (words shorter)) (words longer)))
  end.

(** [while (--i >= 0)]: compare the common words from the most significant down. *)
Fixpoint bms_compare_common (a b : list Z) : Z :=
  match a, b with
  | aw :: a', bw :: b' =>
      let r := bms_compare_common a' b' in
      if r =? 0 then (if aw =? bw then 0 else if bw <? aw then 1 else -1) else r
  | _, _ => 0
  end.

Definition bms_compare (a b : bmsptr) : Z :=
  match a, b with
  | None, None => 0
  | None, Some _ => -1
  | Some _, None => 1
  | Some a, Some b =>
      let shortlen := Nat.min (length (words a)) (length (words b)) in
      if words_nonzero (drop shortlen (words a)) then 1
      else if words_nonzero (drop shortlen (words b)) then -1
      else bms_compare_common (words a) (words b)
  end.

Definition bms_make_singleton (x : Z) : res bmsptr :=
  if x <? 0 then Err neg_member_error
  else
    let wordnum := WORDNUM x in
    let bitnum := BITNUM x in
    Ok (Some (mkBitmapset (replicate (Z.to_nat wordnum) 0 ++ [bmw_bit bitnum]))).

Definition bms_union (a b : bmsptr) : bmsptr :=
  match a, b with
  | None, _ => bms_copy b
  | _, None => bms_copy a
  | Some a, Some b =>
      let '(result, other) := if nwords a <=? nwords b then (b, a) else (a, b) in
      Some (mkBitmapset (words_update Z.lor (words result) (words other)))
  end.

Definition bms_is_empty_internal (a : Bitmapset) : bool := negb (words_nonzero (words a)).

(** "If we computed an empty result, we must return NULL". *)
Definition null_if_empty (a : Bitmapset) : bmsptr :=
  if bms_is_empty_internal a then None else Some a.

Definition bms_intersect (a b : bmsptr) : bmsptr :=
  match a, b with
  | Some a, Some b =>
      let '(result, other) := if nwords a <=? nwords b then (a, b) else (b, a) in
      null_if_empty (mkBitmapset (words_update Z.land (words result) (words other)))
  | _, _ => None
  end.

Definition andnot (x y : Z) : Z := Z.land x (bmw_not y).

Definition bms_nonempty_difference (a b : bmsptr) : bool :=
  match a, b with
  | None, _ => false
  | Some _, None => true
  | Some a, Some b =>
      words_exists2 (fun x y => negb (andnot x y =? 0)) (words a) (words b)
      || words_nonzero (drop (Nat.min (length (words a)) (length (words b))) (words a))
  end.

Definition bms_difference (a b : bmsptr) : bmsptr :=
  match a, b with
  | None, _ => None
  | Some _, None => bms_copy a
  | Some a', Some b' =>
      if negb (bms_nonempty_difference a b) then None
      else Some (mkBitmapset (words_update andnot (words a') (words b')))
  end.

Definition bms_is_subset (a b : bmsptr) : bool :=
  match a, b with
  | None, _ => true
  | Some _, None => false
  | Some a, Some b =>
      if words_exists2 (fun x y => negb (andnot x y =? 0)) (words a) (words b) then false
      else if nwords b <? nwords a
           then negb (words_nonzero (drop (Nat.min (length (words a)) (length (words b))) (words a)))
           else true
  end.

(** One step of [bms_subset_compare]: [None] is the early return of BMS_DIFFERENT. *)
Definition subset_step (anotb bnota : bool) (result : BMS_Comparison) : option BMS_Comparison :=
  r1 ← (if anotb then match result with BMS_SUBSET1 => None | _ => Some BMS_SUBSET2 end
        else Some result);
  if bnota then match r1 with BMS_SUBSET2 => None | _ => Some BMS_SUBSET1 end
  else Some r1.

(** The loop over the common words, the remaining words being returned. *)
Fixpoint subset_compare_common (a b : list Z) (result : BMS_Comparison) : option BMS_Comparison :=
  match a, b with
  | aword :: a', bword :: b' =>
      r ← subset_step (negb (andnot aword bword =? 0)) (negb (andnot bword aword =? 0)) result;
      subset_compare_common a' b' r
  | _, _ => Some result
  end.

(** The loop over the extra words of the longer input. *)
Fixpoint subset_compare_extra (in_a : bool) (l : list Z) (result : BMS_Comparison) : option BMS_Comparison :=
  match l with
  | [] => Some result
  | w :: l' =>
      r ← (if w =? 0 then Some result
           else if in_a then subset_step true false result else subset_step false true result);
      subset_compare_extra in_a l' r
  end.

Definition bms_subset_compare (a b : bmsptr) : BMS_Comparison :=
  match a, b with
  | None, None => BMS_EQUAL
  | None, Some _ => BMS_SUBSET1
  | Some _, None => BMS_SUBSET2
  | Some a, Some b =>
      let shortlen := Nat.min (length (words a)) (length (words b)) in
      default BMS_DIFFERENT
        (r ← subset_compare_common (words a) (words b) BMS_EQUAL;
         if nwords b <? nwords a then subset_compare_extra true (drop shortlen (words a)) r
         else if nwords a <? nwords b then subset_compare_extra false (drop shortlen (words b)) r
         else Some r)
  end.

Definition bms_is_member (x : Z) (a : bmsptr) : res bool :=
  if x <? 0 then Err neg_member_error
  else match a with
       | None => Ok false
       | Some a =>
           let wordnum := WORDNUM x in
           let bitnum := BITNUM x in
           if nwords a <=? wordnum then Ok false
           else Ok (negb (Z.land (nthZ (words a) wordnum) (bmw_bit bitnum) =? 0))
       end.

(** [if (w != 0) result += bmw_popcount(w);] over an array of words. *)
Fixpoint popcount_sum (l : list Z) (result : Z) : Z :=
  match l with
  | [] => result
  | w :: l' => popcount_sum l' (if w =? 0 then result else i32 (result + bmw_popcount w))
  end.

Definition bms_member_index (a : bmsptr) (x : Z) : res Z :=
  m ← bms_is_member x a;
  match a with
  | Some a' =>
      if negb m then Ok (-1)
      else
        let wordnum := WORDNUM x in
        let bitnum := BITNUM x in
        let result := popcount_sum (take (Z.to_nat wordnum) (words a')) 0 in
        let mask := bmw (bmw_bit bitnum - 1) in
        Ok (i32 (result + bmw_popcount (Z.land (nthZ (words a') wordnum) mask)))
  | None => Ok (-1)
  end.

Definition bms_overlap (a b : bmsptr) : bool :=
  match a, b with
  | Some a, Some b => words_exists2 (fun x y => negb (Z.land x y =? 0)) (words a) (words b)
  | _, _ => false
  end.

Fixpoint overlap_list_loop (a : Bitmapset) (b : list Z) : res bool :=
  match b with
  | [] => Ok false
  | x :: b' =>
      if x <? 0 then Err neg_member_error
      else
        let wordnum := WORDNUM x in
        let bitnum := BITNUM x in
        if (wordnum <? nwords a) && negb (Z.land (nthZ (words a) wordnum) (bmw_bit bitnum) =? 0)
        then Ok true
        else overlap_list_loop a b'
  end.

(** The integer [List] argument is a Rocq list, NIL being the empty list. *)
Definition bms_overlap_list (a : bmsptr) (b : list Z) : res bool :=
  match a, b with
  | None, _ => Ok false
  | _, [] => Ok false
  | Some a, _ => overlap_list_loop a b
  end.

(** Loop of [bms_singleton_member] and [bms_get_singleton_member]; [None] is the
    "multiple members" exit. *)
Fixpoint singleton_loop (l : list Z) (wordnum result : Z) : option Z :=
  match l with
  | [] => Some result
  | w :: l' =>
      if w =? 0 then singleton_loop l' (wordnum + 1) result
      else if (0 <=? result) || HAS_MULTIPLE_ONES w then None
      else singleton_loop l' (wordnum + 1)
             (i32 (i32 (wordnum * BITS_PER_BITMAPWORD) + bmw_rightmost_one_pos w))
  end.

Definition bms_singleton_member (a : bmsptr) : res Z :=
  match a with
  | None => Err "bitmapset is empty"
  | Some a =>
      match singleton_loop (words a) 0 (-1) with
      | None => Err "bitmapset has multiple members"
      | Some result => if result <? 0 then Err "bitmapset is empty" else Ok result
      end
  end.

(** [Some m] is the return value true with [*member = m]; [None] is false. *)
Definition bms_get_singleton_member (a : bmsptr) : option Z :=
  match a with
  | None => None
  | Some a =>
      result ← singleton_loop (words a) 0 (-1);
      if result <? 0 then None else Some result
  end.

Definition bms_num_members (a : bmsptr) : Z :=
  match a with
  | None => 0
  | Some a => popcount_sum (words a) 0
  end.

Fixpoint membership_loop (l : list Z) (result : BMS_Membership) : BMS_Membership :=
  match l with
  | [] => result
  | w :: l' =>
      if w =? 0 then membership_loop l' result
      else if negb (bool_decide (result = BMS_EMPTY_SET)) || HAS_MULTIPLE_ONES w then BMS_MULTIPLE
      else membership_loop l' BMS_SINGLETON
  end.

Definition bms_membership (a : bmsptr) : BMS_Membership :=
  match a with
  | None => BMS_EMPTY_SET
  | Some a => membership_loop (words a) BMS_EMPTY_SET
  end.

(** [repalloc] to [n] words with the enlarged portion zeroed; nothing when already that long. *)
Definition enlarge (l : list Z) (n : Z) : list Z := l ++ replicate (Z.to_nat n - length l) 0.

(** [words[i] = f(words[i])] *)
Definition word_alter (f : Z -> Z) (i : Z) (l : list Z) : list Z := alter f (Z.to_nat i) l.

Definition bms_add_member (a : bmsptr) (x : Z) : res bmsptr :=
  if x <? 0 then Err neg_member_error
  else match a with
       | None => bms_make_singleton x
       | Some a =>
           let wordnum := WORDNUM x in
           let bitnum := BITNUM x in
           let l := if nwords a <=? wordnum then enlarge (words a) (wordnum + 1) else words a in
           Ok (Some (mkBitmapset (word_alter (fun w => Z.lor w (bmw_bit bitnum)) wordnum l)))
       end.

Definition bms_del_member (a : bmsptr) (x : Z) : res bmsptr :=
  if x <? 0 then Err neg_member_error
  else match a with
       | None => Ok None
       | Some a =>
           let wordnum := WORDNUM x in
           let bitnum := BITNUM x in
           let l := if wordnum <? nwords a
                    then word_alter (fun w => Z.land w (bmw_not (bmw_bit bitnum))) wordnum (words a)
                    else words a in
           Ok (null_if_empty (mkBitmapset l))
       end.

Definition bms_add_members (a b : bmsptr) : bmsptr :=
  match a, b with
  | None, _ => bms_copy b
  | Some _, None => a
  | Some a, Some b =>
      let '(result, other) := if nwords a <? nwords b then (b, a) else (a, b) in
      Some (mkBitmapset (words_update Z.lor (words result) (words other)))
  end.

(** [while (wordnum < uwordnum) a->words[wordnum++] = ~(bitmapword) 0;] *)
Fixpoint fill_ones (count : nat) (wordnum : Z) (l : list Z) : list Z :=
  match count with
  | O => l
  | S n => fill_ones n (wordnum + 1) (word_alter (fun _ => bmw_ones) wordnum l)
  end.

Definition bms_add_range (a : bmsptr) (lower upper : Z) : res bmsptr :=
  if upper <? lower then Ok a
  else if lower <? 0 then Err neg_member_error
  else
    let uwordnum := WORDNUM upper in
    let l := match a with
             | None => replicate (Z.to_nat (uwordnum + 1)) 0
             | Some a => if nwords a <=? uwordnum then enlarge (words a) (uwordnum + 1) else words a
             end in
    let lwordnum := WORDNUM lower in
    let lbitnum := BITNUM lower in
    let ushiftbits := BITS_PER_BITMAPWORD - (BITNUM upper + 1) in
    let lmask := bmw_not (bmw (bmw_bit lbitnum - 1)) in
    let umask := Z.shiftr bmw_ones ushiftbits in
    let l :=
      if lwordnum =? uwordnum then word_alter (fun w => Z.lor w (Z.land lmask umask)) lwordnum l
      else
        let l := word_alter (fun w => Z.lor w lmask) lwordnum l in
        let l := fill_ones (Z.to_nat (uwordnum - (lwordnum + 1))) (lwordnum + 1) l in
        word_alter (fun w => Z.lor w umask) uwordnum l in
    Ok (Some (mkBitmapset l)).

(** The two loops of [bms_int_members]: intersect the common words, zero the rest. *)
Fixpoint int_members_loop (a b : list Z) : list Z :=
  match a, b with
  | x :: a', y :: b' => Z.land x y :: int_members_loop a' b'
  | a, [] => (fun _ => 0) <$> a
  | [], _ => []
  end.

Definition bms_int_members (a b : bmsptr) : bmsptr :=
  match a, b with
  | None, _ => None
  | Some _, None => None
  | Some a, Some b => null_if_empty (mkBitmapset (int_members_loop (words a) (words b)))
  end.

Definition bms_del_members (a b : bmsptr) : bmsptr :=
  match a, b with
  | None, _ => None
  | Some _, None => a
  | Some a, Some b => null_if_empty (mkBitmapset (words_update andnot (words a) (words b)))
  end.

Definition bms_join (a b : bmsptr) : bmsptr :=
  match a, b with
  | None, _ => b
  | _, None => a
  | Some a, Some b =>
      let '(result, other) := if nwords a <? nwords b then (b, a) else (a, b) in
      Some (mkBitmapset (words_update Z.lor (words result) (words other)))
  end.

(** The forward scan from [wordnum]; [l] holds the words from there on. *)
Fixpoint next_member_loop (l : list Z) (wordnum mask : Z) : Z :=
  match l with
  | [] => -2
  | w :: l' =>
      let w := Z.land w mask in
      if w =? 0 then next_member_loop l' (wordnum + 1) bmw_ones
      else i32 (i32 (wordnum * BITS_PER_BITMAPWORD) + bmw_rightmost_one_pos w)
  end.

Definition bms_next_member (a : bmsptr) (prevbit : Z) : Z :=
  match a with
  | None => -2
  | Some a =>
      let prevbit := i32 (prevbit + 1) in
      let mask := shlu 64 bmw_ones (BITNUM prevbit) in
      let wordnum := WORDNUM prevbit in
      next_member_loop (drop (Z.to_nat wordnum) (words a)) wordnum mask
  end.

(** The backward scan; [l] holds the words from [wordnum] down to 0, reversed. *)
Fixpoint prev_member_loop (l : list Z) (wordnum mask : Z) : Z :=
  match l with
  | [] => -2
  | w :: l' =>
      let w := Z.land w mask in
      if w =? 0 then prev_member_loop l' (wordnum - 1) bmw_ones
      else i32 (i32 (wordnum * BITS_PER_BITMAPWORD) + bmw_leftmost_one_pos w)
  end.

Definition bms_prev_member (a : bmsptr) (prevbit : Z) : Z :=
  match a with
  | None => -2
  | Some a =>
      if prevbit =? 0 then -2
      else
        let prevbit := if prevbit =? -1 then i32 (i32 (nwords a * BITS_PER_BITMAPWORD) - 1)
                       else i32 (prevbit - 1) in
        let ushiftbits := BITS_PER_BITMAPWORD - (BITNUM prevbit + 1) in
        let mask := Z.shiftr bmw_ones ushiftbits in
        let wordnum := WORDNUM prevbit in
        prev_member_loop (reverse (take (Z.to_nat (wordnum + 1)) (words a))) wordnum mask
  end.

(** [for (lastword = a->nwords; --lastword >= 0;) if (a->words[lastword] != 0) break;]:
    the words up to the last non-zero one. *)
Fixpoint strip_zero_words (l : list Z) : list Z :=
  match l with
  | [] => []
  | w :: l' =>
      match strip_zero_words l' with
      | [] => if w =? 0 then [] else [w]
      | s => w :: s
      end
  end.

(** The memory image of a bitmapword. *)
Definition word_bytes (bigendian : bool) (w : Z) : list Z :=
  let bs := Z_to_little_endian 8 8 w in if bigendian then reverse bs else bs.

(** The word array of a palloc'd Bitmapset is aligned, so [hash_any] takes its aligned path. *)
Definition bms_hash_value (bigendian : bool) (a : bmsptr) : Z :=
  match a with
  | None => 0
  | Some a =>
      match strip_zero_words (words a) with
      | [] => 0
      | l => hash_bytes bigendian true (l ≫= word_bytes bigendian)
      end
  end.

Definition bitmap_hash (bigendian : bool) (key : bmsptr) : Z := bms_hash_value bigendian key.

(** qsort/hash-table convention: zero (here [false]) means that the keys match. *)
Definition bitmap_match (key1 key2 : bmsptr) : bool := negb (bms_equal key1 key2).
