(* ===== verification/BitmapsetSpec.v ===== *)
(** Correctness of the bitmap sets of [Bitmapset]: the words of a set as one large
    number, the abstract finite set, and the theorems that every operation of
    src/pg-src/src/backend/nodes/bitmapset.c implements the corresponding operation
    on finite sets and keeps the representation invariant. *)

From S2P Require Import Prelude Bits Hashfn Bitmapset.

(** ** Words as one large number

    The words of a set, least significant first, are the digits of a natural number in
    base 2^64 whose bits are the members of the set. *)

Definition words_ok (l : list Z) : Prop := Forall (is_u 64) l.
Abbreviation LE := (little_endian_to_Z 64).

Lemma LE_cons w l : is_u 64 w -> LE (w :: l) = w + LE l * 2 ^ 64.
Proof. intros. simpl. by apply lor_shiftl_add. Qed.

Lemma LE_nonneg l : words_ok l -> 0 <= LE l.
Proof. intros. apply (little_endian_to_Z_bound 64 l); [lia|done]. Qed.

Lemma LE_testbit l i : words_ok l -> 0 <= i ->
  Z.testbit (LE l) i = Z.testbit (nthZ l (i / 64)) (i `mod` 64).
Proof.
  intros Hl. revert i. induction Hl as [|w l Hw Hl IH]; intros i Hi.
  - simpl. unfold nthZ. rewrite nth_lookup. simpl. by rewrite !Z.bits_0.
  - simpl. autorewrite with wordbits. destruct (decide (i < 64)).
    + rewrite (Z.testbit_neg_r (LE l)), orb_false_r by lia.
      by rewrite Z.div_small, Z.mod_small by lia.
    + rewrite (is_u_testbit 64 w) by (done || lia). simpl. rewrite IH by lia.
      replace i with (i - 64 + 1 * 64) at 3 4 by lia.
      rewrite Z.div_add, Z.mod_add by lia. unfold nthZ.
      rewrite Z2Nat.inj_add by (try apply Z.div_pos; lia). rewrite Nat.add_1_r. done.
Qed.

Lemma nthZ_ok l i : words_ok l -> is_u 64 (nthZ l i).
Proof. intros. apply Forall_nthZ; [unfold is_u; lia|done]. Qed.
#[export] Hint Resolve nthZ_ok : words.

(** Two word lists denote the same number when their words agree, absent words being zero. *)
Lemma LE_ext l1 l2 : words_ok l1 -> words_ok l2 ->
  (forall i, 0 <= i -> nthZ l1 i = nthZ l2 i) -> LE l1 = LE l2.
Proof.
  intros H1 H2 H. apply Z.bits_inj'. intros i Hi. rewrite !LE_testbit by done.
  rewrite H by (apply Z.div_pos; lia). done.
Qed.

(** Combine two word lists bitwise: [f] on words is [F] on the numbers. *)
Lemma LE_bitwise (f F : Z -> Z -> Z) (g : bool -> bool -> bool) l a b :
  (forall x y i, is_u 64 x -> is_u 64 y -> 0 <= i < 64 ->
     Z.testbit (f x y) i = g (Z.testbit x i) (Z.testbit y i)) ->
  (forall x y i, 0 <= i -> Z.testbit (F x y) i = g (Z.testbit x i) (Z.testbit y i)) ->
  words_ok l -> words_ok a -> words_ok b ->
  (forall i, 0 <= i -> nthZ l i = f (nthZ a i) (nthZ b i)) -> LE l = F (LE a) (LE b).
Proof.
  intros Hf HF Hl Ha Hb H. apply Z.bits_inj'. intros i Hi.
  rewrite HF, !LE_testbit, H by (done || apply Z.div_pos; lia).
  apply Hf; auto with words. apply Z.mod_pos_bound. lia.
Qed.

Lemma andnot_testbit x y i : is_u 64 y -> 0 <= i < 64 ->
  Z.testbit (andnot x y) i = Z.testbit x i && negb (Z.testbit y i).
Proof.
  intros. unfold andnot, bmw_not. rewrite Z.land_spec, notu_testbit by (done || lia).
  by rewrite bool_decide_true by lia.
Qed.

Lemma andnot_ok x y : is_u 64 x -> is_u 64 y -> is_u 64 (andnot x y).
Proof.
  intros Hx Hy. apply is_u_land_l; [lia|done|]. by apply (notu_is_u 64 y).
Qed.

Lemma length_words_update op r o : length (words_update op r o) = length r.
Proof. revert o. induction r as [|x r IH]; intros [|y o]; simpl; auto. Qed.

Lemma words_update_ok op r o :
  (forall x y, is_u 64 x -> is_u 64 y -> is_u 64 (op x y)) ->
  words_ok r -> words_ok o -> words_ok (words_update op r o).
Proof.
  intros Hop Hr. revert o. induction Hr as [|x r Hx Hr IH]; intros o Ho;
    [destruct o; constructor|].
  destruct o as [|y o]; [by constructor|]. inversion Ho; subst.
  constructor; [by apply Hop|by apply IH].
Qed.

Lemma nthZ_cons_0 x l : nthZ (x :: l) 0 = x.
Proof. done. Qed.

Lemma nthZ_cons_S x l i : 0 <= i -> nthZ (x :: l) (i + 1) = nthZ l i.
Proof. intros. unfold nthZ. rewrite Z2Nat.inj_add, Nat.add_1_r by lia. done. Qed.

Lemma nthZ_nil i : nthZ [] i = 0.
Proof. unfold nthZ. by destruct (Z.to_nat i). Qed.

(** Case analysis on a non-negative index: zero or a successor. *)
Ltac index_case i :=
  destruct (decide (i = 0)) as [->|];
  [|replace i with ((i - 1) + 1) by lia; rewrite ?nthZ_cons_S by lia].

Lemma nthZ_words_update op r o i :
  0 <= i -> nthZ (words_update op r o) i =
    if decide (i < Z.min (Z.of_nat (length r)) (Z.of_nat (length o)))
    then op (nthZ r i) (nthZ o i) else nthZ r i.
Proof.
  revert o i. induction r as [|x r IH]; intros o i Hi.
  - destruct o; cbn [words_update]; rewrite !nthZ_nil; case_decide; simpl in *; try lia; done.
  - destruct o as [|y o]; cbn [words_update].
    + case_decide; [simpl in *; lia|done].
    + index_case i; [case_decide; [done|simpl in *; lia]|].
      rewrite IH by lia. cbn [length]. do 2 case_decide; (done || lia).
Qed.

Lemma LE_update_lor r o : words_ok r -> words_ok o -> (length o <= length r)%nat ->
  LE (words_update Z.lor r o) = Z.lor (LE r) (LE o).
Proof.
  intros Hr Ho Hlen. apply LE_bitwise with (f := Z.lor) (g := orb); auto using Z.lor_spec.
  - apply words_update_ok; auto with words.
  - intros i Hi. rewrite nthZ_words_update by done. case_decide; [done|].
    rewrite (nthZ_overflow o) by lia. by rewrite Z.lor_0_r.
Qed.

Lemma LE_update_land r o : words_ok r -> words_ok o -> (length r <= length o)%nat ->
  LE (words_update Z.land r o) = Z.land (LE r) (LE o).
Proof.
  intros Hr Ho Hlen. apply LE_bitwise with (f := Z.land) (g := andb); auto using Z.land_spec.
  - apply words_update_ok; auto. intros. apply is_u_land_r; unfold is_u in *; lia.
  - intros i Hi. rewrite nthZ_words_update by done. case_decide; [done|].
    by rewrite (nthZ_overflow r) by lia.
Qed.

Lemma LE_update_andnot a b : words_ok a -> words_ok b ->
  LE (words_update andnot a b) = Z.ldiff (LE a) (LE b).
Proof.
  intros Ha Hb. apply LE_bitwise with (f := andnot) (g := fun x y => x && negb y);
    auto using Z.ldiff_spec, andnot_testbit.
  - apply words_update_ok; auto using andnot_ok.
  - intros i Hi. rewrite nthZ_words_update by done. case_decide; [done|].
    destruct (decide (i < Z.of_nat (length a))).
    + rewrite (nthZ_overflow b) by lia. unfold andnot, bmw_not, notu. rewrite Z.lxor_0_l.
      rewrite Z.land_ones by lia. symmetry. apply wrapu_small. by apply nthZ_ok.
    + by rewrite (nthZ_overflow a) by lia.
Qed.

Lemma int_members_loop_eq a b :
  int_members_loop a b = words_update Z.land a (b ++ replicate (length a - length b) 0).
Proof.
  revert b. induction a as [|x a IH]; intros [|y b]; simpl; try done.
  - f_equal; [by rewrite Z.land_0_r|]. specialize (IH []). simpl in IH. rewrite Nat.sub_0_r in IH.
    rewrite <- IH. by destruct a.
  - by rewrite IH.
Qed.

Lemma replicate_0_ok n : words_ok (replicate n 0).
Proof. apply Forall_replicate. unfold is_u. lia. Qed.

Lemma words_ok_app l1 l2 : words_ok l1 -> words_ok l2 -> words_ok (l1 ++ l2).
Proof. intros. by apply Forall_app. Qed.

Lemma LE_app_zeros l n : words_ok l -> LE (l ++ replicate n 0) = LE l.
Proof.
  intros Hl. apply LE_ext; [auto using words_ok_app, replicate_0_ok|done|].
  intros i Hi. rewrite nthZ_app by done. case_decide; [done|].
  rewrite nthZ_replicate_0. symmetry. apply nthZ_overflow. lia.
Qed.

Lemma LE_int_members a b : words_ok a -> words_ok b ->
  LE (int_members_loop a b) = Z.land (LE a) (LE b).
Proof.
  intros Ha Hb. rewrite int_members_loop_eq, LE_update_land, LE_app_zeros; auto.
  - auto using words_ok_app, replicate_0_ok.
  - rewrite length_app, length_replicate. lia.
Qed.

Lemma int_members_ok a b : words_ok a -> words_ok b -> words_ok (int_members_loop a b).
Proof.
  intros Ha Hb. rewrite int_members_loop_eq. apply words_update_ok; auto.
  - intros. apply is_u_land_r; unfold is_u in *; lia.
  - auto using words_ok_app, replicate_0_ok.
Qed.

Lemma length_int_members a b : length (int_members_loop a b) = length a.
Proof. rewrite int_members_loop_eq. apply length_words_update. Qed.

Lemma words_nonzero_spec l : words_ok l -> words_nonzero l = negb (LE l =? 0).
Proof.
  induction 1 as [|w l Hw Hl IH]; [done|]. cbn [words_nonzero]. rewrite IH, LE_cons by done.
  pose proof (LE_nonneg l Hl). unfold is_u in Hw.
  destruct (Z.eqb_spec w 0), (Z.eqb_spec (LE l) 0), (Z.eqb_spec (w + LE l * 2 ^ 64) 0); simpl; lia || done.
Qed.

Lemma LE_eq_0_iff l : words_ok l -> LE l = 0 <-> forall i, 0 <= i -> nthZ l i = 0.
Proof.
  intros Hl. split.
  - intros H i Hi. apply Z.bits_inj'. intros j Hj. rewrite Z.bits_0.
    destruct (decide (j < 64)); [|apply (is_u_testbit 64); auto with words; lia].
    assert (Z.testbit (LE l) (i * 64 + j) = false) as Hb by (by rewrite H, Z.bits_0).
    rewrite LE_testbit in Hb by (done || lia). rewrite Z.add_comm in Hb.
    by rewrite Z.div_add, Z.mod_add, Z.div_small, Z.mod_small in Hb by lia.
  - intros H. change 0 with (LE []). apply LE_ext; [done|constructor|].
    intros i Hi. by rewrite H, nthZ_nil.
Qed.

(** A loop that looks for an index below both lengths. *)
Lemma words_exists2_spec test a b :
  words_exists2 test a b = true <->
  exists i, 0 <= i < Z.min (Z.of_nat (length a)) (Z.of_nat (length b)) /\
            test (nthZ a i) (nthZ b i) = true.
Proof.
  revert b. induction a as [|x a IH]; intros b; [split; [done|intros (i&?&_); simpl in *; lia]|].
  destruct b as [|y b]; [split; [done|intros (i&?&_); simpl in *; lia]|].
  cbn [words_exists2]. rewrite orb_true_iff, IH. split.
  - intros [H|(i & Hi & H)]; [exists 0; split; [simpl; lia|done]|].
    exists (i + 1). rewrite !nthZ_cons_S by lia. split; [simpl in *; lia|done].
  - intros (i & Hi & H). destruct (decide (i = 0)) as [->|]; [by left|]. right.
    exists (i - 1). replace i with (i - 1 + 1) in H by lia. rewrite !nthZ_cons_S in H by lia.
    split; [simpl in *; lia|done].
Qed.

Lemma words_exists2_false test a b :
  words_exists2 test a b = false <->
  forall i, 0 <= i < Z.min (Z.of_nat (length a)) (Z.of_nat (length b)) ->
            test (nthZ a i) (nthZ b i) = false.
Proof.
  rewrite <- not_true_iff_false, words_exists2_spec. split.
  - intros H i Hi. apply not_true_iff_false. intros ?. apply H. eauto.
  - intros H (i & Hi & E). by rewrite H in E.
Qed.

(** The search loops, phrased through the word lists they do not build. *)
Lemma int_members_nonzero a b :
  words_nonzero (int_members_loop a b) = words_exists2 (fun x y => negb (Z.land x y =? 0)) a b.
Proof.
  revert b. induction a as [|x a IH]; intros [|y b]; cbn [int_members_loop words_exists2 words_nonzero];
    try done; [|by rewrite IH].
  clear. cbn [fmap list_fmap words_nonzero]. induction a as [|z a IH]; [done|]. exact IH.
Qed.

Lemma update_nonzero f a b :
  words_nonzero (words_update f a b) =
  words_exists2 (fun x y => negb (f x y =? 0)) a b
  || words_nonzero (drop (Nat.min (length a) (length b)) a).
Proof.
  revert b. induction a as [|x a IH]; intros [|y b]; try done.
  cbn [words_update words_exists2 words_nonzero length Nat.min drop]. by rewrite IH, orb_assoc.
Qed.

Lemma exists2_land a b : words_ok a -> words_ok b ->
  words_exists2 (fun x y => negb (Z.land x y =? 0)) a b = negb (Z.land (LE a) (LE b) =? 0).
Proof.
  intros. by rewrite <- int_members_nonzero, words_nonzero_spec, LE_int_members by auto using int_members_ok.
Qed.

Lemma exists2_andnot a b : words_ok a -> words_ok b ->
  words_exists2 (fun x y => negb (andnot x y =? 0)) a b
  || words_nonzero (drop (Nat.min (length a) (length b)) a) = negb (Z.ldiff (LE a) (LE b) =? 0).
Proof.
  intros. rewrite <- update_nonzero, words_nonzero_spec, LE_update_andnot; auto.
  apply words_update_ok; auto using andnot_ok.
Qed.

Lemma equal_loop a b : words_ok a -> words_ok b -> (length a <= length b)%nat ->
  words_exists2 (fun s l => negb (s =? l)) a b || words_nonzero (drop (length a) b) = negb (LE a =? LE b).
Proof.
  intros Ha. revert b. induction Ha as [|x a Hx Ha IH]; intros b Hb Hlen.
  - simpl length. rewrite drop_0, words_nonzero_spec by done. cbn [words_exists2 orb].
    by rewrite Z.eqb_sym.
  - destruct b as [|y b]; [simpl in Hlen; lia|]. inversion Hb; subst.
    cbn [words_exists2 length drop]. rewrite <- orb_assoc, IH, !LE_cons by (done || simpl in *; lia).
    unfold is_u in *. destruct (Z.eqb_spec x y), (Z.eqb_spec (LE a) (LE b)),
      (Z.eqb_spec (x + LE a * 2 ^ 64) (y + LE b * 2 ^ 64)); simpl; (done || lia).
Qed.

Lemma compare_loop a b : words_ok a -> words_ok b ->
  let m := Nat.min (length a) (length b) in
  (if words_nonzero (drop m a) then 1 else if words_nonzero (drop m b) then -1
   else bms_compare_common a b) = Z.sgn (LE a - LE b).
Proof.
  intros Ha. revert b. induction Ha as [|x a Hx Ha IH]; intros b Hb; cbn zeta.
  - cbn [length Nat.min]. rewrite !drop_0, (words_nonzero_spec b) by done. cbn [words_nonzero].
    pose proof (LE_nonneg b Hb). destruct (Z.eqb_spec (LE b) 0) as [->|]; [by destruct b|].
    cbn [negb little_endian_to_Z]. lia.
  - destruct b as [|y b].
    + cbn [length Nat.min]. rewrite !drop_0, (words_nonzero_spec (x :: a)) by (by constructor).
      cbn [words_nonzero]. pose proof (LE_nonneg (x :: a) ltac:(by constructor)).
      destruct (Z.eqb_spec (LE (x :: a)) 0) as [->|]; [done|]. cbn [negb].
      change (LE []) with 0. lia.
    + inversion Hb; subst. specialize (IH b). cbn [length Nat.min drop bms_compare_common].
      rewrite !LE_cons by done. unfold is_u in *. specialize (IH ltac:(done)). cbn zeta in IH.
      destruct (words_nonzero (drop (length a `min` length b) a)); [lia|].
      destruct (words_nonzero (drop (length a `min` length b) b)); [lia|].
      rewrite IH. repeat zcase; lia.
Qed.

(** What the flags "a has a bit that b lacks" and "b has a bit that a lacks" mean for
    [bms_subset_compare]; [None] stands for BMS_DIFFERENT. *)
Definition subset_class (anotb bnota : bool) : option BMS_Comparison :=
  match anotb, bnota with
  | false, false => Some BMS_EQUAL
  | false, true => Some BMS_SUBSET1
  | true, false => Some BMS_SUBSET2
  | true, true => None
  end.

Lemma subset_step_class p q p' q' :
  (subset_class p q ≫= subset_step p' q') = subset_class (p || p') (q || q').
Proof. by destruct p, q, p', q'. Qed.

Lemma subset_common_class a b p q :
  (subset_class p q ≫= subset_compare_common a b) =
  subset_class (p || words_exists2 (fun x y => negb (andnot x y =? 0)) a b)
               (q || words_exists2 (fun x y => negb (andnot x y =? 0)) b a).
Proof.
  revert b p q. induction a as [|x a IH]; intros b p q.
  - destruct b; simpl; rewrite !orb_false_r; by destruct p, q.
  - destruct b as [|y b]; [simpl; rewrite !orb_false_r; by destruct p, q|].
    cbn [subset_compare_common words_exists2]. rewrite !orb_assoc, <- IH, <- subset_step_class.
    by destruct (subset_class p q).
Qed.

Lemma subset_extra_class in_a l p q :
  (subset_class p q ≫= subset_compare_extra in_a l) =
  subset_class (p || (in_a && words_nonzero l)) (q || (negb in_a && words_nonzero l)).
Proof.
  revert p q. induction l as [|w l IH]; intros p q.
  - simpl. rewrite !andb_false_r, !orb_false_r. by destruct p, q.
  - cbn [subset_compare_extra words_nonzero].
    transitivity ((subset_class p q ≫= (fun r => if w =? 0 then Some r
      else if in_a then subset_step true false r else subset_step false true r))
      ≫= subset_compare_extra in_a l); [by destruct (subset_class p q)|].
    destruct (w =? 0); simpl.
    + rewrite option_bind_assoc. rewrite <- IH. by destruct (subset_class p q).
    + destruct in_a; rewrite subset_step_class, IH; f_equal; by destruct p, q, (words_nonzero l).
Qed.

(** ** The abstract set *)

Definition bms_val (a : bmsptr) : Z := match a with None => 0 | Some a => LE (words a) end.

Definition bms_set (a : bmsptr) : gset Z :=
  match a with
  | None => ∅
  | Some a => list_to_set (filter (fun i => Z.testbit (LE (words a)) i = true)
                                  (seqZ 0 (nwords a * BITS_PER_BITMAPWORD)))
  end.

(** Members fit in an [int], so a set has at most 2^31 / 64 words. *)
Definition MAX_WORDS : Z := 2 ^ 25.

(** The words are 64-bit integers and there are not too many of them. *)
Definition bms_valid (a : bmsptr) : Prop :=
  match a with None => True | Some a => words_ok (words a) /\ nwords a <= MAX_WORDS end.

(** The representation invariant: NULL is the only representation of the empty set. *)
Definition bms_wf (a : bmsptr) : Prop := bms_valid a /\ (a <> None -> bms_val a <> 0).

Lemma bms_val_range a : bms_valid a -> 0 <= bms_val a.
Proof. destruct a as [[l]|]; [intros [? _]; by apply LE_nonneg|done]. Qed.

Lemma LE_testbit_high l i : words_ok l -> Z.of_nat (length l) * 64 <= i -> Z.testbit (LE l) i = false.
Proof.
  intros Hl Hi. rewrite LE_testbit by (done || lia). rewrite nthZ_overflow; [apply Z.bits_0|].
  apply Z.div_le_lower_bound; lia.
Qed.

Lemma elem_of_bms_set a x :
  bms_valid a -> x ∈ bms_set a <-> 0 <= x /\ Z.testbit (bms_val a) x = true.
Proof.
  destruct a as [[l]|]; simpl.
  - intros [Hl _]. rewrite elem_of_list_to_set, list_elem_of_filter, elem_of_seqZ.
    unfold nwords, BITS_PER_BITMAPWORD; simpl. split; [tauto|]. intros [? Hb]. split; [done|].
    split; [done|]. apply Z.nle_gt. intros Hle. rewrite LE_testbit_high in Hb; (done || lia).
  - intros _. rewrite Z.bits_0. set_solver.
Qed.

Lemma bms_set_nonneg a x : bms_valid a -> x ∈ bms_set a -> 0 <= x.
Proof. intros Ha Hx. by apply elem_of_bms_set in Hx as [? _]. Qed.

Lemma bms_set_lt_max a x : bms_valid a -> x ∈ bms_set a -> x < 2 ^ 31.
Proof.
  destruct a as [[l]|]; [|set_solver]. unfold MAX_WORDS, bms_set, bms_valid.
  intros [_ Hn]. rewrite elem_of_list_to_set, list_elem_of_filter, elem_of_seqZ.
  unfold BITS_PER_BITMAPWORD, MAX_WORDS in *. lia.
Qed.

(** Two sets are equal exactly when the numbers are. *)
Lemma bms_set_eq_iff a b : bms_valid a -> bms_valid b -> bms_set a = bms_set b <-> bms_val a = bms_val b.
Proof.
  intros Ha Hb. split.
  - intros H. apply Z.bits_inj'. intros i Hi. apply eq_true_iff_eq.
    assert (i ∈ bms_set a <-> i ∈ bms_set b) as Hiff by (by rewrite H).
    rewrite !elem_of_bms_set in Hiff by done. tauto.
  - intros H. apply set_eq. intros x. by rewrite !elem_of_bms_set, H by done.
Qed.

Lemma bms_set_empty_iff a : bms_valid a -> bms_set a = ∅ <-> bms_val a = 0.
Proof. intros Ha. apply (bms_set_eq_iff a None); [done|]. by split. Qed.

Lemma bms_wf_None : bms_wf None.
Proof. done. Qed.

Lemma bms_wf_set_empty a : bms_wf a -> bms_set a = ∅ <-> a = None.
Proof.
  intros [Hv Hne]. rewrite bms_set_empty_iff by done. destruct a; [|done].
  split; [|done]. intros E. exfalso. by apply Hne.
Qed.

(** An operation implements a boolean combination of membership. *)
Lemma bms_set_combine (g : bool -> bool -> bool) r a b (P : gset Z) :
  bms_valid r -> bms_valid a -> bms_valid b ->
  (forall i, 0 <= i -> Z.testbit (bms_val r) i = g (Z.testbit (bms_val a) i) (Z.testbit (bms_val b) i)) ->
  (forall x, 0 <= x -> x ∈ P <-> g (Z.testbit (bms_val a) x) (Z.testbit (bms_val b) x) = true) ->
  (forall x, x ∈ P -> 0 <= x) ->
  bms_set r = P.
Proof.
  intros Hr Ha Hb Hbits HP Hpos. apply set_eq. intros x. rewrite elem_of_bms_set by done.
  split.
  - intros [Hx Ht]. rewrite Hbits in Ht by done. by apply HP.
  - intros Hx. assert (0 <= x) by auto. split; [done|]. rewrite Hbits by done. by apply HP.
Qed.

Lemma valid_null_if_empty l : words_ok l -> Z.of_nat (length l) <= MAX_WORDS ->
  bms_wf (null_if_empty (mkBitmapset l)) /\ bms_val (null_if_empty (mkBitmapset l)) = LE l.
Proof.
  intros Hl Hn. unfold null_if_empty, bms_is_empty_internal. simpl. rewrite words_nonzero_spec by done.
  destruct (Z.eqb_spec (LE l) 0) as [E|E]; simpl; [by split|]. split; [|done]. split; [|done]. by split.
Qed.

(** The union loop, in either role of the two inputs. *)
Lemma update_lor_spec r o :
  words_ok r -> words_ok o -> (length o <= length r)%nat -> Z.of_nat (length r) <= MAX_WORDS -> LE r <> 0 ->
  let u := Some (mkBitmapset (words_update Z.lor r o)) in
  bms_wf u /\ bms_val u = Z.lor (LE r) (LE o).
Proof.
  intros Hr Ho Hlen Hmax Hne. simpl. rewrite LE_update_lor by done. split; [|done].
  split; [split|]; simpl.
  - apply words_update_ok; auto with words.
  - unfold nwords; simpl. by rewrite length_words_update.
  - intros _. rewrite LE_update_lor, Z.lor_eq_0_iff by done. tauto.
Qed.

(** Expose the words of two well-formed sets that are not NULL. *)
Ltac bms_cases a b :=
  let Ha := fresh "Ha" in let Hb := fresh "Hb" in
  let Na := fresh "Na" in let Nb := fresh "Nb" in
  let Ea := fresh "Ea" in let Eb := fresh "Eb" in
  intros [Ha Ea] [Hb Eb]; destruct a as [[la]|], b as [[lb]|];
  cbn [bms_val bms_valid words] in Ha, Hb, Ea, Eb; unfold nwords in *; cbn [words] in *;
  try destruct Ha as [Ha Na]; try destruct Hb as [Hb Nb];
  try specialize (Ea ltac:(done)); try specialize (Eb ltac:(done)).

Lemma union_branch (c : bool) a b :
  bms_wf a -> bms_wf b ->
  (forall la lb, a = Some (mkBitmapset la) -> b = Some (mkBitmapset lb) ->
     if c then (length la <= length lb)%nat else (length lb <= length la)%nat) ->
  let r := match a, b with
           | None, _ => b
           | _, None => a
           | Some a, Some b =>
               let '(result, other) := if c then (b, a) else (a, b) in
               Some (mkBitmapset (words_update Z.lor (words result) (words other)))
           end in
  bms_wf r /\ bms_val r = Z.lor (bms_val a) (bms_val b).
Proof.
  bms_cases a b; intros Hlen; simpl in *; try done.
  - specialize (Hlen _ _ eq_refl eq_refl). destruct c.
    + rewrite (Z.lor_comm (LE la)). by apply update_lor_spec.
    + by apply update_lor_spec.
  - by rewrite Z.lor_0_r.
Qed.

Lemma bms_union_spec a b : bms_wf a -> bms_wf b ->
  bms_wf (bms_union a b) /\ bms_val (bms_union a b) = Z.lor (bms_val a) (bms_val b).
Proof.
  intros Ha Hb.
  pose proof (union_branch (match a, b with Some a, Some b => nwords a <=? nwords b | _, _ => true end) a b Ha Hb)
    as H.
  destruct a, b; try (apply H; intros; simplify_eq; unfold nwords; simpl; zcase; lia); by apply H.
Qed.

Lemma bms_add_members_spec a b : bms_wf a -> bms_wf b ->
  bms_wf (bms_add_members a b) /\ bms_val (bms_add_members a b) = Z.lor (bms_val a) (bms_val b).
Proof.
  intros Ha Hb.
  pose proof (union_branch (match a, b with Some a, Some b => nwords a <? nwords b | _, _ => true end) a b Ha Hb)
    as H.
  destruct a, b; try (apply H; intros; simplify_eq; unfold nwords; simpl; zcase; lia); by apply H.
Qed.

Lemma bms_join_spec a b : bms_wf a -> bms_wf b ->
  bms_wf (bms_join a b) /\ bms_val (bms_join a b) = Z.lor (bms_val a) (bms_val b).
Proof.
  intros Ha Hb.
  pose proof (union_branch (match a, b with Some a, Some b => nwords a <? nwords b | _, _ => true end) a b Ha Hb)
    as H.
  destruct a, b; try (apply H; intros; simplify_eq; unfold nwords; simpl; zcase; lia); by apply H.
Qed.

Lemma bms_intersect_spec a b : bms_wf a -> bms_wf b ->
  bms_wf (bms_intersect a b) /\ bms_val (bms_intersect a b) = Z.land (bms_val a) (bms_val b).
Proof.
  bms_cases a b; simpl; try done; [|by rewrite Z.land_0_r].
  unfold nwords; simpl. zcase; simpl.
  - rewrite <- LE_update_land by (done || lia). apply valid_null_if_empty.
    + apply words_update_ok; auto. intros. apply is_u_land_r; unfold is_u in *; lia.
    + by rewrite length_words_update.
  - rewrite (Z.land_comm (LE la)), <- LE_update_land by (done || lia). apply valid_null_if_empty.
    + apply words_update_ok; auto. intros. apply is_u_land_r; unfold is_u in *; lia.
    + by rewrite length_words_update.
Qed.

Lemma bms_int_members_spec a b : bms_wf a -> bms_wf b ->
  bms_wf (bms_int_members a b) /\ bms_val (bms_int_members a b) = Z.land (bms_val a) (bms_val b).
Proof.
  bms_cases a b; simpl; try done; [|by rewrite Z.land_0_r].
  rewrite <- LE_int_members by done. apply valid_null_if_empty; [by apply int_members_ok|].
  by rewrite length_int_members.
Qed.

Lemma bms_del_members_spec a b : bms_wf a -> bms_wf b ->
  bms_wf (bms_del_members a b) /\ bms_val (bms_del_members a b) = Z.ldiff (bms_val a) (bms_val b).
Proof.
  bms_cases a b; simpl; try done; [|by rewrite Z.ldiff_0_r].
  rewrite <- LE_update_andnot by done. apply valid_null_if_empty.
  - apply words_update_ok; auto using andnot_ok.
  - by rewrite length_words_update.
Qed.

Lemma bms_nonempty_difference_val a b : bms_wf a -> bms_wf b ->
  bms_nonempty_difference a b = negb (Z.ldiff (bms_val a) (bms_val b) =? 0).
Proof.
  bms_cases a b; simpl; try done.
  - by apply exists2_andnot.
  - rewrite Z.ldiff_0_r. by destruct (Z.eqb_spec (LE la) 0).
Qed.

(** The two evaluation orders of set difference return the same pointer value. *)
Lemma bms_difference_del_members a b : bms_wf a -> bms_wf b -> bms_difference a b = bms_del_members a b.
Proof.
  intros Wa Wb. pose proof (bms_nonempty_difference_val a b Wa Wb) as Hd. revert Wa Wb Hd.
  bms_cases a b; simpl; try done. intros ->. unfold null_if_empty, bms_is_empty_internal; simpl.
  rewrite words_nonzero_spec, LE_update_andnot by (auto; apply words_update_ok; auto using andnot_ok).
  by destruct (_ =? 0).
Qed.

(** ** Single members *)

Lemma WORDNUM_div x : 0 <= x -> WORDNUM x = x / 64.
Proof. intros. unfold WORDNUM, BITS_PER_BITMAPWORD. apply Z.quot_div_nonneg; lia. Qed.

Lemma BITNUM_mod x : 0 <= x -> BITNUM x = x `mod` 64.
Proof. intros. unfold BITNUM, BITS_PER_BITMAPWORD. apply Z.rem_mod_nonneg; lia. Qed.

Lemma bmw_bit_pow2 n : 0 <= n < 64 -> bmw_bit n = 2 ^ n.
Proof.
  intros. unfold bmw_bit, shlu. rewrite Z.shiftl_1_l. apply wrapu_small.
  split; [lia|]. apply Z.pow_lt_mono_r; lia.
Qed.

Lemma bmw_bit_ok n : 0 <= n < 64 -> is_u 64 (bmw_bit n).
Proof. intros. by apply wrapu_range. Qed.

Lemma bmw_bit_testbit n i : 0 <= n < 64 -> 0 <= i -> Z.testbit (bmw_bit n) i = bool_decide (i = n).
Proof.
  intros. rewrite bmw_bit_pow2, Z.pow2_bits_eqb by lia. by case_bool_decide; zcase; subst.
Qed.

Lemma land_bit_nonzero w n : 0 <= n < 64 -> negb (Z.land w (bmw_bit n) =? 0) = Z.testbit w n.
Proof.
  intros Hn. destruct (Z.testbit w n) eqn:E.
  - apply negb_true_iff, Z.eqb_neq. intros H0.
    assert (Z.testbit (Z.land w (bmw_bit n)) n = true) as Hb.
    { rewrite Z.land_spec, E, bmw_bit_testbit by lia. by rewrite bool_decide_true. }
    by rewrite H0, Z.bits_0 in Hb.
  - apply negb_false_iff, Z.eqb_eq. apply Z.bits_inj'. intros i Hi.
    rewrite Z.land_spec, bmw_bit_testbit, Z.bits_0 by lia.
    case_bool_decide; subst; [by rewrite E|apply andb_false_r].
Qed.

(** Quotient and remainder by the word size of a member. *)
Lemma split_index x : 0 <= x -> 0 <= x / 64 /\ 0 <= x `mod` 64 < 64 /\ x = x / 64 * 64 + x `mod` 64.
Proof.
  intros. pose proof (Z.mod_pos_bound x 64). pose proof (Z.div_pos x 64).
  pose proof (Z.div_mod x 64). lia.
Qed.

Lemma word_alter_ok f i l : words_ok l -> (forall w, is_u 64 w -> is_u 64 (f w)) -> words_ok (word_alter f i l).
Proof. intros Hl Hf. unfold word_alter. apply Forall_alter; auto. Qed.

Lemma length_word_alter f i l : length (word_alter f i l) = length l.
Proof. apply length_alter. Qed.

Lemma nthZ_word_alter f i j l : 0 <= i < Z.of_nat (length l) -> 0 <= j ->
  nthZ (word_alter f i l) j = if decide (i = j) then f (nthZ l i) else nthZ l j.
Proof.
  intros Hi Hj. unfold nthZ, word_alter. rewrite !nth_lookup. case_decide; subst.
  - destruct (lookup_lt_is_Some_2 l (Z.to_nat j)) as [x Hx]; [lia|].
    by rewrite list_lookup_alter_eq, Hx.
  - by rewrite list_lookup_alter_ne by lia.
Qed.

(** Effect of altering one word on the bits of the number. *)
Lemma LE_word_alter f i l x :
  words_ok l -> (forall w, is_u 64 w -> is_u 64 (f w)) -> 0 <= i < Z.of_nat (length l) -> 0 <= x ->
  Z.testbit (LE (word_alter f i l)) x =
    if decide (i = x / 64) then Z.testbit (f (nthZ l i)) (x `mod` 64) else Z.testbit (LE l) x.
Proof.
  intros Hl Hf Hi Hx. destruct (split_index x Hx) as (Hq & _ & _).
  rewrite !LE_testbit, nthZ_word_alter by (auto using word_alter_ok). by case_decide.
Qed.

Lemma enlarge_length l n : Z.of_nat (length (enlarge l n)) = Z.max (Z.of_nat (length l)) n.
Proof. unfold enlarge. rewrite length_app, length_replicate. lia. Qed.

Lemma enlarge_spec l n : words_ok l -> words_ok (enlarge l n) /\ LE (enlarge l n) = LE l.
Proof.
  intros. unfold enlarge. split; [auto using words_ok_app, replicate_0_ok|by apply LE_app_zeros].
Qed.

Lemma bms_is_member_spec a x : bms_valid a -> 0 <= x ->
  bms_is_member x a = Ok (bool_decide (x ∈ bms_set a)).
Proof.
  intros Ha Hx. unfold bms_is_member. destruct (Z.ltb_spec x 0); [lia|].
  destruct (split_index x Hx) as (Hq & Hm & _).
  assert (Z.testbit (bms_val a) x = bool_decide (x ∈ bms_set a)) as <-.
  { apply eq_true_iff_eq. rewrite bool_decide_eq_true, elem_of_bms_set by done. tauto. }
  destruct a as [[l]|]; [|simpl; by rewrite Z.bits_0]. destruct Ha as [Hl _]. simpl words. unfold nwords.
  simpl. rewrite WORDNUM_div, BITNUM_mod, LE_testbit by done. zcase; f_equal.
  - rewrite nthZ_overflow by lia. by rewrite Z.bits_0.
  - by apply land_bit_nonzero.
Qed.

(** The sum of the member's word index and the bounds on it. *)
Lemma word_index_max x : 0 <= x < 2 ^ 31 -> x / 64 + 1 <= MAX_WORDS.
Proof.
  intros. unfold MAX_WORDS. assert (x / 64 < 2 ^ 25) by (apply Z.div_lt_upper_bound; lia). lia.
Qed.

Lemma testbit_nonzero x i : Z.testbit x i = true -> x <> 0.
Proof. intros H ->. by rewrite Z.bits_0 in H. Qed.

Lemma bms_make_singleton_spec x : 0 <= x < 2 ^ 31 ->
  exists r, bms_make_singleton x = Ok r /\ bms_wf r /\ bms_val r = 2 ^ x.
Proof.
  intros Hx. unfold bms_make_singleton. destruct (Z.ltb_spec x 0); [lia|].
  destruct (split_index x) as (Hq & Hm & Hxe); [lia|].
  rewrite WORDNUM_div, BITNUM_mod by lia. eexists. split; [done|].
  set (l := replicate (Z.to_nat (x / 64)) 0 ++ [bmw_bit (x `mod` 64)]).
  assert (words_ok l) as Hl.
  { apply words_ok_app; [apply replicate_0_ok|]. repeat constructor; by apply bmw_bit_ok. }
  assert (Z.of_nat (length l) = x / 64 + 1) as Hlen.
  { unfold l. rewrite length_app, length_replicate. simpl. lia. }
  assert (LE l = 2 ^ x) as HLE.
  { apply Z.bits_inj'. intros i Hi. destruct (split_index i Hi) as (Hqi & Hmi & Hie).
    rewrite LE_testbit, Z.pow2_bits_eqb by (done || lia). unfold l.
    rewrite nthZ_app, length_replicate, Z2Nat.id, nthZ_replicate_0 by lia.
    case_decide; [rewrite Z.bits_0; symmetry; apply Z.eqb_neq; intros ->; lia|].
    destruct (decide (i / 64 = x / 64)) as [E|].
    - rewrite E, Z.sub_diag, nthZ_cons_0, bmw_bit_testbit by lia.
      case_bool_decide; symmetry; [apply Z.eqb_eq|apply Z.eqb_neq]; lia.
    - rewrite nthZ_overflow, Z.bits_0 by (simpl; lia). symmetry. apply Z.eqb_neq. intros ->. lia. }
  split; [|done]. split; [split|]; simpl; [done| |].
  - unfold nwords; simpl. rewrite Hlen. apply word_index_max. lia.
  - rewrite HLE. lia.
Qed.

Lemma div64_eq_iff x i : 0 <= x -> 0 <= i -> (x / 64 = i / 64 /\ i `mod` 64 = x `mod` 64) <-> i = x.
Proof.
  intros Hx Hi. destruct (split_index x Hx) as (? & ? & Ex), (split_index i Hi) as (? & ? & Ei). split.
  - intros [E1 E2]. lia.
  - by intros ->.
Qed.

Lemma bms_add_member_spec a x : bms_wf a -> 0 <= x < 2 ^ 31 ->
  exists r, bms_add_member a x = Ok r /\ bms_wf r /\ bms_val r = Z.lor (bms_val a) (2 ^ x).
Proof.
  intros [Ha _] Hx. unfold bms_add_member. destruct (Z.ltb_spec x 0); [lia|].
  destruct a as [[l]|]; [|by apply bms_make_singleton_spec]. destruct Ha as [Hl Hn].
  destruct (split_index x) as (Hq & Hm & Hxe); [lia|].
  rewrite WORDNUM_div, BITNUM_mod by lia. unfold nwords in *; simpl words in *.
  set (L := if Z.of_nat (length l) <=? x / 64 then enlarge l (x / 64 + 1) else l).
  assert (words_ok L /\ LE L = LE l /\ x / 64 < Z.of_nat (length L) <= MAX_WORDS) as (HL & HLE & Hlen).
  { unfold L. pose proof (word_index_max x Hx). zcase; [|split; [done|split; [done|lia]]].
    destruct (enlarge_spec l (x / 64 + 1) Hl). rewrite enlarge_length. split; [done|split; [done|lia]]. }
  eexists. split; [done|].
  assert (forall w, is_u 64 w -> is_u 64 (Z.lor w (bmw_bit (x `mod` 64)))) as Hf.
  { intros. apply is_u_lor; [lia|done|by apply bmw_bit_ok]. }
  assert (LE (word_alter (fun w => Z.lor w (bmw_bit (x `mod` 64))) (x / 64) L) = Z.lor (LE l) (2 ^ x)) as E.
  { apply Z.bits_inj'. intros i Hi. destruct (split_index i Hi) as (? & Hmi & ?).
    rewrite LE_word_alter, (Z.lor_spec (LE l)), Z.pow2_bits_eqb by (done || lia).
    pose proof (div64_eq_iff x i ltac:(lia) Hi).
    case_decide as E.
    - rewrite Z.lor_spec, bmw_bit_testbit, <- HLE, LE_testbit, E by (done || lia).
      f_equal. case_bool_decide; zcase; (done || lia).
    - rewrite HLE. zcase; [subst; lia|]. by rewrite orb_false_r. }
  split; [|done]. split; [split|]; simpl.
  - by apply word_alter_ok.
  - unfold nwords; simpl. rewrite length_word_alter. lia.
  - intros _. rewrite E, Z.lor_eq_0_iff. intros [_ ?]. lia.
Qed.

Lemma bms_del_member_spec a x : bms_wf a -> 0 <= x < 2 ^ 31 ->
  exists r, bms_del_member a x = Ok r /\ bms_wf r /\ bms_val r = Z.ldiff (bms_val a) (2 ^ x).
Proof.
  intros [Ha _] Hx. unfold bms_del_member. destruct (Z.ltb_spec x 0); [lia|].
  destruct a as [[l]|]; [|by eexists]. destruct Ha as [Hl Hn].
  destruct (split_index x) as (Hq & Hm & Hxe); [lia|].
  rewrite WORDNUM_div, BITNUM_mod by lia. unfold nwords in *; simpl words in *.
  eexists. split; [done|]. simpl bms_val at 2.
  set (L := if x / 64 <? Z.of_nat (length l) then _ else l).
  assert (forall w, is_u 64 w -> is_u 64 (Z.land w (bmw_not (bmw_bit (x `mod` 64))))) as Hf.
  { intros. apply is_u_land_l; [lia|done|]. by apply (notu_is_u 64), bmw_bit_ok. }
  assert (LE L = Z.ldiff (LE l) (2 ^ x)) as <-.
  { apply Z.bits_inj'. intros i Hi. destruct (split_index i Hi) as (? & Hmi & ?).
    pose proof (div64_eq_iff x i ltac:(lia) Hi). rewrite Z.ldiff_spec, Z.pow2_bits_eqb by lia.
    unfold L. destruct (Z.ltb_spec (x / 64) (Z.of_nat (length l))).
    - rewrite LE_word_alter by (done || lia). case_decide as E.
      + unfold bmw_not. rewrite Z.land_spec, notu_testbit, bmw_bit_testbit by (lia || by apply bmw_bit_ok).
        rewrite LE_testbit, E, bool_decide_true by (done || lia).
        f_equal. simpl. f_equal. case_bool_decide; zcase; (done || lia).
      + zcase; [subst; lia|]. by rewrite andb_true_r.
    - zcase; simpl; [|by rewrite andb_true_r]. subst i. rewrite LE_testbit_high; [done|done|lia]. }
  apply valid_null_if_empty.
  - unfold L. zcase; [by apply word_alter_ok|done].
  - unfold L. zcase; rewrite ?length_word_alter; done.
Qed.

(** ** Ranges *)

Lemma lmask_testbit lb j : 0 <= lb < 64 -> 0 <= j < 64 ->
  Z.testbit (bmw_not (bmw (bmw_bit lb - 1))) j = bool_decide (lb <= j).
Proof.
  intros. rewrite bmw_bit_pow2 by lia.
  replace (2 ^ lb - 1) with (Z.ones lb) by (rewrite Z.ones_equiv; lia).
  assert (is_u 64 (Z.ones lb)).
  { unfold is_u. rewrite Z.ones_equiv. assert (2 ^ lb <= 2 ^ 64) by (apply Z.pow_le_mono_r; lia).
    assert (0 < 2 ^ lb) by lia. lia. }
  unfold bmw, bmw_not. rewrite wrapu_small, notu_testbit, Z.ones_spec by (done || lia).
  repeat case_bool_decide; simpl; lia || done.
Qed.

Lemma bmw_ones_eq : bmw_ones = Z.ones 64.
Proof. done. Qed.

Lemma umask_testbit ub j : 0 <= ub < 64 -> 0 <= j ->
  Z.testbit (Z.shiftr bmw_ones (64 - (ub + 1))) j = bool_decide (j <= ub).
Proof.
  intros. rewrite bmw_ones_eq, Z.shiftr_spec, Z.ones_spec by lia. apply bool_decide_ext. lia.
Qed.

Lemma umask_ok ub : 0 <= ub < 64 -> is_u 64 (Z.shiftr bmw_ones (64 - (ub + 1))).
Proof.
  intros. apply is_u_bits; [lia|apply Z.shiftr_nonneg; rewrite bmw_ones_eq; by vm_compute|].
  intros. rewrite umask_testbit by lia. apply bool_decide_false. lia.
Qed.

Lemma lmask_ok lb : is_u 64 (bmw_not (bmw (bmw_bit lb - 1))).
Proof. apply (notu_is_u 64); [lia|]. by apply wrapu_range. Qed.

Lemma fill_ones_spec n w l : words_ok l -> 0 <= w -> w + Z.of_nat n <= Z.of_nat (length l) ->
  words_ok (fill_ones n w l) /\ length (fill_ones n w l) = length l /\
  forall x, 0 <= x -> Z.testbit (LE (fill_ones n w l)) x =
    if decide (w <= x / 64 < w + Z.of_nat n) then true else Z.testbit (LE l) x.
Proof.
  revert w l. induction n as [|n IH]; intros w l Hl Hw Hlen; cbn [fill_ones].
  - split; [done|]. split; [done|]. intros. case_decide; [lia|done].
  - assert (forall v : Z, is_u 64 v -> is_u 64 bmw_ones) as Hf by (intros; rewrite bmw_ones_eq; by apply ones_is_u).
    destruct (IH (w + 1) (word_alter (fun _ => bmw_ones) w l)) as (H1 & H2 & H3);
      [by apply word_alter_ok|lia|rewrite length_word_alter; lia|].
    rewrite length_word_alter in H2. split; [done|]. split; [done|]. intros x Hx.
    rewrite H3 by done. destruct (split_index x Hx) as (? & ? & ?).
    rewrite LE_word_alter by (done || lia). rewrite bmw_ones_eq, Z.ones_spec by lia.
    rewrite bool_decide_true by lia. repeat case_decide; (done || lia).
Qed.

(** Membership of [x] in the range, split at word boundaries. *)
Lemma range_word_cases lo hi x : 0 <= lo -> lo <= hi -> 0 <= x ->
  (lo <= x <= hi) <->
  (lo / 64 < x / 64 \/ (lo / 64 = x / 64 /\ lo `mod` 64 <= x `mod` 64)) /\
  (x / 64 < hi / 64 \/ (x / 64 = hi / 64 /\ x `mod` 64 <= hi `mod` 64)).
Proof.
  intros. destruct (split_index lo) as (? & ? & ?), (split_index hi) as (? & ? & ?),
    (split_index x) as (? & ? & ?); lia.
Qed.

(** The word updates of [bms_add_range]: the range inside one word, and across words. *)
Definition range_words (lower upper : Z) (L R : list Z) : Prop :=
  words_ok R /\ length R = length L /\
  forall x, 0 <= x -> Z.testbit (LE R) x = Z.testbit (LE L) x || bool_decide (lower <= x <= upper).

Section AddRange.
  Context (lower upper : Z) (L : list Z).
  Context (Hlu : 0 <= lower <= upper) (HL : words_ok L) (Hlen : upper / 64 < Z.of_nat (length L)).

Local Definition lmask : Z := bmw_not (bmw (bmw_bit (lower `mod` 64) - 1)).
Local Definition umask : Z := Z.shiftr bmw_ones (64 - (upper `mod` 64 + 1)).

Local Lemma lmask_lor w : is_u 64 w -> is_u 64 (Z.lor w lmask).
  Proof. intros. apply is_u_lor; [lia|done|apply lmask_ok]. Qed.

Local Lemma umask_lor w : is_u 64 w -> is_u 64 (Z.lor w umask).
  Proof. intros. apply is_u_lor; [lia|done|]. by apply umask_ok, Z.mod_pos_bound. Qed.

Lemma range_one_word : lower / 64 = upper / 64 ->
    range_words lower upper L (word_alter (fun w => Z.lor w (Z.land lmask umask)) (lower / 64) L).
  Proof.
    intros E. destruct (split_index lower) as (? & ? & _), (split_index upper) as (? & ? & _); [lia..|].
    assert (forall w, is_u 64 w -> is_u 64 (Z.lor w (Z.land lmask umask))) as Hf.
    { intros. apply is_u_lor; [lia|done|]. apply is_u_land_l; [lia|apply lmask_ok|].
      by apply (umask_ok (upper `mod` 64)). }
    split; [by apply word_alter_ok|]. split; [apply length_word_alter|]. intros x Hx.
    destruct (split_index x Hx) as (? & ? & ?). pose proof (range_word_cases lower upper x).
    rewrite LE_word_alter by (done || lia). case_decide.
    - rewrite Z.lor_spec, Z.land_spec. unfold lmask, umask. rewrite lmask_testbit, umask_testbit by lia.
      rewrite LE_testbit by done. replace (x / 64) with (lower / 64) by lia. f_equal.
      repeat case_bool_decide; simpl; (done || lia).
    - rewrite bool_decide_false by lia. by rewrite orb_false_r.
  Qed.

Lemma range_many_words : lower / 64 < upper / 64 ->
    range_words lower upper L
      (word_alter (fun w => Z.lor w umask) (upper / 64)
        (fill_ones (Z.to_nat (upper / 64 - (lower / 64 + 1))) (lower / 64 + 1)
          (word_alter (fun w => Z.lor w lmask) (lower / 64) L))).
  Proof.
    intros Hlt. destruct (split_index lower) as (? & ? & _), (split_index upper) as (? & ? & _); [lia..|].
    set (L1 := word_alter (fun w => Z.lor w lmask) (lower / 64) L).
    assert (words_ok L1) by (apply word_alter_ok; auto using lmask_lor).
    assert (length L1 = length L) by apply length_word_alter.
    set (F := fill_ones _ _ L1).
    destruct (fill_ones_spec (Z.to_nat (upper / 64 - (lower / 64 + 1))) (lower / 64 + 1) L1)
      as (HF & HlenF & HbF); [done|lia|lia|]. fold F in HF, HlenF, HbF.
    split; [apply word_alter_ok; auto using umask_lor|]. split; [rewrite length_word_alter; lia|]. intros x Hx.
    destruct (split_index x Hx) as (? & ? & ?). pose proof (range_word_cases lower upper x).
    assert (Z.testbit (LE L1) x = if decide (lower / 64 = x / 64)
       then Z.testbit (Z.lor (nthZ L (lower / 64)) lmask) (x `mod` 64) else Z.testbit (LE L) x) as Hb1
      by (apply LE_word_alter; auto using lmask_lor; lia).
    rewrite LE_word_alter by (auto using umask_lor; lia).
    destruct (decide (upper / 64 = x / 64)).
    - rewrite Z.lor_spec. unfold umask. rewrite umask_testbit by lia.
      replace (upper / 64) with (x / 64) at 1 by lia. rewrite <- LE_testbit, HbF by done.
      rewrite decide_False, Hb1, decide_False by lia. f_equal. repeat case_bool_decide; (done || lia).
    - rewrite HbF by done.
      destruct (decide (lower / 64 + 1 <= x / 64 < _)).
      { rewrite bool_decide_true by lia. by rewrite orb_true_r. }
      rewrite Hb1. destruct (decide (lower / 64 = x / 64)).
      + rewrite Z.lor_spec. unfold lmask. rewrite lmask_testbit by lia.
        rewrite LE_testbit by done. replace (x / 64) with (lower / 64) by lia. f_equal.
        repeat case_bool_decide; (done || lia).
      + rewrite bool_decide_false by lia. by rewrite orb_false_r.
  Qed.
End AddRange.

Lemma bms_add_range_spec a lower upper : bms_wf a -> 0 <= lower <= upper -> upper < 2 ^ 31 ->
  exists r, bms_add_range a lower upper = Ok r /\ bms_wf r /\
    forall x, 0 <= x -> Z.testbit (bms_val r) x = Z.testbit (bms_val a) x || bool_decide (lower <= x <= upper).
Proof.
  intros [Ha _] Hlu Hup. unfold bms_add_range.
  destruct (Z.ltb_spec upper lower); [lia|]. destruct (Z.ltb_spec lower 0); [lia|].
  rewrite !WORDNUM_div, !BITNUM_mod by lia.
  set (L := match a with None => _ | Some a => _ end).
  assert (lower / 64 <= upper / 64) by (apply Z.div_le_mono; lia).
  assert (words_ok L /\ LE L = bms_val a /\ upper / 64 < Z.of_nat (length L) <= MAX_WORDS) as (HL & HLE & Hlen).
  { pose proof (word_index_max upper). pose proof (Z.div_pos upper 64).
    unfold L. destruct a as [[l]|]; unfold nwords; simpl in *.
    - destruct Ha as [Hl Hn]. unfold nwords in Hn; simpl in Hn. zcase; [|split; [done|split; [done|lia]]].
      destruct (enlarge_spec l (upper / 64 + 1) Hl). rewrite enlarge_length. split; [done|split; [done|lia]].
    - split; [apply replicate_0_ok|]. rewrite length_replicate. split; [|lia].
      apply (LE_app_zeros []). constructor. }
  cbn zeta. set (R := if lower / 64 =? upper / 64 then _ else _).
  assert (range_words lower upper L R) as (HR & HlenR & Hbits).
  { unfold R. destruct (Z.eqb_spec (lower / 64) (upper / 64)).
    - apply range_one_word; done || lia.
    - apply range_many_words; done || lia. }
  eexists. split; [done|]. split.
  - split; [split|]; simpl; [done|unfold nwords; simpl; lia|].
    intros _. apply (testbit_nonzero _ lower). rewrite Hbits by lia.
    rewrite bool_decide_true by lia. apply orb_true_r.
  - intros x Hx. simpl. by rewrite Hbits, HLE.
Qed.

(** ** Iteration *)

Lemma land_mask_spec w mask (P : Z -> Prop) `{!forall j, Decision (P j)} j :
  is_u 64 w -> (forall j, 0 <= j < 64 -> Z.testbit mask j = bool_decide (P j)) -> 0 <= j ->
  Z.testbit (Z.land w mask) j = Z.testbit w j && bool_decide (P j).
Proof.
  intros Hw Hm Hj. rewrite Z.land_spec. destruct (decide (j < 64)); [by rewrite Hm|].
  by rewrite (is_u_testbit 64 w) by (done || lia).
Qed.

Lemma land_mask_range w mask : is_u 64 w -> is_u 64 mask -> is_u 64 (Z.land w mask).
Proof. intros. apply is_u_land_l; [lia|done|]. unfold is_u in *. lia. Qed.

(** Members are below 2^31, so the position of a bit of the set is an [int]. *)
Lemma bit_position n k : 0 <= n < MAX_WORDS -> 0 <= k < 64 -> i32 (i32 (n * 64) + k) = n * 64 + k.
Proof. unfold MAX_WORDS. intros. rewrite wraps_add_l. apply wraps_small; [lia|]. unfold is_s. lia. Qed.

Lemma ones_all j : 0 <= j < 64 -> Z.testbit bmw_ones j = bool_decide (0 <= j).
Proof. intros. rewrite bmw_ones_eq, Z.ones_spec by lia. apply bool_decide_ext. lia. Qed.

Lemma word_bit W n j : words_ok W -> 0 <= n -> 0 <= j < 64 ->
  Z.testbit (LE W) (n * 64 + j) = Z.testbit (nthZ W n) j.
Proof.
  intros. rewrite LE_testbit, Z.div_add_l, Z.div_small, Z.add_0_r by (done || lia).
  by rewrite Z.add_comm, Z.mod_add, Z.mod_small by lia.
Qed.

(** Write a bit position inside word [n] as an offset from the word's first bit. *)
Ltac to_word_bit n i := replace i with (n * 64 + (i - n * 64)) by lia; rewrite word_bit by (done || lia).

(** One iteration of the forward scan, on word [n] with the bits below [m] masked out. *)
Lemma next_step W n mask m :
  words_ok W -> 0 <= n < MAX_WORDS -> is_u 64 mask -> 0 <= m < 64 ->
  (forall j, 0 <= j < 64 -> Z.testbit mask j = bool_decide (m <= j)) ->
  let w := Z.land (nthZ W n) mask in
  (w = 0 -> forall i, n * 64 + m <= i < (n + 1) * 64 -> Z.testbit (LE W) i = false) /\
  (w <> 0 -> let r := i32 (i32 (n * 64) + bmw_rightmost_one_pos w) in
     n * 64 + m <= r < (n + 1) * 64 /\ Z.testbit (LE W) r = true /\
     forall i, n * 64 + m <= i < r -> Z.testbit (LE W) i = false).
Proof.
  intros HW Hn Hmu Hm Hmask w. assert (is_u 64 (nthZ W n)) as Hwu by (by apply nthZ_ok).
  pose proof (fun j => land_mask_spec (nthZ W n) mask (fun j => m <= j) j Hwu Hmask) as Hb.
  pose proof (land_mask_range _ mask Hwu Hmu) as Hr. fold w in Hb, Hr. unfold is_u in Hr.
  split.
  - intros E i Hi. to_word_bit n i. specialize (Hb (i - n * 64)).
    rewrite E, Z.bits_0, bool_decide_true, andb_true_r in Hb by lia. symmetry. apply Hb. lia.
  - intros E. destruct (ctz_spec w) as [H1 H2]; [lia|]. pose proof (ctz_nonneg w).
    pose proof (ctz_lt 64 w). unfold bmw_rightmost_one_pos. rewrite rightmost64_ctz by lia.
    cbn zeta. rewrite bit_position, word_bit by (done || lia).
    rewrite Hb in H1 by done. apply andb_prop in H1 as [H1 H1']. apply bool_decide_eq_true in H1'.
    split; [lia|]. split; [done|]. intros i Hi. to_word_bit n i. specialize (H2 (i - n * 64)).
    rewrite Hb, bool_decide_true, andb_true_r in H2 by lia. apply H2. lia.
Qed.

(** One iteration of the backward scan, with the bits above [m] masked out. *)
Lemma prev_step W n mask m :
  words_ok W -> 0 <= n < MAX_WORDS -> is_u 64 mask -> 0 <= m < 64 ->
  (forall j, 0 <= j < 64 -> Z.testbit mask j = bool_decide (j <= m)) ->
  let w := Z.land (nthZ W n) mask in
  (w = 0 -> forall i, n * 64 <= i <= n * 64 + m -> Z.testbit (LE W) i = false) /\
  (w <> 0 -> let r := i32 (i32 (n * 64) + bmw_leftmost_one_pos w) in
     n * 64 <= r <= n * 64 + m /\ Z.testbit (LE W) r = true /\
     forall i, r < i <= n * 64 + m -> Z.testbit (LE W) i = false).
Proof.
  intros HW Hn Hmu Hm Hmask w. assert (is_u 64 (nthZ W n)) as Hwu by (by apply nthZ_ok).
  pose proof (fun j => land_mask_spec (nthZ W n) mask (fun j => j <= m) j Hwu Hmask) as Hb.
  pose proof (land_mask_range _ mask Hwu Hmu) as Hr. fold w in Hb, Hr. unfold is_u in Hr.
  split.
  - intros E i Hi. to_word_bit n i. specialize (Hb (i - n * 64)).
    rewrite E, Z.bits_0, bool_decide_true, andb_true_r in Hb by lia. symmetry. apply Hb. lia.
  - intros E. assert (Z.testbit w (Z.log2 w) = true) as H1 by (apply Z.bit_log2; lia).
    pose proof (Z.log2_nonneg w).
    assert (Z.log2 w < 64) by (apply Z.log2_lt_pow2; lia).
    unfold bmw_leftmost_one_pos. rewrite leftmost64_log2 by lia.
    cbn zeta. rewrite bit_position, word_bit by (done || lia).
    rewrite Hb in H1 by done. apply andb_prop in H1 as [H1 H1']. apply bool_decide_eq_true in H1'.
    split; [lia|]. split; [done|]. intros i Hi. to_word_bit n i.
    assert (Z.testbit w (i - n * 64) = false) as H2 by (apply Z.bits_above_log2; lia).
    by rewrite Hb, bool_decide_true, andb_true_r in H2 by lia.
Qed.

Lemma drop_nthZ W n : 0 <= n < Z.of_nat (length W) ->
  drop (Z.to_nat n) W = nthZ W n :: drop (Z.to_nat (n + 1)) W.
Proof.
  intros. destruct (lookup_lt_is_Some_2 W (Z.to_nat n)) as [w Hw]; [lia|].
  rewrite (drop_S _ _ _ Hw). unfold nthZ. rewrite nth_lookup, Hw. simpl. do 2 f_equal. lia.
Qed.

Lemma next_member_loop_spec W n mask m :
  words_ok W -> 0 <= n -> Z.of_nat (length W) <= MAX_WORDS -> is_u 64 mask -> 0 <= m < 64 ->
  (forall j, 0 <= j < 64 -> Z.testbit mask j = bool_decide (m <= j)) ->
  let r := next_member_loop (drop (Z.to_nat n) W) n mask in
  (r = -2 /\ forall i, n * 64 + m <= i -> Z.testbit (LE W) i = false) \/
  (n * 64 + m <= r /\ Z.testbit (LE W) r = true /\
   forall i, n * 64 + m <= i < r -> Z.testbit (LE W) i = false).
Proof.
  intros HW. remember (length W - Z.to_nat n)%nat as k eqn:Hk. revert n mask m Hk.
  induction k as [|k IH]; intros n mask m Hk Hn Hmax Hmu Hm Hmask; cbn zeta.
  - rewrite drop_ge by lia. left. split; [done|]. intros. apply LE_testbit_high; [done|lia].
  - rewrite drop_nthZ by lia. cbn [next_member_loop]. unfold BITS_PER_BITMAPWORD.
    destruct (next_step W n mask m) as [Hz Hnz]; [done|unfold MAX_WORDS in *; lia|done..|].
    destruct (Z.eqb_spec (Z.land (nthZ W n) mask) 0) as [E|E].
    + specialize (Hz E). destruct (IH (n + 1) bmw_ones 0) as [[-> H]|(H1 & H2 & H3)];
        [lia|lia|done|by apply ones_is_u|lia|apply ones_all| |]; [left|right]; cbn zeta in *.
      * split; [done|]. intros i Hi. destruct (decide (i < (n + 1) * 64)); [apply Hz|apply H]; lia.
      * split; [lia|]. split; [done|]. intros i Hi.
        destruct (decide (i < (n + 1) * 64)); [apply Hz|apply H3]; lia.
    + right. destruct (Hnz E) as (H1 & H2 & H3). split; [lia|done].
Qed.

Lemma prev_member_loop_spec W n mask m :
  words_ok W -> Z.of_nat n < Z.of_nat (length W) <= MAX_WORDS -> is_u 64 mask -> 0 <= m < 64 ->
  (forall j, 0 <= j < 64 -> Z.testbit mask j = bool_decide (j <= m)) ->
  let r := prev_member_loop (reverse (take (S n) W)) (Z.of_nat n) mask in
  (r = -2 /\ forall i, 0 <= i <= Z.of_nat n * 64 + m -> Z.testbit (LE W) i = false) \/
  (0 <= r <= Z.of_nat n * 64 + m /\ Z.testbit (LE W) r = true /\
   forall i, r < i <= Z.of_nat n * 64 + m -> Z.testbit (LE W) i = false).
Proof.
  intros HW. revert mask m. induction n as [|n IH]; intros mask m Hn Hmu Hm Hmask.
  all: match goal with |- context [take (S ?k) ?W] =>
    destruct (lookup_lt_is_Some_2 W k) as [w Hw]; [lia|];
    rewrite (take_S_r _ _ _ Hw), reverse_snoc; cbn [prev_member_loop];
    assert (w = nthZ W (Z.of_nat k)) as -> by (unfold nthZ; by rewrite nth_lookup, Nat2Z.id, Hw);
    destruct (prev_step W (Z.of_nat k) mask m) as [Hz Hnz]; [done|lia|done..|]
  end; unfold BITS_PER_BITMAPWORD; cbn zeta.
  - destruct (Z.eqb_spec (Z.land (nthZ W (Z.of_nat 0)) mask) 0) as [E|E].
    + left. split; [done|]. intros. apply Hz; [done|lia].
    + right. destruct (Hnz E) as (H1 & H2 & H3). split; [lia|done].
  - destruct (Z.eqb_spec (Z.land (nthZ W (Z.of_nat (S n))) mask) 0) as [E|E].
    + specialize (Hz E). replace (Z.of_nat (S n) - 1) with (Z.of_nat n) by lia.
      destruct (IH bmw_ones 63) as [[-> H]|(H1 & H2 & H3)];
        [lia|by apply ones_is_u|lia|intros; rewrite ones_all by done; apply bool_decide_ext; lia| |];
        [left|right].
      * split; [done|]. intros i Hi.
        destruct (decide (Z.of_nat (S n) * 64 <= i)); [apply Hz|apply H]; lia.
      * split; [lia|]. split; [done|]. intros i Hi.
        destruct (decide (Z.of_nat (S n) * 64 <= i)); [apply Hz|apply H3]; lia.
    + right. destruct (Hnz E) as (H1 & H2 & H3). split; [lia|done].
Qed.

(** ** Counting *)

Lemma popcount_sum_spec l r : words_ok l -> is_s 32 r ->
  popcount_sum l r = i32 (r + popcnt (64 * Z.of_nat (length l)) (LE l)).
Proof.
  intros Hl. rewrite popcnt_little_endian by (done || lia). revert r.
  induction Hl as [|w l Hw Hl IH]; intros r Hr.
  - cbn. rewrite Z.add_0_r. by rewrite wraps_small by (done || lia).
  - cbn [popcount_sum fmap list_fmap foldr]. destruct (Z.eqb_spec w 0) as [->|].
    + rewrite popcnt_0. by apply IH.
    + rewrite IH by (apply wraps_range; lia). rewrite wraps_add_l.
      unfold bmw_popcount. rewrite popcount64_popcnt by done. f_equal. unfold fmap, list_fmap. lia.
Qed.

Lemma NoDup_filter_seqZ (P : Z -> Prop) `{!forall x, Decision (P x)} m n : NoDup (filter P (seqZ m n)).
Proof. apply NoDup_filter, NoDup_seqZ. Qed.

Lemma size_bms_set a : Z.of_nat (size (bms_set a)) =
  match a with None => 0 | Some a => popcnt (64 * nwords a) (LE (words a)) end.
Proof.
  destruct a as [[l]|]; [|done]. unfold bms_set, popcnt. rewrite size_list_to_set by apply NoDup_filter_seqZ.
  do 4 f_equal. unfold BITS_PER_BITMAPWORD. lia.
Qed.

Lemma filter_seqZ_below (P : Z -> Prop) `{!forall x, Decision (P x)} n m : 0 <= n <= m ->
  filter (fun i => P i /\ i < n) (seqZ 0 m) = filter P (seqZ 0 n).
Proof.
  intros. replace m with (n + (m - n)) by lia. rewrite seqZ_app, filter_app by lia.
  assert (filter (fun i => P i /\ i < n) (seqZ (0 + n) (m - n)) = []) as ->.
  { destruct (filter _ _) as [|y ?] eqn:E; [done|]. exfalso.
    assert (y ∈ filter (fun i => P i /\ i < n) (seqZ (0 + n) (m - n))) as Hy by (rewrite E; left).
    apply list_elem_of_filter in Hy as [[_ ?] Hy%elem_of_seqZ]. lia. }
  rewrite app_nil_r. apply filter_ext_in. intros x Hx%elem_of_seqZ. split; [by intros []|]. split; [done|lia].
Qed.

(** The members below [x] are counted by [popcnt x]. *)
Lemma size_below a x : bms_valid a -> 0 <= x ->
  Z.of_nat (size (filter (fun y => y < x) (bms_set a))) = popcnt x (bms_val a).
Proof.
  intros Ha Hx.
  assert (filter (fun y => y < x) (bms_set a) =
          list_to_set (C := gset Z) (filter (fun i => Z.testbit (bms_val a) i = true) (seqZ 0 x))) as ->.
  { apply set_eq. intros y. rewrite elem_of_filter, elem_of_bms_set by done.
    rewrite elem_of_list_to_set, list_elem_of_filter, elem_of_seqZ. split; intros; destruct_and?; split_and?; done || lia. }
  by rewrite size_list_to_set by apply NoDup_filter_seqZ.
Qed.

Lemma words_ok_take n l : words_ok l -> words_ok (take n l).
Proof. apply Forall_take. Qed.

Lemma take_popcnt l n : words_ok l -> 0 <= n <= Z.of_nat (length l) ->
  popcnt (64 * Z.of_nat (length (take (Z.to_nat n) l))) (LE (take (Z.to_nat n) l)) = popcnt (n * 64) (LE l).
Proof.
  intros Hl Hn. rewrite length_take. replace (64 * Z.of_nat (Z.to_nat n `min` length l)) with (n * 64) by lia.
  apply popcnt_ext. intros i Hi. rewrite !LE_testbit by (auto using words_ok_take; lia).
  f_equal. unfold nthZ. rewrite !nth_lookup, lookup_take_lt; [done|].
  assert (i / 64 < n) by (apply Z.div_lt_upper_bound; lia). pose proof (Z.div_pos i 64). lia.
Qed.

Lemma bms_member_index_spec a x : bms_valid a -> 0 <= x ->
  bms_member_index a x = Ok (if bool_decide (x ∈ bms_set a)
     then i32 (Z.of_nat (size (filter (fun y => y < x) (bms_set a)))) else -1).
Proof.
  intros Ha Hx. unfold bms_member_index. rewrite bms_is_member_spec by done.
  case_bool_decide as Hin; cbn [mbind res_bind negb]; [|by destruct a].
  rewrite size_below by done. destruct a as [[l]|]; [|set_solver].
  destruct Ha as [Hl Hn]. unfold nwords in Hn. simpl words in *. f_equal. simpl bms_val.
  destruct (split_index x Hx) as (Hq & Hm & Hxe). rewrite WORDNUM_div, BITNUM_mod by done.
  assert (x / 64 < Z.of_nat (length l)).
  { apply elem_of_bms_set in Hin as [_ Hb]; [|by split]. simpl in Hb. apply Z.nle_gt. intros ?.
    rewrite LE_testbit_high in Hb; (done || lia). }
  assert (is_u 64 (nthZ l (x / 64))) as Hwu by (by apply nthZ_ok).
  rewrite bmw_bit_pow2 by done.
  replace (2 ^ (x `mod` 64) - 1) with (Z.ones (x `mod` 64)) by (rewrite Z.ones_equiv; lia).
  unfold bmw. rewrite wrapu_small.
  2:{ pose proof (ones_is_u (x `mod` 64)). unfold is_u in *.
      assert (2 ^ (x `mod` 64) <= 2 ^ 64) by (apply Z.pow_le_mono_r; lia). lia. }
  rewrite popcount_sum_spec by (auto using words_ok_take; unfold is_s; lia).
  rewrite wraps_add_l, take_popcnt by (done || lia). f_equal. rewrite Z.add_0_l.
  rewrite Hxe at 4. rewrite popcnt_split by lia. f_equal.
  unfold bmw_popcount. rewrite popcount64_popcnt.
  2:{ rewrite Z.land_ones by lia. pose proof (Z.mod_pos_bound (nthZ l (x / 64)) (2 ^ (x `mod` 64))).
      assert (2 ^ (x `mod` 64) <= 2 ^ 64) by (apply Z.pow_le_mono_r; lia). lia. }
  replace 64 with (x `mod` 64 + (64 - x `mod` 64)) at 1 by lia. rewrite popcnt_split by lia.
  rewrite popcnt_land_ones by lia.
  assert (Z.shiftr (Z.land (nthZ l (x / 64)) (Z.ones (x `mod` 64))) (x `mod` 64) = 0) as ->.
  { apply Z.bits_inj'. intros i Hi. rewrite Z.shiftr_spec, Z.land_spec, Z.ones_spec, Z.bits_0 by lia.
    rewrite bool_decide_false by lia. apply andb_false_r. }
  rewrite popcnt_0, Z.add_0_r. apply popcnt_ext. intros i Hi.
  rewrite Z.shiftr_spec by lia. rewrite (Z.add_comm i), word_bit by (done || lia). done.
Qed.

(** ** Isolating the rightmost one bit *)

Lemma odd_decompose x : 0 < x -> exists q, x = 2 ^ ctz x * (2 * q + 1) /\ 0 <= q.
Proof.
  destruct x as [|p|p]; try lia. intros _. simpl. induction p as [p IH|p IH|].
  - exists (Zpos p). simpl pos_ctz. lia.
  - destruct IH as (q & E & Hq). exists q. simpl pos_ctz. split; [|done].
    assert (0 <= pos_ctz p) by apply (ctz_nonneg (Zpos p)).
    rewrite Z.pow_add_r, Pos2Z.inj_xO by lia. lia.
  - exists 0. simpl. lia.
Qed.

Lemma odd_testbit q j : 0 <= j -> Z.testbit (2 * q + 1) j = if decide (j = 0) then true else Z.testbit q (j - 1).
Proof.
  intros. case_decide; [subst; apply Z.testbit_odd_0|].
  replace j with (Z.succ (j - 1)) at 1 by lia. apply Z.testbit_odd_succ. lia.
Qed.

Lemma land_opp x : 0 < x -> Z.land x (- x) = 2 ^ ctz x.
Proof.
  intros Hx. destruct (odd_decompose x Hx) as (q & E & Hq). pose proof (ctz_nonneg x) as Hc.
  assert (- x = 2 ^ ctz x * (2 * Z.lnot q + 1)) as En by (unfold Z.lnot; lia).
  apply Z.bits_inj'. intros i Hi. rewrite Z.land_spec, En, E at 1.
  rewrite !(Z.mul_comm (2 ^ ctz x)), !Z.mul_pow2_bits, Z.pow2_bits_eqb by lia.
  destruct (decide (i < ctz x)).
  - rewrite !Z.testbit_neg_r by lia. symmetry. apply Z.eqb_neq. lia.
  - rewrite !odd_testbit by lia. destruct (decide (i - ctz x = 0)).
    + symmetry. apply Z.eqb_eq. lia.
    + rewrite Z.lnot_spec, andb_negb_r by lia. symmetry. apply Z.eqb_neq. lia.
Qed.

Lemma wraps_testbit w x i : 0 < w -> 0 <= i < w -> Z.testbit (wraps w x) i = Z.testbit x i.
Proof.
  intros Hw Hi. unfold wraps. rewrite <- (Z.mod_pow2_bits_low (_ - _) w) by lia.
  rewrite Zminus_mod_idemp_l. replace (x + 2 ^ (w - 1) - 2 ^ (w - 1)) with x by lia.
  apply Z.mod_pow2_bits_low. lia.
Qed.

Lemma wraps_opp w x : wraps w (- wraps w x) = wraps w (- x).
Proof.
  unfold wraps. f_equal.
  replace (- ((x + 2 ^ (w - 1)) `mod` 2 ^ w - 2 ^ (w - 1)) + 2 ^ (w - 1))
    with (2 ^ (w - 1) + 2 ^ (w - 1) - (x + 2 ^ (w - 1)) `mod` 2 ^ w) by lia.
  rewrite Zminus_mod_idemp_r. f_equal. lia.
Qed.

Lemma RIGHTMOST_ONE_spec w : 0 < w < 2 ^ 64 -> bmw (RIGHTMOST_ONE w) = 2 ^ ctz w.
Proof.
  intros Hw. unfold RIGHTMOST_ONE, bmw. rewrite wraps_opp. pose proof (ctz_lt 64 w) as Hc.
  pose proof (ctz_nonneg w). rewrite <- land_opp by lia. apply Z.bits_inj'. intros i Hi.
  rewrite wrapu_testbit, !Z.land_spec by lia. case_bool_decide.
  - by rewrite !wraps_testbit by lia.
  - simpl. by rewrite (is_u_testbit 64 w) by (unfold is_u; lia).
Qed.

(** A non-zero word has multiple ones exactly when it is not a single bit. *)
Lemma HAS_MULTIPLE_ONES_spec w : 0 < w < 2 ^ 64 -> HAS_MULTIPLE_ONES w = negb (w =? 2 ^ ctz w).
Proof. intros. unfold HAS_MULTIPLE_ONES. rewrite RIGHTMOST_ONE_spec by done. by rewrite Z.eqb_sym. Qed.

Lemma LE_cons_pow2 w l k : is_u 64 w -> words_ok l -> 0 <= k ->
  LE (w :: l) = 2 ^ k <->
  (k < 64 /\ w = 2 ^ k /\ LE l = 0) \/ (64 <= k /\ w = 0 /\ LE l = 2 ^ (k - 64)).
Proof.
  intros Hw Hl Hk. rewrite LE_cons by done. pose proof (LE_nonneg l Hl). unfold is_u in Hw.
  destruct (decide (k < 64)).
  - assert (2 ^ k < 2 ^ 64) by (apply Z.pow_lt_mono_r; lia). nia.
  - assert (2 ^ k = 2 ^ (k - 64) * 2 ^ 64) as E by (rewrite <- Z.pow_add_r by lia; f_equal; lia).
    rewrite E. split; [intros ?; right; nia|]. intros [?|(_ & -> & ->)]; [lia|]. lia.
Qed.

(** [singleton_loop] started with no member found. *)
Lemma singleton_loop_found l n r : words_ok l -> 0 <= r ->
  singleton_loop l n r = if words_nonzero l then None else Some r.
Proof.
  intros Hl. revert n. induction Hl as [|w l Hw Hl IH]; intros n Hr; [done|].
  cbn [singleton_loop words_nonzero]. destruct (Z.eqb_spec w 0); simpl; [by apply IH|].
  destruct (Z.leb_spec 0 r); [done|lia].
Qed.

Lemma singleton_loop_spec l n : words_ok l -> 0 <= n -> n + Z.of_nat (length l) <= MAX_WORDS ->
  (LE l = 0 -> singleton_loop l n (-1) = Some (-1)) /\
  (forall k, 0 <= k -> LE l = 2 ^ k -> singleton_loop l n (-1) = Some (n * 64 + k)) /\
  (LE l <> 0 -> (forall k, 0 <= k -> LE l <> 2 ^ k) -> singleton_loop l n (-1) = None).
Proof.
  intros Hl. revert n. induction Hl as [|w l Hw Hl IH]; intros n Hn Hmax.
  { repeat split; try done. intros k Hk E. simpl in E. lia. }
  cbn [length] in Hmax. destruct (IH (n + 1)) as (I1 & I2 & I3); [lia|lia|].
  cbn [singleton_loop]. pose proof (LE_nonneg l Hl). rewrite LE_cons by done. unfold is_u in Hw.
  destruct (Z.eqb_spec w 0) as [->|Hw0].
  - split; [intros; apply I1; lia|]. split.
    + intros k Hk E. destruct (proj1 (LE_cons_pow2 0 l k ltac:(unfold is_u; lia) Hl Hk)) as [?|(? & _ & E')];
        [rewrite LE_cons by (unfold is_u; lia); done|lia|]. rewrite (I2 (k - 64)) by (done || lia). f_equal. lia.
    + intros H0 Hp. apply I3; [lia|]. intros k Hk E. apply (Hp (k + 64)); [lia|].
      rewrite E, Z.pow_add_r by lia. lia.
  - change (0 <=? -1) with false. cbn [orb]. rewrite HAS_MULTIPLE_ONES_spec by lia.
    split; [lia|]. pose proof (ctz_nonneg w). pose proof (ctz_lt 64 w).
    assert (i32 (i32 (n * BITS_PER_BITMAPWORD) + bmw_rightmost_one_pos w) = n * 64 + ctz w) as ->.
    { unfold bmw_rightmost_one_pos, BITS_PER_BITMAPWORD. rewrite rightmost64_ctz by lia. apply bit_position; lia. }
    rewrite singleton_loop_found, words_nonzero_spec by (done || lia). split.
    + intros k Hk E. destruct (proj1 (LE_cons_pow2 w l k Hw Hl Hk)) as [(? & -> & E0)|(? & ? & _)];
        [rewrite LE_cons by done; done| |lia].
      assert (ctz (2 ^ k) = k) as Hck.
      { apply ctz_unique; [lia|by apply Z.pow2_bits_true|]. intros i Hi. apply Z.pow2_bits_false. lia. }
      rewrite Hck, Z.eqb_refl, E0. done.
    + intros _ Hp. destruct (Z.eqb_spec w (2 ^ ctz w)) as [E|]; [|done]. simpl.
      destruct (Z.eqb_spec (LE l) 0) as [E0|]; [|done]. exfalso. apply (Hp (ctz w)); lia.
Qed.

Lemma membership_loop_found l : words_ok l ->
  membership_loop l BMS_SINGLETON = if words_nonzero l then BMS_MULTIPLE else BMS_SINGLETON.
Proof.
  induction 1 as [|w l Hw Hl IH]; [done|]. cbn [membership_loop words_nonzero].
  by destruct (Z.eqb_spec w 0).
Qed.

Lemma membership_loop_singleton l n : words_ok l -> 0 <= n -> n + Z.of_nat (length l) <= MAX_WORDS ->
  membership_loop l BMS_EMPTY_SET =
    match singleton_loop l n (-1) with
    | None => BMS_MULTIPLE
    | Some r => if r <? 0 then BMS_EMPTY_SET else BMS_SINGLETON
    end.
Proof.
  intros Hl. revert n. induction Hl as [|w l Hw Hl IH]; intros n Hn Hmax; [done|]. cbn [length] in Hmax.
  cbn [membership_loop singleton_loop]. destruct (Z.eqb_spec w 0) as [->|]; [apply IH; lia|].
  rewrite bool_decide_true by done. change (0 <=? -1) with false. cbn [orb negb].
  destruct (HAS_MULTIPLE_ONES w); [done|]. unfold is_u in Hw.
  unfold bmw_rightmost_one_pos, BITS_PER_BITMAPWORD. rewrite rightmost64_ctz by lia.
  pose proof (ctz_nonneg w). pose proof (ctz_lt 64 w). rewrite bit_position by lia.
  rewrite membership_loop_found, singleton_loop_found by (done || lia).
  destruct (words_nonzero l); [done|]. destruct (Z.ltb_spec (n * 64 + ctz w) 0); [lia|done].
Qed.

(** A set is a singleton exactly when its number is a power of two. *)
Lemma bms_set_singleton_iff a k : bms_valid a -> bms_set a = {[k]} <-> 0 <= k /\ bms_val a = 2 ^ k.
Proof.
  intros Ha. split.
  - intros E. assert (0 <= k) as Hk by (apply (bms_set_nonneg a); [done|rewrite E; set_solver]).
    split; [done|]. apply Z.bits_inj'. intros i Hi. rewrite Z.pow2_bits_eqb by done.
    apply eq_true_iff_eq. rewrite Z.eqb_eq.
    assert (i ∈ bms_set a <-> i ∈ ({[k]} : gset Z)) as H by (by rewrite E).
    rewrite elem_of_bms_set, elem_of_singleton in H by done. naive_solver.
  - intros [Hk E]. apply set_eq. intros i. rewrite elem_of_bms_set, E, elem_of_singleton by done.
    split; [|intros ->; split; [done|by apply Z.pow2_bits_true]].
    intros [Hi Hb]. rewrite Z.pow2_bits_eqb, Z.eqb_eq in Hb by done. done.
Qed.

Lemma singleton_loop_set a : bms_wf a ->
  match a with
  | None => bms_set a = ∅
  | Some b =>
      match singleton_loop (words b) 0 (-1) with
      | None => (2 <= size (bms_set a))%nat
      | Some m => 0 <= m /\ bms_set a = {[m]}
      end
  end.
Proof.
  intros [Ha Hne]. pose proof (bms_set_empty_iff a Ha) as He.
  pose proof (fun k => bms_set_singleton_iff a k Ha) as Hs.
  destruct a as [[l]|]; [|done]. destruct Ha as [Hl Hn]. specialize (Hne ltac:(done)).
  simpl in *. unfold nwords in Hn. simpl in Hn.
  destruct (singleton_loop_spec l 0) as (S1 & S2 & S3); [done|lia|lia|].
  set (S := list_to_set _ : gset Z) in *.
  destruct (size S) as [|[|n]] eqn:Hsz.
  - exfalso. apply size_empty_inv in Hsz. apply leibniz_equiv in Hsz. by apply Hne, He.
  - destruct (size_1_elem_of S) as [k Hk]; [done|]. apply leibniz_equiv in Hk.
    apply Hs in Hk as Hk'. destruct Hk' as [Hk0 HkE]. by rewrite (S2 k).
  - rewrite S3; [lia|done|]. intros k Hk E.
    assert (S = {[k]}) as E2 by (by apply Hs). rewrite E2, size_singleton in Hsz. done.
Qed.

(** ** Hashing *)

Lemma strip_zero l : words_ok l -> LE l = 0 -> strip_zero_words l = [].
Proof.
  induction 1 as [|w l Hw Hl IH]; [done|]. rewrite LE_cons by done. pose proof (LE_nonneg l Hl).
  unfold is_u in Hw. intros E. cbn [strip_zero_words]. rewrite IH by lia.
  destruct (Z.eqb_spec w 0); [done|lia].
Qed.

Lemma strip_canonical l1 l2 : words_ok l1 -> words_ok l2 -> LE l1 = LE l2 ->
  strip_zero_words l1 = strip_zero_words l2.
Proof.
  intros H1. revert l2. induction H1 as [|x l1 Hx Hl IH]; intros l2 H2 E.
  - symmetry. by apply strip_zero.
  - destruct H2 as [|y l2 Hy Hl2]; [apply strip_zero; [by constructor|done]|].
    rewrite !LE_cons in E by done. unfold is_u in *.
    assert (x = y /\ LE l1 = LE l2) as [-> E'] by lia. cbn [strip_zero_words]. by rewrite (IH l2).
Qed.

Lemma bms_hash_value_zero be a : bms_valid a -> bms_val a = 0 -> bms_hash_value be a = 0.
Proof.
  destruct a as [[l]|]; [|done]. intros [Hl _] E. unfold bms_hash_value. simpl words.
  by rewrite strip_zero.
Qed.

(** [bms_equal] on valid sets; NULL differs from every allocated set. *)
Lemma bms_equal_spec a b : bms_valid a -> bms_valid b ->
  bms_equal a b = match a, b with
                  | Some _, Some _ => bool_decide (bms_set a = bms_set b)
                  | None, None => true
                  | _, _ => false
                  end.
Proof.
  intros Ha Hb. pose proof (bms_set_eq_iff a b Ha Hb) as Hs.
  destruct a as [[la]|], b as [[lb]|]; try done. destruct Ha as [Ha _], Hb as [Hb _]. simpl bms_val in Hs.
  assert (forall x y, words_ok x -> words_ok y -> (length x <= length y)%nat ->
    (if words_exists2 (fun s l => negb (s =? l)) x y then false
     else negb (words_nonzero (drop (length x) y))) = (LE x =? LE y)) as H.
  { intros x y Hx Hy Hlen. pose proof (equal_loop x y Hx Hy Hlen).
    destruct (words_exists2 _ x y), (words_nonzero _), (LE x =? LE y); simpl in *; done. }
  unfold bms_equal. unfold nwords; simpl. zcase; simpl; rewrite H by (done || lia).
  - rewrite (bool_decide_ext _ _ Hs).
    zcase; [by rewrite bool_decide_true|by rewrite bool_decide_false].
  - rewrite (bool_decide_ext _ _ Hs).
    zcase; [by rewrite bool_decide_true|rewrite bool_decide_false; congruence].
Qed.

(** ** Properties *)

(** Reduce an equation between abstract sets to the bits of the numbers. *)
Ltac bms_set_by_bits g a b :=
  apply (bms_set_combine g) with (a := a) (b := b); try done;
  [ intros i Hi | intros x Hx; rewrite ?elem_of_union, ?elem_of_intersection, ?elem_of_difference,
      !elem_of_bms_set by done | intros x Hx; set_unfold; rewrite ?elem_of_bms_set in Hx by done; naive_solver ].

Lemma union_set r a b : bms_valid r -> bms_valid a -> bms_valid b ->
  bms_val r = Z.lor (bms_val a) (bms_val b) -> bms_set r = bms_set a ∪ bms_set b.
Proof.
  intros Hr Ha Hb E. bms_set_by_bits orb a b.
  - by rewrite E, Z.lor_spec.
  - rewrite orb_true_iff. tauto.
Qed.

Lemma intersection_set r a b : bms_valid r -> bms_valid a -> bms_valid b ->
  bms_val r = Z.land (bms_val a) (bms_val b) -> bms_set r = bms_set a ∩ bms_set b.
Proof.
  intros Hr Ha Hb E. bms_set_by_bits andb a b.
  - by rewrite E, Z.land_spec.
  - rewrite andb_true_iff. tauto.
Qed.

Lemma difference_set r a b : bms_valid r -> bms_valid a -> bms_valid b ->
  bms_val r = Z.ldiff (bms_val a) (bms_val b) -> bms_set r = bms_set a ∖ bms_set b.
Proof.
  intros Hr Ha Hb E. bms_set_by_bits (fun p q => p && negb q) a b.
  - by rewrite E, Z.ldiff_spec.
  - rewrite andb_true_iff, negb_true_iff, <- not_true_iff_false. tauto.
Qed.

(** C37. [bms_union], [bms_intersect] and [bms_difference] implement union,
    intersection and difference of finite sets and preserve the representation
    invariant, in particular that an empty result is NULL. *)
Theorem bms_algebra_refines a b : bms_wf a -> bms_wf b ->
  (bms_wf (bms_union a b) /\ bms_set (bms_union a b) = bms_set a ∪ bms_set b) /\
  (bms_wf (bms_intersect a b) /\ bms_set (bms_intersect a b) = bms_set a ∩ bms_set b) /\
  (bms_wf (bms_difference a b) /\ bms_set (bms_difference a b) = bms_set a ∖ bms_set b).
Proof.
  intros Ha Hb. destruct (bms_union_spec a b Ha Hb) as [Wu Eu].
  destruct (bms_intersect_spec a b Ha Hb) as [Wi Ei].
  destruct (bms_del_members_spec a b Ha Hb) as [Wd Ed]. rewrite bms_difference_del_members by done.
  split; [|split]; (split; [done|]).
  - apply union_set; by try apply Wu; try apply Ha; try apply Hb.
  - apply intersection_set; by try apply Wi; try apply Ha; try apply Hb.
  - apply difference_set; by try apply Wd; try apply Ha; try apply Hb.
Qed.

(** The set {1, 70}: two words. *)
Definition example_a : bmsptr := Some (mkBitmapset [2; 64]).
(** The set {1, 2}. *)
Definition example_b : bmsptr := Some (mkBitmapset [6]).

Lemma example_a_wf : bms_wf example_a.
Proof. split; [split; [repeat constructor; unfold is_u; lia|vm_compute; done]|intros _; by vm_compute]. Qed.
Lemma example_b_wf : bms_wf example_b.
Proof. split; [split; [repeat constructor; unfold is_u; lia|vm_compute; done]|intros _; by vm_compute]. Qed.

Lemma bms_algebra_refines_witness :
  bms_set example_a = {[1; 70]} /\
  bms_set (bms_intersect example_a example_b) = bms_set example_a ∩ bms_set example_b.
Proof.
  split; [vm_compute; reflexivity|].
  destruct (bms_algebra_refines example_a example_b example_a_wf example_b_wf) as (_ & [_ E] & _). exact E.
Defined.

(** The variants that recycle an input ([bms_add_members], [bms_join],
    [bms_int_members], [bms_del_members]) return well-formed sets with the same
    members as the variants that build a fresh result. *)
Theorem bms_recycling_variants a b : bms_wf a -> bms_wf b ->
  (bms_wf (bms_add_members a b) /\ bms_set (bms_add_members a b) = bms_set (bms_union a b)) /\
  (bms_wf (bms_join a b) /\ bms_set (bms_join a b) = bms_set (bms_union a b)) /\
  (bms_wf (bms_int_members a b) /\ bms_set (bms_int_members a b) = bms_set (bms_intersect a b)) /\
  (bms_wf (bms_del_members a b) /\ bms_set (bms_del_members a b) = bms_set (bms_difference a b)).
Proof.
  intros Ha Hb. destruct (bms_union_spec a b Ha Hb) as [Wu Eu].
  destruct (bms_add_members_spec a b Ha Hb) as [Wa Ea], (bms_join_spec a b Ha Hb) as [Wj Ej].
  destruct (bms_intersect_spec a b Ha Hb) as [Wi Ei], (bms_int_members_spec a b Ha Hb) as [Wm Em].
  destruct (bms_del_members_spec a b Ha Hb) as [Wd Ed].
  rewrite bms_difference_del_members by done.
  repeat match goal with |- _ /\ _ => split end; try done;
    apply bms_set_eq_iff; try apply Wu; try apply Wa; try apply Wj; try apply Wi; try apply Wm; congruence.
Qed.

Lemma bms_recycling_variants_witness :
  bms_set (bms_int_members example_a example_b) = bms_set (bms_intersect example_a example_b).
Proof.
  destruct (bms_recycling_variants example_a example_b example_a_wf example_b_wf) as (_ & _ & [_ E] & _).
  exact E.
Defined.

(** Operations on one member: for a member an [int] can hold, [bms_is_member]
    tests membership, [bms_add_member] inserts, [bms_del_member] removes (returning
    NULL when that empties the set) and [bms_make_singleton] builds the one-element
    set; for a negative member each of them raises the error. *)
Theorem bms_member_ops a x : bms_wf a ->
  (0 <= x < 2 ^ 31 ->
     bms_is_member x a = Ok (bool_decide (x ∈ bms_set a)) /\
     (exists r, bms_add_member a x = Ok r /\ bms_wf r /\ bms_set r = {[x]} ∪ bms_set a) /\
     (exists r, bms_del_member a x = Ok r /\ bms_wf r /\ bms_set r = bms_set a ∖ {[x]}) /\
     (exists r, bms_make_singleton x = Ok r /\ bms_wf r /\ bms_set r = {[x]})) /\
  (x < 0 ->
     bms_is_member x a = Err neg_member_error /\ bms_add_member a x = Err neg_member_error /\
     bms_del_member a x = Err neg_member_error /\ bms_make_singleton x = Err neg_member_error).
Proof.
  intros Ha. split; intros Hx.
  - destruct (bms_make_singleton_spec x Hx) as (s & Es & Ws & Vs).
    assert (bms_set s = {[x]}) as Ss by (apply bms_set_singleton_iff; [apply Ws|split; [lia|done]]).
    split; [apply bms_is_member_spec; [apply Ha|lia]|]. split; [|split].
    + destruct (bms_add_member_spec a x Ha Hx) as (r & -> & Wr & Vr). exists r. split; [done|]. split; [done|].
      rewrite <- Ss, <- (union_set r s a); try apply Wr; try apply Ws; try apply Ha; [done|].
      by rewrite Vr, Vs, Z.lor_comm.
    + destruct (bms_del_member_spec a x Ha Hx) as (r & -> & Wr & Vr). exists r. split; [done|]. split; [done|].
      rewrite <- Ss, <- (difference_set r a s); try apply Wr; try apply Ws; try apply Ha; [done|].
      by rewrite Vr, Vs.
    + exists s. done.
  - unfold bms_is_member, bms_add_member, bms_del_member, bms_make_singleton.
    destruct (Z.ltb_spec x 0); [done|lia].
Qed.

Lemma bms_member_ops_witness : bms_is_member 70 example_a = Ok (bool_decide (70 ∈ bms_set example_a)).
Proof.
  destruct (bms_member_ops example_a 70 example_a_wf) as [H _]. destruct H as [E _]; [lia|]. exact E.
Defined.

(** [bms_add_range] adds exactly the members between [lower] and [upper]
    inclusive, although it works word by word with masks; an empty range changes
    nothing and a negative lower bound is an error. *)
Theorem bms_add_range_refines a lower upper : bms_wf a -> upper < 2 ^ 31 ->
  (0 <= lower <= upper -> exists r, bms_add_range a lower upper = Ok r /\ bms_wf r /\
     forall x, x ∈ bms_set r <-> x ∈ bms_set a \/ lower <= x <= upper) /\
  (upper < lower -> bms_add_range a lower upper = Ok a) /\
  (lower < 0 -> lower <= upper -> bms_add_range a lower upper = Err neg_member_error).
Proof.
  intros Ha Hu. split; [|split].
  - intros Hlu. destruct (bms_add_range_spec a lower upper Ha Hlu Hu) as (r & Er & Wr & Hr).
    exists r. split; [done|]. split; [done|]. intros x. rewrite !elem_of_bms_set by (try apply Wr; apply Ha).
    split.
    + intros [Hx Hb]. rewrite Hr, orb_true_iff, bool_decide_eq_true in Hb by done. tauto.
    + intros H. assert (0 <= x) as Hx by lia. split; [done|].
      rewrite Hr, orb_true_iff, bool_decide_eq_true by done. tauto.
  - intros H. unfold bms_add_range. destruct (Z.ltb_spec upper lower); [done|lia].
  - intros H1 H2. unfold bms_add_range. destruct (Z.ltb_spec upper lower); [lia|].
    destruct (Z.ltb_spec lower 0); [done|lia].
Qed.

Lemma bms_add_range_refines_witness :
  exists r, bms_add_range example_a 60 200 = Ok r /\ bms_wf r /\
    forall x, x ∈ bms_set r <-> x ∈ bms_set example_a \/ 60 <= x <= 200.
Proof.
  destruct (bms_add_range_refines example_a 60 200 example_a_wf) as [H _]; [lia|]. apply H. lia.
Defined.

Lemma ldiff_subset a b : bms_valid a -> bms_valid b ->
  Z.ldiff (bms_val a) (bms_val b) = 0 <-> bms_set a ⊆ bms_set b.
Proof.
  intros Ha Hb. split.
  - intros E x. rewrite !elem_of_bms_set by done. intros [Hx Hx1]. split; [done|].
    assert (Z.testbit (Z.ldiff (bms_val a) (bms_val b)) x = false) as H by (by rewrite E, Z.bits_0).
    rewrite Z.ldiff_spec, Hx1 in H. by destruct (Z.testbit (bms_val b) x).
  - intros H. apply Z.bits_inj'. intros i Hi. rewrite Z.ldiff_spec, Z.bits_0.
    specialize (H i). rewrite !elem_of_bms_set in H by done.
    destruct (Z.testbit (bms_val a) i); [|done]. destruct H as [_ ->]; done.
Qed.

Lemma land_disjoint a b : bms_valid a -> bms_valid b ->
  Z.land (bms_val a) (bms_val b) = 0 <-> bms_set a ∩ bms_set b = ∅.
Proof.
  intros Ha Hb. split.
  - intros E. apply set_eq. intros x. rewrite elem_of_intersection, !elem_of_bms_set by done.
    split; [|set_solver]. intros [[Hx H1] [_ H2]].
    assert (Z.testbit (Z.land (bms_val a) (bms_val b)) x = false) as H by (by rewrite E, Z.bits_0).
    by rewrite Z.land_spec, H1, H2 in H.
  - intros H. apply Z.bits_inj'. intros i Hi. rewrite Z.land_spec, Z.bits_0.
    assert (i ∉ bms_set a ∩ bms_set b) as Hn by set_solver.
    rewrite elem_of_intersection, !elem_of_bms_set in Hn by done.
    destruct (Z.testbit (bms_val a) i), (Z.testbit (bms_val b) i); tauto.
Qed.

Lemma bms_is_subset_val a b : bms_wf a -> bms_wf b ->
  bms_is_subset a b = (Z.ldiff (bms_val a) (bms_val b) =? 0).
Proof.
  intros Wa Wb. pose proof (bms_nonempty_difference_val a b Wa Wb) as H. revert H.
  unfold bms_is_subset, bms_nonempty_difference. destruct a as [a|], b as [b|]; try done.
  - unfold nwords. destruct (words_exists2 _ (words a) (words b)); simpl.
    + by destruct (_ =? 0).
    + zcase.
      * by destruct (words_nonzero _), (_ =? 0).
      * rewrite drop_ge by lia. by destruct (_ =? 0).
  - by destruct (_ =? 0).
Qed.

Lemma bms_overlap_val a b : bms_wf a -> bms_wf b ->
  bms_overlap a b = negb (Z.land (bms_val a) (bms_val b) =? 0).
Proof. bms_cases a b; simpl; try done; [by apply exists2_land|by rewrite Z.land_0_r]. Qed.

Lemma bms_subset_compare_val a b : bms_wf a -> bms_wf b ->
  bms_subset_compare a b = default BMS_DIFFERENT
    (subset_class (negb (Z.ldiff (bms_val a) (bms_val b) =? 0)) (negb (Z.ldiff (bms_val b) (bms_val a) =? 0))).
Proof.
  bms_cases a b; unfold bms_subset_compare; cbn [bms_val words]; rewrite ?Z.ldiff_0_r, ?Z.ldiff_0_l; try done.
  2: by destruct (Z.eqb_spec (LE la) 0).
  2: by destruct (Z.eqb_spec (LE lb) 0).
  f_equal. unfold nwords; simpl.
  rewrite <- !exists2_andnot by done. rewrite (Nat.min_comm (length lb)).
  change (Some BMS_EQUAL) with (subset_class false false).
  transitivity ((subset_class false false ≫= subset_compare_common la lb) ≫= (fun r =>
    if Z.of_nat (length lb) <? Z.of_nat (length la)
    then subset_compare_extra true (drop (length la `min` length lb) la) r
    else if Z.of_nat (length la) <? Z.of_nat (length lb)
         then subset_compare_extra false (drop (length la `min` length lb) lb) r else Some r)); [done|].
  rewrite subset_common_class. cbn [orb].
  destruct (Z.ltb_spec (Z.of_nat (length lb)) (Z.of_nat (length la))).
  - rewrite (subset_extra_class true). cbn [andb negb]. rewrite orb_false_r.
    rewrite (drop_ge lb) by lia. by rewrite orb_false_r.
  - destruct (Z.ltb_spec (Z.of_nat (length la)) (Z.of_nat (length lb))).
    + rewrite (subset_extra_class false). cbn [andb negb]. rewrite orb_false_r.
      rewrite (drop_ge la) by lia. by rewrite orb_false_r.
    + rewrite !drop_ge by lia. rewrite !orb_false_r. by destruct (subset_class _ _).
Qed.

Lemma bms_equal_wf a b : bms_wf a -> bms_wf b -> bms_equal a b = bool_decide (bms_set a = bms_set b).
Proof.
  intros Wa Wb. rewrite bms_equal_spec by (apply Wa || apply Wb).
  pose proof (bms_wf_set_empty a Wa) as Ea. pose proof (bms_wf_set_empty b Wb) as Eb.
  destruct a, b; try done; symmetry; apply bool_decide_false; intros E.
  - apply Ea in E. done.
  - symmetry in E. apply Eb in E. done.
Qed.

(** The comparison predicates decide the corresponding relations of finite sets:
    equality, inclusion, overlap, non-empty difference, and the four-way
    classification of [bms_subset_compare]. *)
Theorem bms_predicates_decide a b : bms_wf a -> bms_wf b ->
  bms_equal a b = bool_decide (bms_set a = bms_set b) /\
  bms_is_subset a b = bool_decide (bms_set a ⊆ bms_set b) /\
  bms_overlap a b = bool_decide (bms_set a ∩ bms_set b <> ∅) /\
  bms_nonempty_difference a b = bool_decide (~ bms_set a ⊆ bms_set b) /\
  bms_subset_compare a b =
    (if decide (bms_set a = bms_set b) then BMS_EQUAL
     else if decide (bms_set a ⊆ bms_set b) then BMS_SUBSET1
     else if decide (bms_set b ⊆ bms_set a) then BMS_SUBSET2 else BMS_DIFFERENT).
Proof.
  intros Wa Wb. pose proof (proj1 Wa) as Va. pose proof (proj1 Wb) as Vb.
  pose proof (ldiff_subset a b Va Vb) as Hab. pose proof (ldiff_subset b a Vb Va) as Hba.
  pose proof (land_disjoint a b Va Vb) as Hd.
  rewrite bms_is_subset_val, bms_overlap_val, bms_nonempty_difference_val, bms_subset_compare_val by done.
  split; [|split; [|split; [|split]]].
  - by apply bms_equal_wf.
  - zcase; [rewrite bool_decide_true|rewrite bool_decide_false]; tauto.
  - zcase; [rewrite bool_decide_false|rewrite bool_decide_true]; simpl; tauto.
  - zcase; [rewrite bool_decide_false|rewrite bool_decide_true]; simpl; tauto.
  - destruct (Z.eqb_spec (Z.ldiff (bms_val a) (bms_val b)) 0) as [E1|E1],
      (Z.eqb_spec (Z.ldiff (bms_val b) (bms_val a)) 0) as [E2|E2]; simpl.
    + rewrite decide_True; [done|]. apply set_eq. set_solver.
    + rewrite decide_False, decide_True; [done|tauto|]. intros E. apply E2, Hba. by rewrite E.
    + rewrite decide_False, decide_False, decide_True; [done|tauto|tauto|].
      intros E. apply E1, Hab. by rewrite E.
    + rewrite !decide_False; [done|tauto|tauto|]. intros E. apply E1, Hab. by rewrite E.
Qed.

Lemma bms_predicates_decide_witness :
  bms_is_subset example_a example_b = bool_decide (bms_set example_a ⊆ bms_set example_b).
Proof.
  destruct (bms_predicates_decide example_a example_b example_a_wf example_b_wf) as (_ & E & _). exact E.
Defined.

(** [bms_equal]'s comment says that a NULL pointer is equal to an allocated set
    without members, but the code reports every allocated set as different from NULL:
    the two disagree exactly on allocated empty sets, which the invariant excludes. *)
Theorem bms_equal_null_divergence b :
  bms_equal None (Some b) = false /\ bms_equal (Some b) None = false /\
  bms_set (Some (mkBitmapset [0])) = bms_set None /\
  bms_equal None (Some (mkBitmapset [0])) = false.
Proof. done. Qed.

Lemma sgn_highest_bit x y : 0 <= x -> 0 <= y -> x < y ->
  exists k, 0 <= k /\ Z.testbit y k = true /\ Z.testbit x k = false /\
    forall i, k < i -> Z.testbit x i = Z.testbit y i.
Proof.
  intros Hx Hy Hlt. exists (Z.log2 (Z.lxor x y)).
  assert (0 < Z.lxor x y) as Hpos.
  { assert (0 <= Z.lxor x y) by (apply Z.lxor_nonneg; lia).
    destruct (decide (Z.lxor x y = 0)) as [E|]; [|lia]. apply Z.lxor_eq in E. lia. }
  pose proof (Z.log2_nonneg (Z.lxor x y)) as Hk. set (k := Z.log2 (Z.lxor x y)) in *.
  assert (Z.testbit (Z.lxor x y) k = true) as Hb by (by apply Z.bit_log2).
  assert (forall i, k < i -> Z.testbit x i = Z.testbit y i) as Hhi.
  { intros i Hi. assert (Z.testbit (Z.lxor x y) i = false) as H by (apply Z.bits_above_log2; lia).
    rewrite Z.lxor_spec in H. by destruct (Z.testbit x i), (Z.testbit y i). }
  rewrite Z.lxor_spec in Hb. split; [done|].
  destruct (Z.testbit y k) eqn:Ey, (Z.testbit x k) eqn:Ex; try done. exfalso.
  (* the number with the leading bit would be the larger one *)
  assert (Z.shiftr x (k + 1) = Z.shiftr y (k + 1)) as Es.
  { apply Z.bits_inj'. intros i Hi. rewrite !Z.shiftr_spec by lia. apply Hhi. lia. }
  rewrite !Z.shiftr_div_pow2 in Es by lia.
  pose proof (Z.div_mod x (2 ^ (k + 1))) as Dx. pose proof (Z.div_mod y (2 ^ (k + 1))) as Dy.
  rewrite Es in Dx. assert (x `mod` 2 ^ (k + 1) < y `mod` 2 ^ (k + 1)) as Hm by lia.
  assert (2 ^ k <= x `mod` 2 ^ (k + 1)).
  { apply Z.nlt_ge. intros Hsm. assert (Z.testbit (x `mod` 2 ^ (k + 1)) k = false) as Hf
      by (apply (is_u_testbit k); [split; [apply Z.mod_pos_bound; lia|done]|lia]).
    rewrite Z.mod_pow2_bits_low in Hf by lia. congruence. }
  assert (y `mod` 2 ^ (k + 1) < 2 ^ k); [|lia].
  assert (is_u k (y `mod` 2 ^ (k + 1))) as [_ ?]; [|done].
  apply is_u_bits; [done|apply Z.mod_pos_bound; lia|]. intros i Hi.
  destruct (decide (i = k)) as [->|]; [by rewrite Z.mod_pow2_bits_low by lia|].
  apply Z.mod_pow2_bits_high. lia.
Qed.

Lemma bms_compare_val a b : bms_wf a -> bms_wf b -> bms_compare a b = Z.sgn (bms_val a - bms_val b).
Proof.
  intros Wa Wb. pose proof (bms_val_range a (proj1 Wa)). pose proof (bms_val_range b (proj1 Wb)).
  revert Wa Wb. bms_cases a b; simpl in *; try done; try lia. by apply compare_loop.
Qed.

(** [bms_compare] is a total order consistent with [bms_equal]: it returns 0
    exactly on equal sets, is antisymmetric and transitive, and otherwise the
    highest-numbered member in one set but not the other decides. *)
Theorem bms_compare_order a b c : bms_wf a -> bms_wf b -> bms_wf c ->
  (bms_compare a b = 0 <-> bms_equal a b = true) /\
  bms_compare b a = - bms_compare a b /\
  (bms_compare a b <= 0 -> bms_compare b c <= 0 -> bms_compare a c <= 0) /\
  (bms_compare a b < 0 <-> exists k, k ∈ bms_set b /\ k ∉ bms_set a /\
     forall i, k < i -> i ∈ bms_set a <-> i ∈ bms_set b).
Proof.
  intros Wa Wb Wc. pose proof (proj1 Wa) as Va. pose proof (proj1 Wb) as Vb.
  pose proof (bms_val_range a Va) as Ra. pose proof (bms_val_range b Vb) as Rb.
  rewrite !bms_compare_val by done. split; [|split; [lia|split; [lia|]]].
  - rewrite bms_equal_wf, bool_decide_eq_true, bms_set_eq_iff by done. lia.
  - split.
    + intros Hlt. destruct (sgn_highest_bit (bms_val a) (bms_val b)) as (k & Hk & Hb & Ha & Hhi); [done|done|lia|].
      exists k. rewrite !elem_of_bms_set by done. rewrite Ha. split; [done|]. split; [naive_solver|].
      intros i Hi. rewrite !elem_of_bms_set, Hhi by done. done.
    + intros (k & Hkb & Hka & Hhi). apply elem_of_bms_set in Hkb as [Hk Hb]; [|done].
      assert (Z.testbit (bms_val a) k = false) as Ha.
      { rewrite elem_of_bms_set in Hka by done. destruct (Z.testbit (bms_val a) k); tauto. }
      destruct (Z.lt_trichotomy (bms_val a) (bms_val b)) as [?|[E|Hgt]]; [lia|congruence|].
      destruct (sgn_highest_bit (bms_val b) (bms_val a)) as (k' & Hk' & Ha' & Hb' & Hhi'); [done|done|done|].
      destruct (Z.lt_trichotomy k k') as [?|[->|?]]; [|congruence|].
      * specialize (Hhi k' ltac:(done)). rewrite !elem_of_bms_set, Ha', Hb' in Hhi by done. naive_solver.
      * specialize (Hhi' k ltac:(done)). congruence.
Qed.

Lemma bms_compare_order_witness : bms_compare example_b example_a = - bms_compare example_a example_b.
Proof.
  destruct (bms_compare_order example_a example_b None example_a_wf example_b_wf bms_wf_None) as (_ & E & _).
  exact E.
Defined.

Lemma bms_next_member_spec a p : bms_wf a -> -1 <= p < 2 ^ 31 - 1 ->
  let r := bms_next_member a p in
  (r = -2 /\ forall x, x ∈ bms_set a -> x <= p) \/
  (r ∈ bms_set a /\ p < r /\ forall x, x ∈ bms_set a -> p < x -> r <= x).
Proof.
  intros [Va _] Hp. destruct a as [[l]|]; [|left; split; [done|set_solver]].
  pose proof (fun x => elem_of_bms_set (Some (mkBitmapset l)) x Va) as Hin.
  destruct Va as [Hl Hn]. unfold nwords in Hn. simpl words in *. unfold bms_next_member. simpl words.
  rewrite wraps_small by (try unfold is_s; lia). cbn zeta.
  destruct (split_index (p + 1)) as (Hq & Hm & He); [lia|]. rewrite WORDNUM_div, BITNUM_mod by lia.
  destruct (next_member_loop_spec l ((p + 1) / 64) (shlu 64 bmw_ones ((p + 1) `mod` 64)) ((p + 1) `mod` 64))
    as [[-> H]|(H1 & H2 & H3)]; try done.
  - by apply wrapu_range.
  - intros j Hj. rewrite shlu_testbit by lia. rewrite bool_decide_true by lia. cbn [andb].
    destruct (decide ((p + 1) `mod` 64 <= j)).
    + rewrite ones_all by lia. rewrite !bool_decide_true by lia. done.
    + rewrite Z.testbit_neg_r, bool_decide_false by lia. done.
  - left. split; [done|]. intros x [Hx Hb]%Hin. apply Z.nlt_ge. intros ?. simpl in Hb. rewrite H in Hb; [done|lia].
  - right. rewrite Hin. simpl. split; [split; [lia|done]|]. split; [lia|].
    intros x [Hx Hb]%Hin Hpx. apply Z.nlt_ge. intros ?. simpl in Hb. rewrite H3 in Hb; [done|lia].
Qed.

Lemma bms_prev_member_spec a p : bms_wf a ->
  (p = -1 \/ match a with None => True | Some b => 0 <= p <= nwords b * 64 /\ p < 2 ^ 31 end) ->
  let r := bms_prev_member a p in
  (r = -2 /\ forall x, x ∈ bms_set a -> 0 <= p -> p <= x) /\ (p = -1 -> bms_set a = ∅) \/
  (r ∈ bms_set a /\ (0 <= p -> r < p) /\ forall x, x ∈ bms_set a -> (p = -1 \/ x < p) -> x <= r).
Proof.
  intros [Va Hne] Hp. destruct a as [[l]|]; [|left; split; [split; [done|set_solver]|done]].
  pose proof (fun x => elem_of_bms_set (Some (mkBitmapset l)) x Va) as Hin.
  destruct Va as [Hl Hn]. specialize (Hne ltac:(done)). simpl in Hne.
  assert (0 < length l)%nat by (destruct l; [done|simpl; lia]).
  unfold nwords in *. simpl words in *. unfold MAX_WORDS in Hn.
  unfold bms_prev_member. simpl words. cbn zeta. destruct (Z.eqb_spec p 0) as [->|Hp0].
  { left. split; [split; [done|]|lia]. intros x Hx _. apply Hin in Hx. lia. }
  set (q := if p =? -1 then _ else _).
  assert (q = (if p =? -1 then Z.of_nat (length l) * 64 - 1 else p - 1)) as Eq.
  { unfold q, nwords, BITS_PER_BITMAPWORD. simpl words. zcase.
    - replace (i32 (Z.of_nat (length l) * 64) - 1) with (i32 (Z.of_nat (length l) * 64) + -1) by lia.
      rewrite wraps_add_l. apply wraps_small; [lia|]. unfold is_s. lia.
    - apply wraps_small; [lia|]. unfold is_s. lia. }
  assert (0 <= q < Z.of_nat (length l) * 64) as Hqr by (rewrite Eq; zcase; lia).
  assert (forall x, x ∈ bms_set (Some (mkBitmapset l)) -> x < Z.of_nat (length l) * 64) as Hmax.
  { intros x [Hx Hb]%Hin. apply Z.nle_gt. intros ?. simpl in Hb. rewrite LE_testbit_high in Hb; done. }
  clearbody q. destruct (split_index q) as (Hq & Hm & He); [lia|]. rewrite WORDNUM_div, BITNUM_mod by lia.
  assert (q / 64 < Z.of_nat (length l)) by (apply Z.div_lt_upper_bound; lia).
  replace (Z.to_nat (q / 64 + 1)) with (S (Z.to_nat (q / 64))) by lia.
  unfold BITS_PER_BITMAPWORD.
  pose proof (prev_member_loop_spec l (Z.to_nat (q / 64)) (Z.shiftr bmw_ones (64 - (q `mod` 64 + 1))) (q `mod` 64)
    Hl ltac:(unfold MAX_WORDS; lia) ltac:(by apply umask_ok) Hm
    ltac:(intros j Hj; apply umask_testbit; lia)) as Hloop.
  cbn zeta in Hloop. rewrite Z2Nat.id in Hloop by done.
  destruct Hloop as [[-> H']|(H1 & H2 & H3)].
  - left. split; [split; [done|]|].
    + intros x Hx Hp'. apply Z.nlt_ge. intros ?. apply Hin in Hx as [? Hb]. simpl in Hb.
      rewrite H' in Hb; [done|]. revert Eq. zcase; lia.
    + intros ->. simpl in Eq. apply elem_of_equiv_empty_L. intros x Hx. pose proof (Hmax x Hx).
      apply Hin in Hx as [? Hb]. simpl in Hb. rewrite H' in Hb; [done|lia].
  - right. rewrite Hin. split; [split; [lia|done]|]. split.
    + intros. revert Eq. zcase; lia.
    + intros x Hx Hxp. apply Z.nlt_ge. intros ?. pose proof (Hmax x Hx). apply Hin in Hx as [? Hb]. simpl in Hb.
      rewrite H3 in Hb; [done|]. revert Eq. zcase; lia.
Qed.

(** [bms_next_member] returns the smallest member above [prevbit], or -2 when
    there is none, and [bms_prev_member] the largest member below it (the largest of
    all for -1); the 32-bit arithmetic never goes wrong, even for sets whose last
    word holds 2^31 - 1. *)
Theorem bms_iteration a p : bms_wf a ->
  (-1 <= p < 2 ^ 31 - 1 ->
     (bms_next_member a p = -2 /\ forall x, x ∈ bms_set a -> x <= p) \/
     (bms_next_member a p ∈ bms_set a /\ p < bms_next_member a p /\
      forall x, x ∈ bms_set a -> p < x -> bms_next_member a p <= x)) /\
  (match a with None => True | Some b => 0 <= p <= nwords b * 64 /\ p < 2 ^ 31 end ->
     (bms_prev_member a p = -2 /\ forall x, x ∈ bms_set a -> 0 <= p -> p <= x) \/
     (bms_prev_member a p ∈ bms_set a /\ (0 <= p -> bms_prev_member a p < p) /\
      forall x, x ∈ bms_set a -> p = -1 \/ x < p -> x <= bms_prev_member a p)) /\
  (bms_set a <> ∅ -> bms_prev_member a (-1) ∈ bms_set a /\
     forall x, x ∈ bms_set a -> x <= bms_prev_member a (-1)).
Proof.
  intros Wa. split; [|split].
  - by apply bms_next_member_spec.
  - intros Hp. destruct (bms_prev_member_spec a p Wa (or_intror Hp)) as [[? _]|?]; [by left|by right].
  - intros Hne. destruct (bms_prev_member_spec a (-1) Wa (or_introl eq_refl)) as [[_ He]|(H1 & _ & H2)].
    + by destruct Hne; apply He.
    + split; [done|]. intros. apply H2; [done|by left].
Qed.

Lemma bms_iteration_witness :
  bms_set example_a <> ∅ /\
  forall x, x ∈ bms_set example_a -> x <= bms_prev_member example_a (-1).
Proof.
  assert (bms_set example_a <> ∅) as Hne by (intros E; apply (bms_wf_set_empty _ example_a_wf) in E; discriminate E).
  split; [exact Hne|]. destruct (bms_iteration example_a 5 example_a_wf) as (_ & _ & H).
  destruct (H Hne) as [_ H2]. exact H2.
Defined.

(** Counting: [bms_num_members] is the cardinality (as an [int]),
    [bms_member_index] the number of smaller members (-1 for a non-member),
    [bms_membership] tells zero, one and several members apart, and
    [bms_singleton_member] / [bms_get_singleton_member] return the member of a
    one-element set and fail on every other set. *)
Theorem bms_counting a x : bms_wf a -> 0 <= x ->
  bms_num_members a = i32 (Z.of_nat (size (bms_set a))) /\
  bms_member_index a x = Ok (if bool_decide (x ∈ bms_set a)
     then i32 (Z.of_nat (size (filter (fun y => y < x) (bms_set a)))) else -1) /\
  bms_membership a = match size (bms_set a) with O => BMS_EMPTY_SET | 1%nat => BMS_SINGLETON | _ => BMS_MULTIPLE end /\
  (forall m, bms_get_singleton_member a = Some m <-> bms_set a = {[m]}) /\
  (forall m, bms_singleton_member a = Ok m <-> bms_set a = {[m]}) /\
  (size (bms_set a) <> 1%nat -> exists e, bms_singleton_member a = Err e).
Proof.
  intros Wa Hx. pose proof (proj1 Wa) as Va. pose proof (singleton_loop_set a Wa) as Hs.
  split; [|split; [by apply bms_member_index_spec|]].
  { rewrite size_bms_set. destruct a as [[l]|]; [|done]. destruct Va as [Hl _].
    unfold bms_num_members. simpl words in *. rewrite popcount_sum_spec by (done || (unfold is_s; lia)). done. }
  assert (forall m m' : Z, {[m]} = ({[m']} : gset Z) -> m = m') as Hinj by set_solver.
  unfold bms_membership, bms_get_singleton_member, bms_singleton_member.
  destruct a as [[l]|].
  2:{ rewrite Hs, size_empty. split; [done|]. split; [split; set_solver|]. split; [split; set_solver|]. by eexists. }
  destruct Va as [Hl Hn]. unfold nwords in Hn. simpl words in *.
  rewrite (membership_loop_singleton l 0) by (done || lia).
  destruct (singleton_loop l 0 (-1)) as [m|]; cbn [mbind option_bind].
  - destruct Hs as [Hm ->]. rewrite size_singleton. destruct (Z.ltb_spec m 0); [lia|].
    split; [done|]. split; [naive_solver|]. split; [naive_solver|]. done.
  - split; [by destruct (size _) as [|[|?]]; try lia|].
    split; [split; [done|]|split; [split; [done|]|by eexists]].
    all: intros E; rewrite E, size_singleton in Hs; lia.
Qed.

Lemma bms_counting_witness : bms_num_members example_a = i32 (Z.of_nat (size (bms_set example_a))).
Proof. destruct (bms_counting example_a 1 example_a_wf) as [E _]; [lia|]. exact E. Defined.

(** Sets that [bms_equal] reports as equal have the same hash value, even when
    they have different numbers of trailing zero words, so [bitmap_hash] and
    [bitmap_match] are a consistent pair for hash tables. *)
Theorem bms_hash_respects_equal bigendian a b : bms_valid a -> bms_valid b ->
  bitmap_match a b = false -> bitmap_hash bigendian a = bitmap_hash bigendian b.
Proof.
  intros Va Vb. unfold bitmap_match, bitmap_hash. rewrite negb_false_iff, bms_equal_spec by done.
  intros H. destruct a as [a|], b as [b|]; try done. apply bool_decide_eq_true in H.
  apply bms_set_eq_iff in H; [|done..]. destruct a as [la], b as [lb], Va as [Ha _], Vb as [Hb _].
  unfold bms_hash_value. simpl in *. by rewrite (strip_canonical la lb).
Qed.

Lemma bms_hash_respects_equal_witness :
  bitmap_match example_b (Some (mkBitmapset [6; 0; 0])) = false /\
  bitmap_hash false example_b = bitmap_hash false (Some (mkBitmapset [6; 0; 0])).
Proof.
  split; [reflexivity|]. apply bms_hash_respects_equal; [exact (proj1 example_b_wf)| |reflexivity].
  split; [repeat constructor; unfold is_u; lia|vm_compute; discriminate].
Defined.
