(* ===== verification/Varint.v ===== *)
(** Variable-length integers: src/postgis-src/liblwgeom/varint.c, the integer
    encoding of the TWKB geometry format.

    A buffer is the list of its bytes; the encoder's pointer is an index into it,
    so that a write past the end is [Undef].  The decoder's [the_start, the_end)
    is the list of the bytes of that range.  [lwerror] does not return (the
    default reporter exits and PostgreSQL's raises), hence [Err]. *)

From S2P Require Import Prelude.

(** ** Encoding *)

(** The [while (1)] of [_varint_u64_encode_buf]. *)
Fixpoint varint_encode_loop (fuel : nat) (q : Z) (buf : list Z) (ptr : Z) : res (Z * list Z) :=
  match fuel with
  | O => OutOfFuel
  | S f =>
    let grp := u8 (Z.land 0x7f q) in
    let q := Z.shiftr q 7 in
    if 0 <? q then
      buf ← aset buf ptr (u8 (Z.lor 0x80 grp));
      varint_encode_loop f q buf (ptr + 1)
    else
      buf ← aset buf ptr grp;
      Ok (ptr + 1, buf)
  end.

(** Ten groups of seven bits exhaust a 64-bit value. *)
Definition _varint_u64_encode_buf (val : Z) (buf : list Z) : res (Z * list Z) :=
  varint_encode_loop 10 val buf 0.

Definition zigzag64 (val : Z) : Z :=
  if 0 <=? val then shlu 64 (u64 val) 1 else Z.lor (shlu 64 (u64 (-1 - val)) 1) 1.
Definition zigzag32 (val : Z) : Z :=
  if 0 <=? val then shlu 32 (u32 val) 1 else Z.lor (shlu 32 (u32 (-1 - val)) 1) 1.
(** The 8-bit operands are promoted to [int]; the result is converted back. *)
Definition zigzag8 (val : Z) : Z :=
  if 0 <=? val then u8 (Z.shiftl (u8 val) 1) else u8 (Z.lor (Z.shiftl (u8 (-1 - val)) 1) 1).

Definition unzigzag64 (val : Z) : Z :=
  if Z.land val 1 =? 0 then i64 (Z.shiftr val 1) else i64 (-1 * i64 (Z.shiftr (u64 (val + 1)) 1)).
Definition unzigzag32 (val : Z) : Z :=
  if Z.land val 1 =? 0 then i32 (Z.shiftr val 1) else i32 (-1 * i32 (Z.shiftr (u32 (val + 1)) 1)).
(** [val + 1] is computed as an [int] and cannot wrap at 8 bits. *)
Definition unzigzag8 (val : Z) : Z :=
  if Z.land val 1 =? 0 then i8 (Z.shiftr val 1) else i8 (-1 * i8 (Z.shiftr (val + 1) 1)).

Definition varint_u64_encode_buf (val : Z) (buf : list Z) : res (Z * list Z) :=
  _varint_u64_encode_buf val buf.
Definition varint_u32_encode_buf (val : Z) (buf : list Z) : res (Z * list Z) :=
  _varint_u64_encode_buf (u64 val) buf.
Definition varint_s64_encode_buf (val : Z) (buf : list Z) : res (Z * list Z) :=
  _varint_u64_encode_buf (zigzag64 val) buf.
Definition varint_s32_encode_buf (val : Z) (buf : list Z) : res (Z * list Z) :=
  _varint_u64_encode_buf (u64 (zigzag32 val)) buf.

(** ** Decoding *)

(** The loop of [varint_u64_decode] over the bytes not yet read; [pos] is
    [ptr - the_start].  A shift by 64 or more is undefined. *)
Fixpoint varint_decode_loop (bytes : list Z) (nVal nShift pos : Z) : res (Z * Z) :=
  match bytes with
  | [] => Err "varint_u64_decode: varint extends past end of buffer"
  | nByte :: bytes =>
    if 64 <=? nShift then Undef
    else if negb (Z.land nByte 0x80 =? 0) then
      varint_decode_loop bytes (Z.lor nVal (shlu 64 (Z.land nByte 0x7f) nShift)) (nShift + 7) (pos + 1)
    else Ok (Z.lor nVal (shlu 64 nByte nShift), pos + 1)
  end.

(** The value and [*size]. *)
Definition varint_u64_decode (bytes : list Z) : res (Z * Z) := varint_decode_loop bytes 0 0 0.

Definition varint_s64_decode (bytes : list Z) : res (Z * Z) :=
  '(v, size) ← varint_u64_decode bytes; Ok (unzigzag64 v, size).

Fixpoint varint_size_loop (bytes : list Z) (pos : Z) : Z :=
  match bytes with
  | [] => 0
  | b :: bytes => if negb (Z.land b 0x80 =? 0) then varint_size_loop bytes (pos + 1) else pos + 1
  end.
Definition varint_size (bytes : list Z) : Z := varint_size_loop bytes 0.

(** ** Specification *)

(** A byte string is a chain of continuation bytes and one final byte; its value
    reads the low seven bits of each byte, least significant group first. *)
Definition is_cont (b : Z) : bool := 128 <=? b.

Fixpoint varint_value (bytes : list Z) : Z :=
  match bytes with
  | [] => 0
  | b :: bytes => if is_cont b then (b - 128) + 128 * varint_value bytes else b
  end.

(** The number of leading continuation bytes. *)
Fixpoint cont_prefix (bytes : list Z) : nat :=
  match bytes with
  | [] => 0
  | b :: bytes => if is_cont b then S (cont_prefix bytes) else 0
  end.

(** The bytes the encoder should produce. *)
Fixpoint varint_bytes (fuel : nat) (q : Z) : list Z :=
  match fuel with
  | O => []
  | S f => if q <? 128 then [q] else (128 + q `mod` 128) :: varint_bytes f (q / 128)
  end.

(** ** Lemmas *)

Lemma cont_bit b : is_u 8 b -> negb (Z.land b 0x80 =? 0) = is_cont b.
Proof.
  intros Hb. apply eqb_prop.
  by apply (byte_forall (fun b => Bool.eqb (negb (Z.land b 0x80 =? 0)) (is_cont b))).
Qed.

Lemma low_seven b : is_u 8 b -> is_cont b = true -> Z.land b 0x7f = b - 128.
Proof.
  intros Hb Hc. apply Z.eqb_eq.
  apply (implb_true_iff (is_cont b)); [|done].
  by apply (byte_forall (fun b => implb (is_cont b) (Z.land b 0x7f =? b - 128))).
Qed.

Lemma grp_mod q : Z.land 0x7f q = q `mod` 128.
Proof. rewrite Z.land_comm. apply (Z.land_ones q 7). lia. Qed.

Lemma lor_grp g : 0 <= g < 128 -> u8 (Z.lor 0x80 g) = 128 + g.
Proof.
  intros. rewrite Z.lor_comm. change 0x80 with (Z.shiftl 1 7) at 1.
  rewrite lor_shiftl_add by (unfold is_u; lia). rewrite wrapu_small; unfold is_u; lia.
Qed.

Lemma insert_at {A} (p : nat) (x : A) l bs : (p < length l)%nat ->
  take (S p) (<[p := x]> l) ++ bs ++ drop (S p + length bs) (<[p := x]> l) =
  take p l ++ (x :: bs) ++ drop (p + length (x :: bs)) l.
Proof.
  intros. rewrite drop_insert_lt by lia.
  rewrite (take_S_r _ p x) by (apply list_lookup_insert_eq; lia).
  rewrite take_insert_ge by lia. rewrite <- app_assoc. simpl. do 4 f_equal. lia.
Qed.

Lemma varint_bytes_length f q : (0 < f)%nat -> (1 <= length (varint_bytes f q) <= f)%nat.
Proof.
  revert q. induction f as [|f IH]; intros q ?; simpl; [lia|].
  zcase; simpl; [lia|]. destruct f as [|f]; [simpl; lia|]. specialize (IH (q / 128)). lia.
Qed.

Lemma pow7_S (f : nat) : 2 ^ (7 * Z.of_nat (S f)) = 128 * 2 ^ (7 * Z.of_nat f).
Proof. replace (7 * Z.of_nat (S f)) with (7 + 7 * Z.of_nat f) by lia. rewrite Z.pow_add_r by lia. lia. Qed.

Lemma encode_loop_spec f q buf (p : nat) :
  (0 < f)%nat -> 0 <= q < 2 ^ (7 * Z.of_nat f) -> (p + f <= length buf)%nat ->
  varint_encode_loop f q buf (Z.of_nat p) =
    let bs := varint_bytes f q in
    Ok (Z.of_nat (p + length bs), take p buf ++ bs ++ drop (p + length bs) buf).
Proof.
  revert q buf p. induction f as [|f IH]; intros q buf p Hf Hq Hb; [lia|]. cbn [varint_encode_loop varint_bytes].
  rewrite grp_mod, Z.shiftr_div_pow2 by lia. change (2 ^ 7) with 128.
  pose proof (Z.mod_pos_bound q 128 ltac:(lia)). rewrite !(wrapu_small 8 (q `mod` 128)) by (unfold is_u; lia).
  rewrite lor_grp by done. rewrite !aset_Ok by lia. rewrite !Nat2Z.id.
  destruct (Z.ltb_spec 0 (q / 128)), (Z.ltb_spec q 128);
    pose proof (Z.div_mod q 128 ltac:(lia)); try lia.
  - rewrite pow7_S in Hq. simpl. replace (Z.of_nat p + 1) with (Z.of_nat (S p)) by lia.
    destruct f as [|f]; [change (2 ^ (7 * Z.of_nat 0)) with 1 in Hq; lia|].
    rewrite IH; [|lia|nia|rewrite length_insert; lia].
    cbv zeta. rewrite insert_at by lia. simpl length. do 2 f_equal. lia.
  - unfold mbind, res_bind. cbv zeta. rewrite Z.mod_small by lia. simpl length.
    pose proof (insert_at p q buf [] ltac:(lia)) as E. simpl in E |- *. rewrite <- E.
    rewrite Nat.add_0_r, take_drop. do 2 f_equal. lia.
Qed.

Lemma varint_bytes_value f q rest : (0 < f)%nat -> 0 <= q < 2 ^ (7 * Z.of_nat f) ->
  varint_value (varint_bytes f q ++ rest) = q /\
  S (cont_prefix (varint_bytes f q ++ rest)) = length (varint_bytes f q) /\
  Forall (is_u 8) (varint_bytes f q).
Proof.
  revert q. induction f as [|f IH]; intros q Hf Hq; [lia|]. cbn [varint_bytes].
  pose proof (Z.mod_pos_bound q 128 ltac:(lia)). pose proof (Z.div_mod q 128 ltac:(lia)).
  unfold is_u. destruct (Z.ltb_spec q 128).
  { cbn [app varint_value cont_prefix]. unfold is_cont. destruct (Z.leb_spec 128 q); [lia|].
    repeat constructor; lia. }
  cbn [app varint_value cont_prefix length]. unfold is_cont.
  destruct (Z.leb_spec 128 (128 + q `mod` 128)); [|lia].
  rewrite pow7_S in Hq. destruct f as [|f]; [change (2 ^ (7 * Z.of_nat 0)) with 1 in Hq; lia|].
  destruct (IH (q / 128)) as (-> & -> & ?); [lia|nia|]. repeat split; try lia. constructor; [lia|done].
Qed.

(** The encoding is minimal: its length is the number of 7-bit groups of the value. *)
Lemma varint_bytes_minimal f q : (0 < f)%nat -> 0 <= q < 2 ^ (7 * Z.of_nat f) ->
  q < 128 ^ Z.of_nat (length (varint_bytes f q)) /\
  (length (varint_bytes f q) = 1%nat \/ 128 ^ (Z.of_nat (length (varint_bytes f q)) - 1) <= q).
Proof.
  revert q. induction f as [|f IH]; intros q Hf Hq; [lia|]. cbn [varint_bytes].
  pose proof (Z.mod_pos_bound q 128 ltac:(lia)). pose proof (Z.div_mod q 128 ltac:(lia)).
  destruct (Z.ltb_spec q 128); [split; [change (q < 128); lia|by left]|]. rewrite pow7_S in Hq.
  destruct f as [|f]; [change (2 ^ (7 * Z.of_nat 0)) with 1 in Hq; lia|]. destruct (IH (q / 128)) as [Hlt Hge]; [lia|nia|].
  pose proof (varint_bytes_length (S f) (q / 128)).
  set (n := length (varint_bytes (S f) (q / 128))) in *. cbn [length]. fold n. split.
  - rewrite Nat2Z.inj_succ, Z.pow_succ_r by lia. nia.
  - right. replace (Z.of_nat (S n) - 1) with (Z.succ (Z.of_nat n - 1)) by lia.
    rewrite Z.pow_succ_r by lia. destruct Hge as [Hn|Hge]; [rewrite Hn; simpl; lia|nia].
Qed.

Lemma varint_value_bound bytes : Forall (is_u 8) bytes -> 0 <= varint_value bytes.
Proof. induction 1 as [|b l Hb Hl IH]; simpl; [lia|]. unfold is_u, is_cont in *. zcase; lia. Qed.

Lemma lor_shlu v x s : 0 <= s < 64 -> is_u s v -> Z.lor v (shlu 64 x s) = u64 (v + x * 2 ^ s).
Proof.
  intros Hs Hv. rewrite <- lor_shiftl_add by (done || lia).
  apply Z.bits_inj'. intros i Hi. autorewrite with wordbits. case_bool_decide; simpl; [done|].
  rewrite (is_u_testbit s v) by (done || lia). done.
Qed.

Lemma Ok_pair_mod (m a b c d : Z) : a = c -> b = d -> Ok (a `mod` m, b) = Ok (c `mod` m, d).
Proof. by intros -> ->. Qed.

(** The decoder's outcome on every byte string, from a state that has read [k] groups. *)
Lemma decode_loop_spec bytes k v pos :
  Forall (is_u 8) bytes -> 0 <= k <= 10 -> (k < 10 -> is_u (7 * k) v) ->
  varint_decode_loop bytes v (7 * k) pos =
    let c := Z.of_nat (cont_prefix bytes) in
    if (10 - k <=? c) && (10 - k <? Z.of_nat (length bytes)) then Undef
    else if c =? Z.of_nat (length bytes) then Err "varint_u64_decode: varint extends past end of buffer"
    else Ok (u64 (v + 2 ^ (7 * k) * varint_value bytes), pos + c + 1).
Proof.
  intros Hbs. revert k v pos. induction Hbs as [|b l Hb Hl IH]; intros k v pos Hk Hv; cbv zeta.
  { simpl. repeat zcase; simpl; (done || lia). }
  cbn [varint_decode_loop cont_prefix varint_value length]. rewrite cont_bit by done.
  destruct (Z.leb_spec 64 (7 * k)).
  { repeat zcase; simpl; (done || lia). }
  rewrite !lor_shlu by first [lia | apply Hv; lia].
  pose proof (varint_value_bound l Hl). unfold is_u in Hb.
  destruct (is_cont b) eqn:Hc.
  - rewrite low_seven by done. replace (7 * k + 7) with (7 * (k + 1)) by lia.
    apply Z.leb_le in Hc. assert (2 ^ (7 * (k + 1)) = 128 * 2 ^ (7 * k)) as E
      by (rewrite <- (Z.pow_add_r 2 7) by lia; f_equal; lia).
    assert (k + 1 < 10 -> is_u (7 * (k + 1)) (v + (b - 128) * 2 ^ (7 * k))) as Hnext.
    { intros ?. unfold is_u in *. rewrite E. specialize (Hv ltac:(lia)). nia. }
    rewrite IH; [|lia|]. 2:{ intros Hk1. rewrite wrapu_small; [by apply Hnext|].
      destruct (Hnext Hk1). split; [done|]. eapply Z.lt_le_trans; [done|]. apply Z.pow_le_mono_r; lia. }
    cbv zeta. rewrite Nat2Z.inj_succ. unfold wrapu. rewrite Zplus_mod_idemp_l, E.
    repeat zcase; simpl; try (done || lia); apply Ok_pair_mod; lia.
  - unfold wrapu. repeat zcase; simpl; try (done || lia); apply Ok_pair_mod; lia.
Qed.

Lemma varint_size_spec bytes pos : Forall (is_u 8) bytes ->
  varint_size_loop bytes pos =
    if (cont_prefix bytes =? length bytes)%nat then 0 else pos + Z.of_nat (cont_prefix bytes) + 1.
Proof.
  intros H. revert pos. induction H as [|b l Hb Hl IH]; intros pos; simpl; [done|].
  rewrite cont_bit by done. destruct (is_cont b); [rewrite IH|]; simpl;
    repeat case_match; (done || lia).
Qed.

Lemma u64_70 val : is_u 64 val -> 0 <= val < 2 ^ (7 * Z.of_nat 10).
Proof. unfold is_u. change (2 ^ (7 * Z.of_nat 10)) with (2 ^ 70). assert (2 ^ 64 < 2 ^ 70) by done. lia. Qed.

Lemma encode_spec val buf : is_u 64 val -> (10 <= length buf)%nat ->
  let bs := varint_bytes 10 val in
  _varint_u64_encode_buf val buf = Ok (Z.of_nat (length bs), bs ++ drop (length bs) buf).
Proof.
  intros Hv Hb. exact (encode_loop_spec 10 val buf 0 ltac:(lia) (u64_70 val Hv) Hb).
Qed.

Lemma decode_spec bytes : Forall (is_u 8) bytes ->
  varint_u64_decode bytes =
    let c := cont_prefix bytes in
    if (10 <=? c)%nat && (11 <=? length bytes)%nat then Undef
    else if (c =? length bytes)%nat then Err "varint_u64_decode: varint extends past end of buffer"
    else Ok (u64 (varint_value bytes), Z.of_nat c + 1).
Proof.
  intros. unfold varint_u64_decode. change 0 with (7 * 0) at 2.
  rewrite decode_loop_spec; [|done|lia|unfold is_u; lia]. cbv zeta.
  destruct (Nat.leb_spec 10 (cont_prefix bytes)), (Nat.leb_spec 11 (length bytes)),
    (Nat.eqb_spec (cont_prefix bytes) (length bytes)); repeat zcase; simpl; try (done || lia).
  all: apply Ok_pair_mod; lia.
Qed.

Lemma decode_bytes val rest : is_u 64 val -> Forall (is_u 8) rest ->
  let bs := varint_bytes 10 val in
  varint_u64_decode (bs ++ rest) = Ok (val, Z.of_nat (length bs)) /\
  varint_size (bs ++ rest) = Z.of_nat (length bs).
Proof.
  intros Hv Hr bs. destruct (varint_bytes_value 10 val rest) as (Hval & Hc & Hf); [lia|by apply u64_70|].
  pose proof (varint_bytes_length 10 val ltac:(lia)). fold bs in Hval, Hc, Hf, H.
  assert (Forall (is_u 8) (bs ++ rest)) by (by apply Forall_app).
  pose proof (length_app bs rest). unfold varint_size. rewrite varint_size_spec, decode_spec by done.
  cbv zeta. rewrite Hval, wrapu_small by done.
  destruct (Nat.leb_spec 10 (cont_prefix (bs ++ rest))), (Nat.eqb_spec (cont_prefix (bs ++ rest)) (length (bs ++ rest)));
    simpl; try lia. rewrite <- Hc. split; [f_equal; f_equal|]; lia.
Qed.

(** ** Zigzag *)

Lemma shl1_small w x : 0 < w -> is_u (w - 1) x -> shlu w x 1 = 2 * x /\ Z.lor (shlu w x 1) 1 = 2 * x + 1.
Proof.
  intros Hw Hx. assert (2 ^ w = 2 * 2 ^ (w - 1)) by (rewrite <- Z.pow_succ_r by lia; f_equal; lia).
  assert (shlu w x 1 = 2 * x) as E.
  { unfold shlu. rewrite Z.shiftl_mul_pow2, wrapu_small by (unfold is_u in *; lia). lia. }
  split; [done|]. rewrite Z.lor_comm. unfold shlu in *.
  rewrite E. replace (2 * x) with (Z.shiftl x 1) by (rewrite Z.shiftl_mul_pow2; lia).
  rewrite lor_shiftl_add by (unfold is_u in *; lia). rewrite Z.shiftl_mul_pow2 by lia. lia.
Qed.

(** The value both wide encoders compute, and the wide decoders' inverse. *)
Definition zz (val : Z) : Z := if 0 <=? val then 2 * val else -2 * val - 1.
Definition unzz (v : Z) : Z := if v `mod` 2 =? 0 then v / 2 else - ((v + 1) / 2).

Lemma zigzag_gen w val : 0 < w -> is_s w val ->
  (if 0 <=? val then shlu w (wrapu w val) 1 else Z.lor (shlu w (wrapu w (-1 - val)) 1) 1) = zz val.
Proof.
  intros Hw Hv. unfold zz, is_s in *.
  assert (2 ^ w = 2 * 2 ^ (w - 1)) by (rewrite <- Z.pow_succ_r by lia; f_equal; lia).
  destruct (Z.leb_spec 0 val); rewrite wrapu_small by (unfold is_u; lia);
    [destruct (shl1_small w val) as [-> _]|destruct (shl1_small w (-1 - val)) as [_ ->]];
    unfold is_u; lia.
Qed.

Lemma unzigzag_gen w v : 1 < w -> is_u w v ->
  (if Z.land v 1 =? 0 then wraps w (Z.shiftr v 1)
   else wraps w (-1 * wraps w (Z.shiftr (wrapu w (v + 1)) 1))) =
  if v =? 2 ^ w - 1 then 0 else unzz v.
Proof.
  intros Hw Hv. unfold unzz, is_u in *. change 1 with (Z.ones 1) at 1. rewrite Z.land_ones, !Z.shiftr_div_pow2 by lia.
  change (2 ^ 1) with 2. pose proof (Z.div_mod v 2 ltac:(lia)). pose proof (Z.mod_pos_bound v 2 ltac:(lia)).
  assert (2 ^ w = 2 * 2 ^ (w - 1)) by (rewrite <- Z.pow_succ_r by lia; f_equal; lia).
  assert (0 < 2 ^ (w - 1)) by lia.
  destruct (Z.eqb_spec v (2 ^ w - 1)) as [->|Hne].
  - replace (2 ^ w - 1 + 1) with (2 ^ w) by lia. unfold wrapu. rewrite Z_mod_same_full.
    replace ((2 ^ w - 1) `mod` 2) with 1; [|apply (Z.mod_unique _ _ (2 ^ (w - 1) - 1)); lia].
    change (1 =? 0) with false. cbv iota. change (0 / 2) with 0.
    assert (is_s w 0) by (unfold is_s; lia). rewrite (wraps_small w 0) by (done || lia).
    change (-1 * 0) with 0. apply wraps_small; (done || lia).
  - rewrite (wrapu_small w (v + 1)) by (unfold is_u; lia).
    pose proof (Z.div_mod (v + 1) 2 ltac:(lia)). pose proof (Z.mod_pos_bound (v + 1) 2 ltac:(lia)).
    zcase; [|rewrite (wraps_small w ((v + 1) / 2)) by (unfold is_s; lia)];
      rewrite wraps_small by (unfold is_s; lia); lia.
Qed.

Lemma zz_range w val : 0 < w -> is_s w val -> is_u w (zz val) /\ (zz val = 2 ^ w - 1 <-> val = - 2 ^ (w - 1)).
Proof.
  unfold is_s, is_u, zz. intros.
  assert (2 ^ w = 2 * 2 ^ (w - 1)) by (rewrite <- Z.pow_succ_r by lia; f_equal; lia). zcase; lia.
Qed.

Lemma unzz_zz val : unzz (zz val) = val.
Proof.
  unfold zz, unzz. destruct (Z.leb_spec 0 val).
  - rewrite (Z.mul_comm 2), Z_mod_mult, Z.div_mul by lia. done.
  - replace (-2 * val - 1) with (1 + (- val - 1) * 2) by lia. rewrite Z_mod_plus_full. simpl.
    replace (1 + (- val - 1) * 2 + 1) with (- val * 2) by lia. rewrite Z.div_mul; lia.
Qed.

Lemma zz_unzz v : 0 <= v -> zz (unzz v) = v.
Proof.
  intros. unfold zz, unzz. pose proof (Z.div_mod v 2 ltac:(lia)). pose proof (Z.mod_pos_bound v 2 ltac:(lia)).
  pose proof (Z.div_mod (v + 1) 2 ltac:(lia)). pose proof (Z.mod_pos_bound (v + 1) 2 ltac:(lia)).
  repeat zcase; lia.
Qed.

Lemma unzz_range w v : 0 < w -> is_u w v -> v <> 2 ^ w - 1 -> is_s w (unzz v).
Proof.
  unfold is_s, is_u, unzz. intros.
  assert (2 ^ w = 2 * 2 ^ (w - 1)) by (rewrite <- Z.pow_succ_r by lia; f_equal; lia).
  pose proof (Z.div_mod v 2 ltac:(lia)). pose proof (Z.mod_pos_bound v 2 ltac:(lia)).
  pose proof (Z.div_mod (v + 1) 2 ltac:(lia)). pose proof (Z.mod_pos_bound (v + 1) 2 ltac:(lia)).
  zcase; lia.
Qed.

Lemma zigzag64_zz val : is_s 64 val -> zigzag64 val = zz val.
Proof. by apply (zigzag_gen 64). Qed.
Lemma zigzag32_zz val : is_s 32 val -> zigzag32 val = zz val.
Proof. by apply (zigzag_gen 32). Qed.
Lemma unzigzag64_unzz v : is_u 64 v -> unzigzag64 v = if v =? 2 ^ 64 - 1 then 0 else unzz v.
Proof. by apply (unzigzag_gen 64). Qed.
Lemma unzigzag32_unzz v : is_u 32 v -> unzigzag32 v = if v =? 2 ^ 32 - 1 then 0 else unzz v.
Proof. by apply (unzigzag_gen 32). Qed.

Lemma zigzag8_inverse val : is_s 8 val -> unzigzag8 (zigzag8 val) = val.
Proof.
  intros Hv. unfold is_s in Hv.
  pose proof (byte_forall (fun b => unzigzag8 (zigzag8 (b - 128)) =? b - 128) eq_refl (val + 128)) as E.
  cbv beta in E. replace (val + 128 - 128) with val in E by lia. apply Z.eqb_eq, E. unfold is_u. lia.
Qed.

(** ** Properties *)

(** C38. Encoding a 64-bit value into a buffer of ten bytes writes between one and
    ten bytes and nothing else, uses as few bytes as the value's 7-bit groups, and
    decoding the buffer, or the written bytes followed by anything, returns the
    value and its length. *)
Theorem varint_roundtrip val buf rest :
  is_u 64 val -> (10 <= length buf)%nat -> Forall (is_u 8) rest ->
  exists n buf', varint_u64_encode_buf val buf = Ok (Z.of_nat n, buf') /\
    (1 <= n <= 10)%nat /\ val < 128 ^ Z.of_nat n /\ (n = 1%nat \/ 128 ^ (Z.of_nat n - 1) <= val) /\
    length buf' = length buf /\ drop n buf' = drop n buf /\
    varint_u64_decode (take n buf' ++ rest) = Ok (val, Z.of_nat n) /\
    varint_size (take n buf' ++ rest) = Z.of_nat n.
Proof.
  intros Hv Hb Hr. destruct (decode_bytes val rest Hv Hr) as [Hd Hs].
  destruct (varint_bytes_minimal 10 val) as [Hlt Hge]; [lia|by apply u64_70|].
  pose proof (varint_bytes_length 10 val ltac:(lia)).
  eexists _, _. split; [by apply encode_spec|].
  rewrite take_app_length, drop_app_length, length_app, length_drop.
  repeat (split; [done || lia|]). done.
Qed.

Lemma varint_roundtrip_witness :
  exists n buf', varint_u64_encode_buf 300 (replicate 12 7) = Ok (Z.of_nat n, buf') /\
    varint_u64_decode (take n buf' ++ [1; 2]) = Ok (300, Z.of_nat n).
Proof.
  destruct (varint_roundtrip 300 (replicate 12 7) [1; 2]) as (n & b & H & _ & _ & _ & _ & _ & Hd & _);
    [unfold is_u; lia|vm_compute; lia|repeat constructor; unfold is_u; lia|]. by exists n, b.
Defined.

(** C39. The outcome of the decoder on every byte string: the seven-bit groups up to
    the first byte without the high bit, reduced to 64 bits; the error when no such
    byte exists; and a shift beyond the word size (undefined in C) exactly when ten
    continuation bytes are followed by more input. *)
Theorem varint_decode_outcome bytes : Forall (is_u 8) bytes ->
  let c := cont_prefix bytes in
  varint_u64_decode bytes =
    (if (10 <=? c)%nat && (11 <=? length bytes)%nat then Undef
     else if (c =? length bytes)%nat then Err "varint_u64_decode: varint extends past end of buffer"
     else Ok (u64 (varint_value bytes), Z.of_nat c + 1)) /\
  varint_size bytes = (if (c =? length bytes)%nat then 0 else Z.of_nat c + 1).
Proof. intros H c. split; [by apply decode_spec|]. by apply (varint_size_spec bytes 0). Qed.

Lemma varint_decode_outcome_witness :
  varint_u64_decode (replicate 11 255) = Undef /\ varint_size (replicate 11 255 ++ [0]) = 12.
Proof.
  split.
  - refine (proj1 (varint_decode_outcome (replicate 11 255) _)). repeat constructor; unfold is_u; lia.
  - refine (proj2 (varint_decode_outcome (replicate 11 255 ++ [0]) _)). repeat constructor; unfold is_u; lia.
Defined.

(** Zigzag coding: at 32 and 64 bits decoding inverts encoding for every value
    but the most negative one, which decodes to 0, and encoding inverts decoding for
    every word but the all-ones word; at 8 bits, where the addition is done in a wider
    type, every value survives. *)
Theorem zigzag_inverse :
  (forall val, is_s 64 val -> unzigzag64 (zigzag64 val) = if val =? - 2 ^ 63 then 0 else val) /\
  (forall val, is_s 32 val -> unzigzag32 (zigzag32 val) = if val =? - 2 ^ 31 then 0 else val) /\
  (forall val, is_s 8 val -> unzigzag8 (zigzag8 val) = val) /\
  (forall v, is_u 64 v -> v <> 2 ^ 64 - 1 -> zigzag64 (unzigzag64 v) = v) /\
  (forall v, is_u 32 v -> v <> 2 ^ 32 - 1 -> zigzag32 (unzigzag32 v) = v).
Proof.
  split_and!.
  - intros val Hv. destruct (zz_range 64 val) as [Hr Hmin]; [lia|done|]. change (64 - 1) with 63 in Hmin.
    rewrite zigzag64_zz, unzigzag64_unzz, unzz_zz by done. repeat zcase; (done || lia).
  - intros val Hv. destruct (zz_range 32 val) as [Hr Hmin]; [lia|done|]. change (32 - 1) with 31 in Hmin.
    rewrite zigzag32_zz, unzigzag32_unzz, unzz_zz by done. repeat zcase; (done || lia).
  - exact zigzag8_inverse.
  - intros v Hv Hne. rewrite unzigzag64_unzz by done. zcase; [lia|].
    rewrite zigzag64_zz by (by apply unzz_range). apply zz_unzz. unfold is_u in Hv. lia.
  - intros v Hv Hne. rewrite unzigzag32_unzz by done. zcase; [lia|].
    rewrite zigzag32_zz by (by apply unzz_range). apply zz_unzz. unfold is_u in Hv. lia.
Qed.

(** Signed varints: a 64-bit value other than the most negative one, and every
    32-bit value, is recovered by [varint_s64_decode] from the bytes its encoder
    wrote; the most negative 64-bit value is read back as 0. *)
Theorem varint_signed_roundtrip val buf :
  is_s 64 val -> (10 <= length buf)%nat ->
  (exists n buf', varint_s64_encode_buf val buf = Ok (Z.of_nat n, buf') /\
     varint_s64_decode (take n buf') = Ok (if val =? - 2 ^ 63 then 0 else val, Z.of_nat n)) /\
  (is_s 32 val ->
   exists n buf', varint_s32_encode_buf val buf = Ok (Z.of_nat n, buf') /\ (n <= 5)%nat /\
     varint_s64_decode (take n buf') = Ok (val, Z.of_nat n)).
Proof.
  intros Hv Hb. destruct (zz_range 64 val) as [Hr Hmin]; [lia|done|]. change (64 - 1) with 63 in Hmin.
  assert (forall n b, b = varint_bytes 10 (zz val) -> n = length b ->
    varint_s64_decode (take n (b ++ drop n buf)) = Ok (if val =? - 2 ^ 63 then 0 else val, Z.of_nat n)) as Hdec.
  { intros n b -> ->. rewrite take_app_length. unfold varint_s64_decode.
    destruct (decode_bytes (zz val) [] Hr) as [E _]; [done|]. rewrite app_nil_r in E. rewrite E. simpl.
    rewrite unzigzag64_unzz, unzz_zz by done. repeat zcase; (done || lia). }
  split.
  - eexists _, _. split; [unfold varint_s64_encode_buf; rewrite zigzag64_zz by done; by apply encode_spec|].
    by apply Hdec.
  - intros Hv32. destruct (zz_range 32 val) as [Hr32 _]; [lia|done|].
    eexists _, _. split; [|split].
    + unfold varint_s32_encode_buf. rewrite zigzag32_zz, wrapu_small by done. by apply encode_spec.
    + destruct (varint_bytes_minimal 10 (zz val)) as [_ [->|Hge]]; [lia|by apply u64_70|lia|].
      destruct (decide (5 < length (varint_bytes 10 (zz val)))%nat); [exfalso|lia].
      assert (128 ^ 5 <= 128 ^ (Z.of_nat (length (varint_bytes 10 (zz val))) - 1))
        by (apply Z.pow_le_mono_r; lia). unfold is_u in Hr32. lia.
    + rewrite Hdec by done. unfold is_s in Hv32. zcase; (done || lia).
Qed.

Lemma varint_signed_roundtrip_witness :
  (exists n buf', varint_s64_encode_buf (-12345) (replicate 10 0) = Ok (Z.of_nat n, buf') /\
     varint_s64_decode (take n buf') = Ok (-12345, Z.of_nat n)).
Proof.
  refine (proj1 (varint_signed_roundtrip (-12345) (replicate 10 0) _ _)); [unfold is_s; lia|vm_compute; lia].
Defined.
