(* ===== verification/UnionFind.v ===== *)
(** Disjoint sets: src/postgis-src/liblwgeom/lwunionfind.c, which clusters
    geometries.

    The structure is a forest in the array [clusters], with path compression in
    [UF_find] and union by size in [UF_union].  The two loops of [UF_find] run on
    fuel; 33 iterations are enough because union by size keeps every path shorter
    than 32 links in an array indexed by 32-bit integers ([uf_find_logarithmic]). *)

From S2P Require Import Prelude.

Record UNIONFIND := {
  clusters : list Z;
  cluster_sizes : list Z;
  num_clusters : Z;
  N : Z
}.

Definition UF_create (n : Z) : UNIONFIND :=
  {| clusters := seqZ 0 n; cluster_sizes := replicate (Z.to_nat n) 1; num_clusters := n; N := n |}.

(** [while (uf->clusters[base] != base) base = uf->clusters[base];] *)
Fixpoint find_base_loop (fuel : nat) (cl : list Z) (base : Z) : res Z :=
  match fuel with
  | O => OutOfFuel
  | S f => c ← aget cl base; if c =? base then Ok base else find_base_loop f cl c
  end.

(** [while (i != base) { next = clusters[i]; clusters[i] = base; i = next; }] *)
Fixpoint compress_loop (fuel : nat) (cl : list Z) (i base : Z) : res (list Z * Z) :=
  match fuel with
  | O => OutOfFuel
  | S f =>
    if i =? base then Ok (cl, i)
    else next ← aget cl i; cl ← aset cl i base; compress_loop f cl next base
  end.

Definition UF_fuel : nat := 33.

Definition UF_find (uf : UNIONFIND) (i : Z) : res (UNIONFIND * Z) :=
  base ← find_base_loop UF_fuel (clusters uf) i;
  '(cl, i) ← compress_loop UF_fuel (clusters uf) i base;
  Ok ({| clusters := cl; cluster_sizes := cluster_sizes uf;
         num_clusters := num_clusters uf; N := N uf |}, i).

Definition UF_size (uf : UNIONFIND) (i : Z) : res (UNIONFIND * Z) :=
  '(uf, r) ← UF_find uf i;
  s ← aget (cluster_sizes uf) r;
  Ok (uf, s).

(** The body of either branch of [UF_union]: the root [l] is linked below [w]. *)
Definition link (uf : UNIONFIND) (l w : Z) : res UNIONFIND :=
  cw ← aget (clusters uf) w;
  cl ← aset (clusters uf) l cw;
  sw ← aget (cluster_sizes uf) w;
  sl ← aget (cluster_sizes uf) l;
  sz ← aset (cluster_sizes uf) w (u32 (sw + sl));
  sz ← aset sz l 0;
  Ok {| clusters := cl; cluster_sizes := sz;
        num_clusters := u32 (num_clusters uf - 1); N := N uf |}.

Definition UF_union (uf : UNIONFIND) (i j : Z) : res UNIONFIND :=
  '(uf, a) ← UF_find uf i;
  '(uf, b) ← UF_find uf j;
  if a =? b then Ok uf else
  sa ← aget (cluster_sizes uf) a;
  sb ← aget (cluster_sizes uf) b;
  if (sa <? sb) || ((sa =? sb) && (b <? a)) then link uf a b else link uf b a.

(** A sequence of unions, as the clustering functions issue them. *)
Fixpoint UF_unions (uf : UNIONFIND) (edges : list (Z * Z)) : res UNIONFIND :=
  match edges with
  | [] => Ok uf
  | (i, j) :: edges => uf ← UF_union uf i j; UF_unions uf edges
  end.

(** ** Listing elements by cluster

    [qsort] is the C library's: a parameter, given the comparator on (slot address,
    element) pairs and the array. *)

Definition cmp_int (x y : Z) : Z := if y <? x then 1 else if x <? y then -1 else 0.

(** The comparator receives the addresses [a], [b] of two slots of the array being
    sorted, which hold pointers (here: indexes) into [clusters]; ties are broken by
    the addresses of the slots. *)
Definition cmp_int_ptr (cl : list Z) (a b : Z * Z) : Z :=
  let val_cmp := cmp_int (nthZ cl a.2) (nthZ cl b.2) in
  if negb (val_cmp =? 0) then val_cmp
  else if b.1 <? a.1 then 1 else if a.1 <? b.1 then -1 else 0.

(** The first loop of [UF_ordered_by_cluster]: [UF_find] for every element. *)
Fixpoint find_all (uf : UNIONFIND) (elems : list Z) : res UNIONFIND :=
  match elems with
  | [] => Ok uf
  | i :: elems => '(uf, _) ← UF_find uf i; find_all uf elems
  end.

Definition qsort_fn : Type := (Z * Z -> Z * Z -> Z) -> list Z -> list Z.

Definition UF_ordered_by_cluster (qsort : qsort_fn) (uf : UNIONFIND) : res (UNIONFIND * list Z) :=
  uf ← find_all uf (seqZ 0 (N uf));
  Ok (uf, qsort (cmp_int_ptr (clusters uf)) (seqZ 0 (N uf))).

(** [is_in_cluster] is an optional array of flags. *)
Definition in_cluster (is_in_cluster : option (list bool)) (j : Z) : bool :=
  match is_in_cluster with None => true | Some fl => nth (Z.to_nat j) fl false end.

(** The local variables of the renumbering loop; [new_ids] is fresh memory, a cell
    that was never written is [None]. *)
Record collapse_state := {
  new_ids : list (option Z);
  current_new_id : Z;
  last_old_id : Z;
  encountered_cluster : bool
}.

Fixpoint collapse_loop (uf : UNIONFIND) (is_in_cluster : option (list bool))
    (ordered : list Z) (st : collapse_state) : res (UNIONFIND * collapse_state) :=
  match ordered with
  | [] => Ok (uf, st)
  | j :: ordered =>
    if in_cluster is_in_cluster j then
      '(uf, current_old_id) ← UF_find uf j;
      let last := if encountered_cluster st then last_old_id st else current_old_id in
      let cur := if negb (current_old_id =? last) then u32 (current_new_id st + 1) else current_new_id st in
      ids ← aset (new_ids st) j (Some cur);
      collapse_loop uf is_in_cluster ordered
        {| new_ids := ids; current_new_id := cur; last_old_id := current_old_id; encountered_cluster := true |}
    else collapse_loop uf is_in_cluster ordered st
  end.

Definition UF_get_collapsed_cluster_ids (qsort : qsort_fn) (uf : UNIONFIND)
    (is_in_cluster : option (list bool)) : res (UNIONFIND * list (option Z)) :=
  '(uf, ordered) ← UF_ordered_by_cluster qsort uf;
  '(uf, st) ← collapse_loop uf is_in_cluster ordered
    {| new_ids := replicate (Z.to_nat (N uf)) None; current_new_id := 0;
       last_old_id := 0; encountered_cluster := false |};
  Ok (uf, new_ids st).

(** ** Representation

    [reach cl i r n]: following [n] links from [i] ends at the root [r]. *)
Inductive reach (cl : list Z) : Z -> Z -> nat -> Prop :=
| reach_root r : 0 <= r < Z.of_nat (length cl) -> nthZ cl r = r -> reach cl r r 0
| reach_step i r n : 0 <= i < Z.of_nat (length cl) -> nthZ cl i <> i ->
    reach cl (nthZ cl i) r n -> reach cl i r (S n).

(** The number of elements below [n] with a property. *)
Definition cnt (n : Z) (P : Z -> Prop) `{!forall x, Decision (P x)} : Z :=
  Z.of_nat (length (filter P (seqZ 0 n))).

(** [uf] represents the partition whose class of [i] has representative [root i]. *)
Record uf_rep (uf : UNIONFIND) (root : Z -> Z) : Prop := {
  rep_N : is_u 32 (N uf);
  rep_len : Z.of_nat (length (clusters uf)) = N uf;
  rep_len_sizes : Z.of_nat (length (cluster_sizes uf)) = N uf;
  rep_reach : forall i, 0 <= i < N uf -> exists n, reach (clusters uf) i (root i) n /\
    2 ^ Z.of_nat n <= nthZ (cluster_sizes uf) (root i);
  rep_size : forall i, 0 <= i < N uf ->
    nthZ (cluster_sizes uf) i = cnt (N uf) (fun j => root j = i);
  rep_num : num_clusters uf = cnt (N uf) (fun i => root i = i)
}.

(** ** Lemmas *)

Lemma reach_range cl i r n : reach cl i r n ->
  0 <= i < Z.of_nat (length cl) /\ 0 <= r < Z.of_nat (length cl) /\ nthZ cl r = r.
Proof. induction 1; naive_solver. Qed.

Lemma reach_det cl i r n r' n' : reach cl i r n -> reach cl i r' n' -> r = r' /\ n = n'.
Proof.
  intros H. revert r' n'. induction H as [r Hr E|i r n Hi E H IH]; intros r' n' H'; inversion H'; subst; try done.
  edestruct IH; [done|]. subst. done.
Qed.

Lemma reach_0_iff cl i r n : reach cl i r n -> (i = r <-> n = 0%nat).
Proof.
  intros H. destruct H as [|i r n Hi E H]; [done|]. split; [|done]. intros ->.
  destruct (reach_range _ _ _ _ H) as (_ & _ & ?). done.
Qed.

(** Redirecting a node to its own root shortens paths and moves no root. *)
Lemma reach_compress cl i r n j rj m :
  reach cl i r n -> i <> r -> reach cl j rj m ->
  exists m', (m' <= m)%nat /\ reach (<[Z.to_nat i := r]> cl) j rj m'.
Proof.
  intros Hi Hne Hj. destruct (reach_range _ _ _ _ Hi) as (Ri & Rr & Er).
  assert (reach (<[Z.to_nat i := r]> cl) r r 0).
  { constructor; rewrite ?length_insert; [lia|]. rewrite nthZ_insert, decide_False by lia. done. }
  induction Hj as [rj Rj Ej|j rj m Rj Ej Hj IH].
  - exists 0%nat. split; [done|]. destruct (decide (i = rj)) as [<-|?].
    { destruct (reach_0_iff _ _ _ _ Hi) as [_ H0]. destruct Hi; [done|]. done. }
    constructor; rewrite ?length_insert; [lia|]. by rewrite nthZ_insert, decide_False by lia.
  - destruct IH as (m' & ? & IH). destruct (decide (i = j)) as [<-|?].
    + destruct (reach_det cl i r n rj (S m)) as [-> ->]; [done|by constructor|].
      exists 1%nat. split; [lia|]. constructor; rewrite ?length_insert; [lia| |];
        rewrite nthZ_insert, decide_True by lia; done.
    + exists (S m'). split; [lia|]. constructor; rewrite ?length_insert; [lia| |];
        rewrite nthZ_insert, decide_False by lia; done.
Qed.

(** Linking one root below another. *)
Lemma reach_link cl l w j rj m :
  0 <= l < Z.of_nat (length cl) -> 0 <= w < Z.of_nat (length cl) ->
  nthZ cl l = l -> nthZ cl w = w -> l <> w -> reach cl j rj m ->
  reach (<[Z.to_nat l := w]> cl) j (if decide (rj = l) then w else rj)
    (if decide (rj = l) then S m else m).
Proof.
  intros Rl Rw El Ew Hne Hj.
  assert (reach (<[Z.to_nat l := w]> cl) w w 0).
  { constructor; rewrite ?length_insert; [lia|]. rewrite nthZ_insert, decide_False by lia. done. }
  induction Hj as [rj Rj Ej|j rj m Rj Ej Hj IH].
  - case_decide; subst.
    + constructor; rewrite ?length_insert; [lia| |]; rewrite nthZ_insert, decide_True by lia; done.
    + constructor; rewrite ?length_insert; [lia|]. by rewrite nthZ_insert, decide_False by lia.
  - assert (l <> j) by congruence.
    assert (nthZ (<[Z.to_nat l := w]> cl) j = nthZ cl j) as E by (rewrite nthZ_insert, decide_False by lia; done).
    case_decide; (constructor; rewrite ?length_insert, ?E; [lia|done|done]).
Qed.

Lemma find_base_ok cl i r n f : reach cl i r n -> (n < f)%nat -> find_base_loop f cl i = Ok r.
Proof.
  intros H. revert f. induction H as [r Hr E|i r n Hi E H IH]; intros [|f] Hf; try lia;
    simpl; rewrite aget_nthZ by done; simpl; zcase; try done. apply IH. lia.
Qed.

Lemma compress_ok f cl i r n : reach cl i r n -> (n < f)%nat ->
  exists cl', compress_loop f cl i r = Ok (cl', r) /\ length cl' = length cl /\ (exists m, (m <= 1)%nat /\ reach cl' i r m) /\
    forall j rj m, reach cl j rj m -> exists m', (m' <= m)%nat /\ reach cl' j rj m'.
Proof.
  revert cl i n. induction f as [|f IH]; intros cl i n H Hf; [lia|]. simpl.
  destruct (reach_range _ _ _ _ H) as (Ri & Rr & Er). destruct (Z.eqb_spec i r) as [->|Hne].
  { exists cl. split_and!; [done..| |].
    - exists 0%nat. split; [lia|by constructor].
    - intros j rj m Hj. by exists m. }
  rewrite aget_nthZ, aset_Ok by done. simpl.
  destruct H as [r Hr E|i r n Hi E H]; [done|].
  assert (reach cl i r (S n)) as Hi' by by constructor.
  destruct (reach_compress cl i r (S n) _ r n Hi' Hne H) as (m' & Hm' & Hr).
  destruct (IH _ _ _ Hr) as (cl' & -> & Hlen & Hn & Hpres); [lia|].
  exists cl'. split_and!; [done|by rewrite Hlen, length_insert| |].
  - assert (reach (<[Z.to_nat i := r]> cl) i r 1) as H1.
    { constructor; rewrite ?length_insert, ?nthZ_insert, ?decide_True by lia; [lia|done|].
      constructor; rewrite ?length_insert; [lia|]. by rewrite nthZ_insert, decide_False by lia. }
    exact (Hpres _ _ _ H1).
  - intros j rj m Hj. destruct (reach_compress cl i r (S n) j rj m Hi' Hne Hj) as (m1 & ? & Hj1).
    destruct (Hpres _ _ _ Hj1) as (m2 & ? & ?). exists m2. split; [lia|done].
Qed.

Lemma reach_le_1 cl i r m : (m <= 1)%nat -> reach cl i r m -> nthZ cl i = r.
Proof.
  intros Hm H. destruct H as [|i r n Hi E H]; [done|].
  assert (n = 0%nat) as -> by lia. by apply (reach_0_iff _ _ _ _ H).
Qed.

(** *** Counting *)

Lemma cnt_ext n (P Q : Z -> Prop) `{!forall x, Decision (P x), !forall x, Decision (Q x)} :
  (forall x, 0 <= x < n -> P x <-> Q x) -> cnt n P = cnt n Q.
Proof.
  intros Hpq. unfold cnt. do 2 f_equal. assert (forall x, x ∈ seqZ 0 n -> P x <-> Q x) as Hin.
  { intros x Hx%elem_of_seqZ. apply Hpq. lia. }
  clear Hpq. induction (seqZ 0 n) as [|x l IH]; [done|]. rewrite !filter_cons.
  rewrite IH by (intros; apply Hin; set_solver). specialize (Hin x ltac:(set_solver)).
  repeat case_decide; tauto || done.
Qed.

Lemma cnt_le n (P : Z -> Prop) `{!forall x, Decision (P x)} : 0 <= n -> 0 <= cnt n P <= n.
Proof.
  intros. unfold cnt. pose proof (length_filter P (seqZ 0 n)). rewrite length_seqZ in *. lia.
Qed.

Lemma cnt_pos n (P : Z -> Prop) `{!forall x, Decision (P x)} x : 0 <= x < n -> P x -> 1 <= cnt n P.
Proof.
  intros Hx HP. unfold cnt. assert (x ∈ filter P (seqZ 0 n)) as Hin.
  { apply list_elem_of_filter. split; [done|]. apply elem_of_seqZ. lia. }
  destruct (filter P (seqZ 0 n)); [set_solver|]. simpl. lia.
Qed.

(** Disjoint properties add up. *)
Lemma cnt_disjoint n (P Q R : Z -> Prop)
  `{!forall x, Decision (P x), !forall x, Decision (Q x), !forall x, Decision (R x)} :
  (forall x, 0 <= x < n -> R x <-> P x \/ Q x) -> (forall x, P x -> Q x -> False) ->
  cnt n R = cnt n P + cnt n Q.
Proof.
  intros Hpq Hd. unfold cnt. assert (forall x, x ∈ seqZ 0 n -> R x <-> P x \/ Q x) as Hin.
  { intros x Hx%elem_of_seqZ. apply Hpq. lia. }
  clear Hpq. induction (seqZ 0 n) as [|x l IH]; [done|]. rewrite !filter_cons.
  specialize (IH ltac:(intros; apply Hin; set_solver)).
  specialize (Hin x ltac:(set_solver)). specialize (Hd x).
  repeat case_decide; simpl; try tauto; lia.
Qed.

Lemma cnt_false n (P : Z -> Prop) `{!forall x, Decision (P x)} :
  (forall x, 0 <= x < n -> ~ P x) -> cnt n P = 0.
Proof.
  intros Hpq. rewrite (cnt_ext n P (fun _ => False)) by naive_solver. unfold cnt.
  induction (seqZ 0 n); done.
Qed.

Lemma cnt_single n k : 0 <= k < n -> cnt n (fun x => x = k) = 1.
Proof.
  intros. unfold cnt. assert (filter (fun x => x = k) (seqZ 0 n) ≡ₚ [k]) as ->; [|done].
  apply NoDup_Permutation; [apply NoDup_filter, NoDup_seqZ|apply NoDup_singleton|].
  intros x. rewrite list_elem_of_filter, elem_of_seqZ, list_elem_of_singleton. lia.
Qed.

(** ** The operations implement partitions *)

Section Rep.
Context (uf : UNIONFIND) (root : Z -> Z) (Hrep : uf_rep uf root).

Lemma rep_root_root i : 0 <= i < N uf -> 0 <= root i < N uf /\ root (root i) = root i.
Proof.
  intros Hi. destruct (rep_reach _ _ Hrep i Hi) as (n & Hn & _).
  destruct (reach_range _ _ _ _ Hn) as (_ & Rr & Er). rewrite (rep_len _ _ Hrep) in Rr. split; [done|].
  destruct (rep_reach _ _ Hrep (root i)) as (m & Hm & _); [done|].
  destruct (reach_det _ (root i) (root i) 0 _ _ ltac:(constructor; rewrite ?(rep_len _ _ Hrep); done) Hm). done.
Qed.

(** Union by size keeps paths logarithmic. *)
Lemma rep_depth i n : 0 <= i < N uf -> reach (clusters uf) i (root i) n -> 2 ^ Z.of_nat n <= N uf.
Proof.
  intros Hi Hn. destruct (rep_reach _ _ Hrep i Hi) as (m & Hm & Hs).
  destruct (reach_det _ _ _ _ _ _ Hn Hm) as [_ ->]. destruct (rep_root_root i Hi) as [Hr _].
  rewrite (rep_size _ _ Hrep) in Hs by done.
  pose proof (cnt_le (N uf) (fun j => root j = root i) ltac:(lia)). lia.
Qed.

Lemma rep_fuel i n : 0 <= i < N uf -> reach (clusters uf) i (root i) n -> (n < UF_fuel)%nat.
Proof.
  intros Hi Hn. pose proof (rep_depth i n Hi Hn) as Hd. pose proof (rep_N _ _ Hrep) as HN. unfold is_u in HN.
  assert (2 ^ Z.of_nat n < 2 ^ 32) as Hp by lia. apply Z.pow_lt_mono_r_iff in Hp; unfold UF_fuel; lia.
Qed.

Lemma flat_stays cl' :
  (forall j rj m, reach (clusters uf) j rj m -> exists m', (m' <= m)%nat /\ reach cl' j rj m') ->
  forall k, 0 <= k < N uf -> nthZ (clusters uf) k = root k -> nthZ cl' k = root k.
Proof.
  intros Hpres k Hk E. destruct (rep_root_root k Hk) as [Hr Er].
  destruct (rep_reach _ _ Hrep (root k) Hr) as (n & Hn & _). rewrite Er in Hn.
  destruct (reach_range _ _ _ _ Hn) as (_ & Rr & Eroot).
  assert (exists m, (m <= 1)%nat /\ reach (clusters uf) k (root k) m) as (m & Hm & Hk1).
  { destruct (decide (k = root k)) as [Ek|Hne].
    - exists 0%nat. split; [lia|]. rewrite <- Ek. constructor; [rewrite (rep_len _ _ Hrep); lia|congruence].
    - exists 1%nat. split; [lia|]. constructor; [rewrite (rep_len _ _ Hrep); lia|congruence|].
      rewrite E. by constructor. }
  destruct (Hpres _ _ _ Hk1) as (m' & ? & ?). eapply reach_le_1; [|done]. lia.
Qed.

Lemma find_ok i : 0 <= i < N uf ->
  exists uf', UF_find uf i = Ok (uf', root i) /\ uf_rep uf' root /\ N uf' = N uf /\
    cluster_sizes uf' = cluster_sizes uf /\ num_clusters uf' = num_clusters uf /\
    nthZ (clusters uf') i = root i /\
    forall k, 0 <= k < N uf -> nthZ (clusters uf) k = root k -> nthZ (clusters uf') k = root k.
Proof.
  intros Hi. destruct (rep_reach _ _ Hrep i Hi) as (n & Hn & _). pose proof (rep_fuel i n Hi Hn) as Hf.
  unfold UF_find. rewrite (find_base_ok _ _ _ n) by done. cbn [mbind res_bind].
  destruct (compress_ok UF_fuel _ _ _ n Hn Hf) as (cl' & E & Hlen & (m & Hm & Hreach) & Hpres).
  change UF_fuel with 33%nat in E |- *. rewrite E.
  eexists. split; [reflexivity|].
  split; [|split_and!; try done; [by eapply reach_le_1|by apply (flat_stays cl')]].
  destruct Hrep. split; simpl; try done; [by rewrite Hlen|].
  intros j Hj. destruct (rep_reach0 j Hj) as (m0 & Hm0 & Hs). destruct (Hpres _ _ _ Hm0) as (m1 & ? & ?).
  exists m1. split; [done|]. eapply Z.le_trans; [|exact Hs]. apply Z.pow_le_mono_r; lia.
Qed.

Lemma size_ok i : 0 <= i < N uf ->
  exists uf', UF_size uf i = Ok (uf', cnt (N uf) (fun j => root j = root i)) /\ uf_rep uf' root.
Proof.
  intros Hi. destruct (find_ok i Hi) as (uf' & E & Hrep' & HN & Hs & _). unfold UF_size. rewrite E.
  cbn [mbind res_bind]. destruct (rep_root_root i Hi) as [Hr _].
  rewrite Hs, aget_nthZ by (rewrite (rep_len_sizes _ _ Hrep); done).
  exists uf'. cbn [mbind res_bind]. by rewrite (rep_size _ _ Hrep) by done.
Qed.

(** The partition after linking the class of [l] to [w]. *)
Definition link_root (l w : Z) (j : Z) : Z := if decide (root j = l) then w else root j.

Lemma link_ok l w : 0 <= l < N uf -> 0 <= w < N uf -> root l = l -> root w = w -> l <> w ->
  nthZ (cluster_sizes uf) l <= nthZ (cluster_sizes uf) w ->
  exists uf', link uf l w = Ok uf' /\ uf_rep uf' (link_root l w) /\ N uf' = N uf.
Proof.
  intros Hl Hw El Ew Hne Hsz. pose proof Hrep as [HN HL HLs Hreach Hsize Hnum].
  assert (forall k, 0 <= k < N uf -> root k = k -> nthZ (clusters uf) k = k) as Hroot.
  { intros k Hk Ek. destruct (Hreach k Hk) as (n & Hn & _). rewrite Ek in Hn.
    by destruct (reach_range _ _ _ _ Hn) as (_ & _ & ?). }
  unfold link. run_arrays.
  eexists. split; [reflexivity|]. split; [|done]. rewrite (Hroot w) by done.
  assert (nthZ (cluster_sizes uf) w + nthZ (cluster_sizes uf) l = cnt (N uf) (fun j => link_root l w j = w)) as Hsum.
  { rewrite !Hsize by done. symmetry. apply cnt_disjoint; [|congruence]. intros j Hj.
    unfold link_root. case_decide; naive_solver. }
  pose proof (cnt_le (N uf) (fun j => link_root l w j = w) ltac:(lia)).
  assert (cnt (N uf) (fun i => root i = i) = cnt (N uf) (fun i => link_root l w i = i) + cnt (N uf) (fun i => i = l)) as Hcl.
  { apply cnt_disjoint; unfold link_root; intros x; intros; case_decide; naive_solver. }
  rewrite (cnt_single _ l) in Hcl by done.
  pose proof (cnt_le (N uf) (fun i => root i = i) ltac:(lia)).
  pose proof (cnt_le (N uf) (fun i => link_root l w i = i) ltac:(lia)). unfold is_u in HN.
  rewrite !wrapu_small by (unfold is_u; lia). split; simpl; rewrite ?length_insert; try done; [|  |lia].
  - intros i Hi. destruct (Hreach i Hi) as (n & Hn & Hs). destruct (rep_root_root i Hi) as [Hr _].
    pose proof (reach_link (clusters uf) l w i (root i) n) as Hlk. unfold link_root.
    destruct (decide (root i = l)) as [Ei|Ei]; eexists; (split; [apply Hlk; auto; lia|]);
      rewrite !nthZ_insert by (rewrite ?length_insert; lia).
    + rewrite decide_False, decide_True by done. rewrite Nat2Z.inj_succ, Z.pow_succ_r by lia. rewrite Ei in Hs. lia.
    + rewrite decide_False by done. pose proof (cnt_le (N uf) (fun j => root j = l) ltac:(lia)).
      rewrite (Hsize l) by done. case_decide as Hc; [rewrite <- Hc in Hs|]; lia.
  - intros i Hi. rewrite !nthZ_insert by (rewrite ?length_insert; lia).
    repeat case_decide; subst; [|done|].
    + symmetry. apply cnt_false. intros x Hx. unfold link_root. case_decide; naive_solver.
    + rewrite Hsize by done. apply cnt_ext. intros x Hx. unfold link_root. case_decide; naive_solver.
Qed.
End Rep.

(** The abstract union: the class with more members absorbs the other one, the
    smaller representative winning a tie. *)
Definition union_root (n : Z) (root : Z -> Z) (i j : Z) : Z -> Z :=
  let a := root i in let b := root j in
  let sa := cnt n (fun k => root k = a) in let sb := cnt n (fun k => root k = b) in
  if decide (a = b) then root
  else if decide (sa < sb \/ (sa = sb /\ b < a)) then link_root root a b
  else link_root root b a.

Lemma union_ok uf root i j : uf_rep uf root -> 0 <= i < N uf -> 0 <= j < N uf ->
  exists uf', UF_union uf i j = Ok uf' /\ uf_rep uf' (union_root (N uf) root i j) /\ N uf' = N uf.
Proof.
  intros Hrep Hi Hj. unfold UF_union.
  destruct (find_ok uf root Hrep i Hi) as (uf1 & -> & Hrep1 & HN1 & Hs1 & _). cbn [mbind res_bind].
  destruct (find_ok uf1 root Hrep1 j) as (uf2 & -> & Hrep2 & HN2 & Hs2 & _); [lia|]. cbn [mbind res_bind].
  destruct (rep_root_root _ _ Hrep i Hi) as [Ra Ea], (rep_root_root _ _ Hrep j Hj) as [Rb Eb].
  pose proof (rep_len_sizes _ _ Hrep2). unfold union_root.
  destruct (Z.eqb_spec (root i) (root j)) as [E|Hne].
  { rewrite decide_True by done. exists uf2. split_and!; [done..|lia]. }
  rewrite decide_False by done. run_arrays.
  rewrite <- !(rep_size _ _ Hrep), <- Hs1, <- Hs2 by done.
  set (sa := nthZ _ (root i)). set (sb := nthZ _ (root j)).
  destruct (decide (sa < sb \/ sa = sb /\ root j < root i)) as [D|D].
  - replace ((sa <? sb) || (sa =? sb) && (root j <? root i)) with true
      by (repeat zcase; simpl; (done || lia)).
    destruct (link_ok uf2 root Hrep2 (root i) (root j)) as (uf' & -> & ? & ?); try done; lia || eauto.
    exists uf'. split_and!; [done..|lia].
  - replace ((sa <? sb) || (sa =? sb) && (root j <? root i)) with false
      by (repeat zcase; simpl; (done || lia)).
    destruct (link_ok uf2 root Hrep2 (root j) (root i)) as (uf' & -> & ? & ?); try done; lia || eauto.
    exists uf'. split_and!; [done..|lia].
Qed.

Lemma union_root_merges n root i j x y :
  union_root n root i j x = union_root n root i j y <->
  root x = root y \/ (root x = root i /\ root y = root j) \/ (root x = root j /\ root y = root i).
Proof. unfold union_root, link_root. repeat case_decide; intuition congruence. Qed.

Lemma create_rep n : is_u 32 n -> uf_rep (UF_create n) (fun i => i).
Proof.
  intros Hn. unfold is_u in Hn. split; simpl.
  - done.
  - rewrite length_seqZ. lia.
  - rewrite length_replicate. lia.
  - intros i Hi. exists 0%nat. unfold nthZ. rewrite nth_lookup, lookup_replicate_2 by lia. split; [|done].
    constructor; rewrite ?length_seqZ; [lia|]. unfold nthZ. rewrite nth_lookup.
    rewrite (proj2 (lookup_seqZ 0 n (Z.to_nat i) i)); [done|lia].
  - intros i Hi. unfold nthZ. rewrite nth_lookup, lookup_replicate_2 by lia. by rewrite cnt_single.
  - unfold cnt. rewrite (list_filter_iff _ (fun _ => True)) by done.
    replace (filter _ _) with (seqZ 0 n); [rewrite length_seqZ; lia|].
    induction (seqZ 0 n) as [|x l IH]; [done|]. rewrite filter_cons, decide_True by done. by f_equal.
Qed.

(** *** Connected components *)

Definition edge (edges : list (Z * Z)) (x y : Z) : Prop := (x, y) ∈ edges.
Definition connected (edges : list (Z * Z)) : Z -> Z -> Prop := rtsc (edge edges).
Definition edges_in (n : Z) (edges : list (Z * Z)) : Prop :=
  Forall (fun e => 0 <= e.1 < n /\ 0 <= e.2 < n) edges.

Lemma connected_app_edge E a b n root :
  (forall x y, 0 <= x < n -> 0 <= y < n -> root x = root y <-> connected E x y) ->
  edges_in n E -> 0 <= a < n -> 0 <= b < n ->
  forall x y, 0 <= x < n -> 0 <= y < n ->
    union_root n root a b x = union_root n root a b y <-> connected (E ++ [(a, b)]) x y.
Proof.
  intros Hroot HE Ha Hb x y Hx Hy.
  assert (forall u v, connected E u v -> connected (E ++ [(a, b)]) u v) as Hmono.
  { intros u v. apply rtc_subrel. intros p q [H|H]; [left|right]; unfold edge in *; set_solver. }
  assert (connected (E ++ [(a, b)]) a b) as Hab by (apply rtc_once; left; unfold edge; set_solver).
  assert (connected (E ++ [(a, b)]) b a) as Hba by (apply rtc_once; right; unfold edge; set_solver).
  split.
  - rewrite union_root_merges. intros [H|[[H1 H2]|[H1 H2]]].
    + by apply Hmono, Hroot.
    + apply Hroot in H1; [|done..]. symmetry in H2. apply Hroot in H2; [|done..].
      etrans; [by apply Hmono|]. etrans; [exact Hab|by apply Hmono].
    + apply Hroot in H1; [|done..]. symmetry in H2. apply Hroot in H2; [|done..].
      etrans; [by apply Hmono|]. etrans; [exact Hba|by apply Hmono].
  - assert (forall u v, edge (E ++ [(a, b)]) u v -> (0 <= u < n /\ 0 <= v < n) /\
      union_root n root a b u = union_root n root a b v) as Hedge.
    { intros u v [H|H]%elem_of_app.
      - assert (0 <= u < n /\ 0 <= v < n) as [??] by (by apply (proj1 (Forall_forall _ _) HE (u, v))).
        split; [done|]. apply union_root_merges. left. apply Hroot; [done..|]. apply rtc_once. by left.
      - apply list_elem_of_singleton in H. simplify_eq. split; [done|]. apply union_root_merges. tauto. }
    induction 1 as [|u v w [H|H] Hvw IH]; [done|..]; destruct (Hedge _ _ H) as [[??] E'];
      [rewrite E'|rewrite <- E']; auto.
Qed.

Lemma unions_ok edges : forall uf root E,
  uf_rep uf root -> edges_in (N uf) E -> edges_in (N uf) edges ->
  (forall x y, 0 <= x < N uf -> 0 <= y < N uf -> root x = root y <-> connected E x y) ->
  exists uf' root', UF_unions uf edges = Ok uf' /\ uf_rep uf' root' /\ N uf' = N uf /\
    forall x y, 0 <= x < N uf -> 0 <= y < N uf -> root' x = root' y <-> connected (E ++ edges) x y.
Proof.
  induction edges as [|[a b] edges IH]; intros uf root E Hrep HE Hin Hroot.
  { exists uf, root. rewrite app_nil_r. done. }
  inversion_clear Hin as [|?? [Ha Hb] Hin']. simpl in *.
  destruct (union_ok uf root a b Hrep Ha Hb) as (uf1 & -> & Hrep1 & HN1). cbn [mbind res_bind].
  destruct (IH uf1 _ (E ++ [(a, b)]) Hrep1) as (uf' & root' & -> & Hrep' & HN' & Hconn).
  - rewrite HN1. apply Forall_app. split; [done|]. by apply Forall_singleton.
  - by rewrite HN1.
  - rewrite HN1. by apply connected_app_edge.
  - exists uf', root'. rewrite HN1 in *. split_and!; [done..|lia|]. by rewrite <- app_assoc in Hconn.
Qed.

(** ** Listing and renumbering *)

Lemma find_all_ok elems : forall uf root, uf_rep uf root -> Forall (fun i => 0 <= i < N uf) elems ->
  exists uf', find_all uf elems = Ok uf' /\ uf_rep uf' root /\ N uf' = N uf /\
    forall i, 0 <= i < N uf -> (i ∈ elems \/ nthZ (clusters uf) i = root i) -> nthZ (clusters uf') i = root i.
Proof.
  induction elems as [|i elems IH]; intros uf root Hrep Hin.
  { exists uf. split_and!; try done. set_solver. }
  inversion_clear Hin as [|?? Hi Hin']. simpl.
  destruct (find_ok uf root Hrep i Hi) as (uf1 & -> & Hrep1 & HN1 & _ & _ & Hi1 & Hflat). cbn [mbind res_bind].
  destruct (IH uf1 root Hrep1) as (uf' & -> & Hrep' & HN' & Hall); [by rewrite HN1|].
  exists uf'. split_and!; [done..|lia|]. intros k Hk Hor. apply Hall; [lia|].
  destruct Hor as [[->|Hk']%elem_of_cons|Hk']; [by right|by left|right; by apply Hflat].
Qed.

Section Collapse.
Context (qsort : qsort_fn).
(** What the code relies on: the result is a permutation of the array, in ascending
    order of any key the comparator orders by.  The comparator used here breaks ties by
    the current slots of the elements, so nothing is assumed about the order of ties. *)
Definition key_comparator (key : Z -> Z) (cmp : Z * Z -> Z * Z -> Z) : Prop :=
  forall s t x y, (key x < key y -> cmp (s, x) (t, y) < 0) /\ (key y < key x -> 0 < cmp (s, x) (t, y)).
Definition qsort_spec : Prop := forall cmp l,
  qsort cmp l ≡ₚ l /\
  forall key, key_comparator key cmp -> StronglySorted (fun x y => key x <= key y) (qsort cmp l).
Context (Hqsort : qsort_spec).

Lemma cmp_int_ptr_key cl : key_comparator (nthZ cl) (cmp_int_ptr cl).
Proof. intros s t x y. unfold cmp_int_ptr, cmp_int. simpl. repeat zcase; simpl; lia. Qed.

Lemma ordered_ok uf root : uf_rep uf root ->
  exists uf' o, UF_ordered_by_cluster qsort uf = Ok (uf', o) /\ uf_rep uf' root /\ N uf' = N uf /\
    o ≡ₚ seqZ 0 (N uf) /\ StronglySorted (fun x y => root x <= root y) o.
Proof.
  intros Hrep. unfold UF_ordered_by_cluster.
  destruct (find_all_ok (seqZ 0 (N uf)) uf root Hrep) as (uf' & -> & Hrep' & HN & Hflat).
  { apply Forall_seqZ. lia. }
  cbn [mbind res_bind]. rewrite HN. destruct (Hqsort (cmp_int_ptr (clusters uf')) (seqZ 0 (N uf))) as [Hp Hs].
  eexists uf', _. split_and!; [done..|]. specialize (Hs _ (cmp_int_ptr_key _)).
  assert (forall x, x ∈ qsort (cmp_int_ptr (clusters uf')) (seqZ 0 (N uf)) -> nthZ (clusters uf') x = root x) as Heq.
  { intros x Hx. rewrite Hp in Hx. apply elem_of_seqZ in Hx. apply Hflat; [lia|]. left. apply elem_of_seqZ. lia. }
  clear -Hs Heq. induction Hs as [|x l Hs IH Hx]; constructor.
  - apply IH. intros. apply Heq. set_solver.
  - rewrite Forall_forall in *. intros y Hy. rewrite <- !Heq by set_solver. auto.
Qed.

(** *** Renumbering

    The number a class receives: how many classes with a flagged member have a
    smaller representative. *)
Section Renumber.
Context (fl : option (list bool)) (n : Z) (root : Z -> Z).
Definition members : list Z := filter (fun j => in_cluster fl j = true) (seqZ 0 n).
Definition class_rank (r : Z) : Z := cnt n (fun q => q < r /\ q ∈ (root <$> members)).

Lemma class_rank_mono r r' : 0 <= r < n -> r < r' -> r ∈ (root <$> members) ->
  (forall y, y ∈ members -> root y <= r \/ r' <= root y) -> class_rank r' = class_rank r + 1.
Proof.
  intros Hr Hlt Hin Hgap. unfold class_rank. rewrite <- (cnt_single n r) by done.
  apply cnt_disjoint; [|lia]. intros q Hq. split.
  - intros [? Hm]. destruct (decide (q = r)); [by right|left]. split; [|done].
    apply list_elem_of_fmap in Hm as (y & -> & Hy). specialize (Hgap y Hy). lia.
  - intros [[? ?]| ->]; (split; [lia|done]).
Qed.

Lemma class_rank_first r : (forall y, y ∈ members -> r <= root y) -> class_rank r = 0.
Proof.
  intros Hmin. apply cnt_false. intros q Hq [Hlt Hm].
  apply list_elem_of_fmap in Hm as (y & -> & Hy). specialize (Hmin y Hy). lia.
Qed.

Lemma class_rank_lt r r' : 0 <= r < n -> r < r' -> r ∈ (root <$> members) -> class_rank r < class_rank r'.
Proof.
  intros Hr Hlt Hin. unfold class_rank.
  rewrite (cnt_disjoint n (fun q => q < r /\ q ∈ (root <$> members))
    (fun q => r <= q < r' /\ q ∈ (root <$> members)) (fun q => q < r' /\ q ∈ (root <$> members)))
    by (intros x; destruct (decide (x < r)); intuition lia).
  pose proof (cnt_pos n (fun q => r <= q < r' /\ q ∈ (root <$> members)) r Hr ltac:(split; [lia|done])). lia.
Qed.

(** What the loop has done when [rest] remains to be processed. *)
Record collapsed (rest : list Z) (st : collapse_state) : Prop := {
  co_ids : length (new_ids st) = Z.to_nat n;
  co_done : forall y, 0 <= y < n -> new_ids st !! Z.to_nat y =
    Some (if decide (y ∈ members /\ y ∉ rest) then Some (class_rank (root y)) else None);
  co_fresh : encountered_cluster st = false ->
    current_new_id st = 0 /\ forall y, y ∈ members -> y ∈ rest;
  co_last : encountered_cluster st = true ->
    0 <= last_old_id st < n /\ last_old_id st ∈ (root <$> members) /\
    current_new_id st = class_rank (last_old_id st) /\
    (forall y, y ∈ rest -> last_old_id st <= root y) /\
    (forall y, y ∈ members -> y ∈ rest \/ root y <= last_old_id st)
}.

Lemma collapsed_skip j rest st :
  in_cluster fl j = false -> collapsed (j :: rest) st -> collapsed rest st.
Proof.
  intros Hj [H1 H2 H3 H4].
  assert (forall y, y ∈ members -> y <> j) as Hne.
  { intros y Hy ->. apply list_elem_of_filter in Hy. naive_solver congruence. }
  split; [done| | |].
  - intros y Hy. rewrite H2 by done. f_equal. specialize (Hne y). repeat case_decide; set_solver.
  - intros E. destruct (H3 E). split; [done|]. intros y Hy. specialize (Hne y Hy). set_solver.
  - intros E. destruct (H4 E) as (? & ? & ? & Ha & Hb). split_and!; [lia..|done|done| |].
    + intros y Hy. apply Ha. set_solver.
    + intros y Hy. specialize (Hne y Hy). specialize (Hb y Hy). set_solver.
Qed.

Definition next_id (st : collapse_state) (r : Z) : Z :=
  let last := if encountered_cluster st then last_old_id st else r in
  if negb (r =? last) then u32 (current_new_id st + 1) else current_new_id st.

Context (Hn : is_u 32 n).

Lemma next_id_rank j rest st :
  j ∈ members -> StronglySorted (fun x y => root x <= root y) (j :: rest) ->
  collapsed (j :: rest) st -> next_id st (root j) = class_rank (root j).
Proof.
  intros Hj Hs [H1 H2 H3 H4]. unfold next_id.
  assert (forall y, y ∈ j :: rest -> root j <= root y) as Hmin.
  { apply StronglySorted_inv in Hs as [_ Hs]. rewrite Forall_forall in Hs.
    intros y [->|Hy]%elem_of_cons; [lia|auto]. }
  destruct (encountered_cluster st) eqn:E.
  - destruct (H4 eq_refl) as (Hl & Hin & Hc & Hge & Hle). specialize (Hge j ltac:(set_solver)).
    zcase; simpl; [congruence|]. rewrite Hc.
    assert (class_rank (root j) = class_rank (last_old_id st) + 1) as Hr.
    { apply class_rank_mono; [done|lia|done|]. intros y Hy. destruct (Hle y Hy); [right|left]; auto. }
    rewrite Hr. apply wrapu_small. unfold is_u in *.
    unfold class_rank in *. pose proof (cnt_le n (fun q => q < root j /\ q ∈ root <$> members)).
    pose proof (cnt_le n (fun q => q < last_old_id st /\ q ∈ root <$> members)). lia.
  - destruct (H3 eq_refl) as [-> Hall]. rewrite Z.eqb_refl. simpl. symmetry. apply class_rank_first. auto.
Qed.

Lemma collapsed_step j rest st :
  j ∈ members -> 0 <= root j < n -> j ∉ rest ->
  StronglySorted (fun x y => root x <= root y) (j :: rest) -> collapsed (j :: rest) st ->
  collapsed rest {| new_ids := <[Z.to_nat j := Some (next_id st (root j))]> (new_ids st);
    current_new_id := next_id st (root j); last_old_id := root j; encountered_cluster := true |}.
Proof.
  intros Hj Hr Hnin Hs Hco. rewrite (next_id_rank j rest st) by done. destruct Hco as [H1 H2 H3 H4].
  assert (0 <= j < n) as Hjn by (apply list_elem_of_filter in Hj as [_ Hj%elem_of_seqZ]; lia).
  split; simpl.
  - by rewrite length_insert.
  - intros y Hy. destruct (decide (y = j)) as [->|Hne].
    + rewrite list_lookup_insert_eq by lia. by rewrite decide_True.
    + rewrite list_lookup_insert_ne, H2 by lia. f_equal. repeat case_decide; set_solver.
  - done.
  - intros _. apply StronglySorted_inv in Hs as [_ Hs]. rewrite Forall_forall in Hs. split_and!; [lia..| |done| |].
    + by apply list_elem_of_fmap_2.
    + auto.
    + intros y Hy. destruct (decide (y = j)) as [->|]; [right; lia|].
      destruct (encountered_cluster st) eqn:E.
      * destruct (H4 eq_refl) as (_ & _ & _ & Hge & Hle). specialize (Hge j ltac:(set_solver)).
        destruct (Hle y Hy) as [Hin|]; [left; set_solver|right; lia].
      * destruct (H3 eq_refl) as [_ Hall]. left. specialize (Hall y Hy). set_solver.
Qed.

Lemma collapse_loop_ok rest : forall uf st,
  uf_rep uf root -> N uf = n -> NoDup rest -> Forall (fun j => 0 <= j < n) rest ->
  StronglySorted (fun x y => root x <= root y) rest -> collapsed rest st ->
  exists uf' st', collapse_loop uf fl rest st = Ok (uf', st') /\ uf_rep uf' root /\ collapsed [] st'.
Proof.
  induction rest as [|j rest IH]; intros uf st Hrep HN Hnd Hin Hs Hco.
  { by exists uf, st. }
  inversion_clear Hnd as [|?? Hnin Hnd']. inversion_clear Hin as [|?? Hj Hin'].
  pose proof (StronglySorted_inv Hs) as [Hs' _]. simpl.
  destruct (in_cluster fl j) eqn:Hf; [|apply IH; eauto using collapsed_skip].
  destruct (find_ok uf root Hrep j) as (uf1 & -> & Hrep1 & HN1 & _); [lia|]. cbn [mbind res_bind].
  fold (next_id st (root j)). pose proof (co_ids _ _ Hco) as Hlen. rewrite aset_Ok by lia. cbn [mbind res_bind].
  apply IH; try done; [lia|]. apply collapsed_step; try done.
  - apply list_elem_of_filter. split; [done|]. apply elem_of_seqZ. lia.
  - rewrite <- HN. apply (rep_root_root uf root Hrep). lia.
Qed.
End Renumber.

Lemma collapsed_ids_ok uf root fl : uf_rep uf root ->
  exists uf' ids, UF_get_collapsed_cluster_ids qsort uf fl = Ok (uf', ids) /\ uf_rep uf' root /\
    length ids = Z.to_nat (N uf) /\
    forall y, 0 <= y < N uf -> ids !! Z.to_nat y =
      Some (if in_cluster fl y then Some (class_rank fl (N uf) root (root y)) else None).
Proof.
  intros Hrep. unfold UF_get_collapsed_cluster_ids.
  destruct (ordered_ok uf root Hrep) as (uf1 & o & -> & Hrep1 & HN & Hp & Hs). cbn [mbind res_bind].
  rewrite HN.
  destruct (collapse_loop_ok fl (N uf) root ltac:(apply Hrep) o uf1 {| new_ids := replicate (Z.to_nat (N uf)) None; current_new_id := 0;
       last_old_id := 0; encountered_cluster := false |}) as (uf' & st' & -> & Hrep' & [H1 H2 _ _]); try done.
  - rewrite Hp. apply NoDup_seqZ.
  - rewrite Hp. apply Forall_seqZ. lia.
  - split; simpl.
    + by rewrite length_replicate.
    + intros y Hy. rewrite lookup_replicate_2 by lia. rewrite decide_False; [done|]. intros [_ Hnin]. apply Hnin.
      rewrite Hp. apply elem_of_seqZ. lia.
    + intros _. split; [done|]. intros y [_ Hy]%list_elem_of_filter. by rewrite Hp.
    + done.
  - exists uf', (new_ids st'). split_and!; [done..|]. intros y Hy. rewrite H2 by done. f_equal.
    destruct (in_cluster fl y) eqn:Hf.
    + rewrite decide_True; [done|]. split; [|set_solver]. apply list_elem_of_filter.
      split; [done|]. apply elem_of_seqZ. lia.
    + rewrite decide_False; [done|]. intros [Hm _]. apply list_elem_of_filter in Hm. naive_solver congruence.
Qed.
End Collapse.

(** ** Properties *)

(** C40. Starting from [UF_create n] and joining pairs of elements with [UF_union],
    the structure computes connected components: two elements have the same
    [UF_find] result exactly when the pairs connect them, [UF_size] is the number of
    elements of the component, representatives are their own representatives and
    [num_clusters] counts them.  No step runs out of fuel or leaves the arrays. *)
Theorem uf_components n edges : is_u 32 n -> edges_in n edges ->
  exists uf root, UF_unions (UF_create n) edges = Ok uf /\
    (forall i, 0 <= i < n -> exists uf', UF_find uf i = Ok (uf', root i)) /\
    (forall i j, 0 <= i < n -> 0 <= j < n -> root i = root j <-> connected edges i j) /\
    (forall i, 0 <= i < n -> 0 <= root i < n /\ root (root i) = root i) /\
    (forall i, 0 <= i < n -> exists uf', UF_size uf i = Ok (uf', cnt n (fun j => root j = root i))) /\
    num_clusters uf = cnt n (fun i => root i = i).
Proof.
  intros Hn He.
  destruct (unions_ok edges (UF_create n) (fun i => i) [] (create_rep n Hn)) as (uf & root & E & Hrep & HN & Hc).
  - by constructor.
  - done.
  - intros x y _ _. split; [intros ->; constructor|]. intros H. induction H as [|x y z [H|H]]; [done| |]; by inversion H.
  - simpl in *. exists uf, root. split_and!; [done| |done| | |rewrite <- HN; apply Hrep].
    + intros i Hi. destruct (find_ok uf root Hrep i) as (uf' & ? & _); [lia|]. by exists uf'.
    + rewrite <- HN. by apply rep_root_root.
    + intros i Hi. destruct (size_ok uf root Hrep i) as (uf' & Hs & _); [lia|]. rewrite HN in Hs. by exists uf'.
Qed.

Lemma uf_components_witness :
  exists uf (root : Z -> Z), UF_unions (UF_create 5) [(0, 1); (2, 3); (3, 1)] = Ok uf /\ root 0 = root 2 /\ root 0 <> root 4.
Proof.
  destruct (uf_components 5 [(0, 1); (2, 3); (3, 1)]) as (uf & root & E & Hf & _);
    [unfold is_u; lia|unfold edges_in; repeat constructor; simpl; lia|].
  exists uf, root. split; [exact E|]. vm_compute in E. injection E as <-.
  destruct (Hf 0 ltac:(lia)) as [u0 H0]. destruct (Hf 2 ltac:(lia)) as [u2 H2]. destruct (Hf 4 ltac:(lia)) as [u4 H4].
  vm_compute in H0, H2, H4. injection H0 as _ <-. injection H2 as _ <-. injection H4 as _ <-. lia.
Defined.

(** The operations on a well-formed forest: [UF_find] returns the representative,
    leaves the partition, the sizes and the count alone and links the element directly
    to its root; [UF_size] returns the size of the class; [UF_union] merges the two
    classes under the representative of the larger one (the smaller index on a tie)
    and decrements the count exactly when the classes differed. *)
Theorem uf_operations uf root i j : uf_rep uf root -> 0 <= i < N uf -> 0 <= j < N uf ->
  (exists uf', UF_find uf i = Ok (uf', root i) /\ uf_rep uf' root /\ nthZ (clusters uf') i = root i /\
     cluster_sizes uf' = cluster_sizes uf /\ num_clusters uf' = num_clusters uf) /\
  (exists uf', UF_size uf i = Ok (uf', cnt (N uf) (fun k => root k = root i)) /\ uf_rep uf' root) /\
  (exists uf', UF_union uf i j = Ok uf' /\ uf_rep uf' (union_root (N uf) root i j) /\
     num_clusters uf' = num_clusters uf - (if decide (root i = root j) then 0 else 1)).
Proof.
  intros Hrep Hi Hj. split_and!.
  - destruct (find_ok uf root Hrep i Hi) as (uf' & ? & ? & ? & ? & ? & ? & _). by exists uf'.
  - by apply size_ok.
  - destruct (union_ok uf root i j Hrep Hi Hj) as (uf' & E & Hrep' & HN). exists uf'. split_and!; [done..|].
    rewrite (rep_num _ _ Hrep'), (rep_num _ _ Hrep), HN.
    destruct (rep_root_root _ _ Hrep i Hi) as [Ra Ea], (rep_root_root _ _ Hrep j Hj) as [Rb Eb].
    destruct (decide (root i = root j)) as [Eq|Hne]; [unfold union_root; rewrite decide_True by done; lia|].
    assert (forall l w, 0 <= l < N uf -> root l = l -> root w = w -> l <> w ->
      cnt (N uf) (fun k => root k = k) = cnt (N uf) (fun k => link_root root l w k = k) + 1) as Hcnt.
    { intros l w Hl El Ew Hlw. rewrite <- (cnt_single (N uf) l) by done.
      apply cnt_disjoint; unfold link_root; intros x; intros; case_decide; naive_solver. }
    unfold union_root. rewrite decide_False by done. case_decide.
    + rewrite (Hcnt (root i) (root j)); (done || lia).
    + rewrite (Hcnt (root j) (root i)); (done || lia).
Qed.

Lemma uf_operations_witness :
  exists uf', UF_union (UF_create 4) 1 3 = Ok uf' /\ uf_rep uf' (union_root 4 (fun i => i) 1 3) /\ num_clusters uf' = 3.
Proof.
  destruct (uf_operations (UF_create 4) (fun i => i) 1 3) as (_ & _ & H);
    [apply create_rep; unfold is_u; lia|simpl; lia..|]. exact H.
Defined.

(** Union by size keeps the forest shallow: [log2 N + 1] iterations of the search
    loop of [UF_find] always reach the root, so at most 32 whatever the input. *)
Theorem uf_find_logarithmic uf root i f : uf_rep uf root -> 0 <= i < N uf ->
  Z.log2 (N uf) < Z.of_nat f -> find_base_loop f (clusters uf) i = Ok (root i).
Proof.
  intros Hrep Hi Hf. destruct (rep_reach _ _ Hrep i Hi) as (n & Hn & _).
  apply (find_base_ok _ _ _ n); [done|]. pose proof (rep_depth _ _ Hrep i n Hi Hn) as Hd.
  apply Z.log2_le_pow2 in Hd; lia.
Qed.

Lemma uf_find_logarithmic_witness : find_base_loop 3 (clusters (UF_create 7)) 5 = Ok 5.
Proof.
  apply (uf_find_logarithmic (UF_create 7) (fun i => i) 5 3);
    [apply create_rep; unfold is_u; lia|simpl; lia|vm_compute; reflexivity].
Defined.

(** For any [qsort] that sorts by the key a comparator orders by:
    [UF_ordered_by_cluster] lists every element once with the classes contiguous, in
    the order of their representatives, and [UF_get_collapsed_cluster_ids] gives every
    flagged element the number of flagged classes with a smaller representative, so
    that two flagged elements get the same number exactly when they are in one class;
    unflagged elements get none. *)
Theorem uf_collapsed_ids qsort uf root fl : qsort_spec qsort -> uf_rep uf root ->
  (exists uf' o, UF_ordered_by_cluster qsort uf = Ok (uf', o) /\ uf_rep uf' root /\
     o ≡ₚ seqZ 0 (N uf) /\ StronglySorted (fun x y => root x <= root y) o) /\
  exists uf' ids, UF_get_collapsed_cluster_ids qsort uf fl = Ok (uf', ids) /\ uf_rep uf' root /\
    (forall y, 0 <= y < N uf -> ids !! Z.to_nat y =
       Some (if in_cluster fl y then Some (class_rank fl (N uf) root (root y)) else None)) /\
    (forall x y, 0 <= x < N uf -> 0 <= y < N uf -> in_cluster fl x = true -> in_cluster fl y = true ->
       ids !! Z.to_nat x = ids !! Z.to_nat y <-> root x = root y).
Proof.
  intros Hq Hrep. split.
  { destruct (ordered_ok qsort Hq uf root Hrep) as (uf' & o & ? & ? & _ & ? & ?). by exists uf', o. }
  destruct (collapsed_ids_ok qsort Hq uf root fl Hrep) as (uf' & ids & ? & ? & _ & Hids).
  exists uf', ids. split_and!; [done..|]. intros x y Hx Hy Fx Fy. rewrite !Hids, Fx, Fy by done.
  assert (forall z, 0 <= z < N uf -> in_cluster fl z = true ->
    0 <= root z < N uf /\ root z ∈ (root <$> members fl (N uf))) as Hin.
  { intros z Hz Fz. split; [by apply rep_root_root|]. apply list_elem_of_fmap_2, list_elem_of_filter.
    split; [done|]. apply elem_of_seqZ. lia. }
  destruct (Hin x Hx Fx) as [Rx Ix], (Hin y Hy Fy) as [Ry Iy]. split; [|congruence]. intros E. simplify_eq.
  destruct (Z.lt_trichotomy (root x) (root y)) as [Hlt|[?|Hlt]]; [exfalso|done|exfalso].
  - pose proof (class_rank_lt fl (N uf) root _ _ Rx Hlt Ix). lia.
  - pose proof (class_rank_lt fl (N uf) root _ _ Ry Hlt Iy). lia.
Qed.

(** An insertion sort that meets the requirement on [qsort]. *)
Fixpoint ins (cmp : Z * Z -> Z * Z -> Z) (x : Z) (l : list Z) : list Z :=
  match l with
  | [] => [x]
  | y :: l' => if cmp (0, x) (0, y) <=? 0 then x :: l else y :: ins cmp x l'
  end.
Definition isort (cmp : Z * Z -> Z * Z -> Z) (l : list Z) : list Z := foldr (ins cmp) [] l.

Lemma ins_perm cmp x l : ins cmp x l ≡ₚ x :: l.
Proof. induction l as [|y l IH]; simpl; [done|]. zcase; [done|]. rewrite IH. apply perm_swap. Qed.

Lemma isort_spec : qsort_spec isort.
Proof.
  intros cmp l. split.
  - induction l as [|x l IH]; simpl; [done|]. by rewrite ins_perm, IH.
  - intros key Hk. induction l as [|x l IH]; simpl; [constructor|].
    induction IH as [|y l' Hs IH Hy]; simpl; [repeat constructor|].
    destruct (Hk 0 0 x y) as [H1 H2]. destruct (Z.leb_spec (cmp (0, x) (0, y)) 0).
    + constructor; [by constructor|]. rewrite Forall_forall in Hy |- *.
      intros z [->|Hz]%elem_of_cons; [lia|]. specialize (Hy z Hz). lia.
    + constructor; [done|]. rewrite ins_perm. constructor; [lia|done].
Qed.

Lemma uf_collapsed_ids_witness :
  exists uf' ids, UF_get_collapsed_cluster_ids isort (UF_create 4) (Some [true; false; true; true]) = Ok (uf', ids) /\
    ids !! 2%nat = Some (Some 1).
Proof.
  destruct (uf_collapsed_ids isort (UF_create 4) (fun i => i) (Some [true; false; true; true]))
    as (_ & uf' & ids & E & _ & Hids & _); [exact isort_spec|apply create_rep; unfold is_u; lia|].
  exists uf', ids. split; [exact E|]. exact (Hids 2 ltac:(simpl; lia)).
Defined.
