(* ===== verification/GinPosting.v ===== *)
(** Compressed posting lists of GIN indexes: [src/backend/access/gin/ginpostinglist.c] with
    [access/ginblock.h].

    A posting list is stored in bytes: its first item pointer in full, the number of
    bytes that follow, and the differences of the others in a variable-byte code.  The
    functions work on byte arrays ([ByteMem]) with positions for pointers; an access outside
    an array is [Undef]. *)
From S2P Require Import Prelude ByteMem.

(** ** Item pointers *)
Record ItemPointerData := mkItemPointer { ip_blkid : Z; ip_posid : Z }.
#[export] Instance ItemPointerData_eq_dec : EqDecision ItemPointerData.
Proof. solve_decision. Defined.

Definition SizeOfItemPointerData : Z := 6.
(** The block number is stored in two halves, the high one first. *)
Definition load_itemptr (mem : list Z) (a : Z) : res ItemPointerData :=
  if in_object mem a SizeOfItemPointerData then Ok (mkItemPointer (get16 mem a * 65536 + get16 mem (a + 2)) (get16 mem (a + 4))) else Undef.
Definition store_itemptr (mem : list Z) (a : Z) (ip : ItemPointerData) : res (list Z) :=
  if in_object mem a SizeOfItemPointerData
  then Ok (put16 (put16 (put16 mem a (Z.shiftr (ip_blkid ip) 16)) (a + 2) (Z.land (ip_blkid ip) 65535)) (a + 4) (ip_posid ip)) else Undef.

Definition ginCompareItemPointers (a b : ItemPointerData) : Z :=
  let ia := Z.lor (Z.shiftl (ip_blkid a) 32) (ip_posid a) in
  let ib := Z.lor (Z.shiftl (ip_blkid b) 32) (ip_posid b) in
  if ia =? ib then 0 else if ib <? ia then 1 else -1.

Definition MaxHeapTuplesPerPageBits : Z := 11.
Definition MaxBytesPerInteger : Z := 7.

Definition itemptr_to_uint64 (iptr : ItemPointerData) : Z :=
  Z.lor (wrapu 64 (Z.shiftl (ip_blkid iptr) MaxHeapTuplesPerPageBits)) (ip_posid iptr).
Definition uint64_to_itemptr (val : Z) : ItemPointerData :=
  mkItemPointer (wrapu 32 (Z.shiftr val MaxHeapTuplesPerPageBits)) (Z.land val (Z.shiftl 1 MaxHeapTuplesPerPageBits - 1)).

(** ** The variable-byte code *)
Definition store8 (mem : list Z) (a v : Z) : res (list Z) := aset mem a (wrapu 8 v).

Fixpoint encode_loop (fuel : nat) (val : Z) (mem : list Z) (p : Z) : res (list Z * Z) :=
  match fuel with
  | O => OutOfFuel
  | S fuel =>
    if 127 <? val then
      mem ← store8 mem p (Z.lor 128 (Z.land val 127));
      encode_loop fuel (Z.shiftr val 7) mem (p + 1)
    else
      mem ← store8 mem p val;
      Ok (mem, p + 1)
  end.
Definition encode_varbyte (val : Z) (mem : list Z) (ptr : Z) : res (list Z * Z) := encode_loop 10 val mem ptr.

(** The nested conditionals of the source: the bytes from the one shifted by [shift] on, of
    which [more] may have a continuation bit. *)
Fixpoint decode_bytes (more : nat) (shift val : Z) (mem : list Z) (p : Z) : res (Z * Z) :=
  c ← aget mem p;
  match more with
  | O => Ok (Z.lor val (wrapu 64 (Z.shiftl c shift)), p + 1)
  | S more =>
    let val := Z.lor val (wrapu 64 (Z.shiftl (Z.land c 127) shift)) in
    if negb (Z.land c 128 =? 0) then decode_bytes more (shift + 7) val mem (p + 1) else Ok (val, p + 1)
  end.
Definition decode_varbyte (mem : list Z) (ptr : Z) : res (Z * Z) := decode_bytes 6 0 0 mem ptr.

(** ** Compression *)
Definition SHORTALIGN (x : Z) : Z := Z.land (x + 1) (notu 64 1).
Definition SHORTALIGN_DOWN (x : Z) : Z := Z.land x (notu 64 1).
(** [offsetof(GinPostingList, bytes)]. *)
Definition OffsetOfBytes : Z := 8.
Definition nbytes (mem : list Z) (segment : Z) : Z := get16 mem (segment + 6).
Definition SizeOfGinPostingList (mem : list Z) (plist : Z) : Z := OffsetOfBytes + SHORTALIGN (nbytes mem plist).

(** The loop: the items [rest] from number [totalpacked] on; [ptr] and [endptr] are
    positions in the result, [buf] is the uninitialised local buffer. *)
Fixpoint compress_items (rest : list ItemPointerData) (totalpacked : Z) (buf mem : list Z) (prev ptr endptr : Z) : res (list Z * Z * Z) :=
  match rest with
  | [] => Ok (mem, ptr, totalpacked)
  | ip :: rest =>
    let val := itemptr_to_uint64 ip in
    let delta := wrapu 64 (val - prev) in
    if MaxBytesPerInteger <=? endptr - ptr then
      '(mem, ptr) ← encode_varbyte delta mem ptr;
      compress_items rest (totalpacked + 1) buf mem val ptr endptr
    else
      '(buf, p) ← encode_varbyte delta buf 0;
      if endptr - ptr <? p then Ok (mem, ptr, totalpacked)
      else
        mem ← memcpy mem ptr buf 0 p;
        compress_items rest (totalpacked + 1) buf mem val (ptr + p) endptr
  end.

(** The result is the allocated block and the number of items written; [block] is its
    uninitialised content. *)
Definition ginCompressPostingList (ipd : list ItemPointerData) (maxsize : Z) (block buf : list Z) : res (list Z * Z) :=
  let maxsize := SHORTALIGN_DOWN maxsize in
  let result := take (Z.to_nat maxsize) block in
  let maxbytes := maxsize - OffsetOfBytes in
  match ipd with
  | [] => Undef
  | first :: rest =>
    result ← store_itemptr result 0 first;
    '(result, ptr, totalpacked) ← compress_items rest 1 buf result (itemptr_to_uint64 first) OffsetOfBytes (OffsetOfBytes + maxbytes);
    let n := ptr - OffsetOfBytes in
    let result := put16 result 6 (wrapu 16 n) in
    result ← (if negb (nbytes result 0 =? SHORTALIGN (nbytes result 0)) then store8 result (OffsetOfBytes + nbytes result 0) 0 else Ok result);
    Ok (result, totalpacked)
  end.

(** ** Decompression *)
(** The growing array of results: [nallocated] is its capacity. *)
Definition append_item (result : list ItemPointerData) (nallocated : Z) (ip : ItemPointerData) : res (list ItemPointerData * Z) :=
  let nallocated := if nallocated <=? lenZ result then nallocated * 2 else nallocated in
  if lenZ result <? nallocated then Ok (result ++ [ip], nallocated) else Undef.

Fixpoint decode_deltas (fuel : nat) (mem : list Z) (val ptr endptr : Z) (result : list ItemPointerData) (nallocated : Z) : res (list ItemPointerData * Z) :=
  match fuel with
  | O => OutOfFuel
  | S fuel =>
    if ptr <? endptr then
      '(delta, ptr) ← decode_varbyte mem ptr;
      let val := wrapu 64 (val + delta) in
      '(result, nallocated) ← append_item result nallocated (uint64_to_itemptr val);
      decode_deltas fuel mem val ptr endptr result nallocated
    else Ok (result, nallocated)
  end.

Fixpoint decode_segments (fuel : nat) (mem : list Z) (segment endseg : Z) (result : list ItemPointerData) (nallocated : Z) : res (list ItemPointerData) :=
  match fuel with
  | O => OutOfFuel
  | S fuel =>
    if segment <? endseg then
      first ← load_itemptr mem segment;
      '(result, nallocated) ← append_item result nallocated first;
      if in_object mem (segment + 6) 2 then
        let n := nbytes mem segment in
        '(result, nallocated) ← decode_deltas (S (Z.to_nat n)) mem (itemptr_to_uint64 first) (segment + OffsetOfBytes) (segment + OffsetOfBytes + n) result nallocated;
        decode_segments fuel mem (segment + SizeOfGinPostingList mem segment) endseg result nallocated
      else Undef
    else Ok result
  end.

Definition ginPostingListDecodeAllSegments (mem : list Z) (segment len : Z) : res (list ItemPointerData) :=
  if in_object mem (segment + 6) 2
  then decode_segments (S (Z.to_nat len)) mem segment (segment + len) [] (nbytes mem segment * 2 + 1)
  else Undef.
Definition ginPostingListDecode (mem : list Z) (plist : Z) : res (list ItemPointerData) :=
  ginPostingListDecodeAllSegments mem plist (SizeOfGinPostingList mem plist).

(** ** Merging *)
(** The three loops for overlapping arrays. *)
Fixpoint merge_items (a : list ItemPointerData) : list ItemPointerData -> list ItemPointerData :=
  match a with
  | [] => fun b => b
  | x :: a' =>
    fix go b :=
      match b with
      | [] => a
      | y :: b' =>
        let cmp := ginCompareItemPointers x y in
        if 0 <? cmp then y :: go b'
        else if cmp =? 0 then y :: merge_items a' b'
        else x :: merge_items a' b
      end
  end.
Definition ginMergeItemPointers (a b : list ItemPointerData) : list ItemPointerData :=
  match a, b, last a, last b with
  | x :: _, y :: _, Some xl, Some yl =>
    if ginCompareItemPointers xl y <? 0 then a ++ b
    else if ginCompareItemPointers yl x <? 0 then b ++ a
    else merge_items a b
  | _, _, _, _ => a ++ b
  end.
