(* ===== verification/GinCodec.v ===== *)
(** The variable-byte code of posting lists as a list of bytes: what [encode_varbyte] and
    [decode_varbyte] write and read, how long the code of a sum is, and what a segment made by
    [ginCompressPostingList] looks like in memory. *)
From S2P Require Import Prelude ByteMem GinPosting.

(** ** The code as a list of bytes *)
Fixpoint varbytes (fuel : nat) (v : Z) : list Z :=
  match fuel with
  | O => []
  | S fuel => if 127 <? v then (128 + v `mod` 128) :: varbytes fuel (v / 128) else [v]
  end.

Lemma land127 v : Z.land v 127 = v `mod` 128.
Proof. change 127 with (Z.ones 7). by rewrite Z.land_ones. Qed.
Lemma shiftr7 v : Z.shiftr v 7 = v / 128.
Proof. by rewrite Z.shiftr_div_pow2. Qed.

Lemma lor128 v : Z.lor 128 (Z.land v 127) = 128 + v `mod` 128.
Proof.
  rewrite land127, Z.lor_comm. change 128 with (Z.shiftl 1 7) at 2. pose proof (Z.mod_pos_bound v 128). rewrite lor_shiftl_add by (unfold is_u; lia). change (2 ^ 7) with 128. lia.
Qed.

Lemma cont_bit127 c : is_u 8 c -> negb (Z.land c 128 =? 0) = (127 <? c).
Proof. intros Hc. apply eqb_prop. by apply (byte_forall (fun c => Bool.eqb (negb (Z.land c 128 =? 0)) (127 <? c))). Qed.

(** Seven bits less. *)
Lemma div128 f v : 0 <= v < 2 ^ (7 * Z.of_nat (S f)) -> 0 <= v / 128 < 2 ^ (7 * Z.of_nat f) /\ (127 < v -> f <> 0%nat).
Proof.
  intros Hv. assert (Hd : 0 <= v / 128 < 2 ^ (7 * Z.of_nat f)).
  { split; [apply Z.div_pos; lia|]. apply Z.div_lt_upper_bound; [lia|]. replace (7 * Z.of_nat (S f)) with (7 + 7 * Z.of_nat f) in Hv by lia. rewrite Z.pow_add_r in Hv by lia. change (2 ^ 7) with 128 in Hv. lia. }
  split; [done|]. intros H ->. change (2 ^ (7 * Z.of_nat 0)) with 1 in Hd. pose proof (Z.div_str_pos v 128). lia.
Qed.

Lemma varbytes_bytes fuel : forall v, 0 <= v < 2 ^ (7 * Z.of_nat fuel) -> Forall (is_u 8) (varbytes fuel v) /\ (fuel <> 0%nat -> 1 <= lenZ (varbytes fuel v) <= Z.of_nat fuel).
Proof.
  induction fuel as [|fuel IH]; intros v Hv; [by split|]. cbn [varbytes]. destruct (Z.ltb_spec 127 v) as [H|H].
  - destruct (div128 fuel v Hv) as [Hv' Hf].
    destruct (IH _ Hv') as [Hb Hl]. split.
    + constructor; [|done]. pose proof (Z.mod_pos_bound v 128). unfold is_u. lia.
    + intros _. specialize (Hl (Hf H)). unfold lenZ in *. cbn [length]. lia.
  - split; [repeat constructor; unfold is_u; lia|]. intros _. unfold lenZ. cbn [length]. lia.
Qed.

(** The fuel does not matter if it is enough. *)
Lemma varbytes_fuel f1 : forall f2 v, 0 <= v < 2 ^ (7 * Z.of_nat f1) -> 0 <= v < 2 ^ (7 * Z.of_nat f2) -> f1 <> 0%nat -> f2 <> 0%nat -> varbytes f1 v = varbytes f2 v.
Proof.
  induction f1 as [|f1 IH]; intros [|f2] v H1 H2 N1 N2; try done. cbn [varbytes]. destruct (Z.ltb_spec 127 v) as [H|H]; [|done].
  destruct (div128 f1 v H1) as [? Hf1], (div128 f2 v H2) as [? Hf2]. f_equal. apply IH; auto.
Qed.

(** The bytes of a number below 2^64. *)
Definition vb (v : Z) : list Z := varbytes 10 v.
Lemma vb_len v : 0 <= v < 2 ^ 49 -> 1 <= lenZ (vb v) <= 7.
Proof. intros Hv. unfold vb. rewrite (varbytes_fuel 10 7) by (done || (cbn; lia)). by apply varbytes_bytes. Qed.
Lemma vb_bytes v : 0 <= v < 2 ^ 64 -> Forall (is_u 8) (vb v).
Proof. intros Hv. apply varbytes_bytes. cbn. lia. Qed.

(** ** Writing it *)
Lemma splice_insert mem p x bs : 0 <= p -> p + 1 + lenZ bs <= lenZ mem -> splice (<[Z.to_nat p := x]> mem) (p + 1) bs = splice mem p (x :: bs).
Proof.
  intros Hp Hl. pose proof (lenZ_nonneg bs). assert (Hli : lenZ (<[Z.to_nat p := x]> mem) = lenZ mem) by (unfold lenZ; by rewrite length_insert).
  assert (Hlx : lenZ (x :: bs) = 1 + lenZ bs) by (unfold lenZ; cbn [length]; lia). apply list_eq_nthZ; rewrite ?lenZ_splice by lia; [done|]. intros i Hi.
  rewrite Hli in Hi. rewrite !nthZ_splice by lia. rewrite Hlx. destruct (decide (i = p)) as [->|Hne].
  - rewrite decide_False, decide_True by lia. rewrite Z.sub_diag. unfold nthZ. rewrite nth_lookup, list_lookup_insert_eq by (unfold lenZ in *; lia). done.
  - case_decide; [rewrite decide_True by lia|rewrite decide_False by lia].
    + replace (i - p) with (1 + (i - (p + 1))) by lia. unfold nthZ. replace (Z.to_nat (1 + (i - (p + 1)))) with (S (Z.to_nat (i - (p + 1)))) by lia. done.
    + unfold nthZ. rewrite !nth_lookup, list_lookup_insert_ne by lia. done.
Qed.

Lemma splice_nil mem p : splice mem p [] = mem.
Proof. unfold splice. cbn. rewrite Nat.add_0_r. apply take_drop. Qed.

Lemma store8_ok mem p v : 0 <= p < lenZ mem -> is_u 8 v -> store8 mem p v = Ok (<[Z.to_nat p := v]> mem).
Proof. intros Hp Hv. unfold store8. rewrite wrapu_small by done. by apply aset_Ok. Qed.

Lemma encode_loop_ok fuel : forall v mem p, 0 <= v < 2 ^ (7 * Z.of_nat fuel) -> fuel <> 0%nat -> 0 <= p -> p + lenZ (varbytes fuel v) <= lenZ mem ->
  encode_loop fuel v mem p = Ok (splice mem p (varbytes fuel v), p + lenZ (varbytes fuel v)).
Proof.
  induction fuel as [|fuel IH]; intros v mem p Hv Hf Hp Hl; [done|]. pose proof (proj2 (varbytes_bytes _ _ Hv) Hf) as Hlen. cbn [encode_loop]. rewrite lor128, shiftr7.
  cbn [varbytes] in *. destruct (Z.ltb_spec 127 v) as [H|H].
  - pose proof (Z.mod_pos_bound v 128). rewrite store8_ok, bind_val by (unfold is_u; lia). destruct (div128 fuel v Hv) as [Hv' Hf']. specialize (Hf' H).
    assert (Hc : lenZ ((128 + v `mod` 128) :: varbytes fuel (v / 128)) = 1 + lenZ (varbytes fuel (v / 128))) by (unfold lenZ; cbn [length]; lia). rewrite Hc in *.
    rewrite IH; [|done|done|lia|unfold lenZ in *; rewrite length_insert; lia]. rewrite splice_insert by lia. do 2 f_equal. lia.
  - rewrite store8_ok, bind_val by (change (lenZ [v]) with 1 in *; unfold is_u; lia). change (lenZ [v]) with 1 in *. rewrite <- (splice_nil (<[_ := _]> mem) (p + 1)). by rewrite splice_insert by (change (lenZ []) with 0; lia).
Qed.

Lemma encode_ok v mem p : 0 <= v < 2 ^ 64 -> 0 <= p -> p + lenZ (vb v) <= lenZ mem -> encode_varbyte v mem p = Ok (splice mem p (vb v), p + lenZ (vb v)).
Proof. intros Hv Hp Hl. apply encode_loop_ok; [cbn; lia|done|done|done]. Qed.

(** ** Reading it *)
Definition holds (mem : list Z) (a : Z) (bs : list Z) : Prop := 0 <= a /\ a + lenZ bs <= lenZ mem /\ forall i, 0 <= i < lenZ bs -> nthZ mem (a + i) = nthZ bs i.

Lemma holds_app mem a bs1 bs2 : holds mem a (bs1 ++ bs2) <-> holds mem a bs1 /\ holds mem (a + lenZ bs1) bs2.
Proof.
  pose proof (lenZ_nonneg bs1). pose proof (lenZ_nonneg bs2). assert (Hl : lenZ (bs1 ++ bs2) = lenZ bs1 + lenZ bs2) by (unfold lenZ; rewrite length_app; lia). unfold holds. rewrite Hl. split.
  - intros (H1 & H2 & H3). split_and!; try lia.
    + intros i Hi. rewrite H3, nthZ_app by lia. by rewrite decide_True by (unfold lenZ in *; lia).
    + intros i Hi. replace (a + lenZ bs1 + i) with (a + (lenZ bs1 + i)) by lia. rewrite H3, nthZ_app by lia. rewrite decide_False by (unfold lenZ in *; lia). f_equal. unfold lenZ. lia.
  - intros [(H1 & H2 & H3) (H4 & H5 & H6)]. split_and!; [lia|lia|]. intros i Hi. rewrite nthZ_app by lia. case_decide as Hd.
    + apply H3. unfold lenZ in *. lia.
    + replace (a + i) with (a + lenZ bs1 + (i - lenZ bs1)) by lia. rewrite H6 by (unfold lenZ in *; lia). done.
Qed.

Lemma holds_get mem a x bs : holds mem a (x :: bs) -> aget mem a = Ok x /\ holds mem (a + 1) bs.
Proof.
  change (x :: bs) with ([x] ++ bs). rewrite holds_app. change (lenZ [x]) with 1. intros [(H1 & H2 & H3) Hb]. split; [|done]. change (lenZ [x]) with 1 in *. apply aget_Ok. split; [done|].
  specialize (H3 0 ltac:(lia)). rewrite Z.add_0_r in H3. unfold nthZ in H3. cbn in H3. destruct (lookup_lt_is_Some_2 mem (Z.to_nat a)) as [y Hy]; [unfold lenZ in *; lia|].
  rewrite nth_lookup, Hy in H3. cbn in H3. by subst.
Qed.

Lemma decode_bytes_ok more : forall shift val mem p v, 0 <= shift -> shift + 7 * Z.of_nat (S more) <= 64 -> 0 <= val < 2 ^ shift -> 0 <= v < 2 ^ (7 * Z.of_nat (S more)) ->
  holds mem p (varbytes (S more) v) -> decode_bytes more shift val mem p = Ok (val + v * 2 ^ shift, p + lenZ (varbytes (S more) v)).
Proof.
  assert (Hsmall : forall x k n, 0 <= k -> 0 <= n -> 0 <= x < 2 ^ n -> k + n <= 64 -> wrapu 64 (Z.shiftl x k) = Z.shiftl x k).
  { intros x k n Hk Hn0 Hx Hn. apply wrapu_small. rewrite Z.shiftl_mul_pow2 by done. pose proof (Z.pow_pos_nonneg 2 k). unfold is_u. split; [nia|].
    apply Z.lt_le_trans with (2 ^ n * 2 ^ k); [nia|]. rewrite <- Z.pow_add_r by lia. apply Z.pow_le_mono_r; lia. }
  induction more as [|more IH]; intros shift val mem p v Hs Hb Hval Hv Hh; cbn [decode_bytes].
  - cbn [varbytes] in *. change (2 ^ (7 * Z.of_nat 1)) with 128 in Hv. rewrite (proj2 (Z.ltb_ge 127 v)) in * by lia. apply holds_get in Hh as [-> _]. rewrite bind_val.
    rewrite (Hsmall v shift 7), lor_shiftl_add by (done || unfold is_u; lia). done.
  - change (varbytes (S (S more)) v) with (if 127 <? v then (128 + v `mod` 128) :: varbytes (S more) (v / 128) else [v]) in Hh |- *.
    pose proof (Z.mod_pos_bound v 128). destruct (Z.ltb_spec 127 v) as [H'|H'].
    + apply holds_get in Hh as [-> Hh]. rewrite bind_val, cont_bit127, land127 by (unfold is_u; lia). rewrite (proj2 (Z.ltb_lt 127 (128 + v `mod` 128))) by lia.
      replace ((128 + v `mod` 128) `mod` 128) with (v `mod` 128) by (Z.to_euclidean_division_equations; lia). rewrite (Hsmall _ shift 7), lor_shiftl_add by (done || unfold is_u; lia).
      destruct (div128 (S more) v Hv) as [Hv' _].
      rewrite (IH (shift + 7) _ mem (p + 1) (v / 128)); [|lia|lia| |done|done].
      * f_equal. f_equal; [|unfold lenZ; cbn [length]; lia]. rewrite Z.pow_add_r by lia. change (2 ^ 7) with 128.
        replace (v * 2 ^ shift) with ((128 * (v / 128) + v `mod` 128) * 2 ^ shift) by (rewrite <- Z.div_mod by lia; done). ring.
      * rewrite Z.pow_add_r by lia. change (2 ^ 7) with 128. nia.
    + apply holds_get in Hh as [-> _]. rewrite bind_val, cont_bit127, land127 by (unfold is_u; lia). rewrite (proj2 (Z.ltb_ge 127 v)), Z.mod_small by lia. rewrite (Hsmall v shift 7), lor_shiftl_add by (done || unfold is_u; lia). done.
Qed.

Lemma decode_ok mem p v : 0 <= v < 2 ^ 49 -> holds mem p (vb v) -> decode_varbyte mem p = Ok (v, p + lenZ (vb v)).
Proof.
  intros Hv. unfold vb. rewrite (varbytes_fuel 10 7) by (done || (cbn; lia)). intros Hh. unfold decode_varbyte. rewrite (decode_bytes_ok 6 0 0 mem p v); [|done|done|done|done|done]. do 2 f_equal. lia.
Qed.

(** ** Item pointers as numbers *)
Definition valid_ip (ip : ItemPointerData) : Prop := is_u 32 (ip_blkid ip) /\ 0 < ip_posid ip < 2048.
Definition key (ip : ItemPointerData) : Z := ip_blkid ip * 2048 + ip_posid ip.

Lemma key_val ip : valid_ip ip -> itemptr_to_uint64 ip = key ip /\ 0 <= key ip < 2 ^ 43.
Proof.
  intros [[Hb1 Hb2] Hp]. unfold itemptr_to_uint64, key, MaxHeapTuplesPerPageBits. split; [|lia]. rewrite wrapu_small.
  - rewrite Z.lor_comm, lor_shiftl_add by (unfold is_u; lia). change (2 ^ 11) with 2048. lia.
  - rewrite Z.shiftl_mul_pow2 by done. unfold is_u. change (2 ^ 11) with 2048. lia.
Qed.

Lemma key_inv ip : valid_ip ip -> uint64_to_itemptr (key ip) = ip.
Proof.
  intros [[Hb1 Hb2] Hp]. unfold uint64_to_itemptr, key, MaxHeapTuplesPerPageBits. rewrite Z.shiftr_div_pow2 by done. change (Z.shiftl 1 11 - 1) with (Z.ones 11). rewrite Z.land_ones by done.
  change (2 ^ 11) with 2048. destruct ip as [b o]. cbn in *. rewrite wrapu_small by (unfold is_u; Z.to_euclidean_division_equations; lia). f_equal; Z.to_euclidean_division_equations; lia.
Qed.

(** Both comparisons are the order of the keys. *)
Lemma compare_key a b : valid_ip a -> valid_ip b -> ginCompareItemPointers a b = if key a =? key b then 0 else if key b <? key a then 1 else -1.
Proof.
  intros [[Ha1 Ha2] Hap] [[Hb1 Hb2] Hbp]. unfold ginCompareItemPointers, key. rewrite !(Z.lor_comm (Z.shiftl _ 32)), !lor_shiftl_add by (unfold is_u; lia).
  change (2 ^ 32) with 4294967296. repeat zcase; lia.
Qed.

Definition ascending (l : list ItemPointerData) : Prop := StronglySorted (fun a b => key a < key b) l.

(** ** Differences *)
Fixpoint code (prev : Z) (l : list ItemPointerData) : list Z :=
  match l with
  | [] => []
  | ip :: l => vb (key ip - prev) ++ code (key ip) l
  end.

Lemma code_app prev l1 : forall l2, code prev (l1 ++ l2) = code prev l1 ++ code (default prev (key <$> last l1)) l2.
Proof.
  revert prev. induction l1 as [|x l1 IH]; intros prev l2; [done|]. cbn [app code]. rewrite IH, <- app_assoc. do 2 f_equal. destruct l1; [done|]. rewrite last_cons_cons. destruct (last _) eqn:E; [done|]. by apply last_None in E.
Qed.

(** The items follow [prev] in ascending order. *)
Definition follows (prev : Z) (l : list ItemPointerData) : Prop := 0 <= prev /\ Forall valid_ip l /\ StronglySorted Z.lt (prev :: map key l).

Lemma follows_cons prev ip l : follows prev (ip :: l) -> valid_ip ip /\ 0 <= key ip - prev < 2 ^ 43 /\ 0 < key ip - prev /\ follows (key ip) l.
Proof.
  intros (Hp & Hv & Hs). apply Forall_cons in Hv as [Hip Hv]. apply StronglySorted_inv in Hs as [Hs Hlt]. cbn [map] in Hlt. apply Forall_cons in Hlt as [Hlt _].
  destruct (key_val ip Hip) as [_ Hk]. split_and!; [done|lia|lia|lia|]. split; [lia|done].
Qed.

Lemma splice_app mem p bs1 bs2 : 0 <= p -> p + lenZ bs1 + lenZ bs2 <= lenZ mem -> splice (splice mem p bs1) (p + lenZ bs1) bs2 = splice mem p (bs1 ++ bs2).
Proof.
  intros Hp Hl. pose proof (lenZ_nonneg bs1). pose proof (lenZ_nonneg bs2). assert (Hl1 : lenZ (splice mem p bs1) = lenZ mem) by (apply lenZ_splice; lia).
  apply list_eq_nthZ; [rewrite !lenZ_splice; rewrite ?lenZ_app; lia|]. intros i Hi. rewrite lenZ_splice in Hi by lia. rewrite !nthZ_splice by (rewrite ?lenZ_app; lia). rewrite lenZ_app.
  destruct (decide (p + lenZ bs1 <= i < p + lenZ bs1 + lenZ bs2)).
  - rewrite decide_True by lia. rewrite nthZ_app by lia. rewrite decide_False by (unfold lenZ in *; lia). f_equal. unfold lenZ. lia.
  - destruct (decide (p <= i < p + lenZ bs1)); [rewrite decide_True by lia|rewrite decide_False by lia; done]. rewrite nthZ_app by lia. by rewrite decide_True by (unfold lenZ in *; lia).
Qed.

Lemma memcpy_splice mem p buf bs : 0 <= p -> p + lenZ bs <= lenZ mem -> lenZ bs <= lenZ buf -> memcpy mem p (splice buf 0 bs) 0 (lenZ bs) = Ok (splice mem p bs).
Proof.
  intros Hp Hm Hb. pose proof (lenZ_nonneg bs). unfold memcpy. rewrite !(proj2 (in_object_spec _ _ _)) by (rewrite ?lenZ_splice; lia). cbn [andb]. by rewrite bytes_at_splice_same by lia.
Qed.

(** ** Compression *)
(** [k] of the items are written; if some are left, the next one does not fit. *)
Lemma compress_items_ok endptr rest : forall n buf mem prev ptr, follows prev rest -> 0 <= ptr <= endptr -> endptr <= lenZ mem -> lenZ buf = 7 ->
  exists k, (k <= length rest)%nat /\ ptr + lenZ (code prev (take k rest)) <= endptr /\
    compress_items rest n buf mem prev ptr endptr = Ok (splice mem ptr (code prev (take k rest)), ptr + lenZ (code prev (take k rest)), n + Z.of_nat k) /\
    ((k < length rest)%nat -> endptr < ptr + lenZ (code prev (take (S k) rest))).
Proof.
  induction rest as [|ip rest IH]; intros n buf mem prev ptr Hfol Hptr Hend Hbuf; cbn [compress_items].
  { exists 0%nat. cbn. rewrite splice_nil, !Z.add_0_r. split_and!; [done|lia|done|lia]. }
  apply follows_cons in Hfol as (Hip & Hd & Hpos & Hfol). rewrite (proj1 (key_val ip Hip)). rewrite wrapu_small by (unfold is_u; lia).
  pose proof (vb_len (key ip - prev) ltac:(lia)) as Hlen. set (bs := vb (key ip - prev)) in *.
  assert (Hgo : forall buf', lenZ buf' = 7 -> ptr + lenZ bs <= endptr ->
    exists k, (k <= length (ip :: rest))%nat /\ ptr + lenZ (code prev (take k (ip :: rest))) <= endptr /\
      compress_items rest (n + 1) buf' (splice mem ptr bs) (key ip) (ptr + lenZ bs) endptr =
        Ok (splice mem ptr (code prev (take k (ip :: rest))), ptr + lenZ (code prev (take k (ip :: rest))), n + Z.of_nat k) /\
      ((k < length (ip :: rest))%nat -> endptr < ptr + lenZ (code prev (take (S k) (ip :: rest))))).
  { intros buf' Hb' Hfit. destruct (IH (n + 1) buf' (splice mem ptr bs) (key ip) (ptr + lenZ bs) Hfol) as (k & Hk & Hin & Hrun & Hnext); [lia|rewrite lenZ_splice by lia; lia|done|].
    exists (S k). cbn [take code length]. fold bs. rewrite lenZ_app. split_and!; [lia|lia| |].
    - rewrite Hrun. rewrite splice_app by lia. apply f_equal. apply f_equal2; [apply f_equal2; [done|lia]|lia].
    - intros Hlt. specialize (Hnext ltac:(lia)). destruct rest as [|ip' rest]; [cbn in Hlt; lia|]. cbn [take code] in Hnext |- *. rewrite !lenZ_app in *. lia. }
  unfold MaxBytesPerInteger. destruct (Z.leb_spec 7 (endptr - ptr)) as [Hroom|Hroom].
  - rewrite encode_ok, bind_val by (fold bs; lia). fold bs. apply Hgo; [done|lia].
  - rewrite encode_ok, bind_val by (fold bs; lia). fold bs. rewrite Z.add_0_l. destruct (Z.ltb_spec (endptr - ptr) (lenZ bs)) as [Hfull|Hfit].
    + exists 0%nat. cbn [take code length]. rewrite splice_nil. change (lenZ []) with 0. rewrite !Z.add_0_r. split_and!; [lia|lia|done|]. intros _. rewrite take_0. cbn [code]. rewrite app_nil_r. fold bs. lia.
    + rewrite memcpy_splice, bind_val by lia. apply Hgo; [|lia]. by rewrite lenZ_splice by lia.
Qed.

(** ** Segments in memory *)
Lemma even_mask x : 0 <= x < 2 ^ 64 -> Z.land x (notu 64 1) = 2 * (x / 2).
Proof.
  intros Hx. change (notu 64 1) with (Z.shiftl (Z.ones 63) 1). replace (2 * (x / 2)) with (Z.shiftl (Z.shiftr x 1) 1).
  2: { rewrite Z.shiftl_mul_pow2, Z.shiftr_div_pow2 by done. change (2 ^ 1) with 2. lia. }
  apply Z.bits_inj'. intros n Hn. rewrite Z.land_spec, !Z.shiftl_spec by done. destruct (decide (n = 0)) as [->|Hne]; [by rewrite andb_false_r|].
  rewrite Z.shiftr_spec, Z.testbit_ones_nonneg by lia. replace (n - 1 + 1) with n by lia. destruct (Z.ltb_spec (n - 1) 63); [by rewrite andb_true_r|].
  rewrite andb_false_r. symmetry. apply (is_u_testbit 64); [done|lia].
Qed.

Lemma SHORTALIGN_val x : 0 <= x < 2 ^ 63 -> x <= SHORTALIGN x <= x + 1 /\ SHORTALIGN x = 2 * ((x + 1) / 2).
Proof. intros Hx. unfold SHORTALIGN. rewrite even_mask by lia. split; [|done]. Z.to_euclidean_division_equations. lia. Qed.
Lemma SHORTALIGN_DOWN_val x : 0 <= x < 2 ^ 63 -> SHORTALIGN_DOWN x = 2 * (x / 2).
Proof. intros Hx. unfold SHORTALIGN_DOWN. by rewrite even_mask by lia. Qed.

Record segment_at (mem : list Z) (a : Z) (first : ItemPointerData) (rest : list ItemPointerData) : Prop := {
  sg_valid : valid_ip first;
  sg_follows : follows (key first) rest;
  sg_first : load_itemptr mem a = Ok first;
  sg_nbytes : nbytes mem a = lenZ (code (key first) rest);
  sg_size : lenZ (code (key first) rest) < 2 ^ 16;
  sg_code : holds mem (a + OffsetOfBytes) (code (key first) rest) }.

Lemma in_object_true m a n : 0 <= a -> 0 <= n -> a + n <= lenZ m -> in_object m a n = true.
Proof. intros. by apply in_object_spec. Qed.

Lemma load_in mem a ip : load_itemptr mem a = Ok ip -> 0 <= a /\ a + 6 <= lenZ mem.
Proof. unfold load_itemptr. destruct (in_object mem a SizeOfItemPointerData) eqn:E; [|done]. apply in_object_spec in E. unfold SizeOfItemPointerData in E. lia. Qed.

(** Only the bytes of the segment matter. *)
Lemma segment_move mem a mem' b first rest : segment_at mem a first rest -> 0 <= b -> b + OffsetOfBytes + lenZ (code (key first) rest) <= lenZ mem' ->
  (forall i, 0 <= i < OffsetOfBytes + lenZ (code (key first) rest) -> nthZ mem' (b + i) = nthZ mem (a + i)) -> segment_at mem' b first rest.
Proof.
  unfold OffsetOfBytes. intros [Hv Hf H1 H2 H3 (H4 & H5 & H6)] Hb Hl He. unfold OffsetOfBytes in *. pose proof (lenZ_nonneg (code (key first) rest)). pose proof (load_in _ _ _ H1).
  assert (Hg : forall d, 0 <= d <= 6 -> get16 mem' (b + d) = get16 mem (a + d)).
  { intros d Hd. apply get16_ext; [apply He; lia|]. rewrite <- !Z.add_assoc. apply He. lia. }
  split; try done.
  - unfold load_itemptr, SizeOfItemPointerData in *. rewrite in_object_true in H1 |- * by lia. rewrite <- H1. do 2 f_equal; [f_equal; [f_equal|]|]; [|by apply Hg|by apply Hg]. pose proof (Hg 0 ltac:(lia)) as Hz. by rewrite !Z.add_0_r in Hz.
  - unfold nbytes in *. by rewrite Hg.
  - unfold OffsetOfBytes. split_and!; [lia|lia|]. intros i Hi. rewrite <- H6 by done. rewrite <- !Z.add_assoc. apply He. lia.
Qed.

Lemma load_store mem ip : valid_ip ip -> 6 <= lenZ mem ->
  exists mem', store_itemptr mem 0 ip = Ok mem' /\ lenZ mem' = lenZ mem /\ load_itemptr mem' 0 = Ok ip /\ forall i, 6 <= i -> nthZ mem' i = nthZ mem i.
Proof.
  intros [[Hb1 Hb2] Hp] Hl. unfold store_itemptr, load_itemptr, SizeOfItemPointerData. rewrite in_object_true by lia. eexists. split; [done|]. rewrite !Z.add_0_l.
  assert (Hhi : is_u 16 (Z.shiftr (ip_blkid ip) 16)) by (rewrite Z.shiftr_div_pow2 by done; unfold is_u; change (2 ^ 16) with 65536; Z.to_euclidean_division_equations; lia).
  assert (Hlo : is_u 16 (Z.land (ip_blkid ip) 65535)) by (change 65535 with (Z.ones 16); rewrite Z.land_ones by done; apply Z.mod_pos_bound; lia).
  assert (Hlen : lenZ (put16 (put16 (put16 mem 0 (Z.shiftr (ip_blkid ip) 16)) 2 (Z.land (ip_blkid ip) 65535)) 4 (ip_posid ip)) = lenZ mem).
  { rewrite !lenZ_put16; rewrite ?lenZ_put16; rewrite ?lenZ_put16; lia. }
  split; [done|]. split.
  - rewrite in_object_true by lia. rewrite (get16_put16 _ 4) by (rewrite ?lenZ_put16; rewrite ?lenZ_put16; unfold is_u; lia).
    rewrite (get16_put16_ne _ 4 _ 0), (get16_put16_ne _ 4 _ 2) by (rewrite ?lenZ_put16; rewrite ?lenZ_put16; lia). rewrite get16_put16 by (done || rewrite ?lenZ_put16; lia).
    rewrite get16_put16_ne, get16_put16 by (done || rewrite ?lenZ_put16; lia). destruct ip as [b o]. cbn. do 2 f_equal. rewrite Z.shiftr_div_pow2 by done. change 65535 with (Z.ones 16). rewrite Z.land_ones by done.
    change (2 ^ 16) with 65536. Z.to_euclidean_division_equations. lia.
  - intros i Hi. rewrite !nthZ_put16_ne by (rewrite ?lenZ_put16; rewrite ?lenZ_put16; lia). done.
Qed.

(** A segment as [ginCompressPostingList] leaves it: [s] is the block, [n] items are in it. *)
Record packed (ipd : list ItemPointerData) (limit : Z) (s : list Z) (n : Z) : Prop := {
  pk_len : lenZ s = limit;
  pk_n : 1 <= n <= lenZ ipd;
  pk_segment : forall first rest, take (Z.to_nat n) ipd = first :: rest -> segment_at s 0 first rest;
  pk_size : SizeOfGinPostingList s 0 <= limit;
  pk_pad : SHORTALIGN (nbytes s 0) <> nbytes s 0 -> nthZ s (OffsetOfBytes + nbytes s 0) = 0;
  pk_full : n < lenZ ipd -> forall first rest, take (S (Z.to_nat n)) ipd = first :: rest -> limit < OffsetOfBytes + lenZ (code (key first) rest) }.

Definition list_ok (ipd : list ItemPointerData) : Prop := ipd <> [] /\ Forall valid_ip ipd /\ ascending ipd.

Lemma list_follows first rest : list_ok (first :: rest) -> valid_ip first /\ follows (key first) rest.
Proof.
  intros (_ & Hv & Hs). apply Forall_cons in Hv as [Hf Hv]. split; [done|]. destruct (key_val first Hf) as [_ Hk]. split_and!; [lia|done|]. change (key first :: map key rest) with (map key (first :: rest)).
  unfold ascending in Hs. clear -Hs. induction Hs as [|x l _ IH Hx]; cbn [map]; constructor; [done|]. by apply Forall_map.
Qed.

Lemma Forall_sublist {A} (P : A -> Prop) l' l : l' `sublist_of` l -> Forall P l -> Forall P l'.
Proof. induction 1; inversion 1; subst; auto. Qed.

Lemma StronglySorted_sublist {A} (R : A -> A -> Prop) l' l : l' `sublist_of` l -> StronglySorted R l -> StronglySorted R l'.
Proof.
  induction 1 as [|x l' l Hsub IH|x l' l Hsub IH]; inversion 1; subst; auto. constructor; [auto|by eapply Forall_sublist].
Qed.

Lemma follows_sublist prev l' l : l' `sublist_of` l -> follows prev l -> follows prev l'.
Proof.
  intros Hsub (Hp & Hv & Hs). split_and!; [done|by eapply Forall_sublist|]. eapply StronglySorted_sublist; [|done]. constructor. clear -Hsub. induction Hsub; by constructor.
Qed.

Lemma follows_take prev l k : follows prev l -> follows prev (take k l).
Proof. apply follows_sublist, sublist_take. Qed.

Lemma compress_list_ok ipd maxsize block buf : list_ok ipd -> OffsetOfBytes < SHORTALIGN_DOWN maxsize < 2 ^ 16 -> SHORTALIGN_DOWN maxsize <= lenZ block -> 0 <= maxsize < 2 ^ 31 -> lenZ buf = 7 ->
  exists s n, ginCompressPostingList ipd maxsize block buf = Ok (s, n) /\ packed ipd (SHORTALIGN_DOWN maxsize) s n.
Proof.
  intros Hok Hmax Hblock Hm Hbuf. unfold ginCompressPostingList. destruct ipd as [|first rest]; [by destruct Hok|]. destruct (list_follows first rest Hok) as [Hv Hfol].
  rewrite SHORTALIGN_DOWN_val in * by lia. set (limit := 2 * (maxsize / 2)) in *. unfold OffsetOfBytes in *. set (r0 := take (Z.to_nat limit) block).
  assert (Hl0 : lenZ r0 = limit) by (unfold r0, lenZ in *; rewrite length_take; lia). cbv zeta. destruct (load_store r0 first Hv ltac:(lia)) as (r1 & -> & Hl1 & Hld & Hn1). rewrite bind_val.
  rewrite (proj1 (key_val first Hv)). replace (8 + (limit - 8)) with limit by lia.
  destruct (compress_items_ok limit rest 1 buf r1 (key first) 8 Hfol ltac:(lia) ltac:(lia) Hbuf) as (k & Hk & Hfit & -> & Hnext). rewrite bind_val. cbv beta iota. set (bs := code (key first) (take k rest)) in *.
  pose proof (lenZ_nonneg bs) as Hbs0. replace (8 + lenZ bs - 8) with (lenZ bs) by lia. set (r2 := splice r1 8 bs). assert (Hl2 : lenZ r2 = limit) by (unfold r2; rewrite lenZ_splice; lia).
  rewrite (wrapu_small 16) by (unfold is_u; lia). set (r3 := put16 r2 6 (lenZ bs)). assert (Hl3 : lenZ r3 = limit) by (unfold r3; rewrite lenZ_put16; lia).
  assert (Hnb : nbytes r3 0 = lenZ bs) by (unfold nbytes, r3; rewrite Z.add_0_l; apply get16_put16; [lia|lia|unfold is_u; lia]). rewrite Hnb.
  destruct (SHORTALIGN_val (lenZ bs) ltac:(lia)) as [Hsa1 Hsa2]. assert (Hlim2 : SHORTALIGN (lenZ bs) + 8 <= limit) by (rewrite Hsa2; unfold limit in *; Z.to_euclidean_division_equations; lia).
  assert (Hs3 : exists s, (if negb (lenZ bs =? SHORTALIGN (lenZ bs)) then store8 r3 (8 + lenZ bs) 0 else Ok r3) = Ok s /\ lenZ s = limit /\
    (forall i, 0 <= i -> i <> 8 + lenZ bs -> nthZ s i = nthZ r3 i) /\ (SHORTALIGN (lenZ bs) <> lenZ bs -> nthZ s (8 + lenZ bs) = 0)).
  { destruct (Z.eqb_spec (lenZ bs) (SHORTALIGN (lenZ bs))) as [He|He]; cbn [negb]; [exists r3; split_and!; congruence|]. rewrite store8_ok by (unfold is_u; lia). eexists. split; [done|].
    split; [unfold lenZ in *; by rewrite length_insert|]. split; [intros i Hi Hne; unfold nthZ; rewrite !nth_lookup, list_lookup_insert_ne by lia; done|]. intros _. unfold nthZ. rewrite nth_lookup, list_lookup_insert_eq by (unfold lenZ in *; lia). done. }
  destruct Hs3 as (s & -> & Hls & Hns & Hpad). rewrite bind_val. exists s, (1 + Z.of_nat k). split; [done|].
  assert (Hnb' : nbytes s 0 = lenZ bs). { rewrite <- Hnb. unfold nbytes. rewrite Z.add_0_l. apply get16_ext; apply Hns; lia. }
  assert (Hseg : segment_at s 0 first (take k rest)).
  { assert (H3 : segment_at r3 0 first (take k rest)); [|eapply (segment_move r3 0); [exact H3|lia|fold bs; unfold OffsetOfBytes; lia|fold bs; unfold OffsetOfBytes; intros i Hi; apply Hns; lia]].
    split; fold bs; [done|by apply follows_take| |done|lia|].
    - rewrite <- Hld. unfold load_itemptr, SizeOfItemPointerData. rewrite !in_object_true by lia. rewrite !Z.add_0_l. unfold r3. rewrite !get16_put16_ne by lia.
      assert (Hg : forall d, 0 <= d <= 4 -> get16 r2 d = get16 r1 d) by (intros d Hd; unfold r2; apply get16_ext; rewrite nthZ_splice, decide_False by lia; done). by rewrite !Hg by lia.
    - unfold OffsetOfBytes. split_and!; [lia|lia|]. intros i Hi. unfold r3. rewrite nthZ_put16_ne by lia. unfold r2. rewrite nthZ_splice, decide_True by lia. f_equal. lia. }
  split; try done.
  - unfold lenZ. cbn [length]. lia.
  - intros f r Ht. replace (Z.to_nat (1 + Z.of_nat k)) with (S k) in Ht by lia. cbn [take] in Ht. by injection Ht as <- <-.
  - unfold SizeOfGinPostingList, OffsetOfBytes. rewrite Hnb'. lia.
  - rewrite Hnb'. unfold OffsetOfBytes. apply Hpad.
  - intros Hlt f r Ht. replace (Z.to_nat (1 + Z.of_nat k)) with (S k) in Ht by lia. cbn [take] in Ht. injection Ht as <- <-. unfold OffsetOfBytes. apply Hnext. unfold lenZ in Hlt. cbn [length] in Hlt. lia.
Qed.
