(* ===== verification/GinPostingSpec.v ===== *)
(** What posting lists promise: compression and decompression are inverse, segments decode one
    after the other, removing items never makes a list longer, and merging is the union. *)
From S2P Require Import Prelude ByteMem GinPosting GinCodec.

(** ** Decompression *)
Lemma append_item_ok result nallocated ip : 1 <= nallocated -> lenZ result <= nallocated ->
  exists n', append_item result nallocated ip = Ok (result ++ [ip], n') /\ 1 <= n' /\ lenZ (result ++ [ip]) <= n'.
Proof.
  intros Hn Hl. unfold append_item. cbv zeta. destruct (Z.leb_spec nallocated (lenZ result)).
  - rewrite (proj2 (Z.ltb_lt _ _)) by lia. eexists. split; [done|]. rewrite lenZ_app. change (lenZ [ip]) with 1. lia.
  - rewrite (proj2 (Z.ltb_lt _ _)) by lia. eexists. split; [done|]. rewrite lenZ_app. change (lenZ [ip]) with 1. lia.
Qed.

Lemma decode_deltas_ok mem l : forall fuel prev ptr result na, follows prev l -> holds mem ptr (code prev l) -> (length l < fuel)%nat -> 1 <= na -> lenZ result <= na ->
  exists na', decode_deltas fuel mem prev ptr (ptr + lenZ (code prev l)) result na = Ok (result ++ l, na') /\ 1 <= na' /\ lenZ (result ++ l) <= na'.
Proof.
  induction l as [|ip l IH]; intros [|fuel] prev ptr result na Hfol Hh Hfuel Hna Hl; try (cbn in Hfuel; lia); cbn [decode_deltas code].
  { rewrite (proj2 (Z.ltb_ge _ _)) by (change (lenZ []) with 0; lia). exists na. by rewrite app_nil_r. }
  apply follows_cons in Hfol as (Hip & Hd & Hpos & Hfol). pose proof (vb_len (key ip - prev) ltac:(lia)) as Hvb. pose proof (lenZ_nonneg (code (key ip) l)). cbn [code] in Hh.
  apply holds_app in Hh as [Hh1 Hh2]. rewrite lenZ_app. rewrite (proj2 (Z.ltb_lt _ _)) by lia. rewrite (decode_ok mem ptr (key ip - prev)), bind_val by (done || lia). cbv beta iota.
  replace (prev + (key ip - prev)) with (key ip) by lia. destruct (key_val ip Hip) as [_ Hk]. rewrite wrapu_small, key_inv by (done || unfold is_u; lia).
  destruct (append_item_ok result na ip Hna Hl) as (n1 & -> & Hn1 & Hl1). rewrite bind_val. cbv beta iota. rewrite Z.add_assoc.
  destruct (IH fuel (key ip) (ptr + lenZ (vb (key ip - prev))) (result ++ [ip]) n1) as (n2 & -> & Hn2 & Hl2); try done; [cbn in Hfuel; lia|].
  exists n2. rewrite <- app_assoc in *. done.
Qed.

Lemma code_items prev l : follows prev l -> Z.of_nat (length l) <= lenZ (code prev l).
Proof.
  revert prev. induction l as [|ip l IH]; intros prev Hf; [done|]. apply follows_cons in Hf as (_ & Hd & _ & Hf). cbn [code length]. rewrite lenZ_app. pose proof (vb_len (key ip - prev) ltac:(lia)). specialize (IH _ Hf). lia.
Qed.

(** Segments one after the other, up to [endseg]. *)
Fixpoint segments_at (mem : list Z) (a endseg : Z) (ls : list (list ItemPointerData)) : Prop :=
  match ls with
  | [] => a = endseg
  | [] :: _ => False
  | (first :: rest) :: ls => segment_at mem a first rest /\ segments_at mem (a + SizeOfGinPostingList mem a) endseg ls
  end.

Lemma size_pos mem a first rest : segment_at mem a first rest -> 8 <= SizeOfGinPostingList mem a.
Proof.
  intros Hs. pose proof (sg_size _ _ _ _ Hs). pose proof (lenZ_nonneg (code (key first) rest)). unfold SizeOfGinPostingList, OffsetOfBytes. rewrite (sg_nbytes _ _ _ _ Hs).
  destruct (SHORTALIGN_val (lenZ (code (key first) rest))); lia.
Qed.

Lemma segments_le mem ls : forall a e, segments_at mem a e ls -> a + 8 * Z.of_nat (length ls) <= e.
Proof.
  induction ls as [|[|first rest] ls IH]; intros a e Hs; cbn [segments_at length] in *; [lia|done|]. destruct Hs as [H1 H2]. apply IH in H2. apply size_pos in H1. lia.
Qed.

Lemma decode_segments_ok mem ls : forall fuel a e result na, segments_at mem a e ls -> (length ls < fuel)%nat -> 1 <= na -> lenZ result <= na ->
  decode_segments fuel mem a e result na = Ok (result ++ concat ls).
Proof.
  induction ls as [|[|first rest] ls IH]; intros [|fuel] a e result na Hs Hf Hna Hl; try (cbn in Hf; lia); try done; cbn [decode_segments concat].
  { cbn in Hs. subst. rewrite Z.ltb_irrefl. by rewrite app_nil_r. }
  pose proof (segments_le _ _ _ _ Hs) as He. destruct Hs as [Hs Hss]. cbn [length] in *. rewrite (proj2 (Z.ltb_lt a e)) by lia. rewrite (sg_first _ _ _ _ Hs), bind_val.
  destruct (append_item_ok result na first Hna Hl) as (n1 & -> & Hn1 & Hl1). rewrite bind_val. cbv beta iota. pose proof (sg_code _ _ _ _ Hs) as Hc. pose proof (load_in _ _ _ (sg_first _ _ _ _ Hs)) as [Ha _].
  rewrite in_object_true by (destruct Hc as (_ & Hc & _); unfold OffsetOfBytes in *; pose proof (lenZ_nonneg (code (key first) rest)); lia). cbv zeta. rewrite (sg_nbytes _ _ _ _ Hs).
  rewrite (proj1 (key_val first (sg_valid _ _ _ _ Hs))). pose proof (code_items _ _ (sg_follows _ _ _ _ Hs)).
  destruct (decode_deltas_ok mem rest (S (Z.to_nat (lenZ (code (key first) rest)))) (key first) (a + OffsetOfBytes) (result ++ [first]) n1) as (n2 & -> & Hn2 & Hl2); [apply Hs|done|lia|done|done|].
  rewrite bind_val. cbv beta iota. rewrite (IH fuel _ e _ n2); [|done|lia|done|done]. by rewrite <- !app_assoc.
Qed.

Lemma decode_all_ok mem a e ls : segments_at mem a e ls -> ls <> [] -> ginPostingListDecodeAllSegments mem a (e - a) = Ok (concat ls).
Proof.
  intros Hs Hne. pose proof (segments_le _ _ _ _ Hs) as He. unfold ginPostingListDecodeAllSegments. destruct ls as [|[|first rest] ls]; try done. pose proof (proj1 Hs) as H1. pose proof (sg_code _ _ _ _ H1) as (_ & Hc & _).
  pose proof (load_in _ _ _ (sg_first _ _ _ _ H1)) as [Ha _]. pose proof (lenZ_nonneg (code (key first) rest)) as Hn. rewrite in_object_true by (unfold OffsetOfBytes in *; lia).
  replace (a + (e - a)) with e by lia. rewrite (sg_nbytes _ _ _ _ H1). rewrite (decode_segments_ok mem ((first :: rest) :: ls)); [done|done|lia|lia|change (lenZ []) with 0; lia].
Qed.

(** The segment that [ginCompressPostingList] made. *)
Lemma packed_segment ipd limit s n : packed ipd limit s n -> exists first rest, take (Z.to_nat n) ipd = first :: rest /\ segment_at s 0 first rest.
Proof.
  intros H. pose proof (pk_n _ _ _ _ H) as Hn. destruct (take (Z.to_nat n) ipd) as [|first rest] eqn:E.
  - apply (f_equal length) in E. rewrite length_take in E. unfold lenZ in Hn. cbn in E. lia.
  - exists first, rest. split; [done|]. by eapply pk_segment.
Qed.

Lemma decode_packed ipd limit s n : packed ipd limit s n -> ginPostingListDecode s 0 = Ok (take (Z.to_nat n) ipd).
Proof.
  intros H. destruct (packed_segment _ _ _ _ H) as (first & rest & E & Hs). rewrite E. unfold ginPostingListDecode. rewrite <- (Z.sub_0_r (SizeOfGinPostingList s 0)).
  rewrite (decode_all_ok s 0 (SizeOfGinPostingList s 0) [first :: rest]); [cbn; by rewrite app_nil_r| |done]. by split.
Qed.

(** ** Segments side by side *)
(** The part of the block that is stored in the index. *)
Definition trim (s : list Z) : list Z := take (Z.to_nat (SizeOfGinPostingList s 0)) s.

Lemma SizeOf_val mem a first rest : segment_at mem a first rest -> SizeOfGinPostingList mem a = 8 + 2 * ((lenZ (code (key first) rest) + 1) / 2).
Proof.
  intros Hs. pose proof (sg_size _ _ _ _ Hs). pose proof (lenZ_nonneg (code (key first) rest)). unfold SizeOfGinPostingList, OffsetOfBytes. rewrite (sg_nbytes _ _ _ _ Hs).
  by destruct (SHORTALIGN_val (lenZ (code (key first) rest))) as [_ ->]; [lia|].
Qed.

Lemma segment_shift pre s post first rest : segment_at s 0 first rest -> segment_at (pre ++ s ++ post) (lenZ pre) first rest.
Proof.
  intros Hs. pose proof (sg_code _ _ _ _ Hs) as (_ & Hc & _). unfold OffsetOfBytes in *. pose proof (lenZ_nonneg pre). pose proof (lenZ_nonneg post). pose proof (lenZ_nonneg (code (key first) rest)).
  eapply (segment_move s 0); [done|done|rewrite !lenZ_app; unfold OffsetOfBytes; lia|]. unfold OffsetOfBytes. intros i Hi. rewrite !nthZ_app by (unfold lenZ in *; lia).
  rewrite decide_False by (unfold lenZ in *; lia). rewrite decide_True by (unfold lenZ in *; lia). f_equal. unfold lenZ. lia.
Qed.

Lemma segment_trim s first rest : segment_at s 0 first rest -> SizeOfGinPostingList s 0 <= lenZ s -> segment_at (trim s) 0 first rest /\ lenZ (trim s) = SizeOfGinPostingList s 0.
Proof.
  intros Hs Hl. pose proof (size_pos _ _ _ _ Hs) as Hp. assert (Hlt : lenZ (trim s) = SizeOfGinPostingList s 0) by (unfold trim, lenZ in *; rewrite length_take; lia). split; [|done].
  pose proof (lenZ_nonneg (code (key first) rest)). rewrite (SizeOf_val _ _ _ _ Hs) in *. eapply (segment_move s 0); [done|done|unfold OffsetOfBytes; rewrite Hlt; Z.to_euclidean_division_equations; lia|].
  unfold OffsetOfBytes. intros i Hi. unfold trim, nthZ. rewrite (SizeOf_val _ _ _ _ Hs). rewrite !nth_lookup, lookup_take_lt; [done|]. Z.to_euclidean_division_equations. lia.
Qed.

(** All of [ipd] is in the segment [s]. *)
Definition whole_segment (ipd : list ItemPointerData) (s : list Z) : Prop := exists limit, packed ipd limit s (lenZ ipd).

Lemma whole_segments ipds : forall ss pre, Forall2 whole_segment ipds ss -> segments_at (pre ++ concat (map trim ss)) (lenZ pre) (lenZ (pre ++ concat (map trim ss))) ipds.
Proof.
  induction ipds as [|ipd ipds IH]; intros ss pre Hall; inversion Hall as [|? s ? ss' [limit Hp] Hrest]; subst; cbn [map concat segments_at]; [by rewrite app_nil_r|].
  destruct (packed_segment _ _ _ _ Hp) as (first & rest & E & Hs). unfold lenZ in E. rewrite Nat2Z.id, take_ge in E by done. subst ipd.
  assert (Hle : SizeOfGinPostingList s 0 <= lenZ s) by (rewrite (pk_len _ _ _ _ Hp); apply Hp). destruct (segment_trim s first rest Hs Hle) as [Ht Hlt].
  pose proof (segment_shift pre (trim s) (concat (map trim ss')) first rest Ht) as Hat. split; [done|].
  rewrite (SizeOf_val _ _ _ _ Hat), <- (SizeOf_val _ _ _ _ Hs), <- Hlt, <- lenZ_app. rewrite app_assoc. by apply IH.
Qed.

(** ** Removing items *)
Lemma varbytes_short f : forall v, 0 <= v -> f <> 0%nat -> 0 <= v < 2 ^ (7 * Z.of_nat f) -> v < 2 ^ (7 * lenZ (varbytes f v)).
Proof.
  induction f as [|f IH]; intros v Hv Hf Hb; [done|]. cbn [varbytes]. destruct (Z.ltb_spec 127 v) as [H|H].
  - destruct (div128 f v Hb) as [Hd Hn]. specialize (IH (v / 128) ltac:(lia) (Hn H) Hd). replace (lenZ (_ :: varbytes f (v / 128))) with (1 + lenZ (varbytes f (v / 128))) by (unfold lenZ; cbn [length]; lia).
    pose proof (lenZ_nonneg (varbytes f (v / 128))). replace (7 * (1 + lenZ (varbytes f (v / 128)))) with (7 + 7 * lenZ (varbytes f (v / 128))) by lia. rewrite Z.pow_add_r by lia. change (2 ^ 7) with 128.
    pose proof (Z.div_mod v 128 ltac:(lia)). pose proof (Z.mod_pos_bound v 128 ltac:(lia)). lia.
  - change (2 ^ (7 * lenZ [v])) with 128. lia.
Qed.

Lemma vb_le v k : 0 <= v < 2 ^ 49 -> 1 <= k -> v < 2 ^ (7 * k) -> lenZ (vb v) <= k.
Proof.
  intros Hv Hk Hlt. pose proof (vb_len v Hv). destruct (decide (7 <= k)); [lia|]. unfold vb in *. rewrite (varbytes_fuel 10 (Z.to_nat k)); [|cbn; lia|rewrite Z2Nat.id by lia; lia|done|lia].
  destruct (varbytes_bytes (Z.to_nat k) v) as [_ Hl]; [rewrite Z2Nat.id by lia; lia|]. specialize (Hl ltac:(lia)). lia.
Qed.

(** The code of a sum is no longer than the codes of the summands. *)
Lemma vb_sum a b : 0 <= a -> 0 <= b -> a + b < 2 ^ 49 -> lenZ (vb (a + b)) <= lenZ (vb a) + lenZ (vb b).
Proof.
  intros Ha Hb Hs. pose proof (vb_len a ltac:(lia)) as Hla. pose proof (vb_len b ltac:(lia)) as Hlb. apply vb_le; [lia|lia|].
  pose proof (varbytes_short 10 a Ha ltac:(done) ltac:(cbn; lia)) as H1. pose proof (varbytes_short 10 b Hb ltac:(done) ltac:(cbn; lia)) as H2. fold (vb a) in H1. fold (vb b) in H2.
  replace (7 * (lenZ (vb a) + lenZ (vb b))) with (7 * lenZ (vb a) + 7 * lenZ (vb b)) by lia. rewrite Z.pow_add_r by lia.
  assert (2 ^ 7 <= 2 ^ (7 * lenZ (vb a))) by (apply Z.pow_le_mono_r; lia). assert (2 ^ 7 <= 2 ^ (7 * lenZ (vb b))) by (apply Z.pow_le_mono_r; lia). change (2 ^ 7) with 128 in *. nia.
Qed.

Lemma code_skip prev x l : 0 <= prev -> prev < key x -> follows (key x) l -> lenZ (code prev l) <= lenZ (vb (key x - prev)) + lenZ (code (key x) l).
Proof.
  intros Hp Hx Hf. destruct l as [|y l]; [cbn [code]; pose proof (lenZ_nonneg (vb (key x - prev))); change (lenZ []) with 0; lia|]. pose proof (follows_cons _ _ _ Hf) as (Hy & Hd & Hpos & _). destruct (key_val y Hy) as [_ Hk].
  cbn [code]. rewrite !lenZ_app. pose proof (vb_sum (key x - prev) (key y - key x) ltac:(lia) ltac:(lia) ltac:(lia)) as Hs. replace (key x - prev + (key y - key x)) with (key y - prev) in Hs by lia. lia.
Qed.

Lemma code_sublist l' l : l' `sublist_of` l -> forall prev, follows prev l -> lenZ (code prev l') <= lenZ (code prev l).
Proof.
  induction 1 as [|x l' l Hsub IH|x l' l Hsub IH]; intros prev Hf; [done| |].
  - apply follows_cons in Hf as (_ & _ & _ & Hf). cbn [code]. rewrite !lenZ_app. specialize (IH _ Hf). lia.
  - pose proof (proj1 Hf) as Hp. apply follows_cons in Hf as (_ & _ & Hpos & Hf). cbn [code]. rewrite lenZ_app. specialize (IH _ Hf). pose proof (code_skip prev x l' Hp ltac:(lia) (follows_sublist _ _ _ Hsub Hf)). lia.
Qed.

(** The size without the header of the segment that holds all of [ipd]. *)
Definition code_size (ipd : list ItemPointerData) : Z :=
  match ipd with
  | [] => 0
  | first :: rest => lenZ (code (key first) rest)
  end.

Lemma code_size_sublist l' l : l' `sublist_of` l -> list_ok l -> l' <> [] -> list_ok l' /\ code_size l' <= code_size l.
Proof.
  intros Hsub Hok Hne. split; [destruct Hok as (_ & Hv & Hs); split_and!; [done|by eapply Forall_sublist|by eapply StronglySorted_sublist]|].
  destruct l' as [|f' r']; [done|]. destruct l as [|f r]; [by destruct Hok|]. apply list_follows in Hok as [_ Hf]. cbn [code_size]. inversion Hsub as [|? ? ? Hs|? ? ? Hs]; subst.
  - by apply code_sublist.
  - pose proof (code_sublist _ _ Hs _ Hf) as Hle. cbn [code] in Hle. rewrite lenZ_app in Hle. pose proof (lenZ_nonneg (vb (key f' - key f))). lia.
Qed.

Lemma take_lenZ {A} (l : list A) : take (Z.to_nat (lenZ l)) l = l.
Proof. unfold lenZ. rewrite Nat2Z.id. by apply take_ge. Qed.

(** The size of a whole segment, and when a segment is whole. *)
Lemma whole_size ipd limit s : packed ipd limit s (lenZ ipd) -> SizeOfGinPostingList s 0 = 8 + 2 * ((code_size ipd + 1) / 2).
Proof. intros H. destruct (packed_segment _ _ _ _ H) as (first & rest & E & Hs). rewrite take_lenZ in E. subst. by apply SizeOf_val. Qed.

Lemma fits_whole ipd limit s n : list_ok ipd -> packed ipd limit s n -> 8 + code_size ipd <= limit -> n = lenZ ipd.
Proof.
  intros Hok Hp Hfit. pose proof (pk_n _ _ _ _ Hp) as Hn. destruct (decide (n < lenZ ipd)) as [Hlt|]; [|lia]. exfalso. destruct ipd as [|first rest]; [by destruct Hok|].
  pose proof (pk_full _ _ _ _ Hp Hlt first (take (Z.to_nat n) rest) eq_refl) as Hfull. apply list_follows in Hok as [_ Hf]. pose proof (code_sublist _ _ (sublist_take rest (Z.to_nat n)) _ Hf). cbn [code_size] in Hfit. unfold OffsetOfBytes in *. lia.
Qed.

(** ** Merging *)
Definition posting_union (a b m : list ItemPointerData) : Prop := ascending m /\ forall ip, ip ∈ m <-> ip ∈ a \/ ip ∈ b.

Lemma ascending_cons x l : ascending (x :: l) <-> ascending l /\ forall y, y ∈ l -> key x < key y.
Proof. unfold ascending. rewrite <- Forall_forall. split; [apply StronglySorted_inv|by intros []; constructor]. Qed.

Lemma ascending_app l1 l2 : ascending l1 -> ascending l2 -> (forall x y, x ∈ l1 -> y ∈ l2 -> key x < key y) -> ascending (l1 ++ l2).
Proof.
  induction l1 as [|x l1 IH]; intros H1 H2 Hlt; [done|]. cbn [app]. apply ascending_cons in H1 as [H1 Hx]. apply ascending_cons. split.
  - apply IH; [done|done|]. intros a b Ha Hb. apply Hlt; [by right|done].
  - intros y [Hy|Hy]%elem_of_app; [by apply Hx|]. apply Hlt; [by left|done].
Qed.

Lemma key_inj a b : valid_ip a -> valid_ip b -> key a = key b -> a = b.
Proof. intros Ha Hb He. rewrite <- (key_inv a Ha), <- (key_inv b Hb). by f_equal. Qed.

Lemma union_cons_l x a b m : posting_union a b m -> (forall y, y ∈ a \/ y ∈ b -> key x < key y) -> posting_union (x :: a) b (x :: m).
Proof.
  intros [Hm Hin] Hx. split; [apply ascending_cons; split; [done|]; intros y Hy; by apply Hx, Hin|]. intros ip. rewrite !elem_of_cons, Hin. tauto.
Qed.
Lemma union_comm a b m : posting_union a b m -> posting_union b a m.
Proof. intros [Hm Hin]. split; [done|]. intros ip. rewrite Hin. tauto. Qed.

Lemma merge_cons x a y b : merge_items (x :: a) (y :: b) =
  let cmp := ginCompareItemPointers x y in
  if 0 <? cmp then y :: merge_items (x :: a) b else if cmp =? 0 then y :: merge_items a b else x :: merge_items a (y :: b).
Proof. done. Qed.

Lemma merge_ok a : forall b, Forall valid_ip a -> Forall valid_ip b -> ascending a -> ascending b -> posting_union a b (merge_items a b) /\ (length (merge_items a b) <= length a + length b)%nat.
Proof.
  induction a as [|x a IHa]; intros b Hva Hvb Ha Hb; [split; [|done]; split; [done|]; intros ip; cbn; rewrite elem_of_nil; tauto|].
  pose proof Hva as Hva0. pose proof Ha as Ha0. apply Forall_cons in Hva as [Hvx Hva]. apply ascending_cons in Ha as [Ha Hx]. induction b as [|y b IHb].
  { split; [|cbn; lia]. split; [by apply ascending_cons|]. intros ip. rewrite elem_of_nil. tauto. }
  pose proof Hvb as Hvb0. pose proof Hb as Hb0. apply Forall_cons in Hvb as [Hvy Hvb]. apply ascending_cons in Hb as [Hb Hy]. rewrite merge_cons, compare_key by done. cbv zeta. destruct (Z.eqb_spec (key x) (key y)) as [He|He]; cbn [Z.ltb Z.eqb Z.compare].
  - assert (x = y) as <- by by apply key_inj. destruct (IHa b Hva Hvb Ha Hb) as [Hu Hl]. split; [|cbn [length]; lia].
    destruct (union_cons_l x a b _ Hu) as [Hs Hin]; [intros z [Hz|Hz]; auto|]. split; [done|]. intros ip. rewrite Hin, !elem_of_cons. tauto.
  - destruct (Z.ltb_spec (key y) (key x)) as [Hlt|Hle]; cbn [Z.ltb Z.eqb Z.compare].
    + destruct (IHb Hvb Hb) as [Hu Hl]. split; [|cbn [length] in *; lia]. apply union_comm, union_cons_l; [by apply union_comm|]. intros z [Hz|Hz]; [by apply Hy|]. apply elem_of_cons in Hz as [->|Hz]; [done|]. specialize (Hx _ Hz). lia.
    + destruct (IHa (y :: b) Hva Hvb0 Ha Hb0) as [Hu Hl]. split; [|cbn [length] in *; lia]. apply union_cons_l; [done|]. intros z [Hz|Hz]; [by apply Hx|]. apply elem_of_cons in Hz as [->|Hz]; [lia|]. specialize (Hy _ Hz). lia.
Qed.

(** The first element is the least, the last one the greatest. *)
Lemma ascending_bounds l x xl : ascending l -> head l = Some x -> last l = Some xl -> forall y, y ∈ l -> key x <= key y <= key xl.
Proof.
  revert x. induction l as [|z l IH]; intros x Hs Hh Hl y Hy; [done|]. injection Hh as ->. apply ascending_cons in Hs as [Hs Hx]. destruct l as [|z l].
  - injection Hl as ->. apply list_elem_of_singleton in Hy as ->. lia.
  - rewrite last_cons_cons in Hl. pose proof (IH z Hs eq_refl Hl) as Hb. pose proof (Hx z ltac:(by left)). apply elem_of_cons in Hy as [->|Hy]; [specialize (Hb z ltac:(by left)); lia|]. specialize (Hb y Hy). lia.
Qed.

Lemma app_union a b : ascending a -> ascending b -> (forall x y, x ∈ a -> y ∈ b -> key x < key y) -> posting_union a b (a ++ b).
Proof. intros Ha Hb Hlt. split; [by apply ascending_app|]. intros ip. apply elem_of_app. Qed.

(** The arrays do not overlap: all of one come before all of the other. *)
Lemma apart a b xl y : Forall valid_ip a -> Forall valid_ip b -> ascending a -> ascending b -> last a = Some xl -> head b = Some y -> ginCompareItemPointers xl y < 0 -> posting_union a b (a ++ b).
Proof.
  intros Hva Hvb Ha Hb Hl Hh Hc. apply app_union; [done|done|]. intros u v Hu Hv. destruct a as [|x a]; [done|]. destruct (last b) as [yl|] eqn:Elb; [|apply last_None in Elb; by subst].
  pose proof (ascending_bounds _ x xl Ha eq_refl Hl u Hu). pose proof (ascending_bounds _ y yl Hb Hh Elb v Hv). rewrite compare_key in Hc.
  - revert Hc. repeat zcase; lia.
  - eapply Forall_forall; [exact Hva|]. apply last_Some_elem_of in Hl. done.
  - eapply Forall_forall; [exact Hvb|]. by apply head_Some_elem_of.
Qed.

(** C18. Compression of an ascending array of valid item pointers returns a segment of at most [maxsize] bytes
    that holds the first [n] of them, [n] at least 1, and decompression gives exactly these back; the
    padding byte is zero, and when items are left over, the next one would not have fitted. *)
Theorem posting_roundtrip ipd maxsize block buf : list_ok ipd -> 0 <= maxsize < 2 ^ 31 -> OffsetOfBytes < SHORTALIGN_DOWN maxsize < 2 ^ 16 -> SHORTALIGN_DOWN maxsize <= lenZ block -> lenZ buf = MaxBytesPerInteger ->
  exists s n, ginCompressPostingList ipd maxsize block buf = Ok (s, n) /\ 1 <= n <= lenZ ipd /\ SizeOfGinPostingList s 0 <= lenZ s <= maxsize /\
    ginPostingListDecode s 0 = Ok (take (Z.to_nat n) ipd) /\
    (SHORTALIGN (nbytes s 0) <> nbytes s 0 -> nthZ s (OffsetOfBytes + nbytes s 0) = 0) /\
    (n < lenZ ipd -> SHORTALIGN_DOWN maxsize < OffsetOfBytes + code_size (take (S (Z.to_nat n)) ipd)).
Proof.
  intros Hok Hm Hmax Hblock Hbuf. destruct (compress_list_ok ipd maxsize block buf Hok Hmax Hblock Hm Hbuf) as (s & n & Hrun & Hp). exists s, n. pose proof (SHORTALIGN_DOWN_val maxsize ltac:(lia)) as Hd.
  split_and!; [done|apply Hp|apply Hp|rewrite (pk_len _ _ _ _ Hp); apply Hp| | | |].
  - rewrite (pk_len _ _ _ _ Hp), Hd. Z.to_euclidean_division_equations. lia.
  - by eapply decode_packed.
  - apply Hp.
  - intros Hlt. destruct (take (S (Z.to_nat n)) ipd) as [|first rest] eqn:E; [destruct ipd; [by destruct Hok|done]|]. by eapply (pk_full _ _ _ _ Hp).
Qed.

(** Segments stored one after the other, each compressed from a whole ascending array and cut to
    its own size, decode together to the concatenation of the arrays. *)
Theorem posting_segments ipds ss : ss <> [] ->
  Forall2 (fun ipd s => list_ok ipd /\ exists maxsize block buf, 0 <= maxsize < 2 ^ 31 /\ OffsetOfBytes < SHORTALIGN_DOWN maxsize < 2 ^ 16 /\ SHORTALIGN_DOWN maxsize <= lenZ block /\
    lenZ buf = MaxBytesPerInteger /\ ginCompressPostingList ipd maxsize block buf = Ok (s, lenZ ipd)) ipds ss ->
  ginPostingListDecodeAllSegments (concat (map trim ss)) 0 (lenZ (concat (map trim ss))) = Ok (concat ipds).
Proof.
  intros Hne Hall. rewrite <- (Z.sub_0_r (lenZ _)). apply decode_all_ok.
  - apply (whole_segments ipds ss []). eapply Forall2_impl; [exact Hall|]. intros ipd s (Hok & maxsize & block & buf & H1 & H2 & H3 & H4 & H5). exists (SHORTALIGN_DOWN maxsize).
    destruct (compress_list_ok ipd maxsize block buf Hok H2 H3 H1 H4) as (s' & n & Hrun & Hp). rewrite H5 in Hrun. by injection Hrun as <- <-.
  - intros ->. apply Hne. by inversion Hall.
Qed.

(** C19. Removing items never makes a list longer: when all of [ipd] was compressed within [maxsize], so is
    any nonempty subsequence of it, whatever the memory of the block, and its segment is no larger. *)
Theorem posting_removal ipd ipd' maxsize block block' buf s : list_ok ipd -> ipd' `sublist_of` ipd -> ipd' <> [] -> 0 <= maxsize < 2 ^ 31 -> OffsetOfBytes < SHORTALIGN_DOWN maxsize < 2 ^ 16 ->
  SHORTALIGN_DOWN maxsize <= lenZ block -> SHORTALIGN_DOWN maxsize <= lenZ block' -> lenZ buf = MaxBytesPerInteger -> ginCompressPostingList ipd maxsize block buf = Ok (s, lenZ ipd) ->
  exists s', ginCompressPostingList ipd' maxsize block' buf = Ok (s', lenZ ipd') /\ SizeOfGinPostingList s' 0 <= SizeOfGinPostingList s 0.
Proof.
  intros Hok Hsub Hne Hm Hmax Hb Hb' Hbuf Hrun. destruct (code_size_sublist _ _ Hsub Hok Hne) as [Hok' Hle].
  destruct (compress_list_ok ipd maxsize block buf Hok Hmax Hb Hm Hbuf) as (s0 & n0 & Hrun0 & Hp). rewrite Hrun in Hrun0. injection Hrun0 as <- <-. pose proof (whole_size _ _ _ Hp) as Hsz. pose proof (pk_size _ _ _ _ Hp) as Hlim.
  destruct (compress_list_ok ipd' maxsize block' buf Hok' Hmax Hb' Hm Hbuf) as (s' & n' & Hrun' & Hp'). assert (Hn' : n' = lenZ ipd').
  { eapply fits_whole; [done|exact Hp'|]. rewrite Hsz in Hlim. Z.to_euclidean_division_equations. lia. }
  subst n'. exists s'. split; [done|]. rewrite (whole_size _ _ _ Hp'), Hsz. Z.to_euclidean_division_equations. lia.
Qed.

(** C20. Merging two ascending arrays gives the ascending array of their union, in which an item of both
    appears once, and which fits in the space for both. *)
Theorem posting_merge a b : Forall valid_ip a -> Forall valid_ip b -> ascending a -> ascending b ->
  posting_union a b (ginMergeItemPointers a b) /\ lenZ (ginMergeItemPointers a b) <= lenZ a + lenZ b.
Proof.
  intros Hva Hvb Ha Hb. unfold ginMergeItemPointers, lenZ. destruct a as [|x a]; [split; [|cbn; lia]; split; [done|]; intros ip; cbn; rewrite elem_of_nil; tauto|].
  destruct b as [|y b]; [rewrite app_nil_r; split; [|cbn; lia]; split; [done|]; intros ip; rewrite elem_of_nil; tauto|]. destruct (last (x :: a)) as [xl|] eqn:Ela; [|by apply last_None in Ela].
  destruct (last (y :: b)) as [yl|] eqn:Elb; [|by apply last_None in Elb]. zcase; [split; [by eapply apart|rewrite length_app; lia]|].
  zcase; [split; [by eapply union_comm, apart|rewrite length_app; lia]|]. destruct (merge_ok (x :: a) (y :: b) Hva Hvb Ha Hb) as [Hu Hl]. split; [done|lia].
Qed.

(** ** Witnesses *)
Definition ex_ipd : list ItemPointerData := [mkItemPointer 3 7; mkItemPointer 3 9; mkItemPointer 70000 1; mkItemPointer 4294967294 291].
Definition ex_ipd2 : list ItemPointerData := [mkItemPointer 3 8; mkItemPointer 3 9; mkItemPointer 70001 2].

Lemma valid_ips l : forallb (fun ip => (0 <=? ip_blkid ip) && (ip_blkid ip <? 2 ^ 32) && (0 <? ip_posid ip) && (ip_posid ip <? 2048)) l = true -> Forall valid_ip l.
Proof. rewrite forallb_forall, <- Stdlib.Lists.List.Forall_forall. intros Hl. eapply Forall_impl; [exact Hl|]. intros ip H. cbn beta in H. rewrite !andb_true_iff, !Z.ltb_lt, Z.leb_le in H. unfold valid_ip, is_u. lia. Qed.

Lemma ex_ipd_ok : list_ok ex_ipd /\ list_ok ex_ipd2.
Proof. split; (split; [discriminate|split; [by apply valid_ips|repeat constructor]]). Qed.

Lemma posting_roundtrip_witness : exists s n, ginCompressPostingList ex_ipd 19 (repeat 255 19) (repeat 255 7) = Ok (s, n) /\ n = 3 /\ ginPostingListDecode s 0 = Ok (take 3 ex_ipd).
Proof.
  destruct (posting_roundtrip ex_ipd 19 (repeat 255 19) (repeat 255 7)) as (s & n & Hrun & _ & _ & Hdec & _); [apply ex_ipd_ok|lia|by vm_compute|by vm_compute|done|].
  exists s, n. assert (Hn : n = 3) by (vm_compute in Hrun; by injection Hrun as _ <-). subst n. done.
Defined.

Lemma posting_segments_witness : exists s1 s2, ginCompressPostingList ex_ipd 40 (repeat 255 40) (repeat 255 7) = Ok (s1, 4) /\ ginCompressPostingList ex_ipd2 384 (repeat 255 384) (repeat 255 7) = Ok (s2, 3) /\
  ginPostingListDecodeAllSegments (trim s1 ++ trim s2) 0 (lenZ (trim s1 ++ trim s2)) = Ok (ex_ipd ++ ex_ipd2).
Proof.
  destruct (ginCompressPostingList ex_ipd 40 (repeat 255 40) (repeat 255 7)) as [[s1 n1]| | |] eqn:E1; [|vm_compute in E1; discriminate E1..].
  destruct (ginCompressPostingList ex_ipd2 384 (repeat 255 384) (repeat 255 7)) as [[s2 n2]| | |] eqn:E2; [|vm_compute in E2; discriminate E2..].
  assert (n1 = 4) as -> by (vm_compute in E1; by injection E1 as _ <-). assert (n2 = 3) as -> by (vm_compute in E2; by injection E2 as _ <-). exists s1, s2. split; [done|]. split; [done|].
  rewrite <- (app_nil_r (trim s2)), <- (app_nil_r ex_ipd2). apply (posting_segments [ex_ipd; ex_ipd2] [s1; s2]); [done|]. constructor; [|constructor; [|constructor]]; (split; [apply ex_ipd_ok|]).
  - exists 40, (repeat 255 40), (repeat 255 7). split_and!; try done; by vm_compute.
  - exists 384, (repeat 255 384), (repeat 255 7). split_and!; try done; by vm_compute.
Defined.

Lemma posting_removal_witness : exists s', ginCompressPostingList [mkItemPointer 3 9; mkItemPointer 4294967294 291] 22 (repeat 0 22) (repeat 255 7) = Ok (s', 2).
Proof.
  destruct (ginCompressPostingList ex_ipd 22 (repeat 255 22) (repeat 255 7)) as [[s1 n1]| | |] eqn:E1; [|vm_compute in E1; discriminate E1..].
  assert (n1 = 4) as -> by (vm_compute in E1; by injection E1 as _ <-).
  destruct (posting_removal ex_ipd [mkItemPointer 3 9; mkItemPointer 4294967294 291] 22 (repeat 255 22) (repeat 0 22) (repeat 255 7) s1) as (s' & Hs' & _); try done; [apply ex_ipd_ok| |].
  - unfold ex_ipd. by repeat constructor.
  - by exists s'.
Defined.

Lemma posting_merge_witness : posting_union ex_ipd ex_ipd2 [mkItemPointer 3 7; mkItemPointer 3 8; mkItemPointer 3 9; mkItemPointer 70000 1; mkItemPointer 70001 2; mkItemPointer 4294967294 291].
Proof. apply (posting_merge ex_ipd ex_ipd2); apply ex_ipd_ok. Defined.
