(* ===== verification/Loop.v ===== *)
(** Loops bounded by a binary number. *)
From S2P Require Import Prelude.

(** [loop_upto n step s] iterates [step] at most [n] times, until it returns a result. *)
Fixpoint loop_upto {S A} (n : positive) (step : S -> res (S + A)) (s : S) : res (S + A) :=
  match n with
  | xH => step s
  | xO n => r ← loop_upto n step s; match r with inl s => loop_upto n step s | inr a => Ok (inr a) end
  | xI n => r ← step s; match r with inl s => r ← loop_upto n step s; match r with inl s => loop_upto n step s | inr a => Ok (inr a) end | inr a => Ok (inr a) end
  end.
Definition run_loop {S A} (n : positive) (step : S -> res (S + A)) (s : S) : res A :=
  r ← loop_upto n step s; match r with inl _ => OutOfFuel | inr a => Ok a end.

(** [I n s]: the loop is in state [s] with at most [n] turns to go. *)
Lemma loop_upto_ok {S A} (step : S -> res (S + A)) (I : Z -> S -> Prop) (Q : A -> Prop) :
  (forall m s, I m s -> exists r, step s = Ok r /\ match r with inl s' => exists m', I m' s' /\ m' < m | inr a => Q a end) ->
  forall n m s, I m s -> exists r, loop_upto n step s = Ok r /\ match r with inl s' => exists m', I m' s' /\ m' <= m - Zpos n | inr a => Q a end.
Proof.
  intros Hstep. induction n as [n IH|n IH|]; intros m s Hs; cbn [loop_upto].
  - destruct (Hstep m s Hs) as (r & -> & Hr). rewrite bind_val. destruct r as [s1|a]; [|by exists (inr a)]. destruct Hr as (m1 & H1 & L1). destruct (IH m1 s1 H1) as (r & -> & Hr). rewrite bind_val. destruct r as [s2|a]; [|by exists (inr a)].
    destruct Hr as (m2 & H2 & L2). destruct (IH m2 s2 H2) as (r & -> & Hr). exists r. split; [done|]. destruct r; [|done]. destruct Hr as (m3 & H3 & L3). exists m3. split; [done|lia].
  - destruct (IH m s Hs) as (r & -> & Hr). rewrite bind_val. destruct r as [s2|a]; [|by exists (inr a)]. destruct Hr as (m2 & H2 & L2). destruct (IH m2 s2 H2) as (r & -> & Hr). exists r. split; [done|]. destruct r; [|done]. destruct Hr as (m3 & H3 & L3). exists m3. split; [done|lia].
  - destruct (Hstep m s Hs) as (r & -> & Hr). exists r. split; [done|]. destruct r; [|done]. destruct Hr as (m1 & H1 & L1). exists m1. split; [done|lia].
Qed.

(** A loop whose count of turns is not negative and below the bound ends with a result. *)
Lemma run_loop_count {S A} (step : S -> res (S + A)) (I : Z -> S -> Prop) (Q : A -> Prop) n m s :
  (forall m s, I m s -> exists r, step s = Ok r /\ match r with inl s' => exists m', I m' s' /\ m' < m | inr a => Q a end) ->
  (forall m s, I m s -> 0 <= m) -> I m s -> m < Zpos n -> exists a, run_loop n step s = Ok a /\ Q a.
Proof.
  intros Hstep Hpos Hs Hn. unfold run_loop. destruct (loop_upto_ok step I Q Hstep n m s Hs) as (r & -> & Hr). rewrite bind_val. destruct r as [s'|a]; [|by exists a]. destruct Hr as (m' & Hs' & Hmu). specialize (Hpos m' s' Hs'). lia.
Qed.
Lemma run_loop_ok {S A} (step : S -> res (S + A)) (I : S -> Prop) (mu : S -> Z) (Q : A -> Prop) n s :
  (forall s, I s -> exists r, step s = Ok r /\ match r with inl s' => I s' /\ mu s' < mu s | inr a => Q a end) ->
  (forall s, I s -> 0 <= mu s) -> I s -> mu s < Zpos n -> exists a, run_loop n step s = Ok a /\ Q a.
Proof.
  intros Hstep Hpos Hs Hn. apply (run_loop_count step (fun m s => I s /\ m = mu s) Q n (mu s)); [|by intros m s' [H ->]; apply Hpos|done|done]. intros m s' [H ->]. destruct (Hstep s' H) as (r & -> & Hr). exists r. split; [done|]. destruct r; [|done]. destruct Hr. by eexists.
Qed.
