(* ===== verification/TidBitmap.v ===== *)
(** Bitmaps of tuple identifiers: [src/backend/nodes/tidbitmap.c] with [nodes/tidbitmap.h].

    A bitmap remembers for each page the offsets of the tuples, or, to save memory, only the page:
    pages whose tuples are forgotten are bits of a chunk that shares the hash table with the
    entries of single pages.  The file uses the hash table only through the class [PageTableOps];
    the tables of [lib/simplehash.h] are the instance of it below.

    A pointer to an entry is [Entry1], the entry embedded in the bitmap, or an index into the
    elements of the table. *)
From S2P Require Import Prelude Hashfn SimpleHash BufPage GinPosting Loop.

(** ** Data *)
Definition MAX_TUPLES_PER_PAGE : Z := MaxHeapTuplesPerPage.
Definition PAGES_PER_CHUNK : Z := BLCKSZ / 32.
Definition BITS_PER_WORD : Z := 64.
Definition TBM_WORDNUM (x : Z) : Z := x / BITS_PER_WORD.
Definition TBM_BITNUM (x : Z) : Z := x `mod` BITS_PER_WORD.
Definition WORDS_PER_PAGE : Z := (MAX_TUPLES_PER_PAGE - 1) / BITS_PER_WORD + 1.
Definition WORDS_PER_CHUNK : Z := (PAGES_PER_CHUNK - 1) / BITS_PER_WORD + 1.
Definition InvalidBlock : Z := 2 ^ 32 - 1.

(** [PagetableEntry] without its key, which the hash table keeps, and its status. *)
Record PageData := mkPage { ischunk : bool; page_recheck : bool; page_words : list Z }.
#[export] Instance PageData_eq_dec : EqDecision PageData.
Proof. solve_decision. Defined.
Record PagetableEntry := mkPTE { pte_blockno : Z; pte_data : PageData }.

(** All bytes zero. *)
Definition zero_page_data : PageData := mkPage false false (replicate (Z.to_nat (Z.max WORDS_PER_PAGE WORDS_PER_CHUNK)) 0).
Definition zero_chunk : PageData := mkPage true false (page_words zero_page_data).

Inductive TBMStatus := TBM_EMPTY | TBM_ONE_PAGE | TBM_HASH.
Inductive TBMIteratingState := TBM_NOT_ITERATING | TBM_ITERATING_PRIVATE | TBM_ITERATING_SHARED.

(** ** The hash table interface *)
Class PageTableOps (T I : Type) := {
  pagetable_create : Z -> res T;
  pagetable_insert : T -> Z -> res (T * Z * bool);
  pagetable_lookup : T -> Z -> res (option Z);
  pagetable_delete : T -> Z -> res (T * bool);
  pagetable_start_iterate : T -> I;
  pagetable_start_iterate_at : T -> Z -> I;
  pagetable_iterate : T -> I -> res (I * option Z);
  iter_cur : I -> Z;
  pt_get : T -> Z -> res PagetableEntry;
  pt_put : T -> Z -> PageData -> res T }.

Definition sizeof_PagetableEntry : Z := 48.
#[export] Instance simplehash_ops : PageTableOps (SH_TYPE Z PageData) SH_ITERATOR := {
  pagetable_create := SH_CREATE 0 zero_page_data sizeof_PagetableEntry;
  pagetable_insert := SH_INSERT 0 zero_page_data sizeof_PagetableEntry murmurhash32;
  pagetable_lookup := SH_LOOKUP murmurhash32;
  pagetable_delete := SH_DELETE murmurhash32;
  pagetable_start_iterate := SH_START_ITERATE;
  pagetable_start_iterate_at := SH_START_ITERATE_AT;
  pagetable_iterate := SH_ITERATE;
  iter_cur := it_cur;
  pt_get := fun t p => e ← elem_get t p; Ok (mkPTE (SH_KEY e) (sh_val e));
  pt_put := elem_put }.

Section Bitmap.
Context {T I : Type} {OP : PageTableOps T I}.

Record TIDBitmap := mkTBM {
  tbm_status : TBMStatus; pagetable : option T; nentries : Z; maxentries : Z; npages : Z; nchunks : Z;
  iterating : TBMIteratingState; lossify_start : Z; entry1 : PagetableEntry; spages : option (list Z); schunks : option (list Z) }.

Definition set_status (tbm : TIDBitmap) (st : TBMStatus) : TIDBitmap :=
  mkTBM st (pagetable tbm) (nentries tbm) (maxentries tbm) (npages tbm) (nchunks tbm) (iterating tbm) (lossify_start tbm) (entry1 tbm) (spages tbm) (schunks tbm).
Definition set_table (tbm : TIDBitmap) (t : T) : TIDBitmap :=
  mkTBM (tbm_status tbm) (Some t) (nentries tbm) (maxentries tbm) (npages tbm) (nchunks tbm) (iterating tbm) (lossify_start tbm) (entry1 tbm) (spages tbm) (schunks tbm).
(** Add to the counts of entries, pages and chunks. *)
Definition count (tbm : TIDBitmap) (e p c : Z) : TIDBitmap :=
  mkTBM (tbm_status tbm) (pagetable tbm) (wraps 32 (nentries tbm + e)) (maxentries tbm) (wraps 32 (npages tbm + p)) (wraps 32 (nchunks tbm + c)) (iterating tbm) (lossify_start tbm) (entry1 tbm) (spages tbm) (schunks tbm).
Definition set_entry1 (tbm : TIDBitmap) (e : PagetableEntry) : TIDBitmap :=
  mkTBM (tbm_status tbm) (pagetable tbm) (nentries tbm) (maxentries tbm) (npages tbm) (nchunks tbm) (iterating tbm) (lossify_start tbm) e (spages tbm) (schunks tbm).
Definition set_limits (tbm : TIDBitmap) (mx ls : Z) : TIDBitmap :=
  mkTBM (tbm_status tbm) (pagetable tbm) (nentries tbm) mx (npages tbm) (nchunks tbm) (iterating tbm) ls (entry1 tbm) (spages tbm) (schunks tbm).
Definition set_lists (tbm : TIDBitmap) (it : TBMIteratingState) (sp sc : option (list Z)) : TIDBitmap :=
  mkTBM (tbm_status tbm) (pagetable tbm) (nentries tbm) (maxentries tbm) (npages tbm) (nchunks tbm) it (lossify_start tbm) (entry1 tbm) sp sc.

Definition table_of (tbm : TIDBitmap) : res T := match pagetable tbm with Some t => Ok t | None => Undef end.

Inductive pageptr := Entry1 | InTable (p : Z).
Definition page_get (tbm : TIDBitmap) (ptr : pageptr) : res PagetableEntry :=
  match ptr with
  | Entry1 => Ok (entry1 tbm)
  | InTable p => t ← table_of tbm; pt_get t p
  end.
Definition page_put (tbm : TIDBitmap) (ptr : pageptr) (d : PageData) : res TIDBitmap :=
  match ptr with
  | Entry1 => Ok (set_entry1 tbm (mkPTE (pte_blockno (entry1 tbm)) d))
  | InTable p => t ← table_of tbm; t ← pt_put t p d; Ok (set_table tbm t)
  end.

(** [words[wordnum] |= (bitmapword) 1 << bitnum]. *)
Definition set_word_bit (words : list Z) (wordnum bitnum : Z) : res (list Z) :=
  w ← aget words wordnum; aset words wordnum (Z.lor w (wrapu 64 (Z.shiftl 1 bitnum))).
Definition test_word_bit (words : list Z) (wordnum bitnum : Z) : res bool :=
  w ← aget words wordnum; Ok (negb (Z.land w (wrapu 64 (Z.shiftl 1 bitnum)) =? 0)).

(** ** Creation *)
(** The division is of doubles; it is exact for sizes below 2^53. *)
Definition tbm_calculate_entries (maxbytes : Z) : Z :=
  let nbuckets := Z.quot maxbytes (sizeof_PagetableEntry + 8 + 8) in
  let nbuckets := Z.min nbuckets (2 ^ 31 - 1 - 1) in
  Z.max nbuckets 16.
Definition tbm_create (maxbytes : Z) : TIDBitmap :=
  mkTBM TBM_EMPTY None 0 (wraps 32 (tbm_calculate_entries maxbytes)) 0 0 TBM_NOT_ITERATING 0 (mkPTE 0 zero_page_data) None None.

Definition tbm_create_pagetable (tbm : TIDBitmap) : res TIDBitmap :=
  t ← pagetable_create 128;
  t ← (match tbm_status tbm with
       | TBM_ONE_PAGE => '(t, page, _) ← pagetable_insert t (pte_blockno (entry1 tbm)); pt_put t page (pte_data (entry1 tbm))
       | _ => Ok t
       end);
  Ok (set_status (set_table tbm t) TBM_HASH).

(** ** Entries *)
Definition tbm_find_pageentry (tbm : TIDBitmap) (pageno : Z) : res (option PagetableEntry) :=
  if nentries tbm =? 0 then Ok None
  else match tbm_status tbm with
  | TBM_ONE_PAGE => if negb (pte_blockno (entry1 tbm) =? pageno) then Ok None else Ok (Some (entry1 tbm))
  | _ =>
    t ← table_of tbm;
    p ← pagetable_lookup t pageno;
    match p with
    | None => Ok None
    | Some p => page ← pt_get t p; if ischunk (pte_data page) then Ok None else Ok (Some page)
    end
  end.

Definition tbm_get_pageentry (tbm : TIDBitmap) (pageno : Z) : res (TIDBitmap * pageptr) :=
  match tbm_status tbm with
  | TBM_EMPTY =>
    let tbm := set_entry1 (set_status tbm TBM_ONE_PAGE) (mkPTE pageno zero_page_data) in
    Ok (count tbm 1 1 0, Entry1)
  | st =>
    if (match st with TBM_ONE_PAGE => true | _ => false end) && (pte_blockno (entry1 tbm) =? pageno) then Ok (tbm, Entry1)
    else
      tbm ← (match st with TBM_ONE_PAGE => tbm_create_pagetable tbm | _ => Ok tbm end);
      t ← table_of tbm;
      '(t, page, found) ← pagetable_insert t pageno;
      if (found : bool) then Ok (set_table tbm t, InTable page)
      else
        t ← pt_put t page zero_page_data;
        Ok (count (set_table tbm t) 1 1 0, InTable page)
  end.

Definition tbm_page_is_lossy (tbm : TIDBitmap) (pageno : Z) : res bool :=
  if nchunks tbm =? 0 then Ok false
  else
    let bitno := pageno `mod` PAGES_PER_CHUNK in
    let chunk_pageno := pageno - bitno in
    t ← table_of tbm;
    p ← pagetable_lookup t chunk_pageno;
    match p with
    | None => Ok false
    | Some p =>
      page ← pt_get t p;
      if ischunk (pte_data page) then test_word_bit (page_words (pte_data page)) (TBM_WORDNUM bitno) (TBM_BITNUM bitno) else Ok false
    end.

Definition tbm_mark_page_lossy (tbm : TIDBitmap) (pageno : Z) : res TIDBitmap :=
  tbm ← (match tbm_status tbm with TBM_HASH => Ok tbm | _ => tbm_create_pagetable tbm end);
  let bitno := pageno `mod` PAGES_PER_CHUNK in
  let chunk_pageno := pageno - bitno in
  tbm ← (if negb (bitno =? 0) then
           t ← table_of tbm;
           '(t, deleted) ← pagetable_delete t pageno;
           Ok (if (deleted : bool) then count (set_table tbm t) (-1) (-1) 0 else set_table tbm t)
         else Ok tbm);
  t ← table_of tbm;
  '(t, page, found) ← pagetable_insert t chunk_pageno;
  '(tbm, t) ← (if negb (found : bool) then
                 t ← pt_put t page zero_chunk;
                 Ok (count (set_table tbm t) 1 0 1, t)
               else
                 e ← pt_get t page;
                 if negb (ischunk (pte_data e)) then
                   words ← aset (page_words zero_chunk) 0 (wrapu 64 (Z.shiftl 1 0));
                   t ← pt_put t page (mkPage true false words);
                   Ok (count (set_table tbm t) 0 (-1) 1, t)
                 else Ok (set_table tbm t, t));
  e ← pt_get t page;
  words ← set_word_bit (page_words (pte_data e)) (TBM_WORDNUM bitno) (TBM_BITNUM bitno);
  t ← pt_put t page (mkPage (ischunk (pte_data e)) (page_recheck (pte_data e)) words);
  Ok (set_table tbm t).

(** One turn of the scan: the bitmap and the iterator, or the bitmap when the scan ends. *)
Definition lossify_step (s : TIDBitmap * I) : res ((TIDBitmap * I) + TIDBitmap) :=
  let '(tbm, it) := s in
  t ← table_of tbm;
  '(it, p) ← pagetable_iterate t it;
  match p with
  | None => Ok (inr tbm)
  | Some p =>
    page ← pt_get t p;
    if ischunk (pte_data page) then Ok (inl (tbm, it))
    else if pte_blockno page `mod` PAGES_PER_CHUNK =? 0 then Ok (inl (tbm, it))
    else
      tbm ← tbm_mark_page_lossy tbm (pte_blockno page);
      if nentries tbm <=? Z.quot (maxentries tbm) 2 then Ok (inr (set_limits tbm (maxentries tbm) (iter_cur it)))
      else Ok (inl (tbm, it))
  end.
Definition lossify_fuel : positive := 2 ^ 70.
Definition tbm_lossify (tbm : TIDBitmap) : res TIDBitmap :=
  t ← table_of tbm;
  tbm ← run_loop lossify_fuel lossify_step (tbm, pagetable_start_iterate_at t (lossify_start tbm));
  Ok (if Z.quot (maxentries tbm) 2 <? nentries tbm
      then set_limits tbm (wraps 32 (Z.min (nentries tbm) (Z.quot (2 ^ 31 - 1 - 1) 2) * 2)) (lossify_start tbm) else tbm).

(** ** Adding *)
(** The loop over the tuples; [page] is only valid when [currblk] is. *)
Fixpoint add_tuples (tids : list ItemPointerData) (recheck : bool) (tbm : TIDBitmap) (currblk : Z) (page : option pageptr) : res TIDBitmap :=
  match tids with
  | [] => Ok tbm
  | tid :: tids =>
    let blk := ip_blkid tid in
    let off := ip_posid tid in
    if (off <? 1) || (MAX_TUPLES_PER_PAGE <? off) then Err "tuple offset out of range"
    else
      '(tbm, page, currblk) ← (if negb (blk =? currblk) then
                                 lossy ← tbm_page_is_lossy tbm blk;
                                 if (lossy : bool) then Ok (tbm, None, blk)
                                 else '(tbm, p) ← tbm_get_pageentry tbm blk; Ok (tbm, Some p, blk)
                               else Ok (tbm, page, currblk));
      match page with
      | None => add_tuples tids recheck tbm currblk page
      | Some p =>
        e ← page_get tbm p;
        let '(wordnum, bitnum) := if ischunk (pte_data e) then (0, 0) else (TBM_WORDNUM (off - 1), TBM_BITNUM (off - 1)) in
        words ← set_word_bit (page_words (pte_data e)) wordnum bitnum;
        tbm ← page_put tbm p (mkPage (ischunk (pte_data e)) (page_recheck (pte_data e) || recheck) words);
        if maxentries tbm <? nentries tbm then
          tbm ← tbm_lossify tbm;
          add_tuples tids recheck tbm InvalidBlock page
        else add_tuples tids recheck tbm currblk page
      end
  end.
Definition tbm_add_tuples (tbm : TIDBitmap) (tids : list ItemPointerData) (recheck : bool) : res TIDBitmap := add_tuples tids recheck tbm InvalidBlock None.

Definition tbm_add_page (tbm : TIDBitmap) (pageno : Z) : res TIDBitmap :=
  tbm ← tbm_mark_page_lossy tbm pageno;
  if maxentries tbm <? nentries tbm then tbm_lossify tbm else Ok tbm.

(** ** Union *)
Fixpoint union_bits (fuel : nat) (a : TIDBitmap) (w pg : Z) : res TIDBitmap :=
  if w =? 0 then Ok a
  else match fuel with
  | O => OutOfFuel
  | S fuel =>
    a ← (if negb (Z.land w 1 =? 0) then tbm_mark_page_lossy a pg else Ok a);
    union_bits fuel a (Z.shiftr w 1) (wrapu 32 (pg + 1))
  end.
(** [n] words are left, from [wordnum] on. *)
Fixpoint union_words (n : nat) (a : TIDBitmap) (bpage : PagetableEntry) (wordnum : Z) : res TIDBitmap :=
  match n with
  | O => Ok a
  | S n =>
    w ← aget (page_words (pte_data bpage)) wordnum;
    a ← (if negb (w =? 0) then union_bits 64 a w (wrapu 32 (pte_blockno bpage + wordnum * BITS_PER_WORD)) else Ok a);
    union_words n a bpage (wordnum + 1)
  end.
Fixpoint or_words (n : nat) (awords bwords : list Z) (wordnum : Z) : res (list Z) :=
  match n with
  | O => Ok awords
  | S n =>
    aw ← aget awords wordnum;
    bw ← aget bwords wordnum;
    awords ← aset awords wordnum (Z.lor aw bw);
    or_words n awords bwords (wordnum + 1)
  end.

Definition tbm_union_page (a : TIDBitmap) (bpage : PagetableEntry) : res TIDBitmap :=
  r ← (if ischunk (pte_data bpage) then
         a ← union_words (Z.to_nat WORDS_PER_CHUNK) a bpage 0; Ok (inl a)
       else
         lossy ← tbm_page_is_lossy a (pte_blockno bpage);
         if (lossy : bool) then Ok (inr a)
         else
           '(a, p) ← tbm_get_pageentry a (pte_blockno bpage);
           apage ← page_get a p;
           if ischunk (pte_data apage) then
             words ← set_word_bit (page_words (pte_data apage)) 0 0;
             a ← page_put a p (mkPage true (page_recheck (pte_data apage)) words); Ok (inl a)
           else
             words ← or_words (Z.to_nat WORDS_PER_PAGE) (page_words (pte_data apage)) (page_words (pte_data bpage)) 0;
             a ← page_put a p (mkPage false (page_recheck (pte_data apage) || page_recheck (pte_data bpage)) words); Ok (inl a));
  match r with
  | inr a => Ok a
  | inl a => if maxentries a <? nentries a then tbm_lossify a else Ok a
  end.

Definition scan_fuel : positive := 2 ^ 33.
Definition union_step (bt : T) (s : TIDBitmap * I) : res ((TIDBitmap * I) + TIDBitmap) :=
  let '(a, it) := s in
  '(it, p) ← pagetable_iterate bt it;
  match p with
  | None => Ok (inr a)
  | Some p => bpage ← pt_get bt p; a ← tbm_union_page a bpage; Ok (inl (a, it))
  end.
Definition tbm_union (a b : TIDBitmap) : res TIDBitmap :=
  if nentries b =? 0 then Ok a
  else match tbm_status b with
  | TBM_ONE_PAGE => tbm_union_page a (entry1 b)
  | _ => bt ← table_of b; run_loop scan_fuel (union_step bt) (a, pagetable_start_iterate bt)
  end.

(** ** Intersection *)
Fixpoint intersect_bits (fuel : nat) (b : TIDBitmap) (w neww pg bitnum : Z) : res Z :=
  if w =? 0 then Ok neww
  else match fuel with
  | O => OutOfFuel
  | S fuel =>
    neww ← (if negb (Z.land w 1 =? 0) then
              lossy ← tbm_page_is_lossy b pg;
              if (lossy : bool) then Ok neww
              else
                e ← tbm_find_pageentry b pg;
                match e with
                | None => Ok (Z.land neww (notu 64 (wrapu 64 (Z.shiftl 1 bitnum))))
                | Some _ => Ok neww
                end
            else Ok neww);
    intersect_bits fuel b (Z.shiftr w 1) neww (wrapu 32 (pg + 1)) (bitnum + 1)
  end.
Fixpoint intersect_chunk (n : nat) (b : TIDBitmap) (blkno : Z) (words : list Z) (candelete : bool) (wordnum : Z) : res (list Z * bool) :=
  match n with
  | O => Ok (words, candelete)
  | S n =>
    w ← aget words wordnum;
    if negb (w =? 0) then
      neww ← intersect_bits 64 b w w (wrapu 32 (blkno + wordnum * BITS_PER_WORD)) 0;
      words ← aset words wordnum neww;
      intersect_chunk n b blkno words (candelete && (neww =? 0)) (wordnum + 1)
    else intersect_chunk n b blkno words candelete (wordnum + 1)
  end.
Fixpoint and_words (n : nat) (awords bwords : list Z) (candelete : bool) (wordnum : Z) : res (list Z * bool) :=
  match n with
  | O => Ok (awords, candelete)
  | S n =>
    aw ← aget awords wordnum;
    bw ← aget bwords wordnum;
    let w := Z.land aw bw in
    awords ← aset awords wordnum w;
    and_words n awords bwords (candelete && (w =? 0)) (wordnum + 1)
  end.

(** The new contents of the entry, and whether it is to be deleted. *)
Definition tbm_intersect_page (apage : PagetableEntry) (b : TIDBitmap) : res (PageData * bool) :=
  let d := pte_data apage in
  if ischunk d then
    '(words, candelete) ← intersect_chunk (Z.to_nat WORDS_PER_CHUNK) b (pte_blockno apage) (page_words d) true 0;
    Ok (mkPage true (page_recheck d) words, candelete)
  else
    lossy ← tbm_page_is_lossy b (pte_blockno apage);
    if (lossy : bool) then Ok (mkPage false true (page_words d), false)
    else
      bpage ← tbm_find_pageentry b (pte_blockno apage);
      match bpage with
      | None => Ok (d, true)
      | Some bpage =>
        '(words, candelete) ← and_words (Z.to_nat WORDS_PER_PAGE) (page_words d) (page_words (pte_data bpage)) true 0;
        Ok (mkPage false (page_recheck d || page_recheck (pte_data bpage)) words, candelete)
      end.

Definition intersect_step (b : TIDBitmap) (s : TIDBitmap * I) : res ((TIDBitmap * I) + TIDBitmap) :=
  let '(a, it) := s in
  t ← table_of a;
  '(it, p) ← pagetable_iterate t it;
  match p with
  | None => Ok (inr a)
  | Some p =>
    apage ← pt_get t p;
    '(d, candelete) ← tbm_intersect_page apage b;
    t ← pt_put t p d;
    let a := set_table a t in
    if (candelete : bool) then
      let a := if ischunk d then count a (-1) 0 (-1) else count a (-1) (-1) 0 in
      '(t, deleted) ← pagetable_delete t (pte_blockno apage);
      if negb (deleted : bool) then Err "hash table corrupted" else Ok (inl (set_table a t, it))
    else Ok (inl (a, it))
  end.
Definition tbm_intersect (a b : TIDBitmap) : res TIDBitmap :=
  if nentries a =? 0 then Ok a
  else match tbm_status a with
  | TBM_ONE_PAGE =>
    '(d, candelete) ← tbm_intersect_page (entry1 a) b;
    let a := set_entry1 a (mkPTE (pte_blockno (entry1 a)) d) in
    Ok (if (candelete : bool) then set_status (count a (-1) (-1) 0) TBM_EMPTY else a)
  | _ => t ← table_of a; run_loop scan_fuel (intersect_step b) (a, pagetable_start_iterate t)
  end.

Definition tbm_is_empty (tbm : TIDBitmap) : bool := nentries tbm =? 0.

(** ** Iteration *)
Definition tbm_comparator (l r : PagetableEntry) : Z :=
  if pte_blockno l <? pte_blockno r then -1 else if pte_blockno r <? pte_blockno l then 1 else 0.
(** The sort of the C library, on pointers. *)
Definition qsort_ptrs : Type := (Z -> Z -> Z) -> list Z -> list Z.
Definition ptr_comparator (t : T) (l r : Z) : Z :=
  match pt_get t l, pt_get t r with
  | Ok l, Ok r => tbm_comparator l r
  | _, _ => 0
  end.

Record TBMIterator := mkTBMIter { spageptr : Z; schunkptr : Z; schunkbit : Z }.

(** The pointers to the entries, exact pages and chunks apart, in the order of the table. *)
Definition collect_step (t : T) (s : list Z * list Z * I) : res ((list Z * list Z * I) + (list Z * list Z)) :=
  let '(pages, chunks, it) := s in
  '(it, p) ← pagetable_iterate t it;
  match p with
  | None => Ok (inr (pages, chunks))
  | Some p => page ← pt_get t p; Ok (inl (if ischunk (pte_data page) then (pages, chunks ++ [p], it) else (pages ++ [p], chunks, it)))
  end.
Definition tbm_begin_iterate (qsort : qsort_ptrs) (tbm : TIDBitmap) : res (TIDBitmap * TBMIterator) :=
  let iterator := mkTBMIter 0 0 0 in
  match tbm_status tbm, iterating tbm with
  | TBM_HASH, TBM_NOT_ITERATING =>
    t ← table_of tbm;
    '(pages, chunks) ← run_loop scan_fuel (collect_step t) ([], [], pagetable_start_iterate t);
    (* the arrays have room for [npages] and [nchunks] pointers *)
    if (npages tbm <? Z.of_nat (length pages)) || (nchunks tbm <? Z.of_nat (length chunks)) then Undef
    else
      let pages := if 1 <? Z.of_nat (length pages) then qsort (ptr_comparator t) pages else pages in
      let chunks := if 1 <? Z.of_nat (length chunks) then qsort (ptr_comparator t) chunks else chunks in
      Ok (set_lists tbm TBM_ITERATING_PRIVATE (Some pages) (Some chunks), iterator)
  | _, _ => Ok (set_lists tbm TBM_ITERATING_PRIVATE (spages tbm) (schunks tbm), iterator)
  end.

Record TBMIterateResult := mkResult { out_blockno : Z; out_ntuples : Z; out_recheck : bool; out_offsets : list Z }.

Fixpoint extract_bits (fuel : nat) (w off : Z) (offsets : list Z) : res (list Z) :=
  if w =? 0 then Ok offsets
  else match fuel with
  | O => OutOfFuel
  | S fuel =>
    offsets ← (if negb (Z.land w 1 =? 0) then
                 if MAX_TUPLES_PER_PAGE <=? Z.of_nat (length offsets) then Undef else Ok (offsets ++ [wrapu 16 off])
               else Ok offsets);
    extract_bits fuel (Z.shiftr w 1) (off + 1) offsets
  end.
Fixpoint extract_words (n : nat) (words : list Z) (wordnum : Z) (offsets : list Z) : res (list Z) :=
  match n with
  | O => Ok offsets
  | S n =>
    w ← aget words wordnum;
    offsets ← (if negb (w =? 0) then extract_bits 64 w (wordnum * BITS_PER_WORD + 1) offsets else Ok offsets);
    extract_words n words (wordnum + 1) offsets
  end.
Definition tbm_extract_page_tuple (page : PageData) : res (list Z) := extract_words (Z.to_nat WORDS_PER_PAGE) (page_words page) 0 [].

Fixpoint advance_bits (fuel : nat) (chunk : PageData) (bit : Z) : res Z :=
  if bit <? PAGES_PER_CHUNK then
    match fuel with
    | O => OutOfFuel
    | S fuel =>
      set ← test_word_bit (page_words chunk) (TBM_WORDNUM bit) (TBM_BITNUM bit);
      if (set : bool) then Ok bit else advance_bits fuel chunk (bit + 1)
    end
  else Ok bit.
Definition tbm_advance_schunkbit (chunk : PageData) (bit : Z) : res Z := advance_bits (Z.to_nat PAGES_PER_CHUNK) chunk bit.

Definition list_entry (tbm : TIDBitmap) (l : option (list Z)) (i : Z) : res PagetableEntry :=
  match l with
  | None => Undef
  | Some l => p ← aget l i; t ← table_of tbm; pt_get t p
  end.

(** Advance to the next set bit of the chunks. *)
Fixpoint advance_chunks (fuel : nat) (tbm : TIDBitmap) (it : TBMIterator) : res TBMIterator :=
  if schunkptr it <? nchunks tbm then
    match fuel with
    | O => OutOfFuel
    | S fuel =>
      chunk ← list_entry tbm (schunks tbm) (schunkptr it);
      bit ← tbm_advance_schunkbit (pte_data chunk) (schunkbit it);
      if bit <? PAGES_PER_CHUNK then Ok (mkTBMIter (spageptr it) (schunkptr it) bit)
      else advance_chunks fuel tbm (mkTBMIter (spageptr it) (schunkptr it + 1) 0)
    end
  else Ok it.

Definition exact_result (tbm : TIDBitmap) (it : TBMIterator) : res (TBMIterator * option TBMIterateResult) :=
  if spageptr it <? npages tbm then
    page ← (match tbm_status tbm with TBM_ONE_PAGE => Ok (entry1 tbm) | _ => list_entry tbm (spages tbm) (spageptr it) end);
    offsets ← tbm_extract_page_tuple (pte_data page);
    Ok (mkTBMIter (spageptr it + 1) (schunkptr it) (schunkbit it), Some (mkResult (pte_blockno page) (Z.of_nat (length offsets)) (page_recheck (pte_data page)) offsets))
  else Ok (it, None).
Definition tbm_iterate (tbm : TIDBitmap) (it : TBMIterator) : res (TBMIterator * option TBMIterateResult) :=
  it ← advance_chunks (S (Z.to_nat (nchunks tbm))) tbm it;
  if schunkptr it <? nchunks tbm then
    chunk ← list_entry tbm (schunks tbm) (schunkptr it);
    let chunk_blockno := wrapu 32 (pte_blockno chunk + schunkbit it) in
    first ← (if npages tbm <=? spageptr it then Ok true
             else page ← list_entry tbm (spages tbm) (spageptr it); Ok (chunk_blockno <? pte_blockno page));
    if (first : bool) then Ok (mkTBMIter (spageptr it) (schunkptr it) (schunkbit it + 1), Some (mkResult chunk_blockno (-1) true []))
    else exact_result tbm it
  else exact_result tbm it.
End Bitmap.
Arguments TIDBitmap : clear implicits.

(** ** Posting lists into bitmaps, [ginpostinglist.c] *)
Definition ginPostingListDecodeAllSegmentsToTbm {T I} {OP : PageTableOps T I} (mem : list Z) (ptr len : Z) (tbm : TIDBitmap T) : res (TIDBitmap T * Z) :=
  items ← ginPostingListDecodeAllSegments mem ptr len;
  tbm ← tbm_add_tuples (OP := OP) tbm items false;
  Ok (tbm, Z.of_nat (length items)).
