(* ===== verification/TidBitmapMap.v ===== *)
(** Tuple bitmaps as finite maps from block numbers to entries: what an entry means, the bits of an
    entry, and the operations of [tidbitmap.c] on the map. *)
From S2P Require Import Prelude ByteMem TidBitmap.

(** ** Bits of an entry *)
Definition nwords : Z := 5.
Definition wbit (ws : list Z) (i : Z) : bool := Z.testbit (nthZ ws (i / 64)) (i `mod` 64).
Definition set_wbit (ws : list Z) (i : Z) : list Z := <[Z.to_nat (i / 64) := Z.lor (nthZ ws (i / 64)) (2 ^ (i `mod` 64))]> ws.
Definition words_ok (ws : list Z) : Prop := lenZ ws = nwords /\ Forall (is_u 64) ws.

Lemma wbit_range i : 0 <= i < 320 -> 0 <= i / 64 < 5 /\ 0 <= i `mod` 64 < 64.
Proof. intros Hi. split; [|apply Z.mod_pos_bound; lia]. split; [apply Z.div_pos; lia|apply Z.div_lt_upper_bound; lia]. Qed.

Lemma set_wbit_spec ws i j : words_ok ws -> 0 <= i < 320 -> 0 <= j < 320 -> words_ok (set_wbit ws i) /\ wbit (set_wbit ws i) j = (wbit ws j || (i =? j)).
Proof.
  intros [Hl Hu] Hi Hj. pose proof (wbit_range i Hi) as [Hi1 Hi2]. pose proof (wbit_range j Hj) as [Hj1 Hj2]. unfold nwords in Hl. split.
  - split; [unfold lenZ, set_wbit in *; by rewrite length_insert|]. apply Forall_insert; [done|]. apply is_u_lor; [lia|apply Forall_nthZ; [by split|done]|]. split; [by apply Z.pow_nonneg|]. apply Z.pow_lt_mono_r; lia.
  - unfold wbit, set_wbit. rewrite nthZ_insert by (unfold lenZ in Hl; lia). case_decide as E.
    + rewrite <- E, Z.lor_spec, Z.pow2_bits_eqb by lia. f_equal. apply eq_true_iff_eq. rewrite !Z.eqb_eq. pose proof (Z.div_mod i 64 ltac:(lia)). pose proof (Z.div_mod j 64 ltac:(lia)). lia.
    + rewrite (proj2 (Z.eqb_neq i j)) by (intros ->; done). by rewrite orb_false_r.
Qed.

Lemma shift1 b : 0 <= b < 64 -> wrapu 64 (Z.shiftl 1 b) = 2 ^ b.
Proof. intros Hb. rewrite Z.shiftl_1_l, wrapu_small; [done|]. split; [by apply Z.pow_nonneg|]. apply Z.pow_lt_mono_r; lia. Qed.

Lemma set_word_bit_ok ws i : words_ok ws -> 0 <= i < 320 -> set_word_bit ws (TBM_WORDNUM i) (TBM_BITNUM i) = Ok (set_wbit ws i).
Proof.
  intros [Hl Hu] Hi. pose proof (wbit_range i Hi) as [Hi1 Hi2]. unfold set_word_bit, TBM_WORDNUM, TBM_BITNUM, BITS_PER_WORD. unfold nwords, lenZ in Hl. rewrite aget_nthZ, bind_val, shift1, aset_Ok by lia. done.
Qed.

Lemma test_word_bit_ok ws i : words_ok ws -> 0 <= i < 320 -> test_word_bit ws (TBM_WORDNUM i) (TBM_BITNUM i) = Ok (wbit ws i).
Proof.
  intros [Hl Hu] Hi. pose proof (wbit_range i Hi) as [Hi1 Hi2]. unfold test_word_bit, TBM_WORDNUM, TBM_BITNUM, BITS_PER_WORD. unfold nwords, lenZ in Hl. rewrite aget_nthZ, bind_val, shift1 by lia. f_equal. unfold wbit. set (w := nthZ _ _). set (b := i `mod` 64) in *.
  destruct (Z.testbit w b) eqn:E.
  - apply negb_true_iff, Z.eqb_neq. intros E0. apply (f_equal (fun x => Z.testbit x b)) in E0. rewrite Z.land_spec, Z.pow2_bits_true, E, Z.bits_0 in E0 by lia. done.
  - apply negb_false_iff, Z.eqb_eq. apply Z.bits_inj'. intros n Hn. rewrite Z.land_spec, Z.bits_0, Z.pow2_bits_eqb by lia. destruct (Z.eqb_spec b n) as [<-|]; [by rewrite E|by rewrite andb_false_r].
Qed.

(** ** Entries and maps *)
Definition limit_of (e : PageData) : Z := if ischunk e then PAGES_PER_CHUNK else MAX_TUPLES_PER_PAGE.
(** An entry has only bits it may have; all entries but those being built have at least one. *)
Record shape_ok (k : Z) (e : PageData) : Prop := {
  so_key : is_u 32 k;
  so_chunk : ischunk e = true -> k `mod` PAGES_PER_CHUNK = 0;
  so_words : words_ok (page_words e);
  so_bits : forall i, 0 <= i < 320 -> wbit (page_words e) i = true -> i < limit_of e }.
Definition page_nonempty (e : PageData) : Prop := exists i, 0 <= i < limit_of e /\ wbit (page_words e) i = true.

Notation tmap := (gmap Z PageData).
Definition header (b : Z) : Z := b - b `mod` PAGES_PER_CHUNK.
Definition lossy (M : tmap) (b : Z) : bool :=
  match M !! header b with
  | Some e => ischunk e && wbit (page_words e) (b `mod` PAGES_PER_CHUNK)
  | None => false
  end.
Definition exact_page (M : tmap) (b : Z) : option PageData :=
  match M !! b with
  | Some e => if ischunk e then None else Some e
  | None => None
  end.
(** The tuple [o] of block [b] is remembered. *)
Definition exact (M : tmap) (b o : Z) : Prop := exists e, exact_page M b = Some e /\ 1 <= o <= MAX_TUPLES_PER_PAGE /\ wbit (page_words e) (o - 1) = true.
Definition certain (M : tmap) (b o : Z) : Prop := exists e, exact_page M b = Some e /\ 1 <= o <= MAX_TUPLES_PER_PAGE /\ wbit (page_words e) (o - 1) = true /\ page_recheck e = false.

(** The invariant of the entries: a page is not both in a chunk and on its own. *)
Record map_ok (M : tmap) : Prop := {
  mo_shape : forall k e, M !! k = Some e -> shape_ok k e;
  mo_nonempty : forall k e, M !! k = Some e -> page_nonempty e;
  mo_apart : forall b, lossy M b = true -> exact_page M b = None }.

Lemma header_facts b : is_u 32 b -> is_u 32 (header b) /\ header b `mod` PAGES_PER_CHUNK = 0 /\ 0 <= b `mod` PAGES_PER_CHUNK < PAGES_PER_CHUNK /\ b = header b + b `mod` PAGES_PER_CHUNK.
Proof.
  intros Hb. unfold header, is_u, PAGES_PER_CHUNK, BLCKSZ in *. change (8192 / 32) with 256. pose proof (Z.mod_pos_bound b 256 ltac:(lia)). pose proof (Z.mod_le b 256 ltac:(lia) ltac:(lia)). split_and!; try lia.
  rewrite Zminus_mod_idemp_r, Z.sub_diag. done.
Qed.
Lemma header_header b : header (header b) = header b.
Proof. unfold header. rewrite Zminus_mod_idemp_r, Z.sub_diag. change (0 `mod` PAGES_PER_CHUNK) with 0. lia. Qed.
Lemma header_eq b b' : header b = header b' -> b `mod` PAGES_PER_CHUNK = b' `mod` PAGES_PER_CHUNK -> b = b'.
Proof. unfold header. lia. Qed.

(** ** Marking a page lossy *)
Definition mark_entry (o : option PageData) : PageData :=
  match o with
  | None => zero_chunk
  | Some e => if ischunk e then e else mkPage true false (set_wbit (page_words zero_chunk) 0)
  end.
Definition mark (M : tmap) (b : Z) : tmap :=
  let M1 := if b `mod` PAGES_PER_CHUNK =? 0 then M else delete b M in
  let e := mark_entry (M1 !! header b) in
  <[header b := mkPage (ischunk e) (page_recheck e) (set_wbit (page_words e) (b `mod` PAGES_PER_CHUNK))]> M1.

Lemma zero_words : words_ok (page_words zero_chunk) /\ forall i, wbit (page_words zero_chunk) i = false.
Proof.
  split; [by split; [|repeat constructor]|]. intros i. unfold wbit, zero_chunk, zero_page_data. cbn [page_words]. rewrite nthZ_replicate_0. apply Z.bits_0.
Qed.

Lemma mark_entry_spec (M : tmap) c : (forall k e, M !! k = Some e -> shape_ok k e) -> is_u 32 c -> c `mod` PAGES_PER_CHUNK = 0 -> let e := mark_entry (M !! c) in
  ischunk e = true /\ shape_ok c e /\ forall i, 0 <= i < PAGES_PER_CHUNK -> wbit (page_words e) i = lossy M (c + i) || (bool_decide (is_Some (exact_page M c)) && (i =? 0)).
Proof.
  intros Hsh Hc Hc0 e. destruct zero_words as [Hz1 Hz2].
  assert (Hhd : forall i, 0 <= i < PAGES_PER_CHUNK -> header (c + i) = c /\ (c + i) `mod` PAGES_PER_CHUNK = i).
  { intros i Hi. unfold header. assert (E : (c + i) `mod` PAGES_PER_CHUNK = i) by (rewrite <- Zplus_mod_idemp_l, Hc0, Z.add_0_l; by apply Z.mod_small). rewrite E. split; [lia|done]. }
  subst e. unfold mark_entry. destruct (M !! c) as [e|] eqn:Ec.
  - specialize (Hsh c e Ec) as Hshe. unfold exact_page. rewrite Ec. destruct (ischunk e) eqn:Ech.
    + split_and!; [done|done|]. intros i Hi. unfold lossy. destruct (Hhd i Hi) as [-> ->]. rewrite Ec, Ech. rewrite bool_decide_false by (by intros [? ?]). by rewrite orb_false_r.
    + split; [done|]. destruct (set_wbit_spec (page_words zero_chunk) 0 0 Hz1 ltac:(lia) ltac:(lia)) as [Hw _]. split.
      * split; cbn [ischunk page_words]; [done|done|done|]. intros i Hi. destruct (set_wbit_spec (page_words zero_chunk) 0 i Hz1 ltac:(lia) Hi) as [_ ->]. rewrite Hz2. cbn [orb]. intros <-%Z.eqb_eq. by vm_compute.
      * intros i Hi. cbn [page_words]. destruct (set_wbit_spec (page_words zero_chunk) 0 i Hz1 ltac:(lia)) as [_ ->]; [unfold PAGES_PER_CHUNK, BLCKSZ in Hi; change (8192 / 32) with 256 in Hi; lia|]. rewrite Hz2. unfold lossy. destruct (Hhd i Hi) as [-> ->]. rewrite Ec, Ech. rewrite bool_decide_true by done. cbn [orb andb]. apply Z.eqb_sym.
  - split; [done|]. split.
    + split; [done|done|done|]. intros i Hi. by rewrite Hz2.
    + intros i Hi. rewrite Hz2. unfold lossy, exact_page. destruct (Hhd i Hi) as [-> _]. rewrite Ec. done.
Qed.

Lemma lossy_delete (M : tmap) b b' : b `mod` PAGES_PER_CHUNK <> 0 -> lossy (delete b M) b' = lossy M b'.
Proof.
  intros Hb. unfold lossy. rewrite lookup_delete_ne; [done|]. intros ->. apply Hb. unfold header. rewrite Zminus_mod_idemp_r, Z.sub_diag. done.
Qed.
Lemma exact_page_delete (M : tmap) b b' : exact_page (delete b M) b' = if decide (b' = b) then None else exact_page M b'.
Proof. unfold exact_page. case_decide as E; [subst; by rewrite lookup_delete_eq|by rewrite lookup_delete_ne]. Qed.
Lemma exact_page_insert (M : tmap) b e b' : exact_page (<[b := e]> M) b' = if decide (b' = b) then (if ischunk e then None else Some e) else exact_page M b'.
Proof. unfold exact_page. case_decide as E; [subst; by rewrite lookup_insert_eq|by rewrite lookup_insert_ne]. Qed.

(** Replacing an entry that is a chunk. *)
Lemma lossy_insert (M : tmap) c e b' : ischunk e = true -> lossy (<[c := e]> M) b' = if decide (header b' = c) then wbit (page_words e) (b' `mod` PAGES_PER_CHUNK) else lossy M b'.
Proof. intros He. unfold lossy. case_decide as E; [rewrite <- E, lookup_insert_eq, He; done|by rewrite lookup_insert_ne]. Qed.

Lemma chunk_size : PAGES_PER_CHUNK = 256.
Proof. done. Qed.
Lemma page_size : MAX_TUPLES_PER_PAGE = 291.
Proof. done. Qed.

Section Mark.
Context (M : tmap) (b : Z).
Hypothesis Hb : is_u 32 b.
Hypothesis Hsh : forall k e, M !! k = Some e -> shape_ok k e.

Definition mark_base : tmap := if b `mod` PAGES_PER_CHUNK =? 0 then M else delete b M.
Lemma mark_base_facts : (forall k e, mark_base !! k = Some e -> M !! k = Some e) /\ (forall b', lossy mark_base b' = lossy M b') /\
  (forall b', exact_page mark_base b' = if decide (b' = b /\ b `mod` PAGES_PER_CHUNK <> 0) then None else exact_page M b') /\ mark_base !! header b = M !! header b.
Proof.
  unfold mark_base. destruct (Z.eqb_spec (b `mod` PAGES_PER_CHUNK) 0) as [E|E].
  - split_and!; [done|done|intros b'; by rewrite decide_False by tauto|done].
  - split_and!.
    + intros k e Hk. by apply lookup_delete_Some in Hk as [_ ?].
    + intros b'. by apply lossy_delete.
    + intros b'. rewrite exact_page_delete. repeat case_decide; tauto || done.
    + apply lookup_delete_ne. unfold header. lia.
Qed.

Lemma mark_spec : (forall k e, mark M b !! k = Some e -> shape_ok k e) /\
  (forall b', lossy (mark M b) b' = lossy M b' || (b' =? b) || ((b' =? header b) && bool_decide (is_Some (exact_page M (header b))))) /\
  (forall b', exact_page (mark M b) b' = if decide (b' = b \/ b' = header b) then None else exact_page M b').
Proof.
  destruct (header_facts b Hb) as (Hh & Hh0 & Hr & Hsplit). destruct mark_base_facts as (B1 & B2 & B3 & B4). unfold mark. fold mark_base. rewrite B4. destruct (mark_entry_spec M (header b) Hsh Hh Hh0) as (Hch & Hshe & Hbits). set (e := mark_entry _) in *. rewrite Hch.
  rewrite chunk_size in *. assert (Hlt : 0 <= b `mod` 256 < 320) by lia. split_and!.
  - intros k e' Hk. apply lookup_insert_Some in Hk as [[<- <-]|[_ Hk]]; [|by apply Hsh, B1]. destruct (set_wbit_spec (page_words e) (b `mod` 256) 0 (so_words _ _ Hshe) Hlt ltac:(lia)) as [Hw _]. split; cbn [ischunk page_words]; [done|done|done|].
    intros i Hi. destruct (set_wbit_spec (page_words e) (b `mod` 256) i (so_words _ _ Hshe) Hlt Hi) as [_ ->]. intros [Hi1|Hi1%Z.eqb_eq]%orb_true_iff; unfold limit_of; cbn [ischunk]; rewrite chunk_size; [|lia]. pose proof (so_bits _ _ Hshe i Hi Hi1) as Hl. unfold limit_of in Hl. rewrite Hch, chunk_size in Hl. done.
  - intros b'. rewrite lossy_insert by done. cbn [page_words]. rewrite chunk_size. destruct (decide (header b' = header b)) as [E|E].
    + pose proof (Z.mod_pos_bound b' 256 ltac:(lia)) as Hr'. destruct (set_wbit_spec (page_words e) (b `mod` 256) (b' `mod` 256) (so_words _ _ Hshe) Hlt ltac:(lia)) as [_ ->]. rewrite Hbits by lia.
      replace (header b + b' `mod` 256) with b' by (rewrite <- E; unfold header; rewrite chunk_size; lia). rewrite <- orb_assoc, (orb_comm (_ && _)), orb_assoc. f_equal; [f_equal|].
      * apply eq_true_iff_eq. rewrite !Z.eqb_eq. split; [|by intros ->]. intros Hm. apply header_eq; [done|]. by rewrite chunk_size.
      * rewrite andb_comm. f_equal. apply eq_true_iff_eq. rewrite !Z.eqb_eq. unfold header in *. rewrite chunk_size in *. split; [lia|]. intros ->. rewrite Zminus_mod_idemp_r, Z.sub_diag. done.
    + rewrite B2, (proj2 (Z.eqb_neq b' b)), (proj2 (Z.eqb_neq b' (header b))); [cbn [andb]; by rewrite !orb_false_r|intros ->; by rewrite header_header in E|by intros ->].
  - intros b'. rewrite exact_page_insert. cbn [ischunk]. destruct (decide (b' = header b)) as [->|E]; [by rewrite decide_True by tauto|]. rewrite B3. repeat case_decide; try done; try tauto.
    exfalso. subst. assert (E0 : b `mod` PAGES_PER_CHUNK = 0) by (destruct (decide (b `mod` PAGES_PER_CHUNK = 0)); [done|tauto]). apply E. rewrite chunk_size in E0. unfold header. rewrite chunk_size, E0. lia.
Qed.

Lemma mark_nonempty : (forall k e, M !! k = Some e -> page_nonempty e) -> forall k e, mark M b !! k = Some e -> page_nonempty e.
Proof.
  intros Hne k e' Hk. destruct (header_facts b Hb) as (Hh & Hh0 & Hr & _). destruct mark_base_facts as (B1 & _ & _ & B4). unfold mark in Hk. fold mark_base in Hk. rewrite B4 in Hk. destruct (mark_entry_spec M (header b) Hsh Hh Hh0) as (Hch & Hshe & _). set (e := mark_entry _) in *.
  apply lookup_insert_Some in Hk as [[<- <-]|[_ Hk]]; [|by eapply Hne, B1]. exists (b `mod` PAGES_PER_CHUNK). unfold limit_of. cbn [ischunk page_words]. rewrite Hch. split; [done|]. rewrite chunk_size in *.
  destruct (set_wbit_spec (page_words e) (b `mod` 256) (b `mod` 256) (so_words _ _ Hshe) ltac:(lia) ltac:(lia)) as [_ ->]. by rewrite Z.eqb_refl, orb_true_r.
Qed.
End Mark.

Lemma mark_map_ok M b : is_u 32 b -> map_ok M -> map_ok (mark M b).
Proof.
  intros Hb [H1 H2 H3]. destruct (mark_spec M b Hb H1) as (S1 & S2 & S3). split; [done|by apply mark_nonempty|]. intros b'. rewrite S2, S3. case_decide as Hd; [done|]. intros [[Hl|Hl%Z.eqb_eq]%orb_true_iff|[Hl%Z.eqb_eq _]%andb_true_iff]%orb_true_iff; [by apply H3|tauto|tauto].
Qed.
