(* ===== verification/TidBitmapBits.v ===== *)
(** The bits of the entries of a tuple bitmap as ascending lists, and the loops of [tidbitmap.c] over
    the bits and the words of an entry. *)
From S2P Require Import Prelude ByteMem TidBitmap TidBitmapMap.

(** ** The positions of the set bits *)
(** The bits of [w] from the lowest, the first at position [off]. *)
Fixpoint set_bits (n : nat) (w off : Z) : list Z :=
  match n with
  | O => []
  | S n => (if Z.land w 1 =? 0 then [] else [off]) ++ set_bits n (Z.shiftr w 1) (off + 1)
  end.
(** The bits of the words from [wordnum] on. *)
Fixpoint word_bits (n : nat) (ws : list Z) (wordnum off : Z) : list Z :=
  match n with
  | O => []
  | S n => set_bits 64 (nthZ ws wordnum) (wordnum * BITS_PER_WORD + off) ++ word_bits n ws (wordnum + 1) off
  end.

Lemma land_one w : (Z.land w 1 =? 0) = negb (Z.testbit w 0).
Proof. rewrite Z.bit0_odd. change 1 with (Z.ones 1). rewrite Z.land_ones by lia. change (2 ^ 1) with 2. rewrite Zmod_odd. by destruct (Z.odd w). Qed.

Lemma shiftr1_range n w : 0 <= w < 2 ^ Z.of_nat (S n) -> 0 <= Z.shiftr w 1 < 2 ^ Z.of_nat n.
Proof. intros Hw. rewrite Z.shiftr_div_pow2 by lia. change (2 ^ 1) with 2. replace (2 ^ Z.of_nat (S n)) with (2 * 2 ^ Z.of_nat n) in Hw by (rewrite Nat2Z.inj_succ, Z.pow_succ_r; lia). split; [apply Z.div_pos; lia|apply Z.div_lt_upper_bound; lia]. Qed.

Lemma elem_of_set_bits n : forall w off x, x ∈ set_bits n w off <-> off <= x < off + Z.of_nat n /\ Z.testbit w (x - off) = true.
Proof.
  induction n as [|n IH]; intros w off x; cbn [set_bits]; [split; [by intros ?%not_elem_of_nil|lia]|]. rewrite elem_of_app, IH, land_one. destruct (decide (x = off)) as [->|Hne].
  - rewrite Z.sub_diag. destruct (Z.testbit w 0); cbn [negb]; [rewrite list_elem_of_singleton; intuition lia|]. split; [intros [?%not_elem_of_nil|?]; [done|lia]|by intros [_ ?]].
  - assert (Hhd : x ∉ (if negb (Z.testbit w 0) then [] else [off])) by (destruct (Z.testbit w 0); cbn [negb]; rewrite ?list_elem_of_singleton; [done|apply not_elem_of_nil]).
    split; [intros [?|[Hr Hb]]; [done|]|intros [Hr Hb]; right]; (split; [lia|]); rewrite Z.shiftr_spec in * by lia; by replace (x - (off + 1) + 1) with (x - off) in * by lia.
Qed.

Lemma set_bits_sorted n : forall w off, StronglySorted Z.lt (set_bits n w off).
Proof.
  induction n as [|n IH]; intros w off; cbn [set_bits]; [constructor|]. destruct (Z.land w 1 =? 0); cbn [app]; [apply IH|]. constructor; [apply IH|]. apply Forall_forall. intros x Hx. apply elem_of_set_bits in Hx. lia.
Qed.

Lemma set_bits_zero n off : set_bits n 0 off = [].
Proof. revert off. induction n as [|n IH]; intros off; cbn; [done|]. by rewrite IH. Qed.

Lemma elem_of_word_bits n ws off : forall wordnum x, x ∈ word_bits n ws wordnum off <-> wordnum * 64 + off <= x < (wordnum + Z.of_nat n) * 64 + off /\ wbit ws (x - off) = true.
Proof.
  induction n as [|n IH]; intros wordnum x; cbn [word_bits]; [split; [by intros ?%not_elem_of_nil|lia]|]. rewrite elem_of_app, IH, elem_of_set_bits. unfold wbit, BITS_PER_WORD. destruct (decide (x < wordnum * 64 + off + 64)) as [Hlt|Hge]; [|intuition lia].
  assert (Hq : wordnum * 64 + off <= x -> (x - off) / 64 = wordnum /\ (x - off) `mod` 64 = x - (wordnum * 64 + off)).
  { intros Hle. split; [symmetry; apply (Z.div_unique _ 64 _ (x - off - 64 * wordnum)); lia|symmetry; apply (Z.mod_unique _ 64 wordnum); lia]. }
  split; [intros [[Hr Hb]|[Hr _]]; [|lia]|intros [Hr Hb]; left]; destruct (Hq ltac:(lia)) as [E1 E2]; rewrite ?E1, ?E2 in *; (split; [lia|done]).
Qed.

Lemma word_bits_sorted n ws off : forall wordnum, StronglySorted Z.lt (word_bits n ws wordnum off).
Proof.
  induction n as [|n IH]; intros wordnum; cbn [word_bits]; [constructor|]. apply StronglySorted_app_2; [|apply set_bits_sorted|apply IH]. intros x y Hx Hy. apply elem_of_set_bits in Hx. apply elem_of_word_bits in Hy. unfold BITS_PER_WORD in *. lia.
Qed.

(** A strictly ascending list of numbers is no longer than its range. *)
Lemma sorted_length (l : list Z) lo hi : StronglySorted Z.lt l -> (forall x, x ∈ l -> lo <= x < hi) -> lo <= hi -> Z.of_nat (length l) <= hi - lo.
Proof.
  intros Hs. revert lo. induction Hs as [|x l Hs IH Hall]; intros lo Hl Hle; cbn [length]; [lia|]. pose proof (Hl x ltac:(by left)). rewrite Forall_forall in Hall. enough (Z.of_nat (length l) <= hi - (x + 1)) by lia. apply IH; [|lia]. intros y Hy. pose proof (Hall y Hy). pose proof (Hl y ltac:(by right)). lia.
Qed.

(** ** Extraction *)
Definition offsets_of (e : PageData) : list Z := word_bits 5 (page_words e) 0 1.

Lemma extract_bits_ok n : forall w off offs, 0 <= w < 2 ^ Z.of_nat n -> 0 <= off -> off + Z.of_nat n <= 2 ^ 16 -> Z.of_nat (length offs) + Z.of_nat (length (set_bits n w off)) <= MAX_TUPLES_PER_PAGE ->
  extract_bits n w off offs = Ok (offs ++ set_bits n w off).
Proof.
  induction n as [|n IH]; intros w off offs Hw Hoff Hmax Hlen.
  - cbn in Hw. assert (w = 0) as -> by lia. cbn. by rewrite app_nil_r.
  - cbn [extract_bits]. destruct (Z.eqb_spec w 0) as [->|Hw0]; [by rewrite set_bits_zero, app_nil_r|]. cbn [set_bits] in *. assert (Hw1 : 0 <= Z.shiftr w 1 < 2 ^ Z.of_nat n).
    { by apply shiftr1_range. }
    destruct (Z.land w 1 =? 0); cbn [negb app length] in *.
    + rewrite bind_val. apply IH; [done|lia|lia|done].
    + rewrite (proj2 (Z.leb_gt _ _)) by lia. rewrite bind_val. rewrite wrapu_small by (split; lia). rewrite IH; [by rewrite <- app_assoc|done|lia|lia|rewrite length_app; cbn; lia].
Qed.

Lemma extract_words_ok n ws : words_ok ws -> forall wordnum offs, 0 <= wordnum -> wordnum + Z.of_nat n <= 5 -> Z.of_nat (length offs) + Z.of_nat (length (word_bits n ws wordnum 1)) <= MAX_TUPLES_PER_PAGE ->
  extract_words n ws wordnum offs = Ok (offs ++ word_bits n ws wordnum 1).
Proof.
  intros [Hl Hu]. induction n as [|n IH]; intros wordnum offs H0 H5 Hlen; cbn [extract_words word_bits]; [by rewrite app_nil_r|]. cbn [word_bits] in Hlen. rewrite length_app in Hlen. unfold nwords, lenZ in Hl. rewrite aget_nthZ, bind_val by lia.
  assert (Hw : is_u 64 (nthZ ws wordnum)) by (apply Forall_nthZ; [by split|done]). assert (Hstep : (if negb (nthZ ws wordnum =? 0) then extract_bits 64 (nthZ ws wordnum) (wordnum * BITS_PER_WORD + 1) offs else Ok offs) = Ok (offs ++ set_bits 64 (nthZ ws wordnum) (wordnum * BITS_PER_WORD + 1))).
  { destruct (Z.eqb_spec (nthZ ws wordnum) 0) as [->|_]; cbn [negb]; [by rewrite set_bits_zero, app_nil_r|]. unfold BITS_PER_WORD in *. apply extract_bits_ok; [exact Hw|lia|lia|lia]. }
  rewrite Hstep, bind_val, IH; [by rewrite <- app_assoc|lia|lia|rewrite length_app; lia].
Qed.

(** The tuples of an entry: those of its set bits, ascending, and not more than the result has room for. *)
Lemma extract_page_tuple_ok k e : shape_ok k e -> ischunk e = false -> tbm_extract_page_tuple e = Ok (offsets_of e) /\ StronglySorted Z.lt (offsets_of e) /\ Z.of_nat (length (offsets_of e)) <= MAX_TUPLES_PER_PAGE /\
  forall o, o ∈ offsets_of e <-> 1 <= o <= MAX_TUPLES_PER_PAGE /\ wbit (page_words e) (o - 1) = true.
Proof.
  intros Hs Hch. assert (Hel : forall o, o ∈ offsets_of e <-> 1 <= o <= MAX_TUPLES_PER_PAGE /\ wbit (page_words e) (o - 1) = true).
  { intros o. unfold offsets_of. rewrite elem_of_word_bits, page_size. split; [|intros [? ?]; split; [lia|done]]. intros [Hr Hb]. pose proof (so_bits _ _ Hs (o - 1) ltac:(lia) Hb) as Hlim. unfold limit_of in Hlim. rewrite Hch, page_size in Hlim. split; [lia|done]. }
  assert (Hlen : Z.of_nat (length (offsets_of e)) <= MAX_TUPLES_PER_PAGE).
  { rewrite page_size. change 291 with (292 - 1). apply sorted_length; [apply word_bits_sorted| |lia]. intros x Hx. apply Hel in Hx. rewrite page_size in Hx. lia. }
  split; [|split; [apply word_bits_sorted|done]]. unfold tbm_extract_page_tuple. change (Z.to_nat WORDS_PER_PAGE) with 5%nat. apply (extract_words_ok 5 (page_words e) (so_words _ _ Hs) 0 []); [lia|lia|done].
Qed.

(** ** Words *)
Lemma words_five ws : words_ok ws -> exists w0 w1 w2 w3 w4, ws = [w0; w1; w2; w3; w4].
Proof. intros [Hl _]. unfold nwords, lenZ in Hl. do 5 (destruct ws as [|? ws]; [cbn in Hl; lia|]). destruct ws; [by eauto 10|cbn in Hl; lia]. Qed.

Lemma zip_words (f : Z -> Z -> Z) (g : bool -> bool -> bool) aw bw : (forall x y, is_u 64 x -> is_u 64 y -> is_u 64 (f x y)) -> (forall x y n, 0 <= n -> Z.testbit (f x y) n = g (Z.testbit x n) (Z.testbit y n)) -> words_ok aw -> words_ok bw ->
  words_ok (zip_with f aw bw) /\ forall i, 0 <= i < 320 -> wbit (zip_with f aw bw) i = g (wbit aw i) (wbit bw i).
Proof.
  intros Hf Hg Ha Hb. split.
  - destruct (words_five _ Ha) as (? & ? & ? & ? & ? & ->), (words_five _ Hb) as (? & ? & ? & ? & ? & ->). destruct Ha as [_ Ha], Hb as [_ Hb]. rewrite !Forall_cons in Ha, Hb. destruct_and!. split; [done|]. repeat (constructor; [by apply Hf|]). constructor.
  - intros i Hi. pose proof (wbit_range i Hi) as [Hr1 Hr2]. unfold wbit. rewrite <- Hg by lia. f_equal. destruct (words_five _ Ha) as (? & ? & ? & ? & ? & ->), (words_five _ Hb) as (? & ? & ? & ? & ? & ->).
    assert (Hc : i / 64 = 0 \/ i / 64 = 1 \/ i / 64 = 2 \/ i / 64 = 3 \/ i / 64 = 4) by lia. by destruct Hc as [->|[->|[->|[->| ->]]]].
Qed.

Lemma or_words_ok aw bw : words_ok aw -> words_ok bw -> or_words (Z.to_nat WORDS_PER_PAGE) aw bw 0 = Ok (zip_with Z.lor aw bw) /\ words_ok (zip_with Z.lor aw bw) /\ forall i, 0 <= i < 320 -> wbit (zip_with Z.lor aw bw) i = wbit aw i || wbit bw i.
Proof.
  intros Ha Hb. split; [|apply zip_words; [intros; apply is_u_lor; [lia|done|done]|intros; by apply Z.lor_spec|done|done]].
  destruct (words_five _ Ha) as (? & ? & ? & ? & ? & ->), (words_five _ Hb) as (? & ? & ? & ? & ? & ->). done.
Qed.

Lemma and_words_ok aw bw : words_ok aw -> words_ok bw -> and_words (Z.to_nat WORDS_PER_PAGE) aw bw true 0 = Ok (zip_with Z.land aw bw, forallb (fun w => w =? 0) (zip_with Z.land aw bw)) /\ words_ok (zip_with Z.land aw bw) /\ forall i, 0 <= i < 320 -> wbit (zip_with Z.land aw bw) i = wbit aw i && wbit bw i.
Proof.
  intros Ha Hb. split; [|apply zip_words; [intros x y Hx [Hy _]; by apply is_u_land_l|intros; by apply Z.land_spec|done|done]].
  destruct (words_five _ Ha) as (? & ? & ? & ? & ? & ->), (words_five _ Hb) as (? & ? & ? & ? & ? & ->). cbn. by rewrite !andb_assoc, andb_true_r.
Qed.

(** An entry is without tuples exactly when all words are zero. *)
Lemma words_zero ws : words_ok ws -> forallb (fun w => w =? 0) ws = false <-> exists i, 0 <= i < 320 /\ wbit ws i = true.
Proof.
  intros Hw. pose proof Hw as [Hl Hu]. unfold nwords, lenZ in Hl. split.
  - intros Hf. assert (Hex : Exists (fun w => w <> 0) ws).
    { clear -Hf. induction ws as [|w ws IH]; cbn in Hf; [done|]. destruct (Z.eqb_spec w 0) as [->|]; [right; by apply IH|by left]. }
    apply Exists_exists in Hex as (w & Hin & Hw0). apply list_elem_of_lookup in Hin as (n & Hn). pose proof (lookup_lt_Some _ _ _ Hn) as Hlt. pose proof (proj1 (Forall_lookup _ _) Hu n w Hn) as [Hw1 Hw2].
    pose proof (Z.log2_nonneg w). pose proof (proj1 (Z.log2_lt_pow2 w 64 ltac:(lia)) Hw2). exists (Z.of_nat n * 64 + Z.log2 w). split; [lia|]. unfold wbit.
    replace ((Z.of_nat n * 64 + Z.log2 w) / 64) with (Z.of_nat n) by (apply (Z.div_unique _ 64 _ (Z.log2 w)); lia). replace ((Z.of_nat n * 64 + Z.log2 w) `mod` 64) with (Z.log2 w) by (apply (Z.mod_unique _ 64 (Z.of_nat n)); lia).
    unfold nthZ. rewrite Nat2Z.id, nth_lookup, Hn. cbn. apply Z.bit_log2. lia.
  - intros (i & Hi & Hb). apply not_true_iff_false. intros Hall. apply forallb_forall with (x := nthZ ws (i / 64)) in Hall.
    + apply Z.eqb_eq in Hall. unfold wbit in Hb. by rewrite Hall, Z.bits_0 in Hb.
    + pose proof (wbit_range i Hi) as [Hr _]. apply nth_In. lia.
Qed.
