(* ===== verification/TidBitmapTable.v ===== *)
(** What tuple bitmaps rely on of their hash table, as a class of laws, and the proof that the
    tables of [lib/simplehash.h] obey them. *)
From S2P Require Import Prelude ByteMem Hashfn SimpleHash SimpleHashInv SimpleHashOps SimpleHashInsert SimpleHashSpec TidBitmap.

(** [pt_points t p k]: the pointer [p] is to the entry of block [k].  [pt_iter t it R]: the
    iterator has still to return the entries of the blocks [R].  [pt_weak t it]: an iterator over a
    table that changes, with [pt_left t it] buckets to pass. *)
Class PageTableLaws (T I : Type) {OP : PageTableOps T I} := {
  pt_ok : T -> Prop;
  pt_map : T -> gmap Z PageData;
  pt_points : T -> Z -> Z -> Prop;
  pt_iter : T -> I -> gset Z -> Prop;
  pt_weak : T -> I -> Prop;
  pt_left : T -> I -> Z;
  pt_limit : Z;
  law_limit : 0 <= pt_limit < 2 ^ 30;
  law_create : exists t, pagetable_create 128 = Ok t /\ pt_ok t /\ pt_map t = ∅;
  law_insert t k : pt_ok t -> Z.of_nat (size (pt_map t)) <= pt_limit -> exists t' p found, pagetable_insert t k = Ok (t', p, found) /\ pt_ok t' /\ pt_points t' p k /\
    (forall it, pt_weak t it -> pt_weak t' it) /\
    (found = true /\ pt_map t' = pt_map t /\ is_Some (pt_map t !! k) \/ found = false /\ pt_map t !! k = None /\ exists v, pt_map t' = <[k := v]> (pt_map t));
  law_lookup t k : pt_ok t -> exists r, pagetable_lookup t k = Ok r /\ match r with None => pt_map t !! k = None | Some p => pt_points t p k end;
  law_delete t k : pt_ok t -> exists t', pagetable_delete t k = Ok (t', bool_decide (is_Some (pt_map t !! k))) /\ pt_ok t' /\ pt_map t' = delete k (pt_map t) /\
    (forall it, pt_weak t it -> pt_weak t' it) /\ (forall it R, pt_iter t it R -> k ∉ R -> pt_iter t' it R);
  law_get t p k : pt_ok t -> pt_points t p k -> exists d, pt_get t p = Ok (mkPTE k d) /\ pt_map t !! k = Some d;
  law_put t p k d : pt_ok t -> pt_points t p k -> exists t', pt_put t p d = Ok t' /\ pt_ok t' /\ pt_map t' = <[k := d]> (pt_map t) /\ (forall q k', pt_points t' q k' <-> pt_points t q k') /\
    (forall it, pt_weak t it -> pt_weak t' it) /\ (forall it R, pt_iter t it R -> pt_iter t' it R);
  law_start t : pt_ok t -> pt_iter t (pagetable_start_iterate t) (dom (pt_map t));
  law_iterate t it R : pt_ok t -> pt_iter t it R -> exists it' r, pagetable_iterate t it = Ok (it', r) /\
    match r with None => R = ∅ | Some p => exists k, pt_points t p k /\ k ∈ R /\ pt_iter t it' (R ∖ {[k]}) end;
  law_start_at t x : pt_ok t -> pt_weak t (pagetable_start_iterate_at t x);
  law_left t it : pt_ok t -> pt_weak t it -> 0 <= pt_left t it <= 2 ^ 32;
  law_iterate_weak t it : pt_ok t -> pt_weak t it -> exists it' r, pagetable_iterate t it = Ok (it', r) /\ pt_weak t it' /\
    match r with None => True | Some p => pt_left t it' < pt_left t it /\ exists k, pt_points t p k end }.

#[export] Instance simplehash_laws : PageTableLaws (SH_TYPE Z PageData) SH_ITERATOR.
Proof.
  refine {| pt_ok := table_ok 0 zero_page_data murmurhash32; pt_map := fun t => contents (data t); pt_points := points 0 zero_page_data;
            pt_iter := iter_ok 0 zero_page_data; pt_weak := iter_weak; pt_left := iter_left; pt_limit := member_limit |}.
  - done.
  - destruct (create_spec 0 zero_page_data sizeof_PagetableEntry murmurhash32 ltac:(done) 128) as (t & Ht & Hok & Hc & _); [by unfold is_u|]. by exists t.
  - intros t k Hok Hsz. rewrite <- (ok_members _ _ _ _ Hok) in Hsz. destruct (insert_spec 0 zero_page_data sizeof_PagetableEntry murmurhash32 ltac:(done) t k Hok Hsz) as ([[t' p] found] & Hrun & (Hok' & Hn & Hp & Hu & Hk & Hcase)).
    exists t', p, found. split_and!; [done|done|done|intros it Hit; by apply (iter_weak_mono t)|done].
  - intros t k Hok. apply (lookup_spec 0 zero_page_data murmurhash32 t k Hok).
  - intros t k Hok. destruct (delete_spec 0 zero_page_data murmurhash32 t k Hok) as (t' & Hrun & Hok' & Hc & Hsz & _). exists t'. split_and!; [done|done|done| |].
    + intros it Hit. apply (iter_weak_mono t); [done|lia].
    + intros it R Hit Hk. by eapply (iter_delete 0 zero_page_data murmurhash32 t it R k).
  - intros t p k Hok Hp. destruct (get_spec 0 zero_page_data murmurhash32 t p k Hok Hp) as (v & Hrun & Hv). exists v. cbn. by rewrite Hrun.
  - intros t p k d Hok Hp. destruct (put_spec 0 zero_page_data murmurhash32 t p k d Hok Hp) as (t' & Hrun & Hok' & Hc & Hsz & Hsame). exists t'. split_and!; [done|done|done| | |].
    + intros q k'. unfold points. destruct (Hsame q) as [Hu Hk]. rewrite Hsz, Hu, Hk. done.
    + intros it Hit. apply (iter_weak_mono t); [done|lia].
    + intros it R Hit. by eapply (iter_put 0 zero_page_data murmurhash32 t it R p k d).
  - intros t Hok. by apply (start_spec 0 zero_page_data murmurhash32).
  - intros t it R Hok Hit. by apply (iterate_spec 0 zero_page_data murmurhash32).
  - intros t x Hok. by apply start_at_weak, Hok.
  - intros t it Hok Hit. pose proof (ok_shape _ _ _ _ Hok) as Hs. pose proof (size_bounds _ Hs). pose proof (ia_r _ _ _ _ (iter_weak_at t it Hs Hit)). lia.
  - intros t it Hok Hit. destruct (iterate_weak 0 zero_page_data t it (ok_shape _ _ _ _ Hok) Hit) as (it' & o & Hrun & Hw & _ & Ho). by exists it', o.
Defined.
