(* ===== verification/TidBitmapRep.v ===== *)
(** The operations of [tidbitmap.c] on entries, for any hash table with the laws: a bitmap stands for
    a finite map, and looking up, creating and marking pages are the operations on the map. *)
From S2P Require Import Prelude ByteMem Loop TidBitmap TidBitmapMap TidBitmapTable.

(** ** Counting *)
Definition cnt (c : bool) (M : tmap) : Z := Z.of_nat (size (filter (fun kv => ischunk kv.2 = c) M)).
Definition one_if (c : bool) (e : PageData) : Z := if Bool.eqb (ischunk e) c then 1 else 0.

Lemma cnt_new c (M : tmap) k e : M !! k = None -> cnt c (<[k := e]> M) = cnt c M + one_if c e.
Proof.
  intros Hk. unfold cnt, one_if. destruct (Bool.eqb_spec (ischunk e) c) as [E|E].
  - rewrite map_filter_insert_True by done. rewrite map_size_insert_None; [lia|]. apply map_lookup_filter_None. by left.
  - rewrite map_filter_insert_False by done. rewrite delete_id by done. lia.
Qed.
Lemma cnt_delete c (M : tmap) k e : M !! k = Some e -> cnt c (delete k M) = cnt c M - one_if c e.
Proof. intros Hk. rewrite <- (insert_delete_id M k e Hk) at 2. rewrite cnt_new by apply lookup_delete_eq. lia. Qed.
Lemma cnt_replace c (M : tmap) k e e' : M !! k = Some e -> cnt c (<[k := e']> M) = cnt c M - one_if c e + one_if c e'.
Proof. intros Hk. rewrite <- insert_delete_eq, cnt_new by apply lookup_delete_eq. by rewrite (cnt_delete c M k e Hk). Qed.
Lemma cnt_range c (M : tmap) : 0 <= cnt c M <= Z.of_nat (size M).
Proof. unfold cnt. split; [lia|]. apply inj_le. apply map_subseteq_size, map_filter_subseteq. Qed.
Lemma cnt_no_chunk (M : tmap) k e : cnt true M = 0 -> M !! k = Some e -> ischunk e = false.
Proof.
  intros Hc Hk. destruct (ischunk e) eqn:E; [|done]. unfold cnt in Hc. assert (Hz : size (filter (fun kv : Z * PageData => ischunk kv.2 = true) M) = 0%nat) by lia. apply map_size_empty_inv in Hz.
  assert (Hl : filter (fun kv : Z * PageData => ischunk kv.2 = true) M !! k = Some e) by by apply map_lookup_filter_Some. by rewrite Hz, lookup_empty in Hl.
Qed.

Section Rep.
Context {T I : Type} {OP : PageTableOps T I} {LAWS : PageTableLaws T I}.
Notation bitmap := (TIDBitmap T).
Implicit Types (tbm a b : bitmap) (M : tmap).

Record rep tbm M : Prop := {
  rp_table : match tbm_status tbm with
             | TBM_EMPTY => pagetable tbm = None /\ M = ∅
             | TBM_ONE_PAGE => pagetable tbm = None /\ M = {[pte_blockno (entry1 tbm) := pte_data (entry1 tbm)]} /\ ischunk (pte_data (entry1 tbm)) = false
             | TBM_HASH => exists t, pagetable tbm = Some t /\ pt_ok t /\ pt_map t = M
             end;
  rp_entries : nentries tbm = Z.of_nat (size M);
  rp_pages : npages tbm = cnt false M;
  rp_chunks : nchunks tbm = cnt true M }.

(** What an operation on entries leaves alone. *)
Definition kept tbm tbm' : Prop := maxentries tbm' = maxentries tbm /\ iterating tbm' = iterating tbm /\ lossify_start tbm' = lossify_start tbm.
Lemma kept_refl tbm : kept tbm tbm.
Proof. done. Qed.
Lemma kept_trans t1 t2 t3 : kept t1 t2 -> kept t2 t3 -> kept t1 t3.
Proof. unfold kept. intuition congruence. Qed.

Definition ptr_at tbm (ptr : pageptr) (k : Z) : Prop :=
  match ptr with
  | Entry1 => tbm_status tbm = TBM_ONE_PAGE /\ pte_blockno (entry1 tbm) = k
  | InTable p => tbm_status tbm = TBM_HASH /\ exists t, pagetable tbm = Some t /\ pt_points t p k
  end.

Lemma rep_hash tbm M : rep tbm M -> tbm_status tbm = TBM_HASH -> exists t, pagetable tbm = Some t /\ table_of tbm = Ok t /\ pt_ok t /\ pt_map t = M.
Proof. intros [Ht _ _ _] Hs. rewrite Hs in Ht. destruct Ht as (t & Ht & Hok & Hm). exists t. unfold table_of. by rewrite Ht. Qed.

Lemma page_get_ok tbm M ptr k : rep tbm M -> ptr_at tbm ptr k -> exists d, page_get tbm ptr = Ok (mkPTE k d) /\ M !! k = Some d.
Proof.
  intros Hrep Hp. destruct ptr as [|p].
  - destruct Hp as [Hs Hk]. pose proof (rp_table _ _ Hrep) as Ht. rewrite Hs in Ht. destruct Ht as (_ & -> & _). rewrite Hk. destruct (entry1 tbm) as [k' d] eqn:E. cbn in Hk. subst k'. exists d. cbn. rewrite E. split; [done|]. apply lookup_singleton_eq.
  - destruct Hp as [Hs (t & Ht & Hpt)]. destruct (rep_hash _ _ Hrep Hs) as (t' & Ht' & Htab & Hok & Hm). rewrite Ht in Ht'. injection Ht' as <-. destruct (law_get t p k Hok Hpt) as (d & Hd & Hl). exists d. cbn [page_get]. rewrite Htab, bind_val. by rewrite <- Hm.
Qed.

Lemma page_put_ok tbm M ptr k d0 d : rep tbm M -> ptr_at tbm ptr k -> M !! k = Some d0 -> ischunk d = ischunk d0 ->
  exists tbm', page_put tbm ptr d = Ok tbm' /\ rep tbm' (<[k := d]> M) /\ (forall q j, ptr_at tbm q j -> ptr_at tbm' q j) /\ kept tbm tbm' /\ nentries tbm' = nentries tbm.
Proof.
  intros Hrep Hp Hk Hch. assert (Hcnt : forall c, cnt c (<[k := d]> M) = cnt c M) by (intros c; rewrite (cnt_replace c M k d0) by done; unfold one_if; rewrite Hch; lia).
  assert (Hsize : size (<[k := d]> M) = size M) by (apply map_size_insert_Some; by exists d0). destruct ptr as [|p].
  - destruct Hp as [Hs <-]. pose proof (rp_table _ _ Hrep) as Ht. rewrite Hs in Ht. destruct Ht as (Hpt & HM & Hnc). cbn [page_put]. eexists. split; [done|]. assert (d0 = pte_data (entry1 tbm)) as -> by (rewrite HM, lookup_singleton_eq in Hk; congruence). split; [|split; [|done]].
    + split; cbn [set_entry1 tbm_status pagetable entry1 nentries npages nchunks pte_blockno pte_data]; [rewrite Hs; split_and!; [done|by rewrite HM, insert_singleton_eq|congruence]|..]; rewrite ?Hcnt, ?Hsize; apply Hrep.
    + intros [|q] j; cbn; [|done]. intros [_ <-]. done.
  - destruct Hp as [Hs (t & Ht & Hpt)]. destruct (rep_hash _ _ Hrep Hs) as (t' & Ht' & Htab & Hok & Hm). rewrite Ht in Ht'. injection Ht' as <-. cbn [page_put]. rewrite Htab, bind_val. destruct (law_put t p k d Hok Hpt) as (t1 & -> & Hok1 & Hm1 & Hpts & _). rewrite bind_val.
    eexists. split; [done|]. split; [|split; [|done]].
    + split; cbn [set_table tbm_status pagetable nentries npages nchunks]; [rewrite Hs; exists t1; split_and!; [done|done|by rewrite Hm1, Hm]|..]; rewrite ?Hcnt, ?Hsize; apply Hrep.
    + intros [|q] j; cbn; [by intros [? _]; congruence|]. intros [_ (t2 & Ht2 & Hq)]. split; [done|]. exists t1. split; [done|]. apply Hpts. rewrite Ht in Ht2. by injection Ht2 as <-.
Qed.

Lemma create_pagetable_ok tbm M : rep tbm M -> tbm_status tbm <> TBM_HASH -> exists tbm', tbm_create_pagetable tbm = Ok tbm' /\ rep tbm' M /\ tbm_status tbm' = TBM_HASH /\ kept tbm tbm'.
Proof.
  intros Hrep Hs. destruct law_create as (t & Ht & Hok & Hm). unfold tbm_create_pagetable. rewrite Ht, bind_val. pose proof (rp_table _ _ Hrep) as Htab. destruct (tbm_status tbm) eqn:Es; [|clear Hs|done].
  - destruct Htab as [_ ->]. rewrite bind_val. eexists. split; [done|]. split; [|done]. destruct Hrep as [_ H1 H2 H3]. split; [|done..]. cbn. by exists t.
  - destruct Htab as (_ & -> & _). pose proof law_limit. destruct (law_insert t (pte_blockno (entry1 tbm)) Hok) as (t1 & p & found & -> & Hok1 & Hp1 & _ & Hcase); [rewrite Hm, map_size_empty; lia|]. rewrite bind_val. cbv beta iota.
    destruct (law_put t1 p _ (pte_data (entry1 tbm)) Hok1 Hp1) as (t2 & -> & Hok2 & Hm2 & _). rewrite bind_val. eexists. split; [done|]. split; [|done]. destruct Hrep as [_ H1 H2 H3]. split; [|done..]. cbn. exists t2. split_and!; [done|done|].
    rewrite Hm2. destruct Hcase as [(_ & _ & Hsome)|(_ & _ & v & ->)]; [rewrite Hm, lookup_empty in Hsome; by destruct Hsome|]. by rewrite insert_insert_eq, Hm, insert_empty.
Qed.

(** ** Lookups *)
Lemma find_pageentry_ok tbm M k : rep tbm M -> tbm_find_pageentry tbm k = Ok (mkPTE k <$> exact_page M k).
Proof.
  intros Hrep. unfold tbm_find_pageentry. rewrite (rp_entries _ _ Hrep). destruct (Z.eqb_spec (Z.of_nat (size M)) 0) as [E|E].
  - assert (M = ∅) as -> by (apply map_size_empty_inv; lia). unfold exact_page. by rewrite lookup_empty.
  - pose proof (rp_table _ _ Hrep) as Ht. destruct (tbm_status tbm) eqn:Es.
    + destruct Ht as [_ ->]. by rewrite map_size_empty in E.
    + destruct Ht as (_ & -> & Hnc). unfold exact_page. destruct (Z.eqb_spec (pte_blockno (entry1 tbm)) k) as [<-|Hne]; cbn [negb].
      * rewrite lookup_singleton_eq, Hnc. cbn. by destruct (entry1 tbm).
      * by rewrite lookup_singleton_ne.
    + destruct (rep_hash _ _ Hrep Es) as (t & _ & Htab & Hok & Hm). rewrite Htab, bind_val. destruct (law_lookup t k Hok) as (r & -> & Hr). rewrite bind_val. unfold exact_page. rewrite <- Hm. destruct r as [p|]; [|by rewrite Hr].
      destruct (law_get t p k Hok Hr) as (d & -> & ->). rewrite bind_val. cbn [pte_data]. by destruct (ischunk d).
Qed.

Lemma page_is_lossy_ok tbm M k : rep tbm M -> (forall k e, M !! k = Some e -> shape_ok k e) -> tbm_page_is_lossy tbm k = Ok (lossy M k).
Proof.
  intros Hrep Hsh. unfold tbm_page_is_lossy. rewrite (rp_chunks _ _ Hrep). destruct (Z.eqb_spec (cnt true M) 0) as [E|E].
  - unfold lossy. destruct (M !! header k) as [e|] eqn:Ek; [|done]. by rewrite (cnt_no_chunk M _ e E Ek).
  - cbv zeta. fold (header k). assert (Hs : tbm_status tbm = TBM_HASH).
    { pose proof (rp_table _ _ Hrep) as Ht. destruct (tbm_status tbm); [|..|done]; exfalso; apply E.
      - by destruct Ht as [_ ->].
      - destruct Ht as (_ & -> & Hnc). rewrite <- insert_empty, cnt_new by apply lookup_empty. unfold one_if. by rewrite Hnc. }
    destruct (rep_hash _ _ Hrep Hs) as (t & _ & Htab & Hok & Hm). rewrite Htab, bind_val. destruct (law_lookup t (header k) Hok) as (r & -> & Hr). rewrite bind_val. unfold lossy. rewrite <- Hm. destruct r as [p|]; [|by rewrite Hr].
    destruct (law_get t p _ Hok Hr) as (d & -> & Hd). rewrite Hd, bind_val. cbn [pte_data]. destruct (ischunk d); [|done]. cbn [andb]. rewrite Hm in Hd. apply test_word_bit_ok; [apply (Hsh _ _ Hd)|]. rewrite chunk_size. pose proof (Z.mod_pos_bound k 256). lia.
Qed.

(** ** Counts *)
Lemma wrap_count x : 0 <= x < 2 ^ 31 -> wraps 32 x = x.
Proof. intros Hx. apply wraps_small; [lia|]. unfold is_s. lia. Qed.

(** A table for a bitmap whose counts have been adjusted. *)
Lemma rep_counted tbm t M M' e p c : rep tbm M -> tbm_status tbm = TBM_HASH -> pt_ok t -> pt_map t = M' -> Z.of_nat (size M') < 2 ^ 31 ->
  Z.of_nat (size M') = Z.of_nat (size M) + e -> cnt false M' = cnt false M + p -> cnt true M' = cnt true M + c -> rep (count (set_table tbm t) e p c) M'.
Proof.
  intros Hrep Hs Hok Hm Hsz He Hp Hc. pose proof (cnt_range false M'). pose proof (cnt_range true M'). split; cbn [count set_table tbm_status pagetable nentries npages nchunks].
  - rewrite Hs. by exists t.
  - rewrite (rp_entries _ _ Hrep), wrap_count; lia.
  - rewrite (rp_pages _ _ Hrep), wrap_count; lia.
  - rewrite (rp_chunks _ _ Hrep), wrap_count; lia.
Qed.

Lemma rep_table tbm t M : rep tbm M -> tbm_status tbm = TBM_HASH -> pt_ok t -> pt_map t = M -> rep (set_table tbm t) M.
Proof. intros Hrep Hs Hok Hm. split; cbn [set_table tbm_status pagetable nentries npages nchunks]; [rewrite Hs; by exists t|apply Hrep..]. Qed.

(** ** Finding or creating an entry *)
Lemma get_pageentry_ok tbm M k : rep tbm M -> Z.of_nat (size M) <= pt_limit -> exists tbm' ptr, tbm_get_pageentry tbm k = Ok (tbm', ptr) /\
  rep tbm' (match M !! k with Some _ => M | None => <[k := zero_page_data]> M end) /\ ptr_at tbm' ptr k /\ kept tbm tbm'.
Proof.
  intros Hrep Hsz. pose proof law_limit as Hlim. unfold tbm_get_pageentry. pose proof (rp_table _ _ Hrep) as Ht.
  (* the part for a hash table *)
  assert (Hhash : forall tbm, rep tbm M -> tbm_status tbm = TBM_HASH -> exists tbm' ptr, (t ← table_of tbm; '(t, page, found) ← pagetable_insert t k;
    if (found : bool) then Ok (set_table tbm t, InTable page) else t ← pt_put t page zero_page_data; Ok (count (set_table tbm t) 1 1 0, InTable page)) = Ok (tbm', ptr) /\
    rep tbm' (match M !! k with Some _ => M | None => <[k := zero_page_data]> M end) /\ ptr_at tbm' ptr k /\ kept tbm tbm').
  { clear -Hsz Hlim LAWS. intros tbm Hrep Hs. destruct (rep_hash _ _ Hrep Hs) as (t & _ & Htab & Hok & Hm). rewrite Htab, bind_val. destruct (law_insert t k Hok) as (t1 & p & found & -> & Hok1 & Hp1 & _ & Hcase); [by rewrite Hm|]. rewrite bind_val. cbv beta iota. destruct Hcase as [(-> & Hm1 & [v Hv])|(-> & Hnone & v & Hm1)].
    - eexists _, _. split; [done|]. rewrite <- Hm, Hv. split; [|split; [|done]].
      + apply rep_table; [by rewrite Hm|done|done|done].
      + split; [done|]. by exists t1.
    - destruct (law_put t1 p k zero_page_data Hok1 Hp1) as (t2 & -> & Hok2 & Hm2 & Hpts & _). rewrite bind_val. eexists _, _. split; [done|]. rewrite <- Hm, Hnone. rewrite Hm1, insert_insert_eq, Hm in Hm2. rewrite Hm in Hnone. split; [|split; [|done]].
      + rewrite Hm. eapply rep_counted; [done|done|done|done|..]; rewrite ?map_size_insert_None, ?cnt_new by done; cbn; lia.
      + split; [done|]. exists t2. split; [done|]. by apply Hpts. }
  destruct (tbm_status tbm) eqn:Es.
  - destruct Ht as [Hpt ->]. eexists _, _. split; [done|]. rewrite lookup_empty, insert_empty. split; [|split; [done|done]]. split; cbn [count set_entry1 set_status tbm_status pagetable entry1 nentries npages nchunks pte_blockno pte_data].
    + done.
    + rewrite (rp_entries _ _ Hrep), map_size_empty, map_size_singleton. done.
    + rewrite (rp_pages _ _ Hrep). rewrite <- insert_empty, cnt_new by apply lookup_empty. done.
    + rewrite (rp_chunks _ _ Hrep). rewrite <- insert_empty, cnt_new by apply lookup_empty. done.
  - cbn [andb]. destruct (Z.eqb_spec (pte_blockno (entry1 tbm)) k) as [Hk|Hne].
    + eexists _, _. split; [done|]. destruct Ht as (_ & HM & _). assert (Hl : M !! k = Some (pte_data (entry1 tbm))) by (rewrite HM, <- Hk; apply lookup_singleton_eq). rewrite Hl. split; [done|]. split; [done|]. apply kept_refl.
    + destruct (create_pagetable_ok tbm M Hrep ltac:(congruence)) as (tbm1 & -> & Hrep1 & Hs1 & Hk1). rewrite bind_val. destruct (Hhash tbm1 Hrep1 Hs1) as (tbm2 & ptr & Hrun & Hrep2 & Hp2 & Hk2). exists tbm2, ptr. split; [done|]. split; [done|]. split; [done|]. by eapply kept_trans.
  - cbn [andb]. rewrite bind_val. by apply Hhash.
Qed.

(** ** Marking a page lossy *)
Lemma mark_page_lossy_ok tbm M k : rep tbm M -> is_u 32 k -> (forall k e, M !! k = Some e -> shape_ok k e) -> Z.of_nat (size M) <= pt_limit -> exists tbm', tbm_mark_page_lossy tbm k = Ok tbm' /\
  rep tbm' (mark M k) /\ tbm_status tbm' = TBM_HASH /\ kept tbm tbm' /\ (forall t it, tbm_status tbm = TBM_HASH -> pagetable tbm = Some t -> pt_weak t it -> exists t', pagetable tbm' = Some t' /\ pt_weak t' it).
Proof.
  intros Hrep0 Hk Hsh Hsz. pose proof law_limit as Hlim. unfold tbm_mark_page_lossy. destruct (header_facts k Hk) as (Hh & Hh0 & Hr & Hsplit).
  assert (Hstart : exists tbm1, (match tbm_status tbm with TBM_HASH => Ok tbm | _ => tbm_create_pagetable tbm end) = Ok tbm1 /\ rep tbm1 M /\ tbm_status tbm1 = TBM_HASH /\ kept tbm tbm1 /\ (tbm_status tbm = TBM_HASH -> tbm1 = tbm)).
  { destruct (tbm_status tbm) eqn:Es; [| |exists tbm; split_and!; done || apply kept_refl]; (destruct (create_pagetable_ok tbm M Hrep0 ltac:(congruence)) as (tbm1 & -> & ? & ? & ?); exists tbm1; split_and!; done). }
  destruct Hstart as (tbm1 & -> & Hrep & Hs1 & Hk1 & Hsame). rewrite bind_val. cbv zeta. fold (header k). destruct (rep_hash _ _ Hrep Hs1) as (t & Hpt & Htab & Hok & Hm).
  (* the entry of the page goes *)
  assert (Hdel : exists tbm2 t2, (if negb (k `mod` PAGES_PER_CHUNK =? 0) then t ← table_of tbm1; '(t, deleted) ← pagetable_delete t k; Ok (if (deleted : bool) then count (set_table tbm1 t) (-1) (-1) 0 else set_table tbm1 t) else Ok tbm1) = Ok tbm2 /\
    rep tbm2 (mark_base M k) /\ tbm_status tbm2 = TBM_HASH /\ kept tbm1 tbm2 /\ pagetable tbm2 = Some t2 /\ (forall it, pt_weak t it -> pt_weak t2 it)).
  { unfold mark_base. destruct (Z.eqb_spec (k `mod` PAGES_PER_CHUNK) 0) as [E|E]; cbn [negb]; [exists tbm1, t; split_and!; done || apply kept_refl|]. rewrite Htab, bind_val. destruct (law_delete t k Hok) as (t2 & -> & Hok2 & Hm2 & Hw2 & _). rewrite bind_val. cbv beta iota. rewrite Hm in *.
    eexists _, t2. split; [done|]. destruct (M !! k) as [e|] eqn:Ek.
    - rewrite bool_decide_true by done. assert (Hnc : ischunk e = false) by (destruct (ischunk e) eqn:Ech; [|done]; by destruct E; apply (so_chunk _ _ (Hsh _ _ Ek))).
      split; [|split_and!; done]. assert (Hsd : Z.of_nat (size (delete k M)) = Z.of_nat (size M) - 1).
      { rewrite map_size_delete_Some by done. assert (size M <> 0%nat); [|lia]. intros E0. apply map_size_empty_inv in E0. by rewrite E0, lookup_empty in Ek. }
      eapply rep_counted; [done|done|done|done|lia|lia|rewrite (cnt_delete _ M k e Ek)|rewrite (cnt_delete _ M k e Ek)]; unfold one_if; rewrite Hnc; cbn; lia.
    - rewrite bool_decide_false by (by intros [? ?]). split; [|split_and!; done]. apply rep_table; [by rewrite delete_id|done|done|done]. }
  destruct Hdel as (tbm2 & t2 & -> & Hrep2 & Hs2 & Hk2 & Hpt2 & Hw2). rewrite bind_val. destruct (rep_hash _ _ Hrep2 Hs2) as (t2' & Hpt2' & Htab2 & Hok2 & Hm2). rewrite Hpt2 in Hpt2'. injection Hpt2' as <-. rewrite Htab2, bind_val.
  destruct (mark_base_facts M k) as (B1 & _ & _ & B4). assert (Hsz2 : Z.of_nat (size (mark_base M k)) <= Z.of_nat (size M)) by (unfold mark_base; destruct (_ =? _); [lia|]; apply inj_le, map_subseteq_size, delete_subseteq).
  destruct (law_insert t2 (header k) Hok2) as (t3 & p & found & -> & Hok3 & Hp3 & Hw3 & Hcase); [rewrite Hm2; lia|]. rewrite bind_val. cbv beta iota. rewrite Hm2 in Hcase.
  set (e := mark_entry (mark_base M k !! header k)). destruct (mark_entry_spec M (header k) Hsh Hh Hh0) as (Hech & Heshape & _). rewrite <- B4 in Hech, Heshape. fold e in Hech, Heshape. destruct zero_words as [Hz1 _].
  (* the entry of the chunk is there *)
  assert (Hhead : exists tbm3 t4, (if negb found then t ← pt_put t3 p zero_chunk; Ok (count (set_table tbm2 t) 1 0 1, t)
    else e ← pt_get t3 p; if negb (ischunk (pte_data e)) then words ← aset (page_words zero_chunk) 0 (wrapu 64 (Z.shiftl 1 0)); t ← pt_put t3 p (mkPage true false words); Ok (count (set_table tbm2 t) 0 (-1) 1, t) else Ok (set_table tbm2 t3, t3)) = Ok (tbm3, t4) /\
    rep tbm3 (<[header k := e]> (mark_base M k)) /\ tbm_status tbm3 = TBM_HASH /\ kept tbm2 tbm3 /\ pagetable tbm3 = Some t4 /\ pt_points t4 p (header k) /\ (forall it, pt_weak t3 it -> pt_weak t4 it)).
  { destruct Hcase as [(-> & Hm3 & [e0 He0])|(-> & Hnone & v & Hm3)]; cbn [negb].
    - destruct (law_get t3 p _ Hok3 Hp3) as (e1 & -> & He1). rewrite Hm3, He0 in He1. injection He1 as <-. rewrite bind_val. cbn [pte_data]. subst e. rewrite He0. cbn [mark_entry]. destruct (ischunk e0) eqn:Ech; cbn [negb].
      + eexists _, t3. split; [done|]. split; [|split_and!; done]. rewrite insert_id by done. by apply rep_table.
      + destruct (law_put t3 p _ (mkPage true false (set_wbit (page_words zero_chunk) 0)) Hok3 Hp3) as (t4 & Hput & Hok4 & Hm4 & Hpts & Hw4 & _). change (aset (page_words zero_chunk) 0 (wrapu 64 (Z.shiftl 1 0))) with (Ok (set_wbit (page_words zero_chunk) 0)). rewrite bind_val, Hput, bind_val.
        eexists _, t4. split; [done|]. split; [|split_and!; done || by apply Hpts]. rewrite Hm3 in Hm4. eapply rep_counted; [done|done|done|done|..]; rewrite ?map_size_insert_Some by done; rewrite ?(cnt_replace _ _ _ e0) by done; unfold one_if; rewrite ?Ech; cbn; lia.
    - destruct (law_put t3 p _ zero_chunk Hok3 Hp3) as (t4 & -> & Hok4 & Hm4 & Hpts & Hw4 & _). rewrite bind_val. rewrite Hm3, insert_insert_eq in Hm4. subst e. rewrite Hnone. cbn [mark_entry].
      eexists _, t4. split; [done|]. split; [|split_and!; done || by apply Hpts]. eapply rep_counted; [done|done|done|done|..]; rewrite ?map_size_insert_None, ?cnt_new by done; cbn; lia. }
  destruct Hhead as (tbm3 & t4 & -> & Hrep3 & Hs3 & Hk3 & Hpt3 & Hp4 & Hw4). rewrite bind_val. cbv beta iota. destruct (rep_hash _ _ Hrep3 Hs3) as (t4' & Hpt3' & _ & Hok4 & Hm4). rewrite Hpt3 in Hpt3'. injection Hpt3' as <-.
  destruct (law_get t4 p _ Hok4 Hp4) as (e' & -> & He'). rewrite Hm4, lookup_insert_eq in He'. injection He' as <-. rewrite bind_val. cbn [pte_data]. rewrite set_word_bit_ok, bind_val by (apply Heshape || (rewrite chunk_size in Hr; rewrite chunk_size; lia)).
  destruct (law_put t4 p _ (mkPage (ischunk e) (page_recheck e) (set_wbit (page_words e) (k `mod` PAGES_PER_CHUNK))) Hok4 Hp4) as (t5 & -> & Hok5 & Hm5 & _ & Hw5 & _). rewrite bind_val.
  rewrite Hm4, insert_insert_eq in Hm5. eexists. split; [done|]. split; [|split; [done|split]].
  - split; cbn [set_table tbm_status pagetable nentries npages nchunks]; [rewrite Hs3; exists t5; split_and!; [done|done|exact Hm5]|..]; unfold mark; fold (mark_base M k); fold e; set (e2 := mkPage (ischunk e) _ _).
    + rewrite (rp_entries _ _ Hrep3). rewrite <- (insert_insert_eq (mark_base M k) (header k) e2 e). symmetry. f_equal. apply map_size_insert_Some. by rewrite lookup_insert_eq.
    + rewrite (rp_pages _ _ Hrep3). rewrite <- (insert_insert_eq (mark_base M k) (header k) e2 e), (cnt_replace _ (<[header k := e]> (mark_base M k)) (header k) e) by apply lookup_insert_eq. unfold one_if, e2. cbn [ischunk]. lia.
    + rewrite (rp_chunks _ _ Hrep3). rewrite <- (insert_insert_eq (mark_base M k) (header k) e2 e), (cnt_replace _ (<[header k := e]> (mark_base M k)) (header k) e) by apply lookup_insert_eq. unfold one_if, e2. cbn [ischunk]. lia.
  - eapply kept_trans; [exact Hk1|]. eapply kept_trans; [exact Hk2|]. exact Hk3.
  - intros t0 it Hs0 Hpt0 Hw0. exists t5. split; [done|]. rewrite (Hsame Hs0), Hpt0 in Hpt. injection Hpt as ->. auto.
Qed.
End Rep.
