(* ===== verification/TidBitmapLossify.v ===== *)
(** Giving up the tuples of pages to save memory: [tbm_lossify] terminates, whatever order the hash
    table returns its entries in, and only makes pages lossy that were in the bitmap. *)
From S2P Require Import Prelude ByteMem Loop TidBitmap TidBitmapMap TidBitmapTable TidBitmapRep.

(** [M'] remembers less of the tuples of some pages of [M]. *)
Record coarser (M M' : tmap) : Prop := {
  co_lossy : forall b, lossy M b = true -> lossy M' b = true;
  co_exact : forall b e, exact_page M' b = Some e -> exact_page M b = Some e;
  co_kept : forall b e, exact_page M b = Some e -> exact_page M' b = Some e \/ lossy M' b = true;
  co_new : forall b, lossy M' b = true -> lossy M b = true \/ is_Some (exact_page M b) }.

#[export] Instance coarser_preorder : PreOrder coarser.
Proof.
  split.
  - intros M. split; auto.
  - intros M1 M2 M3 [A1 A2 A3 A4] [B1 B2 B3 B4]. split; [auto|auto| |].
    + intros b e He. destruct (A3 b e He) as [H|H]; auto.
    + intros b Hl. destruct (B4 b Hl) as [H|[e He]]; [by apply A4|]. right. exists e. by apply A2.
Qed.

(** The exact pages that are not the first of their chunk. *)
Definition body (kv : Z * PageData) : Prop := ischunk kv.2 = false /\ kv.1 `mod` PAGES_PER_CHUNK <> 0.
#[export] Instance body_dec kv : Decision (body kv).
Proof. unfold body. apply _. Defined.
Definition bodies (M : tmap) : Z := Z.of_nat (size (filter body M)).

Section MarkBody.
Context (M : tmap) (b : Z) (e : PageData).
Hypothesis Hok : map_ok M.
Hypothesis He : M !! b = Some e.
Hypothesis Hbody : body (b, e).

Lemma body_key : is_u 32 b.
Proof. apply (so_key _ _ (mo_shape _ Hok _ _ He)). Qed.

Lemma mark_coarser : coarser M (mark M b).
Proof.
  destruct (mark_spec M b body_key (mo_shape _ Hok)) as (_ & S2 & S3). assert (Hex : exact_page M b = Some e) by (destruct Hbody as [Hb _]; cbn in Hb; unfold exact_page; by rewrite He, Hb). split.
  - intros b' Hl. by rewrite S2, Hl.
  - intros b' e'. rewrite S3. by case_decide.
  - intros b' e' He'. rewrite S2, S3. destruct (decide (b' = b \/ b' = header b)) as [[->| ->]|]; [right; by rewrite Z.eqb_refl, orb_true_r| |by left]. right. rewrite Z.eqb_refl, He'. rewrite bool_decide_true by done. by rewrite orb_true_r.
  - intros b'. rewrite S2. intros [[Hl| ->%Z.eqb_eq]%orb_true_iff|[->%Z.eqb_eq Hs%bool_decide_eq_true]%andb_true_iff]%orb_true_iff; [by left|right; by exists e|by right].
Qed.

Lemma mark_size : (size (mark M b) <= size M)%nat.
Proof.
  unfold mark. destruct (Z.eqb_spec (b `mod` PAGES_PER_CHUNK) 0) as [E|E]; [by destruct Hbody|]. set (x := mkPage _ _ _). pose proof (map_size_delete_Some b M ltac:(by exists e)) as Hd. assert (size M <> 0%nat) by (intros E0; apply map_size_empty_inv in E0; by rewrite E0, lookup_empty in He).
  generalize x. intros y. rewrite map_size_insert. destruct (delete b M !! header b); unfold id; lia.
Qed.

Lemma mark_bodies : bodies (mark M b) < bodies M.
Proof.
  unfold bodies. apply inj_lt. apply map_subset_size. destruct (header_facts b body_key) as (Hh & Hh0 & _ & _). unfold mark. destruct (Z.eqb_spec (b `mod` PAGES_PER_CHUNK) 0) as [E|E]; [by destruct Hbody|]. set (x := mkPage _ _ _).
  apply map_subset_alt. split.
  - apply map_subseteq_spec. intros k v Hk. apply map_lookup_filter_Some in Hk as [Hk Hb]. apply map_lookup_filter_Some. split; [|done]. apply lookup_insert_Some in Hk as [[<- _]|[_ Hk]]; [by destruct Hb|]. by apply lookup_delete_Some in Hk as [_ ?].
  - exists b. split; [|exists e; by apply map_lookup_filter_Some]. apply map_lookup_filter_None. left. rewrite lookup_insert_ne by (intros E1; apply E; by rewrite <- E1). apply lookup_delete_eq.
Qed.
End MarkBody.

Section Lossify.
Context {T I : Type} {OP : PageTableOps T I} {LAWS : PageTableLaws T I}.
Notation bitmap := (TIDBitmap T).
Implicit Types (tbm : bitmap) (M : tmap).

(** The state of the scan of a bitmap that was [M0]. *)
Definition lossify_inv (tbm0 : bitmap) (M0 : tmap) (s : bitmap * I) : Prop := exists M t, rep s.1 M /\ map_ok M /\ coarser M0 M /\ (size M <= size M0)%nat /\
  tbm_status s.1 = TBM_HASH /\ pagetable s.1 = Some t /\ pt_weak t s.2 /\ kept tbm0 s.1.
Definition lossify_measure (s : bitmap * I) : Z :=
  match pagetable s.1 with
  | Some t => bodies (pt_map t) * (2 ^ 32 + 1) + pt_left t s.2
  | None => 0
  end.
(** The result, whatever the limits are. *)
Definition lossified (tbm0 : bitmap) (M0 : tmap) (tbm : bitmap) : Prop := exists M, rep tbm M /\ map_ok M /\ coarser M0 M /\ (size M <= size M0)%nat /\ tbm_status tbm = TBM_HASH /\ iterating tbm = iterating tbm0 /\ (1 <= maxentries tbm0 -> 1 <= maxentries tbm).

Lemma rep_limits tbm M mx ls : rep tbm M -> rep (set_limits tbm mx ls) M.
Proof. intros [H1 H2 H3 H4]. by split. Qed.

Lemma lossify_step_ok tbm0 M0 s : Z.of_nat (size M0) <= pt_limit -> lossify_inv tbm0 M0 s ->
  exists r, lossify_step s = Ok r /\ match r with inl s' => lossify_inv tbm0 M0 s' /\ lossify_measure s' < lossify_measure s | inr tbm => lossified tbm0 M0 tbm end.
Proof.
  intros Hlim (M & t & Hrep & Hok & Hco & Hsz & Hs & Hpt & Hw & Hk). destruct s as [tbm it]. cbn [fst snd] in *. unfold lossify_step. destruct (rep_hash _ _ Hrep Hs) as (t' & Hpt' & Htab & Htok & Hm). rewrite Hpt in Hpt'. injection Hpt' as <-. rewrite Htab, bind_val.
  destruct (law_iterate_weak t it Htok Hw) as (it1 & r & -> & Hw1 & Hr). rewrite bind_val. cbv beta iota. destruct r as [p|].
  2: { eexists. split; [done|]. exists M. destruct Hk as (Hk1 & Hk2 & _). split_and!; [done|done|done|done|done|done|by rewrite Hk1]. }
  destruct Hr as [Hleft (k & Hp)]. destruct (law_get t p k Htok Hp) as (e & -> & He). rewrite bind_val. cbn [pte_data pte_blockno]. rewrite Hm in He.
  assert (Hskip : lossify_inv tbm0 M0 (tbm, it1) /\ lossify_measure (tbm, it1) < lossify_measure (tbm, it)) by (split; [exists M, t; split_and!; done|unfold lossify_measure; cbn [fst snd]; rewrite Hpt; lia]).
  destruct (ischunk e) eqn:Ech; [by eexists|]. destruct (Z.eqb_spec (k `mod` PAGES_PER_CHUNK) 0) as [E|E]; [by eexists|]. assert (Hbody : body (k, e)) by done.
  destruct (mark_page_lossy_ok tbm M k Hrep (body_key M k e Hok He) (mo_shape _ Hok) ltac:(lia)) as (tbm1 & -> & Hrep1 & Hs1 & Hk1 & Hwk). rewrite bind_val. destruct (Hwk t it1 Hs Hpt Hw1) as (t1 & Hpt1 & Hw2).
  pose proof (mark_coarser M k e Hok He Hbody) as Hco1. pose proof (mark_size M k e He Hbody) as Hsz1. pose proof (mark_bodies M k e Hok He Hbody) as Hbod. pose proof (mark_map_ok M k (body_key M k e Hok He) Hok) as Hok1.
  assert (Hco2 : coarser M0 (mark M k)) by (by transitivity M). zcase.
  - eexists. split; [done|]. exists (mark M k). destruct Hk1 as (Hm1 & Hi1 & _), Hk as (Hmx & Hi & _). split_and!; [by apply rep_limits|done|done|lia|done|cbn; congruence|cbn; by rewrite Hm1, Hmx].
  - eexists. split; [done|]. split; [exists (mark M k), t1; cbn [fst snd]; split_and!; [done|done|done|lia|done|done|done|by eapply kept_trans]|].
    destruct (rep_hash _ _ Hrep1 Hs1) as (t1' & Hpt1' & _ & Htok1 & Hm1). rewrite Hpt1 in Hpt1'. injection Hpt1' as <-. unfold lossify_measure. cbn [fst snd]. rewrite Hpt, Hpt1, Hm, Hm1. pose proof (law_left t1 it1 Htok1 Hw2). pose proof (law_left t it Htok Hw). lia.
Qed.

Lemma lossify_ok tbm M : rep tbm M -> map_ok M -> tbm_status tbm = TBM_HASH -> Z.of_nat (size M) <= pt_limit -> exists tbm', tbm_lossify tbm = Ok tbm' /\ lossified tbm M tbm' /\ (1 <= maxentries tbm -> nentries tbm' <= maxentries tbm').
Proof.
  intros Hrep Hok Hs Hlim. pose proof law_limit as Hll. unfold tbm_lossify. destruct (rep_hash _ _ Hrep Hs) as (t & Hpt & Htab & Htok & Hm). rewrite Htab, bind_val. pose proof (law_start_at t (lossify_start tbm) Htok) as Hw.
  destruct (run_loop_ok lossify_step (lossify_inv tbm M) lossify_measure (lossified tbm M) lossify_fuel (tbm, pagetable_start_iterate_at t (lossify_start tbm))) as (tbm1 & -> & H1).
  - intros s Hinv. by apply lossify_step_ok.
  - intros s (M1 & t1 & Hrep1 & _ & _ & _ & Hs1 & Hpt1 & Hw1 & _). destruct (rep_hash _ _ Hrep1 Hs1) as (t2 & Hpt2 & _ & Htok2 & _). rewrite Hpt1 in Hpt2. injection Hpt2 as <-. unfold lossify_measure. rewrite Hpt1. pose proof (law_left t1 _ Htok2 Hw1). unfold bodies. lia.
  - exists M, t. split_and!; done.
  - unfold lossify_measure. cbn [fst snd]. rewrite Hpt, Hm. pose proof (law_left t _ Htok Hw). assert (bodies M <= Z.of_nat (size M)) by (unfold bodies; apply inj_le, map_subseteq_size, map_filter_subseteq). change (Zpos lossify_fuel) with (2 ^ 70). lia.
  - rewrite bind_val. destruct H1 as (M1 & Hrep1 & Hok1 & Hco1 & Hsz1 & Hs1 & Hi1 & Hmx1). pose proof (rp_entries _ _ Hrep1) as Hn. eexists. split; [done|]. destruct (Z.ltb_spec (Z.quot (maxentries tbm1) 2) (nentries tbm1)) as [Hlt|Hge].
    + assert (Hmax : 1 <= maxentries tbm -> wraps 32 (Z.min (nentries tbm1) (Z.quot (2 ^ 31 - 1 - 1) 2) * 2) = nentries tbm1 * 2 /\ 1 <= nentries tbm1).
      { intros Hmx. specialize (Hmx1 Hmx). pose proof (Z.quot_pos (maxentries tbm1) 2 ltac:(lia) ltac:(lia)). change (Z.quot (2 ^ 31 - 1 - 1) 2) with 1073741823. rewrite wrap_count; lia. }
      split; [|intros Hmx; destruct (Hmax Hmx) as [E ?]; cbn [set_limits maxentries nentries]; rewrite E; lia]. exists M1. split_and!; [by apply rep_limits|done|done|done|done|done|]. intros Hmx. destruct (Hmax Hmx) as [E ?]. cbn [set_limits maxentries]. rewrite E. lia.
    + split; [exists M1; split_and!; done|]. intros Hmx. specialize (Hmx1 Hmx). rewrite Z.quot_div_nonneg in Hge by lia. pose proof (Z.div_lt (maxentries tbm1) 2). lia.
Qed.
End Lossify.
