(* ===== verification/TidBitmapAdd.v ===== *)
(** Adding tuples and pages to a bitmap. *)
From S2P Require Import Prelude ByteMem Loop GinPosting TidBitmap TidBitmapMap TidBitmapTable TidBitmapRep TidBitmapLossify.

(** ** What a bitmap stands for *)
(** The bitmap stands for the tuples [S]: none of them is missing, those that need no recheck are
    among them, and only blocks in [P] are reported. *)
Record represents (M : tmap) (S : Z -> Z -> Prop) (P : Z -> Prop) : Prop := {
  re_complete : forall b o, S b o -> lossy M b = true \/ exact M b o;
  re_certain : forall b o, certain M b o -> S b o;
  re_blocks : forall b, lossy M b = true \/ is_Some (exact_page M b) -> P b }.

Lemma represents_coarser M M' S P : coarser M M' -> represents M S P -> represents M' S P.
Proof.
  intros [C1 C2 C3 C4] [R1 R2 R3]. split.
  - intros b o Ho. destruct (R1 b o Ho) as [Hl|(e & He & Hr & Hb)]; [left; by apply C1|]. destruct (C3 b e He) as [He'|Hl]; [right; by exists e|by left].
  - intros b o (e & He & Hr & Hb & Hc). apply R2. exists e. split_and!; try done; [by apply C2|lia|lia].
  - intros b [Hl|[e He]]; apply R3; [by apply C4|]. right. exists e. by apply C2.
Qed.
Lemma represents_ext M (S S' : Z -> Z -> Prop) (P P' : Z -> Prop) : (forall b o, S b o <-> S' b o) -> (forall b, P b -> P' b) -> represents M S P -> represents M S' P'.
Proof. intros HS HP [R1 R2 R3]. split; [intros b o Ho; by apply R1, HS|intros b o Ho; by apply HS, R2|auto]. Qed.

(** ** Tuples of one page *)
(** All of [map_ok] but that the entry of [b] may be empty. *)
Record map_but (M : tmap) (b : Z) : Prop := {
  mb_shape : forall k e, M !! k = Some e -> shape_ok k e;
  mb_nonempty : forall k e, k <> b -> M !! k = Some e -> page_nonempty e;
  mb_apart : forall b, lossy M b = true -> exact_page M b = None }.

Lemma map_ok_but M b : map_ok M -> map_but M b.
Proof. intros [H1 H2 H3]. split; eauto. Qed.

Lemma zero_page_shape b : is_u 32 b -> shape_ok b zero_page_data.
Proof. intros Hb. destruct zero_words as [Hz1 Hz2]. split; [done|done|done|]. intros i Hi Hw. change (page_words zero_page_data) with (page_words zero_chunk) in Hw. by rewrite Hz2 in Hw. Qed.

(** An entry for an exact page is created. *)
Lemma new_page_but M b : map_ok M -> is_u 32 b -> lossy M b = false -> M !! b = None -> map_but (<[b := zero_page_data]> M) b /\ (forall b', lossy (<[b := zero_page_data]> M) b' = lossy M b').
Proof.
  intros Hok Hb Hl Hn. assert (Hsame : forall b', lossy (<[b := zero_page_data]> M) b' = lossy M b').
  { intros b'. unfold lossy. destruct (decide (header b' = b)) as [->|Hne]; [by rewrite lookup_insert_eq, Hn|by rewrite lookup_insert_ne]. }
  split; [|done]. split.
  - intros k e. rewrite lookup_insert_Some. intros [[<- <-]|[_ Hk]]; [by apply zero_page_shape|by apply Hok].
  - intros k e Hne. rewrite lookup_insert_ne by done. apply Hok.
  - intros b'. rewrite Hsame, exact_page_insert. intros Hl'. rewrite decide_False by (intros ->; congruence). by apply Hok.
Qed.

(** The entry [e] of [b] gets the bits [g] as well, and is to be rechecked if [r].  The entry may be a
    chunk, whose first page is [b]. *)
Record grown (e e' : PageData) (r : bool) (g : Z -> bool) : Prop := {
  gr_chunk : ischunk e' = ischunk e;
  gr_recheck : page_recheck e' = page_recheck e || r;
  gr_words : words_ok (page_words e');
  gr_bits : forall i, 0 <= i < 320 -> wbit (page_words e') i = wbit (page_words e) i || g i;
  gr_limit : forall i, 0 <= i < 320 -> g i = true -> i < limit_of e;
  gr_some : exists i, 0 <= i < 320 /\ g i = true;
  gr_first : ischunk e = true -> forall i, 0 <= i < 320 -> g i = (i =? 0) }.

Section Touch.
Context (M : tmap) (b : Z) (r : bool) (g : Z -> bool) (e e' : PageData).
Hypothesis Hok : map_but M b.
Hypothesis He : M !! b = Some e.
Hypothesis Hg : grown e e' r g.
Notation M' := (<[b := e']> M).

Lemma touch_lossy b' : lossy M' b' = lossy M b' || (ischunk e && (b' =? b)).
Proof.
  destruct Hg as [G1 G2 G3 G4 G5 G6 G7]. pose proof (mb_shape _ _ Hok _ _ He) as Hs. pose proof (so_key _ _ Hs) as Hk. unfold lossy. destruct (decide (header b' = b)) as [E|Hne].
  - rewrite E, lookup_insert_eq, He, G1. destruct (ischunk e) eqn:Ech; [|done]. cbn [andb]. pose proof (Z.mod_pos_bound b' 256 ltac:(lia)). rewrite chunk_size, G4, G7 by (done || lia). f_equal.
    apply eq_true_iff_eq. rewrite !Z.eqb_eq. unfold header in E. rewrite chunk_size in E. lia.
  - rewrite lookup_insert_ne by done. destruct (ischunk e) eqn:Ech; [|by rewrite andb_false_l, orb_false_r]. rewrite (proj2 (Z.eqb_neq b' b)); [by rewrite andb_false_r, orb_false_r|]. intros ->. apply Hne. unfold header. rewrite (so_chunk _ _ Hs Ech). lia.
Qed.

Lemma touch_ok : map_ok M'.
Proof.
  pose proof touch_lossy as Hlossy. destruct Hg as [G1 G2 G3 G4 G5 G6 G7]. pose proof (mb_shape _ _ Hok _ _ He) as Hs. assert (Hlim : limit_of e' = limit_of e) by (unfold limit_of; by rewrite G1). split.
  - intros k d. rewrite lookup_insert_Some. intros [[<- <-]|[_ Hk]]; [|by apply Hok]. split; [apply Hs|rewrite G1; apply Hs|done|]. intros i Hi. rewrite G4, Hlim by done. intros [Hb|Hb]%orb_true_iff; [apply (so_bits _ _ Hs i Hi Hb)|by apply G5].
  - intros k d. rewrite lookup_insert_Some. intros [[<- <-]|[Hne Hk]]; [|by eapply Hok]. destruct G6 as (i & Hi & Hgi). exists i. rewrite Hlim. split; [split; [lia|by apply G5]|]. by rewrite G4, Hgi, orb_true_r.
  - intros b'. rewrite Hlossy, exact_page_insert, G1. intros [Hl|[Hc Hb%Z.eqb_eq]%andb_true_iff]%orb_true_iff.
    + pose proof (mb_apart _ _ Hok b' Hl) as Ha. case_decide as E; [subst; unfold exact_page in Ha; rewrite He in Ha; by destruct (ischunk e)|done].
    + rewrite decide_True by done. by rewrite Hc.
Qed.

Lemma touch_represents (S X : Z -> Z -> Prop) P : represents M S P -> (forall b' o, X b' o -> b' = b /\ (ischunk e = false -> 1 <= o <= MAX_TUPLES_PER_PAGE /\ g (o - 1) = true)) -> (r = false -> ischunk e = false -> forall o, 1 <= o <= MAX_TUPLES_PER_PAGE -> g (o - 1) = true -> X b o) ->
  represents M' (fun b' o' => S b' o' \/ X b' o') (fun b' => P b' \/ b' = b).
Proof.
  intros [R1 R2 R3] HX HXr. pose proof touch_lossy as Hlossy. destruct Hg as [G1 G2 G3 G4 G5 G6 G7].
  assert (Hbit : forall o, 1 <= o <= MAX_TUPLES_PER_PAGE -> wbit (page_words e') (o - 1) = wbit (page_words e) (o - 1) || g (o - 1)) by (intros o Ho; rewrite page_size in Ho; apply G4; lia). split.
  - intros b' o' HS. rewrite Hlossy. destruct (decide (b' = b)) as [->|Hne].
    + destruct (ischunk e) eqn:Ech; [left; by rewrite Z.eqb_refl, orb_true_r|]. rewrite orb_false_r. assert (Hhere : 1 <= o' <= MAX_TUPLES_PER_PAGE -> wbit (page_words e) (o' - 1) || g (o' - 1) = true -> exact M' b o').
      { intros Hr Hb. exists e'. rewrite exact_page_insert, decide_True, G1 by done. by rewrite Hbit. }
      destruct HS as [HS|HS].
      * destruct (R1 b o' HS) as [Hl|(d & Hd & Hr' & Hb')]; [by left|]. right. unfold exact_page in Hd. rewrite He, Ech in Hd. injection Hd as <-. apply Hhere; [done|by rewrite Hb'].
      * destruct (HX _ _ HS) as [_ Hx]. destruct (Hx eq_refl) as [Hr' Hb']. right. apply Hhere; [done|by rewrite Hb', orb_true_r].
    + destruct HS as [HS|HS]; [|by destruct (HX _ _ HS)]. destruct (R1 b' o' HS) as [Hl|(d & Hd & Hrest)]; [left; by rewrite Hl|]. right. exists d. by rewrite exact_page_insert, decide_False by done.
  - intros b' o' (d & Hd & Hr' & Hb' & Hc'). rewrite exact_page_insert, G1 in Hd. case_decide as E.
    + subst b'. destruct (ischunk e) eqn:Ech; [done|]. injection Hd as <-. rewrite G2 in Hc'. apply orb_false_iff in Hc' as [Hc1 Hc2]. rewrite Hbit in Hb' by done. apply orb_true_iff in Hb' as [Hb'|Hb'].
      * left. apply R2. exists e. split; [unfold exact_page; by rewrite He, Ech|]. done.
      * right. by apply HXr.
    + left. apply R2. by exists d.
  - intros b' [Hl|Hs].
    + rewrite Hlossy in Hl. apply orb_true_iff in Hl as [Hl|[_ Hl%Z.eqb_eq]%andb_true_iff]; [left; apply R3; by left|by right].
    + rewrite exact_page_insert in Hs. case_decide as E; [by right|]. left. apply R3. by right.
Qed.
End Touch.

Lemma new_page_represents M b S P : M !! b = None -> (forall b', lossy (<[b := zero_page_data]> M) b' = lossy M b') -> represents M S P -> represents (<[b := zero_page_data]> M) S (fun b' => P b' \/ b' = b).
Proof.
  intros Hn Hl [R1 R2 R3]. destruct zero_words as [_ Hz]. split.
  - intros b' o HS. rewrite Hl. destruct (R1 b' o HS) as [H|(e & He & Hrest)]; [by left|]. right. exists e. rewrite exact_page_insert. rewrite decide_False; [done|]. intros ->. unfold exact_page in He. by rewrite Hn in He.
  - intros b' o (e & He & Hr & Hb & Hc). rewrite exact_page_insert in He. case_decide as E; [|apply R2; by exists e]. cbn in He. injection He as <-. change (page_words zero_page_data) with (page_words zero_chunk) in Hb. by rewrite Hz in Hb.
  - intros b'. rewrite Hl, exact_page_insert. case_decide as E; [by right|]. intros H. left. by apply R3.
Qed.

(** One more tuple. *)
Definition touched (e : PageData) (o : Z) (r : bool) : PageData :=
  mkPage (ischunk e) (page_recheck e || r) (set_wbit (page_words e) (if ischunk e then 0 else o - 1)).

Lemma touched_grown b e o r : shape_ok b e -> 1 <= o <= MAX_TUPLES_PER_PAGE -> grown e (touched e o r) r (fun i => (if ischunk e then 0 else o - 1) =? i).
Proof.
  intros Hs Ho. rewrite page_size in Ho. assert (Hi : 0 <= (if ischunk e then 0 else o - 1) < 320) by (destruct (ischunk e); lia). pose proof (set_wbit_spec (page_words e) _ 0 (so_words _ _ Hs) Hi ltac:(lia)) as [Hw _].
  split; [done|done|done| | | |].
  - intros i Hi'. by apply set_wbit_spec; [apply Hs|..].
  - intros i Hi' <-%Z.eqb_eq. unfold limit_of. rewrite page_size, chunk_size. destruct (ischunk e); lia.
  - eexists. split; [exact Hi|]. apply Z.eqb_refl.
  - intros -> i _. apply Z.eqb_sym.
Qed.

(** ** Tuples *)
Definition tid_ok (tid : ItemPointerData) : Prop := is_u 32 (ip_blkid tid) /\ ip_blkid tid <> InvalidBlock.
Definition off_ok (tid : ItemPointerData) : Prop := 1 <= ip_posid tid <= MAX_TUPLES_PER_PAGE.
#[export] Instance off_ok_dec tid : Decision (off_ok tid).
Proof. unfold off_ok. apply _. Defined.

Section Add.
Context {T I : Type} {OP : PageTableOps T I} {LAWS : PageTableLaws T I}.
Notation bitmap := (TIDBitmap T).
Implicit Types (tbm : bitmap) (M : tmap).

(** A bitmap under construction. *)
Record bitmap_ok tbm M (S : Z -> Z -> Prop) (P : Z -> Prop) : Prop := {
  bo_rep : rep tbm M;
  bo_map : map_ok M;
  bo_represents : represents M S P;
  bo_open : iterating tbm = TBM_NOT_ITERATING;
  bo_max : 1 <= maxentries tbm }.

Lemma lossified_ok tbm M S P tbm' : bitmap_ok tbm M S P -> lossified tbm M tbm' -> exists M', bitmap_ok tbm' M' S P /\ (size M' <= size M)%nat.
Proof. intros [H1 H2 H3 H4 H5] (M' & Hrep & Hok & Hco & Hsz & _ & Hit & Hmx). exists M'. split; [|done]. split; [done|done|by eapply represents_coarser|congruence|auto]. Qed.

(** The check at the end of an operation. *)
Lemma shrink_ok tbm M S P : bitmap_ok tbm M S P -> Z.of_nat (size M) <= pt_limit -> exists tbm', (if maxentries tbm <? nentries tbm then tbm_lossify tbm else Ok tbm) = Ok tbm' /\ exists M', bitmap_ok tbm' M' S P /\ (size M' <= size M)%nat.
Proof.
  intros Hok Hsz. pose proof (bo_max _ _ _ _ Hok) as Hmax. pose proof (bo_rep _ _ _ _ Hok) as Hrep. rewrite (rp_entries _ _ Hrep). destruct (Z.ltb_spec (maxentries tbm) (Z.of_nat (size M))) as [Hlt|Hge]; [|exists tbm; split; [done|]; by exists M].
  assert (Hs : tbm_status tbm = TBM_HASH).
  { pose proof (rp_table _ _ Hrep) as Ht. destruct (tbm_status tbm); [|..|done]; exfalso.
    - destruct Ht as [_ ->]. rewrite map_size_empty in Hlt. lia.
    - destruct Ht as (_ & -> & _). rewrite map_size_singleton in Hlt. lia. }
  destruct (lossify_ok tbm M Hrep (bo_map _ _ _ _ Hok) Hs Hsz) as (tbm' & -> & Hl & _). exists tbm'. split; [done|]. by eapply lossified_ok.
Qed.

Definition cached tbm M (currblk : Z) (page : option pageptr) : Prop :=
  currblk = InvalidBlock \/ match page with None => lossy M currblk = true | Some p => ptr_at tbm p currblk end.

(** The entry of a page that is not lossy, which may be that of the chunk it begins. *)
Lemma page_lookup_ok tbm M S P blk : bitmap_ok tbm M S P -> is_u 32 blk -> lossy M blk = false -> Z.of_nat (size M) <= pt_limit ->
  exists tbm1 M1 p, tbm_get_pageentry tbm blk = Ok (tbm1, p) /\ rep tbm1 M1 /\ kept tbm tbm1 /\ (size M1 <= size M + 1)%nat /\ represents M1 S (fun b => P b \/ b = blk) /\ ptr_at tbm1 p blk /\ map_but M1 blk.
Proof.
  intros [Hrep Hok HS Hop Hmx] Hb El Hsz. destruct (get_pageentry_ok tbm M blk Hrep Hsz) as (tbm1 & p & -> & Hrep1 & Hp & Hk). exists tbm1. destruct (M !! blk) as [e|] eqn:Eb.
  - exists M, p. split; [done|]. split; [done|]. split; [done|]. split; [lia|]. split; [|split; [done|by apply map_ok_but]]. eapply represents_ext; [| |exact HS]; [done|by left].
  - destruct (new_page_but M blk Hok Hb El Eb) as [Hbut Hsame]. eexists _, p. split; [done|]. split; [exact Hrep1|]. split; [done|]. split; [rewrite map_size_insert_None by done; lia|]. split; [by apply new_page_represents|done].
Qed.

(** The lookup of the page of a tuple. *)
Lemma add_lookup_ok tbm M S P blk currblk page : bitmap_ok tbm M S P -> cached tbm M currblk page -> is_u 32 blk -> blk <> InvalidBlock -> Z.of_nat (size M) <= pt_limit ->
  exists tbm1 M1 page1, (if negb (blk =? currblk) then lossy ← tbm_page_is_lossy tbm blk; if (lossy : bool) then Ok (tbm, None, blk) else '(tbm, p) ← tbm_get_pageentry tbm blk; Ok (tbm, Some p, blk) else Ok (tbm, page, currblk)) = Ok (tbm1, page1, blk) /\
    rep tbm1 M1 /\ kept tbm tbm1 /\ (size M1 <= size M + 1)%nat /\ represents M1 S (fun b => P b \/ b = blk) /\
    match page1 with None => M1 = M /\ tbm1 = tbm /\ lossy M blk = true | Some p => ptr_at tbm1 p blk /\ map_but M1 blk end.
Proof.
  intros Hbm Hc Hb Hnb Hsz. destruct (Hbm) as [Hrep Hok HS Hop Hmx]. assert (HP : represents M S (fun b => P b \/ b = blk)) by (eapply represents_ext; [| |exact HS]; [done|by left]). destruct (Z.eqb_spec blk currblk) as [<-|Hne]; cbn [negb].
  - destruct Hc as [?|Hc]; [done|]. exists tbm, M, page. split; [done|]. split; [done|]. split; [apply kept_refl|]. split; [lia|]. split; [done|]. destruct page as [p|]; [|done]. split; [done|by apply map_ok_but].
  - rewrite (page_is_lossy_ok tbm M blk Hrep (mo_shape _ Hok)), bind_val. destruct (lossy M blk) eqn:El.
    + exists tbm, M, None. split; [done|]. split; [done|]. split; [apply kept_refl|]. split; [lia|]. split; [done|]. done.
    + destruct (page_lookup_ok tbm M S P blk Hbm Hb El Hsz) as (tbm1 & M1 & p & -> & Hrest). rewrite bind_val. exists tbm1, M1, (Some p). split; [done|]. tauto.
Qed.

(** The tuples [X] of the list that are in fact in the set: all of them, unless they are to be
    rechecked. *)
Definition matches (tids : list ItemPointerData) (recheck : bool) (X : Z -> Z -> Prop) : Prop :=
  (forall b o, X b o -> mkItemPointer b o ∈ tids) /\ (recheck = false -> forall tid, tid ∈ tids -> X (ip_blkid tid) (ip_posid tid)).

Lemma matches_tail tid tids recheck X : matches (tid :: tids) recheck X -> matches tids recheck (fun b o => X b o /\ mkItemPointer b o ∈ tids).
Proof. intros [H1 H2]. split; [by intros b o [_ ?]|]. intros Hr [b o] Hin. split; [apply (H2 Hr (mkItemPointer b o)); by right|done]. Qed.
Lemma matches_split b o tids recheck X b' o' : matches (mkItemPointer b o :: tids) recheck X -> X b' o' -> (b' = b /\ o' = o) \/ mkItemPointer b' o' ∈ tids.
Proof. intros [H1 _] HX. apply H1 in HX. apply elem_of_cons in HX as [E|?]; [left; by injection E|by right]. Qed.

Lemma bitmap_ok_ext tbm M S S' (P P' : Z -> Prop) : (forall b o, S b o <-> S' b o) -> (forall b, P b -> P' b) -> bitmap_ok tbm M S P -> bitmap_ok tbm M S' P'.
Proof. intros HS HP [H1 H2 H3 H4 H5]. split; [done|done|by eapply represents_ext|done|done]. Qed.

(** The bits of an entry that has been found are written back. *)
Lemma grow_ok tbm M S (P : Z -> Prop) (X : Z -> Z -> Prop) p blk d d' r g : rep tbm M -> iterating tbm = TBM_NOT_ITERATING -> 1 <= maxentries tbm -> ptr_at tbm p blk -> map_but M blk -> represents M S P -> P blk -> M !! blk = Some d -> grown d d' r g ->
  (forall b o, X b o -> b = blk /\ (ischunk d = false -> 1 <= o <= MAX_TUPLES_PER_PAGE /\ g (o - 1) = true)) -> (r = false -> ischunk d = false -> forall o, 1 <= o <= MAX_TUPLES_PER_PAGE -> g (o - 1) = true -> X blk o) ->
  exists tbm1, page_put tbm p d' = Ok tbm1 /\ ptr_at tbm1 p blk /\ exists M1, bitmap_ok tbm1 M1 (fun b o => S b o \/ X b o) P /\ size M1 = size M.
Proof.
  intros Hrep Hop Hmx Hp Hbut HR HP Hd Hg HX HXr. destruct (page_put_ok tbm M p blk d d' Hrep Hp Hd (gr_chunk _ _ _ _ Hg)) as (tbm1 & Hput & Hrep1 & Hptr & (Hk1 & Hk2 & _) & _). exists tbm1. split; [done|]. split; [by apply Hptr|]. eexists. split; [split; [exact Hrep1| | |congruence|congruence]|].
  - by eapply touch_ok.
  - eapply represents_ext; [| |by eapply (touch_represents M blk r g d)]; [done|]. intros b [?| ->]; done.
  - apply map_size_insert_Some. by exists d.
Qed.

(** A tuple of a page whose entry has been found. *)
Lemma add_tuple_ok tbm M S (P : Z -> Prop) (X : Z -> Z -> Prop) p blk off recheck : rep tbm M -> iterating tbm = TBM_NOT_ITERATING -> 1 <= maxentries tbm -> ptr_at tbm p blk -> map_but M blk -> represents M S P -> P blk -> 1 <= off <= MAX_TUPLES_PER_PAGE -> (forall b o, X b o -> b = blk /\ o = off) -> (recheck = false -> X blk off) ->
  exists e tbm1, page_get tbm p = Ok e /\ (let '(wordnum, bitnum) := if ischunk (pte_data e) then (0, 0) else (TBM_WORDNUM (off - 1), TBM_BITNUM (off - 1)) in words ← set_word_bit (page_words (pte_data e)) wordnum bitnum; page_put tbm p (mkPage (ischunk (pte_data e)) (page_recheck (pte_data e) || recheck) words)) = Ok tbm1 /\
    ptr_at tbm1 p blk /\ exists M1, bitmap_ok tbm1 M1 (fun b o => S b o \/ X b o) P /\ size M1 = size M.
Proof.
  intros Hrep Hop Hmx Hp Hbut HR HP Ho HX HXr. destruct (page_get_ok tbm M p blk Hrep Hp) as (d & Hget & Hd). pose proof (mb_shape _ _ Hbut _ _ Hd) as Hs. pose proof Ho as Hor. rewrite page_size in Hor.
  destruct (grow_ok tbm M S P X p blk d _ recheck _ Hrep Hop Hmx Hp Hbut HR HP Hd (touched_grown blk d off recheck Hs Ho)) as (tbm1 & Hput & Hrest).
  - intros b o Hx. destruct (HX b o Hx) as [-> ->]. split; [done|]. intros ->. split; [done|apply Z.eqb_refl].
  - intros Hr -> o _ Ho'%Z.eqb_eq. replace o with off by lia. by apply HXr.
  - exists (mkPTE blk d), tbm1. split; [done|]. split; [|done]. cbn [pte_data]. replace (if ischunk d then (0, 0) else (TBM_WORDNUM (off - 1), TBM_BITNUM (off - 1))) with (TBM_WORDNUM (if ischunk d then 0 else off - 1), TBM_BITNUM (if ischunk d then 0 else off - 1)) by (by destruct (ischunk d)).
    rewrite set_word_bit_ok, bind_val; [exact Hput|apply Hs|destruct (ischunk d); lia].
Qed.

Lemma add_tuples_ok tids recheck : Forall tid_ok tids -> forall X, matches tids recheck X -> forall tbm M S P currblk page, bitmap_ok tbm M S P -> cached tbm M currblk page -> Z.of_nat (size M) + Z.of_nat (length tids) <= pt_limit ->
  if decide (Forall off_ok tids) then
    exists tbm', add_tuples tids recheck tbm currblk page = Ok tbm' /\ exists M', bitmap_ok tbm' M' (fun b o => S b o \/ X b o) (fun b => P b \/ exists o, mkItemPointer b o ∈ tids) /\ (size M' <= size M + length tids)%nat
  else add_tuples tids recheck tbm currblk page = Err "tuple offset out of range".
Proof.
  intros Htids. induction Htids as [|[blk off] tids [Hb Hnb] _ IH]; intros X HX tbm M S P currblk page Hok Hc Hsz.
  { rewrite decide_True by constructor. cbn [add_tuples]. exists tbm. split; [done|]. exists M. split; [|lia]. eapply bitmap_ok_ext; [| |exact Hok]; [|by left]. intros b o. split; [by left|]. intros [?|Hx]; [done|]. apply HX in Hx. by apply not_elem_of_nil in Hx. }
  cbn [ip_blkid ip_posid add_tuples length] in *. destruct ((off <? 1) || (MAX_TUPLES_PER_PAGE <? off)) eqn:Eoff.
  { rewrite decide_False; [done|]. intros Hall. apply Forall_cons in Hall as [Ho _]. unfold off_ok in Ho. cbn in Ho. apply orb_true_iff in Eoff as [E%Z.ltb_lt|E%Z.ltb_lt]; lia. }
  apply orb_false_iff in Eoff as [E1%Z.ltb_ge E2%Z.ltb_ge]. assert (Ho : 1 <= off <= MAX_TUPLES_PER_PAGE) by lia.
  specialize (IH _ (matches_tail _ _ _ _ HX)). set (X1 := fun b o => X b o /\ b = blk /\ o = off). set (P1 := fun b => P b \/ b = blk).
  (* the state before the rest of the list gives the result *)
  assert (Hrest : forall tbm2 M2 currblk2 page2, bitmap_ok tbm2 M2 (fun b o => S b o \/ X1 b o) P1 -> cached tbm2 M2 currblk2 page2 -> (size M2 <= size M + 1)%nat ->
    if decide (Forall off_ok (mkItemPointer blk off :: tids)) then
      exists tbm', add_tuples tids recheck tbm2 currblk2 page2 = Ok tbm' /\ exists M', bitmap_ok tbm' M' (fun b o => S b o \/ X b o) (fun b => P b \/ exists o, mkItemPointer b o ∈ mkItemPointer blk off :: tids) /\ (size M' <= size M + Datatypes.S (length tids))%nat
    else add_tuples tids recheck tbm2 currblk2 page2 = Err "tuple offset out of range").
  { intros tbm2 M2 cb2 p2 Hok2 Hc2 Hsz2. specialize (IH tbm2 M2 _ _ cb2 p2 Hok2 Hc2 ltac:(lia)). destruct (decide (Forall off_ok tids)) as [Hall|Hall].
    - rewrite decide_True by (by constructor). destruct IH as (tbm' & Hrun & M' & Hok' & Hsz'). exists tbm'. split; [done|]. exists M'. split; [|lia]. eapply bitmap_ok_ext; [| |exact Hok'].
      + intros b o. unfold X1. split; [tauto|]. intros [?|Hx]; [tauto|]. destruct (matches_split _ _ _ _ _ _ _ HX Hx); tauto.
      + intros b [[?| ->]|[o Hin]]; [by left|right; exists off; by left|right; exists o; by right].
    - rewrite decide_False; [done|]. intros Hcons. apply Forall_cons in Hcons as [_ ?]. done. }
  destruct (add_lookup_ok tbm M S P blk currblk page Hok Hc Hb Hnb ltac:(lia)) as (tbm1 & M1 & page1 & -> & Hrep1 & Hk1 & Hsz1 & HR1 & Hpage). rewrite bind_val. cbv beta iota. destruct page1 as [p|].
  - destruct Hpage as [Hp Hbut]. destruct Hok as [_ _ _ Hop Hmx]. destruct Hk1 as (Hm1 & Hi1 & _). destruct (add_tuple_ok tbm1 M1 S P1 X1 p blk off recheck Hrep1 ltac:(congruence) ltac:(congruence) Hp Hbut HR1 ltac:(by right) Ho) as (e & tbm2 & -> & Hset & Hp2 & M2 & Hok2 & Hsz2).
    { by intros b o [_ ?]. }
    { intros Hr. split; [|done]. apply (proj2 HX Hr (mkItemPointer blk off)). by left. }
    rewrite bind_val. destruct (if ischunk (pte_data e) then (0, 0) else (TBM_WORDNUM (off - 1), TBM_BITNUM (off - 1))) as [wordnum bitnum]. destruct (set_word_bit _ _ _) as [words| | |]; try done. rewrite bind_val in *. rewrite Hset, bind_val.
    pose proof (shrink_ok tbm2 M2 _ _ Hok2 ltac:(lia)) as (tbm3 & Hrun & M3 & Hok3 & Hsz3). destruct (Z.ltb_spec (maxentries tbm2) (nentries tbm2)) as [Hlt|Hge].
    + rewrite Hrun, bind_val. apply (Hrest tbm3 M3); [done|by left|lia].
    + apply (Hrest tbm2 M2); [done|by right|lia].
  - destruct Hpage as (-> & -> & Hl). apply (Hrest tbm M); [|by right|lia]. destruct Hok as [H1 H2 H3 H4 H5]. split; [done|done| |done|done].
    destruct HR1 as [R1 R2 R3]. split; [|intros b o Hc'; left; by apply R2|done]. intros b o [HS|(_ & -> & _)]; [by apply R1|by left].
Qed.
End Add.
