(* ===== verification/TidBitmapUnion.v ===== *)
(** Marking whole pages, and the union of bitmaps. *)
From S2P Require Import Prelude ByteMem Loop TidBitmap TidBitmapMap TidBitmapBits TidBitmapTable TidBitmapRep TidBitmapLossify TidBitmapAdd.

Lemma mark_dom (M : tmap) b : dom (mark M b) ⊆ {[header b]} ∪ dom M.
Proof. unfold mark. rewrite dom_insert_L. destruct (b `mod` PAGES_PER_CHUNK =? 0); rewrite ?dom_delete_L; set_solver. Qed.

Lemma dom_size (M : tmap) (D : gset Z) : dom M ⊆ D -> (size M <= size D)%nat.
Proof. intros Hd. rewrite <- size_dom. by apply subseteq_size. Qed.

Lemma dom_size_one (M M' : tmap) k : dom M' ⊆ {[k]} ∪ dom M -> (size M' <= size ({[k]} ∪ dom M : gset Z) <= size M + 1)%nat.
Proof. intros Hd. split; [by apply dom_size|]. rewrite size_union_alt, size_singleton, <- (size_dom M). assert ((size (dom M ∖ {[k]}) <= size (dom M))%nat) by (apply subseteq_size; set_solver). lia. Qed.

Lemma mark_represents (M : tmap) b S X P : is_u 32 b -> map_ok M -> represents M S P -> (forall b' o, X b' o -> b' = b) -> represents (mark M b) (fun b' o => S b' o \/ X b' o) (fun b' => P b' \/ b' = b).
Proof.
  intros Hb Hok [R1 R2 R3] HX. destruct (mark_spec M b Hb (mo_shape _ Hok)) as (_ & S2 & S3). split.
  - intros b' o [HS|HS].
    + destruct (R1 b' o HS) as [Hl|(e & He & Hrest)]; [left; by rewrite S2, Hl|]. destruct (decide (b' = b \/ b' = header b)) as [Hd|Hd].
      * left. rewrite S2. destruct Hd as [->| ->]; [by rewrite Z.eqb_refl, orb_true_r|]. rewrite Z.eqb_refl, He, bool_decide_true by done. by rewrite orb_true_r.
      * right. exists e. rewrite S3, decide_False by done. done.
    + apply HX in HS as ->. left. by rewrite S2, Z.eqb_refl, orb_true_r.
  - intros b' o (e & He & Hrest). rewrite S3 in He. case_decide as Hd; [done|]. left. apply R2. by exists e.
  - intros b'. rewrite S2, S3. intros [[[Hl| ->%Z.eqb_eq]%orb_true_iff|[->%Z.eqb_eq Hs%bool_decide_eq_true]%andb_true_iff]%orb_true_iff|Hs]; [left; apply R3; by left|by right|left; apply R3; by right|]. case_decide as Hd; [by destruct Hs|]. left. apply R3. by right.
Qed.

(** ** The entries one by one *)
(** The entry that stands for the tuples of block [b]. *)
Definition owner (M : tmap) (b : Z) : Z := if lossy M b then header b else b.

Lemma owner_in M S P b o : represents M S P -> S b o -> owner M b ∈ dom M.
Proof.
  intros [R1 _ _] HS. unfold owner. apply elem_of_dom. destruct (lossy M b) eqn:El.
  - unfold lossy in El. by destruct (M !! header b).
  - destruct (R1 b o HS) as [Hl|(e & He & _)]; [congruence|]. unfold exact_page in He. by destruct (M !! b).
Qed.

Lemma lossy_single M k e b : M !! k = Some e -> lossy {[k := e]} b = if decide (header b = k) then lossy M b else false.
Proof. intros Hk. unfold lossy. case_decide as E; [by rewrite E, lookup_singleton_eq, Hk|]. rewrite lookup_singleton_ne by (intros E1; by apply E). done. Qed.
Lemma exact_single M k e b : M !! k = Some e -> exact_page {[k := e]} b = if decide (b = k) then exact_page M b else None.
Proof. intros Hk. unfold exact_page. case_decide as E; [by rewrite E, lookup_singleton_eq, Hk|]. rewrite lookup_singleton_ne by (intros E1; by apply E). done. Qed.

Lemma entry_represents M S P k e : map_ok M -> M !! k = Some e -> represents M S P -> represents {[k := e]} (fun b o => S b o /\ owner M b = k) P.
Proof.
  intros Hok Hk [R1 R2 R3]. split.
  - intros b o [HS Hown]. rewrite (lossy_single M) by done. unfold owner in Hown. destruct (lossy M b) eqn:El; [left; by rewrite decide_True|]. right. destruct (R1 b o HS) as [Hl|(d & Hd & Hrest)]; [congruence|]. exists d. by rewrite (exact_single M), decide_True.
  - intros b o (d & Hd & Hrest). rewrite (exact_single M) in Hd by done. case_decide as E; [|done]. split; [apply R2; by exists d|]. unfold owner. destruct (lossy M b) eqn:El; [|done]. by rewrite (mo_apart _ Hok b El) in Hd.
  - intros b. rewrite (lossy_single M), (exact_single M) by done. intros [Hl|Hs]; apply R3; case_decide; [by left|done|by right|by destruct Hs].
Qed.

Section Union.
Context {T I : Type} {OP : PageTableOps T I} {LAWS : PageTableLaws T I}.
Notation bitmap := (TIDBitmap T).
Implicit Types (tbm a : bitmap) (M : tmap).

(** ** Whole pages *)
Lemma mark_page_ok a M S P b X : bitmap_ok a M S P -> is_u 32 b -> Z.of_nat (size M) <= pt_limit -> (forall b' o, X b' o -> b' = b) ->
  exists a', tbm_mark_page_lossy a b = Ok a' /\ bitmap_ok a' (mark M b) (fun b' o => S b' o \/ X b' o) (fun b' => P b' \/ b' = b).
Proof.
  intros [H1 H2 H3 H4 H5] Hb Hsz HX. destruct (mark_page_lossy_ok a M b H1 Hb (mo_shape _ H2) Hsz) as (a' & -> & Hrep & _ & (Hk1 & Hk2 & _) & _). exists a'. split; [done|]. split; [done|by apply mark_map_ok|by apply mark_represents|congruence|congruence].
Qed.

Lemma add_page_ok a M S P b X : bitmap_ok a M S P -> is_u 32 b -> Z.of_nat (size M) < pt_limit -> (forall b' o, X b' o -> b' = b) ->
  exists a', tbm_add_page a b = Ok a' /\ exists M', bitmap_ok a' M' (fun b' o => S b' o \/ X b' o) (fun b' => P b' \/ b' = b) /\ (size M' <= size M + 1)%nat.
Proof.
  intros Hok Hb Hsz HX. unfold tbm_add_page. destruct (mark_page_ok a M S P b X Hok Hb ltac:(lia) HX) as (a1 & -> & Hok1). rewrite bind_val. pose proof (dom_size_one _ _ _ (mark_dom M b)) as Hle.
  destruct (shrink_ok a1 _ _ _ Hok1 ltac:(lia)) as (a2 & -> & M2 & Hok2 & Hsz2). exists a2. split; [done|]. exists M2. split; [done|lia].
Qed.

(** ** The pages of a chunk *)
Fixpoint mark_list (a : bitmap) (l : list Z) : res bitmap :=
  match l with
  | [] => Ok a
  | b :: l => a ← tbm_mark_page_lossy a b; mark_list a l
  end.

Lemma mark_list_app l k : forall a, mark_list a (l ++ k) = (a ← mark_list a l; mark_list a k).
Proof. induction l as [|x l IH]; intros a; cbn [app mark_list]; [done|]. destruct (tbm_mark_page_lossy a x); [|done..]. rewrite !bind_val. apply IH. Qed.

Lemma union_bits_list n : forall a w pg, 0 <= w < 2 ^ Z.of_nat n -> (forall x, x ∈ set_bits n w pg -> is_u 32 x) -> union_bits n a w (wrapu 32 pg) = mark_list a (set_bits n w pg).
Proof.
  induction n as [|n IH]; intros a w pg Hw Hin.
  - cbn in Hw. assert (w = 0) as -> by lia. done.
  - cbn [union_bits]. destruct (Z.eqb_spec w 0) as [->|Hw0]; [by rewrite set_bits_zero|]. cbn [set_bits] in *. assert (Hw1 : 0 <= Z.shiftr w 1 < 2 ^ Z.of_nat n) by (by apply shiftr1_range).
    assert (Htail : forall a, union_bits n a (Z.shiftr w 1) (wrapu 32 (wrapu 32 pg + 1)) = mark_list a (set_bits n (Z.shiftr w 1) (pg + 1))).
    { intros a'. replace (wrapu 32 (wrapu 32 pg + 1)) with (wrapu 32 (pg + 1)) by (unfold wrapu; by rewrite Zplus_mod_idemp_l). apply IH; [done|]. intros x Hx. apply Hin, elem_of_app. by right. }
    destruct (Z.land w 1 =? 0); cbn [negb app mark_list].
    + rewrite bind_val. apply Htail.
    + rewrite (wrapu_small 32 pg) in * by (apply Hin; by left). destruct (tbm_mark_page_lossy a pg); [|done..]. rewrite !bind_val. apply Htail.
Qed.

Lemma union_words_list n k d : words_ok (page_words d) -> forall a wordnum, 0 <= wordnum -> wordnum + Z.of_nat n <= 5 -> (forall x, x ∈ word_bits n (page_words d) wordnum k -> is_u 32 x) ->
  union_words n a (mkPTE k d) wordnum = mark_list a (word_bits n (page_words d) wordnum k).
Proof.
  intros [Hl Hu]. unfold nwords, lenZ in Hl. induction n as [|n IH]; intros a wordnum H0 H5 Hin; [done|]. cbn [union_words word_bits] in *. cbn [pte_data pte_blockno]. rewrite aget_nthZ, bind_val by lia. rewrite mark_list_app.
  assert (Hw : is_u 64 (nthZ (page_words d) wordnum)) by (apply Forall_nthZ; [by split|done]).
  assert (Hstep : (if negb (nthZ (page_words d) wordnum =? 0) then union_bits 64 a (nthZ (page_words d) wordnum) (wrapu 32 (k + wordnum * BITS_PER_WORD)) else Ok a) = mark_list a (set_bits 64 (nthZ (page_words d) wordnum) (wordnum * BITS_PER_WORD + k))).
  { destruct (Z.eqb_spec (nthZ (page_words d) wordnum) 0) as [->|_]; cbn [negb]; [by rewrite set_bits_zero|]. rewrite (Z.add_comm k). apply union_bits_list; [exact Hw|]. intros x Hx. apply Hin, elem_of_app. by left. }
  rewrite Hstep. destruct (mark_list a _); [|done..]. rewrite !bind_val. apply IH; [lia|lia|]. intros x Hx. apply Hin, elem_of_app. by right.
Qed.

Lemma mark_list_ok (D : gset Z) l : Z.of_nat (size D) <= pt_limit -> Forall (fun x => is_u 32 x /\ header x ∈ D) l -> forall a M S P X, bitmap_ok a M S P -> dom M ⊆ D -> (forall b o, X b o -> b ∈ l) ->
  exists a' M', mark_list a l = Ok a' /\ bitmap_ok a' M' (fun b o => S b o \/ X b o) (fun b => P b \/ b ∈ l) /\ dom M' ⊆ D.
Proof.
  intros HD Hl. induction Hl as [|x l [Hx Hhx] _ IH]; intros a M S P X Hok Hdom HX; cbn [mark_list].
  - exists a, M. split; [done|]. split; [|done]. eapply bitmap_ok_ext; [| |exact Hok]; [|by left]. intros b o. split; [by left|]. intros [?|Hb]; [done|]. by apply HX, not_elem_of_nil in Hb.
  - pose proof (dom_size _ _ Hdom) as Hsz. destruct (mark_page_ok a M S P x (fun b o => X b o /\ b = x) Hok Hx ltac:(lia)) as (a1 & -> & Hok1); [by intros ? ? [_ ?]|]. rewrite bind_val.
    destruct (IH a1 _ _ _ (fun b o => X b o /\ b ∈ l) Hok1) as (a' & M' & Hrun & Hok' & Hdom'); [pose proof (mark_dom M x); set_solver|by intros ? ? [_ ?]|]. exists a', M'. split; [done|]. split; [|done].
    eapply bitmap_ok_ext; [| |exact Hok'].
    + intros b o. split; [tauto|]. intros [?|Hb]; [tauto|]. pose proof (HX b o Hb) as Hin. apply elem_of_cons in Hin as [->|Hin]; tauto.
    + intros b [[?| ->]|?]; [by left|right; by left|right; by right].
Qed.

(** ** An entry of the other bitmap *)
Lemma union_chunk_ok a M S P k e X Q : bitmap_ok a M S P -> shape_ok k e -> ischunk e = true -> represents {[k := e]} X Q -> Z.of_nat (size M) < pt_limit ->
  exists a' M', union_words (Z.to_nat WORDS_PER_CHUNK) a (mkPTE k e) 0 = Ok a' /\ bitmap_ok a' M' (fun b o => S b o \/ X b o) (fun b => P b \/ Q b) /\ (size M' <= size M + 1)%nat.
Proof.
  intros Hok Hs Hch [R1 _ R3] Hsz. pose proof (so_key _ _ Hs) as Hk. pose proof (so_chunk _ _ Hs Hch) as Hk0. rewrite chunk_size in Hk0. set (l := word_bits 4 (page_words e) 0 k).
  assert (Hl : forall x, x ∈ l <-> lossy {[k := e]} x = true).
  { intros x. unfold l. rewrite elem_of_word_bits. unfold lossy, header. rewrite chunk_size. destruct (decide (x - x `mod` 256 = k)) as [E|E].
    - rewrite E, lookup_singleton_eq, Hch. cbn [andb]. replace (x `mod` 256) with (x - k) by lia. pose proof (Z.mod_pos_bound x 256 ltac:(lia)). split; [by intros [_ ?]|]. intros ?. split; [lia|done].
    - rewrite lookup_singleton_ne by done. split; [|done]. intros [Hr _]. exfalso. apply E. enough (x `mod` 256 = x - k) by lia. symmetry. apply (Z.mod_unique _ 256 (k / 256)); [lia|]. pose proof (Z.div_mod k 256 ltac:(lia)). lia. }
  assert (Hlk : forall x, x ∈ l -> is_u 32 x /\ header x = k).
  { intros x Hx. pose proof Hx as Hr. unfold l in Hr. apply elem_of_word_bits in Hr as [Hr _]. apply Hl in Hx. unfold lossy in Hx. destruct (decide (header x = k)) as [E|E]; [|by rewrite lookup_singleton_ne in Hx]. split; [|done]. unfold is_u in *. pose proof (Z.div_mod k 256 ltac:(lia)). lia. }
  destruct (mark_list_ok ({[k]} ∪ dom M) l) with (a := a) (M := M) (S := S) (P := P) (X := X) as (a' & M' & Hrun & Hok' & Hdom').
  - pose proof (dom_size_one M M k ltac:(apply union_subseteq_r)). lia.
  - apply Forall_forall. intros x Hx. destruct (Hlk x Hx) as [? ->]. split; [done|]. by apply elem_of_union_l, elem_of_singleton.
  - done.
  - apply union_subseteq_r.
  - intros b o Hx. apply Hl. destruct (R1 b o Hx) as [?|(d & Hd & _)]; [done|]. unfold exact_page in Hd. destruct (decide (b = k)) as [->|E]; [by rewrite lookup_singleton_eq, Hch in Hd|rewrite lookup_singleton_ne in Hd by (intros E1; by apply E); done].
  - exists a', M'. split; [|split].
    + change (Z.to_nat WORDS_PER_CHUNK) with 4%nat. rewrite union_words_list; [exact Hrun|apply Hs|lia|lia|]. intros x Hx. by apply Hlk.
    + eapply bitmap_ok_ext; [| |exact Hok']; [done|]. intros b [?|Hb]; [by left|]. right. apply R3. left. by apply Hl.
    + pose proof (dom_size_one _ _ _ Hdom'). lia.
Qed.

(** What the entry of an exact page stands for. *)
Lemma single_page k e X Q : ischunk e = false -> represents {[k := e]} X Q -> Q k /\ (forall b o, X b o -> b = k /\ 1 <= o <= MAX_TUPLES_PER_PAGE /\ wbit (page_words e) (o - 1) = true) /\
  (page_recheck e = false -> forall o, 1 <= o <= MAX_TUPLES_PER_PAGE -> wbit (page_words e) (o - 1) = true -> X k o).
Proof.
  intros Hch [R1 R2 R3]. assert (Hex : exact_page {[k := e]} k = Some e) by (unfold exact_page; by rewrite lookup_singleton_eq, Hch). split; [apply R3; right; by exists e|]. split.
  - intros b o Hx. destruct (R1 b o Hx) as [Hl|(d & Hd & Hr & Hb)].
    + exfalso. unfold lossy in Hl. destruct (decide (header b = k)) as [<-|E]; [by rewrite lookup_singleton_eq, Hch in Hl|rewrite lookup_singleton_ne in Hl by (intros E1; by apply E); done].
    + unfold exact_page in Hd. destruct (decide (b = k)) as [->|E]; [|rewrite lookup_singleton_ne in Hd by (intros E1; by apply E); done]. rewrite lookup_singleton_eq, Hch in Hd. injection Hd as <-. done.
  - intros Hc o Ho Hb. apply R2. by exists e.
Qed.

Lemma merged_grown k d e : shape_ok k d -> shape_ok k e -> page_nonempty e -> ischunk d = false -> ischunk e = false ->
  grown d (mkPage false (page_recheck d || page_recheck e) (zip_with Z.lor (page_words d) (page_words e))) (page_recheck e) (wbit (page_words e)).
Proof.
  intros Hd He (i & Hi & Hbi) Hcd Hce. destruct (or_words_ok (page_words d) (page_words e) (so_words _ _ Hd) (so_words _ _ He)) as (_ & Hw & Hbits). unfold limit_of in Hi. rewrite Hce, page_size in Hi. split; [done|done|done|done| | |].
  - intros j Hj Hb. pose proof (so_bits _ _ He j Hj Hb) as Hlim. unfold limit_of in *. by rewrite Hcd, Hce in *.
  - exists i. split; [lia|done].
  - by rewrite Hcd.
Qed.

Lemma first_grown k d : shape_ok k d -> ischunk d = true -> grown d (mkPage true (page_recheck d) (set_wbit (page_words d) 0)) false (fun i => i =? 0).
Proof.
  intros Hd Hc. pose proof (set_wbit_spec (page_words d) 0 0 (so_words _ _ Hd) ltac:(lia) ltac:(lia)) as [Hw _]. split; [done|by rewrite orb_false_r|done| | | |done].
  - intros i Hi. rewrite (Z.eqb_sym i). by apply set_wbit_spec; [apply Hd|..].
  - intros i _ ->%Z.eqb_eq. unfold limit_of. rewrite Hc, chunk_size. lia.
  - exists 0. split; [lia|done].
Qed.

Lemma union_page_ok a M S P k e X Q : bitmap_ok a M S P -> shape_ok k e -> page_nonempty e -> represents {[k := e]} X Q -> Z.of_nat (size M) < pt_limit ->
  exists a', tbm_union_page a (mkPTE k e) = Ok a' /\ exists M', bitmap_ok a' M' (fun b o => S b o \/ X b o) (fun b => P b \/ Q b) /\ (size M' <= size M + 1)%nat.
Proof.
  intros Hok Hs Hne HR Hsz. unfold tbm_union_page. cbn [pte_data pte_blockno].
  assert (Hfit : forall a1 M1, bitmap_ok a1 M1 (fun b o => S b o \/ X b o) (fun b => P b \/ Q b) -> (size M1 <= size M + 1)%nat ->
    exists a', (if maxentries a1 <? nentries a1 then tbm_lossify a1 else Ok a1) = Ok a' /\ exists M', bitmap_ok a' M' (fun b o => S b o \/ X b o) (fun b => P b \/ Q b) /\ (size M' <= size M + 1)%nat).
  { intros a1 M1 Hok1 Hsz1. destruct (shrink_ok a1 _ _ _ Hok1 ltac:(lia)) as (a2 & -> & M2 & Hok2 & Hsz2). exists a2. split; [done|]. exists M2. split; [done|lia]. }
  destruct (ischunk e) eqn:Ech.
  { destruct (union_chunk_ok a M S P k e X Q Hok Hs Ech HR Hsz) as (a1 & M1 & -> & Hok1 & Hsz1). rewrite !bind_val. by eapply Hfit. }
  destruct (single_page k e X Q Ech HR) as (HQ & HX & HXr). rewrite (page_is_lossy_ok a M k (bo_rep _ _ _ _ Hok) (mo_shape _ (bo_map _ _ _ _ Hok))), bind_val. destruct (lossy M k) eqn:El.
  { rewrite bind_val. exists a. split; [done|]. exists M. split; [|lia]. destruct Hok as [H1 H2 [R1 R2 R3] H4 H5]. split; [done|done| |done|done]. split; [|intros b o Hc; left; by apply R2|intros b Hb; left; by apply R3]. intros b o [HS|Hx]; [by apply R1|]. destruct (HX b o Hx) as [-> _]. by left. }
  destruct (page_lookup_ok a M S P k Hok (so_key _ _ Hs) El ltac:(lia)) as (a1 & M1 & p & -> & Hrep1 & (Hk1 & Hk2 & _) & Hsz1 & HR1 & Hp & Hbut). rewrite bind_val. cbv beta iota. destruct Hok as [_ _ _ Hop Hmx].
  destruct (page_get_ok a1 M1 p k Hrep1 Hp) as (d & -> & Hd). rewrite bind_val. cbn [pte_data]. pose proof (mb_shape _ _ Hbut _ _ Hd) as Hsd. assert (HR1' : represents M1 S (fun b => P b \/ Q b)) by (eapply represents_ext; [| |exact HR1]; [done|]; intros b [?| ->]; [by left|by right]).
  destruct (ischunk d) eqn:Ecd.
  - change (set_word_bit (page_words d) 0 0) with (set_word_bit (page_words d) (TBM_WORDNUM 0) (TBM_BITNUM 0)). rewrite (set_word_bit_ok (page_words d) 0 (so_words _ _ Hsd) ltac:(lia)), bind_val. destruct (grow_ok a1 M1 S (fun b => P b \/ Q b) X p k d _ _ _ Hrep1 ltac:(congruence) ltac:(congruence) Hp Hbut HR1' ltac:(by right) Hd (first_grown k d Hsd Ecd)) as (a2 & -> & _ & M2 & Hok2 & Hsz2).
    + intros b o Hx. split; [by apply (HX b o)|]. by rewrite Ecd.
    + by rewrite Ecd.
    + rewrite !bind_val. eapply Hfit; [done|lia].
  - destruct (or_words_ok (page_words d) (page_words e) (so_words _ _ Hsd) (so_words _ _ Hs)) as (-> & _ & _). rewrite bind_val. destruct (grow_ok a1 M1 S (fun b => P b \/ Q b) X p k d _ _ _ Hrep1 ltac:(congruence) ltac:(congruence) Hp Hbut HR1' ltac:(by right) Hd (merged_grown k d e Hsd Hs Hne Ecd Ech)) as (a2 & -> & _ & M2 & Hok2 & Hsz2).
    + intros b o Hx. destruct (HX b o Hx) as (-> & Hrest). done.
    + intros Hr _. by apply HXr.
    + rewrite !bind_val. eapply Hfit; [done|lia].
Qed.
(** ** The whole of the other bitmap *)
Section Other.
Context (Ma Mb : tmap) (Sa Sb : Z -> Z -> Prop) (Pa Pb : Z -> Prop) (bt : T).
Hypothesis Hbt : pt_ok bt.
Hypothesis Hmb : pt_map bt = Mb.
Hypothesis Hokb : map_ok Mb.
Hypothesis Hrb : represents Mb Sb Pb.
Hypothesis Hroom : Z.of_nat (size Ma) + Z.of_nat (size Mb) <= pt_limit.

Definition union_inv (n : Z) (s : bitmap * I) : Prop := exists M (R : gset Z), n = Z.of_nat (size R) /\ pt_iter bt s.2 R /\ R ⊆ dom Mb /\
  bitmap_ok s.1 M (fun b o => Sa b o \/ (Sb b o /\ owner Mb b ∉ R)) (fun b => Pa b \/ Pb b) /\ (size M + size R <= size Ma + size Mb)%nat.
Definition united (a : bitmap) : Prop := exists M, bitmap_ok a M (fun b o => Sa b o \/ Sb b o) (fun b => Pa b \/ Pb b) /\ (size M <= size Ma + size Mb)%nat.

Lemma union_step_ok n s : union_inv n s -> exists r, union_step bt s = Ok r /\ match r with inl s' => exists m, union_inv m s' /\ m < n | inr a => united a end.
Proof.
  destruct s as [a it]. intros (M & R & -> & Hit & HR & Hok & Hsz). cbn [fst snd] in *. unfold union_step. destruct (law_iterate bt it R Hbt Hit) as (it1 & r & -> & Hr). rewrite bind_val. cbv beta iota. destruct r as [p|].
  - destruct Hr as (k & Hp & HkR & Hit1). destruct (law_get bt p k Hbt Hp) as (e & -> & He). rewrite bind_val. rewrite Hmb in He. assert (Hpos : (size R = 1 + size (R ∖ {[k]}))%nat).
    { rewrite (union_difference_L {[k]} R) at 1 by (by apply singleton_subseteq_l). rewrite size_union by (apply disjoint_singleton_l; intros [_ ?]%elem_of_difference; by apply H, elem_of_singleton). by rewrite size_singleton. }
    destruct (union_page_ok a M _ _ k e _ _ Hok (mo_shape _ Hokb _ _ He) (mo_nonempty _ Hokb _ _ He) (entry_represents Mb Sb Pb k e Hokb He Hrb) ltac:(lia)) as (a1 & -> & M1 & Hok1 & Hsz1). rewrite bind_val. eexists. split; [done|].
    exists (Z.of_nat (size (R ∖ {[k]}))). split; [|lia]. exists M1, (R ∖ {[k]}). cbn [fst snd]. split; [done|]. split; [done|]. split; [intros x [? _]%elem_of_difference; by apply HR|]. split; [|lia].
    eapply bitmap_ok_ext; [| |exact Hok1]; [|by intros b [?|?]; [|right]]. intros b o. cbn beta. rewrite elem_of_difference, elem_of_singleton. destruct (decide (owner Mb b = k)), (decide (owner Mb b ∈ R)); tauto.
  - eexists. split; [done|]. exists M. split; [|lia]. eapply bitmap_ok_ext; [| |exact Hok]; [|done]. intros b o. rewrite Hr. pose proof (not_elem_of_empty (C := gset Z) (owner Mb b)). tauto.
Qed.

Lemma union_scan_ok a : bitmap_ok a Ma Sa Pa -> exists a', run_loop scan_fuel (union_step bt) (a, pagetable_start_iterate bt) = Ok a' /\ united a'.
Proof.
  intros Hok. pose proof law_limit as Hll. apply (run_loop_count (union_step bt) union_inv united scan_fuel (Z.of_nat (size Mb))).
  - intros m s. apply union_step_ok.
  - intros m s (_ & R & -> & _). lia.
  - exists Ma, (dom Mb). cbn [fst snd]. split; [by rewrite size_dom|]. split; [rewrite <- Hmb; by apply law_start|]. split; [done|]. split; [|rewrite size_dom; lia].
    eapply bitmap_ok_ext; [| |exact Hok]; [|by left]. intros b o. split; [by left|]. intros [?|[HS Hno]]; [done|]. exfalso. apply Hno. by eapply owner_in.
  - change (Zpos scan_fuel) with (2 ^ 33). lia.
Qed.
End Other.

Lemma tbm_union_ok a b Ma Mb Sa Sb Pa Pb : bitmap_ok a Ma Sa Pa -> rep b Mb -> map_ok Mb -> represents Mb Sb Pb -> Z.of_nat (size Ma) + Z.of_nat (size Mb) <= pt_limit ->
  exists a', tbm_union a b = Ok a' /\ united Ma Mb Sa Sb Pa Pb a'.
Proof.
  intros Hok Hrepb Hokb Hrb Hroom. unfold tbm_union. rewrite (rp_entries _ _ Hrepb). destruct (Z.eqb_spec (Z.of_nat (size Mb)) 0) as [E|E].
  - exists a. split; [done|]. exists Ma. split; [|lia]. assert (Mb = ∅) as -> by (apply map_size_empty_inv; lia). eapply bitmap_ok_ext; [| |exact Hok]; [|by left]. intros x o. split; [by left|]. intros [?|HS]; [done|]. apply (owner_in _ _ _ _ _ Hrb) in HS. rewrite dom_empty_L in HS. by apply not_elem_of_empty in HS.
  - pose proof (rp_table _ _ Hrepb) as Ht. destruct (tbm_status b) eqn:Es.
    + destruct Ht as [_ ->]. by rewrite map_size_empty in E.
    + destruct Ht as (_ & -> & _). destruct (entry1 b) as [k e]. cbn [pte_blockno pte_data] in *. rewrite map_size_singleton in Hroom. destruct (union_page_ok a Ma Sa Pa k e Sb Pb Hok) as (a' & -> & Hrest); [apply (mo_shape _ Hokb), lookup_singleton_eq|apply (mo_nonempty _ Hokb k), lookup_singleton_eq|done|lia|].
      exists a'. split; [done|]. unfold united. by rewrite map_size_singleton.
    + destruct (rep_hash _ _ Hrepb Es) as (t & _ & -> & Htok & Hm). rewrite bind_val. by apply union_scan_ok.
Qed.
End Union.
