(* ===== verification/TidBitmapIntersect.v ===== *)
(** The intersection of bitmaps. *)
From S2P Require Import Prelude ByteMem Loop TidBitmap TidBitmapMap TidBitmapBits TidBitmapTable TidBitmapRep TidBitmapLossify TidBitmapAdd TidBitmapUnion.

(** ** On maps *)
Definition present (M : tmap) (b : Z) : bool := lossy M b || bool_decide (is_Some (exact_page M b)).

(** Whether bit [i] of the entry [e] of block [k] is left by the intersection with [Mb]. *)
Definition survives (Mb : tmap) (k : Z) (e : PageData) (i : Z) : bool :=
  if ischunk e then present Mb (k + i)
  else lossy Mb k || match exact_page Mb k with Some e' => wbit (page_words e') i | None => false end.

(** The entry [e] of block [k] becomes [d], or is deleted when [del]. *)
Record meets (Mb : tmap) (k : Z) (e d : PageData) (del : bool) : Prop := {
  me_chunk : ischunk d = ischunk e;
  me_shape : shape_ok k d;
  me_delete : del = true -> forall i, 0 <= i < limit_of e -> wbit (page_words e) i && survives Mb k e i = false;
  me_keep : del = false -> page_nonempty d /\ forall i, 0 <= i < limit_of e -> wbit (page_words d) i = wbit (page_words e) i && survives Mb k e i;
  me_recheck : del = false -> ischunk e = false -> page_recheck d = page_recheck e || lossy Mb k || match exact_page Mb k with Some e' => page_recheck e' | None => false end }.

(** All entries of [Ma] have been met with [Mb]. *)
Definition met (Ma Mb M : tmap) (k : Z) : Prop :=
  match Ma !! k with
  | None => M !! k = None
  | Some e => exists d del, meets Mb k e d del /\ M !! k = if (del : bool) then None else Some d
  end.

Lemma limit_range e : limit_of e <= 320.
Proof. unfold limit_of. rewrite page_size, chunk_size. destruct (ischunk e); lia. Qed.

Section Met.
Context (Ma Mb M : tmap).
Hypothesis Hoka : map_ok Ma.
Hypothesis Hmet : forall k, met Ma Mb M k.

Lemma met_lossy x : lossy M x = lossy Ma x && present Mb x.
Proof.
  unfold lossy at 1 2. pose proof (Hmet (header x)) as Hm. unfold met in Hm. destruct (Ma !! header x) as [e|] eqn:Ex; [|by rewrite Hm]. destruct Hm as (d & del & Hme & ->). destruct (ischunk e) eqn:Ech; cbn [andb].
  - pose proof (Z.mod_pos_bound x 256 ltac:(lia)) as Hr. rewrite <- chunk_size in Hr. assert (Hlim : limit_of e = PAGES_PER_CHUNK) by (unfold limit_of; by rewrite Ech). assert (Hsv : survives Mb (header x) e (x `mod` PAGES_PER_CHUNK) = present Mb x) by (unfold survives; rewrite Ech; f_equal; unfold header; lia).
    destruct del.
    + pose proof (me_delete _ _ _ _ _ Hme eq_refl (x `mod` PAGES_PER_CHUNK)) as H. rewrite Hlim, Hsv in H. by rewrite H.
    + destruct (me_keep _ _ _ _ _ Hme eq_refl) as [_ H]. rewrite (me_chunk _ _ _ _ _ Hme), Ech. cbn [andb]. rewrite <- Hsv. apply H. by rewrite Hlim.
  - destruct del; [done|]. by rewrite (me_chunk _ _ _ _ _ Hme), Ech.
Qed.

Lemma met_exact x d : exact_page M x = Some d -> exists e, exact_page Ma x = Some e /\ ischunk e = false /\ meets Mb x e d false.
Proof.
  unfold exact_page. pose proof (Hmet x) as Hm. unfold met in Hm. destruct (Ma !! x) as [e|]; [|by rewrite Hm]. destruct Hm as (d' & [|] & Hme & ->); [done|]. rewrite (me_chunk _ _ _ _ _ Hme). destruct (ischunk e) eqn:Ech; [done|]. intros [= ->]. by exists e.
Qed.

Lemma met_ok : map_ok M.
Proof.
  assert (Hget : forall k d, M !! k = Some d -> exists e, meets Mb k e d false).
  { intros k d Hk. pose proof (Hmet k) as Hm. unfold met in Hm. destruct (Ma !! k) as [e|]; [|congruence]. destruct Hm as (d' & [|] & Hme & E); [congruence|]. rewrite Hk in E. injection E as <-. by exists e. }
  split.
  - intros k d Hk. destruct (Hget k d Hk) as [e Hme]. apply Hme.
  - intros k d Hk. destruct (Hget k d Hk) as [e Hme]. by apply (me_keep _ _ _ _ _ Hme).
  - intros x. rewrite met_lossy. intros [Hl _]%andb_true_iff. destruct (exact_page M x) as [d|] eqn:Ed; [|done]. destruct (met_exact x d Ed) as (e & He & _). by rewrite (mo_apart _ Hoka x Hl) in He.
Qed.

Lemma met_represents Sa Pa Sb Pb : represents Ma Sa Pa -> represents Mb Sb Pb -> represents M (fun b o => Sa b o /\ Sb b o) (fun b => Pa b /\ Pb b).
Proof.
  intros [A1 A2 A3] [B1 B2 B3]. split.
  - intros b o [HSa HSb]. pose proof (B1 b o HSb) as HB. assert (Hpres : present Mb b = true).
    { unfold present. destruct HB as [->|(e & He & _)]; [done|]. rewrite He, bool_decide_true by done. by rewrite orb_true_r. }
    rewrite met_lossy, Hpres, andb_true_r. destruct (A1 b o HSa) as [?|(e & He & Hr & Hb)]; [by left|]. right. unfold exact_page in He. pose proof (Hmet b) as Hm. unfold met in Hm. destruct (Ma !! b) as [e'|] eqn:Eb; [|done]. destruct (ischunk e') eqn:Ech; [done|]. injection He as ->. destruct Hm as (d & del & Hme & HM).
    assert (Hlim : limit_of e = MAX_TUPLES_PER_PAGE) by (unfold limit_of; by rewrite Ech). assert (Hsv : survives Mb b e (o - 1) = true).
    { unfold survives. rewrite Ech. destruct HB as [->|(e2 & -> & _ & Hb2)]; [done|]. rewrite Hb2. apply orb_true_r. }
    destruct del.
    + pose proof (me_delete _ _ _ _ _ Hme eq_refl (o - 1) ltac:(lia)) as H. by rewrite Hb, Hsv in H.
    + exists d. unfold exact_page. rewrite HM, (me_chunk _ _ _ _ _ Hme), Ech. split; [done|]. split; [done|]. destruct (me_keep _ _ _ _ _ Hme eq_refl) as [_ H]. rewrite H by lia. by rewrite Hb, Hsv.
  - intros b o (d & Hd & Hr & Hb & Hc). destruct (met_exact b d Hd) as (e & He & Ech & Hme). assert (Hlim : limit_of e = MAX_TUPLES_PER_PAGE) by (unfold limit_of; by rewrite Ech). destruct (me_keep _ _ _ _ _ Hme eq_refl) as [_ H]. rewrite H in Hb by lia. apply andb_true_iff in Hb as [Hb1 Hb2].
    rewrite (me_recheck _ _ _ _ _ Hme eq_refl Ech) in Hc. apply orb_false_iff in Hc as [[Hc1 Hc2]%orb_false_iff Hc3]. split; [apply A2; by exists e|]. apply B2. unfold survives in Hb2. rewrite Ech, Hc2 in Hb2. cbn [orb] in Hb2. destruct (exact_page Mb b) as [e2|] eqn:E2; [|done]. by exists e2.
  - intros b [Hl|[d Hd]].
    + rewrite met_lossy in Hl. apply andb_true_iff in Hl as [Hl Hp]. split; [apply A3; by left|]. apply B3. unfold present in Hp. apply orb_true_iff in Hp as [?|Hp%bool_decide_eq_true]; [by left|by right].
    + destruct (met_exact b d Hd) as (e & He & Ech & Hme). split; [apply A3; right; by exists e|]. apply B3. destruct (me_keep _ _ _ _ _ Hme eq_refl) as [(i & Hi & Hbi) H]. unfold limit_of in Hi. rewrite (me_chunk _ _ _ _ _ Hme) in Hi. rewrite H in Hbi by done. apply andb_true_iff in Hbi as [_ Hb2]. unfold survives in Hb2. rewrite Ech in Hb2. apply orb_true_iff in Hb2 as [?|Hb2]; [by left|]. right. by destruct (exact_page Mb b).
Qed.
End Met.

(** ** The loops over a chunk *)
Lemma clear_bit x j i : is_u 64 x -> 0 <= j < 64 -> 0 <= i < 64 -> is_u 64 (Z.land x (notu 64 (wrapu 64 (Z.shiftl 1 j)))) /\ Z.testbit (Z.land x (notu 64 (wrapu 64 (Z.shiftl 1 j)))) i = Z.testbit x i && negb (i =? j).
Proof.
  intros Hx Hj Hi. rewrite shift1 by done. assert (Hp : is_u 64 (2 ^ j)) by (split; [by apply Z.pow_nonneg|apply Z.pow_lt_mono_r; lia]). split.
  - apply is_u_land_l; [lia|done|]. by apply (notu_is_u 64 (2 ^ j)).
  - rewrite Z.land_spec, notu_testbit, bool_decide_true, Z.pow2_bits_eqb by (done || lia). cbn [andb]. by rewrite (Z.eqb_sym j).
Qed.

Section Intersect.
Context {T I : Type} {OP : PageTableOps T I} {LAWS : PageTableLaws T I}.
Notation bitmap := (TIDBitmap T).
Implicit Types (a : bitmap).
Context (b : bitmap) (Mb : tmap).
Hypothesis Hrepb : rep b Mb.
Hypothesis Hokb : map_ok Mb.

Lemma intersect_bits_ok n : forall w neww pg bitnum, 0 <= w < 2 ^ Z.of_nat n -> is_u 64 neww -> 0 <= bitnum -> bitnum + Z.of_nat n <= 64 -> (forall x, x ∈ set_bits n w pg -> is_u 32 x) ->
  exists r, intersect_bits n b w neww (wrapu 32 pg) bitnum = Ok r /\ is_u 64 r /\ forall j, 0 <= j < 64 -> Z.testbit r j = Z.testbit neww j && negb (Z.testbit w (j - bitnum) && negb (present Mb (pg + (j - bitnum)))).
Proof.
  induction n as [|n IH]; intros w neww pg bitnum Hw Hnw Hb0 Hbn Hin.
  - cbn in Hw. assert (w = 0) as -> by lia. exists neww. split; [done|]. split; [done|]. intros j Hj. rewrite Z.bits_0. cbn [andb negb]. by rewrite andb_true_r.
  - cbn [intersect_bits]. destruct (Z.eqb_spec w 0) as [->|Hw0]; [exists neww; split; [done|]; split; [done|]; intros j Hj; rewrite Z.bits_0; cbn [andb negb]; by rewrite andb_true_r|].
    cbn [set_bits] in *. pose proof (shiftr1_range n w Hw) as Hw1. rewrite land_one in *. rewrite negb_involutive.
    assert (Hstep : exists neww1, (if Z.testbit w 0 then lossy ← tbm_page_is_lossy b (wrapu 32 pg); if (lossy : bool) then Ok neww else e ← tbm_find_pageentry b (wrapu 32 pg); match e with None => Ok (Z.land neww (notu 64 (wrapu 64 (Z.shiftl 1 bitnum)))) | Some _ => Ok neww end else Ok neww) = Ok neww1 /\ is_u 64 neww1 /\
      forall j, 0 <= j < 64 -> Z.testbit neww1 j = Z.testbit neww j && negb ((j =? bitnum) && Z.testbit w 0 && negb (present Mb pg))).
    { destruct (Z.testbit w 0) eqn:E0; cbn [negb app] in *; [|exists neww; split; [done|]; split; [done|]; intros j Hj; by rewrite !andb_false_r, andb_true_r]. rewrite (wrapu_small 32 pg) by (apply Hin; by left).
      rewrite (page_is_lossy_ok b Mb pg Hrepb (mo_shape _ Hokb)), bind_val. unfold present. destruct (lossy Mb pg); [exists neww; split; [done|]; split; [done|]; intros j Hj; cbn [orb negb]; by rewrite !andb_false_r, andb_true_r|].
      rewrite (find_pageentry_ok b Mb pg Hrepb), bind_val. destruct (exact_page Mb pg) as [e|]; cbn [fmap option_fmap option_map].
      - exists neww. split; [done|]. split; [done|]. intros j Hj. rewrite bool_decide_true by done. cbn [orb negb]. by rewrite !andb_false_r, andb_true_r.
      - eexists. split; [done|]. split; [apply (clear_bit neww bitnum 0); [done|lia|lia]|]. intros j Hj. rewrite bool_decide_false by (by intros [? ?]). cbn [orb negb]. rewrite !andb_true_r. apply clear_bit; [done|lia|done]. }
    destruct Hstep as (neww1 & -> & Hn1 & Hbits1). rewrite bind_val. replace (wrapu 32 (wrapu 32 pg + 1)) with (wrapu 32 (pg + 1)) by (unfold wrapu; by rewrite Zplus_mod_idemp_l).
    destruct (IH (Z.shiftr w 1) neww1 (pg + 1) (bitnum + 1) Hw1 Hn1 ltac:(lia) ltac:(lia)) as (r & -> & Hr & Hbits); [intros x Hx; apply Hin, elem_of_app; by right|]. exists r. split; [done|]. split; [done|]. intros j Hj. rewrite Hbits, Hbits1 by done. rewrite <- andb_assoc. f_equal.
    destruct (Z.eqb_spec j bitnum) as [->|Hne].
    + rewrite Z.sub_diag, Z.add_0_r. rewrite (Z.testbit_neg_r _ (bitnum - (bitnum + 1))) by lia. cbn [andb negb]. by rewrite andb_true_r.
    + cbn [andb negb]. destruct (decide (j < bitnum)) as [Hlt|Hge]; [by rewrite !Z.testbit_neg_r by lia|]. rewrite Z.shiftr_spec by lia. by replace (j - (bitnum + 1) + 1) with (j - bitnum) by lia; replace (pg + 1 + (j - (bitnum + 1))) with (pg + (j - bitnum)) by lia.
Qed.
Lemma wbit_update ws wordnum w i : words_ok ws -> 0 <= wordnum < 5 -> is_u 64 w -> 0 <= i < 320 -> words_ok (<[Z.to_nat wordnum := w]> ws) /\ wbit (<[Z.to_nat wordnum := w]> ws) i = if decide (i / 64 = wordnum) then Z.testbit w (i `mod` 64) else wbit ws i.
Proof.
  intros [Hl Hu] Hn Hw Hi. unfold nwords, lenZ in Hl. split; [split; [unfold lenZ; by rewrite length_insert|by apply Forall_insert]|]. pose proof (wbit_range i Hi) as [Hr _]. unfold wbit. rewrite nthZ_insert by lia. repeat case_decide; (done || congruence).
Qed.

(** The words from [wordnum] on are done. *)
Definition chunk_met (k : Z) (ws ws' : list Z) (lo hi : Z) : Prop :=
  words_ok ws' /\ forall i, 0 <= i < 320 -> wbit ws' i = wbit ws i && (negb (bool_decide (lo <= i < hi)) || present Mb (k + i)).

Lemma intersect_chunk_ok k n : forall ws cd wordnum, words_ok ws -> 0 <= wordnum -> wordnum + Z.of_nat n <= 5 -> (forall i, wordnum * 64 <= i < (wordnum + Z.of_nat n) * 64 -> wbit ws i = true -> is_u 32 (k + i)) ->
  exists ws' cd', intersect_chunk n b k ws cd wordnum = Ok (ws', cd') /\ chunk_met k ws ws' (wordnum * 64) ((wordnum + Z.of_nat n) * 64) /\
    (cd' = true <-> cd = true /\ forall i, wordnum * 64 <= i < (wordnum + Z.of_nat n) * 64 -> wbit ws' i = false).
Proof.
  induction n as [|n IH]; intros ws cd wordnum Hws H0 H5 Hin; cbn [intersect_chunk].
  { exists ws, cd. split; [done|]. split; [|split; [intros ->; split; [done|lia]|by intros [-> _]]]. split; [done|]. intros i Hi. rewrite bool_decide_false by lia. by rewrite andb_true_r. }
  pose proof Hws as [Hl Hu]. unfold nwords, lenZ in Hl. rewrite aget_nthZ, bind_val by lia. set (w := nthZ ws wordnum). assert (Hw : is_u 64 w) by (apply Forall_nthZ; [by split|done]).
  assert (Hpos : forall i, wordnum * 64 <= i < wordnum * 64 + 64 -> i / 64 = wordnum /\ i `mod` 64 = i - wordnum * 64).
  { intros i Hi. split; [symmetry; apply (Z.div_unique _ 64 _ (i - wordnum * 64)); lia|symmetry; apply (Z.mod_unique _ 64 wordnum); lia]. }
  assert (Hstep : exists ws1 neww, (if negb (w =? 0) then neww ← intersect_bits 64 b w w (wrapu 32 (k + wordnum * BITS_PER_WORD)) 0; words ← aset ws wordnum neww; intersect_chunk n b k words (cd && (neww =? 0)) (wordnum + 1) else intersect_chunk n b k ws cd (wordnum + 1)) = intersect_chunk n b k ws1 (cd && (neww =? 0)) (wordnum + 1) /\
    chunk_met k ws ws1 (wordnum * 64) (wordnum * 64 + 64) /\ (neww =? 0 = true <-> forall i, wordnum * 64 <= i < wordnum * 64 + 64 -> wbit ws1 i = false)).
  { assert (Hzero : forall ws1 neww, is_u 64 neww -> (forall i, wordnum * 64 <= i < wordnum * 64 + 64 -> wbit ws1 i = Z.testbit neww (i - wordnum * 64)) -> (neww =? 0 = true <-> forall i, wordnum * 64 <= i < wordnum * 64 + 64 -> wbit ws1 i = false)).
    { intros ws1 neww Hnu Hb. rewrite Z.eqb_eq. split; [intros -> i Hi; rewrite Hb by done; apply Z.bits_0|]. intros Hall. destruct (decide (neww = 0)) as [|Hne]; [done|]. exfalso. destruct Hnu as [Hn1 Hn2]. pose proof (Z.log2_nonneg neww). pose proof (proj1 (Z.log2_lt_pow2 neww 64 ltac:(lia)) Hn2). specialize (Hall (wordnum * 64 + Z.log2 neww) ltac:(lia)). rewrite Hb in Hall by lia. replace (wordnum * 64 + Z.log2 neww - wordnum * 64) with (Z.log2 neww) in Hall by lia. rewrite Z.bit_log2 in Hall by lia. done. }
    destruct (Z.eqb_spec w 0) as [E|E]; cbn [negb].
    - exists ws, 0. rewrite andb_true_r. split; [done|]. assert (Hnone : forall i, wordnum * 64 <= i < wordnum * 64 + 64 -> wbit ws i = false) by (intros i Hi; unfold wbit; destruct (Hpos i Hi) as [-> _]; fold w; rewrite E; apply Z.bits_0). split; [|split; [intros _; exact Hnone|done]]. split; [done|]. intros i Hi. case_bool_decide as Hd; [by rewrite Hnone|]. cbn [negb orb]. by rewrite andb_true_r.
    - destruct (intersect_bits_ok 64 w w (k + wordnum * BITS_PER_WORD) 0 Hw Hw ltac:(lia) ltac:(lia)) as (neww & -> & Hnu & Hbits).
      { intros x [Hr Hb]%elem_of_set_bits. unfold BITS_PER_WORD in *. replace x with (k + (x - k)) by lia. apply Hin; [lia|]. unfold wbit. destruct (Hpos (x - k) ltac:(lia)) as [-> ->]. fold w. rewrite <- Hb. f_equal. lia. }
      rewrite bind_val, aset_Ok, bind_val by lia. exists (<[Z.to_nat wordnum := neww]> ws), neww. split; [done|]. assert (Hup : forall i, 0 <= i < 320 -> wbit (<[Z.to_nat wordnum := neww]> ws) i = if decide (i / 64 = wordnum) then Z.testbit neww (i `mod` 64) else wbit ws i) by (intros i Hi; apply wbit_update; (done || lia)). split.
      + split; [apply (wbit_update ws wordnum neww 0); (done || lia)|]. intros i Hi. rewrite Hup by done. pose proof (wbit_range i Hi) as [Hr1 Hr2]. pose proof (Z.div_mod i 64 ltac:(lia)) as Hdm. case_decide as Hd.
        * rewrite Hbits by done. rewrite bool_decide_true by lia. cbn [negb orb]. unfold wbit. rewrite Hd. fold w. rewrite Z.sub_0_r. replace (k + wordnum * BITS_PER_WORD + i `mod` 64) with (k + i) by (unfold BITS_PER_WORD; lia). by destruct (Z.testbit w (i `mod` 64)), (present Mb (k + i)).
        * rewrite bool_decide_false by lia. cbn [negb orb]. by rewrite andb_true_r.
      + apply Hzero; [done|]. intros i Hi. rewrite Hup by lia. destruct (Hpos i Hi) as [E1 E2]. rewrite decide_True by done. by rewrite E2. }
  destruct Hstep as (ws1 & neww & -> & [Hws1 Hb1] & Hz1). destruct (IH ws1 (cd && (neww =? 0)) (wordnum + 1) Hws1 ltac:(lia) ltac:(lia)) as (ws' & cd' & -> & [Hws' Hb'] & Hcd).
  { intros i Hi. rewrite Hb1, bool_decide_false by lia. cbn [negb orb]. rewrite andb_true_r. apply Hin. lia. }
  exists ws', cd'. split; [done|]. split.
  - split; [done|]. intros i Hi. rewrite Hb', Hb1 by done. rewrite <- andb_assoc. f_equal. repeat case_bool_decide; cbn [negb orb andb]; rewrite ?andb_true_r; (done || lia).
  - rewrite Hcd, andb_true_iff, Hz1. split.
    + intros [[-> Hz] Hall]. split; [done|]. intros i Hi. destruct (decide (i < wordnum * 64 + 64)) as [Hlt|Hge]; [|apply Hall; lia]. rewrite Hb' by lia. by rewrite Hz by lia.
    + intros [-> Hall]. split; [split; [done|]|intros i Hi; apply Hall; lia]. intros i Hi. specialize (Hall i ltac:(lia)). rewrite Hb', bool_decide_false in Hall by lia. cbn [negb orb] in Hall. by rewrite andb_true_r in Hall.
Qed.
(** ** One entry *)
Lemma intersect_page_ok k e : shape_ok k e -> page_nonempty e -> exists d del, tbm_intersect_page (mkPTE k e) b = Ok (d, del) /\ meets Mb k e d del.
Proof.
  intros Hs Hne. unfold tbm_intersect_page. cbn [pte_data pte_blockno]. pose proof (so_key _ _ Hs) as Hk. destruct (ischunk e) eqn:Ech.
  - assert (Hlim : limit_of e = 256) by (unfold limit_of; by rewrite Ech, chunk_size). pose proof (so_chunk _ _ Hs Ech) as Hk0. rewrite chunk_size in Hk0. change (Z.to_nat WORDS_PER_CHUNK) with 4%nat.
    destruct (intersect_chunk_ok k 4 (page_words e) true 0 (so_words _ _ Hs) ltac:(lia) ltac:(lia)) as (ws & cd & -> & [Hws Hbits] & Hcd).
    { intros i Hi _. unfold is_u in *. pose proof (Z.div_mod k 256 ltac:(lia)). lia. }
    rewrite bind_val. cbv beta iota. eexists _, cd. split; [done|]. assert (Hb : forall i, 0 <= i < limit_of e -> wbit ws i = wbit (page_words e) i && survives Mb k e i).
    { intros i Hi. rewrite Hlim in Hi. rewrite Hbits, bool_decide_true by lia. unfold survives. by rewrite Ech. }
    split; cbn [ischunk page_words page_recheck]; [done| | | |by rewrite Ech].
    + split; [done|by intros _; apply (so_chunk _ _ Hs)|done|]. intros i Hi. cbn [page_words]. rewrite Hbits by done. intros [Hw _]%andb_true_iff. apply (so_bits _ _ Hs) in Hw; [|done]. unfold limit_of in *. cbn [ischunk]. by rewrite Ech in Hw.
    + intros E i Hi. rewrite <- Hb by done. apply Hcd; [done|]. lia.
    + intros E. split; [|done]. destruct (decide (Exists (fun i => wbit ws i = true) (seqZ 0 256))) as [Hex|Hno].
      * apply Exists_exists in Hex as (i & Hi%elem_of_seqZ & Hwi). exists i. split; [|done]. unfold limit_of. cbn [ischunk]. rewrite chunk_size. lia.
      * exfalso. assert (cd = true); [|congruence]. apply Hcd. split; [done|]. intros i Hi. apply not_true_iff_false. intros Hwi. apply Hno. apply Exists_exists. exists i. split; [apply elem_of_seqZ; lia|done].
  - assert (Hlim : limit_of e = MAX_TUPLES_PER_PAGE) by (unfold limit_of; by rewrite Ech). rewrite (page_is_lossy_ok b Mb k Hrepb (mo_shape _ Hokb)), bind_val. destruct (lossy Mb k) eqn:El.
    + eexists _, false. split; [done|]. split; cbn [ischunk page_words page_recheck]; [done| |done| |].
      * destruct Hs as [S1 S2 S3 S4]. split; [done|done|done|]. intros i Hi Hw. specialize (S4 i Hi Hw). by rewrite Hlim in S4.
      * intros _. split; [destruct Hne as (i & Hi & Hw); exists i; rewrite Hlim in Hi; done|]. intros i Hi. unfold survives. rewrite Ech, El. by rewrite andb_true_r.
      * intros _ _. rewrite El. by rewrite orb_true_r.
    + rewrite (find_pageentry_ok b Mb k Hrepb), bind_val. destruct (exact_page Mb k) as [e'|] eqn:Ee; cbn [fmap option_fmap option_map pte_data].
      * assert (Hs' : shape_ok k e' /\ ischunk e' = false) by (unfold exact_page in Ee; destruct (Mb !! k) as [e2|] eqn:E2; [|done]; destruct (ischunk e2) eqn:Ec2; [done|]; injection Ee as <-; split; [by apply Hokb|done]). destruct Hs' as [Hs' Hch'].
        destruct (and_words_ok (page_words e) (page_words e') (so_words _ _ Hs) (so_words _ _ Hs')) as (-> & Hws & Hbits). rewrite bind_val. cbv beta iota. pose proof (words_zero _ Hws) as Hz. set (ws := zip_with Z.land _ _) in *. eexists _, _. split; [done|].
        assert (Hb : forall i, 0 <= i < limit_of e -> wbit ws i = wbit (page_words e) i && survives Mb k e i) by (intros i Hi; rewrite Hlim, page_size in Hi; rewrite Hbits by lia; unfold survives; by rewrite Ech, El, Ee).
        assert (Hsh : forall i, 0 <= i < 320 -> wbit ws i = true -> i < MAX_TUPLES_PER_PAGE) by (intros i Hi; rewrite Hbits by done; intros [Hw _]%andb_true_iff; rewrite <- Hlim; by apply (so_bits _ _ Hs)).
        split; cbn [ischunk page_words page_recheck]; [done| | | |].
        -- split; [done|done|done|]. intros i Hi Hw. by apply Hsh.
        -- intros E i Hi. rewrite <- Hb by done. apply not_true_iff_false. intros Hw. assert (E' : forallb (fun w => w =? 0) ws = false) by (apply Hz; exists i; rewrite Hlim, page_size in Hi; split; [lia|done]). congruence.
        -- intros E. split; [|done]. apply Hz in E as (i & Hi & Hw). exists i. split; [|done]. unfold limit_of. cbn [ischunk]. split; [lia|by apply Hsh].
        -- intros _ _. by rewrite El, Ee, orb_false_r.
      * exists e, true. split; [done|]. split; [done|done| |done|done]. intros _ i Hi. unfold survives. rewrite Ech, El, Ee. by rewrite andb_false_r.
Qed.
(** ** The whole bitmap *)
Section Scan.
Context (a0 : bitmap) (Ma : tmap).
Hypothesis Hoka : map_ok Ma.
Hypothesis Hsza : Z.of_nat (size Ma) <= pt_limit.

Definition intersect_inv (n : Z) (s : bitmap * I) : Prop := exists M t (R : gset Z), n = Z.of_nat (size R) /\ rep s.1 M /\ tbm_status s.1 = TBM_HASH /\ pagetable s.1 = Some t /\ pt_iter t s.2 R /\ kept a0 s.1 /\ (size M <= size Ma)%nat /\
  forall k, if decide (k ∈ R) then M !! k = Ma !! k else met Ma Mb M k.
Definition intersected (a : bitmap) : Prop := exists M, rep a M /\ kept a0 a /\ (size M <= size Ma)%nat /\ forall k, met Ma Mb M k.

Lemma inv_update (R : gset Z) M M' k e d (del : bool) : Ma !! k = Some e -> meets Mb k e d del -> (forall j, if decide (j ∈ R) then M !! j = Ma !! j else met Ma Mb M j) -> M' !! k = (if del then None else Some d) -> (forall j, j <> k -> M' !! j = M !! j) ->
  forall j, if decide (j ∈ R ∖ {[k]}) then M' !! j = Ma !! j else met Ma Mb M' j.
Proof.
  intros Hk Hme Hall Hk' Hother j. destruct (decide (j = k)) as [->|Hne].
  - rewrite decide_False by (intros [_ Hn]%elem_of_difference; by apply Hn, elem_of_singleton). unfold met. rewrite Hk. by exists d, del.
  - specialize (Hall j). unfold met. rewrite (Hother j Hne). destruct (decide (j ∈ R)) as [HR|HR]; [rewrite decide_True|rewrite decide_False]; [done|apply elem_of_difference; rewrite elem_of_singleton; done|done|by intros [? _]%elem_of_difference].
Qed.

Lemma intersect_step_ok n s : intersect_inv n s -> exists r, intersect_step b s = Ok r /\ match r with inl s' => exists m, intersect_inv m s' /\ m < n | inr a => intersected a end.
Proof.
  destruct s as [a it]. intros (M & t & R & -> & Hrep & Hs & Hpt & Hit & Hkept & Hsz & Hall). cbn [fst snd] in *. pose proof law_limit as Hll. unfold intersect_step. destruct (rep_hash _ _ Hrep Hs) as (t' & Hpt' & Htab & Htok & Hm). rewrite Hpt in Hpt'. injection Hpt' as <-. rewrite Htab, bind_val.
  destruct (law_iterate t it R Htok Hit) as (it1 & r & -> & Hr). rewrite bind_val. cbv beta iota. destruct r as [p|].
  2: { eexists. split; [done|]. exists M. split; [done|]. split; [done|]. split; [done|]. intros k. specialize (Hall k). subst R. by rewrite decide_False in Hall by (apply not_elem_of_empty). }
  destruct Hr as (k & Hp & HkR & Hit1). destruct (law_get t p k Htok Hp) as (e & -> & He). rewrite bind_val. rewrite Hm in He. pose proof (Hall k) as Hk. rewrite decide_True in Hk by done. rewrite He in Hk. symmetry in Hk.
  destruct (intersect_page_ok k e (mo_shape _ Hoka _ _ Hk) (mo_nonempty _ Hoka _ _ Hk)) as (d & del & -> & Hme). rewrite bind_val. cbv beta iota. destruct (law_put t p k d Htok Hp) as (t1 & -> & Htok1 & Hm1 & _ & _ & Hit2). rewrite bind_val. cbn [pte_blockno]. cbv zeta.
  rewrite Hm in Hm1. assert (Hcount : Z.of_nat (size (R ∖ {[k]})) < Z.of_nat (size R)).
  { apply inj_lt, subset_size. split; [by intros x [? _]%elem_of_difference|]. intros Hsub. apply Hsub in HkR. apply elem_of_difference in HkR as [_ Hn]. by apply Hn, elem_of_singleton. }
  assert (Hpos : (size M <> 0)%nat) by (intros E; apply map_size_empty_inv in E; by rewrite E, lookup_empty in He). destruct del.
  - destruct (law_delete t1 k Htok1) as (t2 & -> & Htok2 & Hm2 & _ & Hit3). rewrite Hm1, lookup_insert_eq, bool_decide_true by done. rewrite bind_val. cbn [negb]. rewrite Hm1, delete_insert_eq in Hm2.
    eexists. split; [done|]. eexists. split; [|exact Hcount]. exists (delete k M), t2, (R ∖ {[k]}). cbn [fst snd]. split; [done|].
    assert (Hdel : (size (delete k M) < size M)%nat /\ Z.of_nat (size (delete k M)) = Z.of_nat (size M) - 1) by (rewrite map_size_delete_Some by done; lia). destruct Hdel as [Hd1 Hd2]. split; [|split; [by destruct (ischunk d)|split; [done|]]].
    + rewrite (me_chunk _ _ _ _ _ Hme). destruct (ischunk e) eqn:Ech; [apply (rep_counted a t2 M (delete k M) (-1) 0 (-1))|apply (rep_counted a t2 M (delete k M) (-1) (-1) 0)]; try done; try lia; rewrite (cnt_delete _ M k e) by done; unfold one_if; rewrite Ech; cbn; lia.
    + split; [apply Hit3; [by apply Hit2|]; intros [_ Hn]%elem_of_difference; by apply Hn, elem_of_singleton|]. split; [destruct (ischunk d); exact Hkept|]. split; [lia|].
      eapply inv_update; [done|done|done|by rewrite lookup_delete_eq|]. intros j Hj. by rewrite lookup_delete_ne.
  - eexists. split; [done|]. eexists. split; [|exact Hcount]. exists (<[k := d]> M), t1, (R ∖ {[k]}). cbn [fst snd]. assert (Hss : size (<[k := d]> M) = size M) by (apply map_size_insert_Some; by exists e). split; [done|]. split; [|split; [done|split; [done|split; [by apply Hit2|split; [exact Hkept|split; [lia|]]]]]].
    + split; cbn [set_table tbm_status pagetable nentries npages nchunks]; [rewrite Hs; by exists t1|by rewrite Hss; apply Hrep|..]; rewrite (cnt_replace _ M k e d He); unfold one_if; rewrite (me_chunk _ _ _ _ _ Hme); [rewrite (rp_pages _ _ Hrep)|rewrite (rp_chunks _ _ Hrep)]; lia.
    + eapply inv_update; [done|done|done|by rewrite lookup_insert_eq|]. intros j Hj. by rewrite lookup_insert_ne.
Qed.

Lemma intersect_scan_ok t : rep a0 Ma -> tbm_status a0 = TBM_HASH -> pagetable a0 = Some t -> pt_ok t -> pt_map t = Ma -> exists a, run_loop scan_fuel (intersect_step b) (a0, pagetable_start_iterate t) = Ok a /\ intersected a.
Proof.
  intros Hrep Hs Hpt Htok Hm. pose proof law_limit as Hll. apply (run_loop_count (intersect_step b) intersect_inv intersected scan_fuel (Z.of_nat (size Ma))).
  - intros m s. apply intersect_step_ok.
  - intros m s (_ & _ & R & -> & _). lia.
  - exists Ma, t, (dom Ma). cbn [fst snd]. split; [by rewrite size_dom|]. split; [done|]. split; [done|]. split; [done|]. split; [rewrite <- Hm; by apply law_start|]. split; [apply kept_refl|]. split; [lia|]. intros k. destruct (decide (k ∈ dom Ma)) as [|Hn]; [done|]. apply not_elem_of_dom in Hn. unfold met. by rewrite Hn.
  - change (Zpos scan_fuel) with (2 ^ 33). lia.
Qed.

Lemma intersect_map_ok : rep a0 Ma -> exists a, tbm_intersect a0 b = Ok a /\ intersected a.
Proof.
  intros Hrep. unfold tbm_intersect. rewrite (rp_entries _ _ Hrep). destruct (Z.eqb_spec (Z.of_nat (size Ma)) 0) as [E|E].
  - exists a0. split; [done|]. exists Ma. split; [done|]. split; [apply kept_refl|]. split; [done|]. intros k. unfold met. assert (Ma = ∅) as -> by (apply map_size_empty_inv; lia). by rewrite lookup_empty.
  - pose proof (rp_table _ _ Hrep) as Ht. destruct (tbm_status a0) eqn:Es.
    + destruct Ht as [_ ->]. by rewrite map_size_empty in E.
    + destruct Ht as (Hnt & HM & Hnc). destruct (entry1 a0) as [k e] eqn:Ee1. cbn [pte_blockno pte_data] in *. assert (Hk : Ma !! k = Some e) by (by rewrite HM, lookup_singleton_eq). destruct (intersect_page_ok k e (mo_shape _ Hoka _ _ Hk) (mo_nonempty _ Hoka _ _ Hk)) as (d & del & -> & Hme). rewrite bind_val. cbv beta iota zeta.
      assert (Hother : forall j, j <> k -> Ma !! j = None) by (intros j Hj; rewrite HM; by apply lookup_singleton_ne). assert (Hc : forall c, cnt c Ma = one_if c e) by (intros c; rewrite HM, <- insert_empty, cnt_new by apply lookup_empty; done). pose proof (Hc false) as Hcf. pose proof (Hc true) as Hct. unfold one_if in Hcf, Hct. rewrite Hnc in Hcf, Hct. cbn in Hcf, Hct. assert (Hs1 : size Ma = 1%nat) by (rewrite HM; apply map_size_singleton). eexists. split; [done|]. destruct del.
      * exists ∅. split; [|split; [done|split; [rewrite map_size_empty; lia|]]].
        -- split; cbn [set_status count set_entry1 tbm_status pagetable nentries npages nchunks]; [done|..]; rewrite ?(rp_entries _ _ Hrep), ?(rp_pages _ _ Hrep), ?(rp_chunks _ _ Hrep), ?Hs1, ?Hcf, ?Hct; done.
        -- intros j. unfold met. destruct (decide (j = k)) as [->|Hj]; [rewrite Hk; exists d, true; by rewrite lookup_empty|by rewrite Hother].
      * exists {[k := d]}. pose proof (me_chunk _ _ _ _ _ Hme) as Hch. rewrite Hnc in Hch. split; [|split; [done|split; [rewrite map_size_singleton; lia|]]].
        -- split; cbn [set_entry1 tbm_status pagetable nentries npages nchunks entry1 pte_blockno pte_data]; [by rewrite Es|..]; rewrite ?map_size_singleton, <- ?(insert_empty k d), ?cnt_new by apply lookup_empty; rewrite ?(rp_entries _ _ Hrep), ?(rp_pages _ _ Hrep), ?(rp_chunks _ _ Hrep), ?Hs1, ?Hcf, ?Hct; unfold one_if; rewrite ?Hch; done.
        -- intros j. unfold met. destruct (decide (j = k)) as [->|Hj]; [rewrite Hk; exists d, false; by rewrite lookup_singleton_eq|rewrite Hother by done; by apply lookup_singleton_ne].
    + destruct (rep_hash _ _ Hrep Es) as (t & Hpt & -> & Htok & Hm). rewrite bind_val. by apply intersect_scan_ok.
Qed.
End Scan.
End Intersect.

Lemma intersect_ok {T I} {OP : PageTableOps T I} {LAWS : PageTableLaws T I} (a b : TIDBitmap T) Ma Mb Sa Sb Pa Pb : bitmap_ok a Ma Sa Pa -> rep b Mb -> map_ok Mb -> represents Mb Sb Pb -> Z.of_nat (size Ma) <= pt_limit ->
  exists a', tbm_intersect a b = Ok a' /\ exists M, bitmap_ok a' M (fun x o => Sa x o /\ Sb x o) (fun x => Pa x /\ Pb x) /\ (size M <= size Ma)%nat.
Proof.
  intros [H1 H2 H3 H4 H5] Hrepb Hokb Hrb Hsz. destruct (intersect_map_ok b Mb Hrepb Hokb a Ma H2 Hsz H1) as (a' & -> & M & Hrep & (Hk1 & Hk2 & _) & Hs & Hmet). exists a'. split; [done|]. exists M. split; [|done]. split; [done|by apply (met_ok Ma Mb M)|by apply (met_represents Ma Mb M)|congruence|congruence].
Qed.
