(* ===== verification/TidBitmapIter.v ===== *)
(** Iterating over a bitmap: [tbm_begin_iterate] sorts the entries, and [tbm_iterate] merges the exact
    pages and the pages of the chunks. *)
From S2P Require Import Prelude ByteMem Loop TidBitmap TidBitmapMap TidBitmapBits TidBitmapTable TidBitmapRep TidBitmapLossify TidBitmapAdd TidBitmapUnion.

(** The blocks a bitmap reports. *)
Definition reported (M : tmap) (b : Z) : Prop := lossy M b = true \/ is_Some (exact_page M b).
(** What is reported of a block. *)
Definition result_ok (M : tmap) (out : TBMIterateResult) : Prop :=
  lossy M (out_blockno out) = true /\ out_ntuples out = -1 /\ out_recheck out = true \/
  exists e, exact_page M (out_blockno out) = Some e /\ out_ntuples out = Z.of_nat (length (out_offsets out)) /\ 0 < out_ntuples out <= MAX_TUPLES_PER_PAGE /\ out_recheck out = page_recheck e /\ StronglySorted Z.lt (out_offsets out) /\
    forall o, o ∈ out_offsets out <-> 1 <= o <= MAX_TUPLES_PER_PAGE /\ wbit (page_words e) (o - 1) = true.

(** The entries in order: the exact pages, or the chunks. *)
Notation entries := (list (Z * PageData)).
Record in_order (M : tmap) (c : bool) (l : entries) : Prop := {
  io_sorted : forall i j k e k' e', l !! i = Some (k, e) -> l !! j = Some (k', e') -> (i < j)%nat -> k < k';
  io_mem : forall k e, (k, e) ∈ l <-> M !! k = Some e /\ ischunk e = c }.

(** All bits before the position in the chunks, and all pages before the position in the pages,
    belong to blocks before [x]; the others do not. *)
Definition bit_passed (it : TBMIterator) (i j : Z) : Prop := i < schunkptr it \/ i = schunkptr it /\ j < schunkbit it.
Record iter_at (pages chunks : entries) (it : TBMIterator) (x : Z) : Prop := {
  at_ptrs : 0 <= spageptr it <= Z.of_nat (length pages) /\ 0 <= schunkptr it /\ 0 <= schunkbit it;
  at_pages : forall i k e, pages !! i = Some (k, e) -> if decide (Z.of_nat i < spageptr it) then k < x else x <= k;
  at_bits : forall i c e j, chunks !! i = Some (c, e) -> 0 <= j < PAGES_PER_CHUNK -> wbit (page_words e) j = true -> (bit_passed it (Z.of_nat i) j -> c + j < x) /\ (~ bit_passed it (Z.of_nat i) j -> x <= c + j) }.

Section Order.
Context (M : tmap) (pages chunks : entries).
Hypothesis Hok : map_ok M.
Hypothesis Hpages : in_order M false pages.
Hypothesis Hchunks : in_order M true chunks.

Lemma chunk_at i c e : chunks !! i = Some (c, e) -> M !! c = Some e /\ ischunk e = true /\ shape_ok c e /\ c `mod` 256 = 0.
Proof. intros Hi. destruct (proj1 (io_mem _ _ _ Hchunks c e) (list_elem_of_lookup_2 _ _ _ Hi)) as [Hc Hch]. pose proof (mo_shape _ Hok _ _ Hc) as Hs. split_and!; [done|done|done|]. rewrite <- chunk_size. by apply Hs. Qed.
Lemma page_at i k e : pages !! i = Some (k, e) -> M !! k = Some e /\ ischunk e = false /\ shape_ok k e /\ exact_page M k = Some e.
Proof. intros Hi. destruct (proj1 (io_mem _ _ _ Hpages k e) (list_elem_of_lookup_2 _ _ _ Hi)) as [Hc Hch]. split_and!; [done|done|by apply Hok|]. unfold exact_page. by rewrite Hc, Hch. Qed.

Lemma lossy_bit b : lossy M b = true <-> exists i c e j, chunks !! i = Some (c, e) /\ 0 <= j < PAGES_PER_CHUNK /\ wbit (page_words e) j = true /\ b = c + j.
Proof.
  split.
  - unfold lossy. destruct (M !! header b) as [e|] eqn:Eh; [|done]. intros [Hch Hb]%andb_true_iff. assert (Hin : (header b, e) ∈ chunks) by (by apply (io_mem _ _ _ Hchunks)). apply list_elem_of_lookup in Hin as (i & Hi). exists i, (header b), e, (b `mod` PAGES_PER_CHUNK). pose proof (Z.mod_pos_bound b PAGES_PER_CHUNK ltac:(by vm_compute)). unfold header. split_and!; [done|lia|lia|done|lia].
  - intros (i & c & e & j & Hi & Hj & Hb & ->). destruct (chunk_at i c e Hi) as (Hc & Hch & _ & Hc0). rewrite chunk_size in Hj. assert (Hm : (c + j) `mod` 256 = j) by (symmetry; apply (Z.mod_unique _ 256 (c / 256)); [lia|]; pose proof (Z.div_mod c 256 ltac:(lia)); lia). unfold lossy, header. rewrite chunk_size, Hm. replace (c + j - j) with c by lia. by rewrite Hc, Hch, Hb.
Qed.
Lemma exact_at b : is_Some (exact_page M b) <-> exists i e, pages !! i = Some (b, e).
Proof.
  split.
  - intros [e He]. unfold exact_page in He. destruct (M !! b) as [e'|] eqn:Eb; [|done]. destruct (ischunk e') eqn:Ech; [done|]. injection He as ->. assert (Hin : (b, e) ∈ pages) by (by apply (io_mem _ _ _ Hpages)). apply list_elem_of_lookup in Hin as (i & Hi). by exists i, e.
  - intros (i & e & Hi). destruct (page_at i b e Hi) as (_ & _ & _ & ->). done.
Qed.

(** Positions further on are blocks further on. *)
Lemma bit_order i c e j i' c' e' j' : chunks !! i = Some (c, e) -> chunks !! i' = Some (c', e') -> 0 <= j < 256 -> 0 <= j' < 256 -> (i < i')%nat \/ i = i' /\ j < j' -> c + j < c' + j'.
Proof.
  intros Hi Hi' Hj Hj' [Hlt|[-> Hlt]]; [|rewrite Hi in Hi'; injection Hi' as <- <-; lia]. pose proof (io_sorted _ _ _ Hchunks _ _ _ _ _ _ Hi Hi' Hlt). destruct (chunk_at i c e Hi) as (_ & _ & _ & H1), (chunk_at i' c' e' Hi') as (_ & _ & _ & H2). pose proof (Z.div_mod c 256 ltac:(lia)). pose proof (Z.div_mod c' 256 ltac:(lia)). lia.
Qed.

(** The next exact page is reported next when no bit comes before it. *)
Lemma at_next_page it x k e : iter_at pages chunks it x -> pages !! Z.to_nat (spageptr it) = Some (k, e) -> (forall b, lossy M b = true -> x <= b -> k < b) ->
  x <= k /\ (forall b, reported M b -> x <= b -> k <= b) /\ iter_at pages chunks (mkTBMIter (spageptr it + 1) (schunkptr it) (schunkbit it)) (k + 1).
Proof.
  intros [(A0 & A1 & A2) A3 A4] Hk Hbits. pose proof (A3 _ _ _ Hk) as Hx. rewrite decide_False in Hx by lia. pose proof (lookup_lt_Some _ _ _ Hk) as Hlt. assert (Hpg : forall i k' e', pages !! i = Some (k', e') -> if decide (Z.of_nat i < spageptr it + 1) then k' < k + 1 else k + 1 <= k').
  { intros i k' e' Hi. destruct (lt_eq_lt_dec i (Z.to_nat (spageptr it))) as [[Hc|Hc]|Hc].
    - rewrite decide_True by lia. pose proof (io_sorted _ _ _ Hpages _ _ _ _ _ _ Hi Hk Hc). lia.
    - rewrite decide_True by lia. rewrite Hc, Hk in Hi. injection Hi as <- _. lia.
    - rewrite decide_False by lia. pose proof (io_sorted _ _ _ Hpages _ _ _ _ _ _ Hk Hi Hc). lia. }
  split; [done|]. split.
  - intros b [Hl|Hs] Hb; [pose proof (Hbits b Hl Hb); lia|]. apply exact_at in Hs as (i & e' & Hi). pose proof (A3 _ _ _ Hi) as H1. pose proof (Hpg _ _ _ Hi) as H2. destruct (decide (i = Z.to_nat (spageptr it))) as [->|]; [rewrite Hk in Hi; injection Hi as <- _; lia|]. repeat case_decide; lia.
  - split; cbn [spageptr schunkptr schunkbit]; [lia|done|]. intros i c e' j Hi Hj Hb. destruct (A4 i c e' j Hi Hj Hb) as [P1 P2]. assert (Hl : lossy M (c + j) = true) by (apply lossy_bit; by exists i, c, e', j). unfold bit_passed in *. cbn [schunkptr schunkbit]. split; [intros Hp; specialize (P1 Hp); lia|intros Hp; specialize (P2 Hp); specialize (Hbits _ Hl P2); lia].
Qed.

(** The next bit is reported next when it comes before the next page. *)
Lemma at_next_bit it x c e : iter_at pages chunks it x -> chunks !! Z.to_nat (schunkptr it) = Some (c, e) -> schunkbit it < PAGES_PER_CHUNK -> wbit (page_words e) (schunkbit it) = true -> (forall k e', pages !! Z.to_nat (spageptr it) = Some (k, e') -> c + schunkbit it < k) ->
  let b := c + schunkbit it in lossy M b = true /\ x <= b /\ (forall b', reported M b' -> x <= b' -> b <= b') /\ iter_at pages chunks (mkTBMIter (spageptr it) (schunkptr it) (schunkbit it + 1)) (b + 1).
Proof.
  intros [(A0 & A1 & A2) A3 A4] Hc Hlt Hb Hpg b. rewrite chunk_size in *. assert (Hl : lossy M b = true) by (apply lossy_bit; exists (Z.to_nat (schunkptr it)), c, e, (schunkbit it); rewrite chunk_size; split_and!; done). assert (Hx : x <= b) by (destruct (A4 _ _ _ (schunkbit it) Hc ltac:(lia) Hb) as [_ H]; apply H; unfold bit_passed; lia).
  assert (Hpages' : forall i k e', pages !! i = Some (k, e') -> ~ Z.of_nat i < spageptr it -> b < k).
  { intros i k e' Hi Hni. destruct (decide (i = Z.to_nat (spageptr it))) as [->|Hne]; [by apply Hpg with e'|]. pose proof (lookup_lt_Some _ _ _ Hi). destruct (lookup_lt_is_Some_2 pages (Z.to_nat (spageptr it)) ltac:(lia)) as [[k0 e0] Hk0]. pose proof (Hpg _ _ Hk0). pose proof (io_sorted _ _ _ Hpages _ _ _ _ _ _ Hk0 Hi ltac:(lia)). unfold b. lia. }
  assert (Hbits : forall i c' e' j, chunks !! i = Some (c', e') -> 0 <= j < 256 -> ~ bit_passed it (Z.of_nat i) j -> b <= c' + j /\ (~ bit_passed (mkTBMIter (spageptr it) (schunkptr it) (schunkbit it + 1)) (Z.of_nat i) j -> b < c' + j)).
  { intros i c' e' j Hi Hj Hnp. unfold bit_passed in *. cbn [schunkptr schunkbit]. destruct (decide (i = Z.to_nat (schunkptr it) /\ j = schunkbit it)) as [[-> ->]|Hne]; [rewrite Hc in Hi; injection Hi as <- <-; unfold b; split; [lia|intros Hq; exfalso; apply Hq; lia]|].
    assert (b < c' + j) by (apply (bit_order (Z.to_nat (schunkptr it)) c e (schunkbit it) i c' e' j Hc Hi ltac:(lia) Hj); lia). split; [lia|done]. }
  split; [done|]. split; [done|]. split.
  - intros b' [Hl'|Hs] Hb'.
    + apply lossy_bit in Hl' as (i & c' & e' & j & Hi & Hj & Hbj & ->). destruct (A4 i c' e' j Hi Hj Hbj) as [P1 P2]. rewrite chunk_size in Hj. apply (Hbits i c' e' j Hi Hj). intros Hp. specialize (P1 Hp). lia.
    + apply exact_at in Hs as (i & e' & Hi). pose proof (A3 _ _ _ Hi) as H1. case_decide as Hd; [lia|]. pose proof (Hpages' _ _ _ Hi Hd). lia.
  - split; cbn [spageptr schunkptr schunkbit]; [lia| |].
    + intros i k e' Hi. pose proof (A3 _ _ _ Hi) as H1. case_decide as Hd; [lia|]. pose proof (Hpages' _ _ _ Hi Hd). lia.
    + intros i c' e' j Hi Hj Hbj. destruct (A4 i c' e' j Hi Hj Hbj) as [P1 P2]. rewrite chunk_size in Hj. split.
      * intros Hp. unfold bit_passed in *. cbn [schunkptr schunkbit] in Hp. destruct (decide (Z.of_nat i = schunkptr it /\ j = schunkbit it)) as [[Ei ->]|Hne]; [|specialize (P1 ltac:(lia)); lia]. assert (i = Z.to_nat (schunkptr it)) as -> by lia. rewrite Hc in Hi. injection Hi as <- <-. unfold b. lia.
      * intros Hp. destruct (Hbits i c' e' j Hi Hj) as [_ H2]; [intros Hq; apply Hp; unfold bit_passed in *; cbn [schunkptr schunkbit]; lia|]. specialize (H2 Hp). lia.
Qed.

(** Without bits left no chunk matters. *)
Lemma at_no_bits it x : iter_at pages chunks it x -> Z.of_nat (length chunks) <= schunkptr it -> forall b, lossy M b = true -> ~ x <= b.
Proof. intros [_ _ A4] Hend b Hl. apply lossy_bit in Hl as (i & c & e & j & Hi & Hj & Hb & ->). pose proof (lookup_lt_Some _ _ _ Hi). destruct (A4 i c e j Hi Hj Hb) as [P1 _]. specialize (P1 ltac:(left; lia)). lia. Qed.
End Order.

(** ** The next bit *)
Lemma advance_bits_ok e : words_ok (page_words e) -> forall fuel bit, 0 <= bit -> PAGES_PER_CHUNK - bit <= Z.of_nat fuel -> exists bit', advance_bits fuel e bit = Ok bit' /\ bit <= bit' /\ (forall j, bit <= j < Z.min bit' PAGES_PER_CHUNK -> wbit (page_words e) j = false) /\ (bit' < PAGES_PER_CHUNK -> wbit (page_words e) bit' = true).
Proof.
  intros Hw. rewrite chunk_size. induction fuel as [|fuel IH]; intros bit H0 Hf; cbn [advance_bits]; rewrite chunk_size; destruct (Z.ltb_spec bit 256) as [Hlt|Hge]; [lia|exists bit; split_and!; [done|lia|lia|lia]| |exists bit; split_and!; [done|lia|lia|lia]].
  rewrite test_word_bit_ok, bind_val by (done || lia). destruct (wbit (page_words e) bit) eqn:Eb; [exists bit; split_and!; [done|lia|lia|done]|]. destruct (IH (bit + 1) ltac:(lia) ltac:(lia)) as (bit' & -> & H1 & H2 & H3). exists bit'. split_and!; [done|lia| |done]. intros j Hj. destruct (decide (j = bit)) as [->|]; [done|]. apply H2. lia.
Qed.

(** ** Sorting *)
(** What the code relies on of [qsort]: the result is a permutation of the array, in ascending order
    of any key the comparator orders the elements by. *)
Definition orders_by (key : Z -> Z) (cmp : Z -> Z -> Z) (l : list Z) : Prop :=
  forall x y, x ∈ l -> y ∈ l -> (key x < key y -> cmp x y < 0) /\ (key y < key x -> 0 < cmp x y).
Definition qsort_sorts (qsort : qsort_ptrs) : Prop := forall cmp l,
  qsort cmp l ≡ₚ l /\ forall key, orders_by key cmp l -> StronglySorted (fun x y => key x <= key y) (qsort cmp l).

Lemma sorted_lookup (R : Z -> Z -> Prop) l : StronglySorted R l -> forall i j x y, l !! i = Some x -> l !! j = Some y -> (i < j)%nat -> R x y.
Proof.
  induction 1 as [|z l Hs IH Hall]; intros i j x y Hi Hj Hlt; [done|]. destruct j as [|j]; [lia|]. cbn in Hj. destruct i as [|i]; cbn in Hi.
  - injection Hi as <-. rewrite Forall_forall in Hall. apply Hall. by eapply list_elem_of_lookup_2.
  - apply (IH i j); [done|done|lia].
Qed.

Section Iterate.
Context {T I : Type} {OP : PageTableOps T I} {LAWS : PageTableLaws T I}.
Notation bitmap := (TIDBitmap T).
Implicit Types (tbm : bitmap) (M : tmap).

(** The results of calling [tbm_iterate] until it returns nothing. *)
Inductive yields tbm : TBMIterator -> list TBMIterateResult -> Prop :=
  | yields_end it it' : tbm_iterate tbm it = Ok (it', None) -> yields tbm it []
  | yields_next it it' out outs : tbm_iterate tbm it = Ok (it', Some out) -> yields tbm it' outs -> yields tbm it (out :: outs).

(** A bitmap with its lists. *)
Record ready tbm M (pages chunks : entries) : Prop := {
  rd_rep : rep tbm M;
  rd_map : map_ok M;
  rd_pages : in_order M false pages;
  rd_chunks : in_order M true chunks;
  rd_npages : npages tbm = Z.of_nat (length pages);
  rd_nchunks : nchunks tbm = Z.of_nat (length chunks);
  rd_page : forall i k e, pages !! i = Some (k, e) -> match tbm_status tbm with TBM_ONE_PAGE => Ok (entry1 tbm) | _ => list_entry tbm (spages tbm) (Z.of_nat i) end = Ok (mkPTE k e);
  rd_chunk : forall i k e, chunks !! i = Some (k, e) -> tbm_status tbm <> TBM_ONE_PAGE /\ list_entry tbm (schunks tbm) (Z.of_nat i) = Ok (mkPTE k e) }.

Section Ready.
Context tbm M (pages chunks : entries).
Hypothesis Hready : ready tbm M pages chunks.

Lemma advance_chunks_ok x : forall fuel it, nchunks tbm - schunkptr it < Z.of_nat fuel -> iter_at pages chunks it x -> exists it', advance_chunks fuel tbm it = Ok it' /\ iter_at pages chunks it' x /\ spageptr it' = spageptr it /\
  (schunkptr it' < nchunks tbm -> exists c e, chunks !! Z.to_nat (schunkptr it') = Some (c, e) /\ schunkbit it' < PAGES_PER_CHUNK /\ wbit (page_words e) (schunkbit it') = true).
Proof.
  induction fuel as [|fuel IH]; intros it Hf Hat; cbn [advance_chunks]; destruct (Z.ltb_spec (schunkptr it) (nchunks tbm)) as [Hlt|Hge]; [lia|exists it; split_and!; [done|done|done|lia]| |exists it; split_and!; [done|done|done|lia]].
  pose proof (at_ptrs _ _ _ _ Hat) as (A0 & A1 & A2). rewrite (rd_nchunks _ _ _ _ Hready) in Hlt. destruct (lookup_lt_is_Some_2 chunks (Z.to_nat (schunkptr it)) ltac:(lia)) as [[c e] Hc]. destruct (rd_chunk _ _ _ _ Hready _ _ _ Hc) as [_ Hget]. rewrite Z2Nat.id in Hget by lia. rewrite Hget, bind_val. cbn [pte_data].
  destruct (chunk_at M chunks (rd_map _ _ _ _ Hready) (rd_chunks _ _ _ _ Hready) _ _ _ Hc) as (_ & _ & Hs & _). unfold tbm_advance_schunkbit. destruct (advance_bits_ok e (so_words _ _ Hs) (Z.to_nat PAGES_PER_CHUNK) (schunkbit it) A2 ltac:(rewrite chunk_size; lia)) as (bit & -> & B1 & B2 & B3). rewrite bind_val.
  (* no set bit is skipped *)
  assert (Hskip : forall it', spageptr it' = spageptr it -> 0 <= schunkptr it' -> 0 <= schunkbit it' -> (forall i j, 0 <= j < PAGES_PER_CHUNK -> bit_passed it' i j <-> bit_passed it i j \/ i = schunkptr it /\ schunkbit it <= j < Z.min bit PAGES_PER_CHUNK) -> iter_at pages chunks it' x).
  { intros it' E1 E2 E3 Hiff. destruct Hat as [_ A3 A4]. split; [rewrite E1; lia|by rewrite E1|]. intros i c' e' j Hi Hj Hb. destruct (A4 i c' e' j Hi Hj Hb) as [P1 P2]. rewrite Hiff by done. split; [|tauto]. intros [Hp|[Ei Hr]]; [auto|]. exfalso. assert (i = Z.to_nat (schunkptr it)) as -> by lia. rewrite Hc in Hi. injection Hi as <- <-. rewrite B2 in Hb by done. done. }
  destruct (Z.ltb_spec bit PAGES_PER_CHUNK) as [Hb|Hb].
  - eexists. split; [done|]. split; [apply Hskip; cbn; [done|lia|lia|]|]. { intros i j Hj. unfold bit_passed. cbn [schunkptr schunkbit]. lia. } split; [done|]. cbn [schunkptr schunkbit]. intros _. exists c, e. split; [done|]. auto.
  - destruct (IH (mkTBMIter (spageptr it) (schunkptr it + 1) 0)) as (it' & -> & Hat' & Hsp & Hrest); [cbn; lia|apply Hskip; cbn; [done|lia|lia|]; intros i j Hj; unfold bit_passed; cbn [schunkptr schunkbit]; rewrite chunk_size in *; lia|]. by exists it'.
Qed.

Definition next_ok (x : Z) (it : TBMIterator) (r : option TBMIterateResult) : Prop :=
  match r with
  | None => forall b, reported M b -> ~ x <= b
  | Some out => x <= out_blockno out /\ result_ok M out /\ reported M (out_blockno out) /\ (forall b, reported M b -> x <= b -> out_blockno out <= b) /\ iter_at pages chunks it (out_blockno out + 1)
  end.

Lemma exact_result_ok it x : iter_at pages chunks it x -> (forall k e b, pages !! Z.to_nat (spageptr it) = Some (k, e) -> lossy M b = true -> x <= b -> k < b) -> (Z.of_nat (length pages) <= spageptr it -> forall b, lossy M b = true -> ~ x <= b) ->
  exists it' r, exact_result tbm it = Ok (it', r) /\ next_ok x it' r.
Proof.
  intros Hat Hbits Hnone. pose proof (at_ptrs _ _ _ _ Hat) as (A0 & _ & _). destruct Hready as [Hrep Hok Hpg Hch Hnp Hnc Hpage Hchunk]. unfold exact_result. rewrite Hnp. destruct (Z.ltb_spec (spageptr it) (Z.of_nat (length pages))) as [Hlt|Hge].
  - destruct (lookup_lt_is_Some_2 pages (Z.to_nat (spageptr it)) ltac:(lia)) as [[k e] Hk]. pose proof (Hpage _ _ _ Hk) as Hget. rewrite Z2Nat.id in Hget by lia. rewrite Hget, bind_val. cbn [pte_data pte_blockno]. destruct (page_at M pages Hok Hpg _ _ _ Hk) as (HM & Hnch & Hs & Hex).
    destruct (extract_page_tuple_ok k e Hs Hnch) as (-> & Hsort & Hlen & Hmem). rewrite bind_val. eexists _, _. split; [done|]. destruct (at_next_page M pages chunks Hok Hpg Hch it x k e Hat Hk ltac:(eauto)) as (N1 & N2 & N3). cbn [next_ok out_blockno]. split; [done|]. split; [|split; [right; by exists e|done]].
    right. exists e. cbn [out_blockno out_ntuples out_recheck out_offsets]. split_and!; [done|done| |done|done|done|done]. destruct (mo_nonempty _ Hok _ _ HM) as (i & Hi & Hbi). unfold limit_of in Hi. rewrite Hnch in Hi. assert (Hin : i + 1 ∈ offsets_of e) by (apply Hmem; replace (i + 1 - 1) with i by lia; split; [lia|done]). destruct (offsets_of e); [by apply not_elem_of_nil in Hin|cbn; lia].
  - exists it, None. split; [done|]. intros b [Hl|Hs]; [by apply Hnone|]. apply (exact_at M pages Hok Hpg) in Hs as (i & e & Hi). pose proof (at_pages _ _ _ _ Hat _ _ _ Hi) as H. pose proof (lookup_lt_Some _ _ _ Hi). rewrite decide_True in H by lia. lia.
Qed.

Lemma iterate_ok it x : 0 <= x -> iter_at pages chunks it x -> exists it' r, tbm_iterate tbm it = Ok (it', r) /\ next_ok x it' r.
Proof.
  intros Hx0 Hat. unfold tbm_iterate. destruct (advance_chunks_ok x (S (Z.to_nat (nchunks tbm))) it ltac:(pose proof (at_ptrs _ _ _ _ Hat); lia) Hat) as (it1 & -> & Hat1 & _ & Hbit). rewrite bind_val. pose proof (at_ptrs _ _ _ _ Hat1) as (A0 & A1 & A2). destruct (Z.ltb_spec (schunkptr it1) (nchunks tbm)) as [Hlt|Hge].
  - destruct (Hbit Hlt) as (c & e & Hc & Hb256 & Hset). pose proof (rd_map _ _ _ _ Hready) as Hok. pose proof (rd_chunks _ _ _ _ Hready) as Hch. pose proof (rd_pages _ _ _ _ Hready) as Hpg. destruct (rd_chunk _ _ _ _ Hready _ _ _ Hc) as [Hst Hget]. rewrite Z2Nat.id in Hget by lia. rewrite Hget, bind_val. cbn [pte_blockno].
    destruct (chunk_at M chunks Hok Hch _ _ _ Hc) as (_ & _ & Hs & Hc0). rewrite wrapu_small by (pose proof (so_key _ _ Hs); rewrite chunk_size in Hb256; unfold is_u in *; pose proof (Z.div_mod c 256 ltac:(lia)); lia).
    assert (Hlossy : lossy M (c + schunkbit it1) = true) by (apply (lossy_bit M chunks Hok Hch); exists (Z.to_nat (schunkptr it1)), c, e, (schunkbit it1); split_and!; [done|done|done|done|done]).
    assert (Hout : (forall k e', pages !! Z.to_nat (spageptr it1) = Some (k, e') -> c + schunkbit it1 < k) -> next_ok x (mkTBMIter (spageptr it1) (schunkptr it1) (schunkbit it1 + 1)) (Some (mkResult (c + schunkbit it1) (-1) true []))).
    { intros Hbefore. destruct (at_next_bit M pages chunks Hok Hpg Hch it1 x c e Hat1 Hc Hb256 Hset Hbefore) as (N1 & N2 & N3 & N4). cbn [next_ok out_blockno]. split; [done|]. split; [by left|]. split; [by left|done]. }
    rewrite (rd_npages _ _ _ _ Hready). destruct (Z.leb_spec (Z.of_nat (length pages)) (spageptr it1)) as [Hend|Hmore].
    + rewrite bind_val. eexists _, _. split; [done|]. apply Hout. intros k e' Hk. apply lookup_lt_Some in Hk. lia.
    + destruct (lookup_lt_is_Some_2 pages (Z.to_nat (spageptr it1)) ltac:(lia)) as [[k e'] Hk]. pose proof (rd_page _ _ _ _ Hready _ _ _ Hk) as Hgp. rewrite Z2Nat.id in Hgp by lia. assert (Hgp' : list_entry tbm (spages tbm) (spageptr it1) = Ok (mkPTE k e')) by (by destruct (tbm_status tbm)). rewrite Hgp', !bind_val. cbn [pte_blockno].
      destruct (Z.ltb_spec (c + schunkbit it1) k) as [Hck|Hck].
      * eexists _, _. split; [done|]. apply Hout. intros k2 e2 Hk2. rewrite Hk in Hk2. injection Hk2 as <- <-. done.
      * apply (exact_result_ok it1 x Hat1); [|lia]. intros k2 e2 b Hk2 Hl Hxb. rewrite Hk in Hk2. injection Hk2 as <- <-. assert (k <> c + schunkbit it1) by (intros ->; apply (mo_apart _ Hok) in Hlossy; destruct (page_at M pages Hok Hpg _ _ _ Hk) as (_ & _ & _ & Hex); congruence).
        enough (c + schunkbit it1 <= b) by lia. apply (lossy_bit M chunks Hok Hch) in Hl as (i & c' & d & j & Hi & Hj & Hbj & ->). destruct (at_bits _ _ _ _ Hat1 i c' d j Hi Hj Hbj) as [P1 _]. unfold bit_passed in P1. destruct (decide (i = Z.to_nat (schunkptr it1) /\ j = schunkbit it1)) as [[-> ->]|Hne]; [rewrite Hc in Hi; injection Hi as <- <-; lia|].
        apply Z.lt_le_incl. rewrite chunk_size in *. apply (bit_order M chunks Hok Hch (Z.to_nat (schunkptr it1)) c e (schunkbit it1) i c' d j Hc Hi ltac:(lia) Hj). lia.
  - apply (exact_result_ok it1 x Hat1); intros; rewrite (rd_nchunks _ _ _ _ Hready) in Hge; [exfalso|]; by eapply (at_no_bits M pages chunks (rd_map _ _ _ _ Hready) (rd_chunks _ _ _ _ Hready) it1 x Hat1).
Qed.

Lemma reported_range b : reported M b -> is_u 32 b.
Proof.
  pose proof (rd_map _ _ _ _ Hready) as Hok. intros [Hl|[e He]].
  - unfold lossy in Hl. destruct (M !! header b) as [e|] eqn:Eh; [|done]. apply andb_true_iff in Hl as [Hch _]. pose proof (mo_shape _ Hok _ _ Eh) as Hs. pose proof (so_key _ _ Hs) as Hk. pose proof (so_chunk _ _ Hs Hch) as H0. unfold header in *. rewrite chunk_size in *. pose proof (Z.mod_pos_bound b 256 ltac:(lia)). pose proof (Z.div_mod (b - b `mod` 256) 256 ltac:(lia)). unfold is_u in *. lia.
  - unfold exact_page in He. destruct (M !! b) as [e'|] eqn:Eb; [|done]. apply (so_key _ _ (mo_shape _ Hok _ _ Eb)).
Qed.

(** Calling [tbm_iterate] until it returns nothing. *)
Lemma yields_ok : forall n x it, 2 ^ 32 - x <= Z.of_nat n -> 0 <= x -> iter_at pages chunks it x -> exists outs, yields tbm it outs /\ StronglySorted Z.lt (out_blockno <$> outs) /\ (forall b, b ∈ out_blockno <$> outs <-> reported M b /\ x <= b) /\ Forall (result_ok M) outs.
Proof.
  induction n as [|n IH]; intros x it Hn Hx Hat; destruct (iterate_ok it x Hx Hat) as (it' & [out|] & Hrun & Hr); cbn [next_ok] in Hr.
  - destruct Hr as (R1 & _ & R3 & _). apply reported_range in R3. unfold is_u in R3. lia.
  - exists []. split; [by eapply yields_end|]. split; [constructor|]. split; [|constructor]. intros b. split; [by intros ?%not_elem_of_nil|]. intros [Hb Hge]. by apply Hr in Hb.
  - destruct Hr as (R1 & R2 & R3 & R4 & R5). destruct (IH (out_blockno out + 1) it' ltac:(lia) ltac:(lia) R5) as (outs & Hy & Hs & Hmem & Hall). exists (out :: outs). split; [by eapply yields_next|]. rewrite fmap_cons. split; [|split].
    + constructor; [done|]. apply Forall_forall. intros b Hb. apply Hmem in Hb. lia.
    + intros b. rewrite elem_of_cons, Hmem. split; [intros [->|[? ?]]; [done|split; [done|lia]]|]. intros [Hb Hge]. pose proof (R4 b Hb Hge). destruct (decide (b = out_blockno out)); [by left|]. right. split; [done|lia].
    + by constructor.
  - exists []. split; [by eapply yields_end|]. split; [constructor|]. split; [|constructor]. intros b. split; [by intros ?%not_elem_of_nil|]. intros [Hb Hge]. by apply Hr in Hb.
Qed.
End Ready.

(** ** Starting *)
Definition entry_of (t : T) (p : Z) : Z * PageData := match pt_get t p with Ok e => (pte_blockno e, pte_data e) | _ => (0, zero_page_data) end.

Section Collect.
Context (t : T) (M : tmap).
Hypothesis Htok : pt_ok t.
Hypothesis Hm : pt_map t = M.

(** The pointers [l] are to the entries of kind [c] that are not in [R]. *)
Definition collected (c : bool) (l : list Z) (R : gset Z) : Prop :=
  (forall p, p ∈ l -> pt_get t p = Ok (mkPTE (entry_of t p).1 (entry_of t p).2)) /\ NoDup (fst ∘ entry_of t <$> l) /\ forall k e, (k, e) ∈ entry_of t <$> l <-> M !! k = Some e /\ ischunk e = c /\ k ∉ R.
Definition collect_inv (n : Z) (s : list Z * list Z * I) : Prop := exists R : gset Z, n = Z.of_nat (size R) /\ pt_iter t s.2 R /\ collected false s.1.1 R /\ collected true s.1.2 R.

Lemma collected_same c l (R : gset Z) k e : M !! k = Some e -> ischunk e <> c -> collected c l R -> collected c l (R ∖ {[k]}).
Proof. intros Hk Hc (H1 & H2 & H3). split; [done|]. split; [done|]. intros k' e'. rewrite H3, elem_of_difference, elem_of_singleton. split; [tauto|]. intros (A & B & C). split; [done|]. split; [done|]. intros Hin. apply C. split; [done|]. intros ->. congruence. Qed.
Lemma collected_more c l (R : gset Z) k e p : M !! k = Some e -> ischunk e = c -> k ∈ R -> pt_get t p = Ok (mkPTE k e) -> collected c l R -> collected c (l ++ [p]) (R ∖ {[k]}).
Proof.
  intros Hk Hc HR Hp (H1 & H2 & H3). assert (He : entry_of t p = (k, e)) by (unfold entry_of; by rewrite Hp). split; [|split].
  - intros q [Hq|Hq]%elem_of_app; [by apply H1|]. apply list_elem_of_singleton in Hq as ->. by rewrite He, Hp.
  - rewrite fmap_app. apply NoDup_app. split; [done|]. split; [|cbn; apply NoDup_singleton]. intros x Hx Hin. cbn in Hin. apply list_elem_of_singleton in Hin as ->. rewrite He in Hx. apply list_elem_of_fmap in Hx as (q & Eq & Hq). cbn in Eq. assert (Hin : (k, (entry_of t q).2) ∈ entry_of t <$> l) by (apply list_elem_of_fmap; exists q; split; [rewrite Eq; by destruct (entry_of t q)|done]). by apply H3 in Hin as (_ & _ & ?).
  - intros k' e'. rewrite fmap_app, elem_of_app, H3. cbn. rewrite list_elem_of_singleton, He, elem_of_difference, elem_of_singleton. split.
    + intros [(A & B & C)|[= -> ->]]; [tauto|]. split; [done|]. split; [done|]. tauto.
    + intros (A & B & C). destruct (decide (k' = k)) as [->|Hne]; [right; congruence|]. left. split; [done|]. split; [done|]. tauto.
Qed.

Lemma collect_step_ok n s : collect_inv n s -> exists r, collect_step t s = Ok r /\ match r with inl s' => exists m, collect_inv m s' /\ m < n | inr (pages, chunks) => collected false pages ∅ /\ collected true chunks ∅ end.
Proof.
  destruct s as [[pages chunks] it]. intros (R & -> & Hit & Hp & Hc). cbn [fst snd] in *. unfold collect_step. destruct (law_iterate t it R Htok Hit) as (it1 & r & -> & Hr). rewrite bind_val. cbv beta iota. destruct r as [p|]; [|subst R; by eexists].
  destruct Hr as (k & Hpk & HkR & Hit1). destruct (law_get t p k Htok Hpk) as (e & Hget & He). rewrite Hget, bind_val. rewrite Hm in He. cbn [pte_data]. eexists. split; [done|].
  assert (Hcount : Z.of_nat (size (R ∖ {[k]})) < Z.of_nat (size R)).
  { apply inj_lt, subset_size. split; [by intros x [? _]%elem_of_difference|]. intros Hsub. apply Hsub in HkR. apply elem_of_difference in HkR as [_ Hn]. by apply Hn, elem_of_singleton. }
  exists (Z.of_nat (size (R ∖ {[k]}))). split; [|done]. exists (R ∖ {[k]}). destruct (ischunk e) eqn:Ech; cbn [fst snd]; (split; [done|]; split; [done|]); (split; [|]); (by eapply collected_more || (eapply collected_same; [done| |done]; congruence)).
Qed.

Lemma collect_ok : Z.of_nat (size M) < 2 ^ 33 -> exists pages chunks, run_loop scan_fuel (collect_step t) ([], [], pagetable_start_iterate t) = Ok (pages, chunks) /\ collected false pages ∅ /\ collected true chunks ∅.
Proof.
  intros Hsz. destruct (run_loop_count (collect_step t) collect_inv (fun r => collected false r.1 ∅ /\ collected true r.2 ∅) scan_fuel (Z.of_nat (size M)) ([], [], pagetable_start_iterate t)) as ([pages chunks] & Hrun & H).
  - intros m s Hinv. destruct (collect_step_ok m s Hinv) as (r & Hr & Hcase). exists r. split; [done|]. by destruct r as [|[? ?]].
  - intros m s (R & -> & _). lia.
  - assert (Hnil : forall c, collected c [] (dom M)) by (intros c; split; [by intros p ?%not_elem_of_nil|]; split; [constructor|]; intros k e; split; [by intros ?%not_elem_of_nil|]; intros (Hk & _ & Hn); apply not_elem_of_dom in Hn; congruence). exists (dom M). cbn [fst snd]. split; [by rewrite size_dom|]. split; [rewrite <- Hm; by apply law_start|]. split; apply Hnil.
  - exact Hsz.
  - by exists pages, chunks.
Qed.

(** As many as the bitmap counts. *)
Lemma collected_length c l : collected c l ∅ -> Z.of_nat (length l) = cnt c M.
Proof.
  intros (_ & H2 & H3). unfold cnt. rewrite <- size_dom. assert (E : dom (filter (fun kv : Z * PageData => ischunk kv.2 = c) M) = list_to_set (fst ∘ entry_of t <$> l)).
  { apply set_eq. intros k. rewrite elem_of_list_to_set, elem_of_dom, list_elem_of_fmap. split.
    - intros [e He]. apply map_lookup_filter_Some in He as [Hk Hc]. assert (Hin : (k, e) ∈ entry_of t <$> l) by (apply H3; split; [done|]; split; [done|apply not_elem_of_empty]). apply list_elem_of_fmap in Hin as (p & Ep & Hp). exists p. cbn. by rewrite <- Ep.
    - intros (p & -> & Hp). cbn. assert (Hin : entry_of t p ∈ entry_of t <$> l) by (by apply list_elem_of_fmap_2). destruct (entry_of t p) as [k e]. apply H3 in Hin as (Hk & Hc & _). exists e. by apply map_lookup_filter_Some. }
  rewrite E, size_list_to_set, length_fmap by done. done.
Qed.

(** Sorting the pointers puts the entries in order. *)
Lemma collected_sorted qsort c l : qsort_sorts qsort -> collected c l ∅ -> let l' := if 1 <? Z.of_nat (length l) then qsort (ptr_comparator t) l else l in
  in_order M c (entry_of t <$> l') /\ length l' = length l /\ forall p, p ∈ l' -> pt_get t p = Ok (mkPTE (entry_of t p).1 (entry_of t p).2).
Proof.
  intros Hq Hcol l'. pose proof Hcol as (H1 & H2 & H3). destruct (Hq (ptr_comparator t) l) as [Hperm Hsort]. assert (Hp : l' ≡ₚ l) by (unfold l'; by destruct (1 <? _)).
  assert (Hs : StronglySorted (fun x y => (entry_of t x).1 <= (entry_of t y).1) l').
  { unfold l'. destruct (Z.ltb_spec 1 (Z.of_nat (length l))) as [Hlt|Hge].
    - apply (Hsort (fun p => (entry_of t p).1)). intros x y Hx Hy. unfold ptr_comparator. rewrite (H1 x Hx), (H1 y Hy). unfold tbm_comparator. cbn [pte_blockno]. repeat zcase; lia.
    - destruct l as [|x [|y l]]; [constructor|by repeat constructor|cbn in Hge; lia]. }
  split; [|split; [by rewrite Hp|intros p; rewrite Hp; apply H1]]. split.
  - intros i j k e k' e' Hi Hj Hlt. apply list_lookup_fmap_Some in Hi as (p & Ep & Hpi), Hj as (p' & Ep' & Hpj). assert (Hle : k <= k').
    { pose proof (sorted_lookup _ _ Hs i j p p' Hpi Hpj Hlt) as H. cbn in H. rewrite <- Ep, <- Ep' in H. done. }
    enough (k <> k') by lia. intros <-. assert (Hnd : NoDup (fst ∘ entry_of t <$> l')) by (by rewrite Hp). assert (i = j); [|lia]. apply (NoDup_lookup _ i j k Hnd); rewrite list_lookup_fmap; [rewrite Hpi|rewrite Hpj]; cbn; f_equal; [by rewrite <- Ep|by rewrite <- Ep'].
  - intros k e. rewrite Hp, H3. pose proof (not_elem_of_empty (C := gset Z) k). tauto.
Qed.
End Collect.

Lemma begin_iterate_ok qsort tbm M : qsort_sorts qsort -> rep tbm M -> map_ok M -> iterating tbm = TBM_NOT_ITERATING -> Z.of_nat (size M) < 2 ^ 31 ->
  exists tbm' pages chunks, tbm_begin_iterate qsort tbm = Ok (tbm', mkTBMIter 0 0 0) /\ ready tbm' M pages chunks /\ iter_at pages chunks (mkTBMIter 0 0 0) 0.
Proof.
  intros Hq Hrep Hok Hop Hsz.
  assert (Hstart : forall pages chunks, in_order M false pages -> in_order M true chunks -> iter_at pages chunks (mkTBMIter 0 0 0) 0).
  { intros pages chunks Hp Hc. split; cbn [spageptr schunkptr schunkbit]; [lia| |].
    - intros i k e Hi. rewrite decide_False by lia. destruct (page_at M pages Hok Hp _ _ _ Hi) as (_ & _ & Hs & _). apply (so_key _ _ Hs).
    - intros i c e j Hi Hj Hb. unfold bit_passed. cbn [schunkptr schunkbit]. destruct (chunk_at M chunks Hok Hc _ _ _ Hi) as (_ & _ & Hs & _). pose proof (so_key _ _ Hs) as [? _]. lia. }
  unfold tbm_begin_iterate. rewrite Hop. pose proof (rp_table _ _ Hrep) as Ht. destruct (tbm_status tbm) eqn:Es.
  - destruct Ht as [Hpt ->]. eexists _, [], []. assert (Hio : forall c, in_order ∅ c []) by (intros c; split; [done|]; intros k e; split; [by intros ?%not_elem_of_nil|by intros [? _]]). split; [done|]. split; [|by apply Hstart]. destruct Hrep as [P1 P2 P3 P4]. split; [by split|done|done|done|exact P3|exact P4|done|done].
  - destruct Ht as (Hpt & HM & Hnc). destruct (entry1 tbm) as [k e] eqn:Ee. cbn [pte_blockno pte_data] in *. assert (Hp : in_order M false [(k, e)]).
    { split; [intros i j a b c d Hi Hj Hlt; apply lookup_lt_Some in Hi, Hj; cbn in *; lia|]. intros k' e'. rewrite list_elem_of_singleton, HM, lookup_singleton_Some. split; [by intros [= -> ->]|]. by intros [[-> ->] _]. }
    assert (Hc : in_order M true []) by (split; [done|]; intros k' e'; split; [by intros ?%not_elem_of_nil|]; rewrite HM, lookup_singleton_Some; intros [[<- <-] ?]; congruence). assert (Hcnt : forall c, cnt c M = one_if c e) by (intros c; rewrite HM, <- insert_empty, cnt_new by apply lookup_empty; done).
    eexists _, [(k, e)], []. split; [done|]. split; [|by apply Hstart]. pose proof Hrep as [P1 P2 P3 P4]. split; cbn [set_lists npages nchunks tbm_status spages schunks entry1]; [split; [exact P1|done..]|done|done|done|rewrite P3, Hcnt; unfold one_if; by rewrite Hnc|rewrite P4, Hcnt; unfold one_if; by rewrite Hnc| |done].
    intros i k' e' Hi. rewrite Es, Ee. destruct i; [by injection Hi as <- <-|done].
  - destruct (rep_hash _ _ Hrep Es) as (t & Hpt & Htab & Htok & Hm). rewrite Htab, bind_val. destruct (collect_ok t M Htok Hm ltac:(lia)) as (pages & chunks & -> & Hp & Hc). rewrite bind_val. cbv beta iota zeta.
    pose proof (collected_length t M false pages Hp) as Hlp. pose proof (collected_length t M true chunks Hc) as Hlc. rewrite (rp_pages _ _ Hrep), (rp_chunks _ _ Hrep), Hlp, Hlc, !Z.ltb_irrefl. cbn [orb].
    destruct (collected_sorted t M qsort false pages Hq Hp) as (Sp1 & Sp2 & Sp3). destruct (collected_sorted t M qsort true chunks Hq Hc) as (Sc1 & Sc2 & Sc3). rewrite Hlp in Sp1, Sp2, Sp3. rewrite Hlc in Sc1, Sc2, Sc3.
    eexists _, _, _. split; [done|]. split; [|by apply Hstart; [exact Sp1|exact Sc1]]. set (pl := if 1 <? cnt false M then _ else _) in *. set (cl := if 1 <? cnt true M then _ else _) in *. pose proof Hrep as [P1 P2 P3 P4].
    assert (Hget : forall l (i : nat) k e, (forall p, p ∈ l -> pt_get t p = Ok (mkPTE (entry_of t p).1 (entry_of t p).2)) -> (entry_of t <$> l) !! i = Some (k, e) -> list_entry tbm (Some l) (Z.of_nat i) = Ok (mkPTE k e)).
    { intros l i k e Hl Hi. apply list_lookup_fmap_Some in Hi as (p & Ep & Hpi). unfold list_entry. assert (E : aget l (Z.of_nat i) = Ok p) by (apply aget_Ok; rewrite Nat2Z.id; split; [lia|done]). rewrite E, bind_val, Htab, bind_val, Hl by (by eapply list_elem_of_lookup_2). by rewrite <- Ep. }
    split; cbn [set_lists npages nchunks tbm_status spages schunks]; [split; [exact P1|done..]|done|exact Sp1|exact Sc1|rewrite length_fmap, Sp2, Hlp; done|rewrite length_fmap, Sc2, Hlc; done| |].
    + intros i k e Hi. rewrite Es. by apply Hget.
    + intros i k e Hi. rewrite Es. split; [done|]. by apply Hget.
Qed.
End Iterate.
