(* ===== verification/TidBitmapSpec.v ===== *)
(** What tuple bitmaps promise: the tuples of any combination of bitmaps are found by iterating over
    the result, in order, and those returned without recheck are exactly right; memory stays bounded;
    and the posting lists of GIN can be read into a bitmap. *)
From S2P Require Import Prelude ByteMem Loop Hashfn SimpleHash GinPosting GinCodec GinPostingSpec TidBitmap TidBitmapMap TidBitmapBits TidBitmapTable TidBitmapRep TidBitmapLossify TidBitmapAdd TidBitmapUnion TidBitmapIntersect TidBitmapIter.

(** ** Combinations of bitmaps *)
(** How bitmap scans build a bitmap. *)
Inductive bitmap_expr :=
  | Create (maxbytes : Z)
  | AddTuples (e : bitmap_expr) (tids : list ItemPointerData) (recheck : bool)
  | AddPage (e : bitmap_expr) (b : Z)
  | Union (e1 e2 : bitmap_expr)
  | Intersect (e1 e2 : bitmap_expr).

(** A set of tuples the combination may stand for: all tuples added without recheck, any of those
    added with recheck, and any of the tuples of a page added as a whole. *)
Inductive denotes : bitmap_expr -> (Z -> Z -> Prop) -> Prop :=
  | denotes_create maxbytes : denotes (Create maxbytes) (fun _ _ => False)
  | denotes_tuples e S tids recheck X : denotes e S -> matches tids recheck X -> denotes (AddTuples e tids recheck) (fun b o => S b o \/ X b o)
  | denotes_page e S b X : denotes e S -> (forall b' o, X b' o -> b' = b) -> denotes (AddPage e b) (fun b' o => S b' o \/ X b' o)
  | denotes_union e1 e2 S1 S2 : denotes e1 S1 -> denotes e2 S2 -> denotes (Union e1 e2) (fun b o => S1 b o \/ S2 b o)
  | denotes_intersect e1 e2 S1 S2 : denotes e1 S1 -> denotes e2 S2 -> denotes (Intersect e1 e2) (fun b o => S1 b o /\ S2 b o).

(** The blocks that can be reported. *)
Fixpoint candidate (e : bitmap_expr) (b : Z) : Prop :=
  match e with
  | Create _ => False
  | AddTuples e tids _ => candidate e b \/ exists o, mkItemPointer b o ∈ tids
  | AddPage e b' => candidate e b \/ b = b'
  | Union e1 e2 => candidate e1 b \/ candidate e2 b
  | Intersect e1 e2 => candidate e1 b /\ candidate e2 b
  end.
Fixpoint expr_ok (e : bitmap_expr) : Prop :=
  match e with
  | Create _ => True
  | AddTuples e tids _ => expr_ok e /\ Forall tid_ok tids /\ Forall off_ok tids
  | AddPage e b => expr_ok e /\ is_u 32 b
  | Union e1 e2 | Intersect e1 e2 => expr_ok e1 /\ expr_ok e2
  end.
(** At most so many entries. *)
Fixpoint weight (e : bitmap_expr) : nat :=
  match e with
  | Create _ => 0
  | AddTuples e tids _ => weight e + length tids
  | AddPage e _ => weight e + 1
  | Union e1 e2 | Intersect e1 e2 => weight e1 + weight e2
  end.

Lemma denotes_some e : exists S, denotes e S.
Proof.
  induction e as [mb|e [S HS] tids recheck|e [S HS] b|e1 [S1 H1] e2 [S2 H2]|e1 [S1 H1] e2 [S2 H2]]; eexists.
  - constructor.
  - apply denotes_tuples with (X := fun b o => mkItemPointer b o ∈ tids); [done|]. split; [done|]. by intros _ [b o].
  - by apply denotes_page with (X := fun b' o => b' = b).
  - by constructor.
  - by constructor.
Qed.

Section Spec.
Context {T I : Type} {OP : PageTableOps T I} {LAWS : PageTableLaws T I}.
Notation bitmap := (TIDBitmap T).
Implicit Types (tbm : bitmap) (M : tmap).

Fixpoint eval (e : bitmap_expr) : res bitmap :=
  match e with
  | Create maxbytes => Ok (tbm_create maxbytes)
  | AddTuples e tids recheck => tbm ← eval e; tbm_add_tuples tbm tids recheck
  | AddPage e b => tbm ← eval e; tbm_add_page tbm b
  | Union e1 e2 => a ← eval e1; b ← eval e2; tbm_union a b
  | Intersect e1 e2 => a ← eval e1; b ← eval e2; tbm_intersect a b
  end.

Lemma map_ok_empty : map_ok ∅.
Proof. split; [done|done|]. intros b Hl. unfold lossy in Hl. by rewrite lookup_empty in Hl. Qed.

Lemma create_ok maxbytes : bitmap_ok (tbm_create maxbytes) ∅ (fun _ _ => False) (fun _ => False).
Proof.
  split; [by split|exact map_ok_empty| |done|].
  - split; [done|by intros b o (e & He & _)|]. intros b [Hl|Hs]; [unfold lossy in Hl; by rewrite lookup_empty in Hl|unfold exact_page in Hs; rewrite lookup_empty in Hs; by destruct Hs].
  - cbn [tbm_create maxentries]. unfold tbm_calculate_entries. rewrite wrap_count; lia.
Qed.

Lemma eval_ok e : expr_ok e -> Z.of_nat (weight e) <= pt_limit -> forall S, denotes e S -> exists tbm M, eval e = Ok tbm /\ bitmap_ok tbm M S (candidate e) /\ (size M <= weight e)%nat.
Proof.
  intros Hok Hw S HS. induction HS as [mb|e S tids recheck X HS IH HX|e S b X HS IH HX|e1 e2 S1 S2 H1 IH1 H2 IH2|e1 e2 S1 S2 H1 IH1 H2 IH2]; cbn [expr_ok weight eval candidate] in *.
  - eexists _, ∅. split; [done|]. split; [apply create_ok|by rewrite map_size_empty].
  - destruct Hok as (Hok & Ht & Ho). destruct (IH Hok ltac:(lia)) as (tbm & M & -> & Hbm & Hsz). rewrite bind_val. pose proof (add_tuples_ok tids recheck Ht X HX tbm M S (candidate e) InvalidBlock None Hbm ltac:(by left) ltac:(lia)) as H. rewrite decide_True in H by done. destruct H as (tbm' & Hrun & M' & Hbm' & Hsz'). exists tbm', M'. split; [done|]. split; [done|lia].
  - destruct Hok as (Hok & Hb). destruct (IH Hok ltac:(lia)) as (tbm & M & -> & Hbm & Hsz). rewrite bind_val. destruct (add_page_ok tbm M S (candidate e) b X Hbm Hb ltac:(lia) HX) as (tbm' & Hrun & M' & Hbm' & Hsz'). exists tbm', M'. split; [done|]. split; [done|lia].
  - destruct Hok as (Hok1 & Hok2). destruct (IH1 Hok1 ltac:(lia)) as (a & Ma & -> & Ha & Hsa). destruct (IH2 Hok2 ltac:(lia)) as (b & Mb & -> & [B1 B2 B3 _ _] & Hsb). rewrite !bind_val. destruct (tbm_union_ok a b Ma Mb S1 S2 (candidate e1) (candidate e2) Ha B1 B2 B3 ltac:(lia)) as (tbm' & Hrun & M' & Hbm' & Hsz'). exists tbm', M'. split; [done|]. split; [done|lia].
  - destruct Hok as (Hok1 & Hok2). destruct (IH1 Hok1 ltac:(lia)) as (a & Ma & -> & Ha & Hsa). destruct (IH2 Hok2 ltac:(lia)) as (b & Mb & -> & [B1 B2 B3 _ _] & Hsb). rewrite !bind_val. destruct (intersect_ok a b Ma Mb S1 S2 (candidate e1) (candidate e2) Ha B1 B2 B3 ltac:(lia)) as (tbm' & Hrun & M' & Hbm' & Hsz'). exists tbm', M'. split; [done|]. split; [done|lia].
Qed.

Lemma rep_unique tbm M M' : rep tbm M -> rep tbm M' -> M = M'.
Proof.
  intros [H _ _ _] [H' _ _ _]. destruct (tbm_status tbm); [by destruct H as [_ ->], H' as [_ ->]|by destruct H as (_ & -> & _), H' as (_ & -> & _)|]. destruct H as (t & Ht & _ & <-), H' as (t' & Ht' & _ & <-). congruence.
Qed.

(** Every entry reports something. *)
Lemma empty_reported M : map_ok M -> M = ∅ <-> forall b, ~ reported M b.
Proof.
  intros Hok. split.
  - intros -> b [Hl|Hs]; [unfold lossy in Hl; by rewrite lookup_empty in Hl|unfold exact_page in Hs; rewrite lookup_empty in Hs; by destruct Hs].
  - intros Hno. apply map_empty. intros k. destruct (M !! k) as [e|] eqn:Ek; [|done]. exfalso. destruct (ischunk e) eqn:Ech.
    + destruct (mo_nonempty _ Hok _ _ Ek) as (i & Hi & Hb). unfold limit_of in Hi. rewrite Ech, chunk_size in Hi. pose proof (so_chunk _ _ (mo_shape _ Hok _ _ Ek) Ech) as H0. rewrite chunk_size in H0. apply (Hno (k + i)). left. unfold lossy, header. rewrite chunk_size.
      replace ((k + i) `mod` 256) with i by (apply (Z.mod_unique _ 256 (k / 256)); [lia|]; pose proof (Z.div_mod k 256 ltac:(lia)); lia). replace (k + i - i) with k by lia. by rewrite Ek, Ech.
    + apply (Hno k). right. unfold exact_page. rewrite Ek, Ech. done.
Qed.

(** C23. A bitmap built by adding tuples and pages, by unions and by intersections, and then iterated over
    until nothing is returned: the blocks come in ascending order, each once, and only blocks that
    can hold tuples of the result; the offsets of a block come in ascending order and fit the result.
    No tuple is lost: whatever set the combination stands for, the block of each tuple is returned,
    with its offset or as a whole.  What is returned without recheck is in the set. *)
Theorem tbm_scan qsort e : qsort_sorts qsort -> expr_ok e -> Z.of_nat (weight e) <= pt_limit ->
  exists tbm tbm' it outs, eval e = Ok tbm /\ tbm_begin_iterate qsort tbm = Ok (tbm', it) /\ yields tbm' it outs /\
    StronglySorted Z.lt (out_blockno <$> outs) /\ tbm_is_empty tbm = bool_decide (outs = []) /\
    (forall out, out ∈ outs -> candidate e (out_blockno out) /\
       (out_ntuples out = -1 /\ out_recheck out = true \/ out_ntuples out = Z.of_nat (length (out_offsets out)) /\ 0 < out_ntuples out <= MAX_TUPLES_PER_PAGE /\ StronglySorted Z.lt (out_offsets out))) /\
    forall S, denotes e S ->
      (forall b o, S b o -> exists out, out ∈ outs /\ out_blockno out = b /\ (out_ntuples out = -1 \/ o ∈ out_offsets out)) /\
      (forall out o, out ∈ outs -> out_recheck out = false -> o ∈ out_offsets out -> S (out_blockno out) o).
Proof.
  intros Hq Hok Hw. pose proof law_limit as Hll. destruct (denotes_some e) as [S0 HS0]. destruct (eval_ok e Hok Hw S0 HS0) as (tbm & M & Hrun & [Hrep Hmok HR Hop Hmx] & Hsz).
  destruct (begin_iterate_ok qsort tbm M Hq Hrep Hmok Hop ltac:(lia)) as (tbm' & pages & chunks & Hbegin & Hready & Hat). destruct (yields_ok tbm' M pages chunks Hready (Z.to_nat (2 ^ 32)) 0 (mkTBMIter 0 0 0) ltac:(lia) ltac:(lia) Hat) as (outs & Hy & Hs & Hmem & Hall). rewrite Forall_forall in Hall.
  assert (Hrange : forall b, reported M b -> 0 <= b) by (intros b Hb; by apply (reported_range tbm' M pages chunks Hready) in Hb as [? _]).
  exists tbm, tbm', (mkTBMIter 0 0 0), outs. split; [done|]. split; [done|]. split; [done|]. split; [done|]. split; [|split].
  - unfold tbm_is_empty. rewrite (rp_entries _ _ Hrep). apply eq_true_iff_eq. rewrite Z.eqb_eq, bool_decide_eq_true. transitivity (M = ∅); [rewrite <- map_size_empty_iff; lia|]. rewrite (empty_reported M Hmok). split.
    + intros Hno. destruct outs as [|out outs]; [done|]. exfalso. apply (Hno (out_blockno out)). apply Hmem. by left.
    + intros -> b Hb. pose proof (Hrange b Hb) as H0. pose proof (proj2 (Hmem b) (conj Hb H0)) as Hin. by apply not_elem_of_nil in Hin.
  - intros out Hout. split.
    + apply (re_blocks _ _ _ HR). apply (Hmem (out_blockno out)). by apply list_elem_of_fmap_2.
    + destruct (Hall out Hout) as [(_ & H1 & H2)|(d & _ & H1 & H2 & _ & H3 & _)]; [by left|by right].
  - intros S HS. destruct (eval_ok e Hok Hw S HS) as (tbm2 & M2 & Hrun2 & [Hrep2 _ HR2 _ _] & _). rewrite Hrun in Hrun2. injection Hrun2 as <-. rewrite <- (rep_unique _ _ _ Hrep Hrep2) in HR2. destruct HR2 as [R1 R2 _]. split.
    + intros b o Hbo. pose proof (R1 b o Hbo) as Hrep_b. assert (Hb : reported M b) by (destruct Hrep_b as [?|(d & Hd & _)]; [by left|right; by exists d]). pose proof (proj2 (Hmem b) (conj Hb (Hrange b Hb))) as Hin. apply list_elem_of_fmap in Hin as (out & Eb & Hout). exists out. split; [done|]. split; [done|]. subst b.
      destruct (Hall out Hout) as [(_ & H1 & _)|(d & Hd & _ & _ & _ & _ & Ho)]; [by left|]. right. apply Ho. destruct Hrep_b as [Hl|(d' & Hd' & Hr & Hbit)]; [by rewrite (mo_apart _ Hmok _ Hl) in Hd|]. rewrite Hd in Hd'. by injection Hd' as <-.
    + intros out o Hout Hrc Ho. apply R2. destruct (Hall out Hout) as [(_ & _ & H2)|(d & Hd & _ & _ & H2 & _ & Hmo)]; [congruence|]. exists d. destruct (proj1 (Hmo o) Ho) as [Ho1 Ho2]. split; [done|]. split; [done|]. split; [done|]. congruence.
Qed.

(** ** Adding tuples *)
(** C24. Adding tuples to a bitmap that stands for a set adds them to the set, whether their pages are
    remembered exactly, share the entry of a chunk, or are lossy already, and whatever is given up on
    the way to save memory.  An offset that no heap page can have is an error. *)
Theorem tbm_add_tuples_spec tbm M S P tids recheck X : bitmap_ok tbm M S P -> Forall tid_ok tids -> matches tids recheck X -> Z.of_nat (size M) + Z.of_nat (length tids) <= pt_limit ->
  if decide (Forall off_ok tids) then
    exists tbm' M', tbm_add_tuples tbm tids recheck = Ok tbm' /\ bitmap_ok tbm' M' (fun b o => S b o \/ X b o) (fun b => P b \/ exists o, mkItemPointer b o ∈ tids)
  else tbm_add_tuples tbm tids recheck = Err "tuple offset out of range".
Proof.
  intros Hok Ht HX Hsz. pose proof (add_tuples_ok tids recheck Ht X HX tbm M S P InvalidBlock None Hok ltac:(by left) Hsz) as H. destruct (decide (Forall off_ok tids)); [|done]. destruct H as (tbm' & Hrun & M' & Hok' & _). by exists tbm', M'.
Qed.


(** ** Posting lists *)
(** C26. The segments of GIN posting lists, each compressed from an ascending array of item pointers,
    stored one after the other and decoded into a bitmap: the bitmap stands for its old tuples and
    exactly the items of all arrays, and the number of items is returned. *)
Theorem posting_segments_to_tbm ipds ss tbm M S P : ss <> [] ->
  Forall2 (fun ipd s => list_ok ipd /\ exists maxsize block buf, 0 <= maxsize < 2 ^ 31 /\ OffsetOfBytes < SHORTALIGN_DOWN maxsize < 2 ^ 16 /\ SHORTALIGN_DOWN maxsize <= lenZ block /\
    lenZ buf = MaxBytesPerInteger /\ ginCompressPostingList ipd maxsize block buf = Ok (s, lenZ ipd)) ipds ss ->
  bitmap_ok tbm M S P -> Forall tid_ok (concat ipds) -> Forall off_ok (concat ipds) -> Z.of_nat (size M) + lenZ (concat ipds) <= pt_limit ->
  exists tbm' M', ginPostingListDecodeAllSegmentsToTbm (concat (map trim ss)) 0 (lenZ (concat (map trim ss))) tbm = Ok (tbm', lenZ (concat ipds)) /\
    bitmap_ok tbm' M' (fun b o => S b o \/ mkItemPointer b o ∈ concat ipds) (fun b => P b \/ exists o, mkItemPointer b o ∈ concat ipds).
Proof.
  intros Hne Hall Hok Ht Ho Hsz. unfold ginPostingListDecodeAllSegmentsToTbm. rewrite (posting_segments ipds ss Hne Hall), bind_val. unfold lenZ in Hsz.
  pose proof (add_tuples_ok (concat ipds) false Ht (fun b o => mkItemPointer b o ∈ concat ipds) ltac:(split; [done|by intros _ [b o]]) tbm M S P InvalidBlock None Hok ltac:(by left) Hsz) as H. rewrite decide_True in H by done. destruct H as (tbm' & Hrun & M' & Hok' & _).
  exists tbm', M'. unfold tbm_add_tuples. by rewrite Hrun, bind_val.
Qed.
End Spec.

(** ** Witnesses *)
(** An insertion sort that meets the requirement on [qsort]. *)
Fixpoint ptr_insert (cmp : Z -> Z -> Z) (x : Z) (l : list Z) : list Z :=
  match l with
  | [] => [x]
  | y :: l' => if cmp x y <=? 0 then x :: l else y :: ptr_insert cmp x l'
  end.
Definition ptr_sort : qsort_ptrs := fun cmp l => foldr (ptr_insert cmp) [] l.

Lemma ptr_insert_perm cmp x l : ptr_insert cmp x l ≡ₚ x :: l.
Proof. induction l as [|y l IH]; cbn; [done|]. zcase; [done|]. rewrite IH. apply perm_swap. Qed.
Lemma ptr_sort_perm cmp l : ptr_sort cmp l ≡ₚ l.
Proof. induction l as [|x l IH]; cbn; [done|]. rewrite ptr_insert_perm. by constructor. Qed.

Lemma ptr_sort_sorts : qsort_sorts ptr_sort.
Proof.
  intros cmp l. split; [apply ptr_sort_perm|]. intros key. induction l as [|x l IH]; intros Hk; cbn; [constructor|]. assert (Hs : StronglySorted (fun x y => key x <= key y) (ptr_sort cmp l)) by (apply IH; intros a b Ha Hb; apply Hk; by right).
  assert (Hx : forall y, y ∈ ptr_sort cmp l -> (key x < key y -> cmp x y < 0) /\ (key y < key x -> 0 < cmp x y)) by (intros y Hy; rewrite ptr_sort_perm in Hy; apply Hk; [by left|by right]). clear IH Hk. fold (ptr_sort cmp l). induction Hs as [|y l' Hs IH Hy]; cbn; [repeat constructor|].
  destruct (Hx y ltac:(by left)) as [H1 H2]. destruct (Z.leb_spec (cmp x y) 0).
  - constructor; [by constructor|]. rewrite Forall_forall in Hy |- *. intros z [->|Hz]%elem_of_cons; [lia|]. specialize (Hy z Hz). lia.
  - constructor; [apply IH; intros z Hz; apply Hx; by right|]. rewrite ptr_insert_perm. constructor; [lia|done].
Qed.

Ltac solve_tids :=
  repeat match goal with
  | |- _ /\ _ => split
  | |- Forall _ _ => constructor
  | |- tid_ok _ => unfold tid_ok, is_u, InvalidBlock; cbn
  | |- off_ok _ => unfold off_ok; rewrite page_size; cbn
  end; unfold is_u; (done || lia).

Local Notation table := (SH_TYPE Z PageData).
Definition ex_tids : list ItemPointerData := [mkItemPointer 3 7; mkItemPointer 3 9; mkItemPointer 300 1; mkItemPointer 301 1].
Definition ex_tids2 : list ItemPointerData := [mkItemPointer 300 1; mkItemPointer 300 2; mkItemPointer 512 4].
Definition ex_expr : bitmap_expr := Intersect (Union (AddTuples (Create 65536) ex_tids false) (AddPage (Create 0) 512)) (AddTuples (AddPage (Create 0) 3) ex_tids2 true).
Definition ex_set (b o : Z) : Prop := ((False \/ mkItemPointer b o ∈ ex_tids) \/ (False \/ False)) /\ ((False \/ False) \/ mkItemPointer b o ∈ ex_tids2).

Lemma ex_expr_ok : expr_ok ex_expr.
Proof. cbn. unfold ex_tids, ex_tids2. solve_tids. Qed.

Lemma ex_matches tids recheck : matches tids recheck (fun b o => mkItemPointer b o ∈ tids).
Proof. split; [done|]. by intros _ [b o]. Qed.

Lemma ex_denotes : denotes ex_expr ex_set.
Proof.
  assert (Hpage : forall n b, denotes (AddPage (Create n) b) (fun _ _ => False \/ False)) by (intros n b; apply (denotes_page _ (fun _ _ => False) b (fun _ _ => False)); [apply denotes_create|intros b' o Hf; destruct Hf]).
  refine (denotes_intersect _ _ (fun b o => (False \/ mkItemPointer b o ∈ ex_tids) \/ (False \/ False)) (fun b o => (False \/ False) \/ mkItemPointer b o ∈ ex_tids2) _ _).
  - refine (denotes_union _ _ (fun b o => False \/ mkItemPointer b o ∈ ex_tids) (fun b o => False \/ False) _ (Hpage _ _)). exact (denotes_tuples _ _ _ _ _ (denotes_create _) (ex_matches _ _)).
  - exact (denotes_tuples _ _ _ _ _ (Hpage _ _) (ex_matches _ _)).
Qed.

Lemma tbm_scan_witness : exists (tbm tbm' : TIDBitmap table) it outs, eval ex_expr = Ok tbm /\ tbm_begin_iterate ptr_sort tbm = Ok (tbm', it) /\ yields tbm' it outs /\
  exists out, out ∈ outs /\ out_blockno out = 300 /\ (out_ntuples out = -1 \/ 1 ∈ out_offsets out).
Proof.
  destruct (tbm_scan (T := table) (I := SH_ITERATOR) ptr_sort ex_expr ptr_sort_sorts ex_expr_ok) as (tbm & tbm' & it & outs & H1 & H2 & H3 & _ & _ & _ & HS); [by vm_compute|]. exists tbm, tbm', it, outs. split; [done|]. split; [done|]. split; [done|].
  destruct (HS _ ex_denotes) as [Hall _]. apply Hall. split; [left; right|right]; unfold ex_tids, ex_tids2; rewrite !elem_of_cons; tauto.
Defined.

Lemma tbm_add_tuples_spec_witness : exists (tbm : TIDBitmap table) M, tbm_add_tuples (tbm_create 0) [mkItemPointer 3 7; mkItemPointer 5 291] false = Ok tbm /\ bitmap_ok tbm M (fun b o => False \/ mkItemPointer b o ∈ [mkItemPointer 3 7; mkItemPointer 5 291]) (fun b => False \/ exists o, mkItemPointer b o ∈ [mkItemPointer 3 7; mkItemPointer 5 291]).
Proof.
  pose proof (tbm_add_tuples_spec (tbm_create 0 : TIDBitmap table) ∅ (fun _ _ => False) (fun _ => False) [mkItemPointer 3 7; mkItemPointer 5 291] false (fun b o => mkItemPointer b o ∈ [mkItemPointer 3 7; mkItemPointer 5 291])) as H.
  rewrite decide_True in H by solve_tids. apply H; [apply create_ok|solve_tids|apply ex_matches|by vm_compute].
Defined.

Definition ex_pages : bitmap_expr := AddPage (AddTuples (Create 0) [mkItemPointer 3 7; mkItemPointer 5 291] false) 900.

Lemma posting_segments_to_tbm_witness : exists s1 s2 (tbm : TIDBitmap table), ginCompressPostingList ex_ipd 40 (repeat 255 40) (repeat 255 7) = Ok (s1, 4) /\ ginCompressPostingList ex_ipd2 384 (repeat 255 384) (repeat 255 7) = Ok (s2, 3) /\
  ginPostingListDecodeAllSegmentsToTbm (trim s1 ++ trim s2) 0 (lenZ (trim s1 ++ trim s2)) (tbm_create 0) = Ok (tbm, 7).
Proof.
  destruct (ginCompressPostingList ex_ipd 40 (repeat 255 40) (repeat 255 7)) as [[s1 n1]| | |] eqn:E1; [|vm_compute in E1; discriminate E1..].
  destruct (ginCompressPostingList ex_ipd2 384 (repeat 255 384) (repeat 255 7)) as [[s2 n2]| | |] eqn:E2; [|vm_compute in E2; discriminate E2..].
  assert (n1 = 4) as -> by (vm_compute in E1; by injection E1 as _ <-). assert (n2 = 3) as -> by (vm_compute in E2; by injection E2 as _ <-).
  destruct (posting_segments_to_tbm [ex_ipd; ex_ipd2] [s1; s2] (tbm_create 0 : TIDBitmap table) ∅ (fun _ _ => False) (fun _ => False)) as (tbm & M & Hrun & _); [done| |apply create_ok|cbn; solve_tids|cbn; solve_tids|by vm_compute|].
  - constructor; [|constructor; [|constructor]]; (split; [apply ex_ipd_ok|]).
    + exists 40, (repeat 255 40), (repeat 255 7). split_and!; try done; by vm_compute.
    + exists 384, (repeat 255 384), (repeat 255 7). split_and!; try done; by vm_compute.
  - exists s1, s2, tbm. split; [done|]. split; [done|]. cbn [map concat] in Hrun. rewrite app_nil_r in Hrun. exact Hrun.
Defined.
