(* ===== verification/FsmPage.v ===== *)
(** One page of the free space map: src/pg-src/src/backend/storage/freespace/fsmpage.c.

    A page holds a binary tree in an array of bytes: the first [NonLeafNodesPerPage]
    nodes are inner nodes, each the maximum of its children, the rest are the slots.
    The last inner nodes have one child or none, because the page header takes some
    room.  The sizes are those of the default 8 kB block.

    Array accesses are checked, so a result [Ok] also says that no access leaves the
    page.  The climbing and descending loops run on fuel: a tree of 13 levels needs at
    most 13 iterations, and a search restarts at most once. *)

From S2P Require Import Prelude Bits.

(** [offsetof(FSMPageData, fp_nodes)] is 4. *)
Definition NodesPerPage : Z := BLCKSZ - SizeOfPageHeaderData - 4.
Definition NonLeafNodesPerPage : Z := BLCKSZ / 2 - 1.
Definition LeafNodesPerPage : Z := NodesPerPage - NonLeafNodesPerPage.
Definition SlotsPerFSMPage : Z := LeafNodesPerPage.

Record FSMPageData := { fp_next_slot : Z; fp_nodes : list Z }.

Definition leftchild (x : Z) : Z := 2 * x + 1.
Definition rightchild (x : Z) : Z := 2 * x + 2.
(** C's division truncates. *)
Definition parentof (x : Z) : Z := (x - 1) `quot` 2.

Definition rightneighbor (x : Z) : Z :=
  let x := x + 1 in
  if Z.land (x + 1) x =? 0 then parentof x else x.

(** ** [fsm_rebuild_page] *)

(** The new value of an inner node: the larger of the children that exist. *)
Definition rebuilt_value (nodes : list Z) (nodeno : Z) : res Z :=
  let lchild := leftchild nodeno in
  let rchild := lchild + 1 in
  newvalue ← (if lchild <? NodesPerPage then aget nodes lchild else Ok 0);
  if rchild <? NodesPerPage then r ← aget nodes rchild; Ok (Z.max newvalue r) else Ok newvalue.

(** [for (nodeno = n - 1; nodeno >= 0; nodeno--)] *)
Fixpoint rebuild_loop (n : nat) (nodes : list Z) (changed : bool) : res (list Z * bool) :=
  match n with
  | O => Ok (nodes, changed)
  | S n =>
    newvalue ← rebuilt_value nodes (Z.of_nat n);
    old ← aget nodes (Z.of_nat n);
    if negb (old =? newvalue) then
      nodes ← aset nodes (Z.of_nat n) newvalue;
      rebuild_loop n nodes true
    else rebuild_loop n nodes changed
  end.

Definition fsm_rebuild_page (page : FSMPageData) : res (FSMPageData * bool) :=
  '(nodes, changed) ← rebuild_loop (Z.to_nat NonLeafNodesPerPage) (fp_nodes page) false;
  Ok ({| fp_next_slot := fp_next_slot page; fp_nodes := nodes |}, changed).

(** ** [fsm_set_avail] *)

(** The [do ... while (nodeno > 0)] loop; the left child is read without a check. *)
Fixpoint propagate_loop (fuel : nat) (nodes : list Z) (nodeno : Z) : res (list Z) :=
  match fuel with
  | O => OutOfFuel
  | S f =>
    let nodeno := parentof nodeno in
    let lchild := leftchild nodeno in
    let rchild := lchild + 1 in
    newvalue ← aget nodes lchild;
    newvalue ← (if rchild <? NodesPerPage then r ← aget nodes rchild; Ok (Z.max newvalue r) else Ok newvalue);
    oldvalue ← aget nodes nodeno;
    if oldvalue =? newvalue then Ok nodes
    else
      nodes ← aset nodes nodeno newvalue;
      if 0 <? nodeno then propagate_loop f nodes nodeno else Ok nodes
  end.

Definition fsm_set_avail (page : FSMPageData) (slot value : Z) : res (FSMPageData * bool) :=
  let nodeno := NonLeafNodesPerPage + slot in
  oldvalue ← aget (fp_nodes page) nodeno;
  root ← aget (fp_nodes page) 0;
  if (oldvalue =? value) && (value <=? root) then Ok (page, false)
  else
    nodes ← aset (fp_nodes page) nodeno value;
    nodes ← propagate_loop 13 nodes nodeno;
    let page := {| fp_next_slot := fp_next_slot page; fp_nodes := nodes |} in
    root ← aget nodes 0;
    if root <? value then '(page, _) ← fsm_rebuild_page page; Ok (page, true)
    else Ok (page, true).

Definition fsm_get_avail (page : FSMPageData) (slot : Z) : res Z :=
  aget (fp_nodes page) (NonLeafNodesPerPage + slot).

Definition fsm_get_max_avail (page : FSMPageData) : res Z := aget (fp_nodes page) 0.

(** ** [fsm_search_avail] *)

(** Climb: [while (nodeno > 0)]. *)
Fixpoint climb_loop (fuel : nat) (nodes : list Z) (minvalue nodeno : Z) : res Z :=
  match fuel with
  | O => OutOfFuel
  | S f =>
    if 0 <? nodeno then
      v ← aget nodes nodeno;
      if minvalue <=? v then Ok nodeno
      else climb_loop f nodes minvalue (parentof (rightneighbor nodeno))
    else Ok nodeno
  end.

(** Descend: [while (nodeno < NonLeafNodesPerPage)]; [None] is the branch that found
    the page corrupt. *)
Fixpoint descend_loop (fuel : nat) (nodes : list Z) (minvalue nodeno : Z) : res (option Z) :=
  match fuel with
  | O => OutOfFuel
  | S f =>
    if nodeno <? NonLeafNodesPerPage then
      let childnodeno := leftchild nodeno in
      left_ok ← (if childnodeno <? NodesPerPage
                 then v ← aget nodes childnodeno; Ok (minvalue <=? v) else Ok false);
      if (left_ok : bool) then descend_loop f nodes minvalue childnodeno
      else
        let childnodeno := childnodeno + 1 in
        right_ok ← (if childnodeno <? NodesPerPage
                    then v ← aget nodes childnodeno; Ok (minvalue <=? v) else Ok false);
        if (right_ok : bool) then descend_loop f nodes minvalue childnodeno else Ok None
    else Ok (Some nodeno)
  end.

(** The body from the label [restart].  [relock] is what other backends do to the page
    while the lock is released and taken again in exclusive mode; the returned flag says
    whether the page was marked dirty. *)
Fixpoint search_restart (fuel : nat) (relock : FSMPageData -> FSMPageData) (page : FSMPageData)
    (minvalue : Z) (advancenext exclusive_lock_held dirty : bool) : res (FSMPageData * Z * bool) :=
  match fuel with
  | O => OutOfFuel
  | S f =>
    root ← aget (fp_nodes page) 0;
    if root <? minvalue then Ok (page, -1, dirty)
    else
      let target := fp_next_slot page in
      let target := if (target <? 0) || (LeafNodesPerPage <=? target) then 0 else target in
      nodeno ← climb_loop 14 (fp_nodes page) minvalue (target + NonLeafNodesPerPage);
      leaf ← descend_loop 14 (fp_nodes page) minvalue nodeno;
      match leaf with
      | None =>
        let page := if exclusive_lock_held then page else relock page in
        '(page, _) ← fsm_rebuild_page page;
        search_restart f relock page minvalue advancenext true true
      | Some nodeno =>
        let slot := u16 (nodeno - NonLeafNodesPerPage) in
        Ok ({| fp_next_slot := slot + (if advancenext then 1 else 0); fp_nodes := fp_nodes page |}, slot, dirty)
      end
  end.

Definition fsm_search_avail (relock : FSMPageData -> FSMPageData) (page : FSMPageData)
    (minvalue : Z) (advancenext exclusive_lock_held : bool) : res (FSMPageData * Z * bool) :=
  search_restart 2 relock page minvalue advancenext exclusive_lock_held false.

(** ** [fsm_truncate_avail] *)

(** [for (; ptr < &fp_nodes[NodesPerPage]; ptr++)], [n] bytes from index [i]. *)
Fixpoint clear_loop (n : nat) (nodes : list Z) (i : Z) (changed : bool) : res (list Z * bool) :=
  match n with
  | O => Ok (nodes, changed)
  | S n =>
    v ← aget nodes i;
    nodes ← aset nodes i 0;
    clear_loop n nodes (i + 1) (changed || negb (v =? 0))
  end.

Definition fsm_truncate_avail (page : FSMPageData) (nslots : Z) : res (FSMPageData * bool) :=
  '(nodes, changed) ← clear_loop (Z.to_nat (NodesPerPage - (NonLeafNodesPerPage + nslots)))
                        (fp_nodes page) (NonLeafNodesPerPage + nslots) false;
  let page := {| fp_next_slot := fp_next_slot page; fp_nodes := nodes |} in
  if (changed : bool) then '(page, _) ← fsm_rebuild_page page; Ok (page, changed)
  else Ok (page, changed).

(** ** The invariant *)

(** A page of the right shape, whatever its contents (it may be torn). *)
Definition page_shape (page : FSMPageData) : Prop :=
  Z.of_nat (length (fp_nodes page)) = NodesPerPage /\ Forall (is_u 8) (fp_nodes page).

(** The inner node [k] has the right value; a missing child counts as 0. *)
Definition node_ok (nodes : list Z) (k : Z) : Prop :=
  nthZ nodes k = Z.max (nthZ nodes (leftchild k)) (nthZ nodes (rightchild k)).
Definition heap (nodes : list Z) : Prop := forall k, 0 <= k < NonLeafNodesPerPage -> node_ok nodes k.
Definition fsm_wf (page : FSMPageData) : Prop := page_shape page /\ heap (fp_nodes page).

(** The value of a slot; slots past the end of the page have value 0. *)
Definition slot_value (nodes : list Z) (s : Z) : Z := nthZ nodes (NonLeafNodesPerPage + s).

(** ** Tree coordinates

    The node at height [h] above the slots and position [p] within its level; it
    covers the slots [p * 2^h .. (p+1) * 2^h - 1]. *)
Definition idx (h p : Z) : Z := 2 ^ (12 - h) - 1 + p.
Definition in_level (h p : Z) : Prop := 0 <= h <= 12 /\ 0 <= p < 2 ^ (12 - h).

Ltac sizes := change NonLeafNodesPerPage with 4095 in *; change NodesPerPage with 8164 in *;
  change LeafNodesPerPage with 4069 in *; change SlotsPerFSMPage with 4069 in *.

Lemma NonLeaf_val : NonLeafNodesPerPage = 4095. Proof. done. Qed.
Lemma Nodes_val : NodesPerPage = 8164. Proof. done. Qed.
Lemma Leaf_val : LeafNodesPerPage = 4069. Proof. done. Qed.

Lemma level_pow h : 0 <= h < 12 -> 2 ^ (12 - h) = 2 * 2 ^ (12 - (h + 1)).
Proof. intros. rewrite <- Z.pow_succ_r by lia. f_equal. lia. Qed.

Lemma level_inner h : 1 <= h <= 12 -> 0 < 2 ^ (12 - h) <= 2048.
Proof. intros. split; [lia|]. change 2048 with (2 ^ 11). apply Z.pow_le_mono_r; lia. Qed.

Lemma idx_inner h p : 1 <= h -> in_level h p -> 0 <= idx h p < NonLeafNodesPerPage.
Proof. intros ? [? ?]. pose proof (level_inner h). rewrite NonLeaf_val. unfold idx. lia. Qed.

Lemma idx_slot p : idx 0 p = NonLeafNodesPerPage + p.
Proof. done. Qed.

Lemma idx_leftchild h p : 0 <= h < 12 -> leftchild (idx (h + 1) p) = idx h (2 * p).
Proof. intros. unfold leftchild, idx. rewrite (level_pow h) by done. lia. Qed.

Lemma idx_rightchild h p : 0 <= h < 12 -> rightchild (idx (h + 1) p) = idx h (2 * p + 1).
Proof. intros. unfold rightchild, idx. rewrite (level_pow h) by done. lia. Qed.

Lemma in_level_up h p q : 0 <= h < 12 -> in_level h p -> 0 <= q -> 2 * q <= p -> in_level (h + 1) q.
Proof. intros ? [_ ?] ? ?. rewrite (level_pow h) in * by done. split; lia. Qed.

Lemma in_level_children h p : 0 <= h < 12 -> in_level (h + 1) p ->
  in_level h (2 * p) /\ in_level h (2 * p + 1).
Proof. intros ? [_ ?]. pose proof (level_pow h). split; split; lia. Qed.

Lemma parentof_idx h p : 0 <= h < 12 -> in_level h p -> parentof (idx h p) = idx (h + 1) (p / 2).
Proof.
  intros Hh [_ Hp]. unfold parentof, idx. rewrite (level_pow h) by done.
  assert (0 < 2 ^ (12 - (h + 1))) by lia. rewrite Z.quot_div_nonneg by lia.
  replace (2 * 2 ^ (12 - (h + 1)) - 1 + p - 1) with (p + (2 ^ (12 - (h + 1)) - 1) * 2) by lia.
  rewrite Z.div_add by lia. lia.
Qed.

(** Moving right wraps around within the level. *)
Lemma rightneighbor_idx h p : 0 <= h < 12 -> in_level h p ->
  rightneighbor (idx h p) = idx h ((p + 1) `mod` 2 ^ (12 - h)).
Proof.
  intros Hh [_ Hp]. unfold rightneighbor. set (k := 12 - h) in *. assert (1 <= k) by lia.
  replace (idx h p + 1 + 1) with (2 ^ k + (p + 1)) by (unfold idx; fold k; lia).
  replace (idx h p + 1) with (2 ^ k + (p + 1) - 1) by (unfold idx; fold k; lia).
  destruct (decide (p + 1 = 2 ^ k)) as [E|Hne].
  - rewrite E, Z_mod_same_full. assert (2 ^ k + 2 ^ k = 2 ^ (k + 1)) as E2
      by (rewrite Z.pow_add_r by lia; lia). rewrite E2, pow2_land_pred by lia. simpl.
    unfold parentof, idx. fold k. rewrite Z.quot_div_nonneg by lia.
    replace (2 ^ (k + 1) - 1 - 1) with ((2 ^ k - 1) * 2) by lia. rewrite Z.div_mul; lia.
  - rewrite Z.mod_small by lia. destruct (Z.eqb_spec (Z.land (2 ^ k + (p + 1)) (2 ^ k + (p + 1) - 1)) 0) as [E|_].
    + exfalso. apply land_pred_pow2 in E; [|lia].
      assert (Z.log2 (2 ^ k + (p + 1)) = k) as Hl by (apply Z.log2_unique; rewrite ?Z.pow_succ_r; lia).
      rewrite Hl in E. lia.
    + unfold idx. fold k. lia.
Qed.

Lemma climb_step h p : 0 <= h < 12 -> in_level h p ->
  let q := (p + 1) `mod` 2 ^ (12 - h) in
  parentof (rightneighbor (idx h p)) = idx (h + 1) (q / 2) /\ in_level (h + 1) (q / 2).
Proof.
  intros Hh Hp q. rewrite rightneighbor_idx by done. fold q.
  assert (in_level h q) as Hq by (destruct Hp; split; [lia|]; apply Z.mod_pos_bound; lia).
  split; [by apply parentof_idx|]. destruct (Hq). apply (in_level_up h q); [done..| |].
  - apply Z.div_pos; lia.
  - apply Z.mul_div_le. lia.
Qed.

(** ** The heap property *)

Definition covers (h p s : Z) : Prop := p * 2 ^ h <= s < (p + 1) * 2 ^ h.

Lemma covers_split h p s : 0 <= h -> covers (h + 1) p s <-> covers h (2 * p) s \/ covers h (2 * p + 1) s.
Proof. intros. unfold covers. rewrite (Z.pow_add_r 2 h 1) by lia. lia. Qed.

Lemma covers_0 p s : covers 0 p s <-> s = p.
Proof. unfold covers. lia. Qed.

Lemma covers_root s : covers 12 0 s <-> 0 <= s < 4096.
Proof. done. Qed.

Lemma inner_node nodes h p : heap nodes -> 0 <= h < 12 -> in_level (h + 1) p ->
  nthZ nodes (idx (h + 1) p) = Z.max (nthZ nodes (idx h (2 * p))) (nthZ nodes (idx h (2 * p + 1))).
Proof.
  intros Hheap Hh Hp. rewrite (Hheap (idx (h + 1) p)) by (apply idx_inner; [lia|done]).
  by rewrite idx_leftchild, idx_rightchild.
Qed.

(** Induction on the height of a node. *)
Lemma height_ind (P : Z -> Z -> Prop) :
  (forall p, in_level 0 p -> P 0 p) ->
  (forall h p, 0 <= h < 12 -> in_level (h + 1) p -> P h (2 * p) -> P h (2 * p + 1) -> P (h + 1) p) ->
  forall h p, in_level h p -> P h p.
Proof.
  intros H0 HS h. destruct (decide (0 <= h)) as [Hh|]; [|intros p [??]; lia].
  revert h Hh. refine (natlike_ind _ _ _); [done|]. intros h Hh IH p Hp.
  assert (h < 12) by (destruct Hp; lia). unfold Z.succ in *.
  destruct (in_level_children h p) as [Hl Hr]; [lia|done|]. apply HS; auto; lia.
Qed.

(** An inner node is the maximum of the slots it covers. *)
Lemma heap_upper nodes h p : heap nodes -> in_level h p ->
  forall s, covers h p s -> slot_value nodes s <= nthZ nodes (idx h p).
Proof.
  intros Hheap. revert h p. apply (height_ind (fun h p => forall s, covers h p s -> _)).
  - intros p Hp s Hs%covers_0. subst. rewrite idx_slot. done.
  - intros h p Hh Hp IHl IHr s Hs. rewrite inner_node by done.
    apply covers_split in Hs as [Hs|Hs]; [apply IHl in Hs|apply IHr in Hs|]; lia.
Qed.

Lemma heap_attained nodes h p : heap nodes -> in_level h p ->
  exists s, covers h p s /\ slot_value nodes s = nthZ nodes (idx h p).
Proof.
  intros Hheap. revert h p. apply (height_ind (fun h p => exists s, covers h p s /\ _)).
  - intros p Hp. exists p. split; [by apply covers_0|]. by rewrite idx_slot.
  - intros h p Hh Hp (sl & Hl & El) (sr & Hr & Er). rewrite inner_node by done.
    destruct (Z.max_spec (nthZ nodes (idx h (2 * p))) (nthZ nodes (idx h (2 * p + 1)))) as [[_ ->]|[_ ->]];
      [exists sr|exists sl]; (split; [apply covers_split; [lia|]; tauto|done]).
Qed.

Lemma heap_root_upper nodes s : heap nodes -> 0 <= s < 4096 -> slot_value nodes s <= nthZ nodes 0.
Proof. intros. apply (heap_upper nodes 12 0); [done|split; lia|by apply covers_root]. Qed.

Lemma nthZ_byte nodes i : Forall (is_u 8) nodes -> 0 <= nthZ nodes i < 256.
Proof. intros H. apply (Forall_nthZ (is_u 8)); [unfold is_u; lia|done]. Qed.

Lemma slot_value_missing nodes s : Z.of_nat (length nodes) = NodesPerPage -> LeafNodesPerPage <= s ->
  slot_value nodes s = 0.
Proof. intros E Hs. apply nthZ_overflow. sizes. lia. Qed.

(** ** Rebuilding *)

Definition max_children (nodes : list Z) (k : Z) : Z :=
  Z.max (nthZ nodes (leftchild k)) (nthZ nodes (rightchild k)).

Lemma max_children_byte nodes k : Forall (is_u 8) nodes -> is_u 8 (max_children nodes k).
Proof.
  intros H. unfold max_children, is_u. pose proof (nthZ_byte nodes (leftchild k) H).
  pose proof (nthZ_byte nodes (rightchild k) H). lia.
Qed.

Lemma rebuilt_value_ok nodes k : Z.of_nat (length nodes) = NodesPerPage -> Forall (is_u 8) nodes ->
  0 <= k < NonLeafNodesPerPage -> rebuilt_value nodes k = Ok (max_children nodes k).
Proof.
  intros Hlen Hb Hk. unfold rebuilt_value, max_children, rightchild.
  pose proof (nthZ_byte nodes (leftchild k) Hb). unfold leftchild in *.
  replace (2 * k + 1 + 1) with (2 * k + 2) by lia.
  destruct (Z.ltb_spec (2 * k + 1) NodesPerPage), (Z.ltb_spec (2 * k + 2) NodesPerPage); try lia.
  - run_arrays. done.
  - run_arrays. rewrite (nthZ_overflow nodes (2 * k + 2)) by lia. f_equal. lia.
  - simpl. rewrite !nthZ_overflow by lia. done.
Qed.

(** Writing an inner node keeps the equations of the nodes above untouched nodes. *)
Lemma node_ok_insert nodes i x k : 0 <= i < Z.of_nat (length nodes) -> 0 <= k ->
  i <> k -> i <> leftchild k -> i <> rightchild k ->
  node_ok (<[Z.to_nat i := x]> nodes) k <-> node_ok nodes k.
Proof.
  intros. unfold node_ok, leftchild, rightchild in *. by rewrite !nthZ_insert, !decide_False by lia.
Qed.

Lemma rebuild_loop_ok n : forall nodes changed,
  Z.of_nat (length nodes) = NodesPerPage -> Forall (is_u 8) nodes -> Z.of_nat n <= NonLeafNodesPerPage ->
  (forall k, Z.of_nat n <= k < NonLeafNodesPerPage -> node_ok nodes k) ->
  exists nodes' c, rebuild_loop n nodes changed = Ok (nodes', changed || c) /\
    length nodes' = length nodes /\ Forall (is_u 8) nodes' /\ heap nodes' /\
    (c = false <-> nodes' = nodes) /\ (heap nodes -> nodes' = nodes) /\
    forall k, Z.of_nat n <= k -> nthZ nodes' k = nthZ nodes k.
Proof.
  induction n as [|n IH]; intros nodes changed Hlen Hb Hn Hok.
  { exists nodes, false. rewrite orb_false_r. split_and!; try done. }
  cbn [rebuild_loop]. rewrite rebuilt_value_ok by (done || lia). cbn [mbind res_bind].
  rewrite aget_nthZ by (sizes; lia). cbn [mbind res_bind].
  destruct (Z.eqb_spec (nthZ nodes (Z.of_nat n)) (max_children nodes (Z.of_nat n))) as [E|Hne]; cbn [negb].
  - destruct (IH nodes changed) as (nodes' & c & HR & HL & HB & HH & Hc & Hid & Hk); [done|done|lia| |].
    { intros k Hk. destruct (decide (k = Z.of_nat n)) as [->|]; [done|apply Hok; lia]. }
    exists nodes', c. split_and!; try done. intros k ?. apply Hk. lia.
  - rewrite aset_Ok by (sizes; lia). cbn [mbind res_bind].
    set (nodes1 := <[_ := _]> nodes).
    assert (nthZ nodes1 (Z.of_nat n) = max_children nodes (Z.of_nat n)) as E1
      by (unfold nodes1; rewrite nthZ_insert, decide_True by (sizes; lia); done).
    destruct (IH nodes1 true) as (nodes' & c & HR & HL & HB & HH & _ & _ & Hk).
    + unfold nodes1. by rewrite length_insert.
    + apply Forall_insert; [done|by apply max_children_byte].
    + lia.
    + intros k Hk. unfold nodes1. destruct (decide (k = Z.of_nat n)) as [->|].
      * unfold node_ok. fold nodes1. rewrite E1. unfold max_children, leftchild, rightchild, nodes1.
        by rewrite !nthZ_insert, !decide_False by (sizes; lia).
      * apply node_ok_insert; unfold leftchild, rightchild; try (sizes; lia). apply Hok. lia.
    + unfold nodes1 in HL. rewrite length_insert in HL.
      exists nodes', true. rewrite HR, orb_true_r. split_and!; try done.
      * split; [done|]. intros Eq. destruct Hne. rewrite <- E1, <- Hk by lia. by rewrite Eq.
      * intros Hheap. destruct Hne. apply Hheap. lia.
      * intros k ?. rewrite Hk by lia. unfold nodes1. rewrite nthZ_insert, decide_False by (sizes; lia). done.
Qed.

Lemma rebuild_ok page : page_shape page ->
  exists (nodes' : list Z) (c : bool),
    fsm_rebuild_page page = Ok ({| fp_next_slot := fp_next_slot page; fp_nodes := nodes' |}, c) /\
    fsm_wf {| fp_next_slot := fp_next_slot page; fp_nodes := nodes' |} /\
    (c = false <-> nodes' = fp_nodes page) /\ (heap (fp_nodes page) -> nodes' = fp_nodes page) /\
    forall s, 0 <= s -> slot_value nodes' s = slot_value (fp_nodes page) s.
Proof.
  intros [Hlen Hb]. unfold fsm_rebuild_page.
  destruct (rebuild_loop_ok (Z.to_nat NonLeafNodesPerPage) (fp_nodes page) false)
    as (nodes' & c & -> & HL & HB & HH & Hc & Hid & Hk); [done|done|sizes; lia|sizes; lia|].
  exists nodes', c. cbn [mbind res_bind orb]. split_and!; try done.
  - split; [split; simpl; [by rewrite HL|done]|done].
  - intros s Hs. apply Hk. sizes. lia.
Qed.

(** ** Setting a slot *)

Definition heap_except (nodes : list Z) (x : Z) : Prop :=
  forall k, 0 <= k < NonLeafNodesPerPage -> k <> x -> node_ok nodes k.

Lemma parentof_children k : 0 <= k -> parentof (leftchild k) = k /\ parentof (rightchild k) = k.
Proof.
  intros. unfold parentof, leftchild, rightchild. rewrite !Z.quot_div_nonneg by lia. split.
  - replace (2 * k + 1 - 1) with (k * 2) by lia. by rewrite Z.div_mul.
  - replace (2 * k + 2 - 1) with (1 + k * 2) by lia. rewrite Z.div_add by lia. done.
Qed.

(** A write of a node leaves only the parent's equation in doubt, when an inner node
    receives the maximum of its children. *)
Lemma heap_except_insert nodes n x :
  0 <= n < Z.of_nat (length nodes) -> heap_except nodes n ->
  (n < NonLeafNodesPerPage -> x = max_children nodes n) ->
  heap_except (<[Z.to_nat n := x]> nodes) (parentof n) /\
  (n = 0 -> heap (<[Z.to_nat n := x]> nodes)).
Proof.
  intros Hn Hex Hx.
  assert (forall k, 0 <= k < NonLeafNodesPerPage -> (k <> parentof n \/ n = 0) ->
    node_ok (<[Z.to_nat n := x]> nodes) k) as Hall.
  { intros k Hk Hor. destruct (parentof_children k) as [Hl Hr]; [lia|].
    destruct (decide (k = n)) as [->|Hkn].
    - rewrite Hx by lia. unfold node_ok, leftchild, rightchild, max_children in *.
      rewrite !nthZ_insert, decide_True, !decide_False by (unfold leftchild, rightchild; lia). done.
    - apply node_ok_insert; [done|lia|done| | |by apply Hex]; unfold leftchild, rightchild in *.
      + intros ->. destruct Hor; [congruence|lia].
      + intros ->. destruct Hor; [congruence|lia]. }
  split; [intros k ? ?|intros ? k ?]; apply Hall; auto.
Qed.

(** The larger of the left child's value and the right child, if that exists. *)
Lemma right_value_ok nodes n :
  Z.of_nat (length nodes) = NodesPerPage -> Forall (is_u 8) nodes -> 0 <= n ->
  (if rightchild n <? NodesPerPage then r ← aget nodes (rightchild n); Ok (Z.max (nthZ nodes (leftchild n)) r)
   else Ok (nthZ nodes (leftchild n))) = Ok (max_children nodes n).
Proof.
  intros Hlen Hb Hn. pose proof (nthZ_byte nodes (leftchild n) Hb). unfold max_children. zcase.
  - unfold rightchild, leftchild in *. run_arrays. done.
  - rewrite (nthZ_overflow nodes (rightchild n)) by lia. f_equal. lia.
Qed.

Lemma propagate_ok f : forall nodes h p,
  Z.of_nat (length nodes) = NodesPerPage -> Forall (is_u 8) nodes ->
  0 <= h < 12 -> in_level h p -> idx h p < NodesPerPage -> 12 - h <= Z.of_nat f ->
  exists nodes', propagate_loop f nodes (idx h p) = Ok nodes' /\
    length nodes' = length nodes /\ Forall (is_u 8) nodes' /\
    (forall k, NonLeafNodesPerPage <= k -> nthZ nodes' k = nthZ nodes k) /\
    (heap_except nodes (parentof (idx h p)) -> heap nodes').
Proof.
  induction f as [|f IH]; intros nodes h p Hlen Hb Hh Hp Hex Hf; [lia|]. cbn [propagate_loop].
  rewrite parentof_idx by done. assert (0 <= p) by apply Hp.
  pose proof (Z.mul_div_le p 2 ltac:(lia)) as Hdiv. pose proof (Z.div_pos p 2 ltac:(lia) ltac:(lia)).
  assert (in_level (h + 1) (p / 2)) as Hp' by (by apply (in_level_up h p)).
  pose proof (idx_inner (h + 1) (p / 2) ltac:(lia) Hp') as Hinner. set (n := idx (h + 1) (p / 2)) in *.
  assert (leftchild n = idx h (2 * (p / 2))) as Hl by (by apply idx_leftchild).
  assert (leftchild n <= idx h p) by (rewrite Hl; unfold idx; lia).
  assert (leftchild n + 1 = rightchild n) as -> by (unfold leftchild, rightchild; lia).
  assert (0 <= leftchild n) by (unfold leftchild; lia).
  rewrite (aget_nthZ nodes (leftchild n)) by lia. cbn [mbind res_bind].
  rewrite right_value_ok by (done || lia).
  cbn [mbind res_bind]. rewrite aget_nthZ by (sizes; lia). cbn [mbind res_bind].
  destruct (Z.eqb_spec (nthZ nodes n) (max_children nodes n)) as [E|Hne].
  { exists nodes. split_and!; try done. intros Hhe k Hk. destruct (decide (k = n)) as [->|]; [done|auto]. }
  rewrite aset_Ok by (sizes; lia). cbn [mbind res_bind]. set (nodes1 := <[Z.to_nat n := _]> nodes).
  assert (length nodes1 = length nodes) as Hlen1 by apply length_insert.
  assert (Forall (is_u 8) nodes1) by (apply Forall_insert; [done|by apply max_children_byte]).
  assert (forall k, NonLeafNodesPerPage <= k -> nthZ nodes1 k = nthZ nodes k) as Hleaf1.
  { intros k Hk. unfold nodes1. rewrite nthZ_insert, decide_False by (sizes; lia). done. }
  assert (heap_except nodes n -> heap_except nodes1 (parentof n) /\ (n = 0 -> heap nodes1)) as Hins.
  { intros Hhe. by apply heap_except_insert; [sizes; lia|done|]. }
  destruct (Z.ltb_spec 0 n) as [Hpos|Hzero].
  - assert (h + 1 < 12).
    { destruct (decide (h + 1 = 12)) as [E|]; [|lia]. exfalso. destruct Hp' as [_ Hp'].
      unfold n, idx in Hpos. rewrite E in *. change (2 ^ (12 - 12)) with 1 in *. lia. }
    destruct (IH nodes1 (h + 1) (p / 2)) as (nodes' & E & HL & HB & Hk & Hh'); try done; [lia..| |lia|].
    { fold n. sizes. lia. }
    fold n in E, Hh'. rewrite E.
    exists nodes'. split_and!; [done|lia|done| |].
    + intros k ?. by rewrite Hk, Hleaf1.
    + intros Hhe. by apply Hh', Hins.
  - exists nodes1. split_and!; try done. intros Hhe. apply Hins; [done|lia].
Qed.

(** The write of the slot and the propagation, before the final sanity check. *)
Lemma set_nodes_ok nodes slot value :
  Z.of_nat (length nodes) = NodesPerPage -> Forall (is_u 8) nodes -> 0 <= slot < LeafNodesPerPage -> is_u 8 value ->
  let n := NonLeafNodesPerPage + slot in
  exists nodes', propagate_loop 13 (<[Z.to_nat n := value]> nodes) n = Ok nodes' /\
    Z.of_nat (length nodes') = NodesPerPage /\ Forall (is_u 8) nodes' /\ (heap nodes -> heap nodes') /\
    forall s, 0 <= s -> slot_value nodes' s = if decide (s = slot) then value else slot_value nodes s.
Proof.
  intros Hlen Hb Hs Hv n. set (nodes1 := <[Z.to_nat n := value]> nodes).
  assert (in_level 0 slot) as Hlev by (split; [lia|]; change (2 ^ (12 - 0)) with 4096; sizes; lia).
  destruct (propagate_ok 13 nodes1 0 slot) as (nodes2 & Hprop & HL & HB & Hk & Hheap); try done.
  { unfold nodes1. by rewrite length_insert. }
  { by apply Forall_insert. }
  { rewrite idx_slot. sizes. lia. }
  exists nodes2. split_and!; [done|rewrite HL; unfold nodes1; by rewrite length_insert|done| |].
  - intros Hh. apply Hheap. rewrite idx_slot. fold n. apply heap_except_insert.
    + unfold n. sizes. lia.
    + intros k ? ?. by apply Hh.
    + unfold n. lia.
  - intros s Hs'. unfold slot_value. rewrite Hk by lia. unfold nodes1, n. rewrite nthZ_insert by (sizes; lia).
    repeat case_decide; (done || lia).
Qed.

Lemma set_avail_ok page slot value :
  page_shape page -> 0 <= slot < LeafNodesPerPage -> is_u 8 value ->
  exists page' m, fsm_set_avail page slot value = Ok (page', m) /\ page_shape page' /\
    fp_next_slot page' = fp_next_slot page /\
    (forall s, 0 <= s -> slot_value (fp_nodes page') s = if decide (s = slot) then value else slot_value (fp_nodes page) s) /\
    value <= nthZ (fp_nodes page') 0 /\ (fsm_wf page -> fsm_wf page') /\
    (m = false -> page' = page) /\
    (fsm_wf page -> m = negb (slot_value (fp_nodes page) slot =? value)).
Proof.
  intros [Hlen Hb] Hs Hv. unfold fsm_set_avail. rewrite !aget_nthZ by (sizes; lia). cbn [mbind res_bind].
  fold (slot_value (fp_nodes page) slot).
  destruct ((slot_value (fp_nodes page) slot =? value) && (value <=? nthZ (fp_nodes page) 0)) eqn:Hsame.
  { apply andb_true_iff in Hsame as [E%Z.eqb_eq Hr%Z.leb_le]. exists page, false.
    split_and!; try done. all: intros; try case_decide; subst; rewrite ?Z.eqb_refl; done. }
  assert (fsm_wf page -> true = negb (slot_value (fp_nodes page) slot =? value)) as Hm.
  { intros [_ Hh]. pose proof (heap_root_upper (fp_nodes page) slot Hh ltac:(sizes; lia)).
    repeat zcase; simpl in *; (done || lia). }
  destruct (set_nodes_ok (fp_nodes page) slot value Hlen Hb Hs Hv) as (nodes2 & Hprop & HL & HB & Hh2 & Hslots).
  rewrite aset_Ok by (sizes; lia). cbn [mbind res_bind]. rewrite Hprop. cbn [mbind res_bind].
  rewrite aget_nthZ by (sizes; lia). cbn [mbind res_bind].
  destruct (Z.ltb_spec (nthZ nodes2 0) value) as [Hlow|Hok].
  - destruct (rebuild_ok {| fp_next_slot := fp_next_slot page; fp_nodes := nodes2 |})
      as (nodes3 & c & -> & [Hsh3 Hh3] & _ & _ & Hs3); [done|]. cbn [mbind res_bind fp_next_slot fp_nodes] in *.
    eexists _, true. split_and!; try done.
    + intros s ?. by rewrite <- Hslots, Hs3.
    + pose proof (heap_root_upper nodes3 slot Hh3 ltac:(sizes; lia)) as Hu. simpl.
      by rewrite Hs3, Hslots, decide_True in Hu by (done || lia).
  - eexists _, true. split_and!; try done. intros [_ Hh]. split; [done|]. by apply Hh2.
Qed.

(** ** Searching *)

Lemma idx_pos h p : in_level h p -> 0 <= idx h p /\ (idx h p = 0 <-> h = 12).
Proof.
  intros [Hh Hp]. unfold idx. destruct (decide (h = 12)) as [->|].
  - change (2 ^ (12 - 12)) with 1 in *. lia.
  - assert (2 ^ 1 <= 2 ^ (12 - h)) by (apply Z.pow_le_mono_r; lia). lia.
Qed.

Lemma inner_exists h p : 1 <= h -> in_level h p -> idx h p < NodesPerPage.
Proof. intros Hh Hp. pose proof (idx_inner h p Hh Hp). sizes. lia. Qed.

Lemma pred_level h p : h <> 0 -> in_level h p -> exists g, h = g + 1 /\ 0 <= g < 12.
Proof. intros ? [? _]. exists (h - 1). lia. Qed.

Section Search.
Context (nodes : list Z) (v : Z).
Context (Hlen : Z.of_nat (length nodes) = NodesPerPage).

(** The climb ends at a node with enough space or at the root; [P] is any property
    of the visited nodes that a failing step hands on. *)
Lemma climb_ok (P : Z -> Z -> Prop) :
  (forall h p, 0 <= h < 12 -> in_level h p -> P h p -> nthZ nodes (idx h p) < v ->
     P (h + 1) ((p + 1) `mod` 2 ^ (12 - h) / 2)) ->
  forall f h p, in_level h p -> idx h p < NodesPerPage -> 12 - h < Z.of_nat f -> P h p ->
  exists h' p', climb_loop f nodes v (idx h p) = Ok (idx h' p') /\
    in_level h' p' /\ idx h' p' < NodesPerPage /\ P h' p' /\ (v <= nthZ nodes (idx h' p') \/ h' = 12).
Proof.
  intros Hstep f. induction f as [|f IH]; intros h p Hp Hex Hf HP; [destruct Hp; lia|]. cbn [climb_loop].
  destruct (idx_pos h p Hp) as [Hpos Hroot]. destruct (Z.ltb_spec 0 (idx h p)).
  - assert (0 <= h < 12) as Hh by (destruct Hp as [Hp _]; lia).
    rewrite aget_nthZ by lia. cbn [mbind res_bind]. destruct (Z.leb_spec v (nthZ nodes (idx h p))).
    + exists h, p. split_and!; auto.
    + destruct (climb_step h p Hh Hp) as [-> Hp']. apply IH; [done| |lia|by apply Hstep].
      apply inner_exists; [lia|done].
  - exists h, p. split_and!; auto. right. lia.
Qed.

(** One level down from an inner node. *)
Lemma descend_step f h p : 0 <= h < 12 -> in_level (h + 1) p ->
  descend_loop (S f) nodes v (idx (h + 1) p) =
    let ok q := (idx h q <? NodesPerPage) && (v <=? nthZ nodes (idx h q)) in
    if ok (2 * p) then descend_loop f nodes v (idx h (2 * p))
    else if ok (2 * p + 1) then descend_loop f nodes v (idx h (2 * p + 1))
    else Ok None.
Proof.
  intros Hh Hp. cbn [descend_loop]. pose proof (idx_inner (h + 1) p ltac:(lia) Hp).
  destruct (Z.ltb_spec (idx (h + 1) p) NonLeafNodesPerPage); [|lia].
  pose proof (in_level_children h p Hh Hp) as [Hl Hr].
  rewrite idx_leftchild by done. replace (idx h (2 * p) + 1) with (idx h (2 * p + 1)) by (unfold idx; lia).
  destruct (idx_pos h _ Hl) as [Hl0 _], (idx_pos h _ Hr) as [Hr0 _]. cbv zeta.
  destruct (Z.ltb_spec (idx h (2 * p)) NodesPerPage); [rewrite (aget_nthZ nodes (idx h (2 * p))) by lia|];
    cbn [mbind res_bind andb]; [destruct (v <=? nthZ nodes (idx h (2 * p))); [done|]|];
    (destruct (Z.ltb_spec (idx h (2 * p + 1)) NodesPerPage);
      [rewrite (aget_nthZ nodes (idx h (2 * p + 1))) by lia|]); done.
Qed.

Lemma descend_leaf f p : in_level 0 p -> descend_loop (S f) nodes v (idx 0 p) = Ok (Some (NonLeafNodesPerPage + p)).
Proof. intros [_ ?]. cbn [descend_loop]. rewrite idx_slot. zcase; [lia|done]. Qed.

(** On any page the descent ends at a slot with enough space or reports corruption. *)
Lemma descend_any f h p : in_level h p -> idx h p < NodesPerPage -> h < Z.of_nat f ->
  (h = 0 -> v <= nthZ nodes (idx h p)) ->
  descend_loop f nodes v (idx h p) = Ok None \/
  exists r, descend_loop f nodes v (idx h p) = Ok (Some (NonLeafNodesPerPage + r)) /\
    0 <= r < LeafNodesPerPage /\ v <= slot_value nodes r.
Proof.
  revert h p. induction f as [|f IH]; intros h p Hp Hex Hf Hv; [destruct Hp; lia|].
  destruct (decide (h = 0)) as [->|Hne].
  { right. exists p. rewrite descend_leaf by done. rewrite idx_slot in *.
    split_and!; auto; destruct Hp; sizes; lia. }
  destruct (pred_level h p Hne Hp) as (g & -> & Hh). clear Hne.
  rewrite descend_step by done. cbv zeta. destruct (in_level_children g p Hh Hp) as [Hl Hr].
  destruct (Z.ltb_spec (idx g (2 * p)) NodesPerPage), (Z.leb_spec v (nthZ nodes (idx g (2 * p))));
    cbn [andb]; try (apply IH; first [done | lia | by intros]);
  (destruct (Z.ltb_spec (idx g (2 * p + 1)) NodesPerPage), (Z.leb_spec v (nthZ nodes (idx g (2 * p + 1))));
    cbn [andb]; try (apply IH; first [done | lia | by intros]); by left).
Qed.

(** On a well-formed page it finds the leftmost slot below the node with enough space. *)
Lemma descend_wf f : forall h p, heap nodes -> in_level h p -> h < Z.of_nat f ->
  v <= nthZ nodes (idx h p) -> 0 < v ->
  exists r, descend_loop f nodes v (idx h p) = Ok (Some (NonLeafNodesPerPage + r)) /\
    covers h p r /\ v <= slot_value nodes r /\ forall s, covers h p s -> s < r -> slot_value nodes s < v.
Proof.
  induction f as [|f IH]; intros h p Hheap Hp Hf Hv Hpos; [destruct Hp; lia|].
  destruct (decide (h = 0)) as [->|Hne].
  { exists p. rewrite descend_leaf by done. rewrite idx_slot in *. split_and!; [done|by apply covers_0|done|].
    intros s Hs%covers_0. lia. }
  destruct (pred_level h p Hne Hp) as (g & -> & Hh). clear Hne.
  rewrite descend_step by done. cbv zeta. destruct (in_level_children g p Hh Hp) as [Hl Hr].
  rewrite inner_node in Hv by done.
  assert (forall q, v <= nthZ nodes (idx g q) -> idx g q < NodesPerPage) as Hexists.
  { intros q Hq. destruct (decide (idx g q < NodesPerPage)); [done|].
    rewrite nthZ_overflow in Hq by lia. lia. }
  destruct (Z.leb_spec v (nthZ nodes (idx g (2 * p)))) as [Hvl|Hvl].
  - specialize (Hexists _ Hvl). destruct (Z.ltb_spec (idx g (2 * p)) NodesPerPage); [|lia]. cbn [andb].
    destruct (IH g (2 * p) Hheap Hl ltac:(lia) Hvl Hpos) as (r & -> & Hcov & Hok & Hmin).
    exists r. split_and!; [done|apply covers_split; [lia|by left]|done|]. intros s [Hs|Hs]%covers_split ?; [by apply Hmin| |lia].
    unfold covers in *. lia.
  - rewrite andb_false_r. assert (v <= nthZ nodes (idx g (2 * p + 1))) as Hvr by lia.
    specialize (Hexists _ Hvr). destruct (Z.ltb_spec (idx g (2 * p + 1)) NodesPerPage); [|lia].
    destruct (Z.leb_spec v (nthZ nodes (idx g (2 * p + 1)))); [|lia]. cbn [andb].
    destruct (IH g (2 * p + 1) Hheap Hr ltac:(lia) Hvr Hpos) as (r & -> & Hcov & Hok & Hmin).
    exists r. split_and!; [done|apply covers_split; [lia|by right]|done|]. intros s [Hs|Hs]%covers_split ?; [|by apply Hmin|lia].
    pose proof (heap_upper nodes _ _ Hheap Hl s Hs). lia.
Qed.
End Search.

(** [r] is the first slot with at least [v], going right from [t] and wrapping around. *)
Definition first_from (nodes : list Z) (v t r : Z) : Prop :=
  0 <= r < LeafNodesPerPage /\ v <= slot_value nodes r /\
  ((t <= r /\ forall s, t <= s < r -> slot_value nodes s < v) \/
   (r < t /\ forall s, t <= s < LeafNodesPerPage \/ 0 <= s < r -> slot_value nodes s < v)).

(** The slot the search starts from. *)
Definition start_slot (page : FSMPageData) : Z :=
  if (fp_next_slot page <? 0) || (LeafNodesPerPage <=? fp_next_slot page) then 0 else fp_next_slot page.

Lemma start_slot_range page : 0 <= start_slot page < LeafNodesPerPage.
Proof. unfold start_slot. sizes. repeat zcase; simpl; lia. Qed.

(** The search triangle: everything from the start up to the current node's first slot
    is too small, or the search has wrapped to the left edge. *)
Definition triangle (nodes : list Z) (v t h p : Z) : Prop :=
  (0 < v \/ (h = 0 /\ p = t)) /\
  ((t <= p * 2 ^ h /\ forall s, t <= s < p * 2 ^ h -> slot_value nodes s < v) \/
   (p = 0 /\ forall s, t <= s < 4096 -> slot_value nodes s < v)).

Lemma triangle_step nodes v t h p : Forall (is_u 8) nodes -> heap nodes -> 0 <= h < 12 -> in_level h p ->
  triangle nodes v t h p -> nthZ nodes (idx h p) < v ->
  triangle nodes v t (h + 1) ((p + 1) `mod` 2 ^ (12 - h) / 2).
Proof.
  intros Hb Hheap Hh Hp [_ Htri] Hlow. pose proof (nthZ_byte nodes (idx h p) Hb).
  split; [lia|]. pose proof (heap_upper nodes h p Hheap Hp) as Hup.
  assert (forall s, covers h p s -> slot_value nodes s < v) as Hcov by (intros s Hs; specialize (Hup s Hs); lia).
  destruct Hp as [_ Hp]. unfold covers in Hcov.
  assert (2 ^ (12 - h) * 2 ^ h = 4096) as Hall by (rewrite <- Z.pow_add_r by lia; by replace (12 - h + h) with 12 by lia).
  assert (2 ^ 1 <= 2 ^ (12 - h)) as Hk by (apply Z.pow_le_mono_r; lia).
  destruct (decide (p + 1 = 2 ^ (12 - h))) as [E|Hne].
  - right. rewrite E, Z_mod_same_full. split; [done|]. rewrite <- E in Hall.
    destruct Htri as [[Ht Hs]|[-> Hs]]; [|done].
    intros s Hs'. destruct (decide (s < p * 2 ^ h)); [apply Hs|apply Hcov]; lia.
  - rewrite Z.mod_small by lia. rewrite (Z.pow_add_r 2 h 1) by lia.
    destruct Htri as [[Ht Hs]|[-> Hs]]; [left|right; done].
    pose proof (Z.div_mod (p + 1) 2 ltac:(lia)) as Ediv. pose proof (Z.mod_pos_bound (p + 1) 2 ltac:(lia)) as Emod.
    set (q := (p + 1) / 2) in *. set (a := 2 ^ h) in *. assert (0 < a) by (unfold a; lia).
    assert (2 * q = p \/ 2 * q = p + 1) as Hq by lia.
    replace (q * (a * 2 ^ 1)) with (2 * q * a) by lia. split; [destruct Hq as [-> | ->]; lia|].
    intros s Hs'. destruct (decide (s < p * a)); [apply Hs; lia|apply Hcov].
    destruct Hq as [Hq|Hq]; rewrite Hq in Hs'; lia.
Qed.

Lemma first_from_triangle nodes v t h p r :
  Z.of_nat (length nodes) = NodesPerPage -> 0 < v -> 0 <= t < LeafNodesPerPage -> in_level h p ->
  triangle nodes v t h p -> covers h p r -> v <= slot_value nodes r ->
  (forall s, covers h p s -> s < r -> slot_value nodes s < v) -> first_from nodes v t r.
Proof.
  intros Hlen Hv Ht [Hh Hp] [_ Htri] Hcov Hok Hmin. unfold covers in *.
  assert (0 <= p * 2 ^ h) by (apply Z.mul_nonneg_nonneg; lia).
  split_and!; [lia| |done|].
  - destruct (decide (r < LeafNodesPerPage)); [done|]. rewrite slot_value_missing in Hok by (done || lia). lia.
  - destruct Htri as [[Hle Hs]|[-> Hs]].
    + left. split; [lia|]. intros s Hs'. destruct (decide (s < p * 2 ^ h)); [apply Hs; lia|].
      apply Hmin; lia.
    + right. destruct (decide (r < t)) as [|Hge].
      * split; [done|]. intros s [Hs'|Hs']; [apply Hs; sizes; lia|apply Hmin; lia].
      * exfalso. assert (r < 4096); [|specialize (Hs r); lia].
        assert ((0 + 1) * 2 ^ h <= 2 ^ 12) by (rewrite Z.mul_1_l; apply Z.pow_le_mono_r; lia). lia.
Qed.

Lemma climb_start page : start_slot page + NonLeafNodesPerPage = idx 0 (start_slot page) /\
  in_level 0 (start_slot page) /\ idx 0 (start_slot page) < NodesPerPage.
Proof.
  pose proof (start_slot_range page). rewrite idx_slot. split_and!; [lia| |sizes; lia].
  split; [lia|]. change (2 ^ (12 - 0)) with 4096. sizes. lia.
Qed.

Definition after_search (page : FSMPageData) (r : Z) (advancenext : bool) : FSMPageData :=
  {| fp_next_slot := r + (if advancenext then 1 else 0); fp_nodes := fp_nodes page |}.

Lemma slot_u16 r : 0 <= r < LeafNodesPerPage -> u16 (NonLeafNodesPerPage + r - NonLeafNodesPerPage) = r.
Proof. intros. replace (_ + r - _) with r by lia. apply wrapu_small. unfold is_u. sizes. lia. Qed.

Lemma search_wf f relock page v adv excl dirty : fsm_wf page -> is_u 8 v ->
  (nthZ (fp_nodes page) 0 < v /\
   search_restart (S f) relock page v adv excl dirty = Ok (page, -1, dirty)) \/
  exists r, first_from (fp_nodes page) v (start_slot page) r /\
    search_restart (S f) relock page v adv excl dirty = Ok (after_search page r adv, r, dirty).
Proof.
  intros [[Hlen Hb] Hheap] Hv. cbn [search_restart]. rewrite aget_nthZ by (sizes; lia). rewrite bind_val.
  destruct (Z.ltb_spec (nthZ (fp_nodes page) 0) v) as [Hlow|Hroot]; [by left|right].
  fold (start_slot page). destruct (climb_start page) as (-> & Hlev & Hex).
  pose proof (start_slot_range page) as Ht. set (t := start_slot page) in *.
  destruct (climb_ok (fp_nodes page) v Hlen (triangle (fp_nodes page) v t)
    (fun h p => triangle_step _ v t h p Hb Hheap) 14 0 t Hlev Hex ltac:(lia))
    as (h & p & -> & Hp & Hex' & Htri & Hval).
  { split; [by right|]. left. change (2 ^ 0) with 1. split; [lia|]. intros. lia. }
  rewrite bind_val.
  assert (v <= nthZ (fp_nodes page) (idx h p)) as Hval'.
  { destruct Hval as [|E]; [done|]. destruct (idx_pos h p Hp) as [_ [_ H0]]. by rewrite (H0 E). }
  assert (exists r, descend_loop 14 (fp_nodes page) v (idx h p) = Ok (Some (NonLeafNodesPerPage + r)) /\
    first_from (fp_nodes page) v t r) as (r & -> & Hfirst).
  { destruct (decide (v = 0)) as [Hv0|Hv0].
    - destruct Htri as [[?|[Hh0 Hpt]] _]; [lia|]. subst h p. exists t. rewrite descend_leaf by done.
      split; [done|]. rewrite idx_slot in *. split_and!; [lia..|done|]. left. split; [done|]. lia.
    - unfold is_u in Hv. destruct (descend_wf (fp_nodes page) v Hlen 14 h p) as (r & Hr & Hcov & Hok & Hmin); try done; try lia.
      { destruct Hp; lia. }
      exists r. split; [done|]. apply (first_from_triangle _ v t h p); done || lia. }
  rewrite bind_val. exists r. split; [done|]. by rewrite slot_u16 by apply Hfirst.
Qed.

(** One pass over any page: not enough space, a slot, or a rebuild and a restart. *)
Lemma search_pass f relock page v adv excl dirty :
  page_shape page ->
  search_restart (S f) relock page v adv excl dirty = Ok (page, -1, dirty) \/
  (exists r, search_restart (S f) relock page v adv excl dirty = Ok (after_search page r adv, r, dirty) /\
     0 <= r < LeafNodesPerPage /\ v <= slot_value (fp_nodes page) r) \/
  search_restart (S f) relock page v adv excl dirty =
    ('(page, _) ← fsm_rebuild_page (if excl then page else relock page);
     search_restart f relock page v adv true true).
Proof.
  intros [Hlen Hb]. cbn [search_restart].
  rewrite (aget_nthZ (fp_nodes page) 0) by (sizes; lia). rewrite bind_val.
  destruct (Z.ltb_spec (nthZ (fp_nodes page) 0) v) as [Hlow|Hroot]; [by left|right].
  fold (start_slot page). destruct (climb_start page) as (-> & Hlev & Hex).
  destruct (climb_ok (fp_nodes page) v Hlen (fun _ _ => True) (fun _ _ _ _ _ _ => I) 14 0 _ Hlev Hex ltac:(lia) I)
    as (h & p & -> & Hp & Hex' & _ & Hval). rewrite bind_val.
  destruct (descend_any (fp_nodes page) v Hlen 14 h p Hp Hex') as [-> | (r & -> & Hr & Hok)].
  { destruct Hp; lia. }
  { intros ->. destruct Hval; [done|lia]. }
  - right. rewrite bind_val. reflexivity.
  - left. exists r. rewrite bind_val. by rewrite slot_u16 by done.
Qed.

Lemma search_any relock page v adv excl :
  page_shape page -> is_u 8 v -> (forall pg, page_shape pg -> page_shape (relock pg)) ->
  exists page' r dirty, fsm_search_avail relock page v adv excl = Ok (page', r, dirty) /\ page_shape page' /\
    (r = -1 \/ (0 <= r < LeafNodesPerPage /\ v <= slot_value (fp_nodes page') r /\
                fp_next_slot page' = r + (if adv then 1 else 0))) /\
    (dirty = false -> fp_nodes page' = fp_nodes page) /\ (dirty = true -> fsm_wf page') /\
    (excl = true -> forall s, 0 <= s -> slot_value (fp_nodes page') s = slot_value (fp_nodes page) s).
Proof.
  intros Hsh Hv Hrelock. unfold fsm_search_avail.
  destruct (search_pass 1 relock page v adv excl false Hsh) as [-> |[(r & -> & Hr & Hok)| ->]].
  - exists page, (-1), false. split_and!; auto; done.
  - exists (after_search page r adv), r, false. split_and!; auto; done.
  - assert (page_shape (if excl then page else relock page)) as Hsh' by (destruct excl; [done|by apply Hrelock]).
    destruct (rebuild_ok _ Hsh') as (nodes1 & c & -> & Hwf & _ & _ & Hslots). cbn [mbind res_bind].
    set (page1 := {| fp_next_slot := _; fp_nodes := nodes1 |}) in *.
    assert (excl = true -> forall s, 0 <= s -> slot_value nodes1 s = slot_value (fp_nodes page) s) as Hpres.
    { intros E s ?. rewrite Hslots by done. by rewrite E. }
    destruct (search_wf 0 relock page1 v adv true true Hwf Hv) as [[_ ->]|(r & (Hr & Hok & _) & ->)].
    + exists page1, (-1), true. split_and!; auto; [apply Hwf|done].
    + exists (after_search page1 r adv), r, true. split_and!; auto; [apply Hwf|done].
Qed.

(** ** Truncating *)

Lemma existsb_ext_seqZ (f g : Z -> bool) i n :
  (forall j, i <= j < i + n -> f j = g j) -> existsb f (seqZ i n) = existsb g (seqZ i n).
Proof.
  intros H. assert (forall j, j ∈ seqZ i n -> f j = g j) as Hin by (intros j Hj%elem_of_seqZ; auto).
  clear H. induction (seqZ i n) as [|j l IH]; [done|]. simpl. f_equal; [apply Hin; set_solver|].
  apply IH. intros. apply Hin. set_solver.
Qed.

Lemma clear_loop_ok n : forall nodes i changed,
  0 <= i -> Forall (is_u 8) nodes -> i + Z.of_nat n <= Z.of_nat (length nodes) ->
  exists nodes', clear_loop n nodes i changed = Ok (nodes', changed || existsb (fun j => negb (nthZ nodes j =? 0)) (seqZ i (Z.of_nat n))) /\
    length nodes' = length nodes /\ Forall (is_u 8) nodes' /\
    forall k, 0 <= k -> nthZ nodes' k = if decide (i <= k < i + Z.of_nat n) then 0 else nthZ nodes k.
Proof.
  induction n as [|n IH]; intros nodes i changed Hi Hb Hn.
  { exists nodes. rewrite orb_false_r. split_and!; try done. intros k Hk. rewrite decide_False by lia. done. }
  cbn [clear_loop]. run_arrays.
  destruct (IH (<[Z.to_nat i := 0]> nodes) (i + 1) (changed || negb (nthZ nodes i =? 0)))
    as (nodes' & -> & HL & HB & Hk); [lia|apply Forall_insert; [done|unfold is_u; lia]|rewrite length_insert; lia|].
  exists nodes'. rewrite length_insert in HL. split_and!; [|done|done|].
  - rewrite (seqZ_cons i) by lia. replace (Z.pred (Z.of_nat (S n))) with (Z.of_nat n) by lia. unfold Z.succ.
    cbn [existsb]. rewrite <- orb_assoc. do 4 f_equal.
    apply existsb_ext_seqZ. intros j Hj. rewrite nthZ_insert, decide_False by lia. done.
  - intros k ?. rewrite Hk, nthZ_insert by lia. repeat case_decide; (done || lia).
Qed.

Lemma truncate_ok page nslots : fsm_wf page -> 0 <= nslots < LeafNodesPerPage ->
  exists page' c, fsm_truncate_avail page nslots = Ok (page', c) /\ fsm_wf page' /\
    fp_next_slot page' = fp_next_slot page /\ (c = false <-> page' = page) /\
    forall s, 0 <= s -> slot_value (fp_nodes page') s = if decide (s < nslots) then slot_value (fp_nodes page) s else 0.
Proof.
  intros [[Hlen Hb] Hheap] Hn. unfold fsm_truncate_avail.
  set (i := NonLeafNodesPerPage + nslots). set (n := Z.to_nat (NodesPerPage - i)).
  assert (i + Z.of_nat n = NodesPerPage) as Hin by (unfold n, i; sizes; lia).
  destruct (clear_loop_ok n (fp_nodes page) i false) as (nodes1 & E1 & HL & HB & Hk); [unfold i; sizes; lia|done|lia|].
  rewrite E1, bind_val. clear E1.
  set (c := existsb _ _ : bool). cbn [orb].
  assert (forall s, 0 <= s -> slot_value nodes1 s = if decide (s < nslots) then slot_value (fp_nodes page) s else 0) as Hslots.
  { intros s Hs. unfold slot_value. rewrite Hk by (sizes; lia).
    destruct (decide (s < nslots)); case_decide; try done; unfold i in *; try lia.
    apply nthZ_overflow. lia. }
  destruct c eqn:Ec.
  - destruct (rebuild_ok {| fp_next_slot := fp_next_slot page; fp_nodes := nodes1 |})
      as (nodes2 & c2 & -> & Hwf2 & _ & _ & Hs2); [split; simpl; [by rewrite HL|done]|]. rewrite bind_val.
    eexists _, true. split_and!; [done|done|done| |].
    + split; [done|]. intros Eq. exfalso. unfold c in Ec. apply existsb_exists in Ec as (j & Hj & Hnz).
      apply list_elem_of_In, elem_of_seqZ in Hj.
      specialize (Hs2 (j - NonLeafNodesPerPage)). specialize (Hslots (j - NonLeafNodesPerPage)).
      unfold slot_value in Hs2, Hslots. simpl in Hs2. replace nodes2 with (fp_nodes page) in Hs2 by (by rewrite <- Eq).
      rewrite Hslots, decide_False in Hs2 by (unfold i in *; lia).
      replace (NonLeafNodesPerPage + (j - NonLeafNodesPerPage)) with j in Hs2 by lia.
      rewrite Hs2 in Hnz by (unfold i in *; lia). done.
    + intros s Hs. simpl. rewrite Hs2 by done. by apply Hslots.
  - assert (nodes1 = fp_nodes page) as E.
    { apply nthZ_ext; [done|]. intros j Hj. rewrite Hk by lia. case_decide; [|done]. symmetry.
      destruct (Z.eqb_spec (nthZ (fp_nodes page) j) 0) as [|Hnz]; [done|]. exfalso.
      assert (c = true); [|congruence]. apply existsb_exists. exists j.
      rewrite <- list_elem_of_In, elem_of_seqZ. split; [lia|]. by apply negb_true_iff, Z.eqb_neq. }
    rewrite E in *. exists page, false. destruct page as [nx nd]. simpl in *. split_and!; done.
Qed.

(** ** Properties *)

(** On a well-formed page the search returns -1, leaving the page alone, exactly
    when no slot has the wanted value; otherwise it returns the first such slot at or
    after [fp_next_slot], wrapping around at the end, and advances the pointer as asked. *)
Theorem fsm_search_avail_first relock page v adv excl : fsm_wf page -> is_u 8 v ->
  ((forall s, 0 <= s < LeafNodesPerPage -> slot_value (fp_nodes page) s < v) /\
   fsm_search_avail relock page v adv excl = Ok (page, -1, false)) \/
  exists r, first_from (fp_nodes page) v (start_slot page) r /\
    fsm_search_avail relock page v adv excl =
      Ok ({| fp_next_slot := r + (if adv then 1 else 0); fp_nodes := fp_nodes page |}, r, false).
Proof.
  intros Hwf Hv. destruct (search_wf 1 relock page v adv excl false Hwf Hv) as [[Hlow E]|(r & Hr & E)].
  - left. split; [|done]. intros s Hs. pose proof (heap_root_upper (fp_nodes page) s ltac:(apply Hwf) ltac:(sizes; lia)). lia.
  - right. by exists r.
Qed.

(** An empty page, and a small page for the examples. *)
Definition zero_page : FSMPageData := {| fp_next_slot := 0; fp_nodes := replicate (Z.to_nat NodesPerPage) 0 |}.

Lemma zero_page_wf : fsm_wf zero_page.
Proof.
  split; [split|].
  - unfold zero_page, fp_nodes. rewrite length_replicate. sizes. lia.
  - apply Forall_replicate. unfold is_u. lia.
  - intros k _. unfold node_ok, zero_page, fp_nodes. by rewrite !nthZ_replicate_0.
Qed.

(** The root is the largest slot value. *)
Lemma max_avail_ok page : fsm_wf page ->
  exists mx, fsm_get_max_avail page = Ok mx /\
    (forall s, 0 <= s < LeafNodesPerPage -> slot_value (fp_nodes page) s <= mx) /\
    exists s, 0 <= s < LeafNodesPerPage /\ slot_value (fp_nodes page) s = mx.
Proof.
  intros [[Hlen Hb] Hheap]. exists (nthZ (fp_nodes page) 0). unfold fsm_get_max_avail.
  rewrite aget_nthZ by (sizes; lia). split; [done|]. split.
  - intros s Hs. apply heap_root_upper; [done|sizes; lia].
  - destruct (heap_attained (fp_nodes page) 12 0) as (s & Hcov & E); [done|split; lia|].
    assert (0 <= s < 4096) as Hs by exact Hcov.
    change (idx 12 0) with 0 in E. destruct (decide (s < LeafNodesPerPage)).
    + exists s. split; [lia|done].
    + rewrite slot_value_missing in E by (done || lia). exists 0. split; [sizes; lia|].
      pose proof (heap_root_upper (fp_nodes page) 0 Hheap ltac:(lia)).
      pose proof (nthZ_byte (fp_nodes page) (NonLeafNodesPerPage + 0) Hb). unfold slot_value in *. lia.
Qed.

Lemma get_avail_slot page s : page_shape page -> 0 <= s < LeafNodesPerPage ->
  fsm_get_avail page s = Ok (slot_value (fp_nodes page) s).
Proof. intros [Hlen _] Hs. apply aget_nthZ. sizes. lia. Qed.

Lemma fsm_search_avail_first_witness :
  exists r, fsm_search_avail (fun p => p) zero_page 0 true false =
    Ok ({| fp_next_slot := r + 1; fp_nodes := fp_nodes zero_page |}, r, false).
Proof.
  destruct (fsm_search_avail_first (fun p => p) zero_page 0 true false zero_page_wf ltac:(unfold is_u; lia))
    as [[H _]|(r & _ & H)].
  - exfalso. specialize (H 0 ltac:(sizes; lia)). unfold slot_value, zero_page, fp_nodes in H.
    rewrite nthZ_replicate_0 in H. lia.
  - exists r. exact H.
Defined.


(** A torn page: the root promises 200, no slot has it. *)
Definition torn_page : FSMPageData :=
  {| fp_next_slot := 17; fp_nodes := 200 :: replicate (Z.to_nat (NodesPerPage - 1)) 0 |}.


(** C36. [fsm_set_avail] stores the value and changes no other slot, on any page; the root
    is then at least the value, so that a search can find it.  On a well-formed page the
    result is well formed, its root is the largest slot value, and the page is reported
    modified exactly when the slot had another value. *)
Theorem fsm_set_avail_correct page slot value :
  page_shape page -> 0 <= slot < LeafNodesPerPage -> is_u 8 value ->
  exists page' m, fsm_set_avail page slot value = Ok (page', m) /\ page_shape page' /\
    fp_next_slot page' = fp_next_slot page /\ (m = false -> page' = page) /\
    (forall s, 0 <= s < LeafNodesPerPage ->
       fsm_get_avail page' s = if decide (s = slot) then Ok value else fsm_get_avail page s) /\
    (exists mx, fsm_get_max_avail page' = Ok mx /\ value <= mx) /\
    (fsm_wf page ->
       fsm_wf page' /\ m = negb (slot_value (fp_nodes page) slot =? value) /\
       exists mx, fsm_get_max_avail page' = Ok mx /\
         (forall s, 0 <= s < LeafNodesPerPage -> slot_value (fp_nodes page') s <= mx) /\
         exists s, 0 <= s < LeafNodesPerPage /\ slot_value (fp_nodes page') s = mx).
Proof.
  intros Hsh Hs Hv. destruct (set_avail_ok page slot value Hsh Hs Hv)
    as (page' & m & E & Hsh' & Hnext & Hslots & Hroot & Hwf & Hm & Hm').
  exists page', m. split_and!; try done.
  - intros s Hs'. rewrite !get_avail_slot, Hslots by (done || lia). by case_decide.
  - exists (nthZ (fp_nodes page') 0). split; [|done]. apply aget_nthZ. destruct Hsh' as [Hlen' _]. sizes. lia.
  - intros Hw. split_and!; auto using max_avail_ok.
Qed.

Lemma fsm_set_avail_correct_witness :
  exists page' m, fsm_set_avail zero_page 4068 77 = Ok (page', m) /\ fsm_wf page' /\ fsm_get_avail page' 4068 = Ok 77.
Proof.
  destruct (fsm_set_avail_correct zero_page 4068 77) as (p & m & E & _ & _ & _ & Hget & _ & Hwf);
    [apply zero_page_wf|sizes; lia|unfold is_u; lia|].
  exists p, m. split; [exact E|]. split; [apply Hwf, zero_page_wf|].
  exact (Hget 4068 ltac:(sizes; lia)).
Defined.

(** [fsm_rebuild_page] turns any page into a well-formed one without changing a slot,
    and reports a change exactly when it made one (never on a well-formed page);
    [fsm_truncate_avail] zeroes the slots from [nslots] on, keeps the others and the
    invariant, and reports a change exactly when the page changed. *)
Theorem fsm_rebuild_and_truncate page nslots : page_shape page -> 0 <= nslots < LeafNodesPerPage ->
  (exists page' c, fsm_rebuild_page page = Ok (page', c) /\ fsm_wf page' /\
     (c = false <-> page' = page) /\ (fsm_wf page -> c = false) /\
     forall s, 0 <= s -> slot_value (fp_nodes page') s = slot_value (fp_nodes page) s) /\
  (fsm_wf page ->
   exists page' c, fsm_truncate_avail page nslots = Ok (page', c) /\ fsm_wf page' /\ (c = false <-> page' = page) /\
     forall s, 0 <= s -> slot_value (fp_nodes page') s = if decide (s < nslots) then slot_value (fp_nodes page) s else 0).
Proof.
  intros Hsh Hn. split.
  - destruct (rebuild_ok page Hsh) as (nodes' & c & E & Hwf & Hc & Hid & Hs). eexists _, c. split_and!; [done|done| | |done].
    + rewrite Hc. destruct page; simpl. split; congruence.
    + intros [_ Hh]. apply Hc. auto.
  - intros Hwf. destruct (truncate_ok page nslots Hwf Hn) as (page' & c & ? & ? & _ & ? & ?). by exists page', c.
Qed.

Lemma fsm_rebuild_and_truncate_witness :
  exists page' c, fsm_truncate_avail zero_page 100 = Ok (page', c) /\ fsm_wf page' /\ (c = false <-> page' = zero_page).
Proof.
  destruct (fsm_rebuild_and_truncate zero_page 100) as [_ H]; [apply zero_page_wf|sizes; lia|].
  destruct (H zero_page_wf) as (p & c & E & Hwf & Hc & _). exists p, c. split; [exact E|split; [exact Hwf|exact Hc]].
Defined.
