(* ===== verification/FreeSpace.v ===== *)
(** The free space map: src/pg-src/src/backend/storage/freespace/freespace.c.

    The map is a tree of pages, three levels deep, stored in a fork of the relation in
    depth-first order.  This file models the whole of freespace.c against an interface
    for the operations on a single page (the class [FSMPageOps]), which FsmPage.v
    implements (the instance below); the laws of the interface and the theorems are in
    FreeSpaceSpec.v.

    The relation is the list of the pages of its map, the size of its main fork, and
    the sizes cached in the storage manager entry.  Pages are represented by their
    contents, so that initialising the header of a new page changes nothing here.
    Execution is sequential except that [relock], an argument of the searches, stands
    for what other backends do to a page while the search gives up its lock. *)

From S2P Require Import Prelude FsmPage.

(** ** The page interface *)

Class FSMPageOps (P : Type) := {
  new_page : P;
  page_set_avail : P -> Z -> Z -> res (P * bool);
  page_get_avail : P -> Z -> res Z;
  page_get_max_avail : P -> res Z;
  page_search_avail : (P -> P) -> P -> Z -> bool -> bool -> res (P * Z * bool);
  page_truncate_avail : P -> Z -> res (P * bool);
  page_reset_next : P -> P
}.

#[export] Instance fsmpage_ops : FSMPageOps FSMPageData := {
  new_page := zero_page;
  page_set_avail := fsm_set_avail;
  page_get_avail := fsm_get_avail;
  page_get_max_avail := fsm_get_max_avail;
  page_search_avail := fsm_search_avail;
  page_truncate_avail := fsm_truncate_avail;
  page_reset_next := fun p => {| fp_next_slot := 0; fp_nodes := fp_nodes p |}
}.

(** ** Categories *)

Definition FSM_CATEGORIES : Z := 256.
Definition FSM_CAT_STEP : Z := BLCKSZ / FSM_CATEGORIES.
(** [MaxHeapTupleSize]: a block less the header with one line pointer, aligned. *)
Definition MaxFSMRequestSize : Z := BLCKSZ - 32.

Definition fsm_space_avail_to_cat (avail : Z) : Z :=
  if MaxFSMRequestSize <=? avail then 255
  else let cat := avail / FSM_CAT_STEP in u8 (if 254 <? cat then 254 else cat).

Definition fsm_space_cat_to_avail (cat : Z) : Z :=
  if cat =? 255 then MaxFSMRequestSize else cat * FSM_CAT_STEP.

Definition fsm_space_needed_to_cat (needed : Z) : res Z :=
  if MaxFSMRequestSize <? needed then Err "invalid FSM request size"
  else if needed =? 0 then Ok 1
  else let cat := (needed + FSM_CAT_STEP - 1) / FSM_CAT_STEP in Ok (u8 (if 255 <? cat then 255 else cat)).

(** ** Addresses *)

Definition FSM_TREE_DEPTH : Z := if 1626 <=? SlotsPerFSMPage then 3 else 4.
Definition FSM_ROOT_LEVEL : Z := FSM_TREE_DEPTH - 1.
Definition FSM_BOTTOM_LEVEL : Z := 0.
Definition InvalidBlockNumber : Z := 0xFFFFFFFF.

Record FSMAddress := { level : Z; logpageno : Z }.
Definition FSM_ROOT_ADDRESS : FSMAddress := {| level := FSM_ROOT_LEVEL; logpageno := 0 |}.

(** [leafno] is an [int], but [SlotsPerFSMPage] has type [size_t]: the products and
    quotients are computed in 64 bits and converted back. *)
Fixpoint first_leaf (n : nat) (leafno : Z) : Z :=
  match n with O => leafno | S n => first_leaf n (i32 (leafno * SlotsPerFSMPage)) end.
Fixpoint count_pages (n : nat) (pages leafno : Z) : Z :=
  match n with
  | O => pages
  | S n => count_pages n (u32 (pages + u32 (leafno + 1))) (i32 (u64 leafno / SlotsPerFSMPage))
  end.
Definition fsm_logical_to_physical (addr : FSMAddress) : Z :=
  let leafno := first_leaf (Z.to_nat (level addr)) (logpageno addr) in
  let pages := count_pages (Z.to_nat FSM_TREE_DEPTH) 0 leafno in
  let pages := u32 (pages - level addr) in
  u32 (pages - 1).

Definition fsm_get_location (heapblk : Z) : FSMAddress * Z :=
  ({| level := FSM_BOTTOM_LEVEL; logpageno := i32 (heapblk / SlotsPerFSMPage) |},
   u16 (heapblk `mod` SlotsPerFSMPage)).

Definition fsm_get_heap_blk (addr : FSMAddress) (slot : Z) : Z :=
  u32 (u32 (logpageno addr) * SlotsPerFSMPage + slot).

Definition fsm_get_parent (child : FSMAddress) : FSMAddress * Z :=
  ({| level := level child + 1; logpageno := i32 (u64 (logpageno child) / SlotsPerFSMPage) |},
   u16 (u64 (logpageno child) `mod` SlotsPerFSMPage)).

Definition fsm_get_child (parent : FSMAddress) (slot : Z) : FSMAddress :=
  {| level := level parent - 1; logpageno := i32 (u64 (logpageno parent) * SlotsPerFSMPage + slot) |}.

(** ** The relation *)

Section Model.
Context {P : Type} {OP : FSMPageOps P}.

Record Relation := {
  fsm_pages : list P;                (** the FSM fork; its length is the fork's size *)
  fsm_exists : bool;                 (** [smgrexists(reln, FSM_FORKNUM)] *)
  fsm_cached : option Z;             (** [smgr_cached_nblocks[FSM_FORKNUM]] *)
  main_nblocks : Z;                  (** size of the main fork *)
  main_cached : option Z             (** [smgr_cached_nblocks[MAIN_FORKNUM]] *)
}.

Definition fsm_nblocks (rel : Relation) : Z := Z.of_nat (length (fsm_pages rel)).
Definition set_cached (rel : Relation) (c : option Z) : Relation :=
  {| fsm_pages := fsm_pages rel; fsm_exists := fsm_exists rel; fsm_cached := c;
     main_nblocks := main_nblocks rel; main_cached := main_cached rel |}.
Definition set_pages (rel : Relation) (pages : list P) : Relation :=
  {| fsm_pages := pages; fsm_exists := fsm_exists rel; fsm_cached := fsm_cached rel;
     main_nblocks := main_nblocks rel; main_cached := main_cached rel |}.
(** The contents of a pinned buffer are written in place. *)
Definition write_page (rel : Relation) (buf : Z) (p : P) : res Relation :=
  pages ← aset (fsm_pages rel) buf p; Ok (set_pages rel pages).

(** [fsm_extend]: the fork is created if needed and grows with pages of zeros up to
    [nblocks]; the size cache is cleared; the buffer is that of the last block. *)
Definition fsm_extend (rel : Relation) (nblocks : Z) : Relation * Z :=
  ({| fsm_pages := fsm_pages rel ++ replicate (Z.to_nat (nblocks - fsm_nblocks rel)) new_page;
      fsm_exists := true; fsm_cached := None;
      main_nblocks := main_nblocks rel; main_cached := main_cached rel |}, nblocks - 1).

(** [smgrnblocks] asks the kernel and caches the answer. *)
Definition refresh_cache (rel : Relation) : Relation :=
  set_cached rel (if fsm_exists rel then Some (fsm_nblocks rel) else Some 0).

(** [blkno >= reln->smgr_cached_nblocks[FSM_FORKNUM]], an invalid entry being
    [InvalidBlockNumber]. *)
Definition past_cached (rel : Relation) (blkno : Z) : bool :=
  match fsm_cached rel with None => InvalidBlockNumber <=? blkno | Some n => n <=? blkno end.

(** The buffer of a map page, as its physical block number; [None] is [InvalidBuffer]. *)
Definition fsm_readbuf (rel : Relation) (addr : FSMAddress) (extend : bool) : Relation * option Z :=
  let blkno := fsm_logical_to_physical addr in
  let rel := if bool_decide (fsm_cached rel = None) || past_cached rel blkno then refresh_cache rel else rel in
  if past_cached rel blkno then
    if extend then let '(rel, buf) := fsm_extend rel (blkno + 1) in (rel, Some buf)
    else (rel, None)
  else (rel, Some blkno).

Definition fsm_does_block_exist (rel : Relation) (blknumber : Z) : bool :=
  match main_cached rel with Some n => blknumber <? n | None => false end
  || (blknumber <? main_nblocks rel).

(** ** Updating and searching *)

Definition fsm_set_and_search (relock : P -> P) (rel : Relation) (addr : FSMAddress)
    (slot newValue minValue : Z) : res (Relation * Z) :=
  let '(rel, buf) := fsm_readbuf rel addr true in
  match buf with
  | None => Undef
  | Some buf =>
    page ← aget (fsm_pages rel) buf;
    '(page, _) ← page_set_avail page slot newValue;
    '(page, newslot) ←
      (if negb (minValue =? 0) then
         '(page, s, _) ← page_search_avail relock page minValue (level addr =? FSM_BOTTOM_LEVEL) true;
         Ok (page, s)
       else Ok (page, -1));
    rel ← write_page rel buf page;
    Ok (rel, newslot)
  end.

(** The first half of an iteration of [fsm_search]: the relation, the slot found and
    the page's maximum where nothing was found. *)
Definition search_page (relock : P -> P) (rel : Relation) (buf : option Z) (min_cat : Z)
    (bottom : bool) : res (Relation * Z * Z) :=
  match buf with
  | None => Ok (rel, -1, 0)
  | Some buf =>
    page ← aget (fsm_pages rel) buf;
    '(page, slot, _) ← page_search_avail relock page min_cat bottom false;
    rel ← write_page rel buf page;
    if slot =? -1 then max_avail ← page_get_max_avail page; Ok (rel, slot, max_avail)
    else Ok (rel, slot, 0)
  end.

(** The loop of [fsm_search].  Where the block found does not exist the address is set
    to the root and then, falling through, to the root's child [slot]. *)
Fixpoint fsm_search_loop (fuel : nat) (relock : P -> P) (rel : Relation) (min_cat : Z)
    (addr : FSMAddress) (restarts : Z) : res (Relation * Z) :=
  match fuel with
  | O => OutOfFuel
  | S f =>
    let '(rel, buf) := fsm_readbuf rel addr false in
    '(rel, slot, max_avail) ← search_page relock rel buf min_cat (level addr =? FSM_BOTTOM_LEVEL);
    if negb (slot =? -1) then
      if level addr =? FSM_BOTTOM_LEVEL then
        let blkno := fsm_get_heap_blk addr slot in
        if fsm_does_block_exist rel blkno then Ok (rel, blkno)
        else
          match buf with
          | None => Undef
          | Some buf =>
            page ← aget (fsm_pages rel) buf;
            '(page, _) ← page_set_avail page slot 0;
            rel ← write_page rel buf page;
            if 10000 <? restarts then Ok (rel, InvalidBlockNumber)
            else fsm_search_loop f relock rel min_cat (fsm_get_child FSM_ROOT_ADDRESS slot) (restarts + 1)
          end
      else fsm_search_loop f relock rel min_cat (fsm_get_child addr slot) restarts
    else if level addr =? FSM_ROOT_LEVEL then Ok (rel, InvalidBlockNumber)
    else
      let '(parent, parentslot) := fsm_get_parent addr in
      '(rel, _) ← fsm_set_and_search relock rel parent parentslot max_avail 0;
      if 10000 <? restarts then Ok (rel, InvalidBlockNumber)
      else fsm_search_loop f relock rel min_cat FSM_ROOT_ADDRESS (restarts + 1)
  end.

(** Three pages per descent and at most 10002 restarts. *)
Definition search_fuel : nat := Z.to_nat 40000.
Definition fsm_search (relock : P -> P) (rel : Relation) (min_cat : Z) : res (Relation * Z) :=
  fsm_search_loop search_fuel relock rel min_cat FSM_ROOT_ADDRESS 0.

(** ** The public operations *)

Definition GetPageWithFreeSpace (relock : P -> P) (rel : Relation) (spaceNeeded : Z) : res (Relation * Z) :=
  min_cat ← fsm_space_needed_to_cat spaceNeeded;
  fsm_search relock rel min_cat.

Definition RecordAndGetPageWithFreeSpace (relock : P -> P) (rel : Relation)
    (oldPage oldSpaceAvail spaceNeeded : Z) : res (Relation * Z) :=
  let old_cat := fsm_space_avail_to_cat oldSpaceAvail in
  search_cat ← fsm_space_needed_to_cat spaceNeeded;
  let '(addr, slot) := fsm_get_location oldPage in
  '(rel, search_slot) ← fsm_set_and_search relock rel addr slot old_cat search_cat;
  let blknum := fsm_get_heap_blk addr search_slot in
  if negb (search_slot =? -1) && fsm_does_block_exist rel blknum then Ok (rel, blknum)
  else fsm_search relock rel search_cat.

Definition RecordPageWithFreeSpace (relock : P -> P) (rel : Relation) (heapBlk spaceAvail : Z) : res Relation :=
  let new_cat := fsm_space_avail_to_cat spaceAvail in
  let '(addr, slot) := fsm_get_location heapBlk in
  '(rel, _) ← fsm_set_and_search relock rel addr slot new_cat 0;
  Ok rel.

(** In WAL replay the page is read by its block number, extending the fork if needed. *)
Definition XLogRecordPageWithFreeSpace (rel : Relation) (heapBlk spaceAvail : Z) : res Relation :=
  let new_cat := fsm_space_avail_to_cat spaceAvail in
  let '(addr, slot) := fsm_get_location heapBlk in
  let blkno := fsm_logical_to_physical addr in
  let '(rel, buf) := if fsm_nblocks rel <=? blkno then fsm_extend rel (blkno + 1) else (rel, blkno) in
  page ← aget (fsm_pages rel) buf;
  '(page, _) ← page_set_avail page slot new_cat;
  write_page rel buf page.

Definition GetRecordedFreeSpace (rel : Relation) (heapBlk : Z) : res (Relation * Z) :=
  let '(addr, slot) := fsm_get_location heapBlk in
  let '(rel, buf) := fsm_readbuf rel addr false in
  match buf with
  | None => Ok (rel, 0)
  | Some buf =>
    page ← aget (fsm_pages rel) buf;
    cat ← page_get_avail page slot;
    Ok (rel, fsm_space_cat_to_avail cat)
  end.

(** The result is the new number of map blocks, or [InvalidBlockNumber]. *)
Definition FreeSpaceMapPrepareTruncateRel (rel : Relation) (nblocks : Z) : res (Relation * Z) :=
  if negb (fsm_exists rel) then Ok (rel, InvalidBlockNumber)
  else
    let '(first_removed_address, first_removed_slot) := fsm_get_location nblocks in
    if 0 <? first_removed_slot then
      let '(rel, buf) := fsm_readbuf rel first_removed_address false in
      match buf with
      | None => Ok (rel, InvalidBlockNumber)
      | Some buf =>
        page ← aget (fsm_pages rel) buf;
        '(page, _) ← page_truncate_avail page first_removed_slot;
        rel ← write_page rel buf page;
        Ok (rel, u32 (fsm_logical_to_physical first_removed_address + 1))
      end
    else
      let new_nfsmblocks := fsm_logical_to_physical first_removed_address in
      let rel := refresh_cache rel in
      if fsm_nblocks rel <=? new_nfsmblocks then Ok (rel, InvalidBlockNumber)
      else Ok (rel, new_nfsmblocks).

(** ** Vacuum *)

(** [fsm_start], [fsm_end]: the address and slot, at the given level, above a heap block. *)
Fixpoint locate_at (lvl : nat) (loc : FSMAddress * Z) : FSMAddress * Z :=
  match lvl with O => loc | S l => locate_at l (fsm_get_parent loc.1) end.

Definition vacuum_start_slot (addr : FSMAddress) (start : Z) : Z :=
  let '(fsm_start, fsm_start_slot) := locate_at (Z.to_nat (level addr)) (fsm_get_location start) in
  if logpageno fsm_start =? logpageno addr then fsm_start_slot
  else if logpageno addr <? logpageno fsm_start then SlotsPerFSMPage
  else 0.

Definition vacuum_end_slot (addr : FSMAddress) (end_ : Z) : Z :=
  let '(fsm_end, fsm_end_slot) := locate_at (Z.to_nat (level addr)) (fsm_get_location (u32 (end_ - 1))) in
  if logpageno fsm_end =? logpageno addr then fsm_end_slot
  else if logpageno addr <? logpageno fsm_end then SlotsPerFSMPage - 1
  else -1.

(** The loop over the slots of an upper page pinned in [buf]; [vacuum_child] is the
    recursive call on the child of a slot, returning its maximum and [eof]. *)
Fixpoint vacuum_slots (vacuum_child : Relation -> Z -> res (Relation * Z * bool)) (buf : Z)
    (slots : list Z) (rel : Relation) (eof : bool) : res Relation :=
  match slots with
  | [] => Ok rel
  | slot :: slots =>
    '(rel, child_avail, eof) ← (if negb eof then vacuum_child rel slot else Ok (rel, 0, eof));
    page ← aget (fsm_pages rel) buf;
    avail ← page_get_avail page slot;
    rel ← (if negb (avail =? child_avail) then
             '(page, _) ← page_set_avail page slot child_avail; write_page rel buf page
           else Ok rel);
    vacuum_slots vacuum_child buf slots rel eof
  end.

(** [fsm_vacuum_page] of the page [logpageno] at level [lvl]: the relation, the page's
    maximum and [*eof_p]. *)
Fixpoint fsm_vacuum_page (lvl : nat) (rel : Relation) (pageno start end_ : Z) : res (Relation * Z * bool) :=
  let addr := {| level := Z.of_nat lvl; logpageno := pageno |} in
  let '(rel, buf) := fsm_readbuf rel addr false in
  match buf with
  | None => Ok (rel, 0, true)
  | Some buf =>
    rel ← match lvl with
          | O => Ok rel
          | S l =>
            let start_slot := vacuum_start_slot addr start in
            let end_slot := vacuum_end_slot addr end_ in
            vacuum_slots (fun rel slot => fsm_vacuum_page l rel (logpageno (fsm_get_child addr slot)) start end_)
              buf (seqZ start_slot (end_slot - start_slot + 1)) rel false
          end;
    page ← aget (fsm_pages rel) buf;
    max_avail ← page_get_max_avail page;
    rel ← write_page rel buf (page_reset_next page);
    Ok (rel, max_avail, false)
  end.

Definition FreeSpaceMapVacuum (rel : Relation) : res Relation :=
  '(rel, _, _) ← fsm_vacuum_page (Z.to_nat FSM_ROOT_LEVEL) rel 0 0 InvalidBlockNumber;
  Ok rel.

Definition FreeSpaceMapVacuumRange (rel : Relation) (start end_ : Z) : res Relation :=
  if start <? end_ then
    '(rel, _, _) ← fsm_vacuum_page (Z.to_nat FSM_ROOT_LEVEL) rel 0 start end_;
    Ok rel
  else Ok rel.
End Model.
Arguments Relation : clear implicits.

(** ** Categories are conservative *)

Ltac fsm_consts := change SlotsPerFSMPage with 4069 in *; change FSM_TREE_DEPTH with 3 in *;
  change FSM_ROOT_LEVEL with 2 in *; change FSM_BOTTOM_LEVEL with 0 in *;
  change FSM_CAT_STEP with 32 in *; change MaxFSMRequestSize with 8160 in *.

Lemma avail_to_cat_byte avail : 0 <= avail -> is_u 8 (fsm_space_avail_to_cat avail) /\
  fsm_space_cat_to_avail (fsm_space_avail_to_cat avail) <= avail.
Proof.
  intros. unfold fsm_space_avail_to_cat, fsm_space_cat_to_avail. fsm_consts.
  pose proof (Z.div_mod avail 32 ltac:(lia)). pose proof (Z.mod_pos_bound avail 32 ltac:(lia)).
  pose proof (Z.div_pos avail 32 ltac:(lia) ltac:(lia)).
  destruct (Z.leb_spec 8160 avail); [unfold is_u; simpl; lia|].
  destruct (Z.ltb_spec 254 (avail / 32)); rewrite wrapu_small by (unfold is_u; lia); unfold is_u; repeat zcase; lia.
Qed.

Lemma needed_to_cat_ok needed : 0 <= needed <= MaxFSMRequestSize ->
  exists c, fsm_space_needed_to_cat needed = Ok c /\ 1 <= c <= 255 /\
    forall c', c <= c' <= 255 -> needed <= fsm_space_cat_to_avail c'.
Proof.
  intros Hn. unfold fsm_space_needed_to_cat, fsm_space_cat_to_avail. fsm_consts.
  destruct (Z.ltb_spec 8160 needed); [lia|]. destruct (Z.eqb_spec needed 0) as [->|].
  { exists 1. split_and!; try lia; [done|]. intros. zcase; lia. }
  pose proof (Z.div_mod (needed + 32 - 1) 32 ltac:(lia)). pose proof (Z.mod_pos_bound (needed + 32 - 1) 32 ltac:(lia)).
  eexists. split; [done|]. destruct (Z.ltb_spec 255 ((needed + 32 - 1) / 32)); [lia|]. rewrite wrapu_small by (unfold is_u; lia).
  split; [lia|]. intros c' Hc'. zcase; lia.
Qed.

(** Free space categories are safe and tight: a request is granted on a page only if
    the page has that much space; the recorded amount never exceeds the real one and
    understates it by less than one step below the largest category; a page with a step
    to spare is always good enough; larger requests than a tuple can need are rejected. *)
Theorem fsm_category_sound needed avail : 0 <= needed -> 0 <= avail ->
  (needed <= MaxFSMRequestSize -> exists c, fsm_space_needed_to_cat needed = Ok c /\ 1 <= c <= 255 /\
     (c <= fsm_space_avail_to_cat avail -> needed <= avail) /\
     (0 < needed -> needed + FSM_CAT_STEP - 1 <= avail -> c <= fsm_space_avail_to_cat avail)) /\
  (MaxFSMRequestSize < needed -> fsm_space_needed_to_cat needed = Err "invalid FSM request size") /\
  fsm_space_cat_to_avail (fsm_space_avail_to_cat avail) <= avail /\
  (avail < MaxFSMRequestSize -> avail - fsm_space_cat_to_avail (fsm_space_avail_to_cat avail) < FSM_CAT_STEP).
Proof.
  intros Hn Ha. destruct (avail_to_cat_byte avail Ha) as [Hb Hle]. unfold is_u in Hb. split_and!; [| |done|].
  - intros Hmax. destruct (needed_to_cat_ok needed ltac:(lia)) as (c & E & Hc & Hsound). exists c. split_and!; try done; try lia.
    + intros Hcat. specialize (Hsound (fsm_space_avail_to_cat avail) ltac:(lia)). lia.
    + intros Hpos Hroom. unfold fsm_space_needed_to_cat, fsm_space_avail_to_cat in *. fsm_consts.
      destruct (Z.leb_spec 8160 avail); [lia|]. destruct (Z.ltb_spec 8160 needed); [lia|].
      destruct (Z.eqb_spec needed 0); [lia|]. injection E as <-.
      assert ((needed + 32 - 1) / 32 <= avail / 32) by (apply Z.div_le_mono; lia).
      assert (avail / 32 <= 254) by (apply (Z.div_le_mono _ 8159 32); lia).
      assert (0 <= (needed + 32 - 1) / 32) by (apply Z.div_pos; lia).
      repeat zcase; try lia; rewrite !wrapu_small by (unfold is_u; lia); lia.
  - intros Hbig. unfold fsm_space_needed_to_cat. zcase; [done|lia].
  - intros Hsmall. unfold fsm_space_avail_to_cat, fsm_space_cat_to_avail. fsm_consts.
    pose proof (Z.div_mod avail 32 ltac:(lia)). pose proof (Z.mod_pos_bound avail 32 ltac:(lia)).
    destruct (Z.leb_spec 8160 avail); [lia|].
    destruct (Z.ltb_spec 254 (avail / 32)); rewrite wrapu_small by (unfold is_u; lia); zcase; lia.
Qed.

Lemma fsm_category_sound_witness :
  fsm_space_cat_to_avail (fsm_space_avail_to_cat 1000) <= 1000 /\
  exists c, fsm_space_needed_to_cat 900 = Ok c /\ (c <= fsm_space_avail_to_cat 1000 -> 900 <= 1000).
Proof.
  destruct (fsm_category_sound 900 1000 ltac:(lia) ltac:(lia)) as (H1 & _ & H2 & _). split; [exact H2|].
  destruct H1 as (c & E & _ & H & _); [vm_compute; discriminate|]. exists c. split; [exact E|exact H].
Defined.
