(* ===== verification/FreeSpaceSpec.v ===== *)
(** Theorems about the free space map: the correctness of src/pg-src/src/backend/storage/freespace/freespace.c
    as modelled in FreeSpace.v.

    The class [FSMPageLaws] states what the tree relies on about a page; FsmPage.v's
    lemmas discharge it for real pages (instance [fsmpage_laws]).  Everything after it is
    proved for any page type with these laws.  A map is abstracted to the function
    [map_slot] from tree addresses and slots to recorded categories, missing pages
    reading as zero; [recorded] is that function at heap blocks. *)

From S2P Require Import Prelude FsmPage FreeSpace.

(** ** Address arithmetic *)

(** The pages of the complete tree: [4069^(2 - level)] of them at each level. *)
Definition level_size (l : Z) : Z := if l =? 0 then 4069 * 4069 else if l =? 1 then 4069 else 1.
Definition valid_addr (a : FSMAddress) : Prop :=
  0 <= level a <= 2 /\ 0 <= logpageno a < level_size (level a).

Lemma valid_root : valid_addr FSM_ROOT_ADDRESS.
Proof. unfold valid_addr, FSM_ROOT_ADDRESS. simpl. done. Qed.

(** Depth-first position: an upper page is followed by the pages below it. *)
Definition position (a : FSMAddress) : Z :=
  if level a =? 2 then 0
  else if level a =? 1 then 4070 * logpageno a + 1
  else 4070 * (logpageno a / 4069) + logpageno a `mod` 4069 + 2.

Lemma i32_small x : - 2 ^ 31 <= x < 2 ^ 31 -> i32 x = x.
Proof. intros. by apply wraps_small. Qed.

Lemma count3 leaf : 0 <= leaf < 4069 * 4069 ->
  count_pages (Z.to_nat FSM_TREE_DEPTH) 0 leaf = leaf + leaf / 4069 + 3.
Proof.
  intros Hl. change (Z.to_nat FSM_TREE_DEPTH) with 3%nat. cbn [count_pages]. fsm_consts.
  pose proof (Z.div_pos leaf 4069 ltac:(lia) ltac:(lia)).
  assert (leaf / 4069 < 4069) by (apply Z.div_lt_upper_bound; lia).
  rewrite (wrapu_small 64 leaf) by (unfold is_u; lia).
  rewrite (i32_small (leaf / 4069)) by lia.
  rewrite (wrapu_small 64 (leaf / 4069)) by (unfold is_u; lia). rewrite (Z.div_small (leaf / 4069)) by lia.
  unwrap. lia.
Qed.

Lemma physical_position a : valid_addr a -> fsm_logical_to_physical a = position a.
Proof.
  destruct a as [l p]. unfold valid_addr, level_size, position, fsm_logical_to_physical.
  cbn [level logpageno]. intros [Hl Hp].
  assert (l = 0 \/ l = 1 \/ l = 2) as [->|[->| ->]] by lia.
  - change (Z.to_nat 0) with 0%nat. cbv [first_leaf Z.eqb Pos.eqb] in *.
    rewrite count3 by lia. pose proof (Z.div_mod p 4069 ltac:(lia)). pose proof (Z.mod_pos_bound p 4069 ltac:(lia)).
    pose proof (Z.div_pos p 4069 ltac:(lia) ltac:(lia)). unwrap. lia.
  - change (Z.to_nat 1) with 1%nat. cbv [first_leaf Z.eqb Pos.eqb] in *.
    change SlotsPerFSMPage with 4069. rewrite (i32_small (p * 4069)) by lia.
    rewrite count3 by lia. rewrite Z.div_mul by lia. unwrap. simpl. lia.
  - assert (p = 0) as -> by (simpl in Hp; lia). vm_compute. done.
Qed.

Lemma position_range a : valid_addr a -> 0 <= position a < 2 ^ 31.
Proof.
  destruct a as [l p]. unfold valid_addr, level_size, position. simpl. intros [Hl Hp].
  pose proof (Z.div_pos p 4069). pose proof (Z.mod_pos_bound p 4069 ltac:(lia)).
  assert (p < 4069 * 4069 -> p / 4069 < 4069) by (intros; apply Z.div_lt_upper_bound; lia).
  repeat zcase; lia.
Qed.

Lemma position_inj a b : valid_addr a -> valid_addr b -> position a = position b -> a = b.
Proof.
  destruct a as [l p], b as [l' p']. unfold valid_addr, level_size, position. simpl. intros [Hl Hp] [Hl' Hp'] E.
  pose proof (Z.div_mod p 4069 ltac:(lia)). pose proof (Z.mod_pos_bound p 4069 ltac:(lia)).
  pose proof (Z.div_mod p' 4069 ltac:(lia)). pose proof (Z.mod_pos_bound p' 4069 ltac:(lia)).
  pose proof (Z.div_pos p 4069). pose proof (Z.div_pos p' 4069).
  f_equal; repeat zcase; lia.
Qed.

Lemma div_slot p s : 0 <= s < 4069 -> (p * 4069 + s) / 4069 = p.
Proof. intros. rewrite Z.div_add_l, Z.div_small by lia. lia. Qed.
Lemma mod_slot p s : 0 <= s < 4069 -> (p * 4069 + s) `mod` 4069 = s.
Proof. intros. rewrite Z.add_comm, Z_mod_plus_full. by apply Z.mod_small. Qed.

Lemma child_valid a s : valid_addr a -> 1 <= level a -> 0 <= s < SlotsPerFSMPage ->
  valid_addr (fsm_get_child a s) /\ fsm_get_child a s = {| level := level a - 1; logpageno := logpageno a * 4069 + s |} /\
  position a < position (fsm_get_child a s).
Proof.
  destruct a as [l p]. unfold valid_addr, level_size, fsm_get_child, position. simpl. intros [Hl Hp] H1 Hs. fsm_consts.
  assert (l = 1 \/ l = 2) as [->| ->] by lia; simpl in *; rewrite (wrapu_small 64) by (unfold is_u; lia);
    rewrite i32_small by lia; (split; [lia|]); (split; [done|]); [|lia].
  rewrite div_slot, mod_slot by lia. lia.
Qed.

Lemma parent_child a s : valid_addr a -> 1 <= level a -> 0 <= s < SlotsPerFSMPage ->
  fsm_get_parent (fsm_get_child a s) = (a, s).
Proof.
  intros Ha H1 Hs. destruct (child_valid a s Ha H1 Hs) as (_ & -> & _). destruct a as [l p], Ha as [Hl Hp].
  unfold fsm_get_parent, level_size in *. simpl in *. fsm_consts.
  assert (0 <= p < 4069) by (revert Hp; repeat zcase; lia).
  rewrite (wrapu_small 64) by (unfold is_u; lia).
  rewrite div_slot, mod_slot by lia. unwrap. do 2 f_equal. lia.
Qed.

Lemma child_parent a : valid_addr a -> level a < 2 ->
  let '(pa, s) := fsm_get_parent a in
  valid_addr pa /\ level pa = level a + 1 /\ 0 <= s < SlotsPerFSMPage /\ fsm_get_child pa s = a /\ position pa < position a.
Proof.
  destruct a as [l p]. intros [Hl Hp] Hlt. unfold fsm_get_parent. simpl in *. fsm_consts.
  assert (0 <= p < 4069 * 4069) by (revert Hp; unfold level_size; repeat zcase; lia).
  pose proof (Z.div_mod p 4069 ltac:(lia)) as Ediv. pose proof (Z.mod_pos_bound p 4069 ltac:(lia)).
  pose proof (Z.div_pos p 4069 ltac:(lia) ltac:(lia)).
  assert (p / 4069 < 4069) by (apply Z.div_lt_upper_bound; lia).
  rewrite (wrapu_small 64) by (unfold is_u; lia). rewrite i32_small, (wrapu_small 16) by (unfold is_u; lia).
  assert (valid_addr {| level := l + 1; logpageno := p / 4069 |}) as Hv.
  { split; simpl; [lia|]. revert Hp. unfold level_size. repeat zcase; intros; lia. }
  destruct (child_valid _ (p `mod` 4069) Hv) as (_ & Hc & Hpos); [simpl; lia|fsm_consts; lia|].
  assert (fsm_get_child {| level := l + 1; logpageno := p / 4069 |} (p `mod` 4069) = {| level := l; logpageno := p |}) as Hc'.
  { rewrite Hc. simpl. f_equal; lia. }
  rewrite Hc' in Hpos. split_and!; auto; lia.
Qed.

Lemma location_valid blk : is_u 32 blk ->
  let '(a, s) := fsm_get_location blk in
  valid_addr a /\ level a = 0 /\ 0 <= s < SlotsPerFSMPage /\ fsm_get_heap_blk a s = blk.
Proof.
  intros Hb. unfold is_u in Hb. unfold fsm_get_location, fsm_get_heap_blk, valid_addr, level_size. fsm_consts. simpl.
  pose proof (Z.div_mod blk 4069 ltac:(lia)) as Ediv. pose proof (Z.mod_pos_bound blk 4069 ltac:(lia)).
  pose proof (Z.div_pos blk 4069 ltac:(lia) ltac:(lia)).
  rewrite i32_small, (wrapu_small 16) by (unfold is_u; lia). split_and!; try lia.
  rewrite (wrapu_small 32 (blk / 4069)) by (unfold is_u; lia). rewrite wrapu_small by (unfold is_u; lia). lia.
Qed.

(** ** What the tree relies on about a page *)

Class FSMPageLaws (P : Type) {OP : FSMPageOps P} := {
  page_ok : P -> Prop;           (** any page, torn or not *)
  page_wf : P -> Prop;           (** the inner nodes agree with the slots *)
  page_slot : P -> Z -> Z;
  wf_ok p : page_wf p -> page_ok p;
  slot_byte p s : page_ok p -> is_u 8 (page_slot p s);
  new_law : page_wf new_page /\ forall s, page_slot new_page s = 0;
  set_law p s v : page_ok p -> 0 <= s < SlotsPerFSMPage -> is_u 8 v ->
    exists p' m, page_set_avail p s v = Ok (p', m) /\ page_ok p' /\ (page_wf p -> page_wf p') /\
      forall i, 0 <= i < SlotsPerFSMPage -> page_slot p' i = if decide (i = s) then v else page_slot p i;
  get_law p s : page_ok p -> 0 <= s < SlotsPerFSMPage -> page_get_avail p s = Ok (page_slot p s);
  max_law p : page_ok p -> exists mx, page_get_max_avail p = Ok mx /\ is_u 8 mx /\
    (page_wf p -> (forall s, 0 <= s < SlotsPerFSMPage -> page_slot p s <= mx) /\
                  exists s, 0 <= s < SlotsPerFSMPage /\ page_slot p s = mx);
  search_law relock p v adv excl : page_ok p -> is_u 8 v -> (forall q, page_ok q -> page_ok (relock q)) ->
    exists p' r d, page_search_avail relock p v adv excl = Ok (p', r, d) /\ page_ok p' /\
      (r = -1 \/ (0 <= r < SlotsPerFSMPage /\ v <= page_slot p' r)) /\
      (page_wf p -> page_wf p' /\ (forall s, 0 <= s < SlotsPerFSMPage -> page_slot p' s = page_slot p s) /\
         (r = -1 -> forall s, 0 <= s < SlotsPerFSMPage -> page_slot p s < v));
  truncate_law p n : page_wf p -> 0 <= n < SlotsPerFSMPage ->
    exists p' c, page_truncate_avail p n = Ok (p', c) /\ page_wf p' /\
      forall s, 0 <= s < SlotsPerFSMPage -> page_slot p' s = if decide (s < n) then page_slot p s else 0;
  reset_law p : page_ok p -> page_ok (page_reset_next p) /\ (page_wf p -> page_wf (page_reset_next p)) /\
    page_get_max_avail (page_reset_next p) = page_get_max_avail p /\
    forall s, page_slot (page_reset_next p) s = page_slot p s
}.

#[export] Instance fsmpage_laws : FSMPageLaws FSMPageData.
Proof.
  refine {| page_ok := page_shape; page_wf := fsm_wf; page_slot := fun p s => slot_value (fp_nodes p) s |}.
  - intros p [H _]. exact H.
  - intros p s [_ Hb]. apply nthZ_byte, Hb.
  - split; [apply zero_page_wf|]. intros s. apply nthZ_replicate_0.
  - intros p s v Hp Hs Hv. destruct (set_avail_ok p s v Hp Hs Hv) as (p' & m & E & Hsh & _ & Hsl & _ & Hwf & _).
    exists p', m. split_and!; auto. intros i Hi. apply Hsl. lia.
  - intros p s Hp Hs. by apply get_avail_slot.
  - intros p [Hlen Hb]. exists (nthZ (fp_nodes p) 0). split_and!.
    + apply aget_nthZ. sizes. lia.
    + apply nthZ_byte, Hb.
    + intros Hwf. destruct (max_avail_ok p Hwf) as (mx & E & H1 & H2). unfold fsm_get_max_avail in E.
      rewrite aget_nthZ in E by (sizes; lia). injection E as ->. auto.
  - intros relock p v adv excl Hp Hv Hr. destruct (search_any relock p v adv excl Hp Hv Hr) as (p' & r & d & E & Hsh & Hres & _).
    exists p', r, d. split_and!; [done..| |].
    + destruct Hres as [->|(? & ? & _)]; auto.
    + intros Hwf. destruct (search_wf 1 relock p v adv excl false Hwf Hv) as [[Hlow E2]|(r2 & Hfirst & E2)];
        unfold page_search_avail, fsmpage_ops, fsm_search_avail in E; rewrite E2 in E; injection E as <- <- _.
      * split_and!; [done..|]. intros _ s Hs. destruct Hwf as [_ Hh].
        pose proof (heap_root_upper (fp_nodes p) s Hh ltac:(sizes; lia)). lia.
      * split_and!; [by destruct Hwf|done|]. destruct Hfirst. lia.
  - intros p n Hwf Hn. destruct (truncate_ok p n Hwf Hn) as (p' & c & E & Hwf' & _ & _ & Hs).
    exists p', c. split_and!; auto. intros s Hs'. apply Hs. lia.
  - intros p Hp. split_and!; try done; by intros [].
Defined.

(** ** Reading pages *)

Section Tree.
Context {P : Type} {OP : FSMPageOps P} {LP : FSMPageLaws P}.
Implicit Type rel : Relation P.

(** A relation whose map may hold anything, but whose size cache is not ahead of the
    file (truncation invalidates it). *)
Record rel_ok (rel : Relation P) : Prop := {
  ok_pages : Forall page_ok (fsm_pages rel);
  ok_cache : forall n, fsm_cached rel = Some n -> n <= fsm_nblocks rel;
  ok_exists : fsm_exists rel = false -> fsm_pages rel = []
}.

Definition page_at (rel : Relation P) (a : FSMAddress) : option P := fsm_pages rel !! Z.to_nat (position a).

(** Two relations that differ at most in the cached size. *)
Definition same_file (rel rel' : Relation P) : Prop :=
  fsm_pages rel' = fsm_pages rel /\ fsm_exists rel' = fsm_exists rel /\
  main_nblocks rel' = main_nblocks rel /\ main_cached rel' = main_cached rel.

Lemma page_at_Some rel a : valid_addr a -> position a < fsm_nblocks rel -> exists p, page_at rel a = Some p.
Proof.
  intros Ha Hlt. pose proof (position_range a Ha). apply lookup_lt_is_Some_2. unfold fsm_nblocks in Hlt. lia.
Qed.

Lemma page_at_None rel a : valid_addr a -> fsm_nblocks rel <= position a -> page_at rel a = None.
Proof. intros Ha Hge. apply lookup_ge_None_2. unfold fsm_nblocks in Hge. lia. Qed.

Lemma page_at_lt rel a p : valid_addr a -> page_at rel a = Some p -> position a < fsm_nblocks rel.
Proof.
  intros Ha Hp. apply lookup_lt_Some in Hp. pose proof (position_range a Ha). unfold fsm_nblocks. lia.
Qed.

Lemma page_at_aget rel a p : valid_addr a -> page_at rel a = Some p -> aget (fsm_pages rel) (position a) = Ok p.
Proof. intros Ha Hp. apply aget_Ok. split; [apply position_range, Ha|done]. Qed.

Lemma page_at_ok rel a p : rel_ok rel -> page_at rel a = Some p -> page_ok p.
Proof. intros Hr Hp. eapply Forall_lookup_1; [apply Hr|done]. Qed.

(** The answer of [fsm_readbuf] does not depend on the cache. *)
Lemma readbuf_spec rel a extend : rel_ok rel -> valid_addr a ->
  exists rel', same_file rel rel' /\ rel_ok rel' /\
    fsm_readbuf rel a extend =
      (if position a <? fsm_nblocks rel then (rel', Some (position a))
       else if extend then (fst (fsm_extend rel' (position a + 1)), Some (position a))
       else (rel', None)).
Proof.
  intros [Hpg Hc He] Ha. unfold fsm_readbuf. rewrite physical_position by done. pose proof (position_range a Ha).
  set (stale := bool_decide _ || _). assert (same_file rel (refresh_cache rel) /\ rel_ok (refresh_cache rel)) as [Hsf Hok].
  { split; [done|]. split; [done| |done]. intros n. unfold refresh_cache. simpl.
    destruct (fsm_exists rel) eqn:E; intros [= <-]; unfold fsm_nblocks; simpl; lia. }
  assert (fsm_exists rel = false -> fsm_nblocks rel = 0) as Hn0 by (intros E; unfold fsm_nblocks; by rewrite (He E)).
  cbn [fsm_extend fst]. replace (position a + 1 - 1) with (position a) by lia.
  destruct stale eqn:Es.
  - exists (refresh_cache rel). split_and!; [done..|]. unfold past_cached, refresh_cache. cbn [fsm_cached set_cached].
    destruct (fsm_exists rel); [|rewrite (Hn0 eq_refl)]; repeat zcase; (done || lia).
  - exists rel. unfold stale in Es. apply orb_false_iff in Es as [En%bool_decide_eq_false Ep]. split_and!; [done..|].
    rewrite Ep. destruct (fsm_cached rel) as [n|] eqn:Ec; [|done]. specialize (Hc n eq_refl).
    unfold past_cached in Ep. rewrite Ec in Ep. repeat zcase; (done || lia).
Qed.

(** The recorded category: 0 where the map has no page. *)
Definition map_slot (rel : Relation P) (a : FSMAddress) (s : Z) : Z :=
  match page_at rel a with Some p => page_slot p s | None => 0 end.
Definition all_wf (rel : Relation P) : Prop := Forall page_wf (fsm_pages rel).
Definition same_main (rel rel' : Relation P) : Prop :=
  main_nblocks rel' = main_nblocks rel /\ main_cached rel' = main_cached rel.

#[export] Instance FSMAddress_eq_dec : EqDecision FSMAddress.
Proof. solve_decision. Defined.

Lemma same_file_facts rel rel' : same_file rel rel' ->
  fsm_nblocks rel' = fsm_nblocks rel /\ (forall a, page_at rel' a = page_at rel a) /\
  (forall a s, map_slot rel' a s = map_slot rel a s) /\ (all_wf rel -> all_wf rel') /\ same_main rel rel'.
Proof.
  intros (E & _ & ? & ?). unfold fsm_nblocks, map_slot, page_at, all_wf. rewrite E. done.
Qed.

(** Writing back the page of an address. *)
Lemma write_spec rel a p p' : rel_ok rel -> valid_addr a -> page_at rel a = Some p -> page_ok p' ->
  exists rel', write_page rel (position a) p' = Ok rel' /\ rel_ok rel' /\ same_main rel rel' /\
    fsm_nblocks rel' = fsm_nblocks rel /\ page_at rel' a = Some p' /\
    (forall b, valid_addr b -> b <> a -> page_at rel' b = page_at rel b) /\
    (all_wf rel -> page_wf p' -> all_wf rel').
Proof.
  intros [Hpg Hc He] Ha Hp Hp'. pose proof (page_at_lt rel a p Ha Hp) as Hlt. pose proof (position_range a Ha) as Hr.
  unfold fsm_nblocks in Hlt. unfold write_page. rewrite aset_Ok by lia. rewrite bind_val. eexists. split; [done|].
  set (pages' := <[_ := p']> _). assert (length pages' = length (fsm_pages rel)) as Hlen by apply length_insert.
  split_and!.
  - split; simpl.
    + by apply Forall_insert.
    + intros n E. unfold fsm_nblocks. simpl. rewrite Hlen. by apply Hc.
    + intros E. rewrite (He E) in Hlt. simpl in Hlt. lia.
  - done.
  - unfold fsm_nblocks. simpl. by rewrite Hlen.
  - unfold page_at, pages'. simpl. apply list_lookup_insert_eq. lia.
  - intros b Hb Hne. unfold page_at, pages'. simpl. apply list_lookup_insert_ne.
    intros E. apply Hne, position_inj; try done. pose proof (position_range b Hb). lia.
  - intros Hw Hw'. by apply Forall_insert.
Qed.

Lemma extend_spec rel n : rel_ok rel -> fsm_nblocks rel <= n -> n < 2 ^ 32 - 1 ->
  let rel' := fst (fsm_extend rel n) in
  rel_ok rel' /\ same_main rel rel' /\ fsm_nblocks rel' = n /\ (all_wf rel -> all_wf rel') /\
  (forall a s, map_slot rel' a s = map_slot rel a s).
Proof.
  intros [Hpg Hc He] Hn Hb rel'. destruct new_law as [Hnew Hslot].
  assert (fsm_nblocks rel' = n) as HN.
  { unfold fsm_nblocks in *. simpl. rewrite length_app, length_replicate. unfold fsm_nblocks. lia. }
  split_and!; [split; simpl; [|done|done]|done|done| |].
  - apply Forall_app. split; [done|]. apply Forall_replicate. by apply wf_ok.
  - intros Hw. apply Forall_app. split; [done|]. by apply Forall_replicate.
  - intros a s. unfold map_slot, page_at. simpl. destruct (fsm_pages rel !! Z.to_nat (position a)) eqn:E.
    + by rewrite (lookup_app_l_Some _ _ _ _ E).
    + rewrite lookup_app_r by (by apply lookup_ge_None_1). destruct (replicate _ _ !! _) eqn:E2; [|done].
      apply lookup_replicate in E2 as [-> _]. done.
Qed.

(** [fsm_readbuf] with extension: the page exists afterwards, new pages being empty. *)
Lemma readbuf_extend rel a : rel_ok rel -> valid_addr a ->
  exists rel', fsm_readbuf rel a true = (rel', Some (position a)) /\ rel_ok rel' /\ same_main rel rel' /\
    (exists p, page_at rel' a = Some p) /\ (all_wf rel -> all_wf rel') /\
    fsm_nblocks rel' = Z.max (fsm_nblocks rel) (position a + 1) /\
    (forall b s, map_slot rel' b s = map_slot rel b s).
Proof.
  intros Hok Ha. destruct (readbuf_spec rel a true Hok Ha) as (rel1 & Hsf & Hok1 & ->).
  destruct (same_file_facts _ _ Hsf) as (HN & _ & Hms & Hw & Hm). pose proof (position_range a Ha).
  destruct (Z.ltb_spec (position a) (fsm_nblocks rel)).
  - exists rel1. split_and!; auto; [apply page_at_Some; [done|lia]|lia].
  - destruct (extend_spec rel1 (position a + 1)) as (Hok2 & Hm2 & HN2 & Hw2 & Hms2); [done|lia|lia|].
    eexists. split; [done|]. split_and!; [done| | |auto| |].
    + destruct Hm, Hm2. split; congruence.
    + apply page_at_Some; [done|]. rewrite HN2. lia.
    + rewrite HN2. lia.
    + intros b s. by rewrite Hms2.
Qed.

Context (relock : P -> P) (Hrelock : forall q, page_ok q -> page_ok (relock q)).

Lemma map_slot_byte rel a s : rel_ok rel -> is_u 8 (map_slot rel a s).
Proof.
  intros Hok. unfold map_slot. destruct (page_at rel a) eqn:E; [|unfold is_u; lia].
  eapply slot_byte, page_at_ok; done.
Qed.

(** The updates of a single slot, without a search. *)
Definition slot_set (rel rel' : Relation P) (a : FSMAddress) (slot v : Z) : Prop :=
  forall b s, valid_addr b -> 0 <= s < SlotsPerFSMPage ->
    map_slot rel' b s = if decide (b = a /\ s = slot) then v else map_slot rel b s.

Lemma set_and_search_spec rel a slot v mv :
  rel_ok rel -> valid_addr a -> 0 <= slot < SlotsPerFSMPage -> is_u 8 v -> is_u 8 mv ->
  exists rel' r, fsm_set_and_search relock rel a slot v mv = Ok (rel', r) /\ rel_ok rel' /\ same_main rel rel' /\
    fsm_nblocks rel' = Z.max (fsm_nblocks rel) (position a + 1) /\ (all_wf rel -> all_wf rel') /\
    (mv = 0 -> r = -1) /\ (r = -1 \/ (0 <= r < SlotsPerFSMPage /\ mv <= map_slot rel' a r)) /\
    (mv = 0 \/ all_wf rel -> slot_set rel rel' a slot v) /\
    (mv <> 0 -> all_wf rel -> r = -1 -> forall s, 0 <= s < SlotsPerFSMPage -> map_slot rel' a s < mv).
Proof.
  intros Hok Ha Hslot Hv Hmv. unfold fsm_set_and_search.
  destruct (readbuf_extend rel a Hok Ha) as (rel1 & -> & Hok1 & Hm1 & (p & Hp) & Hw1 & HN1 & Hms1).
  cbv beta iota. rewrite (page_at_aget _ _ _ Ha Hp), bind_val.
  pose proof (page_at_ok _ _ _ Hok1 Hp) as Hpok.
  assert (all_wf rel1 -> page_wf p) as Hpwf by (intros H; by apply (Forall_lookup_1 _ _ _ _ H Hp)).
  destruct (set_law p slot v Hpok Hslot Hv) as (p1 & m & -> & Hp1ok & Hp1wf & Hp1). rewrite bind_val.
  assert (exists p2 r, (if negb (mv =? 0) then
       '(page, s, _) ← page_search_avail relock p1 mv (level a =? FSM_BOTTOM_LEVEL) true; Ok (page, s)
       else Ok (p1, -1)) = Ok (p2, r) /\ page_ok p2 /\ (mv = 0 -> r = -1 /\ p2 = p1) /\
     (r = -1 \/ (0 <= r < SlotsPerFSMPage /\ mv <= page_slot p2 r)) /\
     (page_wf p1 -> page_wf p2 /\ (forall s, 0 <= s < SlotsPerFSMPage -> page_slot p2 s = page_slot p1 s) /\
        (mv <> 0 -> r = -1 -> forall s, 0 <= s < SlotsPerFSMPage -> page_slot p1 s < mv))) as (p2 & r & -> & Hp2ok & Hmv0 & Hr & Hp2).
  { destruct (Z.eqb_spec mv 0) as [->|Hne]; cbn [negb].
    - exists p1, (-1). split_and!; auto. intros ?. split_and!; auto. lia.
    - destruct (search_law relock p1 mv (level a =? FSM_BOTTOM_LEVEL) true Hp1ok Hmv Hrelock) as (p2 & r & d & -> & ? & ? & Hwf).
      exists p2, r. rewrite bind_val. split_and!; auto; [lia|]. intros Hw. destruct (Hwf Hw) as (? & ? & ?). auto. }
  rewrite bind_val.
  destruct (write_spec rel1 a p p2 Hok1 Ha Hp Hp2ok) as (rel2 & -> & Hok2 & Hm2 & HN2 & Hpa & Hother & Hw2). rewrite bind_val.
  exists rel2, r. split_and!; try done.
  - destruct Hm1, Hm2. split; congruence.
  - lia.
  - intros Hw. apply Hw2; [auto|]. apply Hp2. auto.
  - intros E. by apply Hmv0.
  - unfold map_slot. rewrite Hpa. done.
  - intros Hor b s Hb Hs. destruct (decide (b = a)) as [->|Hne].
    + unfold map_slot at 1. rewrite Hpa. assert (page_slot p2 s = page_slot p1 s) as ->.
      { destruct Hor as [H0|Hw]; [by destruct (Hmv0 H0) as [_ ->]|]. apply Hp2; auto. }
      rewrite Hp1 by done. rewrite <- (Hms1 a s). unfold map_slot. rewrite Hp. repeat case_decide; naive_solver.
    + rewrite decide_False by naive_solver. rewrite <- Hms1. unfold map_slot. by rewrite Hother.
  - intros Hne Hw Hr1 s Hs. unfold map_slot. rewrite Hpa. destruct (Hp2 ltac:(auto)) as (_ & Heq & Hlow).
    rewrite Heq by done. by apply Hlow.
Qed.

(** ** Recorded categories *)

Definition recorded (rel : Relation P) (blk : Z) : Z :=
  let '(a, s) := fsm_get_location blk in map_slot rel a s.

Lemma location_inj b1 b2 : is_u 32 b1 -> is_u 32 b2 -> fsm_get_location b1 = fsm_get_location b2 -> b1 = b2.
Proof.
  intros H1 H2 E. pose proof (location_valid b1 H1) as L1. pose proof (location_valid b2 H2) as L2. rewrite <- E in L2.
  destruct (fsm_get_location b1) as [a s]. destruct L1 as (_ & _ & _ & <-), L2 as (_ & _ & _ & <-). done.
Qed.

Lemma record_spec rel blk avail : rel_ok rel -> is_u 32 blk -> 0 <= avail ->
  exists rel', RecordPageWithFreeSpace relock rel blk avail = Ok rel' /\ rel_ok rel' /\ same_main rel rel' /\
    (all_wf rel -> all_wf rel') /\
    (forall b, is_u 32 b -> recorded rel' b = if decide (b = blk) then fsm_space_avail_to_cat avail else recorded rel b) /\
    (forall a s, valid_addr a -> 1 <= level a -> 0 <= s < SlotsPerFSMPage -> map_slot rel' a s = map_slot rel a s).
Proof.
  intros Hok Hb Hav. unfold RecordPageWithFreeSpace. pose proof (location_valid blk Hb) as Hloc.
  destruct (fsm_get_location blk) as [a slot] eqn:Eloc. destruct Hloc as (Ha & Hl & Hs & _).
  destruct (avail_to_cat_byte avail Hav) as [Hc _].
  destruct (set_and_search_spec rel a slot _ 0 Hok Ha Hs Hc ltac:(unfold is_u; lia))
    as (rel' & r & -> & Hok' & Hm & _ & Hw & _ & _ & Hset & _). rewrite bind_val.
  specialize (Hset (or_introl eq_refl)). exists rel'. split_and!; try done.
  - intros b Hb'. unfold recorded. pose proof (location_valid b Hb') as Hloc.
    destruct (fsm_get_location b) as [a' s'] eqn:Eloc'. destruct Hloc as (Ha' & _ & Hs' & _).
    rewrite Hset by done. destruct (decide (b = blk)) as [->|Hne].
    + rewrite decide_True; [done|]. rewrite Eloc in Eloc'. by injection Eloc' as <- <-.
    + rewrite decide_False; [done|]. intros [-> ->]. apply Hne, location_inj; congruence.
  - intros b s Hvb Hlb Hsb. rewrite Hset, decide_False by (done || (intros [-> _]; lia)). done.
Qed.

Lemma xlog_record_spec rel blk avail : rel_ok rel -> is_u 32 blk -> 0 <= avail ->
  exists rel', XLogRecordPageWithFreeSpace rel blk avail = Ok rel' /\ rel_ok rel' /\
    recorded rel' blk = fsm_space_avail_to_cat avail.
Proof.
  intros Hok Hb Hav. unfold XLogRecordPageWithFreeSpace, recorded. pose proof (location_valid blk Hb) as Hloc.
  destruct (fsm_get_location blk) as [a slot]. destruct Hloc as (Ha & Hl & Hs & _).
  destruct (avail_to_cat_byte avail Hav) as [Hc _]. rewrite physical_position by done. pose proof (position_range a Ha).
  assert (exists rel1, (if fsm_nblocks rel <=? position a then fsm_extend rel (position a + 1) else (rel, position a)) =
    (rel1, position a) /\ rel_ok rel1 /\ position a < fsm_nblocks rel1) as (rel1 & -> & Hok1 & Hlt).
  { destruct (Z.leb_spec (fsm_nblocks rel) (position a)); [|by exists rel].
    destruct (extend_spec rel (position a + 1)) as (Hok1 & _ & HN & _); [done|lia|lia|].
    eexists. split; [unfold fsm_extend; f_equal; lia|]. split; [exact Hok1|]. fold (fst (fsm_extend rel (position a + 1))).
    simpl in HN |- *. lia. }
  destruct (page_at_Some rel1 a Ha Hlt) as [p Hp]. rewrite (page_at_aget _ _ _ Ha Hp), bind_val.
  destruct (set_law p slot _ ltac:(by eapply page_at_ok) Hs Hc) as (p1 & m & -> & Hp1 & _ & Hsl). rewrite bind_val.
  destruct (write_spec rel1 a p p1 Hok1 Ha Hp Hp1) as (rel2 & E & Hok2 & _ & _ & Hpa & _). exists rel2.
  split_and!; [done..|]. unfold map_slot. rewrite Hpa, Hsl by done. by rewrite decide_True.
Qed.

Lemma get_recorded_spec rel blk : rel_ok rel -> is_u 32 blk ->
  exists rel', GetRecordedFreeSpace rel blk = Ok (rel', fsm_space_cat_to_avail (recorded rel blk)) /\
    same_file rel rel' /\ rel_ok rel'.
Proof.
  intros Hok Hb. unfold GetRecordedFreeSpace, recorded. pose proof (location_valid blk Hb) as Hloc.
  destruct (fsm_get_location blk) as [a slot]. destruct Hloc as (Ha & _ & Hs & _).
  destruct (readbuf_spec rel a false Hok Ha) as (rel1 & Hsf & Hok1 & ->). exists rel1.
  destruct (same_file_facts _ _ Hsf) as (HN & Hpa & Hms & _). destruct (Z.ltb_spec (position a) (fsm_nblocks rel)).
  - destruct (page_at_Some rel1 a Ha ltac:(lia)) as [p Hp]. rewrite (page_at_aget _ _ _ Ha Hp), bind_val.
    rewrite get_law by (done || by eapply page_at_ok). rewrite bind_val. rewrite <- Hms. unfold map_slot. by rewrite Hp.
  - unfold map_slot. rewrite page_at_None by done. done.
Qed.

(** ** Searching *)

Definition buf_of (rel : Relation P) (a : FSMAddress) : option Z :=
  if position a <? fsm_nblocks rel then Some (position a) else None.

Lemma readbuf_buf rel a : rel_ok rel -> valid_addr a ->
  exists rel', same_file rel rel' /\ rel_ok rel' /\ fsm_readbuf rel a false = (rel', buf_of rel' a).
Proof.
  intros Hok Ha. destruct (readbuf_spec rel a false Hok Ha) as (rel1 & Hsf & Hok1 & E). exists rel1.
  split_and!; [done..|]. destruct (same_file_facts _ _ Hsf) as (HN & _). unfold buf_of. rewrite E, HN. by zcase.
Qed.

Lemma search_page_spec rel a v bottom : rel_ok rel -> valid_addr a -> is_u 8 v ->
  exists rel' slot mx, search_page relock rel (buf_of rel a) v bottom = Ok (rel', slot, mx) /\ rel_ok rel' /\
    same_main rel rel' /\ fsm_nblocks rel' = fsm_nblocks rel /\ is_u 8 mx /\
    (slot = -1 \/ (position a < fsm_nblocks rel /\ 0 <= slot < SlotsPerFSMPage /\ v <= map_slot rel' a slot)) /\
    (all_wf rel -> all_wf rel' /\
       (forall b s, valid_addr b -> 0 <= s < SlotsPerFSMPage -> map_slot rel' b s = map_slot rel b s) /\
       (0 < v -> slot = -1 -> forall s, 0 <= s < SlotsPerFSMPage -> map_slot rel a s < v)).
Proof.
  intros Hok Ha Hv. unfold search_page, buf_of. destruct (Z.ltb_spec (position a) (fsm_nblocks rel)) as [Hlt|Hge].
  2:{ exists rel, (-1), 0. split_and!; [done..|unfold is_u; lia|by left|]. intros Hw. split_and!; [done..|].
      intros ? _ s _. unfold map_slot. rewrite page_at_None by done. lia. }
  destruct (page_at_Some rel a Ha Hlt) as [p Hp]. rewrite (page_at_aget _ _ _ Ha Hp), bind_val.
  pose proof (page_at_ok _ _ _ Hok Hp) as Hpok.
  destruct (search_law relock p v bottom false Hpok Hv Hrelock) as (p1 & r & d & -> & Hp1 & Hr & Hwf). rewrite bind_val.
  destruct (write_spec rel a p p1 Hok Ha Hp Hp1) as (rel1 & -> & Hok1 & Hm1 & HN1 & Hpa & Hother & Hw1). rewrite bind_val.
  assert (exists mx, (if r =? -1 then max_avail ← page_get_max_avail p1; Ok (rel1, r, max_avail) else Ok (rel1, r, 0)) =
    Ok (rel1, r, mx) /\ is_u 8 mx) as (mx & -> & Hmx).
  { destruct (max_law p1 Hp1) as (mx & E & Hmx & _). destruct (r =? -1); [exists mx; rewrite E, bind_val; done|].
    exists 0. split; [done|]. unfold is_u. lia. }
  exists rel1, r, mx. split_and!; try done.
  - destruct Hr as [?|[? ?]]; [by left|right]. split_and!; try done; try lia. unfold map_slot. by rewrite Hpa.
  - intros Hw. pose proof (Forall_lookup_1 _ _ _ _ Hw Hp) as Hpwf. destruct (Hwf Hpwf) as (Hp1wf & Heq & Hlow). split_and!.
    + by apply Hw1.
    + intros b s Hb Hs. unfold map_slot. destruct (decide (b = a)) as [->|]; [|by rewrite Hother].
      rewrite Hpa, Hp. by apply Heq.
    + intros _ E s Hs. unfold map_slot. rewrite Hp. by apply Hlow.
Qed.

(** [b] is a block whose slot in the map has at least the wanted category. *)
Definition found (rel : Relation P) (v b : Z) : Prop :=
  exists a s, valid_addr a /\ level a = 0 /\ position a < fsm_nblocks rel /\
    0 <= s < SlotsPerFSMPage /\ v <= map_slot rel a s /\ b = fsm_get_heap_blk a s.

Lemma search_loop_sound f : forall rel v a restarts,
  rel_ok rel -> valid_addr a -> is_u 8 v -> 0 <= restarts <= 10001 ->
  3 * (10002 - restarts) + level a < Z.of_nat f ->
  (level a < 2 -> position (fst (fsm_get_parent a)) < fsm_nblocks rel) ->
  exists rel' b, fsm_search_loop f relock rel v a restarts = Ok (rel', b) /\ rel_ok rel' /\
    same_main rel rel' /\ fsm_nblocks rel' = fsm_nblocks rel /\
    (b = InvalidBlockNumber \/ (fsm_does_block_exist rel' b = true /\ found rel' v b)).
Proof.
  induction f as [|f IH]; intros rel v a restarts Hok Ha Hv Hre Hf Hpar; [destruct Ha; lia|].
  cbn [fsm_search_loop].
  destruct (readbuf_buf rel a Hok Ha) as (rel1 & Hsf & Hok1 & ->). cbv beta iota.
  destruct (same_file_facts _ _ Hsf) as (HN1 & _ & _ & _ & Hm1).
  destruct (search_page_spec rel1 a v (level a =? FSM_BOTTOM_LEVEL) Hok1 Ha Hv)
    as (rel2 & slot & mx & -> & Hok2 & Hm2 & HN2 & Hmx & Hslot & _). rewrite bind_val.
  assert (same_main rel rel2) as Hm by (destruct Hm1, Hm2; split; congruence).
  assert (forall rel', same_main rel2 rel' -> same_main rel rel') as Htrans
    by (intros rel' [? ?]; destruct Hm; split; congruence).
  fsm_consts. destruct (Z.eqb_spec slot (-1)) as [->|Hfound]; cbn [negb].
  - destruct (Z.eqb_spec (level a) 2) as [Hroot|Hnroot].
    { exists rel2, InvalidBlockNumber. split_and!; [done|done|auto|lia|by left]. }
    assert (level a < 2) as Hlt by (destruct Ha; lia). pose proof (child_parent a Ha Hlt) as Hcp.
    specialize (Hpar Hlt). destruct (fsm_get_parent a) as [pa ps]. simpl in Hpar.
    destruct Hcp as (Hpa & Hlpa & Hps & _ & _).
    destruct (set_and_search_spec rel2 pa ps mx 0 Hok2 Hpa Hps Hmx ltac:(unfold is_u; lia))
      as (rel3 & r & -> & Hok3 & Hm3 & HN3 & _). rewrite bind_val.
    destruct (Z.ltb_spec 10000 restarts).
    { exists rel3, InvalidBlockNumber. split_and!; [done|done|auto|lia|by left]. }
    destruct (IH rel3 v FSM_ROOT_ADDRESS (restarts + 1)) as (rel' & b & E & Hok' & Hm' & HN' & Hb);
      [done|apply valid_root|done|lia| |simpl; fsm_consts; lia|].
    { destruct Ha. cbn [level FSM_ROOT_ADDRESS]. fsm_consts. lia. }
    exists rel', b. rewrite E. split_and!; [done|done|apply Htrans; destruct Hm3, Hm'; split; congruence|lia|done].
  - destruct Hslot as [?|(Hlt & Hs & Hge)]; [done|]. destruct (Z.eqb_spec (level a) 0) as [Hbot|Hnbot].
    + destruct (fsm_does_block_exist rel2 (fsm_get_heap_blk a slot)) eqn:Hex.
      { exists rel2, (fsm_get_heap_blk a slot). split_and!; [done|done|auto|lia|]. right. split; [done|].
        exists a, slot. split_and!; try done; fsm_consts; lia. }
      unfold buf_of. destruct (Z.ltb_spec (position a) (fsm_nblocks rel1)); [|lia].
      destruct (page_at_Some rel2 a Ha ltac:(lia)) as [p Hp]. rewrite (page_at_aget _ _ _ Ha Hp), bind_val.
      destruct (set_law p slot 0 ltac:(by eapply page_at_ok) Hs ltac:(unfold is_u; lia)) as (p1 & m & -> & Hp1 & _). rewrite bind_val.
      destruct (write_spec rel2 a p p1 Hok2 Ha Hp Hp1) as (rel3 & -> & Hok3 & Hm3 & HN3 & _). rewrite bind_val.
      destruct (Z.ltb_spec 10000 restarts).
      { exists rel3, InvalidBlockNumber. split_and!; [done|done|auto|lia|by left]. }
      destruct (child_valid FSM_ROOT_ADDRESS slot valid_root) as (Hcv & Hce & Hcp); [done|done|].
      destruct (IH rel3 v (fsm_get_child FSM_ROOT_ADDRESS slot) (restarts + 1)) as (rel' & b & E & Hok' & Hm' & HN' & Hb);
        [done|done|done|lia| | |].
      { rewrite Hce. cbn [level FSM_ROOT_ADDRESS]. fsm_consts. lia. }
      { intros _. rewrite (parent_child FSM_ROOT_ADDRESS slot valid_root) by done. cbn [fst].
        pose proof (position_range a Ha). change (position FSM_ROOT_ADDRESS) with 0. lia. }
      exists rel', b. rewrite E. split_and!; [done|done|apply Htrans; destruct Hm3, Hm'; split; congruence|lia|done].
    + assert (1 <= level a) as H1 by (destruct Ha; lia). destruct (child_valid a slot Ha H1 Hs) as (Hcv & Hce & Hcp).
      destruct (IH rel2 v (fsm_get_child a slot) restarts) as (rel' & b & E & Hok' & Hm' & HN' & Hb);
        [done|done|done|done| | |].
      { rewrite Hce. cbn [level]. lia. }
      { intros _. rewrite (parent_child a slot) by done. cbn [fst]. lia. }
      exists rel', b. rewrite E. split_and!; [done|done|auto|lia|done].
Qed.

(** *** A map whose upper pages are up to date *)

Definition is_top (rel : Relation P) (a : FSMAddress) (m : Z) : Prop :=
  (forall s, 0 <= s < SlotsPerFSMPage -> map_slot rel a s <= m) /\
  exists s, 0 <= s < SlotsPerFSMPage /\ map_slot rel a s = m.

(** Every slot of an upper page is the largest value on the page below it. *)
Definition tree_ok (rel : Relation P) : Prop := forall a s, valid_addr a -> 1 <= level a ->
  0 <= s < SlotsPerFSMPage -> is_top rel (fsm_get_child a s) (map_slot rel a s).

Definition same_map (rel rel' : Relation P) : Prop := forall b s, valid_addr b -> 0 <= s < SlotsPerFSMPage ->
  map_slot rel' b s = map_slot rel b s.

Lemma is_top_same rel rel' a m : same_map rel rel' -> valid_addr a -> is_top rel a m -> is_top rel' a m.
Proof.
  intros Hs Ha [H1 (s & Hr & E)]. split; [intros i Hi; rewrite Hs by done; auto|].
  exists s. split; [done|]. by rewrite Hs.
Qed.

Lemma tree_ok_same rel rel' : same_map rel rel' -> tree_ok rel -> tree_ok rel'.
Proof.
  intros Hs Ht a s Ha Hl Hr. rewrite Hs by done. destruct (child_valid a s Ha Hl Hr) as (Hc & _ & _).
  eapply is_top_same; [done|done|]. by apply Ht.
Qed.

(** Up to date maps lead every sufficient leaf slot up to the root. *)
Lemma tree_ok_up rel v a s : tree_ok rel -> valid_addr a -> level a < 2 -> 0 <= s < SlotsPerFSMPage ->
  v <= map_slot rel a s ->
  exists pa ps, valid_addr pa /\ level pa = level a + 1 /\ 0 <= ps < SlotsPerFSMPage /\ v <= map_slot rel pa ps.
Proof.
  intros Ht Ha Hl Hs Hv. pose proof (child_parent a Ha Hl) as Hcp. destruct (fsm_get_parent a) as [pa ps].
  destruct Hcp as (Hpa & Hlp & Hps & Hch & _). exists pa, ps. split_and!; try done; try (fsm_consts; lia).
  destruct (Ht pa ps Hpa ltac:(destruct Ha; lia) Hps) as [Hup _]. rewrite Hch in Hup. specialize (Hup s Hs). lia.
Qed.

(** From a page that has a sufficient slot the search goes straight down. *)
Lemma search_loop_complete f : forall rel v a restarts s0,
  rel_ok rel -> all_wf rel -> tree_ok rel -> valid_addr a -> is_u 8 v -> 0 < v -> level a < Z.of_nat f ->
  (forall b s, valid_addr b -> level b = 0 -> 0 <= s < SlotsPerFSMPage -> v <= map_slot rel b s ->
     fsm_does_block_exist rel (fsm_get_heap_blk b s) = true) ->
  0 <= s0 < SlotsPerFSMPage -> v <= map_slot rel a s0 ->
  exists rel' b, fsm_search_loop f relock rel v a restarts = Ok (rel', b) /\ same_map rel rel' /\
    fsm_does_block_exist rel b = true /\ found rel v b.
Proof.
  induction f as [|f IH]; intros rel v a restarts s0 Hok Hw Ht Ha Hv Hpos Hf Hex Hs0 Hge; [destruct Ha; lia|].
  cbn [fsm_search_loop]. destruct (readbuf_buf rel a Hok Ha) as (rel1 & Hsf & Hok1 & ->). cbv beta iota.
  destruct (same_file_facts _ _ Hsf) as (HN1 & _ & Hms1 & Hw1 & Hm1).
  destruct (search_page_spec rel1 a v (level a =? FSM_BOTTOM_LEVEL) Hok1 Ha Hv)
    as (rel2 & slot & mx & -> & Hok2 & Hm2 & HN2 & _ & Hslot & Hwf). rewrite bind_val.
  destruct (Hwf (Hw1 Hw)) as (Hw2 & Hms2 & Hlow).
  assert (same_map rel rel2) as Hsame by (intros b s Hb Hs; rewrite Hms2 by done; apply Hms1).
  assert (forall b, fsm_does_block_exist rel2 b = fsm_does_block_exist rel b) as Hexist.
  { intros b. unfold fsm_does_block_exist. destruct Hm1 as [E1 E2], Hm2 as [E3 E4]. by rewrite E4, E2, E3, E1. }
  destruct (Z.eqb_spec slot (-1)) as [->|Hfound]; cbn [negb].
  { exfalso. specialize (Hlow Hpos eq_refl s0 Hs0). rewrite Hms1 in Hlow. lia. }
  destruct Hslot as [?|(Hlt & Hs & Hsv)]; [done|]. rewrite Hsame in Hsv by done. fsm_consts.
  destruct (Z.eqb_spec (level a) 0) as [Hbot|Hnbot].
  - rewrite Hexist, (Hex a slot) by done. exists rel2, (fsm_get_heap_blk a slot).
    split_and!; [done|done|by apply Hex|]. exists a, slot. split_and!; try done; fsm_consts; lia.
  - assert (1 <= level a) as H1 by (destruct Ha; lia). destruct (child_valid a slot Ha H1 Hs) as (Hcv & Hce & _).
    destruct (Ht a slot Ha H1 Hs) as [_ (s1 & Hs1 & E1)].
    destruct (IH rel2 v (fsm_get_child a slot) restarts s1) as (rel' & b & E & Hsame' & Hexb & Hfb); try done.
    + by eapply tree_ok_same.
    + rewrite Hce. simpl. lia.
    + intros b s Hb Hlb Hsb. rewrite Hsame, Hexist by done. by apply Hex.
    + rewrite Hsame, E1 by done. done.
    + exists rel', b. split_and!; [done| |by rewrite <- Hexist|].
      * intros c s Hc Hsc. by rewrite Hsame', Hsame.
      * destruct Hfb as (c & s & ? & ? & ? & ? & Hvs & ?). exists c, s. rewrite Hsame in Hvs by done.
        split_and!; try done; fsm_consts; lia.
Qed.

(** ** Vacuum *)

(** The pages below an address occupy consecutive blocks after it. *)
Definition sub_size (l : nat) : Z := match l with O => 1 | S O => 4070 | _ => 4069 * 4070 + 1 end.
Definition mk (l : nat) (p : Z) : FSMAddress := {| level := Z.of_nat l; logpageno := p |}.
Definition within (l : nat) (p : Z) (b : FSMAddress) : Prop :=
  position (mk l p) <= position b < position (mk l p) + sub_size l.

(** The pages above heap blocks, the last of which is 0xFFFFFFFE. *)
Definition last_page (l : nat) : Z := match l with O => 1055533 | S O => 259 | _ => 0 end.

Lemma child_mk l p s : valid_addr (mk (S l) p) -> 0 <= s < SlotsPerFSMPage ->
  fsm_get_child (mk (S l) p) s = mk l (p * 4069 + s) /\ valid_addr (mk l (p * 4069 + s)) /\
  position (mk l (p * 4069 + s)) = position (mk (S l) p) + 1 + s * sub_size l /\
  position (mk l (p * 4069 + s)) + sub_size l <= position (mk (S l) p) + sub_size (S l).
Proof.
  intros Ha Hs. assert (1 <= level (mk (S l) p)) as H1 by (simpl; lia).
  destruct (child_valid _ s Ha H1 Hs) as (Hv & E & _). rewrite E in *. cbn [level logpageno mk] in *.
  assert (fsm_get_child (mk (S l) p) s = mk l (p * 4069 + s)) as E'
    by (rewrite E; unfold mk; f_equal; lia).
  rewrite E in E'. rewrite E' in *. split; [done|]. split; [done|]. fsm_consts.
  destruct Ha as [Hl Hp]. unfold mk, level_size in *. cbn [level logpageno] in *.
  assert (l = 0%nat \/ l = 1%nat) as [-> | ->] by lia; unfold position; cbn [level logpageno sub_size];
    change (Z.of_nat 2) with 2 in *; change (Z.of_nat 1) with 1 in *; change (Z.of_nat 0) with 0 in *;
    cbv [Z.eqb Pos.eqb] in *; rewrite ?div_slot, ?mod_slot by lia; lia.
Qed.

Lemma within_child l p s b : valid_addr (mk (S l) p) -> 0 <= s < SlotsPerFSMPage ->
  within l (p * 4069 + s) b -> within (S l) p b /\ b <> mk (S l) p.
Proof.
  intros Ha Hs Hw. destruct (child_mk l p s Ha Hs) as (_ & _ & Hpos & Hle). unfold within in *.
  assert (0 <= s * sub_size l) by (apply Z.mul_nonneg_nonneg; [lia|destruct l as [|[|]]; simpl; lia]).
  split; [lia|]. intros ->. lia.
Qed.

Lemma children_disjoint l p s s' b : valid_addr (mk (S l) p) -> 0 <= s < SlotsPerFSMPage -> 0 <= s' < SlotsPerFSMPage ->
  s <> s' -> within l (p * 4069 + s) b -> within l (p * 4069 + s') b -> False.
Proof.
  intros Ha Hs Hs' Hne Hw Hw'. destruct (child_mk l p s Ha Hs) as (_ & _ & Hpos & _).
  destruct (child_mk l p s' Ha Hs') as (_ & _ & Hpos' & _). unfold within in *.
  assert (0 < sub_size l) by (destruct l as [|[|]]; simpl; lia). nia.
Qed.

(** The upper pages of the subtree agree with their children. *)
Fixpoint good (l : nat) (rel : Relation P) (p : Z) : Prop :=
  match l with
  | O => True
  | S l => forall s, 0 <= s < SlotsPerFSMPage -> p * 4069 + s <= last_page l ->
      is_top rel (mk l (p * 4069 + s)) (map_slot rel (mk (S l) p) s) /\ good l rel (p * 4069 + s)
  end.

Lemma is_top_eq rel rel' a m : page_at rel' a = page_at rel a -> is_top rel a m -> is_top rel' a m.
Proof. intros E. unfold is_top, map_slot. by rewrite E. Qed.

Lemma good_frame l rel rel' p : valid_addr (mk l p) ->
  (forall b, valid_addr b -> within l p b -> page_at rel' b = page_at rel b) -> good l rel p -> good l rel' p.
Proof.
  revert p. induction l as [|l IH]; intros p Ha Hf Hg; [done|]. intros s Hs Hlast.
  destruct (Hg s Hs Hlast) as [Ht Hg']. destruct (child_mk l p s Ha Hs) as (_ & Hcv & Hpos & _).
  assert (0 < sub_size l) by (destruct l as [|[|]]; simpl; lia). split.
  - unfold map_slot. rewrite (Hf (mk (S l) p)) by (done || (unfold within; destruct l as [|[|]]; simpl; lia)).
    apply (is_top_eq rel); [|done]. apply Hf; [done|]. apply (within_child l p s); [done|done|]. unfold within. lia.
  - apply IH; [done| |done]. intros b Hb Hw. apply Hf; [done|]. by apply (within_child l p s).
Qed.

Lemma is_top_absent rel a : page_at rel a = None -> is_top rel a 0.
Proof. intros E. unfold is_top, map_slot. rewrite E. split; [lia|]. exists 0. fsm_consts. split; [lia|done]. Qed.

Lemma good_absent l rel p : valid_addr (mk l p) -> fsm_nblocks rel <= position (mk l p) -> good l rel p.
Proof.
  revert p. induction l as [|l IH]; intros p Ha Hn; [done|]. intros s Hs _.
  destruct (child_mk l p s Ha Hs) as (_ & Hcv & Hpos & _).
  assert (0 <= s * sub_size l) by (apply Z.mul_nonneg_nonneg; [lia|destruct l as [|[|]]; simpl; lia]). split.
  - unfold map_slot. rewrite page_at_None by done. apply is_top_absent, page_at_None; [done|lia].
  - apply IH; [done|lia].
Qed.

(** What a vacuum of a subtree does. *)
Record vacuumed (l : nat) (p : Z) (rel rel' : Relation P) : Prop := {
  vac_ok : rel_ok rel';
  vac_wf : all_wf rel';
  vac_main : same_main rel rel';
  vac_size : fsm_nblocks rel' = fsm_nblocks rel;
  vac_frame : forall b, valid_addr b -> ~ within l p b -> page_at rel' b = page_at rel b;
  vac_leaf : forall b s, valid_addr b -> level b = 0 -> 0 <= s < SlotsPerFSMPage -> map_slot rel' b s = map_slot rel b s;
  vac_rest : forall k q s, valid_addr (mk (S k) q) -> 0 <= s < SlotsPerFSMPage -> last_page k < q * 4069 + s ->
    map_slot rel' (mk (S k) q) s = map_slot rel (mk (S k) q) s
}.
Definition vacuum_spec (l : nat) (p : Z) (run : Relation P -> res (Relation P * Z * bool)) : Prop :=
  forall rel, rel_ok rel -> all_wf rel -> exists rel' mx,
    run rel = Ok (rel', mx, fsm_nblocks rel <=? position (mk l p)) /\
    vacuumed l p rel rel' /\ is_u 8 mx /\ is_top rel' (mk l p) mx /\ good l rel' p.

Lemma vacuumed_refl l p rel : rel_ok rel -> all_wf rel -> vacuumed l p rel rel.
Proof. by split. Qed.

Lemma vacuumed_same_file l p rel rel' : rel_ok rel' -> all_wf rel -> same_file rel rel' -> vacuumed l p rel rel'.
Proof.
  intros Hok Hw Hsf. destruct (same_file_facts _ _ Hsf) as (? & ? & Hms & ? & ?). split; auto.
Qed.

Lemma vacuumed_trans l p rel1 rel2 rel3 : vacuumed l p rel1 rel2 -> vacuumed l p rel2 rel3 -> vacuumed l p rel1 rel3.
Proof.
  intros [? ? [? ?] ? F1 L1 R1] [? ? [? ?] ? F2 L2 R2]. split; try done.
  - split; congruence.
  - congruence.
  - intros b Hb Hw. by rewrite F2, F1.
  - intros b s Hb Hl Hs. by rewrite L2, L1.
  - intros k q s Hq Hs Hlast. by rewrite R2, R1.
Qed.

Lemma vacuumed_child l p s rel rel' : valid_addr (mk (S l) p) -> 0 <= s < SlotsPerFSMPage ->
  vacuumed l (p * 4069 + s) rel rel' -> vacuumed (S l) p rel rel'.
Proof.
  intros Ha Hs [? ? ? ? F L R]. split; try done. intros b Hb Hw. apply F; [done|]. intros Hw'.
  by apply Hw, (within_child l p s).
Qed.

(** Storing a child's maximum in its slot of the parent page. *)
Lemma store_child_spec {B} l p k v rel (K : Relation P -> res B) :
  rel_ok rel -> all_wf rel -> valid_addr (mk (S l) p) -> position (mk (S l) p) < fsm_nblocks rel ->
  0 <= k < SlotsPerFSMPage -> is_u 8 v -> p * 4069 + k <= last_page l ->
  exists rel', (page ← aget (fsm_pages rel) (position (mk (S l) p));
     avail ← page_get_avail page k;
     rel2 ← (if negb (avail =? v) then
               '(page, _) ← page_set_avail page k v; write_page rel (position (mk (S l) p)) page
             else Ok rel);
     K rel2) = K rel' /\ vacuumed (S l) p rel rel' /\
    (forall b, valid_addr b -> b <> mk (S l) p -> page_at rel' b = page_at rel b) /\
    forall s, 0 <= s < SlotsPerFSMPage ->
      map_slot rel' (mk (S l) p) s = if decide (s = k) then v else map_slot rel (mk (S l) p) s.
Proof.
  intros Hok Hw Ha Hlt Hk Hv Hlast. destruct (page_at_Some rel _ Ha Hlt) as [pg Hp].
  rewrite (page_at_aget _ _ _ Ha Hp), bind_val. pose proof (page_at_ok _ _ _ Hok Hp) as Hpok.
  rewrite get_law, bind_val by done. destruct (Z.eqb_spec (page_slot pg k) v) as [E|Hne]; cbn [negb].
  { exists rel. rewrite bind_val. split_and!; [done|by apply vacuumed_refl|done|].
    intros s Hs. case_decide; [|done]. subst. unfold map_slot. by rewrite Hp. }
  destruct (set_law pg k v Hpok Hk Hv) as (pg1 & m & -> & Hok1 & Hwf1 & Hslots). rewrite bind_val.
  destruct (write_spec rel _ pg pg1 Hok Ha Hp Hok1) as (rel1 & -> & Hokr & Hm & HN & Hpa & Hother & Hwr). rewrite bind_val.
  assert (forall s, 0 <= s < SlotsPerFSMPage ->
    map_slot rel1 (mk (S l) p) s = if decide (s = k) then v else map_slot rel (mk (S l) p) s) as Hms.
  { intros s Hs. unfold map_slot. rewrite Hpa, Hp. by apply Hslots. }
  exists rel1. split_and!; try done. split; try done.
  - apply Hwr; [done|]. apply Hwf1. apply (Forall_lookup_1 _ _ _ _ Hw Hp).
  - intros b Hb Hnw. apply Hother; [done|]. intros ->. apply Hnw. unfold within. destruct l as [|[|]]; simpl; lia.
  - intros b s Hb Hl0 Hs. unfold map_slot. rewrite Hother; [done|done|]. intros ->. simpl in Hl0. lia.
  - intros k' q s Hq Hs Hlast'. destruct (decide (mk (S k') q = mk (S l) p)) as [E|Hne'].
    + injection E as Ek ->. assert (k' = l) as -> by lia. rewrite Hms, decide_False by (done || lia). done.
    + unfold map_slot. by rewrite Hother.
Qed.

(** The recursive call on a child, or its omission after the end of the file. *)
Lemma child_result l p k (child : Relation P -> Z -> res (Relation P * Z * bool)) rel eof :
  valid_addr (mk l (p * 4069 + k)) -> vacuum_spec l (p * 4069 + k) (fun rel => child rel k) -> rel_ok rel -> all_wf rel ->
  (eof = true -> fsm_nblocks rel <= position (mk l (p * 4069 + k))) ->
  exists rel1 ca eof1, (if negb eof then child rel k else Ok (rel, 0, eof)) = Ok (rel1, ca, eof1) /\
    vacuumed l (p * 4069 + k) rel rel1 /\ is_u 8 ca /\ is_top rel1 (mk l (p * 4069 + k)) ca /\
    good l rel1 (p * 4069 + k) /\ (eof1 = true -> fsm_nblocks rel <= position (mk l (p * 4069 + k))).
Proof.
  intros Hcv Hch Hok Hw Heof. destruct eof; cbn [negb].
  - specialize (Heof eq_refl).
    exists rel, 0, true. split_and!; [done|by apply vacuumed_refl|unfold is_u; lia| |by apply good_absent|done].
    apply is_top_absent, page_at_None; done.
  - destruct (Hch rel Hok Hw) as (rel1 & ca & E & ? & ? & ? & ?). exists rel1, ca. eexists.
    split_and!; [exact E|done..|]. intros H'. by apply Z.leb_le.
Qed.

(** The slots done so far stay right when a further child is vacuumed and stored. *)
Definition done_slots (l : nat) (p k : Z) (rel : Relation P) : Prop := forall s, 0 <= s < k ->
  is_top rel (mk l (p * 4069 + s)) (map_slot rel (mk (S l) p) s) /\ good l rel (p * 4069 + s).

Lemma done_slots_step l p k ca rel rel1 rel2 :
  valid_addr (mk (S l) p) -> 0 <= k < SlotsPerFSMPage -> done_slots l p k rel ->
  vacuumed l (p * 4069 + k) rel rel1 -> is_top rel1 (mk l (p * 4069 + k)) ca -> good l rel1 (p * 4069 + k) ->
  (forall b, valid_addr b -> b <> mk (S l) p -> page_at rel2 b = page_at rel1 b) ->
  (forall s, 0 <= s < SlotsPerFSMPage ->
     map_slot rel2 (mk (S l) p) s = if decide (s = k) then ca else map_slot rel1 (mk (S l) p) s) ->
  done_slots l p (Z.succ k) rel2.
Proof.
  intros Ha Hks Hdone Hvac Htop Hgood Hother2 Hms2 s Hs. assert (0 <= s < SlotsPerFSMPage) as Hsr by lia.
  destruct (child_mk l p s Ha Hsr) as (_ & Hsv & _). assert (0 < sub_size l) by (destruct l as [|[|]]; simpl; lia).
  assert (forall b, valid_addr b -> within l (p * 4069 + s) b -> page_at rel2 b = page_at rel1 b) as Hf2.
  { intros b Hb Hwb. apply Hother2; [done|]. by apply (within_child l p s). }
  assert (within l (p * 4069 + s) (mk l (p * 4069 + s))) as Hself by (unfold within; lia).
  rewrite Hms2 by done. destruct (decide (s = k)) as [->|Hne].
  - split; [|by apply (good_frame l rel1)]. apply (is_top_eq rel1); [|done]. by apply Hf2.
  - destruct (Hdone s ltac:(lia)) as [Ht Hg].
    assert (forall b, valid_addr b -> within l (p * 4069 + s) b -> page_at rel2 b = page_at rel b) as Hframe.
    { intros b Hb Hwb. rewrite Hf2 by done. apply (vac_frame _ _ _ _ Hvac); [done|]. intros Hwb'.
      by apply (children_disjoint l p s k b). }
    split; [|by apply (good_frame l rel)].
    assert (map_slot rel1 (mk (S l) p) s = map_slot rel (mk (S l) p) s) as ->.
    { unfold map_slot. rewrite (vac_frame _ _ _ _ Hvac); [done|done|]. intros Hwa.
      by destruct (within_child l p k _ Ha Hks Hwa). }
    apply (is_top_eq rel); [|done]. by apply Hframe.
Qed.

(** The loop over the slots of an upper page, from slot [k] to slot [k + n - 1]. *)
Lemma vacuum_slots_spec l p (child : Relation P -> Z -> res (Relation P * Z * bool)) n : forall k rel eof,
  valid_addr (mk (S l) p) ->
  (forall s, 0 <= s < SlotsPerFSMPage -> p * 4069 + s <= last_page l ->
     vacuum_spec l (p * 4069 + s) (fun rel => child rel s)) ->
  rel_ok rel -> all_wf rel -> position (mk (S l) p) < fsm_nblocks rel ->
  0 <= k -> k + Z.of_nat n <= SlotsPerFSMPage -> (0 < Z.of_nat n -> p * 4069 + (k + Z.of_nat n - 1) <= last_page l) ->
  (eof = true -> fsm_nblocks rel <= position (mk (S l) p) + 1 + k * sub_size l) -> done_slots l p k rel ->
  exists rel', vacuum_slots child (position (mk (S l) p)) (seqZ k (Z.of_nat n)) rel eof = Ok rel' /\
    vacuumed (S l) p rel rel' /\ done_slots l p (k + Z.of_nat n) rel'.
Proof.
  induction n as [|n IH]; intros k rel eof Ha Hch Hok Hw Hlt Hk Hkn Hlast Heof Hdone.
  { exists rel. rewrite seqZ_nil by lia. split_and!; [done|by apply vacuumed_refl|]. intros s Hs. apply Hdone. lia. }
  rewrite seqZ_cons by lia. replace (Z.pred (Z.of_nat (S n))) with (Z.of_nat n) by lia. cbn [vacuum_slots].
  assert (0 <= k < SlotsPerFSMPage) as Hks by lia. assert (p * 4069 + k <= last_page l) as Hkl by lia.
  destruct (child_mk l p k Ha Hks) as (_ & Hcv & Hcpos & _).
  destruct (child_result l p k child rel eof Hcv (Hch k Hks Hkl) Hok Hw)
    as (rel1 & ca & eof1 & -> & Hvac & Hca & Htop & Hgood & Heof1); [rewrite Hcpos; done|].
  rewrite bind_val. pose proof (vac_size _ _ _ _ Hvac) as HN1.
  destruct (store_child_spec l p k ca rel1
    (fun rel => vacuum_slots child (position (mk (S l) p)) (seqZ (Z.succ k) (Z.of_nat n)) rel eof1))
    as (rel2 & -> & Hvac2 & Hother2 & Hms2); [apply Hvac|apply Hvac|done|lia|done|done|done|].
  pose proof (vac_size _ _ _ _ Hvac2) as HN2.
  destruct (IH (Z.succ k) rel2 eof1) as (rel' & E & Hvac3 & Hdone3); try done; try lia.
  - apply Hvac2.
  - apply Hvac2.
  - intros H. specialize (Heof1 H). assert (0 < sub_size l) by (destruct l as [|[|]]; simpl; lia). lia.
  - by eapply done_slots_step.
  - exists rel'. split_and!; [done| |].
    + eapply vacuumed_trans; [by eapply vacuumed_child|]. by eapply vacuumed_trans.
    + intros s Hs. apply Hdone3. lia.
Qed.

(** The slots a full vacuum visits. *)
Lemma vacuum_slot_range l p : valid_addr (mk (S l) p) -> p <= last_page (S l) ->
  vacuum_start_slot (mk (S l) p) 0 = 0 /\
  vacuum_end_slot (mk (S l) p) InvalidBlockNumber = Z.min 4068 (last_page l - p * 4069).
Proof.
  intros [Hl Hp] Hlast. cbn [level logpageno mk] in *.
  assert (l = 0%nat \/ l = 1%nat) as [-> | ->] by lia; unfold vacuum_start_slot, vacuum_end_slot, mk; cbn [level logpageno last_page] in *.
  - change (locate_at _ (fsm_get_location 0)) with (mk 1 0, 0).
    change (locate_at _ (fsm_get_location (u32 (InvalidBlockNumber - 1)))) with (mk 1 259, 1662).
    cbn [logpageno mk]. fsm_consts. split; repeat zcase; lia.
  - assert (p = 0) as -> by lia. split; vm_compute; done.
Qed.

(** The end of a visit: the page's maximum, and the search pointer reset. *)
Lemma vacuum_finish_spec l p rel : rel_ok rel -> all_wf rel -> valid_addr (mk l p) -> position (mk l p) < fsm_nblocks rel ->
  exists rel' mx, (page ← aget (fsm_pages rel) (position (mk l p));
     max_avail ← page_get_max_avail page;
     rel2 ← write_page rel (position (mk l p)) (page_reset_next page);
     Ok (rel2, max_avail, false)) = Ok (rel', mx, false) /\
    vacuumed l p rel rel' /\ same_map rel rel' /\ is_u 8 mx /\ is_top rel' (mk l p) mx.
Proof.
  intros Hok Hw Ha Hlt. destruct (page_at_Some rel _ Ha Hlt) as [pg Hp]. rewrite (page_at_aget _ _ _ Ha Hp), bind_val.
  pose proof (page_at_ok _ _ _ Hok Hp) as Hpok. pose proof (Forall_lookup_1 _ _ _ _ Hw Hp : page_wf pg) as Hpwf.
  destruct (max_law pg Hpok) as (mx & -> & Hmx & Htop). rewrite bind_val. destruct (Htop Hpwf) as [Hup (s0 & Hs0 & E0)].
  destruct (reset_law pg Hpok) as (Hok1 & Hwf1 & _ & Hslots).
  destruct (write_spec rel _ pg _ Hok Ha Hp Hok1) as (rel1 & -> & Hokr & Hm & HN & Hpa & Hother & Hwr). rewrite bind_val.
  assert (same_map rel rel1) as Hsame.
  { intros b s Hb Hs. unfold map_slot. destruct (decide (b = mk l p)) as [->|]; [|by rewrite Hother]. by rewrite Hpa, Hp, Hslots. }
  exists rel1, mx. split_and!; try done; try apply Hmx.
  - split; try done; auto.
    intros b Hb Hnw. apply Hother; [done|]. intros ->. apply Hnw. unfold within. destruct l as [|[|]]; simpl; lia.
  - split.
    + intros s Hs. rewrite Hsame by done. unfold map_slot. rewrite Hp. auto.
    + exists s0. split; [done|]. rewrite Hsame by done. unfold map_slot. by rewrite Hp.
Qed.

Lemma good_same_map l rel rel' p : same_map rel rel' -> valid_addr (mk l p) -> good l rel p -> good l rel' p.
Proof.
  intros Hsame. revert p. induction l as [|l IH]; intros p Ha Hg; [done|]. intros s Hs Hlast.
  destruct (Hg s Hs Hlast) as [Ht Hg']. destruct (child_mk l p s Ha Hs) as (_ & Hcv & _).
  rewrite Hsame by done. split; [by eapply is_top_same|by apply IH].
Qed.

(** A visit whose treatment of the slots is right is right. *)
Lemma vacuum_run l p (mid : Relation P -> Z -> res (Relation P)) : valid_addr (mk l p) ->
  (forall rel, rel_ok rel -> all_wf rel -> position (mk l p) < fsm_nblocks rel ->
     exists rel', mid rel (position (mk l p)) = Ok rel' /\ vacuumed l p rel rel' /\ good l rel' p) ->
  vacuum_spec l p (fun rel =>
    let '(rel, buf) := fsm_readbuf rel (mk l p) false in
    match buf with
    | None => Ok (rel, 0, true)
    | Some buf =>
      rel ← mid rel buf;
      page ← aget (fsm_pages rel) buf;
      max_avail ← page_get_max_avail page;
      rel ← write_page rel buf (page_reset_next page);
      Ok (rel, max_avail, false)
    end).
Proof.
  intros Ha Hmid rel Hok Hw. destruct (readbuf_spec rel _ false Hok Ha) as (rel1 & Hsf & Hok1 & ->).
  destruct (same_file_facts _ _ Hsf) as (HN1 & _ & _ & Hw1 & _). specialize (Hw1 Hw).
  pose proof (vacuumed_same_file l p rel rel1 Hok1 Hw Hsf) as Hv1.
  destruct (Z.ltb_spec (position (mk l p)) (fsm_nblocks rel)) as [Hlt|Hge].
  - destruct (Hmid rel1 Hok1 Hw1 ltac:(lia)) as (rel2 & -> & Hv2 & Hg2). rewrite bind_val.
    pose proof (vac_size _ _ _ _ Hv2) as HN2.
    destruct (vacuum_finish_spec l p rel2 (vac_ok _ _ _ _ Hv2) (vac_wf _ _ _ _ Hv2) Ha ltac:(lia))
      as (rel3 & mx & -> & Hv3 & Hsame & Hmx & Htop).
    exists rel3, mx. split_and!; try done; try apply Hmx.
    + do 2 f_equal. zcase; [lia|done].
    + eapply vacuumed_trans; [done|]. by eapply vacuumed_trans.
    + by eapply good_same_map.
  - exists rel1, 0. split_and!; try done.
    + do 2 f_equal. zcase; [done|lia].
    + apply is_top_absent, page_at_None; [done|lia].
    + apply good_absent; [done|lia].
Qed.

Lemma vacuum_page_spec l : forall p, valid_addr (mk l p) -> p <= last_page l ->
  vacuum_spec l p (fun rel => fsm_vacuum_page l rel p 0 InvalidBlockNumber).
Proof.
  induction l as [|l IH]; intros p Ha Hlast.
  - apply (vacuum_run 0 p (fun rel _ => Ok rel) Ha). intros rel Hok Hw _. exists rel.
    split_and!; [done|by apply vacuumed_refl|done].
  - destruct (vacuum_slot_range l p Ha Hlast) as [Es Ee].
    apply (vacuum_run (S l) p (fun rel buf =>
      vacuum_slots (fun rel slot => fsm_vacuum_page l rel (logpageno (fsm_get_child (mk (S l) p) slot)) 0 InvalidBlockNumber)
        buf (seqZ (vacuum_start_slot (mk (S l) p) 0)
               (vacuum_end_slot (mk (S l) p) InvalidBlockNumber - vacuum_start_slot (mk (S l) p) 0 + 1)) rel false) Ha).
    intros rel Hok Hw Hlt. rewrite Es, Ee. set (n := Z.to_nat (Z.min 4068 (last_page l - p * 4069) - 0 + 1)).
    assert (0 <= last_page l - p * 4069) as Hnn by (destruct Ha as [Hl Hp]; cbn [level mk] in *;
      assert (l = 0%nat \/ l = 1%nat) as [-> | ->] by lia; cbn [last_page] in *; lia).
    replace (Z.min 4068 (last_page l - p * 4069) - 0 + 1) with (Z.of_nat n) by (unfold n; lia).
    destruct (vacuum_slots_spec l p (fun rel slot =>
      fsm_vacuum_page l rel (logpageno (fsm_get_child (mk (S l) p) slot)) 0 InvalidBlockNumber) n 0 rel false)
      as (rel' & E & Hv & Hd); try done.
    + intros s Hs Hsl. destruct (child_mk l p s Ha Hs) as (Ec & Hcv & _). rewrite Ec. cbn [logpageno mk]. by apply IH.
    + unfold n. fsm_consts. lia.
    + unfold n. lia.
    + intros s Hs. lia.
    + exists rel'. split_and!; [done|done|]. intros s Hs Hsl. apply Hd. unfold n. fsm_consts. lia.
Qed.

(** The map has nothing past the page of the last heap block. *)
Definition clean (rel : Relation P) : Prop :=
  fsm_nblocks rel <= position (mk 0 (last_page 0)) + 1 /\
  forall k q s, valid_addr (mk (S k) q) -> 0 <= s < SlotsPerFSMPage -> last_page k < q * 4069 + s ->
    map_slot rel (mk (S k) q) s = 0.

Lemma beyond_last rel k q : fsm_nblocks rel <= position (mk 0 (last_page 0)) + 1 -> valid_addr (mk k q) -> (k <= 1)%nat ->
  last_page k < q -> fsm_nblocks rel <= position (mk k q).
Proof.
  intros Hn [_ Hq] Hk Hlast. change (position (mk 0 (last_page 0))) with 1055794 in Hn. cbn [mk logpageno level] in Hq.
  assert (k = 0%nat \/ k = 1%nat) as [-> | ->] by lia; unfold position, mk; cbn [level logpageno last_page] in *;
    change (Z.of_nat 1) with 1; change (Z.of_nat 0) with 0; cbv [Z.eqb Pos.eqb].
  - pose proof (Z.div_mod q 4069 ltac:(lia)). pose proof (Z.mod_pos_bound q 4069 ltac:(lia)). lia.
  - lia.
Qed.

Lemma good_tree_ok rel : clean rel -> good 2 rel 0 -> tree_ok rel.
Proof.
  intros [Hn Hrest] Hgood a s Ha Hl Hs. destruct a as [l q]. assert (l = 1 \/ l = 2) as Hl12 by (destruct Ha; simpl in *; lia).
  assert (exists k, {| level := l; logpageno := q |} = mk (S k) q /\ (k <= 1)%nat) as (k & E & Hk).
  { destruct Hl12 as [-> | ->]; [exists 0%nat|exists 1%nat]; (split; [done|lia]). }
  rewrite E in *. destruct (child_mk k q s Ha Hs) as (-> & Hcv & Hcpos & _).
  destruct (decide (q * 4069 + s <= last_page k)) as [Hin|Hout].
  - assert (k = 0%nat \/ k = 1%nat) as [-> | ->] by lia.
    + destruct Ha as [_ Hq]. cbn [logpageno level mk] in Hq. fsm_consts. cbn [last_page] in Hin.
      destruct (Hgood q) as [_ Hg1]; [fsm_consts; simpl in Hq; lia|simpl; lia|].
      change (0 * 4069 + q) with q in Hg1. by apply Hg1.
    + destruct Ha as [_ Hq]. cbn [logpageno level mk] in Hq. change (level_size (Z.of_nat 2)) with 1 in Hq.
      assert (q = 0) as -> by lia. by apply (Hgood s).
  - rewrite Hrest by (done || lia). apply is_top_absent, page_at_None; [done|]. apply beyond_last; [done|done|lia|lia].
Qed.

Lemma vacuum_spec_rel rel : rel_ok rel -> all_wf rel -> clean rel ->
  exists rel', FreeSpaceMapVacuum rel = Ok rel' /\ rel_ok rel' /\ all_wf rel' /\ same_main rel rel' /\
    fsm_nblocks rel' = fsm_nblocks rel /\ tree_ok rel' /\
    forall a s, valid_addr a -> level a = 0 -> 0 <= s < SlotsPerFSMPage -> map_slot rel' a s = map_slot rel a s.
Proof.
  intros Hok Hw [Hn Hrest]. destruct (vacuum_page_spec 2 0 valid_root ltac:(done) rel Hok Hw) as (rel' & mx & E & Hv & _ & _ & Hg).
  unfold FreeSpaceMapVacuum. change (Z.to_nat FSM_ROOT_LEVEL) with 2%nat. rewrite E, bind_val.
  exists rel'. split_and!; try done; try apply Hv. apply good_tree_ok; [|done]. split.
  - by rewrite (vac_size _ _ _ _ Hv).
  - intros k q s Ha Hs Hl. rewrite (vac_rest _ _ _ _ Hv) by done. by apply Hrest.
Qed.

(** ** Requests *)

Definition leaf_block (a : FSMAddress) (s : Z) : Z := logpageno a * 4069 + s.

Lemma leaf_block_location a s : valid_addr a -> level a = 0 -> 0 <= s < SlotsPerFSMPage -> leaf_block a s < 2 ^ 32 ->
  fsm_get_heap_blk a s = leaf_block a s /\ fsm_get_location (leaf_block a s) = (a, s).
Proof.
  destruct a as [l p]. intros [_ Hp] Hl Hs Hb. cbn [level logpageno] in *. subst l.
  change (level_size 0) with (4069 * 4069) in Hp.
  unfold fsm_get_heap_blk, fsm_get_location, leaf_block in *. cbn [logpageno] in *. fsm_consts.
  rewrite div_slot, mod_slot by lia. unwrap. done.
Qed.

(** Every recorded block is in the relation. *)
Definition blocks_exist (rel : Relation P) : Prop := main_nblocks rel <= InvalidBlockNumber /\
  forall a s, valid_addr a -> level a = 0 -> 0 <= s < SlotsPerFSMPage -> 0 < map_slot rel a s ->
    leaf_block a s < main_nblocks rel.

(** At a root without a sufficient slot the search gives up. *)
Lemma search_root_fails f rel v restarts : rel_ok rel -> all_wf rel -> is_u 8 v ->
  (forall s, 0 <= s < SlotsPerFSMPage -> map_slot rel FSM_ROOT_ADDRESS s < v) ->
  exists rel', fsm_search_loop (S f) relock rel v FSM_ROOT_ADDRESS restarts = Ok (rel', InvalidBlockNumber).
Proof.
  intros Hok Hw Hv Hlow. cbn [fsm_search_loop].
  destruct (readbuf_buf rel _ Hok valid_root) as (rel1 & Hsf & Hok1 & ->). cbv beta iota.
  destruct (same_file_facts _ _ Hsf) as (_ & _ & Hms1 & Hw1 & _).
  destruct (search_page_spec rel1 FSM_ROOT_ADDRESS v (level FSM_ROOT_ADDRESS =? FSM_BOTTOM_LEVEL) Hok1 valid_root Hv)
    as (rel2 & slot & mx & -> & _ & _ & _ & _ & Hslot & Hwf). rewrite bind_val.
  destruct (Hwf (Hw1 Hw)) as (_ & Hms2 & _). exists rel2. destruct Hslot as [->|(_ & Hs & Hge)]; [done|].
  exfalso. rewrite Hms2, Hms1 in Hge by (done || apply valid_root). specialize (Hlow slot Hs). lia.
Qed.

Lemma root_bound_all rel v : tree_ok rel -> (forall s, 0 <= s < SlotsPerFSMPage -> map_slot rel FSM_ROOT_ADDRESS s < v) ->
  forall a s, valid_addr a -> level a = 0 -> 0 <= s < SlotsPerFSMPage -> map_slot rel a s < v.
Proof.
  intros Ht Hlow a s Ha Hl Hs. destruct (decide (map_slot rel a s < v)) as [|Hge]; [done|exfalso].
  destruct (tree_ok_up rel v a s Ht Ha ltac:(lia) Hs ltac:(lia)) as (a1 & s1 & Ha1 & Hl1 & Hs1 & Hv1).
  destruct (tree_ok_up rel v a1 s1 Ht Ha1 ltac:(lia) Hs1 Hv1) as (a2 & s2 & Ha2 & Hl2 & Hs2 & Hv2).
  assert (a2 = FSM_ROOT_ADDRESS) as ->; [|specialize (Hlow s2 Hs2); lia].
  destruct a2 as [l p], Ha2 as [_ Hp]. cbn [level logpageno] in *. assert (l = 2) as -> by lia.
  change (level_size 2) with 1 in Hp. unfold FSM_ROOT_ADDRESS. fsm_consts. f_equal. lia.
Qed.

Lemma search_complete rel v : rel_ok rel -> all_wf rel -> tree_ok rel -> blocks_exist rel -> is_u 8 v -> 0 < v ->
  exists rel' b, fsm_search relock rel v = Ok (rel', b) /\
    ((0 <= b < main_nblocks rel /\ v <= recorded rel b) \/
     (b = InvalidBlockNumber /\ forall b', is_u 32 b' -> recorded rel b' < v)).
Proof.
  intros Hok Hw Ht [Hmb Hex] Hv Hpos. unfold fsm_search.
  assert (forall b s, valid_addr b -> level b = 0 -> 0 <= s < SlotsPerFSMPage -> v <= map_slot rel b s ->
    0 <= leaf_block b s < main_nblocks rel /\ fsm_get_heap_blk b s = leaf_block b s /\
    fsm_get_location (leaf_block b s) = (b, s)) as Hblk.
  { intros b s Hb Hl Hs Hge. pose proof (Hex b s Hb Hl Hs ltac:(lia)) as Hlt.
    split; [unfold leaf_block in *; destruct Hb as [_ [? _]]; lia|].
    apply leaf_block_location; try done. unfold InvalidBlockNumber in Hmb. lia. }
  assert (Z.of_nat search_fuel = 40000) as Hfuel by (unfold search_fuel; lia).
  revert Hfuel. generalize search_fuel as fuel. intros fuel Hfuel.
  destruct (decide (Exists (fun s => v <= map_slot rel FSM_ROOT_ADDRESS s) (seqZ 0 SlotsPerFSMPage))) as [He|Hne].
  - apply Exists_exists in He as (s0 & Hs0%elem_of_seqZ & Hge).
    destruct (search_loop_complete fuel rel v FSM_ROOT_ADDRESS 0 s0) as (rel' & b & E & _ & _ & Hf); try done.
    + rewrite Hfuel. cbn [level FSM_ROOT_ADDRESS]. fsm_consts. lia.
    + intros b s Hb Hl Hs Hvs. destruct (Hblk b s Hb Hl Hs Hvs) as (Hlt & -> & _). unfold fsm_does_block_exist.
      apply orb_true_iff. right. apply Z.ltb_lt. lia.
    + exists rel', b. split; [done|]. left. destruct Hf as (a & s & Ha & Hl & _ & Hs & Hvs & ->).
      destruct (Hblk a s Ha Hl Hs Hvs) as (Hlt & -> & Hloc). split; [done|]. unfold recorded. by rewrite Hloc.
  - assert (forall s, 0 <= s < SlotsPerFSMPage -> map_slot rel FSM_ROOT_ADDRESS s < v) as Hlow.
    { intros s Hs. destruct (decide (map_slot rel FSM_ROOT_ADDRESS s < v)); [done|]. exfalso. apply Hne, Exists_exists.
      exists s. split; [apply elem_of_seqZ; lia|lia]. }
    destruct fuel as [|f]; [lia|].
    destruct (search_root_fails f rel v 0 Hok Hw Hv Hlow) as (rel' & E). exists rel', InvalidBlockNumber.
    split; [done|]. right. split; [done|]. intros b' Hb'. pose proof (location_valid b' Hb') as Hloc. unfold recorded.
    destruct (fsm_get_location b') as [a s]. destruct Hloc as (Ha & Hl & Hs & _). by apply root_bound_all.
Qed.


Lemma search_sound rel v : rel_ok rel -> is_u 8 v ->
  exists rel' b, fsm_search relock rel v = Ok (rel', b) /\ rel_ok rel' /\
    (b = InvalidBlockNumber \/ (fsm_does_block_exist rel' b = true /\ found rel' v b)).
Proof.
  intros Hok Hv. destruct (search_loop_sound search_fuel rel v FSM_ROOT_ADDRESS 0) as (rel' & b & E & Hok' & _ & _ & Hb).
  - done.
  - apply valid_root.
  - done.
  - lia.
  - cbn [level FSM_ROOT_ADDRESS]. fsm_consts. unfold search_fuel. lia.
  - cbn [level FSM_ROOT_ADDRESS]. fsm_consts. lia.
  - by exists rel', b.
Qed.

(** Where the block found does not exist, the search goes on at a child of the root. *)
Lemma search_missing_block f rel rel1 rel2 v a buf slot mx page page' m restarts :
  level a = 0 -> fsm_readbuf rel a false = (rel1, Some buf) ->
  search_page relock rel1 (Some buf) v true = Ok (rel2, slot, mx) -> slot <> -1 ->
  fsm_does_block_exist rel2 (fsm_get_heap_blk a slot) = false -> restarts <= 10000 ->
  aget (fsm_pages rel2) buf = Ok page -> page_set_avail page slot 0 = Ok (page', m) ->
  fsm_search_loop (S f) relock rel v a restarts =
    (rel3 ← write_page rel2 buf page'; fsm_search_loop f relock rel3 v (fsm_get_child FSM_ROOT_ADDRESS slot) (restarts + 1)) /\
  level (fsm_get_child FSM_ROOT_ADDRESS slot) = 1.
Proof.
  intros Hl Hr Hs Hne Hex Hre Hp Hset. split; [|done]. cbn [fsm_search_loop]. rewrite Hr. cbv beta iota.
  rewrite Hl. change (0 =? FSM_BOTTOM_LEVEL) with true. rewrite Hs, bind_val.
  destruct (Z.eqb_spec slot (-1)); [done|]. cbn [negb]. rewrite Hex, Hp, bind_val, Hset, bind_val.
  by destruct (Z.ltb_spec 10000 restarts); [lia|].
Qed.
End Tree.

(** ** Properties *)

(** Addressing: every heap block has a map page and slot from which it is recovered;
    parent and child addresses are inverse; every page of the tree has its own block in
    the file, below those of its children; and none of the 32-bit computations wraps. *)
Theorem fsm_addressing :
  (forall blk, is_u 32 blk -> let '(a, s) := fsm_get_location blk in
     valid_addr a /\ level a = FSM_BOTTOM_LEVEL /\ 0 <= s < SlotsPerFSMPage /\ fsm_get_heap_blk a s = blk) /\
  (forall a s, valid_addr a -> 1 <= level a -> 0 <= s < SlotsPerFSMPage ->
     valid_addr (fsm_get_child a s) /\ fsm_get_parent (fsm_get_child a s) = (a, s) /\
     fsm_logical_to_physical a < fsm_logical_to_physical (fsm_get_child a s)) /\
  (forall a, valid_addr a -> level a < FSM_ROOT_LEVEL -> let '(pa, s) := fsm_get_parent a in
     valid_addr pa /\ 0 <= s < SlotsPerFSMPage /\ fsm_get_child pa s = a) /\
  (forall a b, valid_addr a -> valid_addr b -> fsm_logical_to_physical a = fsm_logical_to_physical b -> a = b) /\
  (forall a, valid_addr a -> fsm_logical_to_physical a = position a /\ 0 <= position a < 2 ^ 31).
Proof.
  split_and!.
  - exact location_valid.
  - intros a s Ha Hl Hs. destruct (child_valid a s Ha Hl Hs) as (Hc & _ & Hpos).
    rewrite !physical_position by done. split_and!; try done; try apply Hc. by apply parent_child.
  - intros a Ha Hl. pose proof (child_parent a Ha Hl) as H. destruct (fsm_get_parent a) as [pa s].
    destruct H as (? & _ & ? & ? & _). done.
  - intros a b Ha Hb. rewrite !physical_position by done. by apply position_inj.
  - intros a Ha. split; [by apply physical_position|by apply position_range].
Qed.

(** C34. Recording the free space of a block makes [GetRecordedFreeSpace] return it rounded
    down to its category, without an error and for any state of the map (extending it
    where needed), and changes what is recorded of no other block; the WAL replay version
    records the same value. *)
Theorem fsm_record_roundtrip `{LP : FSMPageLaws P} (relock : P -> P) (rel : Relation P) blk avail :
  (forall q, page_ok q -> page_ok (relock q)) -> rel_ok rel -> is_u 32 blk -> 0 <= avail ->
  exists rel1, RecordPageWithFreeSpace relock rel blk avail = Ok rel1 /\ rel_ok rel1 /\
    (exists rel2, GetRecordedFreeSpace rel1 blk = Ok (rel2, fsm_space_cat_to_avail (fsm_space_avail_to_cat avail))) /\
    (forall b, is_u 32 b -> b <> blk -> exists rel2 rel3 x,
      GetRecordedFreeSpace rel1 b = Ok (rel2, x) /\ GetRecordedFreeSpace rel b = Ok (rel3, x)) /\
    exists rel4 rel5, XLogRecordPageWithFreeSpace rel blk avail = Ok rel4 /\
      GetRecordedFreeSpace rel4 blk = Ok (rel5, fsm_space_cat_to_avail (fsm_space_avail_to_cat avail)).
Proof.
  intros Hr Hok Hb Hav. destruct (record_spec relock Hr rel blk avail Hok Hb Hav) as (rel1 & E & Hok1 & _ & _ & Hrec & _).
  exists rel1. split_and!; try done.
  - destruct (get_recorded_spec rel1 blk Hok1 Hb) as (rel2 & Eg & _). exists rel2. by rewrite Eg, Hrec, decide_True.
  - intros b Hb' Hne. destruct (get_recorded_spec rel1 b Hok1 Hb') as (rel2 & E1 & _).
    destruct (get_recorded_spec rel b Hok Hb') as (rel3 & E2 & _). exists rel2, rel3. eexists.
    rewrite E1, E2, Hrec, decide_False by done. done.
  - destruct (xlog_record_spec rel blk avail Hok Hb Hav) as (rel4 & E4 & Hok4 & Hrec4).
    destruct (get_recorded_spec rel4 blk Hok4 Hb) as (rel5 & E5 & _). exists rel4, rel5. by rewrite E5, Hrec4.
Qed.

(** A relation of ten blocks without a map, and one with an empty map. *)
Definition no_map : Relation FSMPageData :=
  {| fsm_pages := []; fsm_exists := false; fsm_cached := None; main_nblocks := 10; main_cached := None |}.
Definition empty_map : Relation FSMPageData :=
  {| fsm_pages := replicate 3 zero_page; fsm_exists := true; fsm_cached := Some 3; main_nblocks := 10; main_cached := None |}.

Lemma no_map_ok : rel_ok no_map.
Proof. split; [constructor|done|done]. Qed.

Lemma empty_map_slot a s : map_slot empty_map a s = 0.
Proof.
  unfold map_slot, page_at, empty_map, fsm_pages. destruct (replicate 3 zero_page !! Z.to_nat (position a)) eqn:E; [|done].
  apply lookup_replicate in E as [-> _]. apply nthZ_replicate_0.
Qed.

Lemma empty_map_ok : rel_ok empty_map /\ all_wf empty_map /\ clean empty_map /\ blocks_exist empty_map.
Proof.
  split_and!.
  - split; [|by intros n [= <-]|done]. apply Forall_replicate, zero_page_wf.
  - apply Forall_replicate, zero_page_wf.
  - split; [by vm_compute|]. intros. apply empty_map_slot.
  - split; [by vm_compute|]. intros a s _ _ _ H. rewrite empty_map_slot in H. lia.
Qed.

Lemma fsm_record_roundtrip_witness :
  exists rel1, RecordPageWithFreeSpace (fun p => p) no_map 7 5000 = Ok rel1 /\
    exists rel2, GetRecordedFreeSpace rel1 7 = Ok (rel2, 4992).
Proof.
  destruct (fsm_record_roundtrip (fun p => p) no_map 7 5000) as (rel1 & E & _ & Hg & _);
    [intros q H; exact H|exact no_map_ok|unfold is_u; lia|lia|].
  exists rel1. split; [exact E|exact Hg].
Defined.

(** A block that a request may be given: it exists, and its slot on a bottom page of the
    map promises the space. *)
Definition granted `{LP : FSMPageLaws P} (rel : Relation P) (needed b : Z) : Prop :=
  fsm_does_block_exist rel b = true /\
  exists a s, valid_addr a /\ level a = FSM_BOTTOM_LEVEL /\ 0 <= s < SlotsPerFSMPage /\
    b = fsm_get_heap_blk a s /\ needed <= fsm_space_cat_to_avail (map_slot rel a s).

Lemma found_granted `{LP : FSMPageLaws P} (rel : Relation P) needed c b :
  rel_ok rel -> (forall c', c <= c' <= 255 -> needed <= fsm_space_cat_to_avail c') ->
  fsm_does_block_exist rel b = true -> found rel c b -> granted rel needed b.
Proof.
  intros Hok Hc Hex (a & s & Ha & Hl & _ & Hs & Hv & ->). split; [done|]. exists a, s. split_and!; try done; try apply Hs; try apply Ha.
  apply Hc. pose proof (map_slot_byte rel a s Hok) as Hb. unfold is_u in Hb. lia.
Qed.

(** C32. Requests for space are safe and terminate whatever the map contains, torn pages,
    stale upper levels and entries past the end of the relation included: the answer is
    [InvalidBlockNumber] or an existing block whose recorded space is enough.  The same
    holds after recording the space of another block first. *)
Theorem fsm_requests_sound `{LP : FSMPageLaws P} (relock : P -> P) (rel : Relation P) needed old avail :
  (forall q, page_ok q -> page_ok (relock q)) -> rel_ok rel -> 0 <= needed <= MaxFSMRequestSize ->
  is_u 32 old -> 0 <= avail ->
  (exists rel1 b, GetPageWithFreeSpace relock rel needed = Ok (rel1, b) /\ rel_ok rel1 /\
     (b = InvalidBlockNumber \/ granted rel1 needed b)) /\
  (exists rel1 b, RecordAndGetPageWithFreeSpace relock rel old avail needed = Ok (rel1, b) /\ rel_ok rel1 /\
     (b = InvalidBlockNumber \/ granted rel1 needed b)).
Proof.
  intros Hr Hok Hn Ho Hav. destruct (needed_to_cat_ok needed Hn) as (c & Ec & Hc & Hsound).
  assert (is_u 8 c) as Hcb by (unfold is_u; lia).
  assert (forall rel0, rel_ok rel0 -> exists rel1 b, fsm_search relock rel0 c = Ok (rel1, b) /\ rel_ok rel1 /\
    (b = InvalidBlockNumber \/ granted rel1 needed b)) as Hsearch.
  { intros rel0 Hok0. destruct (search_sound relock Hr rel0 c Hok0 Hcb) as (rel1 & b & E & Hok1 & Hb).
    exists rel1, b. split_and!; [done..|]. destruct Hb as [|[? ?]]; [by left|right]. by eapply found_granted. }
  split.
  - unfold GetPageWithFreeSpace. rewrite Ec, bind_val. by apply Hsearch.
  - unfold RecordAndGetPageWithFreeSpace. rewrite Ec, bind_val. pose proof (location_valid old Ho) as Hloc.
    destruct (fsm_get_location old) as [a slot]. destruct Hloc as (Ha & Hl & Hs & _).
    destruct (avail_to_cat_byte avail Hav) as [Hab _].
    destruct (set_and_search_spec relock Hr rel a slot _ c Hok Ha Hs Hab Hcb)
      as (rel1 & r & -> & Hok1 & _ & HN & _ & _ & Hres & _). rewrite bind_val.
    destruct (Z.eqb_spec r (-1)) as [->|Hne]; cbn [negb andb]; [by apply Hsearch|].
    destruct (fsm_does_block_exist rel1 (fsm_get_heap_blk a r)) eqn:Hex; [|by apply Hsearch].
    exists rel1, (fsm_get_heap_blk a r). split_and!; [done..|]. right. destruct Hres as [?|[Hrr Hge]]; [done|].
    apply (found_granted rel1 needed c); [done|done|done|]. exists a, r. split_and!; try done; try apply Hrr; try apply Ha. lia.
Qed.

Lemma fsm_requests_sound_witness :
  exists rel1 b, GetPageWithFreeSpace (fun p => p) empty_map 100 = Ok (rel1, b) /\
    (b = InvalidBlockNumber \/ granted rel1 100 b).
Proof.
  destruct (fsm_requests_sound (fun p => p) empty_map 100 3 50) as [(rel1 & b & E & _ & Hb) _];
    [intros q H; exact H|apply empty_map_ok|vm_compute; split; discriminate|unfold is_u; lia|lia|].
  exists rel1, b. split; [exact E|exact Hb].
Defined.





(** ** Truncation *)

(** The map after the caller has cut its fork to [n] blocks. *)
Definition cut_map {P} (rel : Relation P) (n : Z) : Relation P := set_pages rel (take (Z.to_nat n) (fsm_pages rel)).

Lemma leaf_position p : position (mk 0 p) = p + p / 4069 + 2.
Proof. unfold position. cbn [level mk logpageno]. cbv [Z.of_nat Z.eqb]. pose proof (Z.div_mod p 4069 ltac:(lia)). lia. Qed.

Lemma leaf_position_lt p q : p < q <-> position (mk 0 p) < position (mk 0 q).
Proof.
  rewrite !leaf_position. split.
  - intros. pose proof (Z.div_le_mono p q 4069 ltac:(lia) ltac:(lia)). lia.
  - intros. destruct (decide (p < q)); [done|]. pose proof (Z.div_le_mono q p 4069 ltac:(lia) ltac:(lia)). lia.
Qed.

Lemma location_mk b : is_u 32 b -> fsm_get_location b = (mk 0 (b / 4069), b `mod` 4069) /\ valid_addr (mk 0 (b / 4069)).
Proof.
  intros Hb. pose proof (location_valid b Hb) as H. unfold fsm_get_location in *. fsm_consts. unfold is_u in Hb.
  pose proof (Z.mod_pos_bound b 4069 ltac:(lia)). pose proof (Z.div_pos b 4069 ltac:(lia) ltac:(lia)).
  pose proof (Z.div_mod b 4069 ltac:(lia)). rewrite i32_small, (wrapu_small 16) in * by (unfold is_u; lia).
  split; [done|apply H].
Qed.

Section Truncate.
Context {P : Type} {OP : FSMPageOps P} {LP : FSMPageLaws P}.
Implicit Type rel : Relation P.

Lemma map_slot_cut rel n a s : 0 <= n -> valid_addr a ->
  map_slot (cut_map rel n) a s = if decide (position a < n) then map_slot rel a s else 0.
Proof.
  intros Hn Ha. pose proof (position_range a Ha). unfold map_slot, page_at, cut_map. cbn [fsm_pages set_pages].
  case_decide; [by rewrite lookup_take_lt by lia|]. by rewrite lookup_take_ge by lia.
Qed.

Lemma recorded_at rel b : is_u 32 b -> recorded rel b = map_slot rel (mk 0 (b / 4069)) (b `mod` 4069).
Proof. intros Hb. unfold recorded. by rewrite (proj1 (location_mk b Hb)). Qed.

Lemma recorded_absent rel b : is_u 32 b -> fsm_nblocks rel <= position (mk 0 (b / 4069)) -> recorded rel b = 0.
Proof.
  intros Hb Hn. rewrite recorded_at by done. unfold map_slot. rewrite page_at_None; [done| |done].
  by destruct (location_mk b Hb).
Qed.

(** What truncation promises: blocks that stay keep their record, and the cut map has
    none of the removed ones. *)
Definition truncated rel rel1 (nblocks n : Z) : Prop :=
  rel_ok rel1 /\ all_wf rel1 /\
  (forall b, 0 <= b < nblocks -> recorded rel1 b = recorded rel b) /\
  if decide (n = InvalidBlockNumber)
  then forall b, nblocks <= b -> is_u 32 b -> recorded rel b = 0
  else forall b, is_u 32 b -> recorded (cut_map rel1 n) b = if decide (b < nblocks) then recorded rel b else 0.

(** Every block from [nblocks] on is recorded on its own page or a later one. *)
Lemma later_page b nblocks : 0 <= nblocks -> nblocks <= b -> position (mk 0 (nblocks / 4069)) <= position (mk 0 (b / 4069)).
Proof.
  intros. pose proof (Z.div_le_mono nblocks b 4069 ltac:(lia) ltac:(lia)).
  pose proof (leaf_position_lt (b / 4069) (nblocks / 4069)). lia.
Qed.

Lemma truncate_boundary rel rel1 nblocks : is_u 32 nblocks -> nblocks `mod` 4069 = 0 ->
  same_file rel rel1 -> rel_ok rel1 -> all_wf rel -> 
  truncated rel rel1 nblocks (if fsm_nblocks rel <=? position (mk 0 (nblocks / 4069)) then InvalidBlockNumber
                              else position (mk 0 (nblocks / 4069))).
Proof.
  intros Hb Hmod Hsf Hok Hw. destruct (same_file_facts _ _ Hsf) as (HN & _ & Hms & Hw1 & _).
  destruct (location_mk nblocks Hb) as [_ Hv]. pose proof (position_range _ Hv). pose proof Hb as Hb'. unfold is_u in Hb'.
  split_and!; auto.
  { intros b Hb2. rewrite !recorded_at by (unfold is_u; lia). apply Hms. }
  destruct (Z.leb_spec (fsm_nblocks rel) (position (mk 0 (nblocks / 4069)))) as [Hle|Hlt].
  - rewrite decide_True by done. intros b Hnb Hb2. apply recorded_absent; [done|].
    pose proof (later_page b nblocks ltac:(lia) Hnb). lia.
  - rewrite decide_False by (unfold InvalidBlockNumber; lia). intros b Hb2. rewrite !recorded_at by done.
    destruct (location_mk b Hb2) as [_ Hvb]. rewrite map_slot_cut, Hms by (done || lia).
    pose proof (Z.div_mod nblocks 4069 ltac:(lia)). pose proof (Z.div_mod b 4069 ltac:(lia)).
    pose proof (Z.mod_pos_bound b 4069 ltac:(lia)). pose proof (leaf_position_lt (b / 4069) (nblocks / 4069)) as Hlp.
    repeat case_decide; try done; exfalso; lia.
Qed.

Lemma truncate_inside rel rel1 rel2 nblocks p p1 : is_u 32 nblocks -> 0 < nblocks `mod` 4069 ->
  let a := mk 0 (nblocks / 4069) in
  rel_ok rel2 -> all_wf rel2 -> (forall b s, map_slot rel1 b s = map_slot rel b s) ->
  page_at rel1 a = Some p -> page_at rel2 a = Some p1 ->
  (forall b, valid_addr b -> b <> a -> page_at rel2 b = page_at rel1 b) ->
  (forall s, 0 <= s < SlotsPerFSMPage -> page_slot p1 s = if decide (s < nblocks `mod` 4069) then page_slot p s else 0) ->
  truncated rel rel2 nblocks (position a + 1).
Proof.
  intros Hb Hmod a Hok Hw Hms Hp Hp1 Hother Hsl. pose proof Hb as Hb'. unfold is_u in Hb'.
  destruct (location_mk nblocks Hb) as [_ Hv]. fold a in Hv. pose proof (position_range _ Hv).
  assert (forall b, is_u 32 b -> b / 4069 <= nblocks / 4069 -> recorded rel2 b = if decide (b < nblocks) then recorded rel b else 0) as Hrec.
  { intros b Hb2 Hle. rewrite !recorded_at by done. destruct (location_mk b Hb2) as [_ Hvb]. rewrite <- (Hms (mk 0 (b / 4069))).
    pose proof (Z.div_mod nblocks 4069 ltac:(lia)). pose proof (Z.div_mod b 4069 ltac:(lia)).
    pose proof (Z.mod_pos_bound b 4069 ltac:(lia)). pose proof (Z.mod_pos_bound nblocks 4069 ltac:(lia)).
    destruct (decide (b / 4069 = nblocks / 4069)) as [E|Hne].
    - rewrite E. fold a. unfold map_slot. rewrite Hp1, Hp, Hsl by (fsm_consts; lia). repeat case_decide; done || lia.
    - rewrite decide_True by lia. unfold map_slot. rewrite Hother; [done|done|]. intros E. by injection E. }
  split_and!; auto.
  - intros b Hb2. rewrite Hrec, decide_True; [done|lia|unfold is_u; lia|]. apply Z.div_le_mono; lia.
  - rewrite decide_False by (unfold InvalidBlockNumber; lia). intros b Hb2. pose proof Hb2 as Hb3.
    destruct (location_mk b Hb2) as [_ Hvb].
    pose proof (leaf_position_lt (nblocks / 4069) (b / 4069)) as Hlp. fold a in Hlp.
    rewrite (recorded_at (cut_map _ _)), map_slot_cut by (done || lia). rewrite <- recorded_at by done.
    destruct (decide (position (mk 0 (b / 4069)) < position a + 1)) as [Hle|Hgt]; [apply Hrec; [done|lia]|].
    rewrite decide_False; [done|]. intros Hlt. pose proof (Z.div_le_mono b nblocks 4069 ltac:(lia) ltac:(lia)). lia.
Qed.

Lemma prepare_truncate_spec rel nblocks : rel_ok rel -> all_wf rel -> is_u 32 nblocks ->
  exists rel1 n, FreeSpaceMapPrepareTruncateRel rel nblocks = Ok (rel1, n) /\ truncated rel rel1 nblocks n.
Proof.
  intros Hok Hw Hb. unfold FreeSpaceMapPrepareTruncateRel. pose proof Hb as Hb'. unfold is_u in Hb'.
  destruct (location_mk nblocks Hb) as [Hloc Hv]. pose proof (position_range _ Hv) as Hpr.
  destruct (fsm_exists rel) eqn:He; cbn [negb].
  2:{ exists rel, InvalidBlockNumber. split; [done|]. split_and!; auto. rewrite decide_True by done. intros b _ Hb2.
      apply recorded_absent; [done|]. unfold fsm_nblocks. rewrite (ok_exists _ Hok He). simpl.
      apply position_range. by destruct (location_mk b Hb2). }
  rewrite Hloc. pose proof (Z.mod_pos_bound nblocks 4069 ltac:(lia)) as Hmod. set (a := mk 0 (nblocks / 4069)) in *.
  destruct (Z.ltb_spec 0 (nblocks `mod` 4069)) as [Hpos|Hzero].
  - destruct (readbuf_spec rel a false Hok Hv) as (rel1 & Hsf & Hok1 & ->).
    destruct (same_file_facts _ _ Hsf) as (HN & _ & Hms & Hw1 & _).
    destruct (Z.ltb_spec (position a) (fsm_nblocks rel)) as [Hlt|Hge].
    + destruct (page_at_Some rel1 a Hv ltac:(lia)) as [p Hp]. rewrite (page_at_aget _ _ _ Hv Hp), bind_val.
      pose proof (Forall_lookup_1 _ _ _ _ (Hw1 Hw) Hp : page_wf p) as Hpw.
      destruct (truncate_law p (nblocks `mod` 4069) Hpw ltac:(fsm_consts; lia)) as (p1 & c & -> & Hp1w & Hsl). rewrite bind_val.
      destruct (write_spec rel1 a p p1 Hok1 Hv Hp (wf_ok _ Hp1w)) as (rel2 & -> & Hok2 & _ & _ & Hpa & Hother & Hw2). rewrite bind_val.
      exists rel2, (position a + 1). split.
      * rewrite physical_position by done. do 2 f_equal. apply wrapu_small. unfold is_u. lia.
      * eapply truncate_inside; try done. by apply Hw2; auto.
    + exists rel1, InvalidBlockNumber. split; [done|]. split_and!; auto.
      * intros b Hb2. rewrite !recorded_at by (unfold is_u; lia). apply Hms.
      * rewrite decide_True by done. intros b Hnb Hb2. apply recorded_absent; [done|].
        pose proof (later_page b nblocks ltac:(lia) Hnb). fold a in H. lia.
  - assert (same_file rel (refresh_cache rel)) as Hsf by done.
    assert (rel_ok (refresh_cache rel)) as Hok1.
    { destruct Hok. split; try done. intros n. unfold refresh_cache. cbn [fsm_cached set_cached]. rewrite He.
      intros [= <-]. done. }
    pose proof (truncate_boundary rel (refresh_cache rel) nblocks Hb ltac:(lia) Hsf Hok1 Hw) as Ht. fold a in Ht.
    rewrite physical_position by done. change (fsm_nblocks (refresh_cache rel)) with (fsm_nblocks rel).
    eexists _, _. split; [|exact Ht]. by destruct (fsm_nblocks rel <=? position a).
Qed.
End Truncate.

(** Preparing to truncate a relation to [nblocks] blocks keeps what is recorded of the
    blocks that stay; when the returned number of map blocks is kept, nothing is recorded
    of the others any more, and when [InvalidBlockNumber] is returned nothing was. *)
Theorem fsm_prepare_truncate `{LP : FSMPageLaws P} (rel : Relation P) nblocks :
  rel_ok rel -> all_wf rel -> is_u 32 nblocks ->
  exists rel1 n, FreeSpaceMapPrepareTruncateRel rel nblocks = Ok (rel1, n) /\ rel_ok rel1 /\ all_wf rel1 /\
    (forall b, 0 <= b < nblocks -> recorded rel1 b = recorded rel b) /\
    (n = InvalidBlockNumber -> forall b, nblocks <= b -> is_u 32 b -> recorded rel b = 0) /\
    (n <> InvalidBlockNumber -> forall b, is_u 32 b ->
       recorded (cut_map rel1 n) b = if decide (b < nblocks) then recorded rel b else 0).
Proof.
  intros Hok Hw Hb. destruct (prepare_truncate_spec rel nblocks Hok Hw Hb) as (rel1 & n & E & Hok1 & Hw1 & Hk & Ht).
  exists rel1, n. split_and!; try done; intros Hn; by case_decide.
Qed.

Lemma fsm_prepare_truncate_witness :
  exists rel1 n, FreeSpaceMapPrepareTruncateRel empty_map 5 = Ok (rel1, n) /\ rel_ok rel1.
Proof.
  destruct (fsm_prepare_truncate empty_map 5) as (rel1 & n & E & Hok & _); [apply empty_map_ok..|unfold is_u; lia|].
  exists rel1, n. split; [exact E|exact Hok].
Defined.
